(* ===== verification/_CoqProject ===== *)
-Q . S2P
Prelude.v
GoString.v
GoFloat.v
GoTime.v
Transcript.v
Tenancy.v
Guards.v
GuardsSpec.v
Breaker.v
CacheRules.v
CachePrices.v
CacheSpec.v
CacheVerdict.v
Calibrate.v
Fit.v
Replay.v
Intervals.v
Json.v
Splice.v
Wire.v
WireSpec.v
Vault.v
Masking.v
MaskingSpec.v
JsonValue.v
Scope.v
Rehydrate.v
RehydrateSpec.v
RoundTrip.v
Stream.v
StreamSpec.v
Siblings.v
Retry.v
Labels.v
Blocks.v
Evidence.v
Ledger.v
LedgerStore.v
Summary.v
StreamLines.v
MessageReader.v
ChatReader.v
SummarySpec.v
HostGuard.v
Rewrites.v
GoMath.v
Plans.v
Quota.v
Prog.v
ResponsesReader.v
Tap.v
ClaudeCode.v
ClaudeCodeSpec.v
LedgerStoreSpec.v
Policy.v
PrefixDelta.v
Stats.v
Blame.v
Waste.v
Gap.v
Breaks.v
Reports.v
StatsSpec.v
PolicyPin.v
Trim.v
Codex.v
Redact.v
Learn.v
Advisor.v
Probe.v
Contributions.v
Outcome.v
PriceFeed.v
EvidenceVerify.v
EvidenceText.v
EvidenceVerifySpec.v
Handle.v
HandleScene.v
HandleProbe.v
HandleEffects.v
