(* ===== verification/Prelude.v ===== *)
(** * A verification of the Replay proxy and its analysis

    Replay is a local proxy between a coding agent and a model provider.  Each
    request passes guards, has its secrets masked, may wait for a sibling with
    the same prefix, is sent with retries, and its response has the secrets put
    back for the tools that may see them.  A record of every request goes to a
    ledger; from the ledger the analysis decides what the provider's prompt
    cache did, why a prefix was lost, what it cost, and what another policy
    would have cost.

    ** Conventions

    Go's [int] is a 64-bit integer kept in [Z]; [+!], [-!], [*!] wrap.  A
    [float64] is a binary64 number with its operations ([GoFloat]).  A string
    is its bytes.  A map is a [gmap]; where the order of a range over a map can
    show, the function takes the order as an [iteration], and theorems hold for
    every one.  A clock is the list of readings, or the one reading, that the
    operation meets.  A pointer that may be nil, a panic and an error are values
    of an option or a sum.  A method that holds a mutex for its whole body is
    one function on the state; where the code releases the lock in between, the
    critical sections are the steps of a relation.

    ** The parts

    - [GoString], [GoFloat], [GoTime], [GoMath], [Json],
      [JsonValue], [Splice], [Intervals]: what the source uses of the language
      and of the standard library: bytes, decimal text, binary64, instants, the
      JSON grammar, the values of a JSON text and the decoding of a struct
      ([RawJson], in [JsonValue]), cutting and joining a text at positions.
    - [Transcript] ([internal/transcript/types.go]): usage, blocks, messages,
      requests, lanes, sessions.  [Labels] ([wire.go]): labels safe to print.
    - [Tenancy] ([internal/tenancy]): tenant and account identities, the
      registry; a tenant reaches its own entries only.
    - [Guards], [GuardsSpec] ([SpendGuard] of [internal/proxy/guards.go]): caps
      per session and per day; a state reachable by its operations is bounded,
      a cap reached stays reached across eviction and, per day, across a
      restart, and tenants do not interfere.
    - [Breaker] (the same file): the circuit breaker, with the probes in
      flight it may have, and the loop detector against the run it counts.
    - [Siblings], with [SiblingsSpec] ([siblings.go]): the gate that holds requests
      whose prefix is being written, as a step relation: one leader, no waiter
      forgotten, everyone can get through.
    - [Retry] ([retry.go]): what is sent again, after which wait, and when the
      loop ends.
    - [Masking], [MaskingSpec], [Vault], [Scope], [Rehydrate],
      [RehydrateSpec], [RoundTrip], [Stream], [StreamSpec]
      ([internal/masking]): finding secrets, replacing them by the vault's
      placeholders, restoring them in a body and in an event stream cut
      anywhere, and only for a destination whose scope allows it.
    - [CacheRules], [CachePrices], [CacheSpec], [CacheVerdict] (with [Pricing])
      ([internal/cachemodel]): the dated rules document, prices and their
      provenance, measured floors, expected reads and the causes of a lost
      prefix.  [Pricing] is the class [PriceLayer]: what a tally relies on of
      the price table, discharged for the compiled table and for any validated
      document.
    - [Calibrate], [Fit], [Replay], [Breaks], [Blame], [Waste], [Gap], [Trim],
      [Reports], [Plans], [Quota] ([internal/analysis], [internal/quota]):
      every turn against the expected read, the byte-to-token fit, the replay
      under another policy, the cause that applies to each break and its
      position, tokens attributed to labels against the provider's bill, wasted
      work, what entered a context, what trimming
      would save and break, the report of a lane and the spend of a session,
      advice on figures, rate limits.  Each file holds its theorems; those of
      [Replay], [Gap] and [Reports] are in a module of the same name with
      [Spec].
    - [Ledger] (with [LedgerSpec]), [LedgerStore], [LedgerStoreSpec]
      ([internal/ledger]): the record, the session its records build, the files:
      appended lines, torn tails, pins and the revert found again by a restart.
    - [Wire], [WireSpec], [Blocks], [Evidence], [ClaudeCode], [ClaudeCodeSpec],
      [Codex], [Redact] ([internal/transcript]): the bytes of a content counted
      without decoding it, as the decoder counts it as deep as that one nests,
      blocks, error flags, and the transcripts of two
      agents as sessions: each response a request or a counted skip, each usage
      record billed, repeated or refused; and the redaction of a transcript,
      which shows nothing of the texts of a well-formed turn.
    - [Summary], [SummarySpec], [StreamLines], [MessageReader], [ChatReader],
      [ResponsesReader], [Tap] ([internal/ledger], [internal/proxy/tap.go]):
      what is kept of a request and of a response, whole or as a stream cut
      into writes that, with a line, stay within the parser's bound.
    - [Policy], [PrefixDelta], [Stats], [StatsSpec], [PolicyPin]
      ([internal/policy], [causedetail.go], [state.go], [policyinject.go],
      [trial.go]): the parameter spliced into a body, which tools changed, the
      proxy's live state, and the decision a session keeps when its requests
      ask one at a time.  [StatsSpec] joins
      the two halves of the program: as long as no session was evicted, the
      verdicts given live are the ones the analysis gives over the ledger.
    - [HostGuard], [Rewrites] (with [PreFlight]), [Prog], [Handle], [HandleScene]
      (with [HandleSpec]), [HandleProbe], [HandleEffects] ([internal/proxy]): the
      handler of a request.  [Handle] composes the parts above in the order of
      the source, as a program over the state all requests share ([Prog]: a
      tree of critical sections, run in any interleaving).  What a request
      leaves behind, the bytes it may change, the guards it passed and the
      probe it gives back are proved whatever runs beside it.
    - [Learn], [Advisor] ([internal/learn], [internal/advisor]): candidates
      scored over many sessions and the one selected, the trial's verdicts, the
      suggestions, each with its evidence and its status.
    - [Probe] ([internal/probe]): the paid search for a cacheable minimum: it
      keeps to its budget whatever comes back, and against a provider that has
      a minimum it ends with it in a narrow bracket.
    - [Contributions] ([internal/consent], [internal/observation],
      [cmd/replay/pool.go]): what may leave the machine, and the pool that
      counts each machine's tag once ([PoolSpec]).
    - [Outcome] ([internal/outcome], [internal/outputdiscipline]): the git
      identity of a run's files and the verdict on the run ([OutcomeSpec]).
    - [PriceFeed] ([internal/cachemodel]): the rules document the table is
      published as, its digest, and its comparison with another source.
    - [EvidenceVerify], [EvidenceText], [EvidenceVerifySpec]
      ([internal/evidenceverify], [stateledger], [evidenceclaim]): the check of
      a claim against the bytes of a transcript.  [EvidenceText] writes down
      what a JSON document is; the strict scanner reads those and nothing else,
      and the verdict is what the pinned bytes record.  The register of claims
      keeps every claim's history.

    ** Fuel

    A loop of the source that is not structural carries fuel, and the fuel is
    given from the data at the call: the eviction loop of the session table the
    size of the table (each turn deletes), the JSON scanners the length of the
    text (each turn consumes), the stream's drain the length of the pending
    bytes, a parent walk the number of lines, a probe run its budget and, against
    a provider with a minimum, the answers still to come.  The retry loop and
    the sibling gate take no fuel: the first is
    structural in the attempts met, the second is a relation.

    ** Not modelled

    Network, files, clocks, locks and goroutines except as above; regular
    expressions, cryptography and JSON of the records are parameters, with what
    the code relies on as hypotheses that an instance in the witnesses meets.
    Texts for people (reports, the terminal interface, cards, metrics) and the
    wiring of the subcommands are left out, and so are the tools that test and
    release the repository, the registers that check the
    repository's own documents, self
    update, the export of spans, the vendor feed, the readers of the
    transcripts of three more agents and the listeners of the server.  Of the
    parts modelled, the definitions say what they leave out where they do. *)

From stdpp Require Export base decidable list strings gmap sorting.
From Stdlib Require Export ZArith Lia Bool.

#[export] Set Default Proof Using "Type".

Open Scope Z_scope.

(** ** 64-bit machine integers

    Go's [int] and [int64] are two's-complement 64-bit integers on every
    platform the program is built for; arithmetic wraps silently. *)

Declare Scope go_scope.
Delimit Scope go_scope with go.

Definition two64 : Z := 18446744073709551616.
Definition two63 : Z := 9223372036854775808.
Definition max_int64 : Z := two63 - 1.
Definition min_int64 : Z := - two63.

Definition wrap64 (z : Z) : Z := (z + two63) mod two64 - two63.

Definition int64_range (z : Z) : Prop := min_int64 <= z <= max_int64.

#[export] Instance int64_range_dec z : Decision (int64_range z).
Proof. unfold int64_range; apply _. Defined.

Definition iadd (a b : Z) : Z := wrap64 (a + b).
Definition isub (a b : Z) : Z := wrap64 (a - b).
Definition imul (a b : Z) : Z := wrap64 (a * b).

Infix "+!" := iadd (at level 50, left associativity) : go_scope.
Infix "-!" := isub (at level 50, left associativity) : go_scope.
Infix "*!" := imul (at level 40, left associativity) : go_scope.
Open Scope go_scope.

Create HintDb go.

Ltac unfold_int :=
  unfold iadd, isub, imul, wrap64, int64_range, min_int64, max_int64,
    two63, two64 in *.

Lemma wrap64_range z : int64_range (wrap64 z).
Proof.
  unfold_int.
  pose proof (Z.mod_pos_bound (z + 9223372036854775808) 18446744073709551616
                ltac:(lia)).
  lia.
Qed.

Lemma wrap64_small z : int64_range z -> wrap64 z = z.
Proof. intros Hz. unfold_int. rewrite Z.mod_small; lia. Qed.

Lemma wrap64_eq_mod z : exists k, wrap64 z = z + k * two64.
Proof.
  unfold wrap64.
  pose proof (Z.div_mod (z + two63) two64 ltac:(unfold two64; lia)).
  exists (- ((z + two63) / two64)). lia.
Qed.

Lemma wrap64_shift z k : wrap64 (z + k * two64) = wrap64 z.
Proof.
  unfold wrap64.
  replace (z + k * two64 + two63) with ((z + two63) + k * two64) by lia.
  rewrite Z.mod_add; [done | unfold two64; lia].
Qed.

Lemma wrap64_add_l a b : wrap64 (wrap64 a + b) = wrap64 (a + b).
Proof.
  destruct (wrap64_eq_mod a) as [k ->].
  replace (a + k * two64 + b) with ((a + b) + k * two64) by lia.
  apply wrap64_shift.
Qed.

Lemma wrap64_add_r a b : wrap64 (a + wrap64 b) = wrap64 (a + b).
Proof. rewrite Z.add_comm, wrap64_add_l. f_equal; lia. Qed.

Lemma wrap64_sub_l a b : wrap64 (wrap64 a - b) = wrap64 (a - b).
Proof. apply (wrap64_add_l a (- b)). Qed.

Lemma wrap64_sub_r a b : wrap64 (a - wrap64 b) = wrap64 (a - b).
Proof.
  destruct (wrap64_eq_mod b) as [k ->].
  replace (a - (b + k * two64)) with ((a - b) + (- k) * two64) by lia.
  apply wrap64_shift.
Qed.

Lemma wrap64_idem z : wrap64 (wrap64 z) = wrap64 z.
Proof. apply wrap64_small, wrap64_range. Qed.

#[export] Hint Resolve wrap64_range wrap64_small : go.
#[export] Hint Rewrite wrap64_add_l wrap64_add_r wrap64_sub_l wrap64_sub_r
  wrap64_idem : go.

(** [lia_int]: bounded machine arithmetic.  Every wrapped operation whose
    operands are known to stay in range is replaced by the exact one. *)
Ltac lia_int :=
  unfold iadd, isub, imul in *;
  repeat match goal with
    | |- context [wrap64 ?z] =>
        rewrite (wrap64_small z) by (unfold_int; lia)
    | H : context [wrap64 ?z] |- _ =>
        rewrite (wrap64_small z) in H by (unfold_int; lia)
    end; unfold_int; lia.

(** ** Equality up to wrap-around

    What a chain of wrapping operations computes, whatever overflowed on the
    way: the same number modulo 2^64. *)

Definition cong64 (a b : Z) : Prop := wrap64 a = wrap64 b.
Infix "≡₆₄" := cong64 (at level 70) : go_scope.

Lemma cong64_iff a b : a ≡₆₄ b <-> exists k, a = b + k * two64.
Proof.
  split.
  - intros H. destruct (wrap64_eq_mod a) as [i Ha], (wrap64_eq_mod b) as [j Hb].
    exists (j - i). unfold cong64 in H. lia.
  - intros [k ->]. apply wrap64_shift.
Qed.

#[export] Instance cong64_equiv : Equivalence cong64.
Proof. split; repeat intro; unfold cong64 in *; congruence. Qed.

#[export] Instance cong64_add : Proper (cong64 ==> cong64 ==> cong64) Z.add.
Proof.
  intros a b [i ->]%cong64_iff c d [j ->]%cong64_iff. apply cong64_iff. exists (i + j). lia.
Qed.

#[export] Instance cong64_sub : Proper (cong64 ==> cong64 ==> cong64) Z.sub.
Proof.
  intros a b [i ->]%cong64_iff c d [j ->]%cong64_iff. apply cong64_iff. exists (i - j). lia.
Qed.

#[export] Instance cong64_mul : Proper (cong64 ==> cong64 ==> cong64) Z.mul.
Proof.
  intros a b [i ->]%cong64_iff c d [j ->]%cong64_iff. apply cong64_iff.
  exists (i * d + b * j + i * j * two64). lia.
Qed.

Lemma cong64_wrap z : wrap64 z ≡₆₄ z.
Proof. apply wrap64_idem. Qed.

Lemma cong64_iadd a b : a +! b ≡₆₄ a + b.
Proof. apply cong64_wrap. Qed.

Lemma isub_exact a b : int64_range (a - b) -> a -! b = a - b.
Proof. apply wrap64_small. Qed.

Lemma cong64_isub a b : a -! b ≡₆₄ a - b.
Proof. apply cong64_wrap. Qed.

Lemma cong64_imul a b : a *! b ≡₆₄ a * b.
Proof. apply cong64_wrap. Qed.

(** Two machine integers equal up to wrap-around are equal. *)
Lemma cong64_eq a b : int64_range a -> int64_range b -> a ≡₆₄ b -> a = b.
Proof. intros Ha Hb H. unfold cong64 in H. by rewrite !wrap64_small in H. Qed.

(** ** Decision procedures shared by the development *)

(** [case_bool]: splits on the boolean scrutinee of an [if] in the goal or a
    hypothesis and turns arithmetic comparisons into propositions. *)
Ltac reflect_bool :=
  repeat match goal with
    | H : (_ && _) = true |- _ => apply andb_true_iff in H as [? ?]
    | H : (_ || _) = false |- _ => apply orb_false_iff in H as [? ?]
    | H : negb _ = true |- _ => apply negb_true_iff in H
    | H : negb _ = false |- _ => apply negb_false_iff in H
    | H : (_ <? _) = true |- _ => apply Z.ltb_lt in H
    | H : (_ <? _) = false |- _ => apply Z.ltb_ge in H
    | H : (_ <=? _) = true |- _ => apply Z.leb_le in H
    | H : (_ <=? _) = false |- _ => apply Z.leb_gt in H
    | H : (_ =? _) = true |- _ => apply Z.eqb_eq in H
    | H : (_ =? _) = false |- _ => apply Z.eqb_neq in H
    | H : bool_decide _ = true |- _ => apply bool_decide_eq_true_1 in H
    | H : bool_decide _ = false |- _ => apply bool_decide_eq_false_1 in H
    end.

Ltac case_bool :=
  match goal with
  | |- context [if ?b then _ else _] =>
      lazymatch type of b with
      | bool => destruct b eqn:?
      | _ => destruct b
      end
  | H : context [if ?b then _ else _] |- _ =>
      lazymatch type of b with
      | bool => destruct b eqn:?
      | _ => destruct b
      end
  end; reflect_bool; simplify_eq/=.

(** ** Go's [range] over a slice with its index *)

Definition indexed {A} (l : list A) : list (nat * A) := imap pair l.

(** A loop over [l] that indexes a parallel slice [bs] is a fold over the pairs. *)
Lemma fold_indexed_zip {A B St} (bs : list B) (g : option St -> nat * A -> option St)
    (f : St -> A -> B -> St) :
  (forall s i a, g (Some s) (i, a) = b ← bs !! i; Some (f s a b)) ->
  forall l s, length l = length bs ->
  fold_left g (indexed l) (Some s) = Some (fold_left (fun s '(a, b) => f s a b) (zip l bs) s).
Proof.
  intros Hg l s. unfold indexed.
  assert (forall k l s, length l = length (drop k bs) ->
    fold_left g (imap (fun i x => (k + i, x)%nat) l) (Some s)
    = Some (fold_left (fun s '(a, b) => f s a b) (zip l (drop k bs)) s)) as H.
  { clear l s. intros k l. revert k. induction l as [|a l IH]; intros k s Hl; [done |].
    destruct (drop k bs) as [|b bs'] eqn:Hd; [done |].
    assert (bs !! k = Some b) as Hk by (rewrite <- (Nat.add_0_r k), <- lookup_drop; by rewrite Hd).
    assert (drop (S k) bs = bs') as Hd'
      by (replace (S k) with (k + 1)%nat by lia; rewrite <- drop_drop; by rewrite Hd).
    cbn [imap fold_left]. rewrite Hg, Nat.add_0_r, Hk. cbn [mbind option_bind zip zip_with fold_left].
    rewrite <- Hd'. rewrite <- (IH (S k)); [| by rewrite Hd'; injection Hl].
    f_equal. apply imap_ext. intros i x _. cbn. f_equal. lia. }
  intros Hl. exact (H 0%nat l s Hl).
Qed.

(** ** Finding the first element, the shape of Go's search loops *)

Section find.
Context {A : Type}.

Fixpoint find_first (p : A -> bool) (l : list A) : option A :=
  match l with
  | [] => None
  | x :: l' => if p x then Some x else find_first p l'
  end.

Lemma find_first_some p l x :
  find_first p l = Some x <->
  exists l1 l2, l = l1 ++ x :: l2 /\ p x = true /\
                Forall (fun y => p y = false) l1.
Proof.
  split.
  - induction l as [|y l IH]; simpl; [done |].
    destruct (p y) eqn:Hy.
    + intros [= ->]. exists [], l. auto.
    + intros (l1 & l2 & -> & Hx & Hall)%IH.
      exists (y :: l1), l2. auto.
  - intros (l1 & l2 & -> & Hx & Hall).
    induction Hall as [|z l1 Hz _ IH]; simpl; [by rewrite Hx |].
    by rewrite Hz.
Qed.

Lemma find_first_none p l :
  find_first p l = None <-> Forall (fun y => p y = false) l.
Proof.
  split.
  - induction l as [|y l IH]; simpl; [constructor |].
    destruct (p y) eqn:Hy; [done |]. constructor; auto.
  - induction 1 as [|z l Hz _ IH]; simpl; [done |]. by rewrite Hz.
Qed.
End find.

Lemma find_first_ext {A} (p q : A -> bool) l :
  (forall x, x ∈ l -> p x = q x) -> find_first p l = find_first q l.
Proof.
  induction l as [|y l IH]; intros Hpq; simpl; [done |].
  rewrite (Hpq y) by left. rewrite IH; [done |]. intros; apply Hpq; by right.
Qed.

(** ** [sort.SliceStable]: an element moves ahead of another only when it is
    [less]. *)

Section stable_sort.
Context {A : Type} (less : A -> A -> bool).

Fixpoint insert_stable (x : A) (l : list A) : list A :=
  match l with
  | [] => [x]
  | y :: l' => if less y x then y :: insert_stable x l' else x :: l
  end.

Definition SliceStable (l : list A) : list A := foldr insert_stable [] l.

Lemma insert_stable_perm x l : insert_stable x l ≡ₚ x :: l.
Proof.
  induction l as [|y l IH]; [done |]. cbn. destruct (less y x); [| done].
  rewrite IH. constructor.
Qed.

Lemma SliceStable_perm l : SliceStable l ≡ₚ l.
Proof.
  induction l as [|x l IH]; [done |]. cbn. fold (SliceStable l). by rewrite insert_stable_perm, IH.
Qed.

(** A list in order already is left as it is. *)
Lemma SliceStable_sorted l : Sorted (fun x y => less y x = false) l -> SliceStable l = l.
Proof.
  induction 1 as [|x l _ IH Hhd]; [done |]. cbn. fold (SliceStable l). rewrite IH.
  destruct Hhd as [|y l Hy]; [done |]. cbn. by rewrite Hy.
Qed.

(** Sorting by a strict weak order puts every pair in order. *)
Definition in_order (x y : A) : Prop := less y x = false.

Class StrictWeak : Prop := {
  less_asym x y : less x y = true -> less y x = false;
  in_order_trans x y z : in_order x y -> in_order y z -> in_order x z
}.

Lemma insert_stable_sorted `{!StrictWeak} x l :
  StronglySorted in_order l -> StronglySorted in_order (insert_stable x l).
Proof using Type*.
  induction 1 as [|y l Hl IH Hy]; [by repeat constructor |]. cbn. destruct (less y x) eqn:E.
  - constructor; [done |]. apply Forall_forall. intros z. rewrite insert_stable_perm.
    intros [->|Hz]%elem_of_cons; [by apply less_asym |]. rewrite Forall_forall in Hy. by apply Hy.
  - constructor; [by constructor |]. constructor; [done |].
    eapply Forall_impl; [exact Hy |]. intros z Hz. by apply (in_order_trans x y z).
Qed.

Lemma SliceStable_StronglySorted `{!StrictWeak} l : StronglySorted in_order (SliceStable l).
Proof using Type*. induction l as [|x l IH]; [constructor |]. cbn. by apply insert_stable_sorted. Qed.

(** Elements no two of which tie are sorted the same way whatever order they
    came in. *)
Lemma SliceStable_unique `{!StrictWeak} l1 l2 :
  (forall x y, x ∈ l1 -> y ∈ l1 -> in_order x y -> in_order y x -> x = y) ->
  l1 ≡ₚ l2 -> SliceStable l1 = SliceStable l2.
Proof using Type*.
  intros Htie Hp. apply (StronglySorted_unique_strong in_order); [| apply SliceStable_StronglySorted.. |].
  - intros x y Hx Hy. rewrite SliceStable_perm in Hx, Hy. rewrite <- Hp in Hy. by apply Htie.
  - by rewrite !SliceStable_perm.
Qed.
End stable_sort.

(** ** Go's map iteration

    [for k, v := range m] visits every entry once, in an order the language
    leaves open and that may differ from one loop to the next.  An operation
    that ranges over a map takes the order it met as an [iteration]; theorems
    quantify over it. *)

Record iteration := {
  go_range :> forall V : Type, gmap string V -> list (string * V);
  go_range_perm : forall V (m : gmap string V), go_range V m ≡ₚ map_to_list m
}.
Arguments go_range _ {V} _.
Arguments go_range_perm _ {V} _.

Definition key_order : iteration :=
  {| go_range := fun V (m : gmap string V) => map_to_list m;
     go_range_perm := fun V m => reflexivity _ |}.

Lemma elem_of_go_range (it : iteration) {V} (m : gmap string V) k v :
  (k, v) ∈ go_range it m <-> m !! k = Some v.
Proof. rewrite (go_range_perm it m). apply elem_of_map_to_list. Qed.

Lemma go_range_nil (it : iteration) {V} (m : gmap string V) :
  go_range it m = [] <-> m = ∅.
Proof.
  split.
  - intros Hnil. apply map_to_list_empty_iff, Permutation_nil.
    rewrite <- Hnil. apply go_range_perm.
  - intros ->. apply Permutation_nil. symmetry.
    rewrite go_range_perm, map_to_list_empty. done.
Qed.

(** ** The inner map of a two-level table: absent and empty are the same to a
    reader ([m[outer][inner]] on a nil inner map is a miss). *)
Definition inner {K V} `{Countable K} (m : gmap K (gmap string V)) (k : K) : gmap string V :=
  default ∅ (m !! k).

Lemma inner_insert_eq {K V} `{Countable K} (m : gmap K (gmap string V)) k x :
  inner (<[k := x]> m) k = x.
Proof. unfold inner. by rewrite lookup_insert_eq. Qed.

Lemma inner_insert_ne {K V} `{Countable K} (m : gmap K (gmap string V)) k k' x :
  k <> k' -> inner (<[k := x]> m) k' = inner m k'.
Proof. intros Hne. unfold inner. by rewrite lookup_insert_ne. Qed.
