(* ===== verification/GoString.v ===== *)
(** Go strings: byte sequences, ASCII case folding, substring search and the
    decimal rendering behind [%d].

    A Go [string] is an immutable sequence of bytes; [Stdlib.Strings.String]
    is the same thing (an [ascii] is eight bits), so no encoding step stands
    between the source's literals and the model's. *)

From S2P Require Import Prelude.
From Stdlib Require Import Ascii String DecimalString DecimalN NArith.

#[global] Arguments String.append !_ _ / : simpl nomatch.

Open Scope string_scope.
Open Scope Z_scope.

(** ** Characters *)

Definition char_between (lo hi c : ascii) : bool :=
  (N_of_ascii lo <=? N_of_ascii c)%N && (N_of_ascii c <=? N_of_ascii hi)%N.

Definition is_digit (c : ascii) : bool := char_between "0" "9" c.
Definition is_lower (c : ascii) : bool := char_between "a" "z" c.
Definition is_upper (c : ascii) : bool := char_between "A" "Z" c.
Definition is_alnum (c : ascii) : bool := is_digit c || is_lower c || is_upper c.

Definition lower_char (c : ascii) : ascii :=
  if is_upper c then ascii_of_N (N_of_ascii c + 32) else c.

Definition upper_char (c : ascii) : ascii :=
  if is_lower c then ascii_of_N (N_of_ascii c - 32) else c.

(** ** [strings.ToLower], [strings.ToUpper] on ASCII text *)

Fixpoint map_string (f : ascii -> ascii) (s : string) : string :=
  match s with
  | EmptyString => EmptyString
  | String c s' => String (f c) (map_string f s')
  end.

Definition to_lower : string -> string := map_string lower_char.
Definition to_upper : string -> string := map_string upper_char.

(** [strings.EqualFold] on ASCII text. *)
Definition equal_fold (a b : string) : bool := String.eqb (to_lower a) (to_lower b).

Definition len (s : string) : Z := Z.of_nat (String.length s).

(** ** Substrings *)

(** [s] starts with [p]; the rest is returned. *)
Fixpoint strip_prefix (p s : string) : option string :=
  match p, s with
  | EmptyString, _ => Some s
  | String a p', String b s' => if Ascii.eqb a b then strip_prefix p' s' else None
  | String _ _, EmptyString => None
  end.

Definition has_prefix (p s : string) : bool :=
  match strip_prefix p s with Some _ => true | None => false end.

(** The suffixes of a string, longest first: the windows that a loop
    [for i := 0; i <= len(s); i++ { s[i:] }] looks at. *)
Fixpoint suffixes (s : string) : list string :=
  s :: match s with
       | EmptyString => []
       | String _ s' => suffixes s'
       end.

(** [strings.Contains]. *)
Definition contains (s sub : string) : bool := existsb (has_prefix sub) (suffixes s).

Fixpoint string_forallb (p : ascii -> bool) (s : string) : bool :=
  match s with
  | EmptyString => true
  | String c s' => p c && string_forallb p s'
  end.

Definition is_space (c : ascii) : bool :=
  let n := N_of_ascii c in ((9 <=? n) && (n <=? 13) || (n =? 32))%N.

Fixpoint trim_left (s : string) : string :=
  match s with
  | String c s' => if is_space c then trim_left s' else s
  | EmptyString => EmptyString
  end.

Fixpoint trim_right (s : string) : string :=
  match s with
  | EmptyString => EmptyString
  | String c s' =>
      match trim_right s' with
      | EmptyString => if is_space c then EmptyString else String c EmptyString
      | t => String c t
      end
  end.

(** [strings.TrimSpace] on ASCII text. *)
Definition trim_space (s : string) : string := trim_right (trim_left s).

(** ** [%d] *)

Definition itoa_N (n : N) : string := NilEmpty.string_of_uint (N.to_uint n).

Definition itoa (z : Z) : string :=
  match z with
  | Zneg p => String "-" (itoa_N (Npos p))
  | _ => itoa_N (Z.to_N z)
  end.

(** ** Lemmas *)

Lemma strip_prefix_spec p s r : strip_prefix p s = Some r <-> s = p ++ r.
Proof.
  revert s; induction p as [|a p IH]; intros s; simpl.
  - split; [by intros [= ->] | by intros ->].
  - destruct s as [|b s]; simpl; [done |].
    destruct (Ascii.eqb_spec a b) as [->|Hne].
    + rewrite IH. split; [by intros -> | by intros [= ->]].
    + split; [done | by intros [= -> ?]].
Qed.

Lemma has_prefix_spec p s : has_prefix p s = true <-> exists r, s = p ++ r.
Proof.
  unfold has_prefix. destruct (strip_prefix p s) as [r|] eqn:Hs.
  - apply strip_prefix_spec in Hs. split; [by eauto | done].
  - split; [done | intros [r Hr%strip_prefix_spec]; congruence].
Qed.

Lemma elem_of_suffixes s t : t ∈ suffixes s <-> exists u, s = u ++ t.
Proof.
  split.
  - induction s as [|c s IH]; simpl; intros Ht.
    + apply list_elem_of_singleton in Ht as ->. by exists "".
    + apply elem_of_cons in Ht as [->|Ht]; [by exists "" |].
      destruct (IH Ht) as [u ->]. by exists (String c u).
  - intros [u ->]. induction u as [|c u IH]; simpl.
    + destruct t; simpl; left.
    + by right.
Qed.

Lemma contains_spec s sub : contains s sub = true <-> exists u v, s = u ++ sub ++ v.
Proof.
  unfold contains. rewrite existsb_exists. split.
  - intros (t & Ht%list_elem_of_In & [v ->]%has_prefix_spec).
    apply elem_of_suffixes in Ht as [u ->]. eauto.
  - intros (u & v & ->). exists (sub ++ v). split.
    + apply list_elem_of_In, elem_of_suffixes. eauto.
    + apply has_prefix_spec; eauto.
Qed.

Lemma string_app_nil_r (s : string) : s ++ "" = s.
Proof. induction s as [|c s IH]; simpl; [done | by rewrite IH]. Qed.

Lemma string_app_assoc (a b c : string) : (a ++ b) ++ c = a ++ (b ++ c).
Proof. induction a as [|x a IH]; simpl; [done | by rewrite IH]. Qed.

Lemma string_app_inv_head (a b c : string) : a ++ b = a ++ c -> b = c.
Proof. induction a as [|x a IH]; simpl; [done |]. intros [=]; auto. Qed.

Lemma string_length_app (a b : string) :
  String.length (a ++ b) = (String.length a + String.length b)%nat.
Proof. induction a as [|x a IH]; simpl; [done | by rewrite IH]. Qed.

Lemma string_app_inv_length (a b c d : string) :
  String.length a = String.length c -> a ++ b = c ++ d -> a = c /\ b = d.
Proof.
  revert c; induction a as [|x a IH]; intros [|y c] Hl Heq; simpl in *; try done.
  injection Heq as -> Heq. injection Hl as Hl.
  by destruct (IH c Hl Heq) as [-> ->].
Qed.

Lemma string_forallb_app p a b :
  string_forallb p (a ++ b) = string_forallb p a && string_forallb p b.
Proof. induction a as [|x a IH]; simpl; [done | by rewrite IH, andb_assoc]. Qed.

Lemma lower_char_idem c : lower_char (lower_char c) = lower_char c.
Proof. destruct c as [[] [] [] [] [] [] [] []]; reflexivity. Qed.

Lemma to_lower_idem s : to_lower (to_lower s) = to_lower s.
Proof.
  unfold to_lower. induction s as [|c s IH]; simpl; [done |].
  by rewrite lower_char_idem, IH.
Qed.

Lemma equal_fold_spec a b : equal_fold a b = true <-> to_lower a = to_lower b.
Proof. apply String.eqb_eq. Qed.

(** A decimal rendering holds digits only, so a separator after it marks
    where it ends. *)
Lemma itoa_N_digits n : string_forallb is_digit (itoa_N n) = true.
Proof.
  unfold itoa_N. generalize (N.to_uint n) as u.
  induction u; simpl; auto.
Qed.

Lemma itoa_N_inj m n : itoa_N m = itoa_N n -> m = n.
Proof.
  unfold itoa_N. intros H.
  apply (f_equal NilEmpty.uint_of_string) in H.
  rewrite !NilEmpty.usu in H. injection H as H.
  by apply DecimalN.Unsigned.to_uint_inj.
Qed.

Lemma split_at_separator (p : ascii -> bool) sep a b x y :
  p sep = false ->
  string_forallb p a = true -> string_forallb p b = true ->
  a ++ String sep x = b ++ String sep y -> a = b /\ x = y.
Proof.
  intros Hsep. revert b; induction a as [|c a IH]; intros [|d b]; simpl; intros Ha Hb Heq.
  - injection Heq as ->. done.
  - injection Heq as -> ->. by rewrite Hsep in Hb.
  - injection Heq as -> <-. by rewrite Hsep in Ha.
  - injection Heq as -> Heq. reflect_bool.
    by destruct (IH b) as [-> ->].
Qed.

(** ** Comparison: Go's [<] on strings is [String.ltb]. *)

Lemma ascii_compare_N (a b : ascii) : Ascii.compare a b = N.compare (N_of_ascii a) (N_of_ascii b).
Proof. done. Qed.

Lemma string_compare_lt_trans (a b c : string) :
  String.compare a b = Lt -> String.compare b c = Lt -> String.compare a c = Lt.
Proof.
  revert b c. induction a as [|x a IH]; intros [|y b] [|z c]; cbn; try done.
  rewrite !ascii_compare_N.
  destruct (N.compare_spec (N_of_ascii x) (N_of_ascii y)) as [E|E|E]; try done;
    destruct (N.compare_spec (N_of_ascii y) (N_of_ascii z)) as [F|F|F]; try done; intros H1 H2;
    destruct (N.compare_spec (N_of_ascii x) (N_of_ascii z)); try done; try lia. by apply (IH b).
Qed.

Lemma string_ltb_lt (a b : string) : String.ltb a b = true <-> String.compare a b = Lt.
Proof. unfold String.ltb. by destruct (String.compare a b). Qed.

Lemma string_ltb_asym (a b : string) : String.ltb a b = true -> String.ltb b a = false.
Proof. unfold String.ltb. rewrite (String.compare_antisym b a). by destruct (String.compare a b). Qed.

Lemma string_ltb_trans (a b c : string) :
  String.ltb a b = true -> String.ltb b c = true -> String.ltb a c = true.
Proof. rewrite !string_ltb_lt. apply string_compare_lt_trans. Qed.

Lemma string_ltb_tie (a b : string) : String.ltb a b = false -> String.ltb b a = false -> a = b.
Proof.
  unfold String.ltb. rewrite (String.compare_antisym b a).
  destruct (String.compare a b) eqn:E; try done. intros _ _. by apply String.compare_eq_iff in E.
Qed.

Lemma string_not_lt_trans (a b c : string) :
  String.ltb b a = false -> String.ltb c b = false -> String.ltb c a = false.
Proof.
  intros H1 H2. destruct (String.ltb c a) eqn:E; [| done].
  destruct (String.ltb b c) eqn:F; [by rewrite (string_ltb_trans b c a) in H1 |].
  pose proof (string_ltb_tie b c F H2). congruence.
Qed.
