(* ===== verification/GoFloat.v ===== *)
(** IEEE 754 binary64, Go's [float64].

    [Stdlib.Floats.SpecFloat] gives the operations of the standard as plain
    Rocq functions on sign, mantissa and exponent, so every dollar figure and
    every ratio of the program is computed here with the rounding the compiled
    program has (round to nearest even, one rounding per operation: the
    semantics of Go on amd64, where no operation is fused). *)

From S2P Require Import Prelude.
From Stdlib Require Import SpecFloat.

Definition float64 : Set := spec_float.

Definition prec : Z := 53.
Definition emax : Z := 1024.

Declare Scope float_scope.
Delimit Scope float_scope with float.

Definition fadd : float64 -> float64 -> float64 := SFadd prec emax.
Definition fsub : float64 -> float64 -> float64 := SFsub prec emax.
Definition fmul : float64 -> float64 -> float64 := SFmul prec emax.
Definition fdiv : float64 -> float64 -> float64 := SFdiv prec emax.
Definition fsqrt : float64 -> float64 := SFsqrt prec emax.
Definition fltb : float64 -> float64 -> bool := SFltb.
Definition fleb : float64 -> float64 -> bool := SFleb.
Definition feqb : float64 -> float64 -> bool := SFeqb.

Infix "+" := fadd : float_scope.
Infix "-" := fsub : float_scope.
Infix "*" := fmul : float_scope.
Infix "/" := fdiv : float_scope.
Infix "<?" := fltb : float_scope.
Infix "<=?" := fleb : float_scope.
Infix "=?" := feqb : float_scope.

(** ** Conversions *)

(** [float64(n)] *)
Definition of_int (n : Z) : float64 := binary_normalize prec emax n 0 false.

(** The constant [n / d], correctly rounded: what the compiler makes of a
    decimal literal. *)
Definition of_ratio (n : Z) (d : positive) : float64 :=
  match n with
  | Z0 => S754_zero false
  | Zpos p | Zneg p =>
      let '(mz, ez, lz) := SFdiv_core_binary prec emax (Zpos p) 0 (Zpos d) 0 in
      binary_round_aux prec emax (n <? 0) mz ez lz
  end.

Definition f0 : float64 := S754_zero false.

Definition in_range_or_min (z : Z) : Z :=
  if (min_int64 <=? z) && (z <=? max_int64) then z else min_int64.

Definition signed (s : bool) (z : Z) : Z := if s then - z else z.

(** [int64(f)]: truncation toward zero; what is out of range (the language
    leaves it to the implementation) becomes the amd64 indefinite integer. *)
Definition to_int (f : float64) : Z :=
  match f with
  | S754_zero _ => 0
  | S754_finite s m e =>
      in_range_or_min
        (signed s (if 0 <=? e then Zpos m * 2 ^ e else Zpos m / 2 ^ (- e)))
  | _ => min_int64
  end.

(** [int(math.Round(f))]: half away from zero. *)
Definition round_to_int (f : float64) : Z :=
  match f with
  | S754_zero _ => 0
  | S754_finite s m e =>
      in_range_or_min
        (signed s (if 0 <=? e then Zpos m * 2 ^ e
                   else (Zpos m + 2 ^ (- e - 1)) / 2 ^ (- e)))
  | _ => min_int64
  end.

Definition is_finite (f : float64) : bool :=
  match f with
  | S754_zero _ | S754_finite _ _ _ => true
  | _ => false
  end.

Definition is_nan (f : float64) : bool :=
  match f with S754_nan => true | _ => false end.

(** Not below zero: what every accumulated price is. *)
Definition nonneg (f : float64) : bool :=
  match f with
  | S754_zero _ | S754_infinity false | S754_finite false _ _ => true
  | _ => false
  end.

(** ** Lemmas *)

Example of_ratio_tenth : of_ratio 1 10 = S754_finite false 7205759403792794 (-56).
Proof. reflexivity. Qed.

Example half_cent_sum : fadd (of_ratio 1 10) (of_ratio 2 10) = S754_finite false 5404319552844596 (-54).
Proof. reflexivity. Qed.

Lemma in_range_or_min_range z : int64_range (in_range_or_min z).
Proof. unfold in_range_or_min. case_bool; unfold_int; lia. Qed.

Lemma to_int_range f : int64_range (to_int f).
Proof.
  destruct f; simpl; auto using in_range_or_min_range; unfold_int; lia.
Qed.

Lemma round_to_int_range f : int64_range (round_to_int f).
Proof.
  destruct f; simpl; auto using in_range_or_min_range; unfold_int; lia.
Qed.

Lemma compare_cont_opp m n :
  Pos.compare_cont Eq n m = CompOpp (Pos.compare_cont Eq m n).
Proof.
  change (Pos.compare n m = CompOpp (Pos.compare m n)).
  apply Pos.compare_antisym.
Qed.

(** Comparison is antisymmetric: swapping the operands reverses it. *)
Lemma SFcompare_swap a b : SFcompare b a = option_map CompOpp (SFcompare a b).
Proof.
  destruct a as [[]|[]| |[] m e], b as [[]|[]| |[] m' e']; try reflexivity;
    simpl; f_equal; rewrite (Z.compare_antisym e e');
    destruct (e ?= e') eqn:He; simpl; auto;
    rewrite (compare_cont_opp m m'); try done.
Qed.

Lemma fltb_irrefl a : fltb a a = false.
Proof.
  unfold fltb, SFltb. destruct a as [[]|[]| |[] m e]; simpl; try done;
    rewrite Z.compare_refl;
    change (Pos.compare_cont Eq m m) with (Pos.compare m m);
    by rewrite Pos.compare_refl.
Qed.

Lemma fleb_refl a : is_nan a = false -> fleb a a = true.
Proof.
  unfold fleb, SFleb. destruct a as [[]|[]| |[] m e]; simpl; try done; intros _;
    rewrite Z.compare_refl;
    change (Pos.compare_cont Eq m m) with (Pos.compare m m);
    by rewrite Pos.compare_refl.
Qed.

Lemma fltb_asym a b : fltb a b = true -> fltb b a = false.
Proof.
  unfold fltb, SFltb. rewrite (SFcompare_swap a b).
  destruct (SFcompare a b) as [[]|]; done.
Qed.

(** For numbers, "not below" is "at least". *)
Lemma fltb_fleb a b :
  is_nan a = false -> is_nan b = false -> fltb a b = negb (fleb b a).
Proof.
  unfold fltb, SFltb, fleb, SFleb. rewrite (SFcompare_swap a b).
  intros Ha Hb. destruct (SFcompare a b) as [[]|] eqn:E; try done.
  destruct a as [[]|[]| |[] m e], b as [[]|[]| |[] m' e']; done.
Qed.

(** The sign and class a float has, ordered as the numbers are. *)
Definition fkey (f : float64) : option (Z * Z * Z) :=
  match f with
  | S754_nan => None
  | S754_infinity true => Some (-2, 0, 0)
  | S754_finite true m e => Some (-1, - e, - Zpos m)
  | S754_zero _ => Some (0, 0, 0)
  | S754_finite false m e => Some (1, e, Zpos m)
  | S754_infinity false => Some (2, 0, 0)
  end.

Definition key_compare (a b : Z * Z * Z) : comparison :=
  let '(s, e, m) := a in
  let '(s', e', m') := b in
  match s ?= s' with
  | Eq => match e ?= e' with Eq => m ?= m' | c => c end
  | c => c
  end.

Lemma SFcompare_key a b :
  SFcompare a b =
    match fkey a, fkey b with
    | Some ka, Some kb => Some (key_compare ka kb)
    | _, _ => None
    end.
Proof.
  destruct a as [[]|[]| |[] m e], b as [[]|[]| |[] m' e']; try reflexivity; simpl; f_equal.
  - rewrite Z.compare_opp, (Z.compare_antisym e e').
    by destruct (e ?= e').
Qed.

Lemma fleb_trans a b c : fleb a b = true -> fleb b c = true -> fleb a c = true.
Proof.
  unfold fleb, SFleb. rewrite !SFcompare_key.
  destruct (fkey a) as [[[s e] m]|], (fkey b) as [[[s1 e1] m1]|],
    (fkey c) as [[[s2 e2] m2]|]; try done; simpl.
  destruct (Z.compare_spec s s1), (Z.compare_spec s1 s2), (Z.compare_spec s s2);
    try done; try lia; subst;
  destruct (Z.compare_spec e e1), (Z.compare_spec e1 e2), (Z.compare_spec e e2);
    try done; try lia; subst;
  destruct (Z.compare_spec m m1), (Z.compare_spec m1 m2), (Z.compare_spec m m2);
    try done; lia.
Qed.

Lemma fltb_le a b : fltb a b = true -> fleb a b = true.
Proof. unfold fltb, SFltb, fleb, SFleb. by destruct (SFcompare a b) as [[]|]. Qed.

Lemma fltb_not_nan a b : fltb a b = true -> is_nan a = false /\ is_nan b = false.
Proof. by destruct a, b. Qed.

#[export] Hint Resolve fltb_irrefl fleb_refl fltb_le : go.

(** ** Signs

    [plus_signed] is closed under sums, products and quotients, whatever the
    rounding does: a figure built from counts and prices is never negative. *)
Definition plus_signed (f : float64) : bool :=
  match f with
  | S754_zero s | S754_infinity s | S754_finite s _ _ => negb s
  | S754_nan => true
  end.

Lemma round_aux_sign s m e l :
  match binary_round_aux prec emax s m e l with
  | S754_zero s' | S754_infinity s' | S754_finite s' _ _ => s' = s
  | S754_nan => True
  end.
Proof.
  unfold binary_round_aux. destruct (shr_fexp _ _ _ _ _) as [mrs e'].
  destruct (shr_fexp _ _ _ _ _) as [mrs' e''].
  destruct (shr_m mrs'); simpl; auto. by destruct (e'' <=? _).
Qed.

Lemma round_aux_plus m e l : plus_signed (binary_round_aux prec emax false m e l) = true.
Proof.
  pose proof (round_aux_sign false m e l) as H.
  destruct (binary_round_aux _ _ _ _ _ _); simpl; by subst.
Qed.

Lemma normalize_plus z e : 0 <= z -> plus_signed (binary_normalize prec emax z e false) = true.
Proof.
  intros Hz. destruct z as [|p|p]; simpl; [done | | lia].
  unfold binary_round. destruct (shl_align _ _ _) as [mz ez]. apply round_aux_plus.
Qed.

Lemma of_int_plus n : 0 <= n -> plus_signed (of_int n) = true.
Proof. apply normalize_plus. Qed.

Lemma of_ratio_plus n d : 0 <= n -> plus_signed (of_ratio n d) = true.
Proof.
  intros Hn. unfold of_ratio. destruct n as [|p|p]; [done | | lia].
  destruct (SFdiv_core_binary _ _ _ _ _ _) as [[mz ez] lz].
  assert ((Zpos p <? 0) = false) as -> by done. apply round_aux_plus.
Qed.

Lemma fadd_plus a b :
  plus_signed a = true -> plus_signed b = true -> plus_signed (fadd a b) = true.
Proof.
  destruct a as [[]|[]| |[] m e], b as [[]|[]| |[] m' e']; try done.
  intros _ _. unfold fadd, SFadd. apply normalize_plus. simpl. lia.
Qed.

Lemma fmul_plus a b :
  plus_signed a = true -> plus_signed b = true -> plus_signed (fmul a b) = true.
Proof.
  destruct a as [[]|[]| |[] m e], b as [[]|[]| |[] m' e']; try done.
  intros _ _. unfold fmul, SFmul. apply round_aux_plus.
Qed.

Lemma fdiv_plus a b :
  plus_signed a = true -> plus_signed b = true -> plus_signed (fdiv a b) = true.
Proof.
  destruct a as [[]|[]| |[] m e], b as [[]|[]| |[] m' e']; try done.
  intros _ _. unfold fdiv, SFdiv.
  destruct (SFdiv_core_binary _ _ _ _ _ _) as [[mz ez] lz]. apply round_aux_plus.
Qed.

Lemma plus_signed_not_below a : plus_signed a = true -> fltb a f0 = false.
Proof. by destruct a as [[]|[]| |[] m e]. Qed.

#[export] Hint Resolve of_int_plus of_ratio_plus fadd_plus fmul_plus fdiv_plus : go.
