(* ===== verification/GoTime.v ===== *)
(** Instants, durations and calendar days ([time.Time], [time.Duration]).

    An instant is the number of nanoseconds since the zero [time.Time]
    (January 1 of year 1, 00:00 UTC), so [Time.IsZero] is equality with 0.  A
    duration is a 64-bit count of nanoseconds; [Time.Sub] saturates at its
    bounds, as the source of the package documents. *)

From S2P Require Import Prelude GoString.
From Stdlib Require Import Ascii String NArith.

Open Scope string_scope.
Open Scope Z_scope.

Definition time : Set := Z.
Definition duration : Set := Z.

Definition zero_time : time := 0.
Definition IsZero (t : time) : bool := t =? 0.
Definition Before (t u : time) : bool := t <? u.
Definition After (t u : time) : bool := u <? t.

Definition nanosecond : duration := 1.
Definition second : duration := 1000000000.
Definition minute : duration := 60 * second.
Definition hour : duration := 60 * minute.
Definition day_ns : duration := 24 * hour.

(** [t.Sub(u)] *)
Definition Sub (t u : time) : duration :=
  Z.max min_int64 (Z.min max_int64 (t - u)).

(** ** Calendar *)

(** Days since 0001-01-01 (proleptic Gregorian) of an instant, in UTC. *)
Definition utc_days (t : time) : Z := t / day_ns.

Definition civil_from_days (d : Z) : Z * Z * Z :=
  let z := d + 306 in
  let era := z / 146097 in
  let doe := z mod 146097 in
  let yoe := (doe - doe / 1460 + doe / 36524 - doe / 146096) / 365 in
  let doy := doe - (365 * yoe + yoe / 4 - yoe / 100) in
  let mp := (5 * doy + 2) / 153 in
  let dd := doy - (153 * mp + 2) / 5 + 1 in
  let m := if mp <? 10 then mp + 3 else mp - 9 in
  (yoe + era * 400 + (if m <=? 2 then 1 else 0), m, dd).

Definition days_from_civil (y m d : Z) : Z :=
  let y' := if m <=? 2 then y - 1 else y in
  let era := y' / 400 in
  let yoe := y' mod 400 in
  let mp := if 2 <? m then m - 3 else m + 9 in
  let doy := (153 * mp + 2) / 5 + d - 1 in
  era * 146097 + (yoe * 365 + yoe / 4 - yoe / 100 + doy) - 306.

Definition is_leap (y : Z) : bool :=
  (y mod 4 =? 0) && (negb (y mod 100 =? 0) || (y mod 400 =? 0)).

Definition days_in (m y : Z) : Z :=
  if m =? 2 then (if is_leap y then 29 else 28)
  else if (m =? 4) || (m =? 6) || (m =? 9) || (m =? 11) then 30 else 31.

Fixpoint zeros (n : nat) : string :=
  match n with O => EmptyString | S n' => String "0" (zeros n') end.

(** Decimal with at least [w] digits. *)
Definition pad (w : nat) (z : Z) : string :=
  let s := itoa (Z.abs z) in
  (if z <? 0 then "-" else "") ++ zeros (w - String.length s) ++ s.

(** [t.UTC().Format("2006-01-02")] *)
Definition format_date (t : time) : string :=
  let '(y, m, d) := civil_from_days (utc_days t) in
  pad 4 y ++ "-" ++ pad 2 m ++ "-" ++ pad 2 d.

Definition digit_value (c : ascii) : Z := Z.of_N (N_of_ascii c) - 48.

Fixpoint digits_value (acc : Z) (s : string) : option Z :=
  match s with
  | EmptyString => Some acc
  | String c s' =>
      if is_digit c then digits_value (10 * acc + digit_value c) s' else None
  end.

(** [time.Parse("2006-01-02", s)]: four digits, two, two, a real date, and
    nothing after it. *)
Definition parse_date (s : string) : option time :=
  match s with
  | String y1 (String y2 (String y3 (String y4
      (String s1 (String m1 (String m2
      (String s2 (String d1 (String d2 EmptyString))))))))) =>
      if Ascii.eqb s1 "-" && Ascii.eqb s2 "-" then
        y ← digits_value 0 (String y1 (String y2 (String y3 (String y4 ""))));
        m ← digits_value 0 (String m1 (String m2 ""));
        d ← digits_value 0 (String d1 (String d2 ""));
        if (1 <=? m) && (m <=? 12) && (1 <=? d) && (d <=? days_in m y)
        then Some (days_from_civil y m d * day_ns) else None
      else None
  | _ => None
  end.

(** ** Lemmas *)

Lemma Sub_range t u : int64_range (Sub t u).
Proof. unfold Sub. unfold_int. lia. Qed.

Lemma Sub_exact t u : int64_range (t - u) -> Sub t u = t - u.
Proof. unfold Sub. unfold_int. lia. Qed.

Lemma format_date_same_day t u : utc_days t = utc_days u -> format_date t = format_date u.
Proof. unfold format_date. by intros ->. Qed.

Lemma parse_date_day_start s t : parse_date s = Some t -> exists d, t = d * day_ns.
Proof.
  unfold parse_date, mbind, option_bind. intros H.
  repeat (case_match; try discriminate). simplify_eq. eauto.
Qed.

Example format_price_table : option_map format_date (parse_date "2026-09-07") = Some "2026-09-07".
Proof. reflexivity. Qed.

Example parse_leap : parse_date "2100-02-29" = None.
Proof. reflexivity. Qed.
