(* ===== verification/Transcript.v ===== *)
(** The transcript data model ([src/internal/transcript/types.go]): token
    usage as every reader normalises it, blocks, messages, requests, lanes and
    compactions.

    A Go pointer that may be nil is an [option]; a message pointer that is
    never nil is the message. *)

From S2P Require Import Prelude GoString GoTime.
From Stdlib Require Import String.

Open Scope string_scope.
Open Scope Z_scope.

Module Transcript.

(** Block kinds and roles are Go string constants. *)
Definition KindText : string := "text".
Definition KindThinking : string := "thinking".
Definition KindToolUse : string := "tool_use".
Definition KindToolResult : string := "tool_result".
Definition KindImage : string := "image".
Definition KindDocument : string := "document".
Definition KindOther : string := "other".

Definition RoleUser : string := "user".
Definition RoleAssistant : string := "assistant".
Definition RoleSystem : string := "system".

Definition LabelUserText : string := "user text".
Definition LabelAssistantText : string := "assistant text".

Definition TextLabel (role : string) : string :=
  if String.eqb role RoleAssistant then LabelAssistantText else LabelUserText.

(** What the raw bytes of a tool result said of [is_error]
    ([src/internal/transcript/evidence.go]). *)
Inductive ErrorFlag :=
  ErrorFlagNone | ErrorFlagAbsent | ErrorFlagFalse | ErrorFlagTrue | ErrorFlagConflict | ErrorFlagNonBoolean.

Record Block := mkBlock {
  Kind : string;
  Label : string;
  Bytes : Z;
  Text : string;
  ToolUseID : string;
  ToolName : string;
  CallKey : string;
  IsError : bool;
  Evidence : option ErrorFlag
}.

Record Message := mkMessage {
  UUID : string;
  Role : string;
  msg_Timestamp : time;
  Blocks : list Block
}.

(** [(m *Message) Bytes()] *)
Definition Message_Bytes (m : Message) : Z :=
  fold_left (fun total b => total +! Bytes b) (Blocks m) 0.

Record Usage := mkUsage {
  Input : Z;
  CacheCreation : Z;
  CacheRead : Z;
  Output : Z;
  ThinkingTokens : Z;
  Create5m : Z;
  Create1h : Z;
  CreateSplitPresent : bool
}.

Definition PromptTotal (u : Usage) : Z := Input u +! CacheCreation u +! CacheRead u.

Definition CorrelationUnmeasured : string := "".
Definition CorrelationLaneSerial : string := "lane-serial".
Definition CorrelationLaneOverlap : string := "lane-overlap".

(** One tool definition's name and decoded size. *)
Record ToolDef := mkToolDef { td_Name : string; td_Bytes : Z }.

#[export] Instance ToolDef_eq_dec : EqDecision ToolDef.
Proof. solve_decision. Defined.

Record Request := mkRequest {
  ID : string;
  IDMeasured : bool;
  IDFromMessage : bool;
  Correlation : string;
  Model : string;
  Effort : string;
  Epoch : string;
  Timestamp : time;
  req_Usage : Usage;
  Context : list Message;
  req_Output : option Message;
  AppliedEdits : Z;
  ClearedTokens : Z;
  Tools : list ToolDef
}.

Record Lane := mkLane {
  lane_ID : string;
  Sidechain : bool;
  Continuation : bool;
  Requests : list Request
}.

Record Compaction := mkCompaction {
  Trigger : string;
  PreTokens : Z;
  PostTokens : Z;
  CumulativeDropped : Z;
  DurationMS : Z;
  At : time
}.

Definition Sized (c : Compaction) : bool := 0 <? PreTokens c.

Definition Dropped (c : Compaction) : Z :=
  let d := PreTokens c -! PostTokens c in
  if 0 <? d then d else 0.

(** ** Sessions *)

Inductive Source := SourceTranscript | SourceLedger.

#[export] Instance Source_eq_dec : EqDecision Source.
Proof. solve_decision. Defined.

Definition PrefixVisible (s : Source) : bool :=
  match s with SourceLedger => true | SourceTranscript => false end.

Definition EpochsObservable (s : Source) : bool :=
  match s with SourceLedger => true | SourceTranscript => false end.

Record ProviderFailures := mkFailures { ByStatus : gmap Z Z; NoStatus : Z }.

(** [(p ProviderFailures) Total()]; the order a map is walked in does not show. *)
Definition Failures_Total (p : ProviderFailures) : Z :=
  fold_left (fun n kc => n +! kc.2) (map_to_list (ByStatus p)) (NoStatus p).

(** [Session]; [ClientVersion], [ClientVersions] and [RepositoryID] are set by
    the transcript readers only and left out. *)
Record Session := mkSession {
  ses_ID : string;
  ses_Path : string;
  ses_Source : Source;
  Lanes : list Lane;
  Skipped : Z;
  UnknownKinds : Z;
  Refusals : Z;
  ses_Failures : ProviderFailures;
  SchemaMismatch : Z;
  ses_Policy : string;
  Trial : string;
  Compactions : list Compaction
}.

(** [(s *Session) Lane(id, sidechain)] and what its callers do with the
    pointer: the lane with this id, the first of them, becomes [f] of itself;
    it is created at the end when there is none. *)
Fixpoint with_lane (f : Lane -> Lane) (id : string) (sidechain : bool) (ls : list Lane) : list Lane :=
  match ls with
  | [] => [f (mkLane id sidechain false [])]
  | l :: ls => if String.eqb (lane_ID l) id then f l :: ls else l :: with_lane f id sidechain ls
  end.

Definition lane_of (id : string) (ls : list Lane) : option Lane :=
  find_first (fun l => String.eqb (lane_ID l) id) ls.

Definition RequestCount (s : Session) : Z :=
  fold_left (fun n l => n +! Z.of_nat (List.length (Requests l))) (Lanes s) 0.

(** Largest non-sidechain lane, the first of those; the first lane when all
    are sidechains. *)
Definition larger (best : option Lane) (l : Lane) : option Lane :=
  if Sidechain l then best
  else match best with
       | None => Some l
       | Some b => if (List.length (Requests b) <? List.length (Requests l))%nat then Some l else best
       end.

Definition MainLane (s : Session) : option Lane :=
  match fold_left larger (Lanes s) None with
  | Some l => Some l
  | None => head (Lanes s)
  end.

(** The token counts a provider reports: no field negative, and the prompt
    total a machine integer. *)
Record usage_ok (u : Usage) : Prop := {
  uo_input : 0 <= Input u;
  uo_creation : 0 <= CacheCreation u;
  uo_read : 0 <= CacheRead u;
  uo_output : 0 <= Output u <= max_int64;
  uo_total : Input u + CacheCreation u + CacheRead u <= max_int64
}.

Lemma PromptTotal_exact u :
  usage_ok u -> PromptTotal u = Input u + CacheCreation u + CacheRead u.
Proof. intros [H1 H2 H3 H4 H5]. unfold PromptTotal. lia_int. Qed.

(** Without any bound: the total is the sum modulo 2^64. *)
Lemma PromptTotal_wrap u :
  PromptTotal u = wrap64 (Input u + CacheCreation u + CacheRead u).
Proof. unfold PromptTotal, iadd. by rewrite wrap64_add_l. Qed.

Lemma Message_Bytes_app t b1 b2 r id :
  Message_Bytes (mkMessage id r t (b1 ++ b2)) =
    fold_left (fun total b => total +! Bytes b) b2 (Message_Bytes (mkMessage id r t b1)).
Proof. unfold Message_Bytes; simpl. apply fold_left_app. Qed.

(** Changing one lane leaves the others alone. *)
Lemma with_lane_lookup f id sidechain ls id' :
  (forall l, lane_ID (f l) = lane_ID l) ->
  lane_of id' (with_lane f id sidechain ls) =
    if String.eqb id id' then Some (f (default (mkLane id sidechain false []) (lane_of id ls)))
    else lane_of id' ls.
Proof.
  intros Hf. unfold lane_of. induction ls as [|l ls IH]; cbn [with_lane find_first].
  - rewrite Hf. cbn [lane_ID]. by destruct (String.eqb id id').
  - destruct (String.eqb_spec (lane_ID l) id) as [Hl|Hl]; cbn [find_first]; rewrite ?Hf.
    + rewrite Hl. cbn [default]. destruct (String.eqb_spec id id'); [done |]. done.
    + rewrite IH. destruct (String.eqb_spec id id') as [<-|Hne]; [| by destruct (String.eqb _ _)].
      by apply String.eqb_neq in Hl as ->.
Qed.

Lemma with_lane_ids f id side ls x :
  (forall l, lane_ID (f l) = lane_ID l) ->
  x ∈ List.map lane_ID (with_lane f id side ls) <-> x = id \/ x ∈ List.map lane_ID ls.
Proof.
  intros Hf. induction ls as [|l ls IH]; cbn [with_lane List.map].
  - rewrite Hf. cbn [lane_ID]. set_solver.
  - destruct (String.eqb_spec (lane_ID l) id) as [<-|Hne]; cbn [List.map]; [rewrite Hf; set_solver |].
    rewrite !elem_of_cons, IH. tauto.
Qed.

Lemma with_lane_NoDup f id side ls :
  (forall l, lane_ID (f l) = lane_ID l) ->
  NoDup (List.map lane_ID ls) -> NoDup (List.map lane_ID (with_lane f id side ls)).
Proof.
  intros Hf. induction ls as [|l ls IH]; intros Hnd; cbn [with_lane List.map].
  - apply NoDup_singleton.
  - apply NoDup_cons in Hnd as [Hn Hnd].
    destruct (String.eqb_spec (lane_ID l) id) as [<-|Hne]; cbn [List.map]; rewrite ?Hf; apply NoDup_cons; [done |].
    rewrite with_lane_ids by done. split; [| by apply IH]. intros [?|?]; done.
Qed.

(** What holds of every lane and of a fresh one changed holds after. *)
Lemma with_lane_Forall (P : Lane -> Prop) f id side ls :
  (forall l, lane_ID l = id -> P l -> P (f l)) -> P (f (mkLane id side false [])) ->
  Forall P ls -> Forall P (with_lane f id side ls).
Proof.
  intros Hf Hnew. induction 1 as [|l ls Hl Hls IH]; cbn [with_lane]; [by constructor |].
  destruct (String.eqb_spec (lane_ID l) id) as [He|_]; constructor; auto.
Qed.

End Transcript.
