(* ===== verification/Tenancy.v ===== *)
(** Tenant identity and the tenant-scoped store ([src/internal/tenancy]).

    [Module Tenancy] holds the identities and their validation
    ([tenancy.go]), the wire check of [Tenant.UnmarshalJSON]
    ([serialization.go]) and [Registry] ([ownership.go]).  [Class TenantStore]
    is the isolation contract the registry is written to demonstrate;
    [registry_store] discharges it. *)

From S2P Require Import Prelude GoString.
From Stdlib Require Import Ascii String NArith.

Open Scope string_scope.
Open Scope Z_scope.

(** ** The isolation contract

    A store keyed by tenant and key: what was put is read back, every other
    (tenant, key) pair is untouched whatever bytes the keys hold, and an
    unresolved tenant can neither write nor read. *)

Class TenantStore (S V : Type) (unresolved : string -> bool) := {
  ts_put : S -> string -> string -> V -> option S;
  ts_get : S -> string -> string -> option (option V);
  ts_put_refused : forall s t k v, unresolved t = true -> ts_put s t k v = None;
  ts_get_refused : forall s t k, unresolved t = true -> ts_get s t k = None;
  ts_put_accepted : forall s t k v, unresolved t = false -> exists s', ts_put s t k v = Some s';
  ts_get_put_eq : forall s s' t k v, ts_put s t k v = Some s' -> ts_get s' t k = Some (Some v);
  ts_get_put_ne : forall s s' t k v t' k',
    ts_put s t k v = Some s' -> (t', k') <> (t, k) -> ts_get s' t' k' = ts_get s t' k'
}.

Module Tenancy.

Definition TenantUnknown : string := "TENANT_UNKNOWN".
Definition LocalTenant : string := "LOCAL".
Definition AccountUnknown : string := "ACCOUNT_UNKNOWN".

Definition reservedTenantIDs (t : string) : bool :=
  String.eqb t TenantUnknown || String.eqb t LocalTenant.

Definition reservedAccountIDs (a : string) : bool := String.eqb a AccountUnknown.

(** The sentinels an identity error wraps. *)
Inductive identity_error :=
| ErrIdentityEmpty
| ErrIdentityReserved (raw : string)
| ErrIdentityIllegal (raw : string).

(** [^[A-Za-z0-9][A-Za-z0-9._:-]{0,127}$] *)
Definition id_tail_char (c : ascii) : bool :=
  is_alnum c || Ascii.eqb c "." || Ascii.eqb c "_" || Ascii.eqb c ":" || Ascii.eqb c "-".

Definition idPattern (s : string) : bool :=
  match s with
  | EmptyString => false
  | String c rest =>
      is_alnum c && string_forallb id_tail_char rest && (len rest <=? 127)
  end.

Definition ValidateTenantID (raw : string) : option identity_error :=
  if String.eqb raw "" then Some ErrIdentityEmpty
  else if reservedTenantIDs raw then Some (ErrIdentityReserved raw)
  else if negb (idPattern raw) then Some (ErrIdentityIllegal raw)
  else None.

Definition ValidateAccountID (raw : string) : option identity_error :=
  if String.eqb raw "" then Some ErrIdentityEmpty
  else if reservedAccountIDs raw then Some (ErrIdentityReserved raw)
  else if negb (idPattern raw) then Some (ErrIdentityIllegal raw)
  else None.

Definition ResolveTenant (raw : string) : string * option identity_error :=
  if String.eqb raw "" then (LocalTenant, None)
  else match ValidateTenantID raw with
       | Some err => (TenantUnknown, Some err)
       | None => (raw, None)
       end.

(** A tenant every guarded surface refuses: [tenant == TenantUnknown ||
    tenant == ""]. *)
Definition unresolved (tenant : string) : bool :=
  String.eqb tenant TenantUnknown || String.eqb tenant "".

Record Tenant := mkTenant { Tenant_ID : string; Tenant_AccountID : string }.

(** [UnmarshalJSON] after [encoding/json] has filled the wire struct;
    [None] stands for a decoding error. *)
Definition UnmarshalJSON (wire : option Tenant) : option Tenant :=
  match wire with
  | None => None
  | Some w =>
      if String.eqb (Tenant_ID w) "" || String.eqb (Tenant_ID w) TenantUnknown
         || negb (idPattern (Tenant_ID w))
      then None
      else if negb (String.eqb (Tenant_AccountID w) "")
              && (String.eqb (Tenant_AccountID w) AccountUnknown
                  || negb (idPattern (Tenant_AccountID w)))
      then None
      else Some (mkTenant (Tenant_ID w) (Tenant_AccountID w))
  end.

(** [fmt.Sprintf("%d:%s:%s", len(tenant), tenant, key)] *)
Definition scopedKey (tenant key : string) : string :=
  itoa (len tenant) ++ ":" ++ tenant ++ ":" ++ key.

Section registry.
Context {V : Type}.

Record Registry := mkRegistry { data : gmap string V }.

Definition NewRegistry : Registry := mkRegistry ∅.

(** [None] is the refusal error. *)
Definition Put (r : Registry) (tenant key : string) (value : V) : option Registry :=
  if String.eqb tenant TenantUnknown || String.eqb tenant "" then None
  else Some (mkRegistry (<[scopedKey tenant key := value]> (data r))).

Definition Get (r : Registry) (tenant key : string) : option (option V) :=
  if String.eqb tenant TenantUnknown || String.eqb tenant "" then None
  else Some (data r !! scopedKey tenant key).
End registry.
Arguments Registry : clear implicits.

(** ** Lemmas *)

Lemma itoa_of_nat n : itoa (Z.of_nat n) = itoa_N (N.of_nat n).
Proof. unfold itoa. destruct n; simpl; [done |]. f_equal; lia. Qed.

Lemma digit_not_colon : is_digit ":" = false.
Proof. reflexivity. Qed.

Lemma scopedKey_inj t k t' k' : scopedKey t k = scopedKey t' k' -> t = t' /\ k = k'.
Proof.
  unfold scopedKey, len. rewrite !itoa_of_nat. intros Heq.
  apply (split_at_separator is_digit ":") in Heq as [Hlen Heq];
    auto using itoa_N_digits, digit_not_colon.
  apply itoa_N_inj, Nat2N.inj in Hlen.
  apply string_app_inv_length in Heq as [-> Heq]; [| done].
  by injection Heq as ->.
Qed.

Lemma unresolved_spec t : unresolved t = true <-> t = TenantUnknown \/ t = "".
Proof. unfold unresolved. by rewrite orb_true_iff, !String.eqb_eq. Qed.

Lemma ResolveTenant_cases raw :
  (raw = "" /\ ResolveTenant raw = (LocalTenant, None)) \/
  (exists err, raw <> "" /\ ValidateTenantID raw = Some err /\
     ResolveTenant raw = (TenantUnknown, Some err)) \/
  (raw <> "" /\ ValidateTenantID raw = None /\ ResolveTenant raw = (raw, None)).
Proof.
  unfold ResolveTenant. destruct (String.eqb_spec raw "") as [->|Hne]; [by left |].
  right. destruct (ValidateTenantID raw) as [err|] eqn:Hv; [left; eauto | by right].
Qed.

Lemma ValidateTenantID_none raw :
  ValidateTenantID raw = None <->
  raw <> "" /\ raw <> TenantUnknown /\ raw <> LocalTenant /\ idPattern raw = true.
Proof.
  unfold ValidateTenantID, reservedTenantIDs.
  destruct (String.eqb_spec raw "") as [->|H1]; [naive_solver |].
  destruct (String.eqb_spec raw TenantUnknown) as [->|H2]; simpl; [naive_solver |].
  destruct (String.eqb_spec raw LocalTenant) as [->|H3]; simpl; [naive_solver |].
  destruct (idPattern raw); simpl; naive_solver.
Qed.

#[export] Instance registry_store (V : Type) : TenantStore (Registry V) V unresolved.
Proof.
  refine {| ts_put := Put; ts_get := Get |}; unfold Put, Get, unresolved.
  - by intros s t k v ->.
  - by intros s t k ->.
  - intros s t k v ->. eauto.
  - intros s s' t k v. destruct (_ || _); [done |]. intros [= <-].
    simpl. by rewrite lookup_insert_eq.
  - intros s s' t k v t' k'. destruct (String.eqb t _ || _); [done |].
    intros [= <-] Hne. destruct (_ || _); [done |].
    simpl. rewrite lookup_insert_ne; [done |].
    by intros [-> ->]%scopedKey_inj.
Defined.

(** ** Properties *)

(** A registry never leaks between tenants.  After a [Put] for one
    (tenant, key), every other (tenant, key) pair reads exactly what it read
    before, for arbitrary bytes in tenants and keys (length-prefixing leaves
    no separator to forge), and the pair written reads the value back. *)
Lemma Registry_isolation :
  forall (V : Type) (r r' : Registry V) t k v,
    Put r t k v = Some r' ->
    Get r' t k = Some (Some v) /\
    (forall t' k', (t', k') <> (t, k) -> Get r' t' k' = Get r t' k').
Proof.
  intros V r r' t k v Hput. split.
  - exact (ts_get_put_eq r r' t k v Hput).
  - intros t' k'. exact (ts_get_put_ne r r' t k v t' k' Hput).
Qed.

Lemma Registry_isolation_witness :
  Get (mkRegistry {[scopedKey "a" "b:c" := 1]}) "a:b" "c" = Some None.
Proof.
  transitivity (Get (V := Z) (mkRegistry ∅) "a:b" "c"); [| vm_compute; reflexivity].
  apply (Registry_isolation Z (mkRegistry ∅) (mkRegistry {[scopedKey "a" "b:c" := 1]})
           "a" "b:c" 1); [vm_compute; reflexivity | discriminate].
Defined.

(** C7: resolution never pools an unresolved identity.  Only the empty input
    becomes the local tenant; any other input either is accepted verbatim, is
    then a legal non-reserved identity that every tenant-scoped surface and
    the wire decoder accept, or comes back as [TenantUnknown] with an error,
    which every surface refuses. *)
Theorem ResolveTenant_sound :
  forall raw t err,
    ResolveTenant raw = (t, err) ->
    (t = LocalTenant <-> raw = "") /\
    (err = None -> unresolved t = false /\ idPattern t = true /\
                   UnmarshalJSON (Some (mkTenant t "")) = Some (mkTenant t "")) /\
    (err <> None -> t = TenantUnknown /\ unresolved t = true).
Proof.
  intros raw t err H.
  destruct (ResolveTenant_cases raw) as [[-> Hr]|[(e & Hne & Hv & Hr)|(Hne & Hv & Hr)]];
    rewrite Hr in H; simplify_eq.
  - done.
  - split_and!; [split; done | done | done].
  - apply ValidateTenantID_none in Hv as (_ & Hu & Hl & Hp).
    assert (unresolved t = false) as Hun.
    { destruct (unresolved t) eqn:E; [| done]. apply unresolved_spec in E. naive_solver. }
    split_and!; [by split | intros _ | done].
    split_and!; [done | done |]. unfold UnmarshalJSON; simpl.
    unfold unresolved in Hun. rewrite orb_comm in Hun. rewrite Hun, Hp. done.
Qed.

Lemma ResolveTenant_sound_witness :
  unresolved "acme:prod" = false /\ unresolved TenantUnknown = true.
Proof.
  split.
  - apply (ResolveTenant_sound "acme:prod" "acme:prod" None); reflexivity.
  - apply (ResolveTenant_sound "LOCAL" TenantUnknown (Some (ErrIdentityReserved "LOCAL")));
      [reflexivity | discriminate].
Defined.

End Tenancy.
