(* ===== verification/Guards.v ===== *)
(** The spend guard ([SpendGuard] of [src/internal/proxy/guards.go]).

    Token and dollar accounting per tenant and session with a bounded live
    table, a bounded table of retired sessions (SP-8) and one day total per
    tenant (SP-6).  [Check] decides before a request is forwarded, [Record]
    accounts for it afterwards; both hold the guard's mutex for their whole
    body, so an execution is a sequence of them. *)

From S2P Require Import Prelude GoString GoFloat GoTime Tenancy.
From Stdlib Require Import String.

Open Scope string_scope.
Open Scope Z_scope.

Module SpendGuard.
Import Tenancy.

Record SpendLimits := mkLimits {
  SessionTokens : Z;
  DayTokens : Z;
  SessionUSD : float64;
  DayUSD : float64
}.

Record spend := mkSpend {
  tokens : Z;
  usd : float64;
  seen : time;
  order : Z;
  day : string;
  dayTokens : Z;
  dayUSD : float64
}.

(** [&spend{}] *)
Definition zero_spend : spend := mkSpend 0 f0 zero_time 0 "" 0 f0.

Definition maxSpendSessions : nat := 1024.
Definition maxRetiredSpendSessions : nat := 1024.

Record t := mkGuard {
  limits : SpendLimits;
  session : gmap string (gmap string spend);
  retired : gmap string (gmap string spend);
  g_day : string;
  dayUsed : gmap string spend;
  unpriceable : bool;
  g_order : Z
}.

Definition NewSpendGuard (l : SpendLimits) : t := mkGuard l ∅ ∅ "" ∅ false 0.

Definition CapNotEnforced (g : t) : bool := unpriceable g.

Definition Enabled (g : t) : bool :=
  (0 <? SessionTokens (limits g)) || (0 <? DayTokens (limits g))
  || fltb f0 (SessionUSD (limits g)) || fltb f0 (DayUSD (limits g)).

Record CapStatus := mkCaps {
  capSessionTokens : bool; capDayTokens : bool; capSessionUSD : bool; capDayUSD : bool
}.

Definition Configured (g : t) : CapStatus :=
  mkCaps (0 <? SessionTokens (limits g)) (0 <? DayTokens (limits g))
    (fltb f0 (SessionUSD (limits g))) (fltb f0 (DayUSD (limits g))).

(** [g.order++] on a [uint64] *)
Definition next_order (o : Z) : Z := (o + 1) mod two64.

Definition rollDay (now : time) (g : t) : t :=
  let today := format_date now in
  if String.eqb today (g_day g) then g
  else mkGuard (limits g) (session g) (retired g) today ∅ (unpriceable g) (g_order g).

Definition dayAccumulator (g : t) (tenant : string) : spend :=
  default zero_spend (dayUsed g !! tenant).

(** [du := g.dayAccumulator(tenant); du.tokens += tokens; du.usd += usd] *)
Definition chargeDay (g : t) (tenant : string) (n : Z) (c : float64) : t :=
  let du := dayAccumulator g tenant in
  let du' := mkSpend (tokens du +! n) (usd du + c)%float (seen du) (order du)
               (day du) (dayTokens du) (dayUSD du) in
  mkGuard (limits g) (session g) (retired g) (g_day g)
    (<[tenant := du']> (dayUsed g)) (unpriceable g) (g_order g).

(** [lruVictim]: the entry with the smallest touch counter, ties going to the
    first one the loop meets. *)
Definition lruVictim (it : iteration) (sessions : gmap string spend) : option (string * spend) :=
  fold_left
    (fun oldest kv =>
       match oldest with
       | None => Some kv
       | Some o => if order kv.2 <? order o.2 then Some kv else oldest
       end)
    (go_range it sessions) None.

Definition ensureRetired (g : t) (tenant : string) : gmap string spend := inner (retired g) tenant.

(** The table a resolved session lives in. *)
Inductive place := Live | Retired.

(** [admit_session]: the table holding the session's record, after making room for a
    session never seen before; [None] when both tables are full. *)
Definition admit_session (it : iteration) (g : t) (tenant sessionID : string) : t * option (place * spend) :=
  let sessions := inner (session g) tenant in
  match sessions !! sessionID with
  | Some st => (g, Some (Live, st))
  | None =>
      match inner (retired g) tenant !! sessionID with
      | Some st => (g, Some (Retired, st))
      | None =>
          if (maxSpendSessions <=? size sessions)%nat then
            let r := ensureRetired g tenant in
            if (maxRetiredSpendSessions <=? size r)%nat then
              (mkGuard (limits g) (session g) (<[tenant := r]> (retired g)) (g_day g)
                 (dayUsed g) (unpriceable g) (g_order g), None)
            else
              let '(oldestID, oldest) := default ("", zero_spend) (lruVictim it sessions) in
              (mkGuard (limits g)
                 (<[tenant := <[sessionID := zero_spend]> (delete oldestID sessions)]> (session g))
                 (<[tenant := <[oldestID := oldest]> r]> (retired g)) (g_day g)
                 (dayUsed g) (unpriceable g) (g_order g), Some (Live, zero_spend))
          else
            (mkGuard (limits g)
               (<[tenant := <[sessionID := zero_spend]> sessions]> (session g))
               (retired g) (g_day g) (dayUsed g) (unpriceable g) (g_order g),
             Some (Live, zero_spend))
      end
  end.

(** Writing through the pointer [admit_session] returned. *)
Definition store (g : t) (tenant sessionID : string) (p : place) (st : spend) : t :=
  match p with
  | Live =>
      mkGuard (limits g) (<[tenant := <[sessionID := st]> (inner (session g) tenant)]> (session g))
        (retired g) (g_day g) (dayUsed g) (unpriceable g) (g_order g)
  | Retired =>
      mkGuard (limits g) (session g)
        (<[tenant := <[sessionID := st]> (inner (retired g) tenant)]> (retired g))
        (g_day g) (dayUsed g) (unpriceable g) (g_order g)
  end.

(** The session record after one charge. *)
Definition charge (st : spend) (now : time) (ord : Z) (today : string) (n : Z) (c : float64) : spend :=
  let fresh := negb (String.eqb (day st) today) in
  let dt := if fresh then 0 else dayTokens st in
  let du := if fresh then f0 else dayUSD st in
  mkSpend (tokens st +! n) (usd st + c)%float now ord today (dt +! n) (du + c)%float.

(** [Record].  The clock is read twice: [now] by [rollDay], [now'] for
    [st.seen]. *)
Definition Record_ (it : iteration) (now now' : time) (g : t) (tenant sessionID : string)
    (n : Z) (c : float64) (upperBound : bool) : t :=
  if negb (Enabled g) || ((n <=? 0) && fleb c f0) then g
  else if String.eqb tenant TenantUnknown || String.eqb tenant "" then g
  else
    let g :=
      if upperBound && (fltb f0 (SessionUSD (limits g)) || fltb f0 (DayUSD (limits g)))
      then mkGuard (limits g) (session g) (retired g) (g_day g) (dayUsed g) true (g_order g)
      else g in
    let g := rollDay now g in
    let g :=
      match session g !! tenant with
      | Some _ => g
      | None => mkGuard (limits g) (<[tenant := ∅]> (session g)) (retired g) (g_day g)
                  (dayUsed g) (unpriceable g) (g_order g)
      end in
    match admit_session it g tenant sessionID with
    | (g, None) => chargeDay g tenant n c
    | (g, Some (p, st)) =>
        let ord := next_order (g_order g) in
        let g := mkGuard (limits g) (session g) (retired g) (g_day g) (dayUsed g)
                   (unpriceable g) ord in
        let g := store g tenant sessionID p (charge st now' ord (g_day g) n c) in
        chargeDay g tenant n c
    end.

Definition lookupSpend (g : t) (tenant sessionID : string) : option spend :=
  match inner (session g) tenant !! sessionID with
  | Some st => Some st
  | None => inner (retired g) tenant !! sessionID
  end.

Definition tableFull (g : t) (tenant : string) : bool :=
  (maxSpendSessions <=? size (inner (session g) tenant))%nat
  && (maxRetiredSpendSessions <=? size (inner (retired g) tenant))%nat.

(** ** Attribution of a day cap *)

Record leader := mkLeader { l_id : string; l_tokens : Z; l_usd : float64; l_complete : bool }.

(** The loop variables of [dayLeader]. *)
Record lead_acc := mkAcc {
  accTokens : Z; accUSD : float64; best_id : string; bestTokens : Z; bestUSD : float64
}.

Definition lead_step (today : string) (byUSD : bool) (a : lead_acc) (kv : string * spend) : lead_acc :=
  let '(k, st) := kv in
  if negb (String.eqb (day st) today) then a
  else
    let at_ := accTokens a +! dayTokens st in
    let au := (accUSD a + dayUSD st)%float in
    let better := if byUSD then fltb (bestUSD a) (dayUSD st) else bestTokens a <? dayTokens st in
    if better then mkAcc at_ au k (dayTokens st) (dayUSD st)
    else mkAcc at_ au (best_id a) (bestTokens a) (bestUSD a).

Definition dayLeader (it : iteration) (g : t) (tenant : string) (byUSD : bool) : leader :=
  let a := fold_left (lead_step (g_day g) byUSD) (go_range it (inner (session g) tenant))
             (mkAcc 0 f0 "" 0 f0) in
  let '(dt, du) := match dayUsed g !! tenant with
                   | Some s => (tokens s, usd s)
                   | None => (0, f0)
                   end in
  mkLeader (best_id a) (bestTokens a) (bestUSD a)
    ((dt <=? accTokens a) && fleb du (accUSD a + of_ratio 5 1000)%float).

Inductive attribution :=
| NoLiveSession
| Partial (tokens : Z)
| MostlyUSD (id : string) (usd : float64)
| MostlyTokens (id : string) (tokens : Z).

(** The refusal a [Check] renders, with the figures it prints; the tenant note
    is absent for the local tenant. *)
Inductive refusal :=
| TenantNotResolved
| SessionTableFull (sessionID : string)
| SessionTokenCap (used limit : Z)
| SessionUSDCap (used limit : float64)
| DayTokenCap (used limit : Z) (tenantNote : option string) (who : attribution)
| DayUSDCap (used limit : float64) (tenantNote : option string) (who : attribution).

Definition attributeDay (it : iteration) (g : t) (tenant : string) (byUSD : bool)
    : option string * attribution :=
  let l := dayLeader it g tenant byUSD in
  let note := if String.eqb tenant LocalTenant then None else Some tenant in
  (note,
   if String.eqb (l_id l) "" then NoLiveSession
   else if negb (l_complete l) then Partial (l_tokens l)
   else if byUSD then MostlyUSD (l_id l) (l_usd l)
   else MostlyTokens (l_id l) (l_tokens l)).

(** [Check]: the guard after the day roll, and the refusal ([None]: the
    request may proceed). *)
Definition Check_ (it : iteration) (now : time) (g : t) (tenant sessionID : string) : t * option refusal :=
  if negb (Enabled g) then (g, None)
  else if String.eqb tenant TenantUnknown || String.eqb tenant "" then (g, Some TenantNotResolved)
  else
    let g := rollDay now g in
    let found := lookupSpend g tenant sessionID in
    let used := default zero_spend found in
    (g,
     if (match found with None => true | Some _ => false end) && tableFull g tenant
     then Some (SessionTableFull sessionID)
     else
       let du := default zero_spend (dayUsed g !! tenant) in
       let L := limits g in
       if (0 <? SessionTokens L) && (SessionTokens L <=? tokens used)
       then Some (SessionTokenCap (tokens used) (SessionTokens L))
       else if fltb f0 (SessionUSD L) && fleb (SessionUSD L) (usd used)
       then Some (SessionUSDCap (usd used) (SessionUSD L))
       else if (0 <? DayTokens L) && (DayTokens L <=? tokens du)
       then let '(note, who) := attributeDay it g tenant false in
            Some (DayTokenCap (tokens du) (DayTokens L) note who)
       else if fltb f0 (DayUSD L) && fleb (DayUSD L) (usd du)
       then let '(note, who) := attributeDay it g tenant true in
            Some (DayUSDCap (usd du) (DayUSD L) note who)
       else None).

(** ** The persisted day *)

Record tenantSpendState := mkTS { ts_tokens : Z; ts_usd : float64 }.

Record spendState := mkState {
  Day : string;
  Tenants : gmap string tenantSpendState;
  legacyTokens : Z;
  legacyUSD : float64
}.

Definition persistedTenantKey (raw : string) : option string :=
  if String.eqb raw LocalTenant then Some LocalTenant
  else match ValidateTenantID raw with
       | Some _ => None
       | None => Some raw
       end.

Definition restored (ts : tenantSpendState) : spend :=
  mkSpend (ts_tokens ts) (ts_usd ts) zero_time 0 "" 0 f0.

(** [LoadState] on the decoded file; [None] stands for a file that is missing,
    unreadable or not the expected JSON. *)
Definition LoadState (now : time) (g : t) (file : option spendState) : t :=
  match file with
  | None => g
  | Some st =>
      if negb (String.eqb (Day st) (format_date now)) then g
      else
        let used :=
          if (0 <? size (Tenants st))%nat then
            list_to_map
              (omap (fun kv => tenant ← persistedTenantKey kv.1; Some (tenant, restored kv.2))
                 (map_to_list (Tenants st)))
          else if negb (legacyTokens st =? 0) || negb (feqb (legacyUSD st) f0)
          then {[ LocalTenant := restored (mkTS (legacyTokens st) (legacyUSD st)) ]}
          else ∅ in
        mkGuard (limits g) (session g) (retired g) (Day st) used (unpriceable g) (g_order g)
  end.

(** [json.Marshal] has no encoding for an infinity or a NaN. *)
Definition marshals (used : gmap string spend) : bool :=
  forallb (fun kv => is_finite (usd kv.2)) (map_to_list used).

(** [SaveState]: the guard (an idle one is stamped with today) and the record
    that is written, [None] when it cannot be encoded. *)
Definition SaveState (now : time) (g : t) : t * option spendState :=
  let d := if String.eqb (g_day g) "" then format_date now else g_day g in
  (mkGuard (limits g) (session g) (retired g) d (dayUsed g) (unpriceable g) (g_order g),
   if marshals (dayUsed g)
   then Some (mkState d ((fun du => mkTS (tokens du) (usd du)) <$> dayUsed g) 0 f0)
   else None).

(** ** Invariants *)

(** What holds of the tables whatever happened: both are bounded, a session
    lives in one of them, sessions are only retired from a full live table,
    and no unresolved tenant owns anything. *)
Record guard_ok (g : t) : Prop := {
  ok_live : forall tn, (size (inner (session g) tn) <= maxSpendSessions)%nat;
  ok_retired : forall tn, (size (inner (retired g) tn) <= maxRetiredSpendSessions)%nat;
  ok_disjoint : forall tn, inner (session g) tn ##ₘ inner (retired g) tn;
  ok_full : forall tn, inner (retired g) tn <> ∅ -> size (inner (session g) tn) = maxSpendSessions;
  ok_resolved : forall tn, unresolved tn = true ->
    inner (session g) tn = ∅ /\ inner (retired g) tn = ∅ /\ dayUsed g !! tn = None
}.

(** The touch counters: within a tenant no two sessions share one, and none
    is ahead of the guard's. *)
Record touch_ok (g : t) : Prop := {
  tk_bound : forall tn sid st, lookupSpend g tn sid = Some st -> 0 < order st <= g_order g;
  tk_inj : forall tn s1 s2 st1 st2,
    lookupSpend g tn s1 = Some st1 -> lookupSpend g tn s2 = Some st2 ->
    order st1 = order st2 -> s1 = s2
}.

(** One critical section of the guard. *)
Inductive guard_step (g : t) : t -> Prop :=
| step_record it now now' tenant sid n c ub :
    guard_step g (Record_ it now now' g tenant sid n c ub)
| step_check it now tenant sid :
    guard_step g (Check_ it now g tenant sid).1
| step_load now file :
    guard_step g (LoadState now g file)
| step_save now :
    guard_step g (SaveState now g).1.

(** [guard_reach l k g]: [g] is reached from a new guard in [k] steps. *)
Inductive guard_reach (l : SpendLimits) : nat -> t -> Prop :=
| reach_new : guard_reach l 0 (NewSpendGuard l)
| reach_step k g g' : guard_reach l k g -> guard_step g g' -> guard_reach l (S k) g'.

(** ** Lemmas: the LRU scan *)

Definition lru_pick (oldest : option (string * spend)) (kv : string * spend) : option (string * spend) :=
  match oldest with
  | None => Some kv
  | Some o => if order kv.2 <? order o.2 then Some kv else oldest
  end.

Lemma lru_fold l o :
  exists k, fold_left lru_pick l (Some o) = Some k /\ (k = o \/ k ∈ l) /\
    order k.2 <= order o.2 /\ Forall (fun kv => order k.2 <= order kv.2) l.
Proof.
  revert o; induction l as [|kv l IH]; intros o; simpl.
  - exists o. repeat split; [by left | lia | constructor].
  - destruct (order kv.2 <? order o.2) eqn:Hlt; reflect_bool.
    + destruct (IH kv) as (k & -> & Hin & Hle & Hall). exists k.
      split_and!; [done | | lia | constructor; [lia | done]].
      destruct Hin as [->|Hin]; right; [by left | by right].
    + destruct (IH o) as (k & -> & Hin & Hle & Hall). exists k.
      split_and!; [done | | lia | constructor; [lia | done]].
      destruct Hin as [->|Hin]; [by left | right; by right].
Qed.

Lemma lruVictim_spec it (m : gmap string spend) :
  m <> ∅ ->
  exists k st, lruVictim it m = Some (k, st) /\ m !! k = Some st /\
    forall k' st', m !! k' = Some st' -> order st <= order st'.
Proof.
  intros Hne. unfold lruVictim. fold lru_pick.
  destruct (go_range it m) as [|kv l] eqn:Hr; [by apply go_range_nil in Hr |].
  simpl. destruct (lru_fold l kv) as ([k st] & Hf & Hin & Hle & Hall).
  change (fold_left _ l (Some kv)) with (fold_left lru_pick l (Some kv)). rewrite Hf.
  exists k, st. split_and!; [done | |].
  - apply (elem_of_go_range it). rewrite Hr.
    destruct Hin as [<-|Hin]; [by left | by right].
  - intros k' st' Hk'%(elem_of_go_range it). rewrite Hr in Hk'.
    apply elem_of_cons in Hk' as [<-|Hk']; [done |].
    rewrite Forall_forall in Hall. by apply (Hall (k', st')).
Qed.

(** ** Lemmas: admission *)

Lemma lookupSpend_live g tn sid st :
  inner (session g) tn !! sid = Some st -> lookupSpend g tn sid = Some st.
Proof. unfold lookupSpend. by intros ->. Qed.

Lemma lookupSpend_none g tn sid :
  lookupSpend g tn sid = None <->
  inner (session g) tn !! sid = None /\ inner (retired g) tn !! sid = None.
Proof. unfold lookupSpend. destruct (inner (session g) tn !! sid); naive_solver. Qed.

(** Two guards hold the same accounts. *)
Definition same_accounts (g g' : t) : Prop :=
  forall tn sid, lookupSpend g' tn sid = lookupSpend g tn sid.

(** Making room and opening a slot: everybody keeps what they had, the session
    has a slot, and it has it in the table [p] says. *)
Record admitted (g g' : t) (tenant sid : string) (p : place) (st : spend) : Prop := {
  ad_ok : guard_ok g';
  ad_value : st = default zero_spend (lookupSpend g tenant sid);
  ad_slot : match p with
            | Live => inner (session g') tenant !! sid = Some st
            | Retired => inner (retired g') tenant !! sid = Some st
            end;
  ad_lookup : lookupSpend g' tenant sid = Some st;
  ad_others : forall tn s, (tn, s) <> (tenant, sid) -> lookupSpend g' tn s = lookupSpend g tn s;
  ad_tables : forall tn, tn <> tenant ->
    inner (session g') tn = inner (session g) tn /\ inner (retired g') tn = inner (retired g) tn;
  ad_frame : dayUsed g' = dayUsed g /\ g_day g' = g_day g /\ g_order g' = g_order g /\
             limits g' = limits g /\ unpriceable g' = unpriceable g
}.

Ltac by_tenant tn tenant :=
  destruct (decide (tenant = tn)) as [<-|?];
  [ rewrite ?inner_insert_eq in *
  | rewrite ?(inner_insert_ne _ tenant tn) in * by done ].

Lemma admit_fresh_room it g tenant sid :
  guard_ok g -> unresolved tenant = false -> lookupSpend g tenant sid = None ->
  (size (inner (session g) tenant) < maxSpendSessions)%nat ->
  exists g', admit_session it g tenant sid = (g', Some (Live, zero_spend)) /\
             admitted g g' tenant sid Live zero_spend.
Proof.
  intros [Hl Hr Hd Hf Hu] Hres [Hs Hrt]%lookupSpend_none Hroom.
  unfold admit_session. rewrite Hs, Hrt.
  destruct (Nat.leb_spec maxSpendSessions (size (inner (session g) tenant))) as [Hle|_]; [lia |].
  eexists; split; [done |].
  assert (inner (retired g) tenant = ∅) as Hempty.
  { destruct (decide (inner (retired g) tenant = ∅)) as [|Hne]; [done |].
    specialize (Hf _ Hne). lia. }
  split; simpl; try done.
  - split; simpl; intros tn; try apply Hr.
    + by_tenant tn tenant; [| apply Hl]. rewrite map_size_insert_None by done. lia.
    + by_tenant tn tenant; [| apply Hd]. rewrite Hempty. apply map_disjoint_empty_r.
    + intros Hne. by_tenant tn tenant; [done | by apply Hf].
    + intros Htn. by_tenant tn tenant; [congruence | by apply Hu].
  - unfold lookupSpend. by rewrite Hs, Hrt.
  - by rewrite inner_insert_eq, lookup_insert_eq.
  - apply lookupSpend_live; simpl. by rewrite inner_insert_eq, lookup_insert_eq.
  - intros tn s Hne. unfold lookupSpend; simpl. by_tenant tn tenant; [| done].
    rewrite lookup_insert_ne; [done | congruence].
  - intros tn Htn. by_tenant tn tenant; done.
Qed.

Lemma admit_fresh_full it g tenant sid :
  guard_ok g -> unresolved tenant = false -> lookupSpend g tenant sid = None ->
  (maxSpendSessions <= size (inner (session g) tenant))%nat ->
  (size (inner (retired g) tenant) < maxRetiredSpendSessions)%nat ->
  exists g', admit_session it g tenant sid = (g', Some (Live, zero_spend)) /\
             admitted g g' tenant sid Live zero_spend.
Proof.
  intros [Hl Hr Hd Hf Hu] Hres [Hs Hrt]%lookupSpend_none Hfull Hroom.
  unfold admit_session. rewrite Hs, Hrt. unfold ensureRetired.
  destruct (Nat.leb_spec maxSpendSessions (size (inner (session g) tenant))) as [_|?]; [| lia].
  destruct (Nat.leb_spec maxRetiredSpendSessions (size (inner (retired g) tenant))) as [?|_]; [lia |].
  assert (inner (session g) tenant <> ∅) as Hne.
  { intros E. rewrite E, map_size_empty in Hfull. unfold maxSpendSessions in Hfull. lia. }
  destruct (lruVictim_spec it _ Hne) as (v & vst & -> & Hv & _); simpl.
  assert (v <> sid) as Hvs by congruence.
  assert (inner (retired g) tenant !! v = None) as Hvr by (by eapply map_disjoint_Some_l).
  assert (delete v (inner (session g) tenant) !! sid = None) as Hds
    by (by rewrite lookup_delete_ne).
  assert (size (delete v (inner (session g) tenant)) = pred (size (inner (session g) tenant)))
    as Hsz by (apply map_size_delete_Some; eauto).
  eexists; split; [done |].
  split; simpl; try done.
  - split; simpl; intros tn.
    + by_tenant tn tenant; [| apply Hl]. rewrite map_size_insert_None by done.
      specialize (Hl tenant). rewrite Hsz. unfold maxSpendSessions in *. lia.
    + by_tenant tn tenant; [| apply Hr]. rewrite map_size_insert_None by done. lia.
    + by_tenant tn tenant; [| apply Hd].
      apply map_disjoint_insert_l. split; [by rewrite lookup_insert_ne |].
      apply map_disjoint_insert_r. split; [by rewrite lookup_delete_eq |].
      apply map_disjoint_delete_l, Hd.
    + by_tenant tn tenant; [| by apply Hf]. intros _.
      rewrite map_size_insert_None by done. specialize (Hl tenant). rewrite Hsz.
      unfold maxSpendSessions in *. lia.
    + intros Htn. by_tenant tn tenant; [congruence | by apply Hu].
  - unfold lookupSpend. by rewrite Hs, Hrt.
  - by rewrite inner_insert_eq, lookup_insert_eq.
  - apply lookupSpend_live; simpl. by rewrite inner_insert_eq, lookup_insert_eq.
  - intros tn s Hns. unfold lookupSpend; simpl. by_tenant tn tenant; [| done].
    rewrite lookup_insert_ne by congruence.
    destruct (decide (v = s)) as [<-|Hvs'].
    + by rewrite lookup_delete_eq, lookup_insert_eq, Hv.
    + by rewrite lookup_delete_ne, lookup_insert_ne.
  - intros tn Htn. by_tenant tn tenant; done.
Qed.

Lemma admitted_present g tenant sid p st :
  guard_ok g -> lookupSpend g tenant sid = Some st ->
  match p with
  | Live => inner (session g) tenant !! sid = Some st
  | Retired => inner (retired g) tenant !! sid = Some st
  end ->
  admitted g g tenant sid p st.
Proof. intros Hok Hlk Hslot. split; auto. by rewrite Hlk. Qed.

(** Admission fails exactly when [tableFull] says so for a session never seen,
    and then it changes no account. *)
Lemma admit_spec it g tenant sid :
  guard_ok g -> unresolved tenant = false ->
  (lookupSpend g tenant sid = None /\ tableFull g tenant = true /\
   exists g', admit_session it g tenant sid = (g', None) /\ guard_ok g' /\ same_accounts g g' /\
     (forall tn, inner (session g') tn = inner (session g) tn /\
                 inner (retired g') tn = inner (retired g) tn) /\
     dayUsed g' = dayUsed g /\ g_day g' = g_day g /\ g_order g' = g_order g /\
     limits g' = limits g /\ unpriceable g' = unpriceable g) \/
  (exists g' p st, admit_session it g tenant sid = (g', Some (p, st)) /\ admitted g g' tenant sid p st).
Proof.
  intros Hok Hres.
  destruct (lookupSpend g tenant sid) as [st|] eqn:Hlk.
  { right. unfold admit_session. pose proof Hlk as Hlk'. unfold lookupSpend in Hlk'.
    destruct (inner (session g) tenant !! sid) eqn:Hs; simplify_eq.
    - exists g, Live, st. split; [done |]. by apply admitted_present.
    - rewrite Hlk'. exists g, Retired, st. split; [done |]. by apply admitted_present. }
  destruct (decide (maxSpendSessions <= size (inner (session g) tenant))%nat) as [Hs|Hs].
  2: { right. destruct (admit_fresh_room it g tenant sid) as (g' & ? & ?); auto with lia. eauto. }
  destruct (decide (maxRetiredSpendSessions <= size (inner (retired g) tenant))%nat) as [Hr|Hr].
  2: { right. destruct (admit_fresh_full it g tenant sid) as (g' & ? & ?); auto with lia. eauto. }
  left. apply lookupSpend_none in Hlk as Hlk'. destruct Hlk' as [Hs' Hr'].
  unfold tableFull, admit_session, ensureRetired. rewrite Hs', Hr'.
  apply Nat.leb_le in Hs as ->. apply Nat.leb_le in Hr as ->.
  split_and!; [done | done |]. eexists; split; [done |]. simpl.
  assert (forall tn, inner (<[tenant := inner (retired g) tenant]> (retired g)) tn
                     = inner (retired g) tn) as Hin.
  { intros tn. by_tenant tn tenant; done. }
  destruct Hok as [Hl Hrt Hd Hf Hu].
  split_and!; try done.
  - split; simpl; intros tn; rewrite ?Hin; auto.
  - intros tn s. unfold lookupSpend; simpl. by rewrite Hin.
Qed.

(** ** Lemmas: one [Record] *)

(** Whether [Record] accounts for a request at all. *)
Definition accepts (g : t) (tenant : string) (n : Z) (c : float64) : bool :=
  Enabled g && negb ((n <=? 0) && fleb c f0) && negb (unresolved tenant).

(** The day total after one charge on the day [now] falls on. *)
Definition day_after (g : t) (now : time) (tenant : string) (n : Z) (c : float64) : spend :=
  let du := dayAccumulator (rollDay now g) tenant in
  mkSpend (tokens du +! n) (usd du + c)%float (seen du) (order du)
    (day du) (dayTokens du) (dayUSD du).

Lemma rollDay_frame now g :
  session (rollDay now g) = session g /\ retired (rollDay now g) = retired g /\
  g_order (rollDay now g) = g_order g /\ limits (rollDay now g) = limits g /\
  unpriceable (rollDay now g) = unpriceable g.
Proof. unfold rollDay. by case_match. Qed.

Lemma rollDay_day now g : g_day (rollDay now g) = format_date now.
Proof. unfold rollDay. case_match eqn:E; [by apply String.eqb_eq in E | done]. Qed.

Lemma rollDay_lookup now g tn sid : lookupSpend (rollDay now g) tn sid = lookupSpend g tn sid.
Proof.
  unfold lookupSpend. by destruct (rollDay_frame now g) as (-> & -> & _).
Qed.

Lemma rollDay_ok now g : guard_ok g -> guard_ok (rollDay now g).
Proof.
  destruct (rollDay_frame now g) as (Hs & Hr & _).
  intros [Hl Hrt Hd Hf Hu]; split; rewrite ?Hs, ?Hr; auto.
  intros tn Htn. specialize (Hu tn Htn) as (? & ? & ?). split_and!; [done | done |].
  unfold rollDay. by case_match.
Qed.

(** Same tables, day and counters, whatever else changed. *)
Definition same_tables (g g' : t) : Prop :=
  (forall tn, inner (session g') tn = inner (session g) tn) /\
  (forall tn, inner (retired g') tn = inner (retired g) tn) /\
  dayUsed g' = dayUsed g.

Lemma same_tables_ok g g' : same_tables g g' -> guard_ok g -> guard_ok g'.
Proof.
  intros (Hs & Hr & Hu) [Hl Hrt Hd Hf Hres].
  split; intros tn; rewrite ?Hs, ?Hr, ?Hu; auto.
Qed.

Lemma same_tables_lookup g g' tn sid :
  same_tables g g' -> lookupSpend g' tn sid = lookupSpend g tn sid.
Proof. intros (Hs & Hr & _). unfold lookupSpend. by rewrite Hs, Hr. Qed.

Lemma store_ok g tenant sid p st st' :
  guard_ok g -> unresolved tenant = false ->
  match p with
  | Live => inner (session g) tenant !! sid = Some st
  | Retired => inner (retired g) tenant !! sid = Some st
  end ->
  guard_ok (store g tenant sid p st').
Proof.
  intros [Hl Hr Hd Hf Hu] Hres Hslot.
  destruct p; simpl in *; split; simpl; intros tn; auto.
  - by_tenant tn tenant; [| apply Hl]. rewrite map_size_insert_Some by eauto. apply Hl.
  - by_tenant tn tenant; [| apply Hd]. apply map_disjoint_insert_l.
    split; [by eapply map_disjoint_Some_l | apply Hd].
  - intros Hne. by_tenant tn tenant; [| by apply Hf].
    rewrite map_size_insert_Some by eauto. by apply Hf.
  - intros Htn. by_tenant tn tenant; [congruence | by apply Hu].
  - by_tenant tn tenant; [| apply Hr]. rewrite map_size_insert_Some by eauto. apply Hr.
  - by_tenant tn tenant; [| apply Hd]. apply map_disjoint_insert_r.
    split; [by eapply map_disjoint_Some_r | apply Hd].
  - intros Hne. by_tenant tn tenant; [| by apply Hf].
    apply Hf. intros E. by rewrite E, lookup_empty in Hslot.
  - intros Htn. by_tenant tn tenant; [congruence | by apply Hu].
Qed.

Lemma store_lookup g tenant sid p st st' :
  guard_ok g ->
  match p with
  | Live => inner (session g) tenant !! sid = Some st
  | Retired => inner (retired g) tenant !! sid = Some st
  end ->
  lookupSpend (store g tenant sid p st') tenant sid = Some st' /\
  (forall tn s, (tn, s) <> (tenant, sid) ->
     lookupSpend (store g tenant sid p st') tn s = lookupSpend g tn s).
Proof.
  intros Hok Hslot. unfold lookupSpend. destruct p; simpl; split.
  - by rewrite inner_insert_eq, lookup_insert_eq.
  - intros tn s Hne. by_tenant tn tenant; [| done].
    rewrite lookup_insert_ne; [done | congruence].
  - rewrite inner_insert_eq, lookup_insert_eq.
    assert (inner (session g) tenant !! sid = None) as ->; [| done].
    eapply map_disjoint_Some_r; [apply Hok | done].
  - intros tn s Hne. by_tenant tn tenant; [| done].
    rewrite lookup_insert_ne; [done | congruence].
Qed.

Lemma chargeDay_ok g tenant n c :
  guard_ok g -> unresolved tenant = false -> guard_ok (chargeDay g tenant n c).
Proof.
  intros [Hl Hr Hd Hf Hu] Hres. split; simpl; auto.
  intros tn Htn. specialize (Hu tn Htn) as (? & ? & ?). split_and!; [done | done |].
  rewrite lookup_insert_ne; [done | congruence].
Qed.

Lemma chargeDay_total g tenant n c :
  dayUsed (chargeDay g tenant n c) !! tenant =
    Some (mkSpend (tokens (dayAccumulator g tenant) +! n) (usd (dayAccumulator g tenant) + c)%float
            (seen (dayAccumulator g tenant)) (order (dayAccumulator g tenant))
            (day (dayAccumulator g tenant)) (dayTokens (dayAccumulator g tenant))
            (dayUSD (dayAccumulator g tenant))).
Proof. unfold chargeDay; simpl. by rewrite lookup_insert_eq. Qed.

Lemma chargeDay_total_ne g tenant n c tn :
  tn <> tenant -> dayUsed (chargeDay g tenant n c) !! tn = dayUsed g !! tn.
Proof. intros. unfold chargeDay; simpl. by rewrite lookup_insert_ne. Qed.

Lemma chargeDay_frame g tenant n c :
  g_day (chargeDay g tenant n c) = g_day g /\ limits (chargeDay g tenant n c) = limits g /\
  g_order (chargeDay g tenant n c) = g_order g /\
  (forall tn s, lookupSpend (chargeDay g tenant n c) tn s = lookupSpend g tn s).
Proof. done. Qed.

(** The guard [Record] holds when it reaches [admit_session]: upper bound flagged, day
    rolled, the tenant's table allocated. *)
Definition before_admit (now : time) (g : t) (tenant : string) (upperBound : bool) : t :=
  let g :=
    if upperBound && (fltb f0 (SessionUSD (limits g)) || fltb f0 (DayUSD (limits g)))
    then mkGuard (limits g) (session g) (retired g) (g_day g) (dayUsed g) true (g_order g)
    else g in
  let g := rollDay now g in
  match session g !! tenant with
  | Some _ => g
  | None => mkGuard (limits g) (<[tenant := ∅]> (session g)) (retired g) (g_day g)
              (dayUsed g) (unpriceable g) (g_order g)
  end.

Lemma before_admit_spec now g tenant ub :
  same_tables (rollDay now g) (before_admit now g tenant ub) /\
  g_day (before_admit now g tenant ub) = format_date now /\
  g_order (before_admit now g tenant ub) = g_order g /\
  limits (before_admit now g tenant ub) = limits g.
Proof.
  unfold before_admit.
  set (g1 := if _ && _ then _ else g).
  assert (session g1 = session g /\ retired g1 = retired g /\ dayUsed g1 = dayUsed g /\
          g_day g1 = g_day g /\ g_order g1 = g_order g /\ limits g1 = limits g)
    as (Es & Er & Eu & Ed & Eo & El) by (subst g1; by case_match).
  assert (dayUsed (rollDay now g1) = dayUsed (rollDay now g)) as Eu'.
  { unfold rollDay. rewrite Ed. by case_match. }
  destruct (rollDay_frame now g1) as (Fs & Fr & Fo & Fl & _).
  destruct (rollDay_frame now g) as (Gs & Gr & _ & _ & _).
  pose proof (rollDay_day now g1) as Hday.
  destruct (session (rollDay now g1) !! tenant) as [m|] eqn:Hm; simpl;
    (split; [| split_and!; congruence]);
    (split; [| split; [| done]]); intros tn; simpl; rewrite ?Fs, ?Fr, ?Gs, ?Gr, ?Es, ?Er; try done.
  rewrite Fs, Es in Hm. by_tenant tn tenant; [| done].
  unfold inner. by rewrite Hm.
Qed.

(** What one accepted [Record] does to the guard. *)
Record record_effect (now now' : time) (g g' : t) (tenant sid : string) (n : Z) (c : float64) : Prop := {
  re_ok : guard_ok g';
  re_day : g_day g' = format_date now;
  re_limits : limits g' = limits g;
  re_total : dayUsed g' !! tenant = Some (day_after g now tenant n c);
  re_totals : forall tn, tn <> tenant -> dayUsed g' !! tn = dayUsed (rollDay now g) !! tn;
  re_others : forall tn s, (tn, s) <> (tenant, sid) -> lookupSpend g' tn s = lookupSpend g tn s;
  re_tables : forall tn, tn <> tenant ->
    inner (session g') tn = inner (session g) tn /\ inner (retired g') tn = inner (retired g) tn;
  re_account :
    (lookupSpend g tenant sid = None /\ tableFull g tenant = true /\
     lookupSpend g' tenant sid = None /\ g_order g' = g_order g) \/
    (lookupSpend g' tenant sid =
       Some (charge (default zero_spend (lookupSpend g tenant sid)) now'
               (next_order (g_order g)) (format_date now) n c) /\
     g_order g' = next_order (g_order g))
}.

Lemma Record_effect it now now' g tenant sid n c ub :
  guard_ok g -> accepts g tenant n c = true ->
  record_effect now now' g (Record_ it now now' g tenant sid n c ub) tenant sid n c.
Proof.
  intros Hok Hacc. unfold accepts in Hacc. reflect_bool.
  match goal with H : Enabled g = true |- _ => rename H into Hen end.
  match goal with H : unresolved tenant = false |- _ => rename H into Hres end.
  match goal with H : (n <=? 0) && _ = false |- _ => rename H into Hpos end.
  unfold Record_. rewrite Hen, Hpos. cbn [negb orb]. unfold unresolved in Hres. rewrite Hres.
  fold (before_admit now g tenant ub).
  destruct (before_admit_spec now g tenant ub) as (Hst & Hday & Hord & Hlim).
  set (g1 := before_admit now g tenant ub) in *.
  pose proof (same_tables_ok _ _ Hst (rollDay_ok now g Hok)) as Hok1.
  assert (forall tn s, lookupSpend g1 tn s = lookupSpend g tn s) as Hlk.
  { intros tn s. by rewrite (same_tables_lookup _ _ tn s Hst), rollDay_lookup. }
  destruct (rollDay_frame now g) as (Rs & Rr & _).
  destruct Hst as (Hs & Hr & Hu).
  destruct (admit_spec it g1 tenant sid Hok1 Hres)
    as [(Hnone & Hfull & g2 & -> & Hok2 & Hsame & Htab & Eu & Ed & Eo & El & _)
       |(g2 & p & st & -> & [Hok2 Hst Hslot Hval Hoth Htab (Eu & Ed & Eo & El & _)])].
  - destruct (chargeDay_frame g2 tenant n c) as (Cd & Cl & Co & Clk).
    split.
    + by apply chargeDay_ok.
    + by rewrite Cd, Ed.
    + by rewrite Cl, El.
    + rewrite chargeDay_total. unfold day_after, dayAccumulator. by rewrite Eu, Hu.
    + intros tn Htn. rewrite chargeDay_total_ne by done. by rewrite Eu, Hu.
    + intros tn s Hns. by rewrite Clk, Hsame, Hlk.
    + intros tn _. destruct (Htab tn) as [Ts Tr]. cbn.
      by rewrite Ts, Tr, Hs, Hr, Rs, Rr.
    + left. split_and!; [by rewrite <- Hlk | | by rewrite Clk, Hsame | by rewrite Co, Eo].
      unfold tableFull in *. by rewrite <- Hfull, Hs, Hr, Rs, Rr.
  - set (ord := next_order (g_order g2)).
    set (g3 := mkGuard (limits g2) (session g2) (retired g2) (g_day g2) (dayUsed g2) (unpriceable g2) ord).
    assert (guard_ok g3) as Hok3 by (apply (same_tables_ok g2); [by split_and! | done]).
    set (st' := charge st now' ord (g_day g2) n c).
    destruct (store_lookup g3 tenant sid p st st' Hok3) as [Hl Ho]; [by destruct p |].
    assert (guard_ok (store g3 tenant sid p st')) as Hok4
      by (eapply (store_ok g3 tenant sid p st); eauto; by destruct p).
    assert (dayUsed (store g3 tenant sid p st') = dayUsed g2 /\
            g_day (store g3 tenant sid p st') = g_day g2 /\
            limits (store g3 tenant sid p st') = limits g2 /\
            g_order (store g3 tenant sid p st') = ord) as (Fu & Fd & Fl & Fo)
      by (by destruct p).
    change (next_order (g_order g2)) with ord. fold g3.
    change (g_day g3) with (g_day g2).
    change (charge st now' ord (g_day g2) n c) with st'.
    destruct (chargeDay_frame (store g3 tenant sid p st') tenant n c) as (Cd & Cl & Co & Clk).
    split.
    + by apply chargeDay_ok.
    + by rewrite Cd, Fd, Ed.
    + by rewrite Cl, Fl, El.
    + rewrite chargeDay_total. unfold day_after, dayAccumulator. by rewrite Fu, Eu, Hu.
    + intros tn Htn. rewrite chargeDay_total_ne by done. by rewrite Fu, Eu, Hu.
    + intros tn s Hns. rewrite Clk, Ho by done. transitivity (lookupSpend g2 tn s); [done |].
      by rewrite Hoth, Hlk.
    + intros tn Htn. destruct (Htab tn Htn) as [Ts Tr]. clear - Ts Tr Hs Hr Rs Rr Htn.
      assert (inner (session (store g3 tenant sid p st')) tn = inner (session g2) tn /\
              inner (retired (store g3 tenant sid p st')) tn = inner (retired g2) tn)
        as [Ss Sr] by (destruct p; simpl; by rewrite ?(inner_insert_ne _ tenant tn) by done).
      cbn. by rewrite Ss, Sr, Ts, Tr, Hs, Hr, Rs, Rr.
    + right. rewrite Clk, Hl, Co, Fo. subst st' ord. simpl.
      by rewrite Hst, Hlk, Ed, Eo, Hday, Hord.
Qed.

Lemma Record_ignored it now now' g tenant sid n c ub :
  accepts g tenant n c = false -> Record_ it now now' g tenant sid n c ub = g.
Proof.
  unfold accepts, Record_, unresolved.
  destruct (Enabled g); cbn [negb orb andb]; [| reflexivity].
  destruct ((n <=? 0) && fleb c f0); cbn [negb orb andb]; [reflexivity |].
  intros ->%negb_false_iff. reflexivity.
Qed.

End SpendGuard.
