(* ===== verification/GuardsSpec.v ===== *)
(** What the spend guard promises ([src/internal/proxy/guards.go]): bounded
    tables that never lose a session's account, caps that stay shut, tenants
    that cannot see each other, a day total that survives a restart. *)

From S2P Require Import Prelude GoString GoFloat GoTime Tenancy Guards.
From Stdlib Require Import String.

Open Scope string_scope.
Open Scope Z_scope.

Module SpendGuardSpec.
Import Tenancy SpendGuard.

(** ** Preservation *)

Lemma Record_ok it now now' g tenant sid n c ub :
  guard_ok g -> guard_ok (Record_ it now now' g tenant sid n c ub).
Proof.
  intros Hok. destruct (accepts g tenant n c) eqn:Hacc.
  - by eapply re_ok, Record_effect.
  - by rewrite Record_ignored.
Qed.

Lemma Record_lookup_other it now now' g tenant sid n c ub tn s :
  guard_ok g -> (tn, s) <> (tenant, sid) ->
  lookupSpend (Record_ it now now' g tenant sid n c ub) tn s = lookupSpend g tn s.
Proof.
  intros Hok Hne. destruct (accepts g tenant n c) eqn:Hacc.
  - by eapply re_others; [apply Record_effect |].
  - by rewrite Record_ignored.
Qed.

Lemma Check_state it now g tenant sid :
  (Check_ it now g tenant sid).1 = g \/ (Check_ it now g tenant sid).1 = rollDay now g.
Proof.
  unfold Check_. destruct (negb (Enabled g)); [by left |].
  destruct (String.eqb tenant _ || _); [by left | by right].
Qed.

Lemma Check_ok it now g tenant sid : guard_ok g -> guard_ok (Check_ it now g tenant sid).1.
Proof.
  intros Hok. destruct (Check_state it now g tenant sid) as [-> | ->]; auto using rollDay_ok.
Qed.

Lemma Check_lookup it now g tenant sid tn s :
  lookupSpend (Check_ it now g tenant sid).1 tn s = lookupSpend g tn s.
Proof.
  destruct (Check_state it now g tenant sid) as [-> | ->]; auto using rollDay_lookup.
Qed.

Lemma persistedTenantKey_some raw tn :
  persistedTenantKey raw = Some tn -> tn = raw /\ unresolved tn = false.
Proof.
  unfold persistedTenantKey. destruct (String.eqb_spec raw LocalTenant) as [->|Hne].
  - by intros [= <-].
  - destruct (ValidateTenantID raw) eqn:Hv; [done |]. intros [= <-].
    apply ValidateTenantID_none in Hv as (H1 & H2 & _ & _). split; [done |].
    unfold unresolved. apply String.eqb_neq in H1, H2. by rewrite H1, H2.
Qed.

Definition restore_entries (l : list (string * tenantSpendState)) : list (string * spend) :=
  omap (fun kv => tenant ← persistedTenantKey kv.1; Some (tenant, restored kv.2)) l.

Lemma restore_entries_elem l tn sp :
  (tn, sp) ∈ restore_entries l <->
  persistedTenantKey tn = Some tn /\ exists ts, (tn, ts) ∈ l /\ sp = restored ts.
Proof.
  unfold restore_entries. rewrite list_elem_of_omap. split.
  - intros ([raw ts] & Hin & Hb). simpl in Hb.
    destruct (persistedTenantKey raw) as [t'|] eqn:Hp; [| done]. simpl in Hb. simplify_eq.
    pose proof (persistedTenantKey_some _ _ Hp) as [-> _]. eauto.
  - intros (Hp & ts & Hin & ->). exists (tn, ts). split; [done |]. simpl. by rewrite Hp.
Qed.

Lemma restore_entries_nodup l : NoDup l.*1 -> NoDup (restore_entries l).*1.
Proof.
  induction l as [|[raw ts] l IH]; simpl; intros Hnd; [constructor |].
  apply NoDup_cons in Hnd as [Hni Hnd]. unfold restore_entries; simpl.
  destruct (persistedTenantKey raw) as [tn|] eqn:Hp; simpl; [| by apply IH].
  pose proof (persistedTenantKey_some _ _ Hp) as [-> _].
  apply NoDup_cons. split; [| by apply IH].
  intros ([tn sp] & -> & Hin)%list_elem_of_fmap. apply Hni.
  apply restore_entries_elem in Hin as (_ & ts' & Hin & _).
  apply list_elem_of_fmap. by exists (tn, ts').
Qed.

Lemma restored_lookup (m : gmap string tenantSpendState) tn :
  (list_to_map (restore_entries (map_to_list m)) : gmap string spend) !! tn =
    (_ ← persistedTenantKey tn; restored <$> m !! tn).
Proof.
  apply option_eq. intros sp. rewrite <- elem_of_list_to_map.
  2: { apply restore_entries_nodup, NoDup_fst_map_to_list. }
  rewrite restore_entries_elem. setoid_rewrite elem_of_map_to_list. split.
  - intros (-> & ts & -> & ->). done.
  - destruct (persistedTenantKey tn) as [tn'|] eqn:Hp; simpl; [| done].
    pose proof (persistedTenantKey_some _ _ Hp) as [-> _].
    intros (ts & -> & Hts)%fmap_Some. eauto.
Qed.

Lemma LoadState_frame now g file :
  session (LoadState now g file) = session g /\ retired (LoadState now g file) = retired g /\
  g_order (LoadState now g file) = g_order g.
Proof. unfold LoadState. destruct file; [| done]. by case_match. Qed.

Lemma LoadState_unresolved now g file tn :
  unresolved tn = true -> dayUsed g !! tn = None -> dayUsed (LoadState now g file) !! tn = None.
Proof.
  intros Htn Hg. unfold LoadState. destruct file as [st|]; [| done].
  case_match; [done |]. simpl. case_match.
  - fold (restore_entries (map_to_list (Tenants st))). rewrite restored_lookup.
    destruct (persistedTenantKey tn) as [t'|] eqn:Hp; [| done].
    pose proof (persistedTenantKey_some _ _ Hp) as [-> ?]. congruence.
  - case_match; [| by apply lookup_empty]. by apply lookup_singleton_None; intros <-.
Qed.

Lemma guard_step_ok g g' : guard_step g g' -> guard_ok g -> guard_ok g'.
Proof.
  intros [it now now' tenant sid n c ub|it now tenant sid|now file|now] Hok.
  - by apply Record_ok.
  - by apply Check_ok.
  - destruct (LoadState_frame now g file) as (Hs & Hr & _).
    destruct Hok as [Hl Hrt Hd Hf Hu]. split; intros tn; rewrite ?Hs, ?Hr; auto.
    intros Htn. destruct (Hu tn Htn) as (? & ? & ?). auto using LoadState_unresolved.
  - apply (same_tables_ok g); [by split_and! | done].
Qed.

Lemma new_guard_ok l : guard_ok (NewSpendGuard l).
Proof.
  split; intros tn; unfold inner; simpl; rewrite ?lookup_empty; simpl;
    rewrite ?map_size_empty; try lia; try done.
Qed.

(** Touch counters, one step. *)
Lemma Record_touch it now now' g tenant sid n c ub :
  guard_ok g -> touch_ok g -> 0 <= g_order g -> g_order g + 1 < two64 ->
  let g' := Record_ it now now' g tenant sid n c ub in
  touch_ok g' /\ g_order g <= g_order g' <= g_order g + 1.
Proof.
  intros Hok [Hb Hi] H0 Hw g'.
  destruct (accepts g tenant n c) eqn:Hacc.
  2: { subst g'. rewrite Record_ignored by done. split; [by split | lia]. }
  pose proof (Record_effect it now now' g tenant sid n c ub Hok Hacc) as E. fold g' in E.
  pose proof (re_others _ _ _ _ _ _ _ _ E) as Hoth.
  assert (next_order (g_order g) = g_order g + 1) as Hno
    by (unfold next_order; apply Z.mod_small; lia).
  destruct (re_account _ _ _ _ _ _ _ _ E) as [(Hn & _ & Hn' & Ho)|(Hv & Ho)]; rewrite Ho.
  - split; [| lia].
    assert (forall tn s, lookupSpend g' tn s = lookupSpend g tn s) as Heq.
    { intros tn s. destruct (decide ((tn, s) = (tenant, sid))) as [Heq|Hne];
        [injection Heq as -> ->; congruence | auto]. }
    split; setoid_rewrite Heq; rewrite ?Ho; eauto.
  - rewrite Hno in *. split; [| lia].
    assert (forall tn s st, lookupSpend g' tn s = Some st ->
              ((tn, s) = (tenant, sid) /\ order st = g_order g + 1) \/
              lookupSpend g tn s = Some st) as Hcase.
    { intros tn s st Hl. destruct (decide ((tn, s) = (tenant, sid))) as [Heq|Hne].
      - left. injection Heq as -> ->. rewrite Hv in Hl. by simplify_eq.
      - right. by rewrite <- Hoth. }
    split; rewrite ?Ho.
    + intros tn s st [[_ ->]|Hl]%Hcase; [lia |]. apply Hb in Hl. lia.
    + intros tn s1 s2 st1 st2 [[P1 E1]|L1]%Hcase [[P2 E2]|L2]%Hcase Heq.
      * congruence.
      * apply Hb in L2. lia.
      * pose proof (Hb _ _ _ L1). lia.
      * eauto.
Qed.

Lemma guard_step_touch g g' :
  guard_step g g' -> guard_ok g -> touch_ok g -> 0 <= g_order g -> g_order g + 1 < two64 ->
  touch_ok g' /\ g_order g <= g_order g' <= g_order g + 1.
Proof.
  intros [it now now' tenant sid n c ub|it now tenant sid|now file|now] Hok Ht H0 Hw.
  - by apply Record_touch.
  - destruct (rollDay_frame now g) as (_ & _ & Ho & _).
    destruct (Check_state it now g tenant sid) as [-> | ->]; [split; [done | lia] |].
    split; [| lia]. destruct Ht as [Hb Hi].
    split; intros *; rewrite !rollDay_lookup, ?Ho; eauto.
  - destruct (LoadState_frame now g file) as (Hs & Hr & Ho). destruct Ht as [Hb Hi].
    assert (forall tn s, lookupSpend (LoadState now g file) tn s = lookupSpend g tn s) as Hl
      by (intros; unfold lookupSpend; by rewrite Hs, Hr).
    split; [| lia]. split; intros *; rewrite !Hl, ?Ho; eauto.
  - split; [| simpl; lia]. destruct Ht as [Hb Hi]. split; eauto.
Qed.

(** C2: the tables are bounded and account for every session once, in every
    state any interleaving of [Record], [Check], [LoadState] and [SaveState]
    can reach: at most 1024 live and 1024 retired sessions per tenant, no
    session in both, retirement only from a full live table, nothing under an
    unresolved tenant; and while fewer than 2^64 steps were taken the touch
    counters order each tenant's sessions strictly, so the victim of an
    eviction is the one least recently used whatever order Go's map iteration
    takes. *)
Theorem reachable_guard_ok :
  forall l k g,
    guard_reach l k g ->
    guard_ok g /\ (Z.of_nat k < two64 -> touch_ok g /\ 0 <= g_order g <= Z.of_nat k).
Proof.
  induction 1 as [|k g g' Hreach [Hok Ht] Hstep].
  - split; [apply new_guard_ok |]. intros _. split; [| simpl; lia].
    split; unfold lookupSpend, inner; simpl; intros *; by rewrite !lookup_empty.
  - split; [by eapply guard_step_ok |]. intros Hk.
    destruct Ht as [Ht Ho]; [lia |].
    assert (touch_ok g' /\ g_order g <= g_order g' <= g_order g + 1) as [Ht' Ho']
      by (apply guard_step_touch; auto; lia).
    split; [done | lia].
Qed.

Definition two_caps : SpendLimits := mkLimits 100 150 f0 f0.

Lemma reachable_guard_ok_witness :
  guard_ok (Record_ key_order 1 1 (NewSpendGuard two_caps) LocalTenant "s" 40 f0 false).
Proof.
  apply (reachable_guard_ok two_caps 1).
  apply (reach_step two_caps 0 (NewSpendGuard two_caps)); [apply reach_new | apply step_record].
Defined.

(** ** Accounting *)

(** C3: [Record] charges exactly one account and loses none.  Every other
    session of every tenant keeps its record, eviction included; the charged
    session's totals grow by the charge (its day figures start over when the
    UTC day has changed); the tenant's day total grows by it; a session that
    was not admitted is one never seen before while both tables were full. *)
Theorem Record_accounting :
  forall it now now' g tenant sid n c ub,
    guard_ok g -> accepts g tenant n c = true ->
    let g' := Record_ it now now' g tenant sid n c ub in
    let before := default zero_spend (lookupSpend g tenant sid) in
    (forall tn s, (tn, s) <> (tenant, sid) -> lookupSpend g' tn s = lookupSpend g tn s) /\
    dayUsed g' !! tenant = Some (day_after g now tenant n c) /\
    match lookupSpend g' tenant sid with
    | Some st =>
        tokens st = tokens before +! n /\ usd st = (usd before + c)%float /\
        day st = format_date now /\
        dayTokens st = (if String.eqb (day before) (format_date now)
                        then dayTokens before else 0) +! n
    | None => lookupSpend g tenant sid = None /\ tableFull g tenant = true
    end.
Proof.
  intros it now now' g tenant sid n c ub Hok Hacc g' before.
  destruct (Record_effect it now now' g tenant sid n c ub Hok Hacc)
    as [_ _ _ Htot _ Hoth _ Hacct]. fold g' in Htot, Hoth, Hacct.
  split; [exact Hoth |]. split; [exact Htot |].
  destruct Hacct as [(Hn & Hf & -> & _)|(-> & _)]; [done |].
  fold before. unfold charge; simpl. split_and!; [done | done | done |].
  by destruct (String.eqb (day before) (format_date now)).
Qed.

Definition guard_a : t := Record_ key_order 1 1 (NewSpendGuard two_caps) LocalTenant "a" 40 f0 false.

Lemma guard_a_ok : guard_ok guard_a.
Proof. apply Record_ok, new_guard_ok. Qed.

Lemma Record_accounting_witness :
  lookupSpend (Record_ key_order 1 1 guard_a LocalTenant "b" 7 f0 false) LocalTenant "a"
  = lookupSpend guard_a LocalTenant "a".
Proof.
  refine (proj1 (Record_accounting key_order 1 1 guard_a LocalTenant "b" 7 f0 false
                   guard_a_ok _) LocalTenant "a" _).
  - vm_compute. reflexivity.
  - intros E. injection E as E. discriminate E.
Defined.

(** ** Caps stay shut *)

(** One call a request makes. *)
Inductive op :=
| DoRecord (it : iteration) (now now' : time) (tenant sid : string) (n : Z) (c : float64) (ub : bool)
| DoCheck (it : iteration) (now : time) (tenant sid : string).

Definition run_op (g : t) (o : op) : t :=
  match o with
  | DoRecord it now now' tenant sid n c ub => Record_ it now now' g tenant sid n c ub
  | DoCheck it now tenant sid => (Check_ it now g tenant sid).1
  end.

Definition op_tokens (o : op) : Z :=
  match o with DoRecord _ _ _ _ _ n _ _ => n | DoCheck _ _ _ _ => 0 end.

Definition total_tokens (ops : list op) : Z := foldr (fun o acc => op_tokens o + acc) 0 ops.

Lemma run_op_ok g o : guard_ok g -> guard_ok (run_op g o).
Proof. destruct o; simpl; auto using Record_ok, Check_ok. Qed.

Lemma run_op_limits g o : guard_ok g -> limits (run_op g o) = limits g.
Proof.
  intros Hok. destruct o as [it now now' tenant sid n c ub|it now tenant sid]; simpl.
  - destruct (accepts g tenant n c) eqn:Hacc; [| by rewrite Record_ignored].
    by eapply re_limits, Record_effect.
  - destruct (Check_state it now g tenant sid) as [-> | ->]; [done |].
    by destruct (rollDay_frame now g) as (_ & _ & _ & -> & _).
Qed.

(** A known session stays known, and its token total only grows. *)
Lemma run_op_monotone g o tn sid st :
  guard_ok g -> lookupSpend g tn sid = Some st ->
  0 <= op_tokens o -> 0 <= tokens st -> tokens st + op_tokens o <= max_int64 ->
  exists st', lookupSpend (run_op g o) tn sid = Some st' /\
    tokens st <= tokens st' <= tokens st + op_tokens o.
Proof.
  intros Hok Hst Hn Hpos Hmax.
  destruct o as [it now now' tenant sid' n c ub|it now tenant sid']; simpl in *.
  2: { rewrite Check_lookup. exists st. split; [done | lia]. }
  destruct (accepts g tenant n c) eqn:Hacc.
  2: { rewrite Record_ignored by done. exists st. split; [done | lia]. }
  pose proof (Record_effect it now now' g tenant sid' n c ub Hok Hacc) as E.
  destruct (decide ((tn, sid) = (tenant, sid'))) as [Heq|Hne].
  - injection Heq as -> ->.
    destruct (re_account _ _ _ _ _ _ _ _ E) as [(Hn' & _)|(Hl & _)]; [congruence |].
    rewrite Hl, Hst. eexists; split; [done |]. simpl. lia_int.
  - rewrite (re_others _ _ _ _ _ _ _ _ E) by done. exists st. split; [done | lia].
Qed.

Lemma run_monotone ops : forall g tn sid st,
  guard_ok g -> lookupSpend g tn sid = Some st -> 0 <= tokens st ->
  Forall (fun o => 0 <= op_tokens o) ops -> tokens st + total_tokens ops <= max_int64 ->
  exists st', lookupSpend (foldl run_op g ops) tn sid = Some st' /\ tokens st <= tokens st' /\
    limits (foldl run_op g ops) = limits g.
Proof.
  induction ops as [|o ops IH]; intros g tn sid st Hok Hst Hpos Hall Hmax; simpl in *.
  { exists st. split_and!; [done | lia | done]. }
  apply Forall_cons in Hall as [Ho Hall].
  assert (0 <= total_tokens ops) as Hops.
  { clear - Hall. induction Hall; simpl; lia. }
  destruct (run_op_monotone g o tn sid st) as (st1 & Hst1 & Hle); auto; [lia |].
  destruct (IH (run_op g o) tn sid st1) as (st' & ? & ? & Hlim);
    auto using run_op_ok; [lia | lia |].
  exists st'. split_and!; [done | lia |]. by rewrite Hlim, run_op_limits.
Qed.

Lemma Check_session_cap it now g tenant sid st :
  unresolved tenant = false -> lookupSpend g tenant sid = Some st ->
  0 < SessionTokens (limits g) <= tokens st ->
  (Check_ it now g tenant sid).2 = Some (SessionTokenCap (tokens st) (SessionTokens (limits g))).
Proof.
  intros Hres Hst [Hl Hle]. unfold Check_, Enabled, unresolved in *.
  rewrite Hres. apply Z.ltb_lt in Hl as Hlb. rewrite Hlb. cbn [negb orb snd].
  rewrite rollDay_lookup, Hst. change (default zero_spend (Some st)) with st. cbn [andb].
  destruct (rollDay_frame now g) as (_ & _ & _ & -> & _). rewrite Hlb.
  by apply Z.leb_le in Hle as ->.
Qed.

(** C1: a session that has reached its token cap is refused from then on.
    However many requests of any tenant and session are recorded and checked
    in between, and however many evictions they cause, the next [Check] of
    that session refuses it with the session cap, naming a total not below the
    one it had reached (SP-8: churn never hands out a fresh budget). *)
Theorem session_cap_stays_shut :
  forall g ops it now tenant sid st,
    guard_ok g -> unresolved tenant = false ->
    lookupSpend g tenant sid = Some st ->
    0 < SessionTokens (limits g) <= tokens st ->
    Forall (fun o => 0 <= op_tokens o) ops ->
    tokens st + total_tokens ops <= max_int64 ->
    exists used, tokens st <= used /\
      (Check_ it now (foldl run_op g ops) tenant sid).2 =
        Some (SessionTokenCap used (SessionTokens (limits g))).
Proof.
  intros g ops it now tenant sid st Hok Hres Hst Hcap Hall Hmax.
  destruct (run_monotone ops g tenant sid st) as (st' & Hst' & Hle & Hlim); auto; [lia |].
  exists (tokens st'). split; [done |].
  rewrite (Check_session_cap _ _ _ _ _ st'), Hlim; auto. rewrite Hlim. lia.
Qed.

Lemma session_cap_stays_shut_witness :
  exists used, 110 <= used /\
    (Check_ key_order 5
       (foldl run_op (Record_ key_order 1 1 (NewSpendGuard two_caps) LocalTenant "a" 110 f0 false)
          [DoRecord key_order 2 2 LocalTenant "b" 30 f0 false; DoCheck key_order 3 "acme" "a"])
       LocalTenant "a").2 = Some (SessionTokenCap used 100).
Proof.
  apply (session_cap_stays_shut
           (Record_ key_order 1 1 (NewSpendGuard two_caps) LocalTenant "a" 110 f0 false)
           [DoRecord key_order 2 2 LocalTenant "b" 30 f0 false; DoCheck key_order 3 "acme" "a"]
           key_order 5 LocalTenant "a" (mkSpend 110 f0 1 1 "0001-01-01" 110 f0)).
  - apply Record_ok, new_guard_ok.
  - reflexivity.
  - vm_compute. reflexivity.
  - vm_compute. split; [reflexivity | discriminate].
  - repeat constructor; simpl; lia.
  - vm_compute. discriminate.
Defined.

(** ** Tenants do not see each other *)

(** What a decision about one tenant reads. *)
Definition same_view (g g' : t) (tn : string) : Prop :=
  limits g' = limits g /\ g_day g' = g_day g /\
  inner (session g') tn = inner (session g) tn /\
  inner (retired g') tn = inner (retired g) tn /\
  dayUsed g' !! tn = dayUsed g !! tn.

Lemma rollDay_same_day now g : g_day g = format_date now -> rollDay now g = g.
Proof. intros E. unfold rollDay. by rewrite E, String.eqb_refl. Qed.

Lemma Check_view it now g g' tn sid :
  same_view (rollDay now g) (rollDay now g') tn ->
  (Check_ it now g' tn sid).2 = (Check_ it now g tn sid).2.
Proof.
  intros (Hl & Hd & Hs & Hr & Hu).
  destruct (rollDay_frame now g) as (_ & _ & _ & Hl1 & _).
  destruct (rollDay_frame now g') as (_ & _ & _ & Hl2 & _).
  assert (limits g' = limits g) as Hl' by congruence.
  unfold Check_, Enabled, lookupSpend, tableFull, attributeDay, dayLeader.
  rewrite Hl'. destruct (negb _); [reflexivity |].
  destruct (String.eqb tn _ || _); [reflexivity |]. cbn [snd].
  by rewrite Hl1, Hl2, Hl', Hs, Hr, Hu, Hd.
Qed.

(** C4: one tenant's traffic cannot change another tenant's decisions: within
    a UTC day, whatever tenant [a] is charged for (evictions included), the
    next [Check] for any session of tenant [b] answers exactly what it would
    have answered without it, attribution text included. *)
Theorem tenants_do_not_interfere :
  forall it it' now now1 now1' g a b sa sb n c ub,
    guard_ok g -> a <> b -> format_date now1 = format_date now ->
    (Check_ it now (Record_ it' now1 now1' g a sa n c ub) b sb).2
    = (Check_ it now g b sb).2.
Proof.
  intros it it' now now1 now1' g a b sa sb n c ub Hok Hab Hday.
  destruct (accepts g a n c) eqn:Hacc; [| by rewrite Record_ignored].
  pose proof (Record_effect it' now1 now1' g a sa n c ub Hok Hacc) as [_ Hd Hl _ Ht _ Htab _].
  apply Check_view. rewrite (rollDay_same_day now (Record_ _ _ _ _ _ _ _ _ _)) by congruence.
  destruct (rollDay_frame now g) as (Rs & Rr & _ & Rl & _).
  destruct (Htab b) as [Ts Tr]; [done |].
  assert (rollDay now1 g = rollDay now g) as Hroll by (unfold rollDay; by rewrite Hday).
  split_and!; [by rewrite Rl | by rewrite Hd, rollDay_day, Hday | by rewrite Rs | by rewrite Rr |].
  by rewrite Ht, Hroll.
Qed.

Lemma tenants_do_not_interfere_witness :
  (Check_ key_order 9 (Record_ key_order 2 2 guard_a "acme" "a" 500 f0 false) LocalTenant "a").2
  = None.
Proof.
  transitivity (Check_ key_order 9 guard_a LocalTenant "a").2; [| vm_compute; reflexivity].
  refine (tenants_do_not_interfere key_order key_order 9 2 2 guard_a "acme" LocalTenant
            "a" "a" 500 f0 false guard_a_ok _ _); [discriminate | vm_compute; reflexivity].
Defined.

(** ** The day total survives a restart *)

Lemma SaveState_some now g g' st :
  SaveState now g = (g', Some st) ->
  Day st = g_day g' /\ dayUsed g' = dayUsed g /\
  Tenants st = (fun du => mkTS (tokens du) (usd du)) <$> dayUsed g /\
  legacyTokens st = 0 /\ legacyUSD st = f0.
Proof.
  unfold SaveState. destruct (marshals (dayUsed g)); [| intros E; discriminate E].
  intros E. injection E as <- <-. done.
Qed.

(** C6: a restart within the day keeps every tenant's day total.  Whatever
    [SaveState] wrote, [LoadState] on the same UTC day gives each tenant whose
    identity is legal (the local default included) the tokens and dollars it
    had, and a file of another day is dropped whole. *)
Theorem day_total_survives_restart :
  forall now now' g g1 st fresh tn,
    SaveState now g = (g1, Some st) ->
    persistedTenantKey tn = Some tn ->
    (Day st = format_date now' ->
       (fun du => (tokens du, usd du)) <$> dayUsed (LoadState now' fresh (Some st)) !! tn
       = (fun du => (tokens du, usd du)) <$> dayUsed g !! tn) /\
    (Day st <> format_date now' -> LoadState now' fresh (Some st) = fresh).
Proof.
  intros now now' g g1 st fresh tn Hsave Hkey.
  destruct (SaveState_some _ _ _ _ Hsave) as (_ & _ & Hts & Hlt & Hlu).
  unfold LoadState. split.
  2: { intros Hne. by apply String.eqb_neq in Hne as ->. }
  intros Heq. apply String.eqb_eq in Heq as ->. cbn [negb].
  fold (restore_entries (map_to_list (Tenants st))).
  destruct (Nat.ltb_spec 0 (size (Tenants st))) as [Hsz|Hsz]; cbn [dayUsed].
  - rewrite restored_lookup, Hkey, Hts, lookup_fmap. simpl.
    by destruct (dayUsed g !! tn).
  - rewrite Hlt, Hlu. cbn. rewrite lookup_empty.
    rewrite Hts, map_size_fmap in Hsz.
    assert (dayUsed g = ∅) as -> by (apply map_size_empty_inv; lia).
    by rewrite lookup_empty.
Qed.

Lemma day_total_survives_restart_witness :
  (fun du => (tokens du, usd du)) <$>
    dayUsed (LoadState 7 (NewSpendGuard two_caps) (SaveState 1 guard_a).2) !! LocalTenant
  = Some (40, f0).
Proof.
  destruct (day_total_survives_restart 1 7 guard_a (SaveState 1 guard_a).1
              (mkState "0001-01-01" {[ LocalTenant := mkTS 40 f0 ]} 0 f0)
              (NewSpendGuard two_caps) LocalTenant) as [H _].
  - vm_compute. reflexivity.
  - reflexivity.
  - etransitivity; [| etransitivity; [apply H; vm_compute; reflexivity | vm_compute; reflexivity]].
    vm_compute. reflexivity.
Defined.

(** ** The named session is a largest spender *)

Lemma lead_fold today byUSD l : forall a,
  let r := fold_left (lead_step today byUSD) l a in
  ((best_id r = best_id a /\ bestTokens r = bestTokens a /\ bestUSD r = bestUSD a) \/
   exists st, (best_id r, st) ∈ l /\ day st = today /\
     bestTokens r = dayTokens st /\ bestUSD r = dayUSD st) /\
  (byUSD = false -> bestTokens a <= bestTokens r /\
     forall k st, (k, st) ∈ l -> day st = today -> dayTokens st <= bestTokens r) /\
  (byUSD = true -> is_nan (bestUSD a) = false ->
     (forall k st, (k, st) ∈ l -> is_nan (dayUSD st) = false) ->
     is_nan (bestUSD r) = false /\ fleb (bestUSD a) (bestUSD r) = true /\
     forall k st, (k, st) ∈ l -> day st = today -> fleb (dayUSD st) (bestUSD r) = true).
Proof.
  induction l as [|[k st] l IH]; intros a r.
  { subst r; simpl. split_and!; [by left | intros _; split; [lia |] | intros _ Hn _].
    - by intros k st ?%not_elem_of_nil.
    - split_and!; [done | by apply fleb_refl |]. by intros k st ?%not_elem_of_nil. }
  subst r. cbn [fold_left]. set (a1 := lead_step today byUSD a (k, st)).
  destruct (IH a1) as (Hsrc & Htok & Husd).
  set (r := fold_left (lead_step today byUSD) l a1) in *. clearbody r. clear IH.
  unfold lead_step in a1. destruct (String.eqb_spec (day st) today) as [Hd|Hd]; cbn [negb] in a1.
  2: { subst a1. split_and!.
       - destruct Hsrc as [?|(st' & ? & ?)]; [by left | right; exists st'; split; [by right | done]].
       - intros Hb. destruct (Htok Hb) as [? Hall]. split; [done |].
         intros k' st' [[= -> ->]|Hin]%elem_of_cons ?; [done | by eapply Hall].
       - intros Hb Hn Hnan. destruct (Husd Hb Hn) as (? & ? & Hall).
         { intros k' st' ?. eapply Hnan. by right. }
         split_and!; [done | done |].
         intros k' st' [[= -> ->]|Hin]%elem_of_cons ?; [done | by eapply Hall]. }
  split_and!.
  - destruct Hsrc as [(E1 & E2 & E3)|(st' & ? & ?)];
      [| right; exists st'; split; [by right | done]].
    subst a1. case_match; cbn in E1, E2, E3; [| by left].
    right. exists st. rewrite E1. split; [by left | done].
  - intros ->. destruct (Htok eq_refl) as [Hle Hall]. subst a1.
    destruct (bestTokens a <? dayTokens st) eqn:Hb; cbn in Hle; reflect_bool;
      (split; [lia |]); intros k' st' [[= -> ->]|Hin]%elem_of_cons ?; try lia; by eapply Hall.
  - intros -> Hn Hnan.
    assert (is_nan (dayUSD st) = false) as Hst by (eapply Hnan; by left).
    assert (is_nan (bestUSD a1) = false /\ fleb (bestUSD a) (bestUSD a1) = true /\
            fleb (dayUSD st) (bestUSD a1) = true) as (Hn1 & Hle1 & Hle2).
    { subst a1. destruct (fltb (bestUSD a) (dayUSD st)) eqn:Hb; cbn.
      - auto using fltb_le, fleb_refl.
      - rewrite fltb_fleb in Hb by done. apply negb_false_iff in Hb.
        auto using fleb_refl. }
    destruct (Husd eq_refl Hn1) as (Hnr & Hler & Hall).
    { intros k' st' ?. eapply Hnan. by right. }
    split_and!; [done | by eapply fleb_trans |].
    intros k' st' [[= -> ->]|Hin]%elem_of_cons ?; [by eapply fleb_trans | by eapply Hall].
Qed.

(** The session a day-cap refusal names is a live session of that tenant,
    seen today, and nobody live has spent more today in the unit that tripped,
    whatever order the table is ranged in: more tokens for a token cap, more
    dollars for a dollar cap (amounts being numbers). *)
Lemma dayLeader_names_a_maximal_spender :
  forall it g tn byUSD,
    let l := dayLeader it g tn byUSD in
    l_id l <> "" ->
    (forall k st, inner (session g) tn !! k = Some st -> is_nan (dayUSD st) = false) ->
    exists st, inner (session g) tn !! l_id l = Some st /\ day st = g_day g /\
      l_tokens l = dayTokens st /\ l_usd l = dayUSD st /\
      forall k st', inner (session g) tn !! k = Some st' -> day st' = g_day g ->
        if byUSD then fleb (dayUSD st') (dayUSD st) = true else dayTokens st' <= dayTokens st.
Proof.
  intros it g tn byUSD l Hid Hnan.
  assert (forall k st, (k, st) ∈ go_range it (inner (session g) tn) <->
                       inner (session g) tn !! k = Some st) as Hr
    by (intros; apply elem_of_go_range).
  destruct (lead_fold (g_day g) byUSD (go_range it (inner (session g) tn)) (mkAcc 0 f0 "" 0 f0))
    as (Hsrc & Htok & Husd).
  assert (l_id l = best_id (fold_left (lead_step (g_day g) byUSD)
            (go_range it (inner (session g) tn)) (mkAcc 0 f0 "" 0 f0)) /\
          l_tokens l = bestTokens (fold_left (lead_step (g_day g) byUSD)
            (go_range it (inner (session g) tn)) (mkAcc 0 f0 "" 0 f0)) /\
          l_usd l = bestUSD (fold_left (lead_step (g_day g) byUSD)
            (go_range it (inner (session g) tn)) (mkAcc 0 f0 "" 0 f0))) as (E1 & E2 & E3)
    by (subst l; unfold dayLeader; by destruct (dayUsed g !! tn)).
  set (r := fold_left _ _ _) in *. clearbody r.
  destruct Hsrc as [(E & _)|(st & Hin & Hday & Ht & Hu)]; [cbn in E; congruence |].
  exists st. rewrite E1, E2, E3. split_and!; [by apply Hr | done | done | done |].
  intros k st' Hk Hd. apply Hr in Hk as Hk'. destruct byUSD.
  - rewrite <- Hu. apply Husd with k; [done | done | | done | done].
    intros k0 st0 ?%Hr. by eapply Hnan.
  - rewrite <- Ht. by apply Htok with k.
Qed.

Lemma dayLeader_names_a_maximal_spender_witness :
  exists st, inner (session guard_a) LocalTenant !! "a" = Some st /\ dayTokens st = 40.
Proof.
  destruct (dayLeader_names_a_maximal_spender key_order guard_a LocalTenant false)
    as (st & H1 & _ & H2 & _).
  - vm_compute. discriminate.
  - intros k st H.
    assert (inner (session guard_a) LocalTenant = {["a" := mkSpend 40 f0 1 1 "0001-01-01" 40 f0]})
      as E by (vm_compute; reflexivity).
    rewrite E in H. apply lookup_singleton_Some in H as [_ <-]. reflexivity.
  - exists st. split; [exact H1 | rewrite <- H2; vm_compute; reflexivity].
Defined.

End SpendGuardSpec.
