(* ===== verification/Breaker.v ===== *)
(** The guards beside the spend guard ([src/internal/proxy/guards.go]): the
    circuit breaker over provider health, the loop detector over a summarised
    prompt, and the error budget. *)

From S2P Require Import Prelude GoString GoFloat GoTime Transcript.
From Stdlib Require Import String.

Open Scope string_scope.
Open Scope Z_scope.

(** ** Circuit breaker *)

Module Breaker.

Record BreakerSettings := mkSettings { Failures : Z; Cooldown : duration }.

Record t := mkBreaker {
  settings : BreakerSettings;
  failures : Z;
  openedAt : time;
  probing : bool
}.

Definition NewBreaker (s : BreakerSettings) : t := mkBreaker s 0 zero_time false.

Definition Enabled (b : t) : bool := 0 <? Failures (settings b).

(** What [Allow] answers: go, go as the one half-open probe, or wait. *)
Record permission := mkPerm { ok : bool; probe : bool; wait : duration }.

Definition Allow (now : time) (b : t) : t * permission :=
  if negb (Enabled b) then (b, mkPerm true false 0)
  else if IsZero (openedAt b) then (b, mkPerm true false 0)
  else
    let elapsed := Sub now (openedAt b) in
    if elapsed <? Cooldown (settings b) then
      (b, mkPerm false false (Cooldown (settings b) -! elapsed))
    else if probing b then (b, mkPerm false false (Cooldown (settings b)))
    else (mkBreaker (settings b) (failures b) (openedAt b) true, mkPerm true true 0).

Definition Release (b : t) : t :=
  if negb (Enabled b) then b
  else mkBreaker (settings b) (failures b) (openedAt b) false.

Definition Observe (now : time) (retryable : bool) (b : t) : t :=
  if negb (Enabled b) then b
  else if negb retryable then mkBreaker (settings b) 0 zero_time false
  else
    let f := failures b +! 1 in
    mkBreaker (settings b) f
      (if Failures (settings b) <=? f then now else openedAt b) false.

Definition IsRetryableStatus (status : Z) : bool :=
  (status =? 429) || ((500 <=? status) && (status <=? 599)).

(** One critical section: a request asks; a probe that met no outcome gives its
    slot back; the outcome of a request is observed, of the probe itself or of
    a [straggler], a request that was let through as an ordinary one. *)
Inductive event :=
| EAllow (now : time)
| ERelease
| EObserve (straggler : bool) (now : time) (retryable : bool).

Definition run_event (b : t) (e : event) : t :=
  match e with
  | EAllow now => (Allow now b).1
  | ERelease => Release b
  | EObserve _ now r => Observe now r b
  end.

(** The requests beside the breaker: the probes handed out whose own outcome
    or release has not come, and how often a straggler's outcome came while
    there were any. *)
Record flight := mkFlight { brk : t; flying : Z; freed : Z }.

Definition fly_event (f : flight) (e : event) : flight :=
  let b := run_event (brk f) e in
  match e with
  | EAllow now => mkFlight b (if probe (Allow now (brk f)).2 then flying f + 1 else flying f) (freed f)
  | ERelease | EObserve false _ _ => mkFlight b (flying f - 1) (freed f)
  | EObserve true _ _ => mkFlight b (flying f) (if 0 <? flying f then freed f + 1 else freed f)
  end.

Definition fly (f : flight) (es : list event) : flight := fold_left fly_event es f.

(** Only a probe in flight comes back as a probe. *)
Definition from_flight (f : flight) (e : event) : bool :=
  match e with ERelease | EObserve false _ _ => 0 <? flying f | _ => true end.

Fixpoint legal (f : flight) (es : list event) : bool :=
  match es with
  | [] => true
  | e :: es => from_flight f e && legal (fly_event f e) es
  end.

Definition launch (s : BreakerSettings) : flight := mkFlight (NewBreaker s) 0 0.

(** The specification: how many retryable failures in a row end a run. *)
Definition streak_step (n : Z) (e : event) : Z :=
  match e with
  | EObserve _ _ true => n + 1
  | EObserve _ _ false => 0
  | _ => n
  end.

Definition streak (es : list event) : Z := fold_left streak_step es 0.

Definition event_time_ok (e : event) : Prop :=
  match e with EObserve _ now _ => now <> 0 | _ => True end.

(** The breaker against the run that produced it. *)
Record breaker_inv (s : BreakerSettings) (n : Z) (f : flight) : Prop := {
  bi_settings : settings (brk f) = s;
  bi_failures : failures (brk f) = n;
  bi_open : IsZero (openedAt (brk f)) = negb (Failures s <=? n);
  bi_closed : (Failures s <=? n) = false -> probing (brk f) = false;
  bi_flying : 0 <= flying f <= freed f + (if probing (brk f) then 1 else 0);
  bi_freed : 0 <= freed f
}.

Lemma breaker_inv_step s n f e :
  0 < Failures s -> 0 <= n < max_int64 -> event_time_ok e -> from_flight f e = true ->
  breaker_inv s n f -> breaker_inv s (streak_step n e) (fly_event f e).
Proof.
  intros Hf Hn He Hl [Hs Hfl Hop Hc Hp Hk]. destruct f as [b k fr]. cbn [brk flying freed] in *.
  assert (Enabled b = true) as Hen by (unfold Enabled; rewrite Hs; by apply Z.ltb_lt).
  assert (failures b +! 1 = n + 1) as E by (rewrite Hfl; lia_int).
  destruct e as [now| |straggler now retryable]; cbn [fly_event run_event streak_step from_flight brk flying freed] in *.
  - unfold Allow. rewrite Hen. cbn [negb].
    destruct (IsZero (openedAt b)) eqn:Hz; [by split; cbn; rewrite ?Hz |].
    destruct (Sub now (openedAt b) <? _); [by split; cbn; rewrite ?Hz |].
    destruct (probing b) eqn:Hpr; [by split; cbn; rewrite ?Hz, ?Hpr |].
    split; cbn; rewrite ?Hz; try done; [| lia]. intros H. by rewrite H in Hop.
  - unfold Release. rewrite Hen. reflect_bool. destruct (probing b); split; cbn; auto; lia.
  - unfold Observe. rewrite Hen, E, Hs.
    assert (forall b' k' fr', settings b' = s -> failures b' = (if retryable then n + 1 else 0) -> probing b' = false ->
      IsZero (openedAt b') = negb (Failures s <=? (if retryable then n + 1 else 0)) -> 0 <= k' <= fr' -> 0 <= fr' ->
      breaker_inv s (if retryable then n + 1 else 0) (mkFlight b' k' fr')) as Hmk.
    { intros b' k' fr' H1 H2 H3 H4 H5 H6. split; cbn; rewrite ?H3; try done. lia. }
    assert (0 <= (if straggler then k else k - 1) <= (if straggler then (if 0 <? k then fr + 1 else fr) else fr)) as Hk'.
    { destruct straggler; [destruct (Z.ltb_spec 0 k); destruct (probing b); lia |]. reflect_bool. destruct (probing b); lia. }
    assert ((Failures s <=? 0) = false) as H0 by (apply Z.leb_gt; lia).
    assert (IsZero (if Failures s <=? n + 1 then now else openedAt b) = negb (Failures s <=? n + 1)) as Ho.
    { destruct (Failures s <=? n + 1) eqn:Hle; cbn; [unfold IsZero; by apply Z.eqb_neq |].
      rewrite Hop. reflect_bool. apply negb_true_iff, Z.leb_gt. lia. }
    destruct straggler, retryable; cbn [negb]; apply Hmk; cbn; rewrite ?H0; try done; try lia; case_match; lia.
Qed.

Lemma streak_bound es : forall n,
  0 <= n -> 0 <= fold_left streak_step es n <= n + Z.of_nat (List.length es).
Proof.
  induction es as [|e es IH]; intros n Hn; simpl; [lia |].
  assert (0 <= streak_step n e <= n + 1) by (destruct e as [| |? ? []]; simpl; lia).
  specialize (IH (streak_step n e)). lia.
Qed.

Lemma breaker_run s es : forall f n,
  0 < Failures s -> 0 <= n -> n + Z.of_nat (List.length es) < max_int64 ->
  Forall event_time_ok es -> legal f es = true -> breaker_inv s n f ->
  breaker_inv s (fold_left streak_step es n) (fly f es).
Proof.
  induction es as [|e es IH]; intros f n Hf Hn Hlen Hall Hl Hinv; simpl; [done |].
  apply Forall_cons in Hall as [He Hall]. cbn in Hl, Hlen. apply andb_true_iff in Hl as [Hl Hl'].
  assert (0 <= streak_step n e <= n + 1) by (destruct e as [| |? ? []]; simpl; lia).
  apply IH; auto; try lia. apply breaker_inv_step; auto; lia.
Qed.

(** Once a probe is handed out no request goes until something comes back. *)
Lemma probe_holds b now nows now' :
  probe (Allow now b).2 = true -> ok (Allow now' (fold_left (fun b n => (Allow n b).1) nows (Allow now b).1)).2 = false.
Proof.
  intros Hp. set (b1 := (Allow now b).1).
  assert (Enabled b1 = true /\ IsZero (openedAt b1) = false /\ probing b1 = true) as H1.
  { subst b1. unfold Allow in *. destruct (Enabled b) eqn:He; cbn [negb] in *; [| done].
    destruct (IsZero (openedAt b)) eqn:Hz; [done |]. destruct (Sub now (openedAt b) <? _); [done |].
    by destruct (probing b). }
  clearbody b1. clear Hp. revert b1 H1. induction nows as [|n nows IH]; intros b1 (He & Hz & Hp); cbn [fold_left].
  - unfold Allow. rewrite He, Hz, Hp. cbn [negb]. by destruct (_ <? _).
  - apply IH. unfold Allow. rewrite He, Hz, Hp. cbn [negb]. by destruct (_ <? _).
Qed.

(** C5: the circuit is open exactly while the last [Failures] or more outcomes
    were retryable failures, over every sequence of [Allow], [Release] and
    [Observe] a new breaker can see in which only probes in flight come back as
    probes: a closed circuit lets every request through, an open one lets a
    request go only as the probe.  From a probe's leaving until something comes
    back every request is refused.  Of the probes in flight there is never more
    than one beyond the stragglers, requests let through before the circuit
    opened, whose outcome came while a probe was out: each of those frees the
    slot, and without one there is one probe at most. *)
Theorem breaker_opens_and_probes_once :
  forall s es now,
    0 < Failures s -> Forall event_time_ok es ->
    Z.of_nat (List.length es) < max_int64 -> legal (launch s) es = true ->
    let f := fly (launch s) es in
    let a := (Allow now (brk f)).2 in
    (streak es < Failures s -> ok a = true /\ probe a = false) /\
    (Failures s <= streak es -> ok a = probe a) /\
    (probe a = true -> forall nows now',
       ok (Allow now' (brk (fly f (EAllow now :: List.map EAllow nows)))).2 = false) /\
    0 <= flying f <= 1 + freed f.
Proof.
  intros s es now Hf Hall Hlen Hl f a.
  assert (breaker_inv s (streak es) f) as [Hs Hfl Hop Hc Hp Hk].
  { apply breaker_run; auto; [lia.. |]. split; simpl; auto; lia. }
  assert (Enabled (brk f) = true) as Hen by (unfold Enabled; rewrite Hs; by apply Z.ltb_lt).
  split; [| split; [| split; [| destruct (probing (brk f)); lia]]].
  - subst a. unfold Allow. rewrite Hen, Hop. intros H. assert ((Failures s <=? streak es) = false) as -> by (apply Z.leb_gt; lia). done.
  - subst a. unfold Allow. rewrite Hen, Hop. intros H. assert ((Failures s <=? streak es) = true) as -> by (apply Z.leb_le; lia). cbn [negb].
    destruct (Sub now (openedAt (brk f)) <? Cooldown (settings (brk f))); [done |]. by destruct (probing (brk f)).
  - intros Ha nows now'. rewrite <- (probe_holds (brk f) now nows now' Ha). f_equal. f_equal. f_equal. unfold fly. cbn [fold_left].
    assert (brk (fly_event f (EAllow now)) = (Allow now (brk f)).1) as <- by done.
    generalize (fly_event f (EAllow now)). induction nows as [|n nows IH]; intros f'; [done |]. cbn [List.map fold_left]. by rewrite IH.
Qed.

(** Two failures open the circuit, and after the cooldown a probe leaves. *)
Definition opened : list event := [EAllow 1; EAllow 2; EAllow 3; EObserve true 10 true; EObserve true 20 true; EAllow 90].

Lemma breaker_opens_and_probes_once_witness :
  flying (fly (launch (mkSettings 2 50)) opened) = 1 /\ 0 <= flying (fly (launch (mkSettings 2 50)) opened) <= 1 /\
  ok (Allow 95 (brk (fly (launch (mkSettings 2 50)) opened))).2 = probe (Allow 95 (brk (fly (launch (mkSettings 2 50)) opened))).2.
Proof.
  destruct (breaker_opens_and_probes_once (mkSettings 2 50) opened 95) as (_ & H & _ & Hn);
    [reflexivity | repeat constructor; discriminate | reflexivity | vm_compute; reflexivity |].
  split; [vm_compute; reflexivity |]. split; [exact Hn | apply H; vm_compute; discriminate].
Defined.

(** The bound is met: the third request's outcome comes while the first probe
    is out, and after the cooldown a second one leaves beside it. *)
Lemma a_straggler_lets_a_second_probe_out :
  let f := fly (launch (mkSettings 2 50)) (opened ++ [EObserve true 95 true; EAllow 150]) in
  flying f = 2 /\ freed f = 1.
Proof. by vm_compute. Qed.

End Breaker.

(** ** Loop detector and error budget *)

Module LoopGuard.
Import Transcript.

(** [ledger.Message]: the role and blocks of one prompt message. *)
Record LMessage := mkLMessage { lm_Role : string; lm_Blocks : list Block }.

Record LoopLimits := mkLoop { Warn : Z; BlockAt : Z }.

Record LoopVerdict := mkVerdict {
  Repeats : Z;
  v_Label : string;
  v_Warn : bool;
  v_Block : bool
}.

(** The loop variables of [DetectLoop]: the last key and the verdict so far. *)
Record loop_acc := mkLoopAcc { lastKey : string; acc_Repeats : Z; acc_Label : string }.

Definition loop_block (a : loop_acc) (b : Block) : loop_acc :=
  if negb (String.eqb (Kind b) KindToolUse) || String.eqb (CallKey b) "" then a
  else if String.eqb (CallKey b) (lastKey a)
  then mkLoopAcc (lastKey a) (acc_Repeats a +! 1) (acc_Label a)
  else mkLoopAcc (CallKey b) 1 (ToolName b).

Definition loop_message (a : loop_acc) (m : LMessage) : loop_acc :=
  if negb (String.eqb (lm_Role m) RoleAssistant) then a
  else fold_left loop_block (lm_Blocks m) a.

Definition DetectLoop (messages : list LMessage) (l : LoopLimits) : LoopVerdict :=
  if (Warn l <=? 0) && (BlockAt l <=? 0) then mkVerdict 0 "" false false
  else
    let a := fold_left loop_message messages (mkLoopAcc "" 0 "") in
    mkVerdict (acc_Repeats a) (acc_Label a)
      ((0 <? Warn l) && (Warn l <=? acc_Repeats a))
      ((0 <? BlockAt l) && (BlockAt l <=? acc_Repeats a)).

(** The specification: the calls a prompt carries, in order, and the length of
    the run of equal keys at its end. *)
Definition tool_calls (messages : list LMessage) : list Block :=
  filter (fun b => Kind b = KindToolUse /\ CallKey b <> "")
    (List.concat (lm_Blocks <$> filter (fun m => lm_Role m = RoleAssistant) messages)).

Fixpoint leading_run (key : string) (rev_calls : list Block) : nat :=
  match rev_calls with
  | [] => 0
  | b :: l => if String.eqb (CallKey b) key then S (leading_run key l) else 0
  end.

Definition tail_run (calls : list Block) : nat :=
  match rev calls with
  | [] => 0
  | b :: _ => leading_run (CallKey b) (rev calls)
  end.

Lemma loop_messages_flat ms : forall a,
  fold_left loop_message ms a = fold_left loop_block (tool_calls ms) a.
Proof.
  assert (forall bs a, fold_left loop_block bs a =
            fold_left loop_block (filter (fun b => Kind b = KindToolUse /\ CallKey b <> "") bs) a)
    as Hskip.
  { induction bs as [|b bs IH]; intros a; [done |]. rewrite filter_cons. cbn [fold_left].
    rewrite IH. case_decide as Hb; [done |].
    f_equal. unfold loop_block.
    destruct (String.eqb_spec (Kind b) KindToolUse), (String.eqb_spec (CallKey b) "");
      cbn [negb orb]; try reflexivity. exfalso; auto. }
  induction ms as [|m ms IH]; intros a; [done |]. cbn [fold_left].
  rewrite IH. unfold tool_calls. rewrite filter_cons. unfold loop_message.
  destruct (String.eqb_spec (lm_Role m) RoleAssistant) as [Hr|Hr]; cbn [negb].
  - rewrite decide_True by done. cbn [fmap list_fmap List.concat].
    rewrite filter_app, fold_left_app. by rewrite (Hskip (lm_Blocks m)).
  - by rewrite decide_False.
Qed.

Lemma leading_run_le key l : (leading_run key l <= List.length l)%nat.
Proof. induction l as [|b l IH]; cbn; [lia |]. case_match; lia. Qed.

Lemma loop_blocks_run calls : forall a,
  Forall (fun b => Kind b = KindToolUse /\ CallKey b <> "") calls ->
  acc_Repeats a = 0 -> lastKey a = "" -> Z.of_nat (List.length calls) <= max_int64 ->
  acc_Repeats (fold_left loop_block calls a) = Z.of_nat (tail_run calls) /\
  match rev calls with
  | [] => fold_left loop_block calls a = a
  | b :: _ => lastKey (fold_left loop_block calls a) = CallKey b
  end.
Proof.
  induction calls as [|b calls IH] using rev_ind; intros a Hall H0 Hk Hlen.
  { cbn. by rewrite H0. }
  apply Forall_app in Hall as [Hall Hb]. inversion Hb as [|? ? [Hkind Hne] _]; subst.
  rewrite length_app in Hlen; cbn in Hlen.
  destruct (IH a Hall H0 Hk ltac:(lia)) as [Hrep Hlast].
  rewrite fold_left_app. cbn [fold_left]. unfold tail_run. rewrite rev_unit.
  set (acc := fold_left loop_block calls a) in *. unfold loop_block.
  rewrite Hkind, String.eqb_refl. apply String.eqb_neq in Hne as Hne'. rewrite Hne'. cbn [negb orb].
  unfold tail_run in Hrep.
  destruct (rev calls) as [|b' l] eqn:Hrev.
  - rewrite Hlast, Hk, Hne'. cbn. by rewrite String.eqb_refl.
  - rewrite Hlast. cbn [leading_run]. rewrite String.eqb_refl.
    cbn [leading_run] in Hrep. rewrite String.eqb_refl in Hrep.
    assert (List.length (rev calls) = List.length calls) as Hl by apply length_rev.
    rewrite Hrev in Hl. cbn in Hl.
    pose proof (leading_run_le (CallKey b') l) as Hle.
    rewrite (String.eqb_sym (CallKey b')).
    destruct (String.eqb_spec (CallKey b) (CallKey b')) as [Heq|Hneq]; cbn [acc_Repeats lastKey].
    + rewrite Heq, Hrep. split; [lia_int | done].
    + done.
Qed.

(** The loop detector measures exactly the run of identical tool calls at
    the tail of the prompt: a call repeated earlier and then abandoned counts
    for nothing, calls without a key and other roles are invisible, and it
    warns or blocks exactly when a set limit is reached. *)
Lemma DetectLoop_is_tail_run :
  forall ms l,
    0 < Warn l \/ 0 < BlockAt l ->
    Z.of_nat (List.length (tool_calls ms)) <= max_int64 ->
    let v := DetectLoop ms l in
    Repeats v = Z.of_nat (tail_run (tool_calls ms)) /\
    (v_Warn v = true <-> 0 < Warn l <= Z.of_nat (tail_run (tool_calls ms))) /\
    (v_Block v = true <-> 0 < BlockAt l <= Z.of_nat (tail_run (tool_calls ms))).
Proof.
  intros ms l Hset Hlen v. subst v. unfold DetectLoop.
  destruct ((Warn l <=? 0) && (BlockAt l <=? 0)) eqn:E; reflect_bool; [lia |].
  rewrite loop_messages_flat. cbn [Repeats v_Warn v_Block].
  destruct (loop_blocks_run (tool_calls ms) (mkLoopAcc "" 0 "")) as [-> _]; try done.
  { unfold tool_calls. apply Forall_forall. intros b [Hb _]%list_elem_of_filter. done. }
  rewrite !andb_true_iff, !Z.ltb_lt, !Z.leb_le. done.
Qed.

Definition call (key : string) : Block :=
  mkBlock KindToolUse "" 0 "" "" "Bash" key false None.

Lemma DetectLoop_is_tail_run_witness :
  Repeats (DetectLoop [mkLMessage RoleAssistant [call "k1"; call "k1"; call "k2"];
                       mkLMessage RoleUser [call "k1"];
                       mkLMessage RoleAssistant [call "k2"]] (mkLoop 2 3)) = 2.
Proof.
  transitivity (Z.of_nat (tail_run (tool_calls
    [mkLMessage RoleAssistant [call "k1"; call "k1"; call "k2"];
     mkLMessage RoleUser [call "k1"]; mkLMessage RoleAssistant [call "k2"]])));
    [| vm_compute; reflexivity].
  refine (proj1 (DetectLoop_is_tail_run _ (mkLoop 2 3) _ _)).
  - left. reflexivity.
  - vm_compute. discriminate.
Defined.

(** [ErrorBudget] *)
Definition errorBudgetMinPromptTokens : Z := 10000.

Definition Budget_Enabled (share : float64) : bool := fltb f0 share.

(** [Check]: the refusal with the measured share, or [None]. *)
Definition Budget_Check (budget : float64) (errorTokens promptTokens : Z) : option float64 :=
  if negb (Budget_Enabled budget) || (promptTokens <? errorBudgetMinPromptTokens) then None
  else
    let share := (of_int errorTokens / of_int promptTokens)%float in
    if fltb share budget then None else Some share.

End LoopGuard.
