(* ===== verification/CacheRules.v ===== *)
(** The provider's published numbers ([src/internal/cachemodel]): model-id
    matching ([match.go]), observed claims ([claim.go]), the dated rules
    document ([rules.go]), the compiled price table ([anthropic.go]) and the
    price lookup at an instant ([priceat_prod.go]).

    The process-wide [override] pointer is the argument [ov]: [None] when no
    document is installed. *)

From S2P Require Import Prelude GoString GoFloat GoTime Transcript.
From Stdlib Require Import Ascii String.

Open Scope string_scope.
Open Scope Z_scope.

Module CacheRules.
Import Transcript.

(** ** [match.go] *)

Definition versionDigits : Z := 3.

Fixpoint digit_run (s : string) : Z :=
  match s with
  | String c s' => if is_digit c then 1 + digit_run s' else 0
  | EmptyString => 0
  end.

Definition continuesWithVersion (rest : string) : bool :=
  match rest with
  | EmptyString => false
  | String c rest' =>
      if is_digit c then true
      else if (len rest <? 2) || negb (Ascii.eqb c "-") then false
      else let digits := digit_run rest' in (0 <? digits) && (digits <=? versionDigits)
  end.

(** Every window [lowerID[i:]] of the id is tried. *)
Definition matchesModel (lowerID lowerMatch : string) : bool :=
  if String.eqb lowerMatch "" then false
  else existsb (fun t => match strip_prefix lowerMatch t with
                         | Some rest => negb (continuesWithVersion rest)
                         | None => false
                         end) (suffixes lowerID).

(** ** [claim.go] *)

Inductive ClaimStatus :=
| StatusUntested
| StatusUnverified
| StatusConsistent
| StatusContradicted.

Record Observation := mkObs {
  UpperBound : option Z;
  LowerBound : option Z;
  Sessions : Z;
  Machines : Z
}.

Record Claim := mkClaim {
  Documented : Z;
  Observed : option Observation;
  DeclaredStatus : string
}.

Definition Status (c : Claim) : ClaimStatus :=
  match Observed c with
  | None => StatusUntested
  | Some o =>
      match UpperBound o, LowerBound o with
      | None, None => StatusUntested
      | ub, lb =>
          if Documented c =? 0 then StatusUntested
          else if match ub with Some u => u <? Documented c | None => false end
          then StatusContradicted
          else if match lb with Some l => Documented c <=? l | None => false end
          then StatusContradicted
          else match ub, lb with
               | Some _, Some _ => StatusConsistent
               | _, _ => StatusUnverified
               end
      end
  end.

Definition Interval (c : Claim) : option (Z * Z) :=
  match Observed c with
  | Some (mkObs (Some u) (Some l) _ _) => Some (l, u)
  | _ => None
  end.

Definition IntervalWidth (c : Claim) : option Z :=
  match Interval c with
  | Some (lo, hi) => Some (hi -! lo)
  | None => None
  end.

Inductive claim_error :=
| DeclaresStatus (s : string)
| NegativeDocumented
| CrossedBounds (lo hi : Z)
| NegativeEvidence.

Definition Claim_validate (c : Claim) : option claim_error :=
  if negb (String.eqb (DeclaredStatus c) "") then Some (DeclaresStatus (DeclaredStatus c))
  else if Documented c <? 0 then Some NegativeDocumented
  else match Observed c with
       | None => None
       | Some o =>
           match LowerBound o, UpperBound o with
           | Some lo, Some hi =>
               if hi <? lo then Some (CrossedBounds lo hi)
               else if (Sessions o <? 0) || (Machines o <? 0) then Some NegativeEvidence
               else None
           | _, _ => if (Sessions o <? 0) || (Machines o <? 0) then Some NegativeEvidence else None
           end
       end.

(** ** Prices *)

Record Price := mkPrice {
  InputPerMTok : float64;
  OutputPerMTok : float64;
  ReadMult : float64
}.

Definition no_price : Price := mkPrice f0 f0 f0.

(** ** [rules.go] *)

Record ModelRule := mkRule {
  Match : string;
  rule_Provider : string;
  MinPrefix : Z;
  rule_Input : float64;
  rule_Output : float64;
  rule_ReadMult : float64;
  Priced : bool;
  MinPrefixClaim : option Claim;
  EffectiveFrom : string;
  EffectiveUntil : string
}.

Record Rules := mkRules {
  Schema : string;
  Version : string;
  Provider : string;
  Source : string;
  FetchedAt : string;
  CheckedAt : string;
  Models : list ModelRule;
  AccountDiscount : float64
}.

Definition ProviderOr (m : ModelRule) (r : option Rules) : string :=
  if negb (String.eqb (rule_Provider m) "") then rule_Provider m
  else match r with None => "" | Some r => Provider r end.

Definition providers_step (r : Rules) (out : list string) (m : ModelRule) : list string :=
  let p := ProviderOr m (Some r) in
  if String.eqb p "" || existsb (String.eqb p) out then out else out ++ [p].

(** [Providers] before [sort.Strings]: each publisher once, in file order. *)
Definition distinct_providers (r : Rules) : list string :=
  fold_left (providers_step r) (Models r) [].

Inductive window_error := NotADate (field : string) (value : string).

(** [window]: the parsed bounds; the last day counts to its last nanosecond. *)
Definition window (m : ModelRule) : window_error + (option time * option time) :=
  match (if String.eqb (EffectiveFrom m) "" then Some None
         else option_map Some (parse_date (EffectiveFrom m))) with
  | None => inl (NotADate "effectiveFrom" (EffectiveFrom m))
  | Some from =>
      match (if String.eqb (EffectiveUntil m) "" then Some None
             else option_map (fun t => Some (t + (24 * hour - nanosecond)))
                    (parse_date (EffectiveUntil m))) with
      | None => inl (NotADate "effectiveUntil" (EffectiveUntil m))
      | Some until => inr (from, until)
      end
  end.

Definition windowContains (m : ModelRule) (t : time) : bool :=
  match window m with
  | inl _ => false
  | inr (from, until) =>
      negb (match from with Some f => Before t f | None => false end)
      && negb (match until with Some u => After t u | None => false end)
  end.

Definition dated (m : ModelRule) : bool :=
  negb (String.eqb (EffectiveFrom m) "") || negb (String.eqb (EffectiveUntil m) "").

Definition windowsOverlap (aFrom aUntil bFrom bUntil : option time) : bool :=
  match aUntil, bFrom with
  | Some au, Some bf => if Before au bf then false else
      match bUntil, aFrom with
      | Some bu, Some af => negb (Before bu af)
      | _, _ => true
      end
  | _, _ =>
      match bUntil, aFrom with
      | Some bu, Some af => negb (Before bu af)
      | _, _ => true
      end
  end.

Definition priceOf (m : ModelRule) : Price :=
  mkPrice (rule_Input m) (rule_Output m) (rule_ReadMult m).

Definition f1 : float64 := of_int 1.

Definition applyDiscount (r : Rules) (p : Price) : Price :=
  if fleb (AccountDiscount r) f0 || fleb f1 (AccountDiscount r) then p
  else mkPrice (InputPerMTok p * AccountDiscount r)%float
         (OutputPerMTok p * AccountDiscount r)%float (ReadMult p).

(** The loop of [PriceAt]: a dated row in force ends it, the first undated
    one is remembered. *)
Fixpoint price_scan (r : Rules) (lower : string) (t : time)
    (fallback : option ModelRule) (rows : list ModelRule) : Price * bool :=
  match rows with
  | [] =>
      match fallback with
      | None => (no_price, false)
      | Some m => (applyDiscount r (priceOf m), Priced m)
      end
  | m :: rows' =>
      if negb (matchesModel lower (to_lower (Match m))) then price_scan r lower t fallback rows'
      else if negb (windowContains m t) then price_scan r lower t fallback rows'
      else if dated m then (applyDiscount r (priceOf m), Priced m)
      else price_scan r lower t
             (match fallback with None => Some m | Some _ => fallback end) rows'
  end.

Definition PriceAt (r : option Rules) (model : string) (t : time) : Price * bool :=
  match r with
  | None => (no_price, false)
  | Some r => price_scan r (to_lower model) t None (Models r)
  end.

Definition PriceTier (r : option Rules) : string :=
  match r with
  | Some r => if fltb f0 (AccountDiscount r) && fltb (AccountDiscount r) f1
              then "declared" else "documented"
  | None => "documented"
  end.

Definition RulesSchema : string := "replay.rules.v1".

Inductive rules_error :=
| WrongSchema (schema : string)
| NoVersion
| NoModels
| Unattributed (row : nat)
| BadDiscount
| BadWindow (row : nat) (e : window_error)
| ReversedWindow (row : nat)
| OverlappingWindows (i j : nat)
| EmptyMatch (row : nat)
| NegativeMinPrefix (row : nat)
| NegativePrice (row : nat)
| PricedAtNothing (row : nat)
| PricedReadsFree (row : nat)
| ReadMultOutside (row : nat)
| BadClaim (row : nat) (e : claim_error).

(** Row attribution: some rows name a publisher, this one does not, and the
    document names no default. *)
Definition unattributed (rows : list ModelRule) : option nat :=
  if existsb (fun m => negb (String.eqb (rule_Provider m) "")) rows
  then fst <$> find_first (fun im => String.eqb (rule_Provider im.2) "") (indexed rows)
  else None.

(** The inner loop over the later rows of the same match. *)
Fixpoint overlap_scan (i : nat) (a : ModelRule) (af au : option time) (j : nat)
    (rows : list ModelRule) : option rules_error :=
  match rows with
  | [] => None
  | b :: rows' =>
      if negb (dated b) || negb (equal_fold (Match a) (Match b))
      then overlap_scan i a af au (S j) rows'
      else match window b with
           | inl e => Some (BadWindow j e)
           | inr (bf, bu) =>
               if windowsOverlap af au bf bu then Some (OverlappingWindows i j)
               else overlap_scan i a af au (S j) rows'
           end
  end.

Fixpoint windows_scan (i : nat) (rows : list ModelRule) : option rules_error :=
  match rows with
  | [] => None
  | a :: rows' =>
      if negb (dated a) then windows_scan (S i) rows'
      else match window a with
           | inl e => Some (BadWindow i e)
           | inr (af, au) =>
               match af, au with
               | Some f, Some u =>
                   if Before u f then Some (ReversedWindow i)
                   else match overlap_scan i a af au (S i) rows' with
                        | Some e => Some e
                        | None => windows_scan (S i) rows'
                        end
               | _, _ => match overlap_scan i a af au (S i) rows' with
                         | Some e => Some e
                         | None => windows_scan (S i) rows'
                         end
               end
           end
  end.

Definition row_error (i : nat) (m : ModelRule) : option rules_error :=
  match (if dated m then match window m with inl e => Some (BadWindow i e) | inr _ => None end
         else None) with
  | Some e => Some e
  | None =>
      if String.eqb (trim_space (Match m)) "" then Some (EmptyMatch i)
      else if MinPrefix m <? 0 then Some (NegativeMinPrefix i)
      else if fltb (rule_Input m) f0 || fltb (rule_Output m) f0 then Some (NegativePrice i)
      else if Priced m && feqb (rule_Input m) f0 && feqb (rule_Output m) f0
      then Some (PricedAtNothing i)
      else if Priced m && feqb (rule_ReadMult m) f0 then Some (PricedReadsFree i)
      else if fltb (rule_ReadMult m) f0 || fltb f1 (rule_ReadMult m) then Some (ReadMultOutside i)
      else match MinPrefixClaim m with
           | None => None
           | Some c => BadClaim i <$> Claim_validate c
           end
  end.

Fixpoint rows_scan (i : nat) (rows : list ModelRule) : option rules_error :=
  match rows with
  | [] => None
  | m :: rows' =>
      match row_error i m with
      | Some e => Some e
      | None => rows_scan (S i) rows'
      end
  end.

Definition validate (r : Rules) : option rules_error :=
  if negb (String.eqb (Schema r) RulesSchema) then Some (WrongSchema (Schema r))
  else if String.eqb (trim_space (Version r)) "" then Some NoVersion
  else if (List.length (Models r) =? 0)%nat then Some NoModels
  else match (if String.eqb (Provider r) "" then unattributed (Models r) else None) with
       | Some i => Some (Unattributed i)
       | None =>
           if fltb (AccountDiscount r) f0 || fleb f1 (AccountDiscount r) then Some BadDiscount
           else match windows_scan 0 (Models r) with
                | Some e => Some e
                | None => rows_scan 0 (Models r)
                end
       end.

(** [LoadRules] after the file was read: absent, undecodable, or a document
    that passes [validate]. *)
Inductive load_result := NoDocument | Loaded (r : Rules) | Refused (e : option rules_error).

Definition LoadRules (file : option (option Rules)) : load_result :=
  match file with
  | None => NoDocument
  | Some None => Refused None
  | Some (Some r) => match validate r with Some e => Refused (Some e) | None => Loaded r end
  end.

Definition RulesVersion : string := "anthropic-2026-09-01".

Definition Provenance (r : option Rules) : string :=
  match r with
  | None => RulesVersion ++ " (compiled in)"
  | Some r =>
      Version r ++ (if String.eqb (Source r) "" then "" else ", from " ++ Source r)
      ++ (if String.eqb (FetchedAt r) "" then "" else ", fetched " ++ FetchedAt r)
  end.

Definition RulesVersionInEffect (ov : option Rules) : string :=
  match ov with None => RulesVersion | Some r => Version r end.

Definition FetchedAtInEffect (ov : option Rules) : string :=
  match ov with None => "" | Some r => FetchedAt r end.

(** [activeRow]: the installed document's row for a model, and the document. *)
Definition activeRow (ov : option Rules) (model : string) : option (ModelRule * Rules) :=
  match ov with
  | None => None
  | Some r =>
      (fun m => (m, r)) <$>
        find_first (fun m => matchesModel (to_lower model) (to_lower (Match m))) (Models r)
  end.

End CacheRules.
