(* ===== verification/CachePrices.v ===== *)
(** The compiled price table and every price the program charges
    ([anthropic.go], [legs.go], [priceat_prod.go], [ceiling.go] of
    [src/internal/cachemodel]), on top of the rules document of
    [CacheRules]. *)

From S2P Require Import Prelude GoString GoFloat GoTime Transcript CacheRules.
From Stdlib Require Import Ascii String.

Open Scope string_scope.
Open Scope Z_scope.

Module CachePrices.
Import Transcript CacheRules.

Definition TTLShort : duration := 5 * minute.
Definition TTLLong : duration := hour.

Definition WriteMultiplierShort : float64 := of_ratio 125 100.
Definition WriteMultiplierLong : float64 := of_int 2.
Definition ReadMultiplier : float64 := of_ratio 10 100.
Definition readMultiplierNewest : float64 := of_ratio 25 1000.
Definition readMultiplierUnknown : float64 := ReadMultiplier.

Definition minPrefixNewest : Z := 512.
Definition minPrefixStandard : Z := 1024.
Definition minPrefixOpus47 : Z := 2048.
Definition minPrefixLegacy : Z := 4096.

Definition tokensPerMillion : float64 := of_int 1000000.

Record modelRow := mkRow {
  row_match : string;
  minPrefix : Z;
  row_price : Price;
  priced : bool
}.

Definition list_price (input output : Z) (readMult : float64) : Price :=
  mkPrice (of_int input) (of_int output) readMult.

Definition modelTable : list modelRow := [
  mkRow "fable-5-1" minPrefixNewest (list_price 10 50 readMultiplierNewest) true;
  mkRow "mythos-5-1" minPrefixNewest (list_price 10 50 readMultiplierNewest) true;
  mkRow "fable-5" minPrefixNewest (list_price 10 50 ReadMultiplier) true;
  mkRow "mythos-5" minPrefixNewest (list_price 10 50 ReadMultiplier) true;
  mkRow "opus-5" minPrefixNewest (list_price 5 25 ReadMultiplier) true;
  mkRow "opus-4-8" minPrefixStandard (list_price 5 25 ReadMultiplier) true;
  mkRow "opus-4-7" minPrefixOpus47 (list_price 5 25 ReadMultiplier) true;
  mkRow "opus-4-6" minPrefixLegacy (list_price 5 25 ReadMultiplier) true;
  mkRow "opus-4-5" minPrefixLegacy (list_price 5 25 ReadMultiplier) true;
  mkRow "haiku-4-5" minPrefixLegacy (list_price 1 5 ReadMultiplier) true;
  mkRow "sonnet-5" minPrefixStandard (list_price 2 10 ReadMultiplier) true;
  mkRow "sonnet-4-6" minPrefixStandard (list_price 3 15 ReadMultiplier) true;
  mkRow "sonnet-4-5" minPrefixStandard (list_price 3 15 ReadMultiplier) true;
  mkRow "sonnet-4" minPrefixStandard (list_price 3 15 ReadMultiplier) true;
  mkRow "sonnet" minPrefixStandard no_price false;
  mkRow "3-5-haiku" minPrefixOpus47 (mkPrice (of_ratio 80 100) (of_int 4) ReadMultiplier) true;
  mkRow "opus-4-1" minPrefixStandard (list_price 15 75 ReadMultiplier) true;
  mkRow "opus-4" minPrefixStandard (list_price 15 75 ReadMultiplier) true;
  mkRow "haiku" minPrefixStandard no_price false
].

Definition unknownModel : modelRow :=
  mkRow "" minPrefixStandard (mkPrice f0 f0 readMultiplierUnknown) false.

Definition dearest_step (out : option Price) (m : modelRow) : option Price :=
  if negb (priced m) then out
  else match out with
       | None => Some (row_price m)
       | Some p => if fltb (InputPerMTok p) (InputPerMTok (row_price m))
                   then Some (row_price m) else out
       end.

Definition DearestPrice : option Price := fold_left dearest_step modelTable None.

Definition anthropicFamilies : list string :=
  ["claude"; "opus"; "sonnet"; "haiku"; "fable"; "mythos"].

Definition foreignModel (model : string) : bool :=
  let m := to_lower model in
  if existsb (contains m) anthropicFamilies then false else negb (String.eqb m "").

(** The row a lookup returns, its read multiple filled in when the table
    leaves it zero. *)
Definition with_read_mult (row : modelRow) : modelRow :=
  if feqb (ReadMult (row_price row)) f0
  then mkRow (row_match row) (minPrefix row)
         (mkPrice (InputPerMTok (row_price row)) (OutputPerMTok (row_price row)) ReadMultiplier)
         (priced row)
  else row.

Definition lookup_row (model : string) : modelRow :=
  match find_first (fun row => matchesModel (to_lower model) (row_match row)) modelTable with
  | Some row => with_read_mult row
  | None => unknownModel
  end.

Section in_force.

(** The installed rules document, if any. *)
Variable ov : option Rules.

Definition unpriceable (model : string) : bool :=
  match activeRow ov model with
  | Some _ => false
  | None => foreignModel model
  end.

Definition MinCacheablePrefix (model : string) : Z :=
  match activeRow ov model with
  | Some (row, _) => MinPrefix row
  | None => minPrefix (lookup_row model)
  end.

Definition PriceFor (model : string) : Price * bool :=
  match activeRow ov model with
  | Some (m, doc) => (applyDiscount doc (priceOf m), Priced m)
  | None => let row := lookup_row model in (row_price row, priced row)
  end.

Definition ReadMultiplierFor (model : string) : float64 :=
  match activeRow ov model with
  | Some (r, _) => if fltb f0 (rule_ReadMult r) then rule_ReadMult r
                   else ReadMult (row_price (lookup_row model))
  | None => ReadMult (row_price (lookup_row model))
  end.

Definition PriceForAt (model : string) (t : time) : Price * bool :=
  if IsZero t then PriceFor model
  else match ov with
       | Some r =>
           match PriceAt (Some r) model t with
           | (p, true) => (p, true)
           | (_, false) => let row := lookup_row model in (row_price row, priced row)
           end
       | None => PriceFor model
       end.

(** ** Token arithmetic *)

Definition writeEquivalent (u : Usage) : float64 :=
  if (Create5m u =? 0) && (Create1h u =? 0)
  then (of_int (CacheCreation u) * WriteMultiplierShort)%float
  else (of_int (Create5m u) * WriteMultiplierShort
        + of_int (Create1h u) * WriteMultiplierLong)%float.

Definition EffectiveTokens (u : Usage) (model : string) : float64 :=
  if unpriceable model then of_int (Input u)
  else (of_int (Input u) + writeEquivalent u
        + of_int (CacheRead u) * ReadMultiplierFor model)%float.

End in_force.

Definition TTLOf (u : Usage) : duration :=
  if (0 <? Create1h u) && (Create5m u =? 0) then TTLLong else TTLShort.

Definition WriteMultiplier (ttl : duration) : float64 :=
  if TTLLong <=? ttl then WriteMultiplierLong else WriteMultiplierShort.

Inductive WriteTTLBasis :=
| WriteBasisMeasured
| WriteBasisAssumedShort
| WriteBasisInconsistent.

Definition WriteTTLBasisOf (u : Usage) : WriteTTLBasis :=
  if CreateSplitPresent u then
    if (0 <? Create5m u) || (0 <? Create1h u) then WriteBasisMeasured
    else if 0 <? CacheCreation u then WriteBasisInconsistent
    else WriteBasisMeasured
  else WriteBasisAssumedShort.

Definition WriteBasisAssumed (u : Usage) : bool :=
  match WriteTTLBasisOf u with WriteBasisMeasured => false | _ => true end.

Record CostLegs := mkLegs { Uncached : float64; Write : float64; Read : float64; leg_Output : float64 }.

Definition Legs_Total (l : CostLegs) : float64 :=
  (Uncached l + Write l + Read l + leg_Output l)%float.

Definition CostLegsUSD (u : Usage) (p : Price) : CostLegs :=
  let in_ := (InputPerMTok p / tokensPerMillion)%float in
  mkLegs (of_int (Input u) * in_)%float
    (writeEquivalent u * in_)%float
    (of_int (CacheRead u) * ReadMult p * in_)%float
    (of_int (Output u) * OutputPerMTok p / tokensPerMillion)%float.

Definition CostUSD (u : Usage) (p : Price) : float64 := Legs_Total (CostLegsUSD u p).

Definition SimulatedUsage (tail write read output : Z) (ttl : duration) : Usage :=
  if TTLLong <=? ttl
  then mkUsage tail write read output 0 0 write false
  else mkUsage tail write read output 0 write 0 false.

Definition CachedShare (reads prompt : Z) : float64 :=
  if prompt <=? 0 then f0 else (of_int reads / of_int prompt)%float.

(** ** [ceiling.go]: what a cache-blind budget stops at *)

Definition BlindCostUSD (u : Usage) (rate : float64) : float64 :=
  let tokens := of_int (Input u +! CacheCreation u +! CacheRead u) in
  ((tokens * rate + of_int (Output u) * rate) / tokensPerMillion)%float.

Record TokenCounts := mkCounts { tc_Input : Z; CacheWrite : Z; tc_CacheRead : Z; tc_Output : Z }.

Definition Counts_Total (t : TokenCounts) : Z :=
  tc_Input t +! CacheWrite t +! tc_CacheRead t +! tc_Output t.

Record CeilingEffect := mkCeiling {
  ce_Requests : Z;
  CorrectUSD : float64;
  BlindUSD : float64;
  Tokens : TokenCounts;
  Unpriced : Z
}.

Definition no_effect : CeilingEffect := mkCeiling 0 f0 f0 (mkCounts 0 0 0 0) 0.

Definition Measured (e : CeilingEffect) : bool :=
  (0 <? ce_Requests e) && fltb f0 (CorrectUSD e).

Definition Ratio (e : CeilingEffect) : option float64 :=
  if negb (Measured e) then None else Some (BlindUSD e / CorrectUSD e)%float.

Definition StopsAt (e : CeilingEffect) (ceilingUSD : float64) : option float64 :=
  if fleb ceilingUSD f0 then None
  else match Ratio e with
       | None => None
       | Some r => Some (ceilingUSD / r)%float
       end.

Definition Ceiling_AddAt (ov : option Rules) (e : CeilingEffect) (model : string) (u : Usage)
    (at_ : time) (blindRate : float64) : CeilingEffect :=
  match PriceForAt ov model at_ with
  | (_, false) => mkCeiling (ce_Requests e) (CorrectUSD e) (BlindUSD e) (Tokens e) (Unpriced e +! 1)
  | (p, true) =>
      mkCeiling (ce_Requests e +! 1) (CorrectUSD e + CostUSD u p)%float
        (BlindUSD e + BlindCostUSD u blindRate)%float (Tokens e) (Unpriced e)
  end.

Definition AddTokens (e : CeilingEffect) (u : Usage) : CeilingEffect :=
  let t := Tokens e in
  mkCeiling (ce_Requests e) (CorrectUSD e) (BlindUSD e)
    (mkCounts (tc_Input t +! Input u) (CacheWrite t +! CacheCreation u)
       (tc_CacheRead t +! CacheRead u) (tc_Output t +! Output u))
    (Unpriced e).

(** ** [measure.go]: the caching floor real traffic witnesses *)

Record PrefixEvidence := mkEvidence {
  pe_Model : string;
  PrefixTokens : Z;
  Wrote : bool;
  Marked : bool;
  Session : string;
  Machine : string
}.

Record acc := mkFloorAcc {
  upper : option Z;
  lower : option Z;
  sessions : gset string;
  machines : gset string
}.

Definition add_name (s : string) (set : gset string) : gset string :=
  if String.eqb s "" then set else {[s]} ∪ set.

(** One piece of admissible testimony. *)
Definition testify (a : acc) (e : PrefixEvidence) : acc :=
  let ss := add_name (Session e) (sessions a) in
  let ms := add_name (Machine e) (machines a) in
  let n := PrefixTokens e in
  if Wrote e
  then mkFloorAcc (match upper a with Some u => if n <? u then Some n else upper a | None => Some n end)
         (lower a) ss ms
  else mkFloorAcc (upper a)
         (match lower a with Some l => if l <? n then Some n else lower a | None => Some n end) ss ms.

Definition testimony (e : PrefixEvidence) : bool :=
  negb (String.eqb (pe_Model e) "" || (PrefixTokens e <? 0)) && Marked e.

Definition measure_step (by_model : gmap string acc) (e : PrefixEvidence) : gmap string acc :=
  if testimony e
  then <[pe_Model e := testify (default (mkFloorAcc None None ∅ ∅) (by_model !! pe_Model e)) e]> by_model
  else by_model.

Definition containsFold (haystack needle : string) : bool :=
  contains (to_lower haystack) (to_lower needle).

Definition DocumentedMinPrefix (ov : option Rules) (model : string) : Z :=
  match activeRow ov model with
  | Some (r, _) => MinPrefix r
  | None =>
      match find_first (fun row => containsFold model (row_match row)) modelTable with
      | Some row => minPrefix row
      | None => 0
      end
  end.

Definition claim_of (ov : option Rules) (model : string) (a : acc) : option Claim :=
  match upper a, lower a with
  | None, None => None
  | u, l =>
      Some (mkClaim (DocumentedMinPrefix ov model)
              (Some (mkObs u l (Z.of_nat (size (sessions a))) (Z.of_nat (size (machines a))))) "")
  end.

Definition MeasureClaims (ov : option Rules) (evidence : list PrefixEvidence) : gmap string Claim :=
  map_imap (claim_of ov) (fold_left measure_step evidence ∅).

Definition Incoherent (o : Observation) : bool :=
  match UpperBound o, LowerBound o with
  | Some u, Some l => u <=? l
  | _, _ => false
  end.

End CachePrices.
