(* ===== verification/CacheSpec.v ===== *)
(** What the published-numbers layer guarantees ([src/internal/cachemodel]):
    which row a model id selects, that a validated document names one price
    per instant, that what it charges is sane, and what verdicts on observed
    claims mean. *)

From S2P Require Import Prelude GoString GoFloat GoTime Transcript CacheRules CachePrices.
From Stdlib Require Import Ascii String.

Open Scope string_scope.
Open Scope Z_scope.

Module CacheSpec.
Import Transcript CacheRules CachePrices.

(** ** Matching *)

Definition starts_with_digit (s : string) : Prop :=
  match s with String c _ => is_digit c = true | EmptyString => False end.

(** A version component the match does not cover: the number itself goes on,
    or a hyphen and one to three digits follow. *)
Definition names_a_further_version (rest : string) : Prop :=
  starts_with_digit rest \/
  exists ds more, rest = String "-" (ds ++ more) /\ string_forallb is_digit ds = true /\
    1 <= len ds <= 3 /\ ~ starts_with_digit more.

Lemma len_cons c s : len (String c s) = 1 + len s.
Proof. unfold len. cbn [String.length]. lia. Qed.

Lemma len_nonneg s : 0 <= len s.
Proof. unfold len. lia. Qed.

Lemma digit_run_split s :
  exists ds more, s = ds ++ more /\ string_forallb is_digit ds = true /\
    len ds = digit_run s /\ ~ starts_with_digit more.
Proof.
  induction s as [|c s (ds & more & -> & Hd & Hl & Hm)].
  - exists "", "". auto.
  - cbn [digit_run]. destruct (is_digit c) eqn:Hc.
    + exists (String c ds), more. split_and!; [done | | | done].
      * cbn. by rewrite Hc.
      * by rewrite len_cons, Hl.
    + exists "", (String c (ds ++ more)). split_and!; [done | done | done |].
      cbn. by rewrite Hc.
Qed.

Lemma digit_run_app ds more :
  string_forallb is_digit ds = true -> ~ starts_with_digit more ->
  digit_run (ds ++ more) = len ds.
Proof.
  intros Hd Hm. induction ds as [|c ds IH]; cbn in Hd |- *.
  - destruct more as [|c more]; cbn in *; [done |]. destruct (is_digit c); done.
  - reflect_bool. match goal with H : is_digit c = true |- _ => rewrite H end.
    rewrite len_cons, IH by done. done.
Qed.

Lemma continuesWithVersion_spec rest :
  continuesWithVersion rest = true <-> names_a_further_version rest.
Proof.
  unfold continuesWithVersion, names_a_further_version. destruct rest as [|c rest].
  { split; [done | intros [[]|(ds & more & [=] & _)]]. }
  destruct (is_digit c) eqn:Hc; [split; [by left | done] |].
  assert (~ starts_with_digit (String c rest)) as Hnd by (cbn; congruence).
  destruct (Ascii.eqb_spec c "-") as [->|Hne].
  2: { rewrite orb_true_r. split; [done | intros [?|(ds & more & [=] & _)]; done]. }
  cbn [negb orb]. rewrite orb_false_r.
  destruct (digit_run_split rest) as (ds & more & -> & Hd & Hl & Hm).
  rewrite (digit_run_app ds more Hd Hm) in Hl |- *.
  pose proof (len_nonneg more). pose proof (len_nonneg ds).
  destruct (len (String "-" (ds ++ more)) <? 2) eqn:E; reflect_bool.
  - rewrite len_cons in E.
    assert (len (ds ++ more) = len ds + len more) as Happ
      by (unfold len; rewrite string_length_app; lia).
    split; [done | intros [?|(ds' & more' & Heq & Hd' & Hl' & Hm')]; [done |]].
    injection Heq as Heq. apply (f_equal len) in Heq.
    assert (len (ds' ++ more') = len ds' + len more') as Happ'
      by (unfold len; rewrite string_length_app; lia).
    pose proof (len_nonneg more'). lia.
  - rewrite andb_true_iff, Z.ltb_lt, Z.leb_le. unfold versionDigits. split.
    + intros ?. right. exists ds, more. split_and!; auto; lia.
    + intros [?|(ds' & more' & Heq & Hd' & Hl' & Hm')]; [done |].
      injection Heq as Heq. apply (f_equal digit_run) in Heq.
      rewrite !digit_run_app in Heq by done. lia.
Qed.

(** A model id belongs to a row exactly when the row's match occurs in it
    somewhere and what follows that occurrence is not a further version: a
    digit, or a hyphen with one to three digits; a build date (four digits or
    more), a word or the end still match, and an empty match never does. *)
Lemma matchesModel_spec :
  forall lowerID lowerMatch,
    matchesModel lowerID lowerMatch = true <->
    lowerMatch <> "" /\
    exists before rest, lowerID = before ++ lowerMatch ++ rest /\ ~ names_a_further_version rest.
Proof.
  intros id mt. unfold matchesModel.
  destruct (String.eqb_spec mt "") as [->|Hne]; [naive_solver |].
  rewrite existsb_exists. split.
  - intros (t & Ht%list_elem_of_In & Hm). split; [done |].
    destruct (strip_prefix mt t) as [rest|] eqn:Hs; [| done].
    apply strip_prefix_spec in Hs as ->. apply elem_of_suffixes in Ht as [u ->].
    exists u, rest. split; [done |]. rewrite <- continuesWithVersion_spec.
    by destruct (continuesWithVersion rest).
  - intros [_ (u & rest & -> & Hv)]. exists (mt ++ rest). split.
    + apply list_elem_of_In, elem_of_suffixes. eauto.
    + assert (strip_prefix mt (mt ++ rest) = Some rest) as -> by (by apply strip_prefix_spec).
      rewrite <- continuesWithVersion_spec in Hv. by destruct (continuesWithVersion rest).
Qed.

(** ** The document *)

Lemma overlap_scan_none i a af au rows : forall j k b,
  overlap_scan i a af au j rows = None -> rows !! k = Some b -> dated b = true ->
  equal_fold (Match a) (Match b) = true ->
  exists bf bu, window b = inr (bf, bu) /\ windowsOverlap af au bf bu = false.
Proof.
  induction rows as [|b rows IH]; intros j k b' Hs Hk Hd He; [done |].
  cbn [overlap_scan] in Hs. destruct k as [|k]; cbn in Hk.
  - injection Hk as ->. rewrite Hd, He in Hs. cbn [negb orb] in Hs.
    destruct (window b') as [e|[bf bu]]; [done |].
    destruct (windowsOverlap af au bf bu) eqn:Ho; [done |]. eauto.
  - destruct (negb (dated b) || _); [by eapply IH |].
    destruct (window b) as [e|[bf bu]]; [done |].
    destruct (windowsOverlap af au bf bu); [done |]. by eapply IH.
Qed.

Lemma windows_scan_none rows : forall i j k a b,
  windows_scan i rows = None -> rows !! j = Some a -> rows !! k = Some b -> (j < k)%nat ->
  dated a = true -> dated b = true -> equal_fold (Match a) (Match b) = true ->
  exists af au bf bu, window a = inr (af, au) /\ window b = inr (bf, bu) /\
    windowsOverlap af au bf bu = false.
Proof.
  induction rows as [|x rows IH]; intros i j k a b Hs Hj Hk Hlt Ha Hb He; [done |].
  destruct k as [|k]; [lia |]. cbn in Hk. cbn [windows_scan] in Hs.
  destruct j as [|j]; cbn in Hj.
  - injection Hj as ->. rewrite Ha in Hs. cbn [negb] in Hs.
    destruct (window a) as [e|[af au]]; [done |].
    assert (overlap_scan i a af au (S i) rows = None) as Ho.
    { destruct af as [f|], au as [u|]; try (by destruct (overlap_scan i a _ _ _ rows)).
      destruct (Before u f); [done |]. by destruct (overlap_scan i a _ _ _ rows). }
    destruct (overlap_scan_none _ _ _ _ _ _ _ _ Ho Hk Hb He) as (bf & bu & Hw & Hov).
    exists af, au, bf, bu. done.
  - assert (windows_scan (S i) rows = None) as Hs'.
    { destruct (dated x); cbn [negb] in Hs; [| done].
      destruct (window x) as [e|[af au]]; [done |].
      destruct af as [f|], au as [u|]; try (by destruct (overlap_scan i x _ _ _ rows)).
      destruct (Before u f); [done |]. by destruct (overlap_scan i x _ _ _ rows). }
    eapply (IH (S i) j k); eauto. lia.
Qed.

Lemma windowsOverlap_common t af au bf bu :
  match af with Some f => f <= t | None => True end ->
  match au with Some u => t <= u | None => True end ->
  match bf with Some f => f <= t | None => True end ->
  match bu with Some u => t <= u | None => True end ->
  windowsOverlap af au bf bu = true.
Proof.
  intros H1 H2 H3 H4. unfold windowsOverlap, Before.
  destruct au as [au|], bf as [bf|], bu as [bu|], af as [af|];
    repeat match goal with |- context [?x <? ?y] => destruct (Z.ltb_spec x y); try lia end;
    done.
Qed.

Lemma windowContains_bounds m t :
  windowContains m t = true ->
  exists from until, window m = inr (from, until) /\
    match from with Some f => f <= t | None => True end /\
    match until with Some u => t <= u | None => True end.
Proof.
  unfold windowContains. destruct (window m) as [e|[from until]]; [done |].
  intros H. exists from, until. split; [done |].
  unfold Before, After in H. destruct from, until; reflect_bool; auto.
Qed.

Lemma validate_scans r :
  validate r = None ->
  windows_scan 0 (Models r) = None /\ rows_scan 0 (Models r) = None /\
  fltb (AccountDiscount r) f0 = false /\ fleb f1 (AccountDiscount r) = false.
Proof.
  unfold validate. intros H.
  destruct (negb (String.eqb (Schema r) _)); [done |].
  destruct (String.eqb (trim_space _) _); [done |].
  destruct (List.length (Models r) =? 0)%nat; [done |].
  destruct (if String.eqb (Provider r) "" then _ else _); [done |].
  destruct (fltb (AccountDiscount r) f0 || fleb f1 (AccountDiscount r)) eqn:E; [done |].
  destruct (windows_scan 0 (Models r)); [done |]. reflect_bool. done.
Qed.

Lemma equal_fold_sym a b : equal_fold a b = equal_fold b a.
Proof. apply String.eqb_sym. Qed.

(** At most one dated row of a match is in force at an instant. *)
Lemma dated_row_unique r j k a b t :
  validate r = None -> Models r !! j = Some a -> Models r !! k = Some b ->
  dated a = true -> dated b = true -> equal_fold (Match a) (Match b) = true ->
  windowContains a t = true -> windowContains b t = true -> j = k.
Proof.
  intros Hv Hj Hk Ha Hb He Hca Hcb.
  apply validate_scans in Hv as (Hw & _).
  destruct (windowContains_bounds a t Hca) as (af & au & Ea & ? & ?).
  destruct (windowContains_bounds b t Hcb) as (bf & bu & Eb & ? & ?).
  destruct (Nat.lt_total j k) as [Hlt|[Heq|Hgt]]; [exfalso | done | exfalso].
  - destruct (windows_scan_none _ 0 j k a b Hw) as (af' & au' & bf' & bu' & Wa & Wb & Ho); auto.
    rewrite Ea in Wa. rewrite Eb in Wb. injection Wa as <- <-. injection Wb as <- <-.
    rewrite (windowsOverlap_common t) in Ho by assumption. discriminate Ho.
  - rewrite equal_fold_sym in He.
    destruct (windows_scan_none _ 0 k j b a Hw) as (bf' & bu' & af' & au' & Wb & Wa & Ho); auto.
    rewrite Ea in Wa. rewrite Eb in Wb. injection Wa as <- <-. injection Wb as <- <-.
    rewrite (windowsOverlap_common t) in Ho by assumption. discriminate Ho.
Qed.

(** The scan stops at a dated row in force. *)
Lemma price_scan_dated r lower t a rows : forall fb,
  (forall b, b ∈ rows -> dated b = true -> matchesModel lower (to_lower (Match b)) = true ->
     windowContains b t = true -> b = a) ->
  a ∈ rows -> dated a = true -> matchesModel lower (to_lower (Match a)) = true ->
  windowContains a t = true ->
  price_scan r lower t fb rows = (applyDiscount r (priceOf a), Priced a).
Proof.
  induction rows as [|m rows IH]; intros fb Huniq Hin Hd Hm Hw; [by apply not_elem_of_nil in Hin |].
  cbn [price_scan].
  assert (forall fb', a ∈ rows ->
            price_scan r lower t fb' rows = (applyDiscount r (priceOf a), Priced a)) as Hrest.
  { intros fb' Hin'. apply IH; auto. intros b Hb. apply Huniq. by right. }
  destruct (matchesModel lower (to_lower (Match m))) eqn:Em; cbn [negb].
  2: { apply Hrest. apply elem_of_cons in Hin as [->|?]; [congruence | done]. }
  destruct (windowContains m t) eqn:Ew; cbn [negb].
  2: { apply Hrest. apply elem_of_cons in Hin as [->|?]; [congruence | done]. }
  destruct (dated m) eqn:Ed.
  - rewrite (Huniq m); auto. by left.
  - apply Hrest. apply elem_of_cons in Hin as [->|?]; [congruence | done].
Qed.

(** In a validated document a promotion is charged inside its window
    wherever its row stands.  When the dated rows that match a model carry one
    match string (up to case), the row in force at an instant is unique and
    [PriceAt] returns it, discounted, whatever undated rows come before. *)
Lemma PriceAt_dated_row_wins :
  forall r model t a,
    validate r = None ->
    a ∈ Models r -> dated a = true -> windowContains a t = true ->
    matchesModel (to_lower model) (to_lower (Match a)) = true ->
    (forall b, b ∈ Models r -> dated b = true ->
       matchesModel (to_lower model) (to_lower (Match b)) = true ->
       equal_fold (Match a) (Match b) = true) ->
    PriceAt (Some r) model t = (applyDiscount r (priceOf a), Priced a).
Proof.
  intros r model t a Hv Hin Hd Hw Hm Hsame. unfold PriceAt.
  apply price_scan_dated; auto. intros b Hb Hdb Hmb Hwb.
  apply list_elem_of_lookup in Hin as [j Hj]. apply list_elem_of_lookup in Hb as Hb'.
  destruct Hb' as [k Hk].
  assert (j = k) as <- by (eapply (dated_row_unique r j k a b t); eauto).
  congruence.
Qed.

Definition row (mt from until : string) (input : Z) : ModelRule :=
  mkRule mt "" 1024 (of_int input) (of_int (5 * input)) ReadMultiplier true None from until.

Definition doc (rows : list ModelRule) : Rules :=
  mkRules RulesSchema "v1" "anthropic" "" "" "" rows f0.

Definition september : time := match parse_date "2026-09-15" with Some t => t | None => 0 end.

Definition promo_doc : Rules :=
  doc [row "opus-5" "" "" 5; row "opus-5" "2026-09-01" "2026-09-30" 3].

Lemma PriceAt_dated_row_wins_witness :
  PriceAt (Some promo_doc) "claude-opus-5" september
  = (mkPrice (of_int 3) (of_int 15) ReadMultiplier, true).
Proof.
  transitivity (applyDiscount promo_doc (priceOf (row "opus-5" "2026-09-01" "2026-09-30" 3)), true);
    [| vm_compute; reflexivity].
  apply (PriceAt_dated_row_wins promo_doc "claude-opus-5" september
           (row "opus-5" "2026-09-01" "2026-09-30" 3)).
  - vm_compute; reflexivity.
  - unfold promo_doc, doc. right. left.
  - vm_compute; reflexivity.
  - vm_compute; reflexivity.
  - vm_compute; reflexivity.
  - intros b Hb _ _. unfold promo_doc, doc in Hb. cbn [Models] in Hb.
    apply elem_of_cons in Hb as [->|Hb]; [vm_compute; reflexivity |].
    apply list_elem_of_singleton in Hb as ->. vm_compute; reflexivity.
Defined.

(** The restriction to one match string is needed: two promotions under
    different match strings pass [validate] together, and which one a model
    both match is charged depends on which comes first in the file. *)
Lemma PriceAt_depends_on_row_order :
  let wide := row "claude" "2026-09-01" "2026-09-30" 4 in
  let narrow := row "opus-5" "2026-09-01" "2026-09-30" 3 in
  validate (doc [wide; narrow]) = None /\ validate (doc [narrow; wide]) = None /\
  (PriceAt (Some (doc [wide; narrow])) "claude-opus-5" september).1
  <> (PriceAt (Some (doc [narrow; wide])) "claude-opus-5" september).1.
Proof.
  cbv zeta. split; [vm_compute; reflexivity |]. split; [vm_compute; reflexivity |].
  vm_compute. discriminate.
Qed.

(** ** What a validated document charges *)

Lemma rows_scan_none rows : forall i m,
  rows_scan i rows = None -> m ∈ rows -> exists j, row_error j m = None.
Proof.
  induction rows as [|x rows IH]; intros i m Hs Hin; [by apply not_elem_of_nil in Hin |].
  cbn [rows_scan] in Hs. destruct (row_error i x) eqn:E; [done |].
  apply elem_of_cons in Hin as [->|Hin]; [by exists i | by eapply IH].
Qed.

(** A row [validate] let through. *)
Lemma row_error_none i m :
  row_error i m = None ->
  trim_space (Match m) <> "" /\ 0 <= MinPrefix m /\
  fltb (rule_Input m) f0 = false /\ fltb (rule_Output m) f0 = false /\
  fltb (rule_ReadMult m) f0 = false /\ fltb f1 (rule_ReadMult m) = false /\
  (Priced m = true -> feqb (rule_ReadMult m) f0 = false /\
     (feqb (rule_Input m) f0 = false \/ feqb (rule_Output m) f0 = false)) /\
  (dated m = true -> exists w, window m = inr w).
Proof.
  unfold row_error. intros H.
  destruct (dated m) eqn:Hd; [destruct (window m) as [e|w] eqn:Hw; [done |] |].
  all: destruct (String.eqb_spec (trim_space (Match m)) ""); [done |];
    destruct (MinPrefix m <? 0) eqn:E1; [done |];
    destruct (fltb (rule_Input m) f0 || fltb (rule_Output m) f0) eqn:E2; [done |];
    destruct (Priced m && feqb (rule_Input m) f0 && feqb (rule_Output m) f0) eqn:E3; [done |];
    destruct (Priced m && feqb (rule_ReadMult m) f0) eqn:E4; [done |];
    destruct (fltb (rule_ReadMult m) f0 || fltb f1 (rule_ReadMult m)) eqn:E5; [done |];
    reflect_bool; split_and!; eauto; try done; intros Hp; rewrite Hp in E3, E4; cbn in E3, E4;
    apply andb_false_iff in E3; auto.
Qed.

Lemma applyDiscount_input r p :
  plus_signed (AccountDiscount r) = true -> plus_signed (InputPerMTok p) = true ->
  plus_signed (OutputPerMTok p) = true ->
  plus_signed (InputPerMTok (applyDiscount r p)) = true /\
  plus_signed (OutputPerMTok (applyDiscount r p)) = true /\
  ReadMult (applyDiscount r p) = ReadMult p.
Proof.
  intros Hd Hi Ho. unfold applyDiscount. case_match; [done |]. cbn.
  split_and!; auto using fmul_plus.
Qed.

(** Where a price can come from. *)
Lemma price_scan_source r lower t rows : forall fb p b,
  price_scan r lower t fb rows = (p, b) ->
  (p = no_price /\ b = false /\ fb = None) \/
  (exists m, (fb = Some m \/ m ∈ rows /\ matchesModel lower (to_lower (Match m)) = true /\
                 windowContains m t = true) /\
             p = applyDiscount r (priceOf m) /\ b = Priced m).
Proof.
  induction rows as [|m rows IH]; intros fb p b; cbn [price_scan].
  { destruct fb as [m|]; intros [= <- <-]; [right; eauto | by left]. }
  intros H. destruct (matchesModel lower (to_lower (Match m))) eqn:Em; cbn [negb] in H.
  2: { destruct (IH _ _ _ H) as [?|(m' & [?|(? & ? & ?)] & ?)]; [by left | right; eauto |].
       right. exists m'. split; [right; split; [by right | done] | done]. }
  destruct (windowContains m t) eqn:Ew; cbn [negb] in H.
  2: { destruct (IH _ _ _ H) as [?|(m' & [?|(? & ? & ?)] & ?)]; [by left | right; eauto |].
       right. exists m'. split; [right; split; [by right | done] | done]. }
  destruct (dated m) eqn:Ed.
  { injection H as <- <-. right. exists m. split; [right; split; [by left | done] | done]. }
  destruct (IH _ _ _ H) as [(? & ? & Hf)|(m' & [Hf|(? & ? & ?)] & ?)].
  - by destruct fb.
  - right. exists m'. split; [| done]. destruct fb as [m0|].
    + left. congruence.
    + injection Hf as <-. right. split; [by left | done].
  - right. exists m'. split; [right; split; [by right | done] | done].
Qed.

(** Pricing a request at its own instant never uses a row outside its
    window.  With a document installed, a priced answer is either the
    discounted price of a priced row that matches the model and is in force at
    that instant, or, when the document prices nothing there, the compiled
    table's; the discount never touches the cache-read multiple. *)
Lemma PriceForAt_provenance :
  forall r model t p,
    t <> 0 -> PriceForAt (Some r) model t = (p, true) ->
    (exists m, m ∈ Models r /\ matchesModel (to_lower model) (to_lower (Match m)) = true /\
       windowContains m t = true /\ Priced m = true /\
       p = applyDiscount r (priceOf m) /\ ReadMult p = rule_ReadMult m) \/
    ((PriceAt (Some r) model t).2 = false /\
     priced (lookup_row model) = true /\ p = row_price (lookup_row model)).
Proof.
  intros r model t p Ht H. unfold PriceForAt, IsZero in H.
  apply Z.eqb_neq in Ht as Hz. rewrite Hz in H.
  destruct (PriceAt (Some r) model t) as [q []] eqn:Hp.
  - injection H as <-. left. unfold PriceAt in Hp.
    destruct (price_scan_source _ _ _ _ _ _ _ Hp) as [(_ & ? & _)|(m & [?|(Hin & Hm & Hw)] & Hq & Hb)];
      try discriminate.
    exists m. split_and!; [done | done | done | congruence | done |].
    rewrite Hq. unfold applyDiscount. by case_match.
  - right. injection H as <- Hb. done.
Qed.

Lemma PriceForAt_provenance_witness :
  (PriceAt (Some (doc [row "opus-5" "2026-10-01" "2026-10-31" 3])) "claude-opus-5" september).2 = false.
Proof.
  destruct (PriceForAt_provenance (doc [row "opus-5" "2026-10-01" "2026-10-31" 3])
              "claude-opus-5" september (list_price 5 25 ReadMultiplier)) as [(m & Hin & _ & Hw & _)|[H _]].
  - vm_compute. discriminate.
  - vm_compute. reflexivity.
  - unfold doc in Hin. cbn [Models] in Hin. apply list_elem_of_singleton in Hin as ->.
    vm_compute in Hw. discriminate Hw.
  - exact H.
Defined.

(** ** Costs are never negative *)

Lemma writeEquivalent_plus u :
  0 <= CacheCreation u -> 0 <= Create5m u -> 0 <= Create1h u ->
  plus_signed (writeEquivalent u) = true.
Proof.
  intros. unfold writeEquivalent.
  assert (plus_signed WriteMultiplierShort = true) by reflexivity.
  assert (plus_signed WriteMultiplierLong = true) by reflexivity.
  case_match; auto 6 with go.
Qed.

Lemma CostLegs_plus u p :
  usage_ok u -> 0 <= Create5m u -> 0 <= Create1h u ->
  plus_signed (InputPerMTok p) = true -> plus_signed (OutputPerMTok p) = true ->
  plus_signed (ReadMult p) = true ->
  let l := CostLegsUSD u p in
  plus_signed (Uncached l) = true /\ plus_signed (Write l) = true /\
  plus_signed (Read l) = true /\ plus_signed (leg_Output l) = true.
Proof.
  intros [Hi Hc Hr Ho _] H5 H1 Pi Po Pr l. subst l. unfold CostLegsUSD; cbn.
  assert (plus_signed tokensPerMillion = true) by reflexivity.
  assert (plus_signed (InputPerMTok p / tokensPerMillion)%float = true) by auto with go.
  assert (0 <= Output u) by lia.
  pose proof (writeEquivalent_plus u Hc H5 H1).
  split_and!; auto 8 with go.
Qed.

Lemma CostUSD_plus u p :
  usage_ok u -> 0 <= Create5m u -> 0 <= Create1h u ->
  plus_signed (InputPerMTok p) = true -> plus_signed (OutputPerMTok p) = true ->
  plus_signed (ReadMult p) = true -> plus_signed (CostUSD u p) = true.
Proof.
  intros Hu H5 H1 Pi Po Pr.
  destruct (CostLegs_plus u p) as (? & ? & ? & ?); auto.
  unfold CostUSD, Legs_Total. auto 8 with go.
Qed.

(** Prices as JSON numbers arrive: a sign bit only on a negative number. *)
Definition rule_signs (m : ModelRule) : Prop :=
  (fltb (rule_Input m) f0 = false -> plus_signed (rule_Input m) = true) /\
  (fltb (rule_Output m) f0 = false -> plus_signed (rule_Output m) = true) /\
  (fltb (rule_ReadMult m) f0 = false -> plus_signed (rule_ReadMult m) = true).

Lemma table_prices_plus :
  forallb (fun row => plus_signed (InputPerMTok (row_price (with_read_mult row)))
                      && plus_signed (OutputPerMTok (row_price (with_read_mult row)))
                      && plus_signed (ReadMult (row_price (with_read_mult row)))) modelTable = true.
Proof. vm_compute. reflexivity. Qed.

Lemma lookup_row_plus model :
  plus_signed (InputPerMTok (row_price (lookup_row model))) = true /\
  plus_signed (OutputPerMTok (row_price (lookup_row model))) = true /\
  plus_signed (ReadMult (row_price (lookup_row model))) = true.
Proof.
  unfold lookup_row. destruct (find_first _ modelTable) as [row0|] eqn:Hf; [| by vm_compute].
  apply find_first_some in Hf as (l1 & l2 & Hl & _).
  pose proof table_prices_plus as Ht. rewrite Hl, forallb_app in Ht. cbn in Ht.
  reflect_bool. done.
Qed.

(** No request costs a negative amount.  Whatever rounding does, under the
    compiled table or any validated document (with no minus-zero prices), at
    any instant, every billed leg of a well-formed usage and their total are
    not below zero: nothing a document says can turn spend into savings. *)
Lemma costs_never_negative :
  forall ov model t u p,
    (forall r, ov = Some r -> validate r = None /\ plus_signed (AccountDiscount r) = true /\
                              Forall rule_signs (Models r)) ->
    PriceForAt ov model t = (p, true) ->
    usage_ok u -> 0 <= Create5m u -> 0 <= Create1h u ->
    let l := CostLegsUSD u p in
    fltb (Uncached l) f0 = false /\ fltb (Write l) f0 = false /\ fltb (Read l) f0 = false /\
    fltb (leg_Output l) f0 = false /\ fltb (CostUSD u p) f0 = false.
Proof.
  intros ov model t u p Hov Hp Hu H5 H1 l.
  assert (plus_signed (InputPerMTok p) = true /\ plus_signed (OutputPerMTok p) = true /\
          plus_signed (ReadMult p) = true) as (Pi & Po & Pr).
  { assert (forall r m, ov = Some r -> m ∈ Models r ->
              plus_signed (InputPerMTok (applyDiscount r (priceOf m))) = true /\
              plus_signed (OutputPerMTok (applyDiscount r (priceOf m))) = true /\
              plus_signed (ReadMult (applyDiscount r (priceOf m))) = true) as Hrow.
    { intros r m Er Hin. destruct (Hov r Er) as (Hv & Hd & Hsg).
      apply validate_scans in Hv as (_ & Hrs & _).
      destruct (rows_scan_none _ _ _ Hrs Hin) as [j Hj].
      destruct (row_error_none _ _ Hj) as (_ & _ & Ei & Eo & Er' & _).
      rewrite Forall_forall in Hsg. destruct (Hsg m Hin) as (Si & So & Sr).
      destruct (applyDiscount_input r (priceOf m)) as (? & ? & ->); cbn; auto. }
    unfold PriceForAt, PriceFor, activeRow in Hp.
    destruct ov as [r|].
    - destruct (IsZero t).
      + destruct (find_first _ (Models r)) as [m|] eqn:Hf; apply (f_equal fst) in Hp; cbn in Hp; subst p.
        * apply find_first_some in Hf as (l1 & l2 & Hl & _).
          apply (Hrow r m eq_refl). rewrite Hl. apply elem_of_app. right. left.
        * apply lookup_row_plus.
      + destruct (PriceAt (Some r) model t) as [q []] eqn:Hq; apply (f_equal fst) in Hp; cbn in Hp; subst p.
        * destruct (price_scan_source _ _ _ _ _ _ _ Hq) as [(_ & ? & _)|(m & [?|(Hin & _)] & -> & _)];
            try discriminate. by apply (Hrow r m).
        * apply lookup_row_plus.
    - destruct (IsZero t); apply (f_equal fst) in Hp; cbn in Hp; subst p; apply lookup_row_plus. }
  destruct (CostLegs_plus u p) as (? & ? & ? & ?); auto.
  split_and!; apply plus_signed_not_below; auto. by apply CostUSD_plus.
Qed.

Definition small_usage : Usage := mkUsage 10 1000 5000 200 0 400 600 true.

Lemma small_usage_ok : usage_ok small_usage.
Proof. split; vm_compute; split || idtac; discriminate. Qed.

Lemma costs_never_negative_witness :
  fltb (CostUSD small_usage (mkPrice (of_int 3) (of_int 15) ReadMultiplier)) f0 = false.
Proof.
  apply (costs_never_negative (Some promo_doc) "claude-opus-5" september small_usage).
  - intros r E. injection E as <-. split; [vm_compute; reflexivity |].
    split; [reflexivity |]. repeat constructor.
  - vm_compute. reflexivity.
  - apply small_usage_ok.
  - discriminate.
  - discriminate.
Defined.

(** ** What the measured caching floors mean *)

(** Admissible testimony about one model. *)
Definition witnesses (ev : list PrefixEvidence) (model : string) (wrote : bool) (n : Z) : Prop :=
  exists e, e ∈ ev /\ testimony e = true /\ pe_Model e = model /\ Wrote e = wrote /\
            PrefixTokens e = n.

(** [b] is the extreme of the values satisfying [P]: none, or one of them that
    bounds them all. *)
Definition extreme (le : Z -> Z -> Prop) (P : Z -> Prop) (b : option Z) : Prop :=
  match b with
  | None => forall n, ~ P n
  | Some x => P x /\ forall n, P n -> le x n
  end.

Definition acc_ok (ev : list PrefixEvidence) (model : string) (a : acc) : Prop :=
  extreme Z.le (witnesses ev model true) (upper a) /\
  extreme Z.ge (witnesses ev model false) (lower a).

Lemma witnesses_snoc ev e model w n :
  witnesses (ev ++ [e]) model w n <->
  witnesses ev model w n \/
  (testimony e = true /\ pe_Model e = model /\ Wrote e = w /\ PrefixTokens e = n).
Proof.
  unfold witnesses. split.
  - intros (x & [Hx|Hx%list_elem_of_singleton]%elem_of_app & H); [left; eauto | subst; by right].
  - intros [(x & Hx & H)|H]; [exists x | exists e]; (split; [apply elem_of_app | done]);
      [by left | right; by apply list_elem_of_singleton].
Qed.

(** A new value joins the set an extreme summarises. *)
Lemma extreme_join (ltb : Z -> Z -> bool) (le : Z -> Z -> Prop) P Q b n :
  (forall x y, ltb x y = true -> le x y) -> (forall x y, ltb x y = false -> le y x) ->
  (forall x y z, le x y -> le y z -> le x z) -> (forall x, le x x) ->
  (forall m, Q m <-> P m \/ n = m) -> extreme le P b ->
  extreme le Q (match b with Some u => if ltb n u then Some n else b | None => Some n end).
Proof.
  intros Hlt Hge Htr Hrf HQ Hb. destruct b as [u|]; cbn in Hb.
  - destruct Hb as [Hu Hmin]. destruct (ltb n u) eqn:E; cbn.
    + split; [by apply HQ; right |]. intros m [Hm | <-]%HQ; [| apply Hrf].
      apply (Htr _ u); auto.
    + split; [by apply HQ; left |]. intros m [Hm | <-]%HQ; auto.
  - cbn. split; [by apply HQ; right |]. intros m [Hm | <-]%HQ; [by destruct (Hb m) | apply Hrf].
Qed.

Lemma extreme_ext le P Q b : (forall m, Q m <-> P m) -> extreme le P b -> extreme le Q b.
Proof. intros HQ. destruct b; cbn; naive_solver. Qed.

Lemma extreme_max_join (le : Z -> Z -> Prop) P Q b n :
  le = Z.ge -> (forall m, Q m <-> P m \/ n = m) -> extreme le P b ->
  extreme le Q (match b with Some l => if l <? n then Some n else b | None => Some n end).
Proof.
  intros -> HQ Hb. apply (extreme_join (fun x y => y <? x) Z.ge P Q b n); auto;
    intros; try (apply Z.ltb_lt in H); try (apply Z.ltb_ge in H); lia.
Qed.

Lemma extreme_min_join (le : Z -> Z -> Prop) P Q b n :
  le = Z.le -> (forall m, Q m <-> P m \/ n = m) -> extreme le P b ->
  extreme le Q (match b with Some u => if n <? u then Some n else b | None => Some n end).
Proof.
  intros -> HQ Hb. apply (extreme_join Z.ltb Z.le P Q b n); auto;
    intros; try (apply Z.ltb_lt in H); try (apply Z.ltb_ge in H); lia.
Qed.

Lemma testify_ok ev e model a :
  testimony e = true -> pe_Model e = model -> acc_ok ev model a ->
  acc_ok (ev ++ [e]) model (testify a e).
Proof.
  intros Ht Hm [Hu Hl]. unfold acc_ok, testify. destruct (Wrote e) eqn:Hw; cbn; split.
  - apply (extreme_min_join _ (witnesses ev model true)); auto.
    intros m. rewrite witnesses_snoc. naive_solver.
  - apply (extreme_ext _ (witnesses ev model false)); auto.
    intros m. rewrite witnesses_snoc. split; [intros [?|(_ & _ & ? & _)]; [done | congruence] | by left].
  - apply (extreme_ext _ (witnesses ev model true)); auto.
    intros m. rewrite witnesses_snoc. split; [intros [?|(_ & _ & ? & _)]; [done | congruence] | by left].
  - apply (extreme_max_join _ (witnesses ev model false)); auto.
    intros m. rewrite witnesses_snoc. naive_solver.
Qed.

Lemma acc_ok_skip ev e model a :
  testimony e = false \/ pe_Model e <> model -> acc_ok ev model a -> acc_ok (ev ++ [e]) model a.
Proof.
  intros Hs [Hu Hl].
  split; (eapply extreme_ext; [| first [exact Hu | exact Hl]]); intros m; rewrite witnesses_snoc;
    (split; [intros [?|(? & ? & _)]; [done | destruct Hs; congruence] | by left]).
Qed.

(** The fold summarises exactly the testimony read so far. *)
Lemma measure_fold_ok ev model :
  acc_ok ev model (default (mkFloorAcc None None ∅ ∅) (fold_left measure_step ev ∅ !! model)) /\
  (is_Some (fold_left measure_step ev ∅ !! model) <-> exists w n, witnesses ev model w n).
Proof.
  induction ev as [|e ev IH] using rev_ind.
  - cbn. rewrite lookup_empty. cbn.
    assert (forall w n, ~ witnesses [] model w n) as Hno
      by (intros w n (x & Hx & _); by apply not_elem_of_nil in Hx).
    split; [split; cbn; auto | split; [intros [? [=]] | intros (w & n & H); by apply Hno in H]].
  - rewrite fold_left_app. cbn [fold_left]. destruct IH as [IHa IHs]. unfold measure_step at 1 3.
    destruct (testimony e) eqn:Ht.
    2: { split; [by apply acc_ok_skip; [left |] |]. rewrite IHs.
         split; intros (w & n & H); exists w, n; [apply witnesses_snoc; by left |].
         apply witnesses_snoc in H as [?|(? & _)]; congruence. }
    destruct (decide (pe_Model e = model)) as [Hm|Hm].
    + rewrite Hm, lookup_insert_eq. cbn. split; [by apply testify_ok |].
      split; [| by eauto]. intros _. exists (Wrote e), (PrefixTokens e).
      apply witnesses_snoc. by right.
    + rewrite lookup_insert_ne by done. split; [by apply acc_ok_skip; [right |] |]. rewrite IHs.
      split; intros (w & n & H); exists w, n; [apply witnesses_snoc; by left |].
      apply witnesses_snoc in H as [?|(_ & ? & _)]; congruence.
Qed.

(** A bound crosses the documented value exactly when some witness does. *)
Lemma extreme_below P b D :
  extreme Z.le P b ->
  match b with Some u => u <? D | None => false end = true <-> exists n, P n /\ n < D.
Proof.
  intros Hb. destruct b as [u|]; cbn in Hb; [rewrite Z.ltb_lt |]; [| naive_solver].
  destruct Hb as [Hu Hmin]. split; [eauto |]. intros (n & Hn%Hmin & ?). lia.
Qed.

Lemma extreme_above P b D :
  extreme Z.ge P b ->
  match b with Some l => D <=? l | None => false end = true <-> exists n, P n /\ D <= n.
Proof.
  intros Hb. destruct b as [l|]; cbn in Hb; [rewrite Z.leb_le |]; [| naive_solver].
  destruct Hb as [Hl Hmax]. split; [eauto |]. intros (n & Hn%Hmax & ?). lia.
Qed.

Lemma extreme_some le P b : extreme le P b -> is_Some b <-> exists n, P n.
Proof.
  intros Hb. destruct b as [x|]; cbn in Hb; (split; [intros Hx | intros [n Hn]]).
  - exists x. apply Hb.
  - eauto.
  - by destruct Hx.
  - by destruct (Hb n).
Qed.

Lemma Status_spec D u l s m :
  let c := mkClaim D (Some (mkObs u l s m)) "" in
  let crossed := match u with Some u => u <? D | None => false end = true \/
                 match l with Some l => D <=? l | None => false end = true in
  (Status c = StatusContradicted <-> D <> 0 /\ crossed) /\
  (Status c = StatusConsistent <-> D <> 0 /\ ~ crossed /\ is_Some u /\ is_Some l).
Proof.
  cbn. unfold Status. cbn. unfold is_Some.
  destruct (Z.eqb_spec D 0), u as [u|], l as [l|];
    repeat match goal with |- context [?x <? ?y] => destruct (Z.ltb_spec x y) end;
    repeat match goal with |- context [?x <=? ?y] => destruct (Z.leb_spec x y) end;
    naive_solver.
Qed.

(** A measured claim says what the traffic witnesses and no more.  A model
    gets a claim exactly when some admissible request speaks about it; the
    documented floor is contradicted exactly when some request wrote a prefix
    shorter than it or left one at least that long uncached, and it is called
    consistent exactly when both kinds of request exist and none of them
    speaks against it. *)
Lemma MeasureClaims_status :
  forall ov ev model,
    let D := DocumentedMinPrefix ov model in
    let against := (exists n, witnesses ev model true n /\ n < D) \/
                   (exists n, witnesses ev model false n /\ D <= n) in
    (is_Some (MeasureClaims ov ev !! model) <-> exists w n, witnesses ev model w n) /\
    forall c, MeasureClaims ov ev !! model = Some c ->
      (Status c = StatusContradicted <-> D <> 0 /\ against) /\
      (Status c = StatusConsistent <->
         D <> 0 /\ ~ against /\ (exists n, witnesses ev model true n) /\
         exists n, witnesses ev model false n).
Proof.
  intros ov ev model D against. unfold MeasureClaims. rewrite map_lookup_imap.
  destruct (measure_fold_ok ev model) as [[Hu Hl] Hs].
  destruct (fold_left measure_step ev ∅ !! model) as [[u l ss ms]|] eqn:E; cbn in *.
  2: { split; [| done]. rewrite <- Hs. split; intros [? [=]]. }
  assert (exists w n, witnesses ev model w n) as Hany by (apply Hs; eauto).
  split.
  - split; [done |]. intros _. destruct u as [u|], l as [l|]; eauto.
    destruct Hany as ([] & n & H); cbn in *; naive_solver.
  - intros c Hc.
    assert (c = mkClaim D (Some (mkObs u l (Z.of_nat (size ss)) (Z.of_nat (size ms)))) "") as ->
      by (clear against; subst D; unfold claim_of in Hc; cbn [upper lower sessions machines] in Hc; destruct u, l; congruence).
    destruct (Status_spec D u l (Z.of_nat (size ss)) (Z.of_nat (size ms))) as [-> ->].
    rewrite (extreme_below _ _ D Hu), (extreme_above _ _ D Hl).
    rewrite (extreme_some _ _ _ Hu), (extreme_some _ _ _ Hl). done.
Qed.

Lemma MeasureClaims_status_witness :
  MeasureClaims None
    [mkEvidence "claude-opus-5" 600 true true "s1" "m1";
     mkEvidence "claude-opus-5" 511 false true "s2" "m1"] !! "claude-opus-5"
  = Some (mkClaim 512 (Some (mkObs (Some 600) (Some 511) 2 1)) "") /\
  Status (mkClaim 512 (Some (mkObs (Some 600) (Some 511) 2 1)) "") = StatusConsistent.
Proof.
  assert (MeasureClaims None
    [mkEvidence "claude-opus-5" 600 true true "s1" "m1";
     mkEvidence "claude-opus-5" 511 false true "s2" "m1"] !! "claude-opus-5"
    = Some (mkClaim 512 (Some (mkObs (Some 600) (Some 511) 2 1)) "")) as E
    by (vm_compute; reflexivity).
  split; [exact E |].
  refine (proj2 (proj2 (proj2 (MeasureClaims_status None _ _) _ E)) _).
  assert (DocumentedMinPrefix None "claude-opus-5" = 512) as -> by (vm_compute; reflexivity).
  split_and!; [done | | |].
  - intros [(n & (x & Hx & _ & _ & Hw & <-) & Hlt)|(n & (x & Hx & _ & _ & Hw & <-) & Hlt)];
      apply elem_of_cons in Hx as [->|Hx]; try discriminate Hw; cbn in Hlt; try lia;
      apply list_elem_of_singleton in Hx as ->; try discriminate Hw; cbn in Hlt; lia.
  - exists 600, (mkEvidence "claude-opus-5" 600 true true "s1" "m1").
    split; [left | vm_compute; auto].
  - exists 511, (mkEvidence "claude-opus-5" 511 false true "s2" "m1").
    split; [right; left | vm_compute; auto].
Defined.

(** The measured document names a model's floor by plain containment, the
    price lookup by version-aware matching: they part on a later version of a
    model in the table. *)
Lemma DocumentedMinPrefix_is_not_MinCacheablePrefix :
  DocumentedMinPrefix None "claude-opus-5-1" = 512 /\
  MinCacheablePrefix None "claude-opus-5-1" = 1024.
Proof. split; vm_compute; reflexivity. Qed.

End CacheSpec.
