(* ===== verification/CacheVerdict.v ===== *)
(** Cache verdicts ([src/internal/cachemodel/anthropic.go], [openai.go]): the
    read a warm cache should report, how an actual read compares with it, and
    which causes of a broken prefix usage and timing alone can settle under
    each provider's published terms. *)

From S2P Require Import Prelude GoString GoFloat GoTime Transcript CacheRules CachePrices.
From Stdlib Require Import Ascii String.

Open Scope string_scope.
Open Scope Z_scope.

Module CacheVerdict.
Import Transcript CacheRules CachePrices.

(** ** [anthropic.go] *)

Definition ExpectedRead (prev : Usage) : Z := PromptTotal prev -! Input prev.

Inductive ReadOutcome := ReadFirst | ReadReproduced | ReadExceeded | ReadBroken.

#[export] Instance ReadOutcome_eq_dec : EqDecision ReadOutcome.
Proof. solve_decision. Defined.

Definition ClassifyRead (prev cur : Usage) : ReadOutcome * Z :=
  let expected := ExpectedRead prev in
  if CacheRead cur =? expected then (ReadReproduced, expected)
  else if expected <? CacheRead cur then (ReadExceeded, expected)
  else (ReadBroken, expected).

(** The vocabulary of causes; the source's constants are their texts. *)
Inductive BreakCause :=
| CauseTTLExpired
| CauseModelChanged
| CausePrefixChange
| CauseToolsChanged
| CauseSystemChanged
| CauseEffortChange
| CauseHistoryEdit
| CauseRerendered
| CauseUnknown
| CauseNotMeasured
| CauseNoRules
| CauseBelowMinPrefix.

#[export] Instance BreakCause_eq_dec : EqDecision BreakCause.
Proof. solve_decision. Defined.

Definition cause_text (c : BreakCause) : string :=
  match c with
  | CauseTTLExpired => "cache expired (gap longer than the TTL)"
  | CauseModelChanged => "model changed between requests"
  | CausePrefixChange => "system prompt or tool definitions changed"
  | CauseToolsChanged => "tool definitions changed"
  | CauseSystemChanged => "system prompt changed"
  | CauseEffortChange => "effort or thinking setting changed"
  | CauseHistoryEdit => "an earlier message was edited or removed"
  | CauseRerendered =>
      "client re-rendered history after the system prefix (no edit visible in transcript)"
  | CauseUnknown => "prefix diverged inside the message history at an unknown block"
  | CauseNotMeasured =>
      "NOT MEASURED (requests overlapped in this lane; the predecessor is not determined)"
  | CauseNoRules =>
      "NOT MEASURED (no published cache rules for this model; expiry and a prefix change cannot be told apart)"
  | CauseBelowMinPrefix =>
      "prompt below the provider's minimum cacheable prefix (nothing was cached, so nothing broke)"
  end.

(** The texts tell the causes apart. *)
Lemma cause_text_inj c d : cause_text c = cause_text d -> c = d.
Proof. destruct c, d; (reflexivity || (intros H; vm_compute in H; discriminate H)). Qed.

(** ** [openai.go] *)

Record CacheRules := mkCacheRules {
  cr_Provider : string;
  TTL : duration;
  TTLFrom : option (Usage -> duration);
  cr_MinPrefix : Z;
  EffortChangeBreaks : bool
}.

Definition ttlFor (r : CacheRules) (u : Usage) : duration :=
  match TTLFrom r with Some f => f u | None => TTL r end.

Definition AnthropicRules : CacheRules := mkCacheRules "anthropic" TTLShort (Some TTLOf) 0 true.

Definition TTLAstra : duration := 30 * minute.
Definition MinPrefixAstra : Z := 1024.

Definition AstraRules : CacheRules := mkCacheRules "openai" TTLAstra None MinPrefixAstra false.

Definition astraModelSubstring : string := "gpt-6-astra".

Definition RulesForModel (model : string) : CacheRules :=
  if contains (to_lower model) astraModelSubstring then AstraRules else AnthropicRules.

Definition ClassifyBreakWith (r : CacheRules) (prev cur : Usage) (prevModel model : string)
    (gap : duration) (prefixTokens : Z) : option BreakCause :=
  if (0 <? cr_MinPrefix r) && (0 <? prefixTokens) && (prefixTokens <? cr_MinPrefix r)
  then Some CauseBelowMinPrefix
  else if ttlFor r prev <? gap then Some CauseTTLExpired
  else if negb (String.eqb prevModel model) then Some CauseModelChanged
  else if CacheRead cur =? 0 then Some CausePrefixChange
  else None.

Definition ClassifyBreak (prev cur : Usage) (prevModel model : string) (gap : duration)
    : option BreakCause :=
  ClassifyBreakWith AnthropicRules prev cur prevModel model gap 0.

Definition HasRulesForModel (model : string) : bool :=
  contains (to_lower model) astraModelSubstring || negb (foreignModel model).

Definition ClassifyBreakForModel (prev cur : Usage) (prevModel model : string) (gap : duration)
    : option BreakCause :=
  if negb (HasRulesForModel prevModel) then
    if negb (String.eqb prevModel model) then Some CauseModelChanged
    else if CacheRead cur =? 0 then Some CauseNoRules
    else None
  else ClassifyBreakWith (RulesForModel prevModel) prev cur prevModel model gap 0.

Definition AstraRulesLabel : string := "OpenAI Astra rules read 2026-09-15".

Record label_scan := mkScan { saw_anthropic : bool; saw_astra : bool; none : list string }.

(** One turn of [RulesLabel]'s loop; [seen] holds exactly the names in [none]. *)
Definition label_step (s : label_scan) (m : string) : label_scan :=
  if contains (to_lower m) astraModelSubstring
  then mkScan (saw_anthropic s) true (none s)
  else if HasRulesForModel m then mkScan true (saw_astra s) (none s)
  else if existsb (String.eqb m) (none s) then s
  else mkScan (saw_anthropic s) (saw_astra s) (none s ++ [m])%list.

Definition string_le (a b : string) : Prop := String.leb a b = true.

#[export] Instance string_le_dec a b : Decision (string_le a b).
Proof. unfold string_le. apply _. Defined.

Definition RulesLabel (ov : option Rules) (models : list string) : string :=
  let s := fold_left label_step models (mkScan false false []) in
  let parts : list string :=
    ((if saw_anthropic s || (negb (saw_astra s) && (List.length (none s) =? 0)%nat)
      then [RulesVersionInEffect ov] else [])
     ++ (if saw_astra s then [AstraRulesLabel] else [])
     ++ (if (0 <? List.length (none s))%nat
         then [String.append "no published cache rules for "
                 (String.append (String.concat ", " (merge_sort string_le (none s)))
                    " (their break causes are not measured)")]
         else []))%list in
  String.concat " and " parts.

Definition TTLForModel (model : string) (u : Usage) : duration := ttlFor (RulesForModel model) u.

(** ** What the verdicts mean *)

Lemma ExpectedRead_exact u : usage_ok u -> ExpectedRead u = CacheCreation u + CacheRead u.
Proof. intros Hu. unfold ExpectedRead. rewrite PromptTotal_exact by done. destruct Hu. lia_int. Qed.

Lemma ClassifyRead_expected prev cur : (ClassifyRead prev cur).2 = ExpectedRead prev.
Proof. unfold ClassifyRead. by repeat case_match. Qed.

Lemma ClassifyRead_cases prev cur :
  match (ClassifyRead prev cur).1 with
  | ReadFirst => False
  | ReadReproduced => CacheRead cur = ExpectedRead prev
  | ReadExceeded => ExpectedRead prev < CacheRead cur
  | ReadBroken => CacheRead cur < ExpectedRead prev
  end.
Proof.
  unfold ClassifyRead.
  destruct (Z.eqb_spec (CacheRead cur) (ExpectedRead prev)); [done |].
  destruct (Z.ltb_spec (ExpectedRead prev) (CacheRead cur)); cbn; lia.
Qed.

(** The cache deadline a model's own published terms give, if any are held. *)
Definition deadline (model : string) (u : Usage) : option duration :=
  if contains (to_lower model) astraModelSubstring then Some TTLAstra
  else if foreignModel model then None
  else Some (if (0 <? Create1h u) && (Create5m u =? 0) then TTLLong else TTLShort).

Definition expired (prevModel : string) (prev : Usage) (gap : duration) : Prop :=
  match deadline prevModel prev with Some d => d < gap | None => False end.

Lemma expired_dec_spec prevModel prev gap :
  HasRulesForModel prevModel = true ->
  (ttlFor (RulesForModel prevModel) prev <? gap) = true <-> expired prevModel prev gap.
Proof.
  unfold HasRulesForModel, RulesForModel, expired, deadline. intros H.
  destruct (contains (to_lower prevModel) astraModelSubstring); cbn in H |- *;
    [by rewrite Z.ltb_lt |].
  destruct (foreignModel prevModel); cbn in H; [done |]. unfold TTLOf. by rewrite Z.ltb_lt.
Qed.

Lemma no_rules_deadline model u : HasRulesForModel model = false <-> deadline model u = None.
Proof.
  unfold HasRulesForModel, deadline.
  destruct (contains (to_lower model) astraModelSubstring); cbn; [done |].
  by destruct (foreignModel model).
Qed.

(** A break cause is decided under the terms of the provider that wrote
    the entry and never under another's.  Expiry is named exactly when the
    gap is beyond the deadline that model's provider publishes (thirty minutes
    for Astra, the bought five minutes or hour for Anthropic, none for a model
    without rules); short of that a change of model is named, then a read of
    nothing, as a prefix change where rules are held and as not measured where
    none are; in every other case the answer is left to the history. *)
Lemma ClassifyBreakForModel_spec :
  forall prev cur prevModel model gap,
    let v := ClassifyBreakForModel prev cur prevModel model gap in
    (v = Some CauseTTLExpired <-> expired prevModel prev gap) /\
    (v = Some CauseModelChanged <-> ~ expired prevModel prev gap /\ prevModel <> model) /\
    (v = Some CausePrefixChange <->
       ~ expired prevModel prev gap /\ prevModel = model /\ CacheRead cur = 0 /\
       deadline prevModel prev <> None) /\
    (v = Some CauseNoRules <->
       prevModel = model /\ CacheRead cur = 0 /\ deadline prevModel prev = None) /\
    (v = None <-> ~ expired prevModel prev gap /\ prevModel = model /\ CacheRead cur <> 0).
Proof.
  intros prev cur pm m gap v. subst v. unfold ClassifyBreakForModel.
  pose proof (expired_dec_spec pm prev gap) as He. pose proof (no_rules_deadline pm prev) as Hr.
  assert (deadline pm prev = None -> ~ expired pm prev gap) as Hn
    by (unfold expired; intros ->; auto).
  generalize dependent (expired pm prev gap). intros X He Hn.
  generalize dependent (deadline pm prev). intros dl Hr Hn.
  destruct (HasRulesForModel pm); cbn [negb].
  - assert (dl <> None) as Hd by (intros ?%Hr; discriminate). clear Hr Hn.
    unfold ClassifyBreakWith. rewrite andb_false_r. cbn [andb]. specialize (He eq_refl).
    destruct (ttlFor _ prev <? gap), (String.eqb_spec pm m), (Z.eqb_spec (CacheRead cur) 0);
      split_and!; naive_solver.
  - assert (dl = None) as -> by (by apply Hr). clear Hr He. specialize (Hn eq_refl).
    destruct (String.eqb_spec pm m), (Z.eqb_spec (CacheRead cur) 0); split_and!; naive_solver.
Qed.

End CacheVerdict.

(** What the price layer promises its clients.  The analysis and the live
    totals price requests through [cachemodel]; they are modelled and proved
    against this interface, and [cachemodel] is shown to implement it under
    any installed rules document. *)

Module Pricing.
Import Transcript CacheRules CachePrices.

(** Two usages a provider bills alike: they may differ in the thinking share
    of the output and in whether the write breakdown was reported. *)
Record same_billed (u v : Usage) : Prop := {
  sb_input : Input u = Input v;
  sb_creation : CacheCreation u = CacheCreation v;
  sb_read : CacheRead u = CacheRead v;
  sb_output : Output u = Output v;
  sb_5m : Create5m u = Create5m v;
  sb_1h : Create1h u = Create1h v
}.

#[export] Instance same_billed_equiv : Equivalence same_billed.
Proof.
  split.
  - by intros u.
  - intros u v []. by split.
  - intros u v w [] []. split; congruence.
Qed.

Class PriceLayer := {
  price_for_at : string -> time -> Price * bool;
  price_for : string -> Price * bool;
  effective_tokens : Usage -> string -> float64;
  min_cacheable_prefix : string -> Z;
  read_multiplier_for : string -> float64;

  (** Effective tokens are read off the billed counts alone. *)
  effective_tokens_billed : forall u v model,
    same_billed u v -> effective_tokens u model = effective_tokens v model;
  (** At no particular instant a model costs its current price. *)
  price_at_zero : forall model, price_for_at model zero_time = price_for model
}.

Lemma writeEquivalent_billed u v : same_billed u v -> writeEquivalent u = writeEquivalent v.
Proof. intros [_ Ec _ _ E5 E1]. unfold writeEquivalent. by rewrite Ec, E5, E1. Qed.

(** Every billed leg is read off the billed counts alone. *)
Lemma CostLegsUSD_billed u v p : same_billed u v -> CostLegsUSD u p = CostLegsUSD v p.
Proof.
  intros H. unfold CostLegsUSD. rewrite (writeEquivalent_billed u v H).
  destruct H as [-> _ -> -> _ _]. done.
Qed.

Lemma EffectiveTokens_billed ov u v model :
  same_billed u v -> EffectiveTokens ov u model = EffectiveTokens ov v model.
Proof.
  intros H. unfold EffectiveTokens. rewrite (writeEquivalent_billed u v H).
  destruct H as [-> _ -> _ _ _]. done.
Qed.

Program Definition cachemodel (ov : option Rules) : PriceLayer := {|
  price_for_at := PriceForAt ov;
  price_for := PriceFor ov;
  effective_tokens := EffectiveTokens ov;
  min_cacheable_prefix := MinCacheablePrefix ov;
  read_multiplier_for := ReadMultiplierFor ov
|}.
Next Obligation. intros. by apply EffectiveTokens_billed. Qed.
Next Obligation. done. Qed.

#[export] Instance same_billed_legs p : Proper (same_billed ==> eq) (fun u => CostLegsUSD u p).
Proof. intros u v H. by apply CostLegsUSD_billed. Qed.

End Pricing.
