(* ===== verification/Calibrate.v ===== *)
(** Calibration ([src/internal/analysis/calibrate.go]): every turn of a lane
    checked against the expected-read invariant, and the gate that decides
    whether alternatives may be scored. *)

From S2P Require Import Prelude GoString GoFloat GoTime Transcript CacheRules CachePrices CacheVerdict.
From Stdlib Require Import Ascii String.

Open Scope string_scope.
Open Scope Z_scope.

Module Calibrate.
Import Transcript CachePrices CacheVerdict.

Definition CalibrationThreshold : float64 := of_ratio 95 100.

Record Turn := mkTurn {
  Index : Z;
  turn_Request : Request;
  Previous : option Request;
  Outcome : ReadOutcome;
  Expected : Z;
  Actual : Z;
  Gap : duration;
  turn_Correlation : string
}.

Record Calibration := mkCalibration {
  cal_Lane : Lane;
  Turns : list Turn;
  Reproduced : Z;
  Exceeded : Z;
  Broken : Z
}.

Definition Compared (c : Calibration) : Z := Reproduced c +! Exceeded c +! Broken c.

Definition HasEvidence (c : Calibration) : bool := 0 <? Compared c.

Definition MatchRate (c : Calibration) : float64 :=
  if negb (HasEvidence c) then f0
  else (of_int (Reproduced c +! Exceeded c) / of_int (Compared c))%float.

Definition ExactRate (c : Calibration) : float64 :=
  if negb (HasEvidence c) then f0
  else (of_int (Reproduced c) / of_int (Compared c))%float.

Definition Passes (c : Calibration) : bool := fleb CalibrationThreshold (MatchRate c).

Definition correlationOf (prev cur : Request) : string :=
  if negb (String.eqb (Correlation cur) CorrelationUnmeasured) then Correlation cur
  else match req_Output prev with
       | Some out =>
           if negb (IsZero (msg_Timestamp out)) && Before (Timestamp cur) (msg_Timestamp out)
           then CorrelationLaneOverlap else CorrelationUnmeasured
       | None => CorrelationUnmeasured
       end.

Definition first_turn (req : Request) : Turn :=
  mkTurn 0 req None ReadFirst 0 (CacheRead (req_Usage req)) 0 "".

Definition next_turn (i : nat) (prev req : Request) : Turn :=
  let '(outcome, expected) := ClassifyRead (req_Usage prev) (req_Usage req) in
  mkTurn (Z.of_nat i) req (Some prev) outcome expected (CacheRead (req_Usage req))
    (Sub (Timestamp req) (Timestamp prev)) (correlationOf prev req).

Definition count_turn (c : Calibration) (t : Turn) : Calibration :=
  let '(r, e, b) := match Outcome t with
    | ReadReproduced => (Reproduced c +! 1, Exceeded c, Broken c)
    | ReadExceeded => (Reproduced c, Exceeded c +! 1, Broken c)
    | ReadBroken => (Reproduced c, Exceeded c, Broken c +! 1)
    | ReadFirst => (Reproduced c, Exceeded c, Broken c)
    end in
  mkCalibration (cal_Lane c) (Turns c ++ [t])%list r e b.

Fixpoint calibrate_rest (i : nat) (prev : Request) (reqs : list Request) (c : Calibration)
    : Calibration :=
  match reqs with
  | [] => c
  | req :: reqs' => calibrate_rest (S i) req reqs' (count_turn c (next_turn i prev req))
  end.

Definition Calibrate (lane : Lane) : Calibration :=
  let c := mkCalibration lane [] 0 0 0 in
  match Requests lane with
  | [] => c
  | req :: reqs => calibrate_rest 1 req reqs (count_turn c (first_turn req))
  end.

(** ** The turns of a calibration *)

(** The turns after the first, as a list. *)
Fixpoint next_turns (i : nat) (prev : Request) (reqs : list Request) : list Turn :=
  match reqs with
  | [] => []
  | req :: reqs' => next_turn i prev req :: next_turns (S i) req reqs'
  end.

Definition turns_of (reqs : list Request) : list Turn :=
  match reqs with
  | [] => []
  | req :: reqs' => first_turn req :: next_turns 1 req reqs'
  end.

Lemma calibrate_rest_fold i prev reqs c :
  calibrate_rest i prev reqs c = fold_left count_turn (next_turns i prev reqs) c.
Proof. revert i prev c. induction reqs as [|r reqs IH]; intros; cbn; auto. Qed.

Lemma Calibrate_fold lane :
  Calibrate lane = fold_left count_turn (turns_of (Requests lane)) (mkCalibration lane [] 0 0 0).
Proof.
  unfold Calibrate, turns_of. destruct (Requests lane); [done |]. by rewrite calibrate_rest_fold.
Qed.

Lemma count_turn_turns c t : Turns (count_turn c t) = (Turns c ++ [t])%list /\
  cal_Lane (count_turn c t) = cal_Lane c.
Proof. unfold count_turn. by destruct (Outcome t). Qed.

Lemma fold_count_turns ts : forall c,
  Turns (fold_left count_turn ts c) = (Turns c ++ ts)%list /\
  cal_Lane (fold_left count_turn ts c) = cal_Lane c.
Proof.
  induction ts as [|t ts IH]; intros c; cbn; [by rewrite app_nil_r |].
  destruct (IH (count_turn c t)) as [-> ->]. destruct (count_turn_turns c t) as [-> ->].
  by rewrite <- app_assoc.
Qed.

Lemma Calibrate_turns lane :
  Turns (Calibrate lane) = turns_of (Requests lane) /\ cal_Lane (Calibrate lane) = lane.
Proof. rewrite Calibrate_fold. apply fold_count_turns. Qed.

Lemma next_turns_length reqs : forall i prev, List.length (next_turns i prev reqs) = List.length reqs.
Proof. induction reqs; intros; cbn; auto. Qed.

Lemma turns_of_length reqs : List.length (turns_of reqs) = List.length reqs.
Proof. destruct reqs; cbn; [done |]. by rewrite next_turns_length. Qed.

(** How many turns of an outcome a list holds. *)
Definition outcome_count (o : ReadOutcome) (ts : list Turn) : Z :=
  Z.of_nat (List.length (filter (fun t => Outcome t = o) ts)).

Lemma outcome_count_cons o t ts :
  outcome_count o (t :: ts) = (if decide (Outcome t = o) then 1 else 0) + outcome_count o ts.
Proof. unfold outcome_count. rewrite filter_cons. case_decide; cbn; lia. Qed.

Lemma outcome_count_nonneg o ts : 0 <= outcome_count o ts.
Proof. unfold outcome_count. lia. Qed.

Lemma fold_count_tallies ts : forall c,
  0 <= Reproduced c -> 0 <= Exceeded c -> 0 <= Broken c ->
  Reproduced c + Exceeded c + Broken c + Z.of_nat (List.length ts) <= max_int64 ->
  Reproduced (fold_left count_turn ts c) = Reproduced c + outcome_count ReadReproduced ts /\
  Exceeded (fold_left count_turn ts c) = Exceeded c + outcome_count ReadExceeded ts /\
  Broken (fold_left count_turn ts c) = Broken c + outcome_count ReadBroken ts.
Proof.
  induction ts as [|t ts IH]; intros c Hr He Hb Hle.
  { cbn. unfold outcome_count. cbn. lia. }
  cbn [fold_left]. cbn [List.length] in Hle. rewrite Nat2Z.inj_succ in Hle. rewrite !outcome_count_cons.
  assert (forall x, 0 <= x <= Reproduced c + Exceeded c + Broken c -> x +! 1 = x + 1) as Hinc
    by (intros; lia_int).
  destruct (IH (count_turn c t)) as (-> & -> & ->);
    unfold count_turn; destruct (Outcome t); cbn; rewrite ?Hinc by lia; try lia;
    repeat case_decide; try done; lia.
Qed.

Lemma turns_outcomes reqs :
  outcome_count ReadReproduced (turns_of reqs) + outcome_count ReadExceeded (turns_of reqs)
  + outcome_count ReadBroken (turns_of reqs) = Z.max 0 (Z.of_nat (List.length reqs) - 1).
Proof.
  destruct reqs as [|r reqs]; [done |]. cbn [turns_of].
  rewrite !outcome_count_cons.
  assert (forall reqs i prev,
    outcome_count ReadReproduced (next_turns i prev reqs)
    + outcome_count ReadExceeded (next_turns i prev reqs)
    + outcome_count ReadBroken (next_turns i prev reqs) = Z.of_nat (List.length reqs)) as Hn.
  { clear. induction reqs as [|r reqs IH]; intros i prev; [done |].
    cbn [next_turns List.length]. rewrite !outcome_count_cons, Nat2Z.inj_succ.
    specialize (IH (S i) r). unfold next_turn.
    pose proof (ClassifyRead_cases (req_Usage prev) (req_Usage r)) as Hc.
    destruct (ClassifyRead (req_Usage prev) (req_Usage r)) as [o e]. cbn [fst Outcome] in *.
    destruct o; try done; repeat case_decide; try done; lia. }
  specialize (Hn reqs 1%nat r). cbn [List.length first_turn Outcome]. rewrite Nat2Z.inj_succ.
  repeat case_decide; try done; lia.
Qed.

Lemma next_turn_request i prev req : turn_Request (next_turn i prev req) = req.
Proof. unfold next_turn. by destruct (ClassifyRead _ _). Qed.

Lemma next_turn_previous i prev req :
  Previous (next_turn i prev req) = Some prev /\ Outcome (next_turn i prev req) <> ReadFirst.
Proof.
  unfold next_turn. pose proof (ClassifyRead_cases (req_Usage prev) (req_Usage req)) as Hc.
  destruct (ClassifyRead _ _) as [o e]. cbn in *. split; [done |]. by intros ->.
Qed.

Lemma turns_of_requests reqs : List.map turn_Request (turns_of reqs) = reqs.
Proof.
  destruct reqs as [|r reqs]; [done |]. cbn. f_equal.
  generalize 1%nat as i. revert r. induction reqs as [|r' reqs IH]; intros r i; [done |].
  cbn. by rewrite next_turn_request, IH.
Qed.

Lemma next_turns_lookup reqs : forall i prev k t,
  next_turns i prev reqs !! k = Some t ->
  exists req, reqs !! k = Some req /\ (prev :: reqs) !! k = Previous t /\
    t = next_turn (i + k) (default prev (Previous t)) req.
Proof.
  induction reqs as [|r reqs IH]; intros i prev k t Hk; [done |].
  destruct k as [|k]; cbn in Hk.
  - injection Hk as <-. exists r. destruct (next_turn_previous i prev r) as [E _].
    rewrite E, Nat.add_0_r. done.
  - destruct (IH (S i) r k t Hk) as (req & Hr & Hp & Ht). exists req. split_and!; [done | done |].
    replace (i + S k)%nat with (S i + k)%nat by lia.
    destruct (Previous t); [exact Ht |]. exfalso.
    apply lookup_lt_Some in Hr. apply lookup_ge_None in Hp. cbn in Hp. lia.
Qed.

Lemma turns_of_previous reqs i t :
  turns_of reqs !! i = Some t ->
  Previous t = match i with O => None | S j => reqs !! j end /\ (Outcome t = ReadFirst <-> i = O).
Proof.
  destruct reqs as [|r reqs]; [done |]. destruct i as [|i]; cbn.
  - by intros [= <-].
  - intros Hi. destruct (next_turns_lookup reqs 1 r i t Hi) as (req & Hr & Hp & Ht).
    split; [done |]. split; [| done]. intros Ho. exfalso. rewrite Ht in Ho.
    by apply next_turn_previous in Ho.
Qed.

(** Without evidence the rate is zero, and zero is below the threshold. *)
Lemma no_evidence_fails c : HasEvidence c = false -> Passes c = false.
Proof. unfold Passes, MatchRate. intros ->. vm_compute. reflexivity. Qed.

(** Calibration accounts for every turn exactly once.  A lane of n
    requests gives n turns in order, the first compared with nothing and every
    other with the one before it; the three counters are the numbers of turns
    with each outcome and sum to n - 1, so a lane of one request offers no
    evidence and cannot pass. *)
Lemma Calibrate_accounts_for_every_turn :
  forall lane,
    Z.of_nat (List.length (Requests lane)) <= max_int64 ->
    let c := Calibrate lane in
    List.map turn_Request (Turns c) = Requests lane /\
    (forall i t, Turns c !! i = Some t ->
       Previous t = match i with O => None | S j => Requests lane !! j end /\
       (Outcome t = ReadFirst <-> i = O)) /\
    Reproduced c = outcome_count ReadReproduced (Turns c) /\
    Exceeded c = outcome_count ReadExceeded (Turns c) /\
    Broken c = outcome_count ReadBroken (Turns c) /\
    Compared c = Z.max 0 (Z.of_nat (List.length (Requests lane)) - 1) /\
    ((List.length (Requests lane) <= 1)%nat -> Passes c = false).
Proof.
  intros lane Hlen c. subst c.
  destruct (Calibrate_turns lane) as [Ht Hl].
  assert (0 <= 0) as Hz by lia.
  destruct (fold_count_tallies (turns_of (Requests lane)) (mkCalibration lane [] 0 0 0) Hz Hz Hz)
    as (Hr & He & Hb).
  { rewrite turns_of_length. cbn. lia. }
  rewrite <- Calibrate_fold in Hr, He, Hb. cbn in Hr, He, Hb.
  assert (Compared (Calibrate lane) = Z.max 0 (Z.of_nat (List.length (Requests lane)) - 1)) as Hc.
  { pose proof (turns_outcomes (Requests lane)) as Hsum.
    pose proof (outcome_count_nonneg ReadReproduced (turns_of (Requests lane))).
    pose proof (outcome_count_nonneg ReadExceeded (turns_of (Requests lane))).
    pose proof (outcome_count_nonneg ReadBroken (turns_of (Requests lane))).
    unfold Compared. rewrite Hr, He, Hb. lia_int. }
  rewrite Ht. split_and!; [apply turns_of_requests | | lia | lia | lia | done |].
  - intros i t Hi. by apply turns_of_previous.
  - intros Hle. apply no_evidence_fails. unfold HasEvidence. apply Z.ltb_ge. lia.
Qed.

Lemma Calibrate_accounts_for_every_turn_witness :
  Compared (Calibrate (mkLane "l" false false [])) = 0.
Proof.
  refine (proj1 (proj2 (proj2 (proj2 (proj2 (proj2
    (Calibrate_accounts_for_every_turn (mkLane "l" false false []) _))))))).
  vm_compute. discriminate.
Defined.

End Calibrate.
