(* ===== verification/Fit.v ===== *)
(** The byte-to-token fit ([src/internal/analysis/fit.go], [pool.go]): token
    counts that remember their provenance, what each turn added to a lane, and
    the ratio and spread fitted on them. *)

From S2P Require Import Prelude GoString GoFloat GoTime Transcript CacheRules CachePrices.
From S2P Require Import CacheVerdict Calibrate.
From Stdlib Require Import Ascii String.

Open Scope string_scope.
Open Scope Z_scope.

Module Fit.
Import Transcript CachePrices CacheVerdict Calibrate.

Record Tokens := mkTokens { Measured : Z; Estimated : Z }.

Definition measured (n : Z) : Tokens := mkTokens n 0.
Definition estimated (n : Z) : Tokens := mkTokens 0 n.

Definition Total (t : Tokens) : Z := Measured t +! Estimated t.

Definition Tokens_Add (t o : Tokens) : Tokens :=
  mkTokens (Measured t +! Measured o) (Estimated t +! Estimated o).

Definition Times (t : Tokens) (n : Z) : Tokens := mkTokens (Measured t *! n) (Estimated t *! n).

Record Figure := mkFigure { Value : Z; Error : Z; fig_ErrorMeasured : bool }.

Record TokenFit := mkFit {
  TokensPerByte : float64;
  RelativeError : float64;
  fit_Turns : Z;
  UnseenPrefix : Tokens;
  Injected : Tokens
}.

Definition DefaultTokensPerByte : float64 := of_ratio 25 100.
Definition minFitBytes : Z := 512.
Definition minFitTurns : Z := 2.

Definition EstimateTokens (f : TokenFit) (bytes : Z) : Z :=
  round_to_int (of_int bytes * TokensPerByte f)%float.

Definition ErrorMeasured (f : TokenFit) : bool := minFitTurns <=? fit_Turns f.

Definition EstimateOutsideFit (f : TokenFit) (bytes : Z) : Figure :=
  mkFigure (EstimateTokens f bytes) 0 false.

Definition figure (f : TokenFit) (t : Tokens) : Figure :=
  mkFigure (Total t) (round_to_int (of_int (Estimated t) * RelativeError f)%float)
    ((Estimated t =? 0) || ErrorMeasured f).

(** ** What a turn added *)

Record turnContent := mkContent {
  tc_blocks : list Block;
  userBlocks : list Block;
  userBytes : Z;
  prefixChanged : bool;
  newTokens : Z;
  rebillTokens : Z
}.

Definition markSeen (seen : gset string) (req : Request) : gset string :=
  fold_left (fun s m => {[UUID m]} ∪ s) (Context req) seen.

Record split_state := mkSplit {
  sp_seen : gset string;
  sp_blocks : list Block;
  sp_user : list Block;
  sp_bytes : Z;
  sp_changed : bool
}.

(** One message of the current request's context. *)
Definition split_step (prevLen : nat) (s : split_state) (im : nat * Message) : split_state :=
  let '(i, m) := im in
  if bool_decide (UUID m ∈ sp_seen s) then s
  else
    let seen := {[UUID m]} ∪ sp_seen s in
    let changed := sp_changed s || (i <? prevLen)%nat in
    if String.eqb (Role m) RoleAssistant
    then mkSplit seen (sp_blocks s) (sp_user s) (sp_bytes s) changed
    else if String.eqb (Role m) RoleUser
    then mkSplit seen (sp_blocks s ++ Blocks m) (sp_user s ++ Blocks m)
           (sp_bytes s +! Message_Bytes m) changed
    else mkSplit seen (sp_blocks s ++ Blocks m) (sp_user s) (sp_bytes s) changed.

(** The tokens this turn wrote beyond the history it re-wrote: the rebilled
    part and the new part. *)
Definition split_tokens (t : Turn) (prev : Request) : Z * Z :=
  let cu := req_Usage (turn_Request t) in
  let pu := req_Usage prev in
  let written := CacheCreation cu +! Input cu -! Input pu in
  let rebill := if decide (Outcome t = ReadBroken)
                then Z.min (Expected t -! Actual t) written else 0 in
  let written := written -! rebill +! Z.max (Actual t -! Expected t) 0 in
  (rebill, Z.max (written -! Output pu) 0).

Definition splitTurn (t : Turn) (prev : Request) (seen : gset string) : turnContent * gset string :=
  let s := fold_left (split_step (List.length (Context prev)))
             (indexed (Context (turn_Request t))) (mkSplit seen [] [] 0 false) in
  let '(rebill, new) := split_tokens t prev in
  (mkContent (sp_blocks s) (sp_user s) (sp_bytes s) (sp_changed s) new rebill, sp_seen s).

(** ** The fit *)

Record sample := mkSample { ratio : float64; weight : float64 }.

Record fit_state := mkFitState {
  sumBytes : float64;
  sumTokens : float64;
  samples : list sample;
  fit_seen : gset string
}.

(** One turn of [Fit]'s loop; [None] is the nil dereference of a compared turn
    without a predecessor, which [Calibrate] never produces. *)
Definition fit_step (st : option fit_state) (t : Turn) : option fit_state :=
  s ← st;
  match Outcome t, Previous t with
  | ReadFirst, _ =>
      Some (mkFitState (sumBytes s) (sumTokens s) (samples s) (markSeen (fit_seen s) (turn_Request t)))
  | _, None => None
  | o, Some prev =>
      let '(tc, seen) := splitTurn t prev (fit_seen s) in
      let skip := mkFitState (sumBytes s) (sumTokens s) (samples s) seen in
      Some (if decide (o <> ReadReproduced) then skip
            else if prefixChanged tc then skip
            else if (userBytes tc <? minFitBytes) || (newTokens tc <=? 0) then skip
            else mkFitState (sumBytes s + of_int (userBytes tc))%float
                   (sumTokens s + of_int (newTokens tc))%float
                   (samples s ++ [mkSample (of_int (newTokens tc) / of_int (userBytes tc))%float
                                    (of_int (userBytes tc))])
                   seen)
  end.

Definition weightedSpread (ss : list sample) (mean : float64) : float64 :=
  if (List.length ss <? 2)%nat || feqb mean f0 then of_int 1
  else
    let '(sq, sw) := fold_left (fun '(sq, sw) s =>
        let d := (ratio s - mean)%float in
        ((sq + weight s * d * d)%float, (sw + weight s)%float)) ss (f0, f0) in
    if feqb sw f0 then of_int 1 else (fsqrt (sq / sw) / mean)%float.

Definition with_unseen (fit : TokenFit) (first : Request) : TokenFit :=
  let u := req_Usage first in
  let seen := fold_left (fun n m => n +! Message_Bytes m) (Context first) 0 in
  let visible := EstimateTokens fit seen in
  if 0 <? CacheRead u
  then mkFit (TokensPerByte fit) (RelativeError fit) (fit_Turns fit) (measured (CacheRead u))
         (estimated (Z.max (PromptTotal u -! CacheRead u -! visible) 0))
  else mkFit (TokensPerByte fit) (RelativeError fit) (fit_Turns fit)
         (estimated (Z.max (PromptTotal u -! visible) 0)) (Injected fit).

Definition Fit (cal : Calibration) (prefixVisible : bool) : option TokenFit :=
  let reqs := Requests (cal_Lane cal) in
  let seen := match reqs with [] => ∅ | r :: _ => markSeen ∅ r end in
  s ← fold_left fit_step (Turns cal) (Some (mkFitState f0 f0 [] seen));
  let n := Z.of_nat (List.length (samples s)) in
  let fit :=
    if feqb (sumBytes s) f0
    then mkFit DefaultTokensPerByte (of_int 1) n (measured 0) (measured 0)
    else let tpb := (sumTokens s / sumBytes s)%float in
         mkFit tpb (weightedSpread (samples s) tpb) n (measured 0) (measured 0) in
  Some (match reqs with
        | first :: _ => if prefixVisible then fit else with_unseen fit first
        | [] => fit
        end).

(** ** [pool.go] *)

Record FitSample := mkFitSample {
  fs_TokensPerByte : float64;
  fs_Turns : Z;
  fs_RelativeError : float64
}.

Definition countWeighted (l : list FitSample) : Z :=
  fold_left (fun n s => if 0 <? fs_Turns s then n +! 1 else n) l 0.

Definition firstError (l : list FitSample) : float64 :=
  match find_first (fun s => 0 <? fs_Turns s) l with Some s => fs_RelativeError s | None => f0 end.

Definition PoolFits (l : list FitSample) : TokenFit :=
  let '(sumW, sumRW, turns) := fold_left (fun '(sumW, sumRW, turns) s =>
      let w := of_int (fs_Turns s) in
      if fleb w f0 then (sumW, sumRW, turns)
      else ((sumW + w)%float, (sumRW + fs_TokensPerByte s * w)%float, turns +! fs_Turns s))
    l (f0, f0, 0) in
  if feqb sumW f0 then mkFit f0 (of_int 1) 0 (measured 0) (measured 0)
  else
    let mean := (sumRW / sumW)%float in
    let with_error e := mkFit mean e turns (measured 0) (measured 0) in
    if countWeighted l <? 2 then
      let e := firstError l in with_error (if feqb e f0 then of_int 1 else e)
    else
      let ss := fold_left (fun ss s =>
          let w := of_int (fs_Turns s) in
          if fleb w f0 then ss
          else let d := (fs_TokensPerByte s - mean)%float in (ss + w * d * d)%float) l f0 in
      if feqb mean f0 then with_error (of_int 1)
      else
        let spread := (fsqrt (ss / sumW) / mean)%float in
        let sumW2 := fold_left (fun n s =>
            let w := of_int (fs_Turns s) in
            if fltb f0 w then (n + w * w)%float else n) l f0 in
        let nEff := (sumW * sumW / sumW2)%float in
        let nEff := if fltb nEff (of_int 1) then of_int 1 else nEff in
        with_error (spread / fsqrt nEff)%float.

End Fit.
