(* ===== verification/Replay.v ===== *)
(** Replaying a lane under another cache policy
    ([src/internal/analysis/replay.go]): the tally every
    report prices with, the provider-cache simulator, the TTL replay and the
    context-editing replay.

    The Go code indexes slices it believes are parallel and reads through a
    predecessor it believes is there; both are kept as [option], [None] being
    the panic.  Display strings of [PolicyResult] are left out. *)

From S2P Require Import Prelude GoString GoFloat GoTime Transcript CacheRules CachePrices CacheVerdict.
From S2P Require Import Calibrate Fit.
From Stdlib Require Import Ascii String.

Open Scope string_scope.
Open Scope Z_scope.

Module Replay.
Import Transcript CachePrices CacheVerdict Pricing Calibrate Fit.

Record Tally := mkTally {
  t_Requests : Z;
  PromptTokens : Z;
  Reads : Z;
  Writes : Z;
  t_Output : Z;
  t_EffectiveTokens : float64;
  t_CostUSD : float64;
  PricedRequests : Z;
  UnpricedRequests : Z;
  UncachedUSD : float64;
  WriteUSD : float64;
  ReadUSD : float64;
  OutputUSD : float64;
  WriteAssumed : Z;
  Misses : Z
}.

Definition zero_tally : Tally := mkTally 0 0 0 0 0 f0 f0 0 0 f0 f0 f0 f0 0 0.

Section replay.
Context `{PL : PriceLayer}.

Definition AddAt (t : Tally) (u : Usage) (model : string) (at_ : time) : Tally :=
  let misses := if (0 <? t_Requests t) && (CacheRead u =? 0) then Misses t +! 1 else Misses t in
  let requests := t_Requests t +! 1 in
  let prompt := PromptTokens t +! PromptTotal u in
  let reads := Reads t +! CacheRead u in
  let writes := Writes t +! CacheCreation u in
  let output := t_Output t +! Output u in
  let effective := (t_EffectiveTokens t + effective_tokens u model)%float in
  match price_for_at model at_ with
  | (p, true) =>
      let legs := CostLegsUSD u p in
      mkTally requests prompt reads writes output effective
        (t_CostUSD t + Legs_Total legs)%float
        (PricedRequests t +! 1) (UnpricedRequests t)
        (UncachedUSD t + Uncached legs)%float (WriteUSD t + Write legs)%float
        (ReadUSD t + Read legs)%float (OutputUSD t + leg_Output legs)%float
        (if WriteBasisAssumed u then WriteAssumed t +! 1 else WriteAssumed t) misses
  | (_, false) =>
      mkTally requests prompt reads writes output effective (t_CostUSD t)
        (PricedRequests t) (UnpricedRequests t +! 1)
        (UncachedUSD t) (WriteUSD t) (ReadUSD t) (OutputUSD t) (WriteAssumed t) misses
  end.

Definition Add (t : Tally) (u : Usage) (model : string) : Tally := AddAt t u model zero_time.

Definition PricedShare (t : Tally) : float64 :=
  let n := PricedRequests t +! UnpricedRequests t in
  if n =? 0 then f0 else (of_int (PricedRequests t) / of_int n)%float.

Definition Tally_CachedShare (t : Tally) : float64 := CachedShare (Reads t) (PromptTokens t).

Definition add_request (t : Tally) (req : Request) : Tally :=
  AddAt t (req_Usage req) (Model req) (Timestamp req).

Definition AsRun (lane : Lane) : Tally := fold_left add_request (Requests lane) zero_tally.

(** ** The simulated provider cache *)

Record cacheState := mkCache {
  prefix : Z;
  lastTouch : time;
  ttl : duration;
  cs_minPrefix : Z
}.

Definition newCacheState (lane : Lane) (ttl : duration) : cacheState :=
  match Requests lane with
  | [] => mkCache 0 zero_time ttl 0
  | first :: _ => mkCache (CacheRead (req_Usage first)) (Timestamp first) ttl
                    (min_cacheable_prefix (Model first))
  end.

Definition serve (c : cacheState) (at_ : time) (prompt tail observed : Z) : Z * Z * cacheState :=
  let cacheable := prompt -! tail in
  let warm := (0 <? prefix c) && (Sub at_ (lastTouch c) <=? ttl c) && (cs_minPrefix c <=? cacheable) in
  let read := if negb warm then 0
              else if 0 <=? observed then Z.min observed cacheable
              else Z.min (prefix c) cacheable in
  (read, cacheable -! read, mkCache cacheable at_ (ttl c) (cs_minPrefix c)).

Definition observed_of (t : Turn) : option Z :=
  match Outcome t with
  | ReadExceeded => Some (Actual t)
  | ReadBroken =>
      prev ← Previous t;
      Some (if Gap t <=? TTLOf (req_Usage prev) then Actual t else -1)
  | _ => Some (-1)
  end.

Definition observedAvailability (cal : Calibration) : option (list Z) := mapM observed_of (Turns cal).

(** One turn of [WithTTL]'s loop. *)
Definition ttl_step (ttl : duration) (available : list Z) (st : option (Tally * cacheState))
    (ir : nat * Request) : option (Tally * cacheState) :=
  '(r, state) ← st;
  let '(i, req) := ir in
  let u := req_Usage req in
  obs ← available !! i;
  let '(read, write, state') := serve state (Timestamp req) (PromptTotal u) (Input u) obs in
  Some (AddAt r (SimulatedUsage (Input u) write read (Output u) ttl) (Model req) (Timestamp req), state').

Definition WithTTL (cal : Calibration) (ttl : duration) : option Tally :=
  let lane := cal_Lane cal in
  available ← observedAvailability cal;
  fst <$> fold_left (ttl_step ttl available) (indexed (Requests lane))
            (Some (zero_tally, newCacheState lane ttl)).

(** ** Context editing *)

Record ContextEditPolicy := mkEdit { KeepLast : Z; TriggerTokens : Z }.

Definition ClearHysteresis : float64 := of_ratio 25 100.

Definition blockKey : Set := string * nat.

Record slot := mkSlot { slot_key : blockKey; slot_tokens : Z; slot_offset : Z }.

Record slots_state := mkSlots { results : list slot; offset : Z; removed : Z }.

Definition scan_block (fit : TokenFit) (cleared : gset blockKey) (uuid : string)
    (s : slots_state) (ib : nat * Block) : slots_state :=
  let '(bi, b) := ib in
  let size := EstimateTokens fit (Bytes b) in
  if String.eqb (Kind b) KindToolResult then
    let key := (uuid, bi) in
    if bool_decide (key ∈ cleared) then mkSlots (results s) (offset s) (removed s +! size)
    else mkSlots (results s ++ [mkSlot key size (offset s)]) (offset s +! size) (removed s)
  else mkSlots (results s) (offset s +! size) (removed s).

Definition scan_context (fit : TokenFit) (cleared : gset blockKey) (ctx : list Message) : slots_state :=
  fold_left (fun s m => fold_left (scan_block fit cleared (UUID m)) (indexed (Blocks m)) s) ctx
    (mkSlots [] (Total (UnseenPrefix fit)) 0).

(** The clearing loop; it indexes [results[0]], which panics when a negative
    [KeepLast] lets it run past the last result. *)
Fixpoint clear_oldest (keep target : Z) (rs : list slot) (cleared : gset blockKey)
    (prompt invalidateFrom : Z) : option (gset blockKey * Z * Z) :=
  if (keep <? Z.of_nat (List.length rs)) && (target <? prompt) then
    match rs with
    | [] => None
    | v :: rs' => clear_oldest keep target rs' ({[slot_key v]} ∪ cleared) (prompt -! slot_tokens v)
                    (if invalidateFrom <? 0 then slot_offset v else invalidateFrom)
    end
  else Some (cleared, prompt, invalidateFrom).

Definition edit_target (trigger : Z) : Z :=
  to_int (of_int trigger * (of_int 1 - ClearHysteresis))%float.

Definition clear_context (p : ContextEditPolicy) (fit : TokenFit) (cleared : gset blockKey)
    (ctx : list Message) (prompt : Z) : option (gset blockKey * Z * Z) :=
  let s := scan_context fit cleared ctx in
  let prompt := prompt -! removed s in
  if (TriggerTokens p <? prompt) && (KeepLast p <? Z.of_nat (List.length (results s)))
  then clear_oldest (KeepLast p) (edit_target (TriggerTokens p)) (results s) cleared prompt (-1)
  else Some (cleared, prompt, -1).

Record edit_state := mkEditState {
  es_tally : Tally;
  es_cache : cacheState;
  es_cleared : gset blockKey
}.

(** The usage one turn of the context-editing replay simulates. *)
Definition edit_usage (c : cacheState) (at_ : time) (u : Usage) (prompt obs invalidateFrom : Z)
    : Usage * cacheState :=
  let tail := Input u in
  let '(read, write, c') := serve c at_ prompt tail obs in
  if (0 <=? invalidateFrom) && (invalidateFrom <? read)
  then (SimulatedUsage tail (write +! (read -! invalidateFrom)) invalidateFrom (Output u) (ttl c'),
        mkCache (prompt -! tail) (lastTouch c') (ttl c') (cs_minPrefix c'))
  else (SimulatedUsage tail write read (Output u) (ttl c'), c').

Definition edit_step (p : ContextEditPolicy) (fit : TokenFit) (available : list Z)
    (st : option edit_state) (ir : nat * Request) : option edit_state :=
  s ← st;
  let '(i, req) := ir in
  let u := req_Usage req in
  let c := mkCache (prefix (es_cache s)) (lastTouch (es_cache s)) (TTLOf u)
             (cs_minPrefix (es_cache s)) in
  '(cleared, prompt, inv) ← clear_context p fit (es_cleared s) (Context req) (PromptTotal u);
  obs ← available !! i;
  let '(sim, c') := edit_usage c (Timestamp req) u prompt obs inv in
  Some (mkEditState (AddAt (es_tally s) sim (Model req) (Timestamp req)) c' cleared).

Definition WithContextEdit (cal : Calibration) (p : ContextEditPolicy) (fit : TokenFit)
    : option Tally :=
  let lane := cal_Lane cal in
  available ← observedAvailability cal;
  es_tally <$> fold_left (edit_step p fit available) (indexed (Requests lane))
            (Some (mkEditState zero_tally (newCacheState lane TTLShort) ∅)).

End replay.

End Replay.

(** What a replay may claim: a tally covers every request it was given, the
    simulated cache never serves more than there is, a TTL replay bills the
    same prompts as the session that ran, and under the session's own TTL it
    reproduces the session to the cent. *)

Module ReplaySpec.
Import Transcript CachePrices CacheVerdict Pricing Calibrate Fit Replay.

(** ** Sums modulo 2^64 *)

Definition total {A} (f : A -> Z) (l : list A) : Z := fold_right (fun x n => f x + n) 0 l.

Lemma total_snoc {A} (f : A -> Z) l x : total f (l ++ [x])%list = total f l + f x.
Proof. unfold total. induction l as [|y l IH]; cbn; [lia |]. rewrite IH. lia. Qed.

Lemma total_map {A B} (g : A -> B) (f : B -> Z) l : total f (List.map g l) = total (fun x => f (g x)) l.
Proof. induction l as [|x l IH]; [done |]. unfold total in *. cbn. by rewrite IH. Qed.

Lemma iadd_wrap_l a b : wrap64 a +! b = wrap64 (a + b).
Proof. unfold iadd. apply wrap64_add_l. Qed.

Section tally.
Context `{PL : PriceLayer}.

(** One observed request: what was billed, for which model, when. *)
Definition billed : Type := Usage * string * time.

Definition b_usage (b : billed) : Usage := b.1.1.

Definition is_priced (b : billed) : bool := (price_for_at b.1.2 b.2).2.

Definition tally (l : list billed) : Tally :=
  fold_left (fun t b => AddAt t (b_usage b) b.1.2 b.2) l zero_tally.

Lemma tally_snoc l b : tally (l ++ [b])%list = AddAt (tally l) (b_usage b) b.1.2 b.2.
Proof. unfold tally. by rewrite fold_left_app. Qed.

Lemma AddAt_counts t u model at_ :
  let t' := AddAt t u model at_ in
  t_Requests t' = t_Requests t +! 1 /\ PromptTokens t' = PromptTokens t +! PromptTotal u /\
  Reads t' = Reads t +! CacheRead u /\ Writes t' = Writes t +! CacheCreation u /\
  t_Output t' = t_Output t +! Output u /\
  PricedRequests t' = (if (price_for_at model at_).2 then PricedRequests t +! 1 else PricedRequests t) /\
  UnpricedRequests t' = (if (price_for_at model at_).2 then UnpricedRequests t
                         else UnpricedRequests t +! 1).
Proof. unfold AddAt. destruct (price_for_at model at_) as [p []]; cbn; split_and!; reflexivity. Qed.

(** A tally covers exactly the requests it was given.  Every count is the
    sum over them (in 64-bit arithmetic), the cost speaks of exactly the
    requests that priced, and priced and unpriced requests together are all of
    them: no request is counted without saying whether its price is in the
    cost. *)
Lemma tally_covers_every_request :
  forall l : list billed,
    let t := tally l in
    t_Requests t = wrap64 (Z.of_nat (List.length l)) /\
    PromptTokens t = wrap64 (total (fun b => PromptTotal (b_usage b)) l) /\
    Reads t = wrap64 (total (fun b => CacheRead (b_usage b)) l) /\
    Writes t = wrap64 (total (fun b => CacheCreation (b_usage b)) l) /\
    t_Output t = wrap64 (total (fun b => Output (b_usage b)) l) /\
    PricedRequests t = wrap64 (total (fun b => if is_priced b then 1 else 0) l) /\
    UnpricedRequests t = wrap64 (total (fun b => if is_priced b then 0 else 1) l) /\
    PricedRequests t +! UnpricedRequests t = t_Requests t.
Proof.
  intros l t. subst t.
  assert (forall l, let t := tally l in
    t_Requests t = wrap64 (Z.of_nat (List.length l)) /\
    PromptTokens t = wrap64 (total (fun b => PromptTotal (b_usage b)) l) /\
    Reads t = wrap64 (total (fun b => CacheRead (b_usage b)) l) /\
    Writes t = wrap64 (total (fun b => CacheCreation (b_usage b)) l) /\
    t_Output t = wrap64 (total (fun b => Output (b_usage b)) l) /\
    PricedRequests t = wrap64 (total (fun b => if is_priced b then 1 else 0) l) /\
    UnpricedRequests t = wrap64 (total (fun b => if is_priced b then 0 else 1) l)) as Hsum.
  { clear l. intros l. cbv zeta. induction l as [|b l IH] using rev_ind; [done |].
    rewrite tally_snoc. cbv zeta in IH. destruct IH as (H1 & H2 & H3 & H4 & H5 & H6 & H7).
    destruct (AddAt_counts (tally l) (b_usage b) b.1.2 b.2)
      as (-> & -> & -> & -> & -> & -> & ->).
    rewrite !total_snoc, length_app, Nat2Z.inj_add, H1, H2, H3, H4, H5, H6, H7. cbn [List.length].
    unfold is_priced. destruct (price_for_at b.1.2 b.2).2; rewrite ?Z.add_0_r, !iadd_wrap_l;
      split_and!; reflexivity. }
  destruct (Hsum l) as (H1 & H2 & H3 & H4 & H5 & H6 & H7). split_and!; auto.
  rewrite H1, H6, H7. unfold iadd. rewrite wrap64_add_l, wrap64_add_r. f_equal.
  clear. unfold total. induction l as [|b l IH]; [done |]. cbn [fold_right List.length].
  rewrite Nat2Z.inj_succ. destruct (is_priced b); lia.
Qed.

(** ** The simulated cache *)

(** The simulated cache never serves more than there is.  Every request's
    cacheable prefix is split into a read and a write, neither negative; a
    read happens only from a warm entry (something was cached, it was touched
    within the TTL, the prefix reaches the model's minimum), never beyond what
    the entry or the observed session had readable; and serving touches the
    entry and leaves exactly the new prefix in it. *)
Lemma serve_sound :
  forall c at_ prompt tail obs,
    0 <= tail <= prompt -> prompt <= max_int64 ->
    let '(read, write, c') := serve c at_ prompt tail obs in
    0 <= read /\ 0 <= write /\ read + write = prompt - tail /\
    (0 < read -> 0 < prefix c /\ Sub at_ (lastTouch c) <= ttl c /\ cs_minPrefix c <= prompt - tail /\
                 read <= (if 0 <=? obs then obs else prefix c)) /\
    prefix c' = prompt - tail /\ lastTouch c' = at_ /\ ttl c' = ttl c /\
    cs_minPrefix c' = cs_minPrefix c.
Proof.
  intros c at_ prompt tail obs Ht Hp. unfold serve. cbn.
  assert (prompt -! tail = prompt - tail) as -> by lia_int.
  assert (0 <= prompt - tail <= max_int64) as Hk by lia. revert Hk.
  generalize (prompt - tail) as k. intros k Hk.
  assert (forall r, 0 <= r <= k -> k -! r = k - r) as Hsub by (intros; lia_int).
  destruct ((0 <? prefix c) && (Sub at_ (lastTouch c) <=? ttl c) && (cs_minPrefix c <=? k)) eqn:W;
    cbn [negb].
  - reflect_bool. destruct (Z.leb_spec 0 obs); rewrite Hsub by lia; split_and!; try done; lia.
  - rewrite Hsub by lia. split_and!; try done; lia.
Qed.

Lemma serve_sound_witness :
  5000 + 900 = 6000 - 100 /\
  (serve (mkCache 5000 0 TTLShort 1024) second 6000 100 (-1)).1 = (5000, 900).
Proof.
  split; [| vm_compute; reflexivity].
  refine (proj1 (proj2 (proj2
    (serve_sound (mkCache 5000 0 TTLShort 1024) second 6000 100 (-1) _ _)))).
  - lia.
  - vm_compute. discriminate.
Defined.

(** ** Replaying under a TTL *)

Lemma SimulatedUsage_fields tail write read output ttl :
  let s := SimulatedUsage tail write read output ttl in
  Input s = tail /\ CacheCreation s = write /\ CacheRead s = read /\ Output s = output.
Proof. unfold SimulatedUsage. by destruct (TTLLong <=? ttl). Qed.

(** What a client left readable on a turn, as a total function. *)
Definition next_obs (prev req : Request) : Z :=
  match (ClassifyRead (req_Usage prev) (req_Usage req)).1 with
  | ReadExceeded => CacheRead (req_Usage req)
  | ReadBroken => if Sub (Timestamp req) (Timestamp prev) <=? TTLOf (req_Usage prev)
                  then CacheRead (req_Usage req) else -1
  | _ => -1
  end.

Fixpoint next_obs_list (prev : Request) (reqs : list Request) : list Z :=
  match reqs with
  | [] => []
  | req :: reqs' => next_obs prev req :: next_obs_list req reqs'
  end.

Definition obs_list (reqs : list Request) : list Z :=
  match reqs with
  | [] => []
  | req :: reqs' => -1 :: next_obs_list req reqs'
  end.

Lemma observed_next i prev req : observed_of (next_turn i prev req) = Some (next_obs prev req).
Proof.
  unfold observed_of, next_turn, next_obs.
  pose proof (ClassifyRead_cases (req_Usage prev) (req_Usage req)) as Hc.
  destruct (ClassifyRead _ _) as [o e]. by destruct o.
Qed.

Lemma observedAvailability_Calibrate lane :
  observedAvailability (Calibrate lane) = Some (obs_list (Requests lane)).
Proof.
  unfold observedAvailability. destruct (Calibrate_turns lane) as [-> _].
  destruct (Requests lane) as [|r reqs]; [done |]. cbn.
  assert (forall i prev, mapM observed_of (next_turns i prev reqs) = Some (next_obs_list prev reqs))
    as ->; [| done].
  induction reqs as [|r' reqs IH]; intros i prev; [done |]. cbn.
  rewrite observed_next. cbn. by rewrite IH.
Qed.

Lemma obs_list_length reqs : List.length (obs_list reqs) = List.length reqs.
Proof.
  destruct reqs as [|r reqs]; [done |]. cbn. f_equal. revert r.
  induction reqs; intros; cbn; auto.
Qed.

(** One turn of the replay once what was readable is known. *)
Definition ttl_turn (d : duration) (st : Tally * cacheState) (req : Request) (obs : Z)
    : Tally * cacheState :=
  let u := req_Usage req in
  let '(read, write, state') := serve st.2 (Timestamp req) (PromptTotal u) (Input u) obs in
  (AddAt st.1 (SimulatedUsage (Input u) write read (Output u) d) (Model req) (Timestamp req), state').

(** On a calibrated lane the replay indexes nothing out of range. *)
Lemma WithTTL_fold lane d :
  WithTTL (Calibrate lane) d =
    Some (fold_left (fun s '(req, obs) => ttl_turn d s req obs)
            (zip (Requests lane) (obs_list (Requests lane))) (zero_tally, newCacheState lane d)).1.
Proof.
  unfold WithTTL. rewrite observedAvailability_Calibrate. cbn.
  destruct (Calibrate_turns lane) as [_ ->].
  rewrite (fold_indexed_zip (obs_list (Requests lane)) _ (ttl_turn d)).
  - done.
  - intros [r st] i req. unfold ttl_step, ttl_turn. cbn.
    destruct (obs_list (Requests lane) !! i); [| done]. cbn.
    destruct (serve st (Timestamp req) (PromptTotal (req_Usage req)) (Input (req_Usage req)) z)
      as [[read write] st']. done.
  - by rewrite obs_list_length.
Qed.

(** The counts a replay cannot change. *)
Record same_load (t t' : Tally) : Prop := {
  sl_requests : t_Requests t = t_Requests t';
  sl_prompt : PromptTokens t = PromptTokens t';
  sl_cached : Reads t +! Writes t = Reads t' +! Writes t';
  sl_output : t_Output t = t_Output t';
  sl_priced : PricedRequests t = PricedRequests t';
  sl_unpriced : UnpricedRequests t = UnpricedRequests t'
}.

#[export] Instance same_load_equiv : Equivalence same_load.
Proof.
  split.
  - by intros t.
  - intros t t' []. by split.
  - intros t t' t'' [] []. split; congruence.
Qed.

Lemma iadd_swap4 a b c d : (a +! b) +! (c +! d) = (a +! c) +! (b +! d).
Proof.
  unfold iadd. rewrite !wrap64_add_l, !wrap64_add_r. f_equal. lia.
Qed.

Lemma serve_cacheable c at_ u obs :
  let '(read, write, _) := serve c at_ (PromptTotal u) (Input u) obs in
  read +! write = CacheRead u +! CacheCreation u /\
  Input u +! write +! read = PromptTotal u.
Proof.
  unfold serve. cbn. match goal with |- ?r +! _ = _ /\ _ => generalize r end. intros r.
  assert (PromptTotal u -! Input u = wrap64 (CacheRead u + CacheCreation u)) as ->
    by (unfold PromptTotal, iadd, isub; rewrite wrap64_add_l, wrap64_sub_l; f_equal; lia).
  assert (wrap64 (CacheRead u + CacheCreation u) -! r = wrap64 (CacheRead u + CacheCreation u - r))
    as -> by (unfold isub; by rewrite wrap64_sub_l).
  unfold PromptTotal, iadd. split.
  - rewrite wrap64_add_r. f_equal. lia.
  - rewrite wrap64_add_r, !wrap64_add_l. f_equal. lia.
Qed.

Lemma ttl_turn_load d t t' st req obs :
  same_load t t' -> same_load (ttl_turn d (t, st) req obs).1 (add_request t' req).
Proof.
  intros Ht. unfold ttl_turn, add_request. cbn [fst snd].
  pose proof (serve_cacheable st (Timestamp req) (req_Usage req) obs) as Hs.
  destruct (serve st (Timestamp req) _ _ obs) as [[read write] st']. destruct Hs as [Hc Hp]. cbn [fst].
  destruct (SimulatedUsage_fields (Input (req_Usage req)) write read (Output (req_Usage req)) d)
    as (Ei & Ew & Er & Eo).
  set (sim := SimulatedUsage _ _ _ _ _) in *.
  destruct (AddAt_counts t sim (Model req) (Timestamp req)) as (H1 & H2 & H3 & H4 & H5 & H6 & H7).
  destruct (AddAt_counts t' (req_Usage req) (Model req) (Timestamp req))
    as (K1 & K2 & K3 & K4 & K5 & K6 & K7).
  destruct Ht as [Q1 Q2 Q3 Q4 Q5 Q6].
  assert (PromptTotal sim = PromptTotal (req_Usage req)) as Ep
    by (unfold PromptTotal at 1; rewrite Ei, Ew, Er; exact Hp).
  split.
  - by rewrite H1, K1, Q1.
  - by rewrite H2, K2, Q2, Ep.
  - rewrite H3, H4, K3, K4, Er, Ew, iadd_swap4, Hc, Q3. apply iadd_swap4.
  - by rewrite H5, K5, Q4, Eo.
  - by rewrite H6, K6, Q5.
  - by rewrite H7, K7, Q6.
Qed.

(** Replaying a calibrated lane under any TTL bills the session that ran.
    The replay always returns (it never reads past the turns it was given),
    and its requests, prompt tokens, output, cached tokens and price coverage
    are those of the session as it ran: only the split of the cached part into
    reads and writes, and so the cost, can differ. *)
Lemma WithTTL_bills_the_same_prompts :
  forall lane d,
    exists t, WithTTL (Calibrate lane) d = Some t /\ same_load t (AsRun lane).
Proof.
  intros lane d. rewrite WithTTL_fold. eexists. split; [done |]. unfold AsRun.
  generalize (newCacheState lane d) as st.
  assert (same_load zero_tally zero_tally) as Hz by reflexivity. revert Hz.
  generalize zero_tally at 1 3 as t. generalize zero_tally as t'.
  pose proof (obs_list_length (Requests lane)) as Hlen. revert Hlen.
  generalize (obs_list (Requests lane)) as obs.
  induction (Requests lane) as [|req reqs IH]; intros obs Hlen t' t Ht st.
  - by destruct obs.
  - destruct obs as [|o obs]; [done |]. injection Hlen as Hlen.
    cbn [zip zip_with fold_left].
    pose proof (ttl_turn_load d t t' st req o Ht) as Hn.
    destruct (ttl_turn d (t, st) req o) as [t1 st1]. by apply IH.
Qed.

(** ** Replaying under the session's own TTL *)

(** Everything a tally says except how many write legs rested on an assumed
    TTL, which a simulated usage always does. *)
Record same_bill (t t' : Tally) : Prop := {
  sbl_requests : t_Requests t = t_Requests t';
  sbl_prompt : PromptTokens t = PromptTokens t';
  sbl_reads : Reads t = Reads t';
  sbl_writes : Writes t = Writes t';
  sbl_output : t_Output t = t_Output t';
  sbl_effective : t_EffectiveTokens t = t_EffectiveTokens t';
  sbl_cost : t_CostUSD t = t_CostUSD t';
  sbl_priced : PricedRequests t = PricedRequests t';
  sbl_unpriced : UnpricedRequests t = UnpricedRequests t';
  sbl_uncached : UncachedUSD t = UncachedUSD t';
  sbl_write : WriteUSD t = WriteUSD t';
  sbl_read : ReadUSD t = ReadUSD t';
  sbl_outputUSD : OutputUSD t = OutputUSD t';
  sbl_misses : Misses t = Misses t'
}.

Lemma AddAt_billed t t' u v model at_ :
  same_bill t t' -> same_billed u v -> same_bill (AddAt t u model at_) (AddAt t' v model at_).
Proof.
  intros Ht Huv. destruct t, t', Ht; cbn in *; subst. unfold AddAt.
  rewrite (effective_tokens_billed u v model Huv).
  assert (PromptTotal u = PromptTotal v) as ->
    by (unfold PromptTotal; by rewrite (sb_input u v), (sb_creation u v), (sb_read u v)).
  rewrite (sb_read u v Huv), (sb_creation u v Huv), (sb_output u v Huv).
  destruct (price_for_at model at_) as [p []]; [rewrite (CostLegsUSD_billed u v p Huv) |];
    by split.
Qed.

(** The write breakdown of a usage that bought one TTL. *)
Definition bought (d : duration) (u : Usage) : Prop :=
  if TTLLong <=? d then Create5m u = 0 /\ Create1h u = CacheCreation u
  else Create5m u = CacheCreation u /\ Create1h u = 0.

Lemma bought_billed d u :
  bought d u -> same_billed (SimulatedUsage (Input u) (CacheCreation u) (CacheRead u) (Output u) d) u.
Proof. unfold bought, SimulatedUsage. destruct (TTLLong <=? d); intros []; by split. Qed.

(** A read the provider's published rules allow: the prefix reaches the
    minimum, and the previous request left something that had not expired. *)
Definition allowed_read (min : Z) (d : duration) (prev : option Request) (req : Request) : Prop :=
  let u := req_Usage req in
  0 < CacheRead u ->
  min <= CacheCreation u + CacheRead u /\
  match prev with
  | None => True
  | Some p => Sub (Timestamp req) (Timestamp p) <= d /\
              0 < CacheCreation (req_Usage p) + CacheRead (req_Usage p)
  end.

(** A session that ran under TTL [d] on a provider that keeps its own rules. *)
Fixpoint ran_under (min : Z) (d : duration) (prev : option Request) (reqs : list Request) : Prop :=
  match reqs with
  | [] => True
  | req :: reqs' =>
      usage_ok (req_Usage req) /\ bought d (req_Usage req) /\ d <= TTLOf (req_Usage req) /\
      allowed_read min d prev req /\ ran_under min d (Some req) reqs'
  end.

Lemma cacheable_exact u :
  usage_ok u -> PromptTotal u -! Input u = CacheCreation u + CacheRead u.
Proof. intros Hu. rewrite PromptTotal_exact by done. destruct Hu. lia_int. Qed.

Lemma serve_as_ran c req obs :
  usage_ok (req_Usage req) ->
  (if (0 <? prefix c) && (Sub (Timestamp req) (lastTouch c) <=? ttl c)
      && (cs_minPrefix c <=? CacheCreation (req_Usage req) + CacheRead (req_Usage req))
   then (if 0 <=? obs then obs = CacheRead (req_Usage req)
         else Z.min (prefix c) (CacheCreation (req_Usage req) + CacheRead (req_Usage req))
              = CacheRead (req_Usage req))
   else CacheRead (req_Usage req) = 0) ->
  serve c (Timestamp req) (PromptTotal (req_Usage req)) (Input (req_Usage req)) obs
  = (CacheRead (req_Usage req), CacheCreation (req_Usage req),
     mkCache (CacheCreation (req_Usage req) + CacheRead (req_Usage req)) (Timestamp req)
       (ttl c) (cs_minPrefix c)).
Proof.
  intros Hu H. unfold serve. cbn. rewrite (cacheable_exact _ Hu). destruct Hu.
  destruct ((0 <? prefix c) && _ && _); cbn [negb].
  - assert ((if 0 <=? obs then Z.min obs (CacheCreation (req_Usage req) + CacheRead (req_Usage req))
             else Z.min (prefix c) (CacheCreation (req_Usage req) + CacheRead (req_Usage req)))
            = CacheRead (req_Usage req)) as ->.
    { destruct (0 <=? obs); [subst obs; lia | done]. }
    f_equal. f_equal. lia_int.
  - rewrite H. f_equal. f_equal. lia_int.
Qed.

(** A later turn: what was readable is what the session read. *)
Lemma serve_next min d prev req :
  usage_ok (req_Usage prev) -> usage_ok (req_Usage req) -> d <= TTLOf (req_Usage prev) ->
  allowed_read min d (Some prev) req ->
  let c := mkCache (CacheCreation (req_Usage prev) + CacheRead (req_Usage prev)) (Timestamp prev) d min in
  serve c (Timestamp req) (PromptTotal (req_Usage req)) (Input (req_Usage req)) (next_obs prev req)
  = (CacheRead (req_Usage req), CacheCreation (req_Usage req),
     mkCache (CacheCreation (req_Usage req) + CacheRead (req_Usage req)) (Timestamp req) d min).
Proof.
  intros Hp Hu Hd Ha c. subst c. rewrite serve_as_ran; [done | done |]. cbn.
  pose proof (ExpectedRead_exact _ Hp) as He.
  pose proof (ClassifyRead_cases (req_Usage prev) (req_Usage req)) as Hc.
  unfold allowed_read in Ha. cbn in Ha. unfold next_obs. destruct Hu, Hp.
  destruct (_ && _ && _) eqn:W; reflect_bool.
  - destruct (ClassifyRead (req_Usage prev) (req_Usage req)).1; cbn; try done.
    + lia.
    + destruct (0 <=? CacheRead (req_Usage req)) eqn:?; reflect_bool; [done | lia].
    + assert ((Sub (Timestamp req) (Timestamp prev) <=? TTLOf (req_Usage prev)) = true) as ->
        by (apply Z.leb_le; lia).
      destruct (0 <=? CacheRead (req_Usage req)) eqn:?; reflect_bool; [done | lia].
  - destruct (Z.eq_dec (CacheRead (req_Usage req)) 0) as [|Hne]; [done | exfalso].
    destruct Ha as (Hm & Hs & Hpos); [lia |].
    rewrite !andb_false_iff, Z.ltb_ge, !Z.leb_gt in W. lia.
Qed.

Lemma ttl_turn_as_ran d t t' st req obs st' :
  same_bill t t' -> bought d (req_Usage req) ->
  serve st (Timestamp req) (PromptTotal (req_Usage req)) (Input (req_Usage req)) obs
  = (CacheRead (req_Usage req), CacheCreation (req_Usage req), st') ->
  (ttl_turn d (t, st) req obs).2 = st' /\
  same_bill (ttl_turn d (t, st) req obs).1 (add_request t' req).
Proof.
  intros Ht Hb Hs. unfold ttl_turn. cbn [fst snd]. rewrite Hs. cbn. split; [done |].
  apply AddAt_billed; [done |]. by apply bought_billed.
Qed.

Lemma same_bill_refl t : same_bill t t.
Proof. by split. Qed.

(** The first turn finds what the session found. *)
Lemma serve_first min d req :
  usage_ok (req_Usage req) -> 0 <= d -> allowed_read min d None req ->
  serve (mkCache (CacheRead (req_Usage req)) (Timestamp req) d min) (Timestamp req)
    (PromptTotal (req_Usage req)) (Input (req_Usage req)) (-1)
  = (CacheRead (req_Usage req), CacheCreation (req_Usage req),
     mkCache (CacheCreation (req_Usage req) + CacheRead (req_Usage req)) (Timestamp req) d min).
Proof.
  intros Hu Hd Ha. rewrite serve_as_ran; [done | done |]. cbn.
  assert (Sub (Timestamp req) (Timestamp req) = 0) as -> by (rewrite Sub_exact; [lia | unfold_int; lia]).
  unfold allowed_read in Ha. cbn in Ha. destruct Hu.
  destruct (_ && _ && _) eqn:W; reflect_bool; [lia |].
  rewrite !andb_false_iff, Z.ltb_ge, !Z.leb_gt in W.
  destruct (Z.eq_dec (CacheRead (req_Usage req)) 0); [done | lia].
Qed.

Lemma later_turns_as_ran min d reqs : forall prev t t',
  usage_ok (req_Usage prev) -> d <= TTLOf (req_Usage prev) ->
  ran_under min d (Some prev) reqs -> same_bill t t' ->
  same_bill
    (fold_left (fun s '(req, obs) => ttl_turn d s req obs) (zip reqs (next_obs_list prev reqs))
       (t, mkCache (CacheCreation (req_Usage prev) + CacheRead (req_Usage prev))
             (Timestamp prev) d min)).1
    (fold_left add_request reqs t').
Proof.
  induction reqs as [|req reqs IH]; intros prev t t' Hu Ht Hran Hbill; [done |].
  destruct Hran as (Hu' & Hb' & Ht' & Ha' & Hran).
  cbn [next_obs_list zip zip_with fold_left].
  destruct (ttl_turn_as_ran d t t' _ req (next_obs prev req) _ Hbill Hb'
              (serve_next min d prev req Hu Hu' Ht Ha')) as [Hst Hbill'].
  destruct (ttl_turn d (t, _) req _) as [t2 st2]. cbn in Hst, Hbill'. subst st2.
  by apply IH.
Qed.

Lemma replay_cons d first reqs st :
  fold_left (fun s '(req, obs) => ttl_turn d s req obs) (zip (first :: reqs) (obs_list (first :: reqs))) st
  = fold_left (fun s '(req, obs) => ttl_turn d s req obs) (zip reqs (next_obs_list first reqs))
      (ttl_turn d st first (-1)).
Proof. reflexivity. Qed.

Lemma AsRun_cons first reqs :
  fold_left add_request (first :: reqs) zero_tally
  = fold_left add_request reqs (add_request zero_tally first).
Proof. reflexivity. Qed.

(** C40: the replay is calibrated: under the TTL the session actually bought,
    on a provider that obeyed its own published rules, replaying reproduces
    the session turn by turn, breaks and sibling reads included, and with it
    every billed count and every priced leg of the as-run tally, to the bit. *)
Theorem WithTTL_reproduces_the_session :
  forall lane d first,
    head (Requests lane) = Some first -> 0 <= d ->
    ran_under (min_cacheable_prefix (Model first)) d None (Requests lane) ->
    exists t, WithTTL (Calibrate lane) d = Some t /\ same_bill t (AsRun lane).
Proof.
  intros lane d first Hf Hd Hran. rewrite WithTTL_fold. eexists. split; [done |].
  unfold AsRun, newCacheState. destruct (Requests lane) as [|req reqs]; [done |].
  injection Hf as ->. destruct Hran as (Hu & Hb & Ht & Ha & Hran).
  rewrite replay_cons, AsRun_cons.
  destruct (ttl_turn_as_ran d zero_tally zero_tally _ first (-1) _ (same_bill_refl _) Hb
              (serve_first _ d first Hu Hd Ha)) as [Hst Hbill].
  destruct (ttl_turn d (zero_tally, _) first (-1)) as [t1 st1]. cbn in Hst, Hbill. subst st1.
  by apply later_turns_as_ran.
Qed.

End tally.

(** ** Concrete sessions *)

#[local] Instance compiled : PriceLayer := cachemodel None.

Definition request (at_ : time) (input creation read output : Z) (ctx : list Message) : Request :=
  mkRequest "r" false false "" "claude-opus-5" "" "" at_
    (mkUsage input creation read output 0 creation 0 true) ctx None 0 0 [].

(** A cold start, a warm turn, and a turn after the five minutes were over. *)
Definition short_lane : Lane :=
  mkLane "lane" false false
    [request (100 * second) 10 5000 0 200 []; request (160 * second) 20 800 5000 300 [];
     request (800 * second) 5 6100 0 100 []].

Lemma WithTTL_reproduces_the_session_witness :
  exists t, WithTTL (Calibrate short_lane) TTLShort = Some t /\ same_bill t (AsRun short_lane).
Proof.
  refine (WithTTL_reproduces_the_session short_lane TTLShort
            (request (100 * second) 10 5000 0 200 []) _ _ _).
  - reflexivity.
  - discriminate.
  - vm_compute. repeat split; intros; discriminate.
Defined.

(** The same session with an hour bought: the third turn is a hit. *)
Example an_hour_keeps_the_third_turn :
  (fun t => (Reads t, Writes t, Misses t)) <$> WithTTL (Calibrate short_lane) TTLLong
  = Some (10800, 6100, 0).
Proof. vm_compute. reflexivity. Qed.

(** ** Context editing *)

Definition prompt_after (rs : list slot) (prompt : Z) : Z :=
  fold_left (fun n v => n -! slot_tokens v) rs prompt.

Definition keys_of (rs : list slot) : gset blockKey := list_to_set (List.map slot_key rs).

(** The loop clears the shortest run of oldest results that does. *)
Lemma clear_oldest_spec keep target rs : forall cleared prompt inv,
  0 <= keep ->
  exists k inv', clear_oldest keep target rs cleared prompt inv
      = Some (keys_of (take k rs) ∪ cleared, prompt_after (take k rs) prompt, inv') /\
    (k <= List.length rs)%nat /\ (k = O \/ Z.of_nat k + keep <= Z.of_nat (List.length rs)) /\
    (forall j, (j < k)%nat -> target < prompt_after (take j rs) prompt) /\
    (Z.of_nat (List.length rs) <= keep + Z.of_nat k \/ prompt_after (take k rs) prompt <= target) /\
    (0 <= inv \/ k = O -> inv' = inv) /\
    (inv < 0 -> forall v, head rs = Some v -> (0 < k)%nat -> 0 <= slot_offset v -> inv' = slot_offset v).
Proof.
  induction rs as [|v rs IH]; intros cleared prompt inv Hk.
  { exists 0%nat, inv. cbn [clear_oldest List.length].
    assert ((keep <? Z.of_nat 0) = false) as -> by (apply Z.ltb_ge; lia).
    cbn. unfold keys_of. cbn. rewrite union_empty_l_L. split_and!; auto; try lia; done. }
  cbn [clear_oldest].
  destruct ((keep <? Z.of_nat (List.length (v :: rs))) && (target <? prompt)) eqn:W.
  - reflect_bool. cbn [List.length] in *.
    destruct (IH ({[slot_key v]} ∪ cleared) (prompt -! slot_tokens v)
                (if inv <? 0 then slot_offset v else inv) Hk)
      as (k & inv' & -> & Hle & Hkeep & Hbig & Hend & Hkeepinv & Hnew).
    exists (S k), inv'. split_and!.
    + f_equal. f_equal. f_equal. unfold keys_of. cbn. set_solver.
    + lia.
    + right. destruct Hkeep; lia.
    + intros [|j] Hj; cbn; [done |]. apply Hbig. lia.
    + destruct Hend; [left; lia | by right].
    + intros [Hi|?]; [| lia]. rewrite Hkeepinv; destruct (Z.ltb_spec inv 0); lia.
    + intros Hi w [= <-] _ Hoff. apply Z.ltb_lt in Hi. rewrite Hi in Hkeepinv.
      apply Hkeepinv. by left.
  - exists 0%nat, inv. unfold keys_of. cbn [take List.map list_to_set prompt_after fold_left].
    rewrite union_empty_l_L. split_and!; auto; lia.
Qed.

(** Clearing removes old tool results, oldest first and no more than it
    must.  A context is cleared exactly when its prompt, less what earlier
    clears already removed, is over the trigger and more than [KeepLast]
    results are left; then the shortest run of oldest results goes that brings
    the prompt to three quarters of the trigger or leaves [KeepLast], so the
    last [KeepLast] results always survive; and the cache is invalidated from
    the first cleared block on. *)
Lemma clear_context_oldest_first :
  forall p fit cleared ctx prompt0,
    0 <= KeepLast p ->
    let s := scan_context fit cleared ctx in
    let rs := results s in
    let prompt := prompt0 -! removed s in
    let target := edit_target (TriggerTokens p) in
    let over := TriggerTokens p < prompt /\ KeepLast p < Z.of_nat (List.length rs) in
    exists k inv,
      clear_context p fit cleared ctx prompt0
        = Some (keys_of (take k rs) ∪ cleared, prompt_after (take k rs) prompt, inv) /\
      (k = O \/ Z.of_nat k + KeepLast p <= Z.of_nat (List.length rs)) /\
      (forall j, (j < k)%nat -> target < prompt_after (take j rs) prompt) /\
      (~ over -> k = O) /\
      (over -> Z.of_nat k = Z.of_nat (List.length rs) - KeepLast p \/
               prompt_after (take k rs) prompt <= target) /\
      (k = O -> inv = -1) /\
      (forall v, head rs = Some v -> 0 <= slot_offset v -> (0 < k)%nat -> inv = slot_offset v).
Proof.
  intros p fit cleared ctx prompt0 Hk s rs prompt target over. unfold clear_context.
  fold s. fold rs. fold prompt. fold target.
  destruct ((TriggerTokens p <? prompt) && (KeepLast p <? Z.of_nat (List.length rs))) eqn:W.
  - destruct (clear_oldest_spec (KeepLast p) target rs cleared prompt (-1) Hk)
      as (k & inv & -> & Hle & Hkeep & Hbig & Hend & Hinv & Hnew).
    reflect_bool. exists k, inv. split_and!; auto.
    + intros Hno. exfalso. apply Hno. by split.
    + intros _. destruct Hend; [left; lia | by right].
    + intros v Hv Hoff Hpos. apply Hnew; auto; lia.
  - exists 0%nat, (-1). change (take 0 rs) with (@nil slot).
    change (keys_of []) with (∅ : gset blockKey). rewrite union_empty_l_L. apply andb_false_iff in W. unfold over.
    split_and!; auto; try lia; done.
Qed.

Definition half_fit : TokenFit := mkFit (of_ratio 1 2) f0 2 (measured 10) (measured 0).

Definition two_results : list Message :=
  [mkMessage "m1" RoleUser 0 [mkBlock KindToolResult "a" 800 "" "" "" "" false None];
   mkMessage "m2" RoleUser 0 [mkBlock KindToolResult "b" 800 "" "" "" "" false None]].

Lemma clear_context_oldest_first_witness :
  exists k inv,
    clear_context (mkEdit 1 500) half_fit ∅ two_results 900
    = Some (keys_of (take k (results (scan_context half_fit ∅ two_results))) ∪ ∅,
            prompt_after (take k (results (scan_context half_fit ∅ two_results))) (900 -! 0), inv) /\
    (~ (500 < 900 -! 0 /\ 1 < 2) -> k = O).
Proof.
  destruct (clear_context_oldest_first (mkEdit 1 500) half_fit ∅ two_results 900)
    as (k & inv & E & _ & _ & Hno & _); [discriminate |].
  exists k, inv. split; [exact E | exact Hno].
Defined.

Example clear_context_clears_the_first :
  clear_context (mkEdit 1 500) half_fit ∅ two_results 900 = Some ({[("m1", O)]}, 500, 10).
Proof. vm_compute. reflexivity. Qed.

(** The estimated sizes a clear subtracts are not bounded by the prompt the
    provider reported.  When they exceed it, a turn that finds the cache cold
    is billed a negative write, and so a negative cost. *)
Definition big_result : Message :=
  mkMessage "m1" RoleUser 0 [mkBlock KindToolResult "tool result: Bash" 8000 "" "" "Bash" "" false None].

Definition edited_lane : Lane :=
  mkLane "lane" false false [request (100 * second) 100 1400 0 0 [big_result]].

Lemma WithContextEdit_can_bill_less_than_nothing :
  let fit := mkFit DefaultTokensPerByte (of_int 1) 0 (measured 0) (measured 0) in
  exists t, WithContextEdit (Calibrate edited_lane) (mkEdit 0 1000) fit = Some t /\
    Writes t = -600 /\ fltb (WriteUSD t) f0 = true /\ fltb (t_CostUSD t) f0 = true.
Proof. eexists. vm_compute. repeat split. Qed.

End ReplaySpec.
