(* ===== verification/Intervals.v ===== *)
(** Sets of disjoint byte ranges: what a scan collects in any order, and what
    a rewriting pass needs them to be once sorted by where they start. *)

From S2P Require Import Prelude.

Open Scope nat_scope.

Section intervals.
Context {A : Type} (lo hi : A -> nat).

Definition apart (a b : A) : Prop := hi a <= lo b \/ hi b <= lo a.

(** Non-empty ranges, no two of which share a position. *)
Record disjoint_ranges (l : list A) : Prop := {
  dr_nodup : NoDup l;
  dr_nonempty : forall a, a ∈ l -> lo a < hi a;
  dr_apart : forall a b, a ∈ l -> b ∈ l -> a <> b -> apart a b
}.

Lemma disjoint_ranges_nil : disjoint_ranges [].
Proof. split; [constructor | |]; intros a; intros; by apply not_elem_of_nil in H. Qed.

Lemma disjoint_ranges_submseteq l k : k ⊆+ l -> disjoint_ranges l -> disjoint_ranges k.
Proof.
  intros Hs [Hn He Ha].
  assert (forall a, a ∈ k -> a ∈ l) as Hin by (intros a Hk; by eapply elem_of_submseteq).
  split; [| auto | auto].
  apply submseteq_Permutation in Hs as [k' Hp]. rewrite Hp in Hn. by apply NoDup_app in Hn as [? _].
Qed.

#[export] Instance disjoint_ranges_perm : Proper (Permutation ==> iff) disjoint_ranges.
Proof.
  intros l k Hp. split; apply disjoint_ranges_submseteq; by rewrite Hp.
Qed.

Lemma disjoint_ranges_snoc l a :
  disjoint_ranges l -> lo a < hi a -> (forall b, b ∈ l -> apart a b) -> disjoint_ranges (l ++ [a]).
Proof.
  intros [Hn He Ha] Hlt Hap.
  assert (a ∉ l) as Hnot by (intros Hin; destruct (Hap a Hin); lia).
  split.
  - apply NoDup_app. split_and!; [done | | apply NoDup_singleton].
    intros x Hx Hxa%list_elem_of_singleton. by subst x.
  - intros b [Hb|Hb%list_elem_of_singleton]%elem_of_app; [auto | by subst b].
  - intros b c [Hb|Hb%list_elem_of_singleton]%elem_of_app [Hc|Hc%list_elem_of_singleton]%elem_of_app Hne;
      [by apply Ha | subst c | subst b; by apply Hap | by subst].
    destruct (Hap b Hb); [by right | by left].
Qed.

(** Disjoint ranges in order of where they start are in order throughout. *)
Lemma disjoint_ranges_sorted l :
  disjoint_ranges l -> StronglySorted (fun a b => lo a <= lo b) l ->
  StronglySorted (fun a b => hi a <= lo b) l.
Proof.
  intros Hd Hs. induction Hs as [|a l Hs IH Ha]; [constructor |].
  constructor.
  - apply IH. eapply disjoint_ranges_submseteq; [| done]. by apply submseteq_cons.
  - rewrite Forall_forall in Ha |- *. intros b Hb.
    destruct Hd as [Hn He Hap]. apply NoDup_cons in Hn as [Hnot _].
    assert (a <> b) as Hne by (intros ->; done).
    specialize (Ha b Hb). destruct (Hap a b) as [?|?]; [by left | by right | done | lia |].
    assert (lo b < hi b) by (apply He; by right). lia.
Qed.

Lemma disjoint_ranges_app_inv l k :
  disjoint_ranges (l ++ k) ->
  disjoint_ranges l /\ disjoint_ranges k /\ forall a b, a ∈ l -> b ∈ k -> apart a b.
Proof.
  intros Hd. split_and!.
  - eapply disjoint_ranges_submseteq; [| done]. by apply submseteq_inserts_r.
  - eapply disjoint_ranges_submseteq; [| done]. by apply submseteq_inserts_l.
  - intros a b Ha Hb. destruct Hd as [Hn _ Hap]. apply NoDup_app in Hn as (_ & Hno & _).
    apply Hap; [apply elem_of_app; by left | apply elem_of_app; by right |].
    intros ->. by apply (Hno b).
Qed.

Lemma disjoint_ranges_app l k :
  disjoint_ranges l -> disjoint_ranges k -> (forall a b, a ∈ l -> b ∈ k -> apart a b) ->
  disjoint_ranges (l ++ k).
Proof.
  intros [Hn1 He1 Ha1] [Hn2 He2 Ha2] Hap. split.
  - apply NoDup_app. split_and!; [done | | done]. intros a H1 H2.
    pose proof (He1 a H1). destruct (Hap a a H1 H2); lia.
  - intros a [?|?]%elem_of_app; auto.
  - intros a b [H1|H1]%elem_of_app [H2|H2]%elem_of_app Hne; auto.
    destruct (Hap b a H2 H1); [by right | by left].
Qed.
End intervals.
