(* ===== verification/Json.v ===== *)
(** Go's [encoding/json] token decoder, as far as the program walks documents
    with it ([Decoder.Token] and [InputOffset]): whitespace, the nesting
    states, string literals with their escapes, numbers and keywords.

    Bytes are [ascii]s; a document is a list of them and offsets are [nat]s.
    The decoder reports the end of its input by [TokEOF] wherever it stands,
    inside an open container too: it is the caller who has to notice. *)

From S2P Require Import Prelude GoString.
From Stdlib Require Import Ascii String.

Open Scope string_scope.
Open Scope list_scope.
Open Scope nat_scope.

Module Json.

#[local] Abbreviation length := List.length.

Abbreviation bytes := (list ascii).

Definition of_string : string -> bytes := list_ascii_of_string.
Definition to_string : bytes -> string := string_of_list_ascii.

Definition byte (n : N) : ascii := ascii_of_N n.
Definition quote : ascii := byte 34.
Definition backslash : ascii := byte 92.

Definition is_json_space (c : ascii) : bool :=
  let n := N_of_ascii c in ((n =? 32) || (n =? 9) || (n =? 10) || (n =? 13))%N.

Definition is_hex (c : ascii) : bool :=
  is_digit c || char_between "a" "f" c || char_between "A" "F" c.

(** ** String literals: the scanner *)

Inductive str_state := InString | InEsc | InEscU (n : nat).

(** How many bytes remain through the closing quote; [None] when the literal
    is not closed or holds a bad escape or a control character. *)
Fixpoint string_len (st : str_state) (l : bytes) : option nat :=
  match l with
  | [] => None
  | c :: l' =>
      match st with
      | InString =>
          if Ascii.eqb c quote then Some 1
          else if Ascii.eqb c backslash then S <$> string_len InEsc l'
          else if (N_of_ascii c <? 32)%N then None
          else S <$> string_len InString l'
      | InEsc =>
          if existsb (Ascii.eqb c) ["b"; "f"; "n"; "r"; "t"; "\"; "/"; quote]%char
          then S <$> string_len InString l'
          else if Ascii.eqb c "u" then S <$> string_len (InEscU 4) l'
          else None
      | InEscU n =>
          if is_hex c
          then S <$> string_len (match n with S (S m) => InEscU (S m) | _ => InString end) l'
          else None
      end
  end.

(** ** String literals: the decoded value *)

Definition hex_value (c : ascii) : N :=
  let n := N_of_ascii c in
  if is_digit c then (n - 48)%N else if char_between "a" "f" c then (n - 87)%N else (n - 55)%N.

Definition getu4 (l : bytes) : option N :=
  match l with
  | b :: u :: c1 :: c2 :: c3 :: c4 :: _ =>
      if Ascii.eqb b backslash && Ascii.eqb u "u" && forallb is_hex [c1; c2; c3; c4]
      then Some (fold_left (fun n c => n * 16 + hex_value c)%N [c1; c2; c3; c4] 0%N)
      else None
  | _ => None
  end.

Definition in_range (lo hi n : N) : bool := ((lo <=? n) && (n <=? hi))%N.

(** [utf8.EncodeRune]; surrogates and out-of-range values encode U+FFFD. *)
Definition encode_rune (r : N) : bytes :=
  let cont n := byte (128 + n mod 64)%N in
  let three r := [byte (224 + r / 4096)%N; cont (r / 64)%N; cont r] in
  if (r <? 128)%N then [byte r]
  else if (r <? 2048)%N then [byte (192 + r / 64)%N; cont r]
  else if (in_range 55296 57343 r || (1114111 <? r)%N) then three 65533%N
  else if (r <? 65536)%N then three r
  else [byte (240 + r / 262144)%N; cont (r / 4096)%N; cont (r / 64)%N; cont r].

Definition is_cont (c : ascii) : bool := in_range 128 191 (N_of_ascii c).

(** [utf8.DecodeRune] on a non-ASCII lead byte: the rune and its width; an
    invalid sequence is U+FFFD, one byte wide. *)
Definition decode_rune (l : bytes) : N * nat :=
  let bad := (65533%N, 1) in
  let low c := (N_of_ascii c mod 64)%N in
  match l with
  | [] => bad
  | c0 :: l' =>
      let n := N_of_ascii c0 in
      if in_range 194 223 n then
        match l' with
        | c1 :: _ => if is_cont c1 then (((n mod 32) * 64 + low c1)%N, 2) else bad
        | _ => bad
        end
      else if in_range 224 239 n then
        match l' with
        | c1 :: c2 :: _ =>
            let lo := if (n =? 224)%N then 160%N else 128%N in
            let hi := if (n =? 237)%N then 159%N else 191%N in
            if in_range lo hi (N_of_ascii c1) && is_cont c2
            then (((n mod 16) * 4096 + low c1 * 64 + low c2)%N, 3) else bad
        | _ => bad
        end
      else if in_range 240 244 n then
        match l' with
        | c1 :: c2 :: c3 :: _ =>
            let lo := if (n =? 240)%N then 144%N else 128%N in
            let hi := if (n =? 244)%N then 143%N else 191%N in
            if in_range lo hi (N_of_ascii c1) && is_cont c2 && is_cont c3
            then (((n mod 8) * 262144 + low c1 * 4096 + low c2 * 64 + low c3)%N, 4) else bad
        | _ => bad
        end
      else bad
  end.

Definition is_surrogate (r : N) : bool := in_range 55296 57343 r.

(** [utf16.DecodeRune] on a surrogate and what follows it. *)
Definition decode_surrogates (hi lo : N) : option N :=
  if in_range 55296 56319 hi && in_range 56320 57343 lo
  then Some ((hi - 55296) * 1024 + (lo - 56320) + 65536)%N else None.

(** [unquote] on the inner bytes of a literal the scanner accepted; every turn
    consumes a byte, so the inner length is fuel enough. *)
Fixpoint unquote (fuel : nat) (l : bytes) : bytes :=
  match fuel, l with
  | S fuel, c :: l' =>
      if Ascii.eqb c backslash then
        match l' with
        | [] => []
        | e :: l'' =>
            if Ascii.eqb e "u" then
              match getu4 l with
              | None => []
              | Some r =>
                  let rest := drop 6 l in
                  if is_surrogate r then
                    match r2 ← getu4 rest; decode_surrogates r r2 with
                    | Some r' => encode_rune r' ++ unquote fuel (drop 6 rest)
                    | None => encode_rune 65533%N ++ unquote fuel rest
                    end
                  else encode_rune r ++ unquote fuel rest
              end
            else (if Ascii.eqb e "b" then byte 8 else if Ascii.eqb e "f" then byte 12
                  else if Ascii.eqb e "n" then byte 10 else if Ascii.eqb e "r" then byte 13
                  else if Ascii.eqb e "t" then byte 9 else e) :: unquote fuel l''
        end
      else if (N_of_ascii c <? 128)%N then c :: unquote fuel l'
      else let '(r, w) := decode_rune l in encode_rune r ++ unquote fuel (drop w l)
  | _, _ => []
  end.

Definition decode_literal (inner : bytes) : string := to_string (unquote (length inner) inner).

(** ** Numbers and keywords *)

Inductive num_state := NNeg | NZero | NDigits | NDot | NFrac | NExp | NExpSign | NExpDigits.

Definition accepting (st : num_state) : bool :=
  match st with NZero | NDigits | NFrac | NExpDigits => true | _ => false end.

Definition num_next (st : num_state) (c : ascii) : option num_state :=
  let d := is_digit c in
  let dot := Ascii.eqb c "." in
  let e := Ascii.eqb c "e" || Ascii.eqb c "E" in
  match st with
  | NNeg => if Ascii.eqb c "0" then Some NZero else if d then Some NDigits else None
  | NZero => if dot then Some NDot else if e then Some NExp else None
  | NDigits => if d then Some NDigits else if dot then Some NDot else if e then Some NExp else None
  | NDot => if d then Some NFrac else None
  | NFrac => if d then Some NFrac else if e then Some NExp else None
  | NExp => if Ascii.eqb c "+" || Ascii.eqb c "-" then Some NExpSign
            else if d then Some NExpDigits else None
  | NExpSign | NExpDigits => if d then Some NExpDigits else None
  end.

(** How many more bytes the number takes; [None] when it is malformed. *)
Fixpoint num_len (st : num_state) (l : bytes) : option nat :=
  match l with
  | [] => if accepting st then Some 0 else None
  | c :: l' =>
      match num_next st c with
      | Some st' => S <$> num_len st' l'
      | None => if accepting st then Some 0 else None
      end
  end.

Fixpoint is_prefix (p l : bytes) : bool :=
  match p, l with
  | [], _ => true
  | a :: p', b :: l' => Ascii.eqb a b && is_prefix p' l'
  | _ :: _, [] => false
  end.

(** The length of the scalar that starts here, when it is well formed. *)
Definition scalar_len (l : bytes) : option nat :=
  match l with
  | [] => None
  | c :: l' =>
      if is_prefix (of_string "true") l then Some 4
      else if is_prefix (of_string "false") l then Some 5
      else if is_prefix (of_string "null") l then Some 4
      else if Ascii.eqb c "-" then S <$> num_len NNeg l'
      else if Ascii.eqb c "0" then S <$> num_len NZero l'
      else if is_digit c then S <$> num_len NDigits l'
      else None
  end.

(** ** [Decoder.Token] *)

Inductive tstate :=
| TopValue | ArrayStart | ArrayValue | ArrayComma
| ObjectStart | ObjectKey | ObjectColon | ObjectValue | ObjectComma.

#[export] Instance tstate_eq_dec : EqDecision tstate.
Proof. solve_decision. Defined.

Inductive token :=
| Open (object : bool)
| Close
| Str (value : string)
| Scalar.

Record decoder := mkDec { d_state : tstate; d_stack : list tstate; d_pos : nat; d_rest : bytes }.

(** [TokOk tok start dec']: the token, where it starts, and the decoder after
    it ([InputOffset] is [d_pos dec']). *)
Inductive tok_result :=
| TokOk (tok : token) (start : nat) (d : decoder)
| TokEOF
| TokErr.

Definition value_allowed (st : tstate) : bool :=
  match st with TopValue | ArrayStart | ArrayValue | ObjectValue => true | _ => false end.

Definition value_end (st : tstate) : tstate :=
  match st with
  | ArrayStart | ArrayValue => ArrayComma
  | ObjectValue => ObjectComma
  | _ => st
  end.

Definition close_token (stack : list tstate) (pos : nat) (rest : bytes) : tok_result :=
  match stack with
  | [] => TokErr
  | st :: stack' => TokOk Close pos (mkDec (value_end st) stack' (S pos) rest)
  end.

(** A string literal whose opening quote stands at [pos]. *)
Definition string_token (st' : tstate) (stack : list tstate) (pos : nat) (rest : bytes) : tok_result :=
  match string_len InString rest with
  | None => TokErr
  | Some n => TokOk (Str (decode_literal (take (n - 1) rest))) pos
                (mkDec st' stack (S pos + n) (drop n rest))
  end.

Fixpoint next_token (st : tstate) (stack : list tstate) (pos : nat) (rest : bytes) : tok_result :=
  match rest with
  | [] => TokEOF
  | c :: rest' =>
      if is_json_space c then next_token st stack (S pos) rest'
      else if Ascii.eqb c "[" then
        if value_allowed st then TokOk (Open false) pos (mkDec ArrayStart (st :: stack) (S pos) rest')
        else TokErr
      else if Ascii.eqb c "{" then
        if value_allowed st then TokOk (Open true) pos (mkDec ObjectStart (st :: stack) (S pos) rest')
        else TokErr
      else if Ascii.eqb c "]" then
        match st with ArrayStart | ArrayComma => close_token stack pos rest' | _ => TokErr end
      else if Ascii.eqb c "}" then
        match st with ObjectStart | ObjectComma => close_token stack pos rest' | _ => TokErr end
      else if Ascii.eqb c ":" then
        match st with ObjectColon => next_token ObjectValue stack (S pos) rest' | _ => TokErr end
      else if Ascii.eqb c "," then
        match st with
        | ArrayComma => next_token ArrayValue stack (S pos) rest'
        | ObjectComma => next_token ObjectKey stack (S pos) rest'
        | _ => TokErr
        end
      else if Ascii.eqb c quote then
        match st with
        | ObjectStart | ObjectKey => string_token ObjectColon stack pos rest'
        | _ => if value_allowed st then string_token (value_end st) stack pos rest' else TokErr
        end
      else if value_allowed st then
        match scalar_len rest with
        | None => TokErr
        | Some n => TokOk Scalar pos (mkDec (value_end st) stack (pos + n) (drop n rest))
        end
      else TokErr
  end.

Definition Token (d : decoder) : tok_result := next_token (d_state d) (d_stack d) (d_pos d) (d_rest d).

Definition NewDecoder (doc : bytes) : decoder := mkDec TopValue [] 0 doc.

(** A value state is never left on the stack under an open container's key. *)

(** ** What a token spans *)

Lemma string_len_pos st l n : string_len st l = Some n -> 1 <= n <= length l.
Proof.
  revert st n. induction l as [|c l IH]; intros st n H; [done |].
  assert (forall st', S <$> string_len st' l = Some n -> 1 <= n <= length (c :: l)) as Hrec.
  { intros st' Hs. destruct (string_len st' l) as [m|] eqn:E; [| done]. injection Hs as <-.
    apply IH in E. cbn. lia. }
  cbn [string_len] in H. destruct st; repeat case_match; try done; try (by eapply Hrec).
  injection H as <-. cbn. lia.
Qed.

(** The last byte of a literal is its quote, and none of the inner ones ends it. *)
Lemma string_len_quote st l n :
  string_len st l = Some n -> l !! (n - 1) = Some quote.
Proof.
  revert st n. induction l as [|c l IH]; intros st n H; [done |].
  assert (forall st', S <$> string_len st' l = Some n -> (c :: l) !! (n - 1) = Some quote) as Hrec.
  { intros st' Hs. destruct (string_len st' l) as [m|] eqn:E; [| done]. injection Hs as <-.
    pose proof (string_len_pos _ _ _ E). apply IH in E.
    replace (S m - 1) with (S (m - 1)) by lia. exact E. }
  cbn [string_len] in H. destruct st; repeat case_match; try done; try (by eapply Hrec).
  injection H as <-. cbn.
  match goal with E : Ascii.eqb c quote = true |- _ => apply Ascii.eqb_eq in E as -> end. done.
Qed.

Lemma num_len_le st l n : num_len st l = Some n -> n <= length l.
Proof.
  revert st n. induction l as [|c l IH]; intros st n; cbn.
  - destruct (accepting st); [intros [= <-]; lia | done].
  - destruct (num_next st c) as [st'|].
    + destruct (num_len st' l) as [m|] eqn:E; [| done]. intros [= <-]. apply IH in E. lia.
    + destruct (accepting st); [intros [= <-]; lia | done].
Qed.

Lemma is_prefix_length p l : is_prefix p l = true -> length p <= length l.
Proof.
  revert l. induction p as [|a p IH]; intros l H; [cbn; lia |].
  destruct l as [|b l]; [done |]. cbn in H |- *. apply andb_true_iff in H as [_ H].
  apply IH in H. lia.
Qed.

Lemma is_prefix_spec p : forall l, is_prefix p l = true <-> exists rest, l = p ++ rest.
Proof.
  induction p as [|c p IH]; intros l; cbn; [split; eauto |].
  destruct l as [|d l]; [split; [done | by intros [? ?]] |].
  rewrite andb_true_iff, IH. split.
  - intros [->%Ascii.eqb_eq [rest ->]]. by exists rest.
  - intros [rest [= -> ->]]. split; [apply Ascii.eqb_refl | eauto].
Qed.

Lemma scalar_len_pos l n : scalar_len l = Some n -> 1 <= n <= length l.
Proof.
  unfold scalar_len. destruct l as [|c l]; [done |].
  destruct (is_prefix (of_string "true") (c :: l)) eqn:E1;
    [apply is_prefix_length in E1; intros [= <-]; cbn in *; lia |].
  destruct (is_prefix (of_string "false") (c :: l)) eqn:E2;
    [apply is_prefix_length in E2; intros [= <-]; cbn in *; lia |].
  destruct (is_prefix (of_string "null") (c :: l)) eqn:E3;
    [apply is_prefix_length in E3; intros [= <-]; cbn in *; lia |].
  assert (forall st, S <$> num_len st l = Some n -> 1 <= n <= length (c :: l)) as Hn.
  { intros st H. destruct (num_len st l) as [m|] eqn:E; [| done]. injection H as <-.
    apply num_len_le in E. cbn. lia. }
  repeat case_match; try done; eauto.
Qed.

(** A decoder that stands in a document. *)
Definition at_doc (doc : bytes) (pos : nat) (rest : bytes) : Prop := rest = drop pos doc.

Definition dec_in (doc : bytes) (d : decoder) : Prop :=
  at_doc doc (d_pos d) (d_rest d) /\ d_pos d <= length doc.

Lemma drop_cons {A} (doc : list A) pos c rest :
  c :: rest = drop pos doc -> rest = drop (S pos) doc /\ pos < length doc /\ doc !! pos = Some c.
Proof.
  intros H. assert (pos < length doc) as Hlt
    by (apply (f_equal length) in H; rewrite length_drop in H; cbn in H; lia).
  split_and!; [| done |].
  - replace (S pos) with (pos + 1) by lia. by rewrite <- drop_drop, <- H.
  - by rewrite <- (Nat.add_0_r pos), <- lookup_drop, <- H.
Qed.

(** What a token covers: it starts at or after the decoder's offset, ends at
    the next decoder's, and a string token covers a quoted literal. *)
Definition token_spans (doc : bytes) (pos : nat) (tok : token) (start : nat) (d : decoder) : Prop :=
  pos <= start /\ start < d_pos d /\ dec_in doc d /\
  match tok with
  | Str v => start + 2 <= d_pos d /\ doc !! start = Some quote /\
             doc !! (d_pos d - 1) = Some quote /\
             v = decode_literal (take (d_pos d - start - 2) (drop (S start) doc)) /\
             string_len InString (drop (S start) doc) = Some (d_pos d - S start)
  | _ => True
  end.

Lemma string_token_spans doc st' stack pos rest tok start d :
  rest = drop (S pos) doc -> pos < length doc -> doc !! pos = Some quote ->
  string_token st' stack pos rest = TokOk tok start d -> token_spans doc pos tok start d.
Proof.
  intros Hr Hlt Hq H. unfold string_token in H.
  destruct (string_len InString rest) as [n|] eqn:E; [| done]. injection H as <- <- <-.
  pose proof (string_len_pos _ _ _ E) as Hn. apply string_len_quote in E as Hlast.
  assert (length rest = length doc - S pos) as Hl by (by rewrite Hr, length_drop).
  unfold token_spans, dec_in, at_doc. cbn [d_pos d_rest]. split_and!; try lia; try done.
  - by rewrite Hr, drop_drop.
  - rewrite Hr, lookup_drop in Hlast. rewrite <- Hlast. f_equal. lia.
  - rewrite Hr. do 2 f_equal. lia.
  - rewrite <- Hr, E. f_equal. lia.
Qed.

Lemma next_token_spans doc rest : forall st stack pos tok start d,
  rest = drop pos doc -> next_token st stack pos rest = TokOk tok start d ->
  token_spans doc pos tok start d.
Proof.
  induction rest as [|c rest IH]; intros st stack pos tok start d Hr H; [done |].
  destruct (drop_cons _ _ _ _ Hr) as (Hr' & Hlt & Hc). cbn [next_token] in H.
  assert (forall st', next_token st' stack (S pos) rest = TokOk tok start d ->
            token_spans doc pos tok start d) as Hskip.
  { intros st' Hn. destruct (IH _ _ _ _ _ _ Hr' Hn) as (? & ? & ? & ?).
    unfold token_spans. split_and!; auto; lia. }
  assert (forall tk st' stack', match tk with Str _ => False | _ => True end ->
            token_spans doc pos tk pos (mkDec st' stack' (S pos) rest)) as Hone.
  { intros tk st' stack' Htk. unfold token_spans, dec_in, at_doc. cbn [d_pos d_rest].
    split_and!; try done; try lia. by destruct tk. }
  destruct (is_json_space c); [by eapply Hskip |].
  destruct (Ascii.eqb c "["); [destruct (value_allowed st); [injection H as <- <- <-; by apply Hone | done] |].
  destruct (Ascii.eqb c "{"); [destruct (value_allowed st); [injection H as <- <- <-; by apply Hone | done] |].
  assert (close_token stack pos rest = TokOk tok start d -> token_spans doc pos tok start d) as Hclose.
  { unfold close_token. destruct stack; [done |]. intros [= <- <- <-]. by apply Hone. }
  destruct (Ascii.eqb c "]"); [destruct st; auto; done |].
  destruct (Ascii.eqb c "}"); [destruct st; auto; done |].
  destruct (Ascii.eqb c ":"); [destruct st; try done; by eapply Hskip |].
  destruct (Ascii.eqb c ","); [destruct st; try done; by eapply Hskip |].
  destruct (Ascii.eqb_spec c quote) as [->|_].
  - destruct st; try done; cbn in H; by eapply string_token_spans.
  - destruct (value_allowed st); [| done].
    destruct (scalar_len (c :: rest)) as [n|] eqn:E; [| done]. injection H as <- <- <-.
    apply scalar_len_pos in E.
    assert (length (c :: rest) = length doc - pos) as Hl by (by rewrite Hr, length_drop).
    unfold token_spans, dec_in, at_doc. cbn [d_pos d_rest]. split_and!; try done; try lia.
    rewrite <- drop_drop, <- Hr. done.
Qed.

Lemma Token_spans doc d tok start d' :
  dec_in doc d -> Token d = TokOk tok start d' -> token_spans doc (d_pos d) tok start d'.
Proof. intros [Hat _] H. by eapply next_token_spans. Qed.

Lemma NewDecoder_in doc : dec_in doc (NewDecoder doc).
Proof. split; [done | cbn; lia]. Qed.

End Json.
