(* ===== verification/Splice.v ===== *)
(** Rewriting a byte slice in place of some of its ranges: what a loop that
    appends [body[last:start]], a replacement, and moves [last] on computes. *)

From S2P Require Import Prelude GoString Json.
From Stdlib Require Import Ascii String.

Open Scope list_scope.
Open Scope nat_scope.

Module Splice.
Import Json.

#[local] Abbreviation length := List.length.

(** [l[s:e]] *)
Definition slice (l : bytes) (s e : nat) : bytes := take (e - s) (drop s l).

(** One replacement: the range [s, e) of the body and what stands there after. *)
Record edit := mkEdit { from : nat; upto : nat; repl : bytes }.

Fixpoint copy (body : bytes) (last : nat) (es : list edit) : bytes :=
  match es with
  | [] => []
  | e :: es' => slice body last (from e) ++ repl e ++ copy body (upto e) es'
  end.

Fixpoint last_end (last : nat) (es : list edit) : nat :=
  match es with [] => last | e :: es' => last_end (upto e) es' end.

(** The reference: every edit in order, everything between them as it was. *)
Definition apply_edits (body : bytes) (es : list edit) : bytes :=
  copy body 0 es ++ drop (last_end 0 es) body.

Lemma last_end_app es1 es2 last : last_end last (es1 ++ es2) = last_end (last_end last es1) es2.
Proof. revert last. induction es1; intros; cbn; auto. Qed.

Lemma copy_app body es1 es2 last :
  copy body last (es1 ++ es2) = copy body last es1 ++ copy body (last_end last es1) es2.
Proof.
  revert last. induction es1 as [|e es1 IH]; intros last; cbn; [done |]. by rewrite IH, <- !app_assoc.
Qed.

Lemma slice_slice {A} (l : list A) a b s e :
  a + e <= b ->
  take (e - s) (drop s (take (b - a) (drop a l))) = take (a + e - (a + s)) (drop (a + s) l).
Proof.
  intros H. rewrite skipn_firstn_comm, drop_drop, take_take. f_equal. lia.
Qed.

Lemma slice_length (l : bytes) s e : e <= length l -> length (slice l s e) = e - s.
Proof. intros H. unfold slice. rewrite length_take, length_drop. lia. Qed.

(** Edits in order and inside the body, past the point already copied. *)
Fixpoint edits_from (body : bytes) (last : nat) (es : list edit) : Prop :=
  match es with
  | [] => last <= length body
  | e :: es' => last <= from e /\ from e <= upto e /\ edits_from body (upto e) es'
  end.

Lemma edits_from_le body last es : edits_from body last es -> last <= length body.
Proof.
  revert last. induction es as [|e es IH]; intros last; cbn; [done |].
  intros (? & ? & H). apply IH in H. lia.
Qed.

Lemma edits_from_weaken body last last' es :
  last' <= last -> edits_from body last es -> edits_from body last' es.
Proof. destruct es as [|e es]; cbn; lia || (intros ? (? & ? & ?); split_and!; try done; lia). Qed.

Lemma edits_from_app body es1 es2 : forall last,
  edits_from body last es1 -> edits_from body (last_end last es1) es2 -> edits_from body last (es1 ++ es2).
Proof.
  induction es1 as [|e es1 IH]; intros last H1 H2; [done |].
  destruct H1 as (? & ? & ?). cbn. split_and!; auto.
Qed.

Lemma last_end_le body es : forall last, edits_from body last es -> last <= last_end last es <= length body.
Proof.
  induction es as [|e es IH]; intros last H; cbn in *; [lia |].
  destruct H as (? & ? & H). apply IH in H. lia.
Qed.

(** Edits moved by the offset of the stretch they were found in. *)
Definition shift_edit (base : nat) (e : edit) : edit := mkEdit (base + from e) (base + upto e) (repl e).

Lemma shift_edits_from body base n es : forall last,
  base + n <= length body -> edits_from (slice body base (base + n)) last es ->
  edits_from body (base + last) (List.map (shift_edit base) es) /\
  last_end (base + last) (List.map (shift_edit base) es) = base + last_end last es.
Proof.
  assert (base + n <= length body -> length (slice body base (base + n)) = n) as Hl.
  { intros H. rewrite slice_length by done. lia. }
  induction es as [|e es IH]; intros last Hn He; cbn in *; [rewrite Hl in He by done; split; [lia | done] |].
  destruct He as (? & ? & He). destruct (IH _ Hn He). split; [split_and!; [lia | lia | done] | done].
Qed.

Lemma slice_of_slice (l : bytes) base n a b :
  b <= n -> slice (slice l base (base + n)) a b = slice l (base + a) (base + b).
Proof.
  intros H. unfold slice. rewrite skipn_firstn_comm, drop_drop, take_take. f_equal. lia.
Qed.

(** Rewriting a stretch is rewriting the body there. *)
Lemma copy_shift body base n es : forall last,
  base + n <= length body -> edits_from (slice body base (base + n)) last es ->
  copy (slice body base (base + n)) last es = copy body (base + last) (List.map (shift_edit base) es).
Proof.
  induction es as [|e es IH]; intros last Hn He; [done |]. destruct He as (H1 & H2 & H3).
  pose proof (edits_from_le _ _ _ H3) as Hle. rewrite slice_length in Hle by lia.
  cbn [copy List.map shift_edit from upto repl]. by rewrite slice_of_slice, IH by (done || lia).
Qed.

Lemma apply_edits_shift body base n es :
  base + n <= length body -> edits_from (slice body base (base + n)) 0 es ->
  apply_edits (slice body base (base + n)) es
  = copy body base (List.map (shift_edit base) es)
    ++ slice body (last_end base (List.map (shift_edit base) es)) (base + n).
Proof.
  intros Hn He. unfold apply_edits. rewrite copy_shift, Nat.add_0_r by done. f_equal.
  destruct (shift_edits_from body base n es 0 Hn He) as [_ Hl]. rewrite Nat.add_0_r in Hl. rewrite Hl.
  unfold slice. rewrite skipn_firstn_comm, drop_drop. f_equal. lia.
Qed.

Lemma slice_app (l : bytes) a b c : a <= b <= c -> c <= length l -> slice l a b ++ slice l b c = slice l a c.
Proof.
  intros H Hc. unfold slice.
  replace (c - a) with ((b - a) + (c - b)) by lia.
  replace (drop b l) with (drop (b - a) (drop a l)) by (rewrite drop_drop; f_equal; lia).
  generalize (drop a l) as k. intros k. apply take_take_drop.
Qed.

Lemma slice_to_end (l : bytes) a b : a <= b <= length l -> slice l a b ++ drop b l = drop a l.
Proof.
  intros H. unfold slice. replace (drop b l) with (drop (b - a) (drop a l)) by (rewrite drop_drop; f_equal; lia).
  apply take_drop.
Qed.

(** Putting back what was there changes nothing. *)
Lemma apply_same body es :
  edits_from body 0 es -> Forall (fun e => repl e = slice body (from e) (upto e)) es ->
  apply_edits body es = body.
Proof.
  intros He Hr. unfold apply_edits.
  assert (forall last, edits_from body last es ->
            copy body last es ++ drop (last_end last es) body = drop last body) as H.
  { clear He. induction Hr as [|e es Hr _ IH]; intros last; cbn; [done |].
    intros (H1 & H2 & H3). pose proof (edits_from_le _ _ _ H3).
    rewrite Hr, <- !app_assoc, IH by done.
    rewrite (slice_to_end _ (from e) (upto e)), slice_to_end by lia. done. }
  rewrite H; done.
Qed.

End Splice.
