(* ===== verification/Wire.v ===== *)
(** Measuring content on the wire ([ContentBytes] of
    [src/internal/transcript/wire.go]): how many bytes a JSON value decodes to,
    counted without decoding it; and the decoder loop it replaced, which the
    repository keeps as its test oracle.  How deep the decoder nests depends on
    the toolchain, and is an argument of that loop.

    An index into the bytes is the suffix that starts there, so the end a
    function returns is what is left.  Counts are plain sums: at most three for
    each byte of a slice, they cannot overflow.  A failed scan's index is read
    by no caller and is left out. *)

From S2P Require Import Prelude GoString Json.
From Stdlib Require Import Ascii String.

Open Scope string_scope.
Open Scope list_scope.
Open Scope Z_scope.

Module Wire.
Import Json.

#[local] Abbreviation length := List.length.

Definition size_of (l : bytes) : Z := Z.of_nat (length l).

(** ** Strings *)

(** [utf8.RuneLen]; no surrogate is ever asked for. *)
Definition RuneLen (r : N) : Z :=
  if (r <? 128)%N then 1 else if (r <? 2048)%N then 2
  else if in_range 55296 57343 r then -1
  else if (r <=? 65535)%N then 3 else if (r <=? 1114111)%N then 4 else -1.

Definition ReplacementChar : N := 65533%N.

(** [utf8.DecodeRune] *)
Definition DecodeRune (l : bytes) : N * nat :=
  match l with
  | [] => (ReplacementChar, 0%nat)
  | c :: _ => if (N_of_ascii c <? 128)%N then (N_of_ascii c, 1%nat) else decode_rune l
  end.

(** [readHex4]: the rune and what follows the four digits. *)
Definition readHex4 (l : bytes) : option (N * bytes) :=
  match l with
  | c1 :: c2 :: c3 :: c4 :: rest =>
      if forallb is_hex [c1; c2; c3; c4]
      then Some (fold_left (fun n c => n * 16 + hex_value c)%N [c1; c2; c3; c4] 0%N, rest)
      else None
  | _ => None
  end.

Definition readHex4Escape (l : bytes) : option (N * bytes) :=
  match l with
  | b :: u :: rest => if Ascii.eqb b backslash && Ascii.eqb u "u" then readHex4 rest else None
  | _ => None
  end.

Definition is_simple_escape (c : ascii) : bool :=
  existsb (Ascii.eqb c) [quote; backslash; "/"; "b"; "f"; "n"; "r"; "t"]%char.

(** The loop of [measureJSONString]; every turn consumes a byte. *)
Fixpoint string_loop (fuel : nat) (n : Z) (l : bytes) : option (Z * bytes) :=
  match fuel, l with
  | S fuel, c :: l' =>
      if Ascii.eqb c quote then Some (n, l')
      else if Ascii.eqb c backslash then
        match l' with
        | [] => None
        | e :: l'' =>
            if is_simple_escape e then string_loop fuel (n + 1) l''
            else if Ascii.eqb e "u" then
              match readHex4 l'' with
              | None => None
              | Some (r, rest) =>
                  if is_surrogate r then
                    match ('(r2, rest2) ← readHex4Escape rest; dec ← decode_surrogates r r2; Some (dec, rest2)) with
                    | Some (dec, rest2) => string_loop fuel (n + RuneLen dec) rest2
                    | None => string_loop fuel (n + RuneLen ReplacementChar) rest
                    end
                  else string_loop fuel (n + RuneLen r) rest
              end
            else None
        end
      else if (N_of_ascii c <? 32)%N then None
      else let '(r, size) := DecodeRune l in
           if (r =? ReplacementChar)%N && (size =? 1)%nat
           then string_loop fuel (n + RuneLen ReplacementChar) l'
           else string_loop fuel (n + Z.of_nat size) (drop size l)
  | _, _ => None
  end.

Definition measureJSONString (l : bytes) : option (Z * bytes) :=
  match l with
  | c :: l' => if Ascii.eqb c quote then string_loop (length l) 0 l' else None
  | [] => None
  end.

(** ** Numbers and keywords *)

Fixpoint skip_digits (l : bytes) : bytes :=
  match l with
  | c :: l' => if is_digit c then skip_digits l' else l
  | [] => []
  end.

(** A digit at least. *)
Definition some_digits (l : bytes) : option bytes :=
  match l with
  | c :: _ => if is_digit c then Some (skip_digits l) else None
  | [] => None
  end.

Definition number_integer (l : bytes) : option bytes :=
  match l with
  | [] => None
  | c :: l' => if Ascii.eqb c "0" then Some l' else if char_between "1" "9" c then Some (skip_digits l) else None
  end.

Definition number_fraction (l : bytes) : option bytes :=
  match l with
  | c :: l' => if Ascii.eqb c "." then some_digits l' else Some l
  | [] => Some []
  end.

Definition number_exponent (l : bytes) : option bytes :=
  match l with
  | c :: l' =>
      if Ascii.eqb c "e" || Ascii.eqb c "E" then
        some_digits (match l' with
                     | s :: l'' => if Ascii.eqb s "+" || Ascii.eqb s "-" then l'' else l'
                     | [] => []
                     end)
      else Some l
  | [] => Some []
  end.

Definition measureJSONNumber (l : bytes) : option (Z * bytes) :=
  rest ← number_integer (match l with c :: l' => if Ascii.eqb c "-" then l' else l | [] => [] end);
  rest ← number_fraction rest;
  rest ← number_exponent rest;
  Some (size_of l - size_of rest, rest).

Definition jsonWord (l : bytes) (word : string) : bool := is_prefix (of_string word) l.

(** ** Values *)

Inductive scanEnd := scanComplete | scanTruncated | scanBad.

Fixpoint skipJSONSpace (l : bytes) : bytes :=
  match l with
  | c :: l' => if is_json_space c then skipJSONSpace l' else l
  | [] => []
  end.

Definition measureJSONKey (l : bytes) : Z * bytes * scanEnd :=
  match measureJSONString l with
  | None => (0, [], scanBad)
  | Some (n, l) =>
      match skipJSONSpace l with
      | [] => (n, [], scanTruncated)
      | c :: l' => if Ascii.eqb c ":" then (n, l', scanComplete) else (0, [], scanBad)
      end
  end.

Definition obrace : ascii := "{"%char.
Definition obracket : ascii := "["%char.

(** One turn of the loop of [measureJSONValue]: the value at the scanner, when
    one is wanted, and then what follows a value.  [again] is the next turn. *)
Definition after_value (again : bool -> list ascii -> Z -> bytes -> Z * bytes * scanEnd)
    (stack : list ascii) (n : Z) (l : bytes) : Z * bytes * scanEnd :=
  match stack with
  | [] => (n, l, scanComplete)
  | top :: stack' =>
      match skipJSONSpace l with
      | [] => (n, [], scanTruncated)
      | c :: l =>
          if Ascii.eqb c "," then
            if Ascii.eqb top obrace then
              match skipJSONSpace l with
              | [] => (n, [], scanTruncated)
              | l => match measureJSONKey l with
                     | (m, next, scanComplete) => again true stack (n + m) next
                     | (m, next, k) => (n + m, next, k)
                     end
              end
            else again true stack n l
          else if Ascii.eqb c "}" then
            if Ascii.eqb top obrace then again false stack' n l else (0, [], scanBad)
          else if Ascii.eqb c "]" then
            if Ascii.eqb top obracket then again false stack' n l else (0, [], scanBad)
          else (0, [], scanBad)
      end
  end.

Definition word_value (again : bool -> list ascii -> Z -> bytes -> Z * bytes * scanEnd)
    (word : string) (stack : list ascii) (n : Z) (l : bytes) : Z * bytes * scanEnd :=
  if jsonWord l word then after_value again stack (n + len word) (drop (String.length word) l)
  else (0, [], scanBad).

Definition value_turn (again : bool -> list ascii -> Z -> bytes -> Z * bytes * scanEnd)
    (wantValue : bool) (stack : list ascii) (n : Z) (l : bytes) : Z * bytes * scanEnd :=
  if negb wantValue then after_value again stack n l
  else
    match skipJSONSpace l with
    | [] => (n, [], scanTruncated)
    | c :: l' =>
        if Ascii.eqb c obrace then
          match skipJSONSpace l' with
          | [] => (n, [], scanTruncated)
          | c' :: l'' =>
              if Ascii.eqb c' "}" then after_value again stack n l''
              else match measureJSONKey (c' :: l'') with
                   | (m, next, scanComplete) => again true (obrace :: stack) (n + m) next
                   | (m, next, k) => (n + m, next, k)
                   end
          end
        else if Ascii.eqb c obracket then
          match skipJSONSpace l' with
          | [] => (n, [], scanTruncated)
          | c' :: l'' => if Ascii.eqb c' "]" then after_value again stack n l''
                         else again true (obracket :: stack) n (c' :: l'')
          end
        else if Ascii.eqb c quote then
          match measureJSONString (c :: l') with
          | None => (0, [], scanBad)
          | Some (m, next) => after_value again stack (n + m) next
          end
        else if Ascii.eqb c "t" then word_value again "true" stack n (c :: l')
        else if Ascii.eqb c "f" then word_value again "false" stack n (c :: l')
        else if Ascii.eqb c "n" then word_value again "null" stack n (c :: l')
        else match measureJSONNumber (c :: l') with
             | None => (0, [], scanBad)
             | Some (m, next) => after_value again stack (n + m) next
             end
    end.

(** The loop; every turn consumes a byte or ends it. *)
Fixpoint value_loop (fuel : nat) (wantValue : bool) (stack : list ascii) (n : Z) (l : bytes) : Z * bytes * scanEnd :=
  match fuel with
  | O => (n, l, scanTruncated)
  | S fuel => value_turn (value_loop fuel) wantValue stack n l
  end.

Definition measureJSONValue (l : bytes) : Z * bytes * scanEnd := value_loop (S (length l)) true [] 0 l.

Fixpoint content_loop (fuel : nat) (n : Z) (l : bytes) : option Z :=
  match fuel with
  | O => Some n
  | S fuel =>
      match measureJSONValue l with
      | (m, next, scanComplete) => content_loop fuel (n + m) next
      | (m, _, scanTruncated) => Some (n + m)
      | (_, _, scanBad) => None
      end
  end.

Definition measureContent (l : bytes) : option Z := content_loop (S (length l)) 0 l.

Definition ContentBytes (raw : bytes) : Z :=
  match raw with
  | [] => 0
  | _ => default (size_of raw) (measureContent raw)
  end.

(** ** The decoder it replaced ([contentBytesReference] of the tests)

    Where the decoder stops nesting depends on the toolchain: up to go1.26 it
    never does, from go1.27 on a bracket or brace that opens the level past ten
    thousand is an error.  The limit is an argument. *)

Definition token_bytes (tok : token) (start stop : nat) : Z :=
  match tok with
  | Str v => len v
  | Scalar => Z.of_nat (stop - start)
  | Open _ | Close => 0
  end.

Definition too_deep (limit : option Z) (tok : token) (d : decoder) : bool :=
  match limit, tok with
  | Some k, Open _ => k <? Z.of_nat (length (d_stack d))
  | _, _ => false
  end.

Fixpoint reference_loop (limit : option Z) (fuel : nat) (d : decoder) (n : Z) : option Z :=
  match fuel with
  | O => Some n
  | S fuel =>
      match Token d with
      | TokEOF => Some n
      | TokErr => None
      | TokOk tok start d' =>
          if too_deep limit tok d' then None
          else reference_loop limit fuel d' (n + token_bytes tok start (d_pos d'))
      end
  end.

Definition contentBytesReference (limit : option Z) (raw : bytes) : Z :=
  match raw with
  | [] => 0
  | _ => default (size_of raw) (reference_loop limit (S (length raw)) (NewDecoder raw) 0)
  end.

(** The limit of go1.27, the toolchain the module asks for. *)
Definition maxNesting : Z := 10000.

End Wire.
