(* ===== verification/WireSpec.v ===== *)
(** [ContentBytes] is the decoder it replaced: on every input, well formed or
    not, the scan that decodes nothing counts what summing the decoder's tokens
    counts, as deep as the decoder nests; what is nested deeper the decoder
    gives up on and the scan still counts. *)

From S2P Require Import Prelude GoString Json Wire.
From Stdlib Require Import Ascii String.

Open Scope string_scope.
Open Scope list_scope.
Open Scope Z_scope.

Module WireSpec.
Import Json Wire.

#[local] Abbreviation length := List.length.

(** ** Escapes *)

Lemma simple_escape_same c :
  existsb (Ascii.eqb c) ["b"; "f"; "n"; "r"; "t"; "\"; "/"; quote]%char = is_simple_escape c.
Proof. by destruct c as [[] [] [] [] [] [] [] []]. Qed.

Lemma string_len_hex l :
  string_len (InEscU 4) l =
    match readHex4 l with Some (_, rest) => (fun k => (4 + k)%nat) <$> string_len InString rest | None => None end.
Proof.
  destruct l as [|c1 [|c2 [|c3 [|c4 rest]]]]; cbn [string_len readHex4 forallb];
    try (destruct (is_hex c1); [| done]); try (destruct (is_hex c2); [| done]); try (destruct (is_hex c3); [| done]);
    try (destruct (is_hex c4); [| done]); try done.
  cbn [andb]. by destruct (string_len InString rest).
Qed.

(** An escape of four digits, where a literal goes on. *)
Lemma string_len_escape_u l :
  string_len InString (backslash :: "u"%char :: l) =
    match readHex4 l with Some (_, rest) => (fun k => (6 + k)%nat) <$> string_len InString rest | None => None end.
Proof.
  cbn [string_len]. change (Ascii.eqb backslash quote) with false. change (Ascii.eqb backslash backslash) with true.
  rewrite simple_escape_same. change (is_simple_escape "u") with false. change (Ascii.eqb "u" "u") with true.
  cbv iota. rewrite string_len_hex. destruct (readHex4 l) as [[r rest]|]; [| done].
  by destruct (string_len InString rest).
Qed.

Lemma readHex4_take l r rest m :
  readHex4 l = Some (r, rest) ->
  exists h1 h2 h3 h4, l = h1 :: h2 :: h3 :: h4 :: rest /\ take (4 + m) l = h1 :: h2 :: h3 :: h4 :: take m rest /\
    forallb is_hex [h1; h2; h3; h4] = true /\
    r = fold_left (fun n c => n * 16 + hex_value c)%N [h1; h2; h3; h4] 0%N.
Proof.
  unfold readHex4. destruct l as [|h1 [|h2 [|h3 [|h4 l]]]]; try done.
  destruct (forallb is_hex [h1; h2; h3; h4]) eqn:E; [| done]. intros [= <- <-]. by exists h1, h2, h3, h4.
Qed.

Lemma readHex4Escape_inv l r rest :
  readHex4Escape l = Some (r, rest) -> exists l', l = backslash :: "u"%char :: l' /\ readHex4 l' = Some (r, rest).
Proof.
  unfold readHex4Escape. destruct l as [|b [|u l]]; try done.
  destruct (Ascii.eqb_spec b backslash) as [->|]; [| done]. cbn [andb].
  destruct (Ascii.eqb_spec u "u") as [->|]; [| done]. intros H. by exists l.
Qed.

(** The decoder reads the escape that follows inside the literal; the scanner
    reads it where it is.  They see the same one. *)
Lemma getu4_take l k :
  string_len InString l = Some k -> getu4 (take (k - 1) l) = fst <$> readHex4Escape l.
Proof.
  intros Hk. destruct (readHex4Escape l) as [[r rest]|] eqn:E.
  - apply readHex4Escape_inv in E as (l' & -> & Hr). rewrite string_len_escape_u, Hr in Hk.
    destruct (string_len InString rest) as [m|] eqn:Em; [| done]. injection Hk as <-.
    match goal with |- getu4 (take ?k _) = _ => replace k with (S (S (4 + (m - 1)))) by (apply string_len_pos in Em; lia) end.
    destruct (readHex4_take _ _ _ (m - 1) Hr) as (h1 & h2 & h3 & h4 & _ & Ht & Hx & ->).
    change (take (S (S (4 + (m - 1)))) (backslash :: "u"%char :: l')) with (backslash :: "u"%char :: take (4 + (m - 1)) l').
    rewrite Ht. unfold getu4. rewrite !Ascii.eqb_refl. cbn [andb]. by rewrite Hx.
  - cbn. unfold getu4. destruct (take (k - 1) l) as [|b [|u [|c1 [|c2 [|c3 [|c4 t]]]]]] eqn:Et; try done.
    destruct (Ascii.eqb b backslash && Ascii.eqb u "u" && forallb is_hex [c1; c2; c3; c4]) eqn:Eb; [| done].
    exfalso. assert (exists t', l = b :: u :: c1 :: c2 :: c3 :: c4 :: t') as [t' ->].
    { exists (t ++ drop (k - 1) l). rewrite <- (take_drop (k - 1) l) at 1. by rewrite Et. }
    unfold readHex4Escape, readHex4 in E. apply andb_true_iff in Eb as [Eb Hx]. rewrite Eb, Hx in E. done.
Qed.

(** ** UTF-8 *)

Definition high (c : ascii) : bool := (128 <=? N_of_ascii c)%N.

Lemma in_range_spec lo hi n : in_range lo hi n = true <-> (lo <= n <= hi)%N.
Proof. unfold in_range. rewrite andb_true_iff, !N.leb_le. done. Qed.

(** The bytes of a rune are none that a literal's scanner looks at. *)
Lemma string_len_high p l :
  forallb high p = true -> string_len InString (p ++ l) = (fun k => (length p + k)%nat) <$> string_len InString l.
Proof.
  induction p as [|c p IH]; cbn [forallb]; intros H; [cbn; by destruct (string_len InString l) |].
  apply andb_true_iff in H as [Hc Hp]. unfold high in Hc. apply N.leb_le in Hc. cbn [app string_len].
  destruct (Ascii.eqb_spec c quote) as [->|_]; [by cbv in Hc |].
  destruct (Ascii.eqb_spec c backslash) as [->|_]; [by cbv in Hc |].
  rewrite (proj2 (N.ltb_ge _ _)) by lia. rewrite IH by done. by destruct (string_len InString l).
Qed.

(** What a sequence the decoder accepts is: as many bytes as the rune encodes
    to, none of them ASCII, read the same wherever the sequence stands. *)
Definition sound_rune (l : bytes) (r : N) (w : nat) : Prop :=
  (2 <= w <= 4)%nat /\ length (encode_rune r) = w /\ RuneLen r = Z.of_nat w /\
  exists p q, l = p ++ q /\ length p = w /\ forallb high p = true /\ forall q', decode_rune (p ++ q') = (r, w).

Lemma rune_width_2 r : (128 <= r <= 2047)%N -> length (encode_rune r) = 2%nat /\ RuneLen r = 2.
Proof.
  intros H. unfold encode_rune, RuneLen.
  rewrite (proj2 (N.ltb_ge r 128)), (proj2 (N.ltb_lt r 2048)) by lia. done.
Qed.

Lemma rune_width_3 r :
  (2048 <= r <= 65535)%N -> is_surrogate r = false -> length (encode_rune r) = 3%nat /\ RuneLen r = 3.
Proof.
  intros H Hs. unfold is_surrogate in Hs. unfold encode_rune, RuneLen. rewrite Hs.
  rewrite (proj2 (N.ltb_ge r 128)), (proj2 (N.ltb_ge r 2048)), (proj2 (N.ltb_ge 1114111 r)),
    (proj2 (N.ltb_lt r 65536)), (proj2 (N.leb_le r 65535)) by lia. done.
Qed.

Lemma not_surrogate r : (r < 55296 \/ 57343 < r)%N -> is_surrogate r = false.
Proof.
  intros H. unfold is_surrogate. destruct (in_range 55296 57343 r) eqn:E; [| done]. apply in_range_spec in E. lia.
Qed.

Lemma rune_width_4 r : (65536 <= r <= 1114111)%N -> length (encode_rune r) = 4%nat /\ RuneLen r = 4.
Proof.
  intros H. pose proof (not_surrogate r ltac:(lia)) as Hs. unfold is_surrogate in Hs. unfold encode_rune, RuneLen. rewrite Hs.
  rewrite (proj2 (N.ltb_ge r 128)), (proj2 (N.ltb_ge r 2048)), (proj2 (N.ltb_ge 1114111 r)),
    (proj2 (N.ltb_ge r 65536)), (proj2 (N.leb_gt r 65535)), (proj2 (N.leb_le r 1114111)) by lia. done.
Qed.

Lemma rune_width_1 r : (r < 128)%N -> length (encode_rune r) = 1%nat /\ RuneLen r = 1.
Proof. intros H. unfold encode_rune, RuneLen. by rewrite (proj2 (N.ltb_lt r 128)). Qed.

(** A rune of the basic plane, as an escape names it. *)
Lemma RuneLen_encode r :
  (r <= 1114111)%N -> is_surrogate r = false -> RuneLen r = size_of (encode_rune r).
Proof.
  intros H Hs. unfold size_of.
  destruct (N.lt_ge_cases r 128); [by destruct (rune_width_1 r) as [-> ->] |].
  destruct (N.lt_ge_cases r 2048); [destruct (rune_width_2 r) as [-> ->]; [lia | done] |].
  destruct (N.lt_ge_cases r 65536); [destruct (rune_width_3 r) as [-> ->]; [lia | done | done] |].
  destruct (rune_width_4 r) as [-> ->]; [lia | done].
Qed.

Lemma sound_rune_of p q r :
  (2 <= length p <= 4)%nat -> length (encode_rune r) = length p -> RuneLen r = Z.of_nat (length p) ->
  forallb high p = true -> (forall q', decode_rune (p ++ q') = (r, length p)) -> sound_rune (p ++ q) r (length p).
Proof. intros. split_and!; try done; try lia. by exists p, q. Qed.

Lemma high_of c lo hi : in_range lo hi (N_of_ascii c) = true -> (128 <= lo)%N -> high c = true.
Proof. intros H Hl. apply in_range_spec in H. apply N.leb_le. lia. Qed.

Lemma mod_above m a n : (0 < m)%N -> (a mod m = 0)%N -> (a <= n < a + m)%N -> (n mod m = n - a)%N.
Proof.
  intros Hm Ha Hn. symmetry. apply (N.mod_unique n m (a / m)); [lia |].
  pose proof (N.div_mod' a m). lia.
Qed.

Lemma rune_bounds_2 a b :
  (194 <= a <= 223)%N -> (128 <= b <= 191)%N -> (128 <= a mod 32 * 64 + b mod 64 <= 2047)%N.
Proof. intros. rewrite (mod_above 32 192 a), (mod_above 64 128 b) by (done || lia). lia. Qed.

Lemma rune_bounds_3 a b c :
  (224 <= a <= 239)%N -> ((if a =? 224 then 160 else 128) <= b <= if a =? 237 then 159 else 191)%N -> (128 <= c <= 191)%N ->
  let r := (a mod 16 * 4096 + b mod 64 * 64 + c mod 64)%N in
  ((2048 <= r <= 65535) /\ (r < 55296 \/ 57343 < r))%N.
Proof.
  intros Ha Hb Hc r. subst r.
  assert (128 <= b <= 191)%N by (destruct (a =? 224)%N, (a =? 237)%N; lia).
  rewrite (mod_above 16 224 a), (mod_above 64 128 b), (mod_above 64 128 c) by (done || lia).
  destruct (N.eqb_spec a 224), (N.eqb_spec a 237); lia.
Qed.

Lemma rune_bounds_4 a b c d :
  (240 <= a <= 244)%N -> ((if a =? 240 then 144 else 128) <= b <= if a =? 244 then 143 else 191)%N ->
  (128 <= c <= 191)%N -> (128 <= d <= 191)%N ->
  (65536 <= a mod 8 * 262144 + b mod 64 * 4096 + c mod 64 * 64 + d mod 64 <= 1114111)%N.
Proof.
  intros Ha Hb Hc Hd.
  assert (128 <= b <= 191)%N by (destruct (a =? 240)%N, (a =? 244)%N; lia).
  rewrite (mod_above 8 240 a), (mod_above 64 128 b), (mod_above 64 128 c), (mod_above 64 128 d) by (done || lia).
  destruct (N.eqb_spec a 240), (N.eqb_spec a 244); lia.
Qed.

Lemma decode_rune_sound_2 c0 l : in_range 194 223 (N_of_ascii c0) = true ->
  decode_rune (c0 :: l) = (ReplacementChar, 1%nat) \/ sound_rune (c0 :: l) (decode_rune (c0 :: l)).1 (decode_rune (c0 :: l)).2.
Proof.
  intros E2. destruct l as [|c1 l]; [left; unfold decode_rune; by rewrite E2 |].
  destruct (is_cont c1) eqn:C1; [| left; unfold decode_rune; by rewrite E2, C1].
  assert (forall q, decode_rune ([c0; c1] ++ q)
            = ((N_of_ascii c0 mod 32 * 64 + N_of_ascii c1 mod 64)%N, 2%nat)) as Hd.
  { intros q. unfold decode_rune. cbn [app]. by rewrite E2, C1. }
  right. change (c0 :: c1 :: l) with ([c0; c1] ++ l). rewrite Hd. unfold is_cont in C1.
  destruct (rune_width_2 (N_of_ascii c0 mod 32 * 64 + N_of_ascii c1 mod 64)) as [Hw Hr]; [apply rune_bounds_2; by apply in_range_spec |].
  apply (sound_rune_of [c0; c1]); [cbn; lia | exact Hw | exact Hr | | exact Hd].
  cbn. by rewrite (high_of _ _ _ E2), (high_of _ _ _ C1).
Qed.

Lemma decode_rune_sound_3 c0 l :
  in_range 194 223 (N_of_ascii c0) = false -> in_range 224 239 (N_of_ascii c0) = true ->
  decode_rune (c0 :: l) = (ReplacementChar, 1%nat) \/ sound_rune (c0 :: l) (decode_rune (c0 :: l)).1 (decode_rune (c0 :: l)).2.
Proof.
  intros E2 E3. destruct l as [|c1 [|c2 l]]; [left; unfold decode_rune; by rewrite E2, E3 ..|].
  set (lo := if (N_of_ascii c0 =? 224)%N then 160%N else 128%N). set (hi := if (N_of_ascii c0 =? 237)%N then 159%N else 191%N).
  destruct (in_range lo hi (N_of_ascii c1) && is_cont c2) eqn:C;
    [| left; unfold decode_rune; rewrite E2, E3; fold lo hi; by rewrite C].
  set (r := (N_of_ascii c0 mod 16 * 4096 + N_of_ascii c1 mod 64 * 64 + N_of_ascii c2 mod 64)%N).
  assert (forall q, decode_rune ([c0; c1; c2] ++ q) = (r, 3%nat)) as Hd.
  { intros q. unfold decode_rune. cbn [app]. rewrite E2, E3. fold lo hi. by rewrite C. }
  right. change (c0 :: c1 :: c2 :: l) with ([c0; c1; c2] ++ l). rewrite Hd.
  apply andb_true_iff in C as [C1 C2]. unfold is_cont in C2.
  assert (128 <= lo)%N by (unfold lo; case_match; lia).
  assert ((2048 <= r <= 65535) /\ (r < 55296 \/ 57343 < r))%N as [Hr Hs].
  { by apply rune_bounds_3; apply in_range_spec. }
  destruct (rune_width_3 r Hr (not_surrogate _ Hs)) as [Hw Hl].
  apply (sound_rune_of [c0; c1; c2]); [cbn; lia | exact Hw | exact Hl | | exact Hd].
  cbn. by rewrite (high_of _ _ _ E3), (high_of _ _ _ C1), (high_of _ _ _ C2).
Qed.

Lemma decode_rune_sound_4 c0 l :
  in_range 194 223 (N_of_ascii c0) = false -> in_range 224 239 (N_of_ascii c0) = false ->
  in_range 240 244 (N_of_ascii c0) = true ->
  decode_rune (c0 :: l) = (ReplacementChar, 1%nat) \/ sound_rune (c0 :: l) (decode_rune (c0 :: l)).1 (decode_rune (c0 :: l)).2.
Proof.
  intros E2 E3 E4. destruct l as [|c1 [|c2 [|c3 l]]]; [left; unfold decode_rune; by rewrite E2, E3, E4 ..|].
  set (lo := if (N_of_ascii c0 =? 240)%N then 144%N else 128%N). set (hi := if (N_of_ascii c0 =? 244)%N then 143%N else 191%N).
  destruct (in_range lo hi (N_of_ascii c1) && is_cont c2 && is_cont c3) eqn:C;
    [| left; unfold decode_rune; rewrite E2, E3, E4; fold lo hi; by rewrite C].
  set (r := (N_of_ascii c0 mod 8 * 262144 + N_of_ascii c1 mod 64 * 4096 + N_of_ascii c2 mod 64 * 64 + N_of_ascii c3 mod 64)%N).
  assert (forall q, decode_rune ([c0; c1; c2; c3] ++ q) = (r, 4%nat)) as Hd.
  { intros q. unfold decode_rune. cbn [app]. rewrite E2, E3, E4. fold lo hi. by rewrite C. }
  right. change (c0 :: c1 :: c2 :: c3 :: l) with ([c0; c1; c2; c3] ++ l). rewrite Hd.
  apply andb_true_iff in C as [C C3]. apply andb_true_iff in C as [C1 C2]. unfold is_cont in C2, C3.
  assert (128 <= lo)%N by (unfold lo; case_match; lia).
  assert (65536 <= r <= 1114111)%N as Hr.
  { by apply rune_bounds_4; apply in_range_spec. }
  destruct (rune_width_4 r Hr) as [Hw Hl].
  apply (sound_rune_of [c0; c1; c2; c3]); [cbn; lia | exact Hw | exact Hl | | exact Hd].
  cbn. by rewrite (high_of _ _ _ E4), (high_of _ _ _ C1), (high_of _ _ _ C2), (high_of _ _ _ C3).
Qed.

Lemma decode_rune_sound l : decode_rune l = (ReplacementChar, 1%nat) \/ sound_rune l (decode_rune l).1 (decode_rune l).2.
Proof.
  destruct l as [|c0 l]; [by left |].
  destruct (in_range 194 223 (N_of_ascii c0)) eqn:E2; [by apply decode_rune_sound_2 |].
  destruct (in_range 224 239 (N_of_ascii c0)) eqn:E3; [by apply decode_rune_sound_3 |].
  destruct (in_range 240 244 (N_of_ascii c0)) eqn:E4; [by apply decode_rune_sound_4 |].
  left. unfold decode_rune. by rewrite E2, E3, E4.
Qed.

Lemma take_inner (p q : bytes) m :
  (1 <= m)%nat -> take (length p + m - 1) (p ++ q) = p ++ take (m - 1) q.
Proof.
  intros Hm. replace (length p + m - 1)%nat with (length p + (m - 1))%nat by lia. by rewrite firstn_app_2.
Qed.

(** The decoder reads a rune inside the literal, the scanner where it is. *)
Lemma decode_rune_take l k :
  string_len InString l = Some k -> decode_rune (take (k - 1) l) = decode_rune l.
Proof.
  intros Hk. destruct (decode_rune_sound l) as [Hl | Hl].
  - destruct (decode_rune_sound (take (k - 1) l)) as [Ht | (_ & _ & _ & p & q & Hp & _ & _ & Hd)]; [by rewrite Ht, Hl |].
    rewrite <- (take_drop (k - 1) l) at 2. rewrite Hp, <- app_assoc, (Hd (q ++ drop (k - 1) l)), Hp, (Hd q). done.
  - destruct Hl as (_ & _ & _ & p & q & -> & _ & Hh & Hd). rewrite string_len_high in Hk by done.
    destruct (string_len InString q) as [m|] eqn:Em; [| done]. injection Hk as <-.
    apply string_len_pos in Em as [Hm _]. rewrite (take_inner p q m Hm).
    by rewrite (Hd (take (m - 1) q)), <- surjective_pairing.
Qed.

(** ** A literal *)

Lemma unquote_fuel f1 : forall f2 l, (length l <= f1)%nat -> (length l <= f2)%nat -> unquote f1 l = unquote f2 l.
Proof.
  induction f1 as [|f1 IH]; intros f2 l H1 H2.
  { destruct l; [by destruct f2 | cbn in H1; lia]. }
  destruct f2 as [|f2]; [destruct l; [done | cbn in H2; lia] |].
  destruct l as [|c l]; [done |]. cbn [length] in H1, H2.
  assert (forall m, unquote f1 (drop m l) = unquote f2 (drop m l)) as Hd
    by (intros m; apply IH; rewrite length_drop; lia).
  assert (unquote f1 l = unquote f2 l) as H0 by exact (Hd 0%nat).
  assert (forall w, (1 <= w)%nat -> unquote f1 (drop w (c :: l)) = unquote f2 (drop w (c :: l))) as Hw
    by (intros [|w] ?; [lia | exact (Hd w)]).
  cbn [unquote]. destruct (Ascii.eqb c backslash).
  - destruct l as [|e l]; [done |]. assert (unquote f1 l = unquote f2 l) as H1' by exact (Hd 1%nat).
    destruct (Ascii.eqb e "u"); [| by rewrite H1'].
    rewrite !drop_drop. destruct (getu4 (c :: e :: l)); [| done].
    destruct (is_surrogate n); [| by rewrite Hw by lia].
    case_match; by rewrite Hw by lia.
  - destruct (N_of_ascii c <? 128)%N; [by rewrite H0 |].
    destruct (decode_rune_sound (c :: l)) as [-> | (Hb & _)]; [by rewrite Hw by lia |].
    destruct (decode_rune (c :: l)) as [r w]. cbn in Hb. by rewrite Hw by lia.
Qed.

Lemma len_to_string l : len (to_string l) = size_of l.
Proof. unfold len, size_of, to_string. f_equal. induction l as [|c l IH]; cbn; [done | by rewrite IH]. Qed.

(** What the decoder makes of the literal that starts here, behind its quote. *)
Definition string_spec (g : nat) (n : Z) (l : bytes) : option (Z * bytes) :=
  k ← string_len InString l; Some (n + size_of (unquote g (take (k - 1) l)), drop k l).

Lemma string_spec_fuel g n l :
  (length l <= g)%nat ->
  string_spec g n l = (k ← string_len InString l; Some (n + len (decode_literal (take (k - 1) l)), drop k l)).
Proof.
  intros Hg. unfold string_spec. destruct (string_len InString l) as [k|] eqn:E; [| done]. cbn [mbind option_bind].
  unfold decode_literal. rewrite (unquote_fuel g (length (take (k - 1) l))); [| rewrite length_take; lia | lia].
  by rewrite len_to_string.
Qed.

(** A piece of a literal: [p] decodes to [x] whatever follows it. *)
Lemma string_spec_piece p l g n x :
  string_len InString (p ++ l) = (fun k => (length p + k)%nat) <$> string_len InString l ->
  (forall k, string_len InString l = Some k -> unquote (S g) (p ++ take (k - 1) l) = x ++ unquote g (take (k - 1) l)) ->
  string_spec (S g) n (p ++ l) = string_spec g (n + size_of x) l.
Proof.
  intros Hl Hu. unfold string_spec. rewrite Hl. destruct (string_len InString l) as [k|] eqn:E; [| done].
  cbn [fmap option_fmap option_map mbind option_bind]. apply string_len_pos in E as Hk.
  rewrite take_inner by lia. rewrite Hu by done. unfold size_of. rewrite length_app, skipn_app.
  rewrite (drop_ge p) by lia. replace (length p + k - length p)%nat with k by lia. cbn [app]. do 2 f_equal. lia.
Qed.

Lemma string_spec_simple e l g n :
  is_simple_escape e = true -> string_spec (S g) n (backslash :: e :: l) = string_spec g (n + 1) l.
Proof.
  intros He.
  assert (Ascii.eqb e "u" = false) as Hu by (destruct (Ascii.eqb_spec e "u") as [->|]; [by cbv in He | done]).
  apply (string_spec_piece [backslash; e] l g n [if Ascii.eqb e "b" then byte 8 else if Ascii.eqb e "f" then byte 12
                  else if Ascii.eqb e "n" then byte 10 else if Ascii.eqb e "r" then byte 13
                  else if Ascii.eqb e "t" then byte 9 else e]).
  - cbn [app string_len]. change (Ascii.eqb backslash quote) with false. change (Ascii.eqb backslash backslash) with true.
    rewrite simple_escape_same, He. cbv iota. by destruct (string_len InString l).
  - intros k _. cbn [app unquote]. change (Ascii.eqb backslash backslash) with true. cbv iota. by rewrite Hu.
Qed.

Lemma string_spec_ascii c l g n :
  Ascii.eqb c quote = false -> Ascii.eqb c backslash = false -> (32 <= N_of_ascii c < 128)%N ->
  string_spec (S g) n (c :: l) = string_spec g (n + 1) l.
Proof.
  intros Hq Hb Hc. apply (string_spec_piece [c] l g n [c]).
  - cbn [app string_len]. rewrite Hq, Hb, (proj2 (N.ltb_ge _ 32)) by lia. by destruct (string_len InString l).
  - intros k _. cbn [app unquote]. by rewrite Hb, (proj2 (N.ltb_lt _ 128)) by lia.
Qed.

Lemma string_spec_high l g n :
  (exists c l', l = c :: l' /\ (128 <= N_of_ascii c)%N) ->
  string_spec (S g) n l =
    (let '(r, size) := decode_rune l in
     if (r =? ReplacementChar)%N && (size =? 1)%nat
     then string_spec g (n + RuneLen ReplacementChar) (drop 1 l)
     else string_spec g (n + Z.of_nat size) (drop size l)).
Proof.
  intros (c & l' & -> & Hc).
  assert (high c = true) as Hh by (by apply N.leb_le).
  assert (forall rest, unquote (S g) (c :: rest)
            = encode_rune (decode_rune (c :: rest)).1 ++ unquote g (drop (decode_rune (c :: rest)).2 (c :: rest))) as Hu.
  { intros rest. cbn [unquote]. destruct (Ascii.eqb_spec c backslash) as [->|_]; [by cbv in Hc |].
    rewrite (proj2 (N.ltb_ge _ 128)) by lia. by destruct (decode_rune (c :: rest)). }
  destruct (decode_rune_sound (c :: l')) as [Hbad | (Hw & Hlen & _ & p & q & Heq & Hp & Hhigh & Hd)].
  - rewrite Hbad. apply (string_spec_piece [c] l' g n (encode_rune ReplacementChar)).
    + apply (string_len_high [c]). cbn. by rewrite Hh.
    + intros k Hk. change ([c] ++ take (k - 1) l') with (c :: take (k - 1) l'). rewrite Hu.
      pose proof (decode_rune_take ([c] ++ l') (length [c] + k)) as Ht.
      rewrite (string_len_high [c] l') in Ht by (cbn; by rewrite Hh). rewrite Hk in Ht. specialize (Ht eq_refl).
      apply string_len_pos in Hk as [Hk _]. rewrite (take_inner [c] l' k Hk) in Ht. cbn [app] in Ht. by rewrite Ht, Hbad.
  - set (w := (decode_rune (c :: l')).2) in *. set (r := (decode_rune (c :: l')).1) in *.
    rewrite (surjective_pairing (decode_rune (c :: l'))). fold w r.
    assert ((w =? 1)%nat = false) as Hne by (apply Nat.eqb_neq; lia).
    rewrite Hne, andb_false_r. rewrite <- Hlen at 1. rewrite Hp in Heq || rewrite Heq.
    replace (drop w (p ++ q)) with q by (by rewrite <- Hp, drop_app_length).
    apply string_spec_piece; [by apply string_len_high |].
    intros k Hk. destruct p as [|c' p]; [cbn in Hp; lia |]. cbn [app]. injection Heq as <- _.
    rewrite Hu. change (c :: p ++ take (k - 1) q) with ((c :: p) ++ take (k - 1) q). rewrite Hd. cbn [fst snd].
    f_equal. by rewrite <- Hp, drop_app_length.
Qed.

(** *** Escapes by code *)

Lemma readHex4_le l r rest : readHex4 l = Some (r, rest) -> (r <= 65535)%N.
Proof.
  intros H. destruct (readHex4_take _ _ _ 0 H) as (h1 & h2 & h3 & h4 & _ & _ & Hx & ->).
  assert (forall c, is_hex c = true -> (hex_value c <= 15)%N) as Hv.
  { intros [[] [] [] [] [] [] [] []]; done. }
  cbn in Hx. repeat (apply andb_true_iff in Hx as [? Hx]).
  repeat match goal with H : is_hex ?c = true |- _ => apply Hv in H end. cbn [fold_left]. lia.
Qed.

Lemma getu4_of l r rest : readHex4 l = Some (r, rest) ->
  string_len InString (backslash :: "u"%char :: l) = (fun k => (6 + k)%nat) <$> string_len InString rest /\
  exists h, l = h ++ rest /\ length h = 4%nat /\ forall t, getu4 (backslash :: "u"%char :: h ++ t) = Some r.
Proof.
  intros H. split; [by rewrite string_len_escape_u, H |].
  destruct (readHex4_take _ _ _ 0 H) as (h1 & h2 & h3 & h4 & -> & _ & Hx & ->).
  exists [h1; h2; h3; h4]. split_and!; [done.. |]. intros t. cbn [app getu4]. by rewrite !Ascii.eqb_refl, Hx.
Qed.

Lemma decode_surrogates_le r r2 dec :
  decode_surrogates r r2 = Some dec -> (65536 <= dec <= 1114111)%N.
Proof.
  unfold decode_surrogates. destruct (in_range 55296 56319 r) eqn:E1, (in_range 56320 57343 r2) eqn:E2; try done.
  apply in_range_spec in E1, E2. intros [= <-]. lia.
Qed.

(** One turn of [unquote] at an escape by code. *)
Lemma unquote_escape_u g h t r :
  length h = 4%nat -> getu4 (backslash :: "u"%char :: h ++ t) = Some r ->
  unquote (S g) (backslash :: "u"%char :: h ++ t) =
    if is_surrogate r then
      match r2 ← getu4 t; decode_surrogates r r2 with
      | Some r' => encode_rune r' ++ unquote g (drop 6 t)
      | None => encode_rune 65533%N ++ unquote g t
      end
    else encode_rune r ++ unquote g t.
Proof.
  intros Hh Hr. cbn [unquote]. change (Ascii.eqb backslash backslash) with true. change (Ascii.eqb "u" "u") with true.
  cbv iota. rewrite Hr. destruct h as [|h1 [|h2 [|h3 [|h4 [|]]]]]; done.
Qed.

Definition paired (r : N) (rest : bytes) : option (N * bytes) :=
  '(r2, rest2) ← readHex4Escape rest; dec ← decode_surrogates r r2; Some (dec, rest2).

Lemma paired_None r rest k :
  paired r rest = None -> string_len InString rest = Some k ->
  (r2 ← getu4 (take (k - 1) rest); decode_surrogates r r2) = None.
Proof.
  intros Hp Hk. rewrite (getu4_take _ _ Hk). unfold paired in Hp.
  destruct (readHex4Escape rest) as [[r2 rest2]|]; [| done]. cbn in Hp |- *.
  by destruct (decode_surrogates r r2).
Qed.

Lemma paired_Some r rest dec rest2 :
  paired r rest = Some (dec, rest2) ->
  exists h r2, rest = backslash :: "u"%char :: h ++ rest2 /\ length h = 4%nat /\
    decode_surrogates r r2 = Some dec /\ (forall t, getu4 (backslash :: "u"%char :: h ++ t) = Some r2) /\
    string_len InString rest = (fun k => (6 + k)%nat) <$> string_len InString rest2.
Proof.
  unfold paired. destruct (readHex4Escape rest) as [[r2 rest2']|] eqn:E; [| done]. cbn.
  destruct (decode_surrogates r r2) as [dec'|] eqn:Ed; [| done]. cbn. intros [= -> ->].
  apply readHex4Escape_inv in E as (l' & -> & Hr). destruct (getu4_of _ _ _ Hr) as (Hl & h & -> & Hh & Hg).
  by exists h, r2.
Qed.

Lemma string_spec_u_single g n l r rest :
  readHex4 l = Some (r, rest) -> is_surrogate r = false ->
  string_spec (S g) n (backslash :: "u"%char :: l) = string_spec g (n + size_of (encode_rune r)) rest.
Proof.
  intros Hr Hs. destruct (getu4_of _ _ _ Hr) as (Hl & h & -> & Hh & Hg).
  apply (string_spec_piece (backslash :: "u"%char :: h)).
  - cbn [app length]. rewrite Hh. exact Hl.
  - intros k _. change ((backslash :: "u"%char :: h) ++ take (k - 1) rest) with (backslash :: "u"%char :: h ++ take (k - 1) rest).
    rewrite (unquote_escape_u g h _ r Hh (Hg _)). by rewrite Hs.
Qed.

Lemma string_spec_u_lone g n l r rest :
  readHex4 l = Some (r, rest) -> is_surrogate r = true -> paired r rest = None ->
  string_spec (S g) n (backslash :: "u"%char :: l) = string_spec g (n + size_of (encode_rune 65533)) rest.
Proof.
  intros Hr Hs Hp. destruct (getu4_of _ _ _ Hr) as (Hl & h & -> & Hh & Hg).
  apply (string_spec_piece (backslash :: "u"%char :: h)).
  - cbn [app length]. rewrite Hh. exact Hl.
  - intros k Hk. change ((backslash :: "u"%char :: h) ++ take (k - 1) rest) with (backslash :: "u"%char :: h ++ take (k - 1) rest).
    rewrite (unquote_escape_u g h _ r Hh (Hg _)), Hs. by rewrite (paired_None _ _ _ Hp Hk).
Qed.

Lemma string_spec_u_paired g n l r rest dec rest2 :
  readHex4 l = Some (r, rest) -> is_surrogate r = true -> paired r rest = Some (dec, rest2) ->
  string_spec (S g) n (backslash :: "u"%char :: l) = string_spec g (n + size_of (encode_rune dec)) rest2.
Proof.
  intros Hr Hs Hp. destruct (getu4_of _ _ _ Hr) as (Hl & h & -> & Hh & Hg).
  destruct (paired_Some _ _ _ _ Hp) as (h' & r2 & -> & Hh' & Hd & Hg' & Hl').
  change (backslash :: "u"%char :: h ++ backslash :: "u"%char :: h' ++ rest2)
    with ((backslash :: "u"%char :: h) ++ (backslash :: "u"%char :: h') ++ rest2).
  rewrite app_assoc. apply string_spec_piece.
  - rewrite <- app_assoc. cbn [app length]. rewrite length_app. cbn [length]. rewrite Hl, Hl', Hh, Hh'.
    by destruct (string_len InString rest2).
  - intros k Hk. rewrite <- app_assoc. cbn [app]. rewrite (unquote_escape_u g h _ r Hh (Hg _)), Hs, Hg'. cbn [mbind option_bind].
    rewrite Hd. do 2 f_equal. destruct h' as [|h1 [|h2 [|h3 [|h4 [|]]]]]; done.
Qed.

(** *** The literal's scanner *)

Lemma string_loop_spec f : forall g n l,
  (length l < f)%nat -> (length l <= g)%nat -> string_loop f n l = string_spec g n l.
Proof.
  induction f as [|f IH]; intros g n l Hf Hg; [lia |].
  destruct l as [|c l]; [done |]. cbn [length] in Hf, Hg. destruct g as [|g]; [lia |].
  assert (forall m n', string_loop f n' (drop m l) = string_spec g n' (drop m l)) as IHd
    by (intros m n'; apply IH; rewrite length_drop; lia).
  cbn [string_loop]. destruct (Ascii.eqb_spec c quote) as [->|Hq].
  { unfold string_spec. cbn. do 2 f_equal. unfold size_of. cbn. lia. }
  destruct (Ascii.eqb_spec c backslash) as [->|Hb].
  - destruct l as [|e l]; [done |].
    destruct (is_simple_escape e) eqn:He; [rewrite string_spec_simple by done; exact (IHd 1%nat _) |].
    destruct (Ascii.eqb_spec e "u") as [->|Hu].
    + destruct (readHex4 l) as [[r rest]|] eqn:Hr; [| unfold string_spec; by rewrite string_len_escape_u, Hr].
      assert (forall n', string_loop f n' rest = string_spec g n' rest) as IHr.
      { destruct (readHex4_take _ _ _ 0 Hr) as (h1 & h2 & h3 & h4 & -> & _). intros n'. exact (IHd 5%nat n'). }
      destruct (is_surrogate r) eqn:Hs.
      * change ('(r2, rest2) ← readHex4Escape rest; dec ← decode_surrogates r r2; Some (dec, rest2)) with (paired r rest).
        destruct (paired r rest) as [[dec rest2]|] eqn:Hp.
        -- rewrite (string_spec_u_paired _ _ _ _ _ _ _ Hr Hs Hp).
           destruct (paired_Some _ _ _ _ Hp) as (h' & r2 & -> & Hh' & Hd & _). apply decode_surrogates_le in Hd.
           rewrite <- RuneLen_encode by (try apply not_surrogate; lia). apply IH;
             (destruct (readHex4_take _ _ _ 0 Hr) as (h1 & h2 & h3 & h4 & -> & _); cbn in Hf, Hg; rewrite length_app in Hf, Hg; lia).
        -- rewrite (string_spec_u_lone _ _ _ _ _ Hr Hs Hp). apply IHr.
      * rewrite (string_spec_u_single _ _ _ _ _ Hr Hs), <- RuneLen_encode; [apply IHr | | done].
        apply readHex4_le in Hr. lia.
    + unfold string_spec. cbn [string_len]. change (Ascii.eqb backslash quote) with false.
      change (Ascii.eqb backslash backslash) with true. rewrite simple_escape_same, He.
      by destruct (Ascii.eqb_spec e "u").
  - destruct (N.ltb_spec (N_of_ascii c) 32) as [Hlt|Hge].
    { unfold string_spec. cbn [string_len]. destruct (Ascii.eqb_spec c quote), (Ascii.eqb_spec c backslash); try done.
      by rewrite (proj2 (N.ltb_lt _ _) Hlt). }
    unfold DecodeRune. destruct (N.ltb_spec (N_of_ascii c) 128) as [Ha|Hh].
    + assert ((N_of_ascii c =? ReplacementChar)%N = false) as -> by (apply N.eqb_neq; unfold ReplacementChar; lia).
      rewrite string_spec_ascii; [exact (IHd 0%nat _) | by apply Ascii.eqb_neq | by apply Ascii.eqb_neq | lia].
    + rewrite string_spec_high by eauto. destruct (decode_rune_sound (c :: l)) as [Hbad | (Hw & _)].
      * rewrite Hbad. exact (IHd 0%nat _).
      * destruct (decode_rune (c :: l)) as [r w]. cbn in Hw. destruct w as [|w]; [lia |].
        destruct ((r =? ReplacementChar)%N && (S w =? 1)%nat); [exact (IHd 0%nat _) | exact (IHd w _)].
Qed.

(** A literal measures as it decodes. *)
Lemma measureJSONString_spec l :
  measureJSONString (quote :: l) =
    (k ← string_len InString l; Some (len (decode_literal (take (k - 1) l)), drop k l)).
Proof.
  unfold measureJSONString. cbv iota. change (Ascii.eqb quote quote) with true. cbv iota.
  rewrite (string_loop_spec _ (length l)) by (cbn; lia). by rewrite string_spec_fuel.
Qed.

(** ** Numbers and keywords *)

(** What is left when the decoder's number automaton stops. *)
Definition num_rest (st : num_state) (l : bytes) : option bytes := (fun k => drop k l) <$> num_len st l.

Lemma num_rest_cons st c l :
  num_rest st (c :: l) =
    match num_next st c with
    | Some st' => num_rest st' l
    | None => if accepting st then Some (c :: l) else None
    end.
Proof.
  unfold num_rest. cbn [num_len]. destruct (num_next st c) as [st'|]; [by destruct (num_len st' l) |].
  by destruct (accepting st).
Qed.

Lemma num_rest_NExpDigits l : num_rest NExpDigits l = Some (skip_digits l).
Proof.
  induction l as [|c l IH]; [done |]. rewrite num_rest_cons. cbn [num_next accepting skip_digits]. by destruct (is_digit c).
Qed.

Lemma num_rest_NExpSign l : num_rest NExpSign l = some_digits l.
Proof.
  destruct l as [|c l]; [done |]. rewrite num_rest_cons. cbn [num_next accepting some_digits skip_digits].
  destruct (is_digit c); [| done]. by apply num_rest_NExpDigits.
Qed.

Lemma sign_not_digit c : Ascii.eqb c "+" || Ascii.eqb c "-" = true -> is_digit c = false.
Proof. by destruct c as [[] [] [] [] [] [] [] []]. Qed.

Lemma num_rest_exponent l :
  number_exponent l = match l with
                      | c :: l' => if Ascii.eqb c "e" || Ascii.eqb c "E" then num_rest NExp l' else Some l
                      | [] => Some []
                      end.
Proof.
  destruct l as [|c l]; [done |]. cbn [number_exponent]. destruct (_ || _); [| done].
  destruct l as [|s l]; [done |]. rewrite num_rest_cons. cbn [num_next accepting].
  destruct (Ascii.eqb s "+" || Ascii.eqb s "-") eqn:Es; [by rewrite num_rest_NExpSign |].
  cbn [some_digits skip_digits]. destruct (is_digit s); [| done]. symmetry. by apply num_rest_NExpDigits.
Qed.

Lemma num_rest_NFrac l : num_rest NFrac l = number_exponent (skip_digits l).
Proof.
  induction l as [|c l IH]; [done |]. rewrite num_rest_cons. cbn [num_next accepting skip_digits].
  destruct (is_digit c); [exact IH |]. rewrite num_rest_exponent. by destruct (_ || _).
Qed.

Lemma num_rest_NDot l : num_rest NDot l = (rest ← some_digits l; number_exponent rest).
Proof.
  destruct l as [|c l]; [done |]. rewrite num_rest_cons. cbn [num_next accepting some_digits skip_digits].
  destruct (is_digit c); [apply num_rest_NFrac | done].
Qed.

Lemma num_rest_NZero l : num_rest NZero l = (rest ← number_fraction l; number_exponent rest).
Proof.
  destruct l as [|c l]; [done |]. rewrite num_rest_cons. cbn [num_next accepting number_fraction].
  destruct (Ascii.eqb c "."); [apply num_rest_NDot |]. cbn [mbind option_bind]. rewrite num_rest_exponent. by destruct (_ || _).
Qed.

Lemma num_rest_NDigits l : num_rest NDigits l = (rest ← number_fraction (skip_digits l); number_exponent rest).
Proof.
  induction l as [|c l IH]; [done |]. rewrite num_rest_cons. cbn [num_next accepting skip_digits].
  destruct (is_digit c); [exact IH |]. cbn [number_fraction].
  destruct (Ascii.eqb c "."); [apply num_rest_NDot |]. cbn [mbind option_bind]. rewrite num_rest_exponent. by destruct (_ || _).
Qed.

Lemma digit_split c : is_digit c = Ascii.eqb c "0" || char_between "1" "9" c.
Proof. by destruct c as [[] [] [] [] [] [] [] []]. Qed.

Lemma num_rest_NNeg l :
  num_rest NNeg l = (rest ← number_integer l; rest ← number_fraction rest; number_exponent rest).
Proof.
  destruct l as [|c l]; [done |]. rewrite num_rest_cons. cbn [num_next accepting number_integer skip_digits].
  pose proof (digit_split c) as Hd. destruct (Ascii.eqb c "0"); [apply num_rest_NZero |]. cbn [orb] in Hd.
  rewrite <- Hd. destruct (is_digit c) eqn:E; [| done]. apply num_rest_NDigits.
Qed.

(** A number is what the automaton accepts from its first byte. *)
Lemma scalar_number c l :
  Ascii.eqb c "t" = false -> Ascii.eqb c "f" = false -> Ascii.eqb c "n" = false ->
  (fun k => drop k (c :: l)) <$> scalar_len (c :: l) =
    if Ascii.eqb c "-" then num_rest NNeg l else num_rest NNeg (c :: l).
Proof.
  intros Ht Hf Hn. rewrite (Ascii.eqb_sym c "t") in Ht. rewrite (Ascii.eqb_sym c "f") in Hf. rewrite (Ascii.eqb_sym c "n") in Hn.
  unfold scalar_len. cbn [of_string list_ascii_of_string is_prefix]. rewrite Ht, Hf, Hn. cbn [andb].
  destruct (Ascii.eqb c "-"); [unfold num_rest; by destruct (num_len NNeg l) |]. rewrite num_rest_cons. cbn [num_next accepting].
  destruct (Ascii.eqb c "0"); [unfold num_rest; by destruct (num_len NZero l) |].
  destruct (is_digit c); [unfold num_rest; by destruct (num_len NDigits l) | done].
Qed.

Lemma measureJSONNumber_spec c l :
  Ascii.eqb c "t" = false -> Ascii.eqb c "f" = false -> Ascii.eqb c "n" = false ->
  measureJSONNumber (c :: l) = (k ← scalar_len (c :: l); Some (Z.of_nat k, drop k (c :: l))).
Proof.
  intros Ht Hf Hn. pose proof (scalar_number c l Ht Hf Hn) as H.
  assert (measureJSONNumber (c :: l)
            = (rest ← (if Ascii.eqb c "-" then num_rest NNeg l else num_rest NNeg (c :: l));
               Some (size_of (c :: l) - size_of rest, rest))) as ->.
  { unfold measureJSONNumber. destruct (Ascii.eqb c "-"); rewrite num_rest_NNeg;
      (destruct (number_integer _) as [r1|]; [cbn [mbind option_bind] | done]);
      (destruct (number_fraction r1) as [r2|]; [cbn [mbind option_bind] | done]); by destruct (number_exponent r2). }
  rewrite <- H. destruct (scalar_len (c :: l)) as [k|] eqn:E; [| done]. apply scalar_len_pos in E.
  cbn [fmap option_fmap option_map mbind option_bind]. do 2 f_equal. unfold size_of. rewrite length_drop. lia.
Qed.

Lemma word_scalar w l : In w ["true"; "false"; "null"] ->
  scalar_len (of_string w ++ l) = Some (String.length w).
Proof. by intros [<- | [<- | [<- | []]]]. Qed.

Lemma jsonWord_spec w l :
  In w ["true"; "false"; "null"] -> is_prefix [default zero (of_string w !! 0%nat)] l = true ->
  scalar_len l = if jsonWord l w then Some (String.length w) else None.
Proof.
  intros Hw Hl. unfold jsonWord. destruct (is_prefix (of_string w) l) eqn:E.
  - apply is_prefix_spec in E as [q ->]. by apply word_scalar.
  - apply is_prefix_spec in Hl as [q ->]. unfold scalar_len. cbn [app].
    destruct Hw as [<- | [<- | [<- | []]]]; cbn in E |- *; by rewrite E.
Qed.

(** ** The decoder's tokens, added up *)

(** [run d n res]: from [d], with [n] counted, the decoder's loop ends in [res]. *)
Inductive run : decoder -> Z -> option Z -> Prop :=
| run_eof d n : Token d = TokEOF -> run d n (Some n)
| run_err d n : Token d = TokErr -> run d n None
| run_tok d n tok start d' res :
    Token d = TokOk tok start d' -> run d' (n + token_bytes tok start (d_pos d')) res -> run d n res.

(** Wherever the bytes stand in the input. *)
Definition runs (st : tstate) (stack : list tstate) (l : bytes) (n : Z) (res : option Z) : Prop :=
  forall pos, run (mkDec st stack pos l) n res.

Lemma run_same d d' n res : Token d = Token d' -> run d' n res -> run d n res.
Proof.
  intros Ht Hr. inversion Hr; subst.
  - apply run_eof. congruence.
  - apply run_err. congruence.
  - eapply run_tok; [by rewrite Ht | done].
Qed.

Lemma runs_skip st stack l n res : runs st stack (skipJSONSpace l) n res -> runs st stack l n res.
Proof.
  induction l as [|c l IH]; [done |]. cbn [skipJSONSpace]. destruct (is_json_space c) eqn:E; [| done].
  intros H pos. apply (run_same _ (mkDec st stack (S pos) l)); [| by apply IH].
  unfold Token. cbn [d_state d_stack d_pos d_rest next_token]. by rewrite E.
Qed.

Lemma runs_end st stack n : runs st stack [] n (Some n).
Proof. intros pos. by apply run_eof. Qed.

Lemma skip_not_space l c l' : skipJSONSpace l = c :: l' -> is_json_space c = false.
Proof.
  induction l as [|c' l IH]; [done |]. cbn [skipJSONSpace]. destruct (is_json_space c') eqn:E; [exact IH |].
  by intros [= <- <-].
Qed.

Lemma skip_length l : (length (skipJSONSpace l) <= length l)%nat.
Proof. induction l as [|c l IH]; cbn; [lia |]. destruct (is_json_space c); cbn; lia. Qed.

(** *** One byte of structure *)

Lemma runs_comma st st' stack l n res :
  st = ArrayComma /\ st' = ArrayValue \/ st = ObjectComma /\ st' = ObjectKey ->
  runs st' stack l n res -> runs st stack (","%char :: l) n res.
Proof.
  intros Hin H pos. apply (run_same _ (mkDec st' stack (S pos) l)); [| apply H].
  by destruct Hin as [[-> ->] | [-> ->]].
Qed.

Lemma runs_colon stack l n res :
  runs ObjectValue stack l n res -> runs ObjectColon stack (":"%char :: l) n res.
Proof. intros H pos. by apply (run_same _ (mkDec ObjectValue stack (S pos) l)). Qed.

Lemma runs_close c st s stack l n res :
  match st with
  | ArrayStart | ArrayComma => c = "]"%char
  | ObjectStart | ObjectComma => c = "}"%char
  | _ => False
  end ->
  runs (value_end s) stack l n res -> runs st (s :: stack) (c :: l) n res.
Proof.
  intros Hc H pos. eapply (run_tok _ _ Close pos (mkDec (value_end s) stack (S pos) l)); [by destruct st; try done; subst c |].
  cbn [token_bytes]. rewrite Z.add_0_r. apply H.
Qed.

Lemma runs_open (object : bool) st stack l n res :
  value_allowed st = true ->
  runs (if object then ObjectStart else ArrayStart) (st :: stack) l n res ->
  runs st stack ((if object then "{" else "[")%char :: l) n res.
Proof.
  intros Hst H pos.
  eapply (run_tok _ _ (Open object) pos (mkDec (if object then ObjectStart else ArrayStart) (st :: stack) (S pos) l));
    [by destruct object, st |].
  cbn [token_bytes]. rewrite Z.add_0_r. apply H.
Qed.

Lemma runs_stray st stack c l n : (forall pos, next_token st stack pos (c :: l) = TokErr) -> runs st stack (c :: l) n None.
Proof. intros H pos. apply run_err. apply H. Qed.

Lemma not_space c st stack pos l : is_json_space c = false ->
  next_token st stack pos (c :: l) =
    (if Ascii.eqb c "[" then
       if value_allowed st then TokOk (Open false) pos (mkDec ArrayStart (st :: stack) (S pos) l) else TokErr
     else if Ascii.eqb c "{" then
       if value_allowed st then TokOk (Open true) pos (mkDec ObjectStart (st :: stack) (S pos) l) else TokErr
     else if Ascii.eqb c "]" then
       match st with ArrayStart | ArrayComma => close_token stack pos l | _ => TokErr end
     else if Ascii.eqb c "}" then
       match st with ObjectStart | ObjectComma => close_token stack pos l | _ => TokErr end
     else if Ascii.eqb c ":" then
       match st with ObjectColon => next_token ObjectValue stack (S pos) l | _ => TokErr end
     else if Ascii.eqb c "," then
       match st with
       | ArrayComma => next_token ArrayValue stack (S pos) l
       | ObjectComma => next_token ObjectKey stack (S pos) l
       | _ => TokErr
       end
     else if Ascii.eqb c quote then
       match st with
       | ObjectStart | ObjectKey => string_token ObjectColon stack pos l
       | _ => if value_allowed st then string_token (value_end st) stack pos l else TokErr
       end
     else if value_allowed st then
       match scalar_len (c :: l) with
       | None => TokErr
       | Some n => TokOk Scalar pos (mkDec (value_end st) stack (pos + n) (drop n (c :: l)))
       end
     else TokErr).
Proof. intros H. cbn [next_token]. by rewrite H. Qed.

(** *** Literals and scalars *)

Definition string_next (st : tstate) : option tstate :=
  match st with
  | ObjectStart | ObjectKey => Some ObjectColon
  | _ => if value_allowed st then Some (value_end st) else None
  end.

Lemma runs_string st st' stack l n :
  string_next st = Some st' ->
  match measureJSONString (quote :: l) with
  | None => runs st stack (quote :: l) n None
  | Some (m, next) => (length next <= length l)%nat /\
      forall res, runs st' stack next (n + m) res -> runs st stack (quote :: l) n res
  end.
Proof.
  intros Hst. rewrite measureJSONString_spec.
  assert (forall pos, next_token st stack pos (quote :: l) = string_token st' stack pos l) as Ht.
  { intros pos. rewrite not_space by done. destruct st; try done; by injection Hst as <-. }
  unfold string_token in Ht. destruct (string_len InString l) as [k|].
  - split; [rewrite length_drop; lia |]. intros res H pos. eapply run_tok; [apply Ht |]. cbn [token_bytes]. apply H.
  - intros pos. apply run_err, Ht.
Qed.

Lemma runs_scalar c l st stack n :
  value_allowed st = true -> is_json_space c = false ->
  Ascii.eqb c "{" = false -> Ascii.eqb c "[" = false -> Ascii.eqb c quote = false ->
  ~ (st = ArrayStart /\ c = "]"%char) ->
  match scalar_len (c :: l) with
  | None => runs st stack (c :: l) n None
  | Some k => (length (drop k (c :: l)) <= length l)%nat /\
      forall res, runs (value_end st) stack (drop k (c :: l)) (n + Z.of_nat k) res -> runs st stack (c :: l) n res
  end.
Proof.
  intros Hst Hs Ho Ha Hq Hc.
  destruct (Ascii.eqb_spec c "]") as [->|H1].
  { cbn. apply runs_stray. intros pos. rewrite not_space by done. destruct st; try done. by destruct Hc. }
  destruct (Ascii.eqb_spec c "}") as [->|H2].
  { cbn. apply runs_stray. intros pos. rewrite not_space by done. by destruct st. }
  destruct (Ascii.eqb_spec c ":") as [->|H3].
  { cbn. apply runs_stray. intros pos. rewrite not_space by done. by destruct st. }
  destruct (Ascii.eqb_spec c ",") as [->|H4].
  { cbn. apply runs_stray. intros pos. rewrite not_space by done. by destruct st. }
  apply Ascii.eqb_neq in H1, H2, H3, H4.
  assert (forall pos, next_token st stack pos (c :: l)
            = match scalar_len (c :: l) with
              | None => TokErr
              | Some k => TokOk Scalar pos (mkDec (value_end st) stack (pos + k) (drop k (c :: l)))
              end) as Ht.
  { intros pos. rewrite not_space by done. by rewrite Ha, Ho, H1, H2, H3, H4, Hq, Hst. }
  destruct (scalar_len (c :: l)) as [k|] eqn:E.
  - apply scalar_len_pos in E. split; [rewrite length_drop; cbn [length] in E |- *; lia |].
    intros res H pos. eapply run_tok; [apply Ht |]. cbn [token_bytes d_pos].
    replace (pos + k - pos)%nat with k by lia. apply H.
  - by apply runs_stray.
Qed.

(** ** The scanner's stack is the decoder's *)

(** A value is wanted in state [st], inside the containers of [stk]. *)
Fixpoint wants (stk : list ascii) (st : tstate) (stack : list tstate) : Prop :=
  match stk with
  | [] => st = TopValue /\ stack = []
  | top :: stk' =>
      match stack with
      | [] => False
      | s :: stack' =>
          (if Ascii.eqb top obrace then st = ObjectValue else top = obracket /\ (st = ArrayStart \/ st = ArrayValue)) /\
          wants stk' s stack'
      end
  end.

Lemma wants_allowed stk st stack : wants stk st stack -> value_allowed st = true.
Proof.
  destruct stk as [|top stk]; cbn [wants]; [by intros [-> _] |]. destruct stack as [|s stack]; [done |].
  intros [H _]. destruct (Ascii.eqb top obrace); [by subst | by destruct H as (_ & [-> | ->])].
Qed.

(** The turn that opens an array looks for its end itself. *)
Definition ready (st : tstate) (l : bytes) : Prop :=
  st = ArrayStart -> head (skipJSONSpace l) <> Some "]"%char.

(** How a scan from [st] is the decoder's loop: what [how] says of the rest. *)
Definition sim (st : tstate) (stack : list tstate) (l : bytes) (a n : Z) (out : Z * bytes * scanEnd) (bound : nat) : Prop :=
  match out with
  | (m, next, scanComplete) => (length next <= bound)%nat /\
      forall res, runs TopValue [] next (a + m) res -> runs st stack l (a + n) res
  | (m, _, scanTruncated) => runs st stack l (a + n) (Some (a + m))
  | (_, _, scanBad) => runs st stack l (a + n) None
  end.

Lemma sim_after st1 stack1 l1 n1 b1 st stack l a n out b :
  (forall res, runs st1 stack1 l1 (a + n1) res -> runs st stack l (a + n) res) -> (b1 <= b)%nat ->
  sim st1 stack1 l1 a n1 out b1 -> sim st stack l a n out b.
Proof.
  intros Hr Hb. unfold sim. destruct out as [[m next] []]; [| auto..]. intros [Hn H]. split; [lia | auto].
Qed.

(** A key, where the decoder wants one. *)
Lemma runs_key st stack c l n :
  st = ObjectKey \/ st = ObjectStart /\ Ascii.eqb c "}" = false -> is_json_space c = false ->
  match measureJSONKey (c :: l) with
  | (m, next, scanComplete) => (length next <= length l)%nat /\
      forall res, runs ObjectValue stack next (n + m) res -> runs st stack (c :: l) n res
  | (m, _, scanTruncated) => runs st stack (c :: l) n (Some (n + m))
  | (_, _, scanBad) => runs st stack (c :: l) n None
  end.
Proof.
  intros Hst Hs. unfold measureJSONKey. destruct (Ascii.eqb_spec c quote) as [->|Hq].
  - pose proof (runs_string st ObjectColon stack l n) as Hk.
    destruct (measureJSONString (quote :: l)) as [[m next]|]; [| by apply Hk; destruct Hst as [-> | [-> _]]].
    destruct Hk as [Hlen Hk]; [by destruct Hst as [-> | [-> _]] |].
    pose proof (skip_length next) as Hsk. pose proof (runs_skip ObjectColon stack next (n + m)) as Hskip.
    destruct (skipJSONSpace next) as [|c2 next2] eqn:E; [by apply Hk, Hskip, runs_end |].
    apply skip_not_space in E. destruct (Ascii.eqb_spec c2 ":") as [->|Hc].
    + cbn [length] in Hsk. split; [lia |]. intros res H. by apply Hk, Hskip, runs_colon.
    + apply Hk, Hskip, runs_stray. intros pos. rewrite not_space by done. apply Ascii.eqb_neq in Hc.
      rewrite Hc. by repeat case_match.
  - apply Ascii.eqb_neq in Hq. unfold measureJSONString. rewrite Hq. apply runs_stray. intros pos.
    rewrite not_space, Hq by done. destruct Hst as [-> | [-> ->]]; by repeat case_match.
Qed.

Section turn.
#[local] Set Default Proof Using "All".
Context (again : bool -> list ascii -> Z -> bytes -> Z * bytes * scanEnd) (B : nat) (a : Z).
Context (Hagain : forall (want : bool) stk st stack n l, (length l < B)%nat -> wants stk st stack ->
           (want = true -> ready st l) -> sim (if want then st else value_end st) stack l a n (again want stk n l) (length l)).

Lemma after_value_sim stk st stack n l :
  (length l <= B)%nat -> wants stk st stack ->
  sim (value_end st) stack l a n (after_value again stk n l) (length l).
Proof.
  intros Hl Hw. destruct stk as [|top stk]; [by destruct Hw as [-> ->] |]. destruct stack as [|s stack]; [done |].
  pose proof Hw as [Htop Hw']. cbn [after_value].
  pose proof (skip_length l) as Hsk. pose proof (runs_skip (value_end st) (s :: stack) l) as Hskip.
  destruct (skipJSONSpace l) as [|c l1] eqn:E; [by apply Hskip, runs_end |].
  apply skip_not_space in E. cbn [length] in Hsk.
  destruct (Ascii.eqb_spec c ",") as [->|H1]; [| destruct (Ascii.eqb_spec c "}") as [->|H2]; [| destruct (Ascii.eqb_spec c "]") as [->|H3]]].
  - destruct (Ascii.eqb top obrace).
    + subst st. cbn [value_end] in Hskip |- *.
      assert (forall res, runs ObjectKey (s :: stack) (skipJSONSpace l1) (a + n) res ->
                runs ObjectComma (s :: stack) l (a + n) res) as Hnext.
      { intros res H. apply Hskip. apply (runs_comma _ ObjectKey); [by right | by apply runs_skip]. }
      pose proof (skip_length l1) as Hsk1. destruct (skipJSONSpace l1) as [|c2 l2] eqn:E2; [by apply Hnext, runs_end |].
      apply skip_not_space in E2. cbn [length] in Hsk1.
      pose proof (runs_key ObjectKey (s :: stack) c2 l2 (a + n) (or_introl eq_refl) E2) as Hk.
      destruct (measureJSONKey (c2 :: l2)) as [[m next] []]; cbn [sim].
      * destruct Hk as [Hlen Hk]. eapply (sim_after ObjectValue (s :: stack) next (n + m) (length next)); [| lia | apply (Hagain true); [lia | done | done]].
        intros res H. apply Hnext, Hk. by rewrite <- Z.add_assoc.
      * rewrite Z.add_assoc. by apply Hnext.
      * by apply Hnext.
    + destruct Htop as [-> Hst]. eapply (sim_after ArrayValue (s :: stack) l1 n (length l1)); [| lia | apply (Hagain true); [lia | split; [cbn; eauto | done] | done]].
      intros res H. apply Hskip. apply (runs_comma _ ArrayValue); [by left; destruct Hst as [-> | ->] | done].
  - destruct (Ascii.eqb top obrace).
    + subst st. eapply sim_after; [| | apply (Hagain false stk s stack n l1); [lia | done | done]]; [| lia].
      intros res H. apply Hskip. by apply runs_close.
    + destruct Htop as [_ Hst]. apply Hskip, runs_stray. intros pos. rewrite not_space by done. by destruct Hst as [-> | ->].
  - unfold obracket in *. destruct (Ascii.eqb_spec top "[") as [->|Hne].
    + destruct Htop as [_ Hst]. eapply sim_after; [| | apply (Hagain false stk s stack n l1); [lia | done | done]]; [| lia].
      intros res H. apply Hskip. apply runs_close; [by destruct Hst as [-> | ->] | done].
    + destruct (Ascii.eqb top obrace); [subst st | by destruct Htop as [Ht _]].
      apply Hskip, runs_stray. intros pos. by rewrite not_space.
  - apply Ascii.eqb_neq in H1, H2, H3. apply Hskip, runs_stray. intros pos. rewrite not_space, H1, H2, H3 by done.
    destruct (Ascii.eqb top obrace); [subst st | destruct Htop as [_ [-> | ->]]]; by repeat case_match.
Qed.

(** What a scalar of known length leaves to do. *)
Lemma scalar_sim stk st stack n c l out :
  (length l < B)%nat -> wants stk st stack -> is_json_space c = false ->
  Ascii.eqb c "{" = false -> Ascii.eqb c "[" = false -> Ascii.eqb c quote = false -> ~ (st = ArrayStart /\ c = "]"%char) ->
  out = match scalar_len (c :: l) with
        | None => (0, [], scanBad)
        | Some k => after_value again stk (n + Z.of_nat k) (drop k (c :: l))
        end ->
  sim st stack (c :: l) a n out (length l).
Proof.
  intros Hl Hw Hs Ho Ha Hq Hc ->.
  pose proof (runs_scalar c l st stack (a + n) (wants_allowed _ _ _ Hw) Hs Ho Ha Hq Hc) as Hr.
  destruct (scalar_len (c :: l)) as [k|]; [| exact Hr]. destruct Hr as [Hlen Hr].
  eapply sim_after; [| exact Hlen | apply after_value_sim; [lia | exact Hw]].
  intros res H. apply Hr. by rewrite <- Z.add_assoc.
Qed.

Lemma word_sim w stk st stack n c l :
  (length l < B)%nat -> wants stk st stack -> In w ["true"; "false"; "null"] ->
  is_prefix [default zero (of_string w !! 0%nat)] (c :: l) = true ->
  sim st stack (c :: l) a n (word_value again w stk n (c :: l)) (length l).
Proof.
  intros Hl Hw Hin Hc. pose proof (jsonWord_spec w (c :: l) Hin Hc) as Hs.
  assert (In c ["t"; "f"; "n"]%char) as Hin'.
  { cbn [is_prefix] in Hc. rewrite andb_true_r in Hc. apply Ascii.eqb_eq in Hc as <-.
    destruct Hin as [<- | [<- | [<- | []]]]; cbn; auto. }
  apply scalar_sim with stk; try done; try by destruct Hin' as [<- | [<- | [<- | []]]].
  - intros [_ ->]. by destruct Hin' as [? | [? | [? | []]]].
  - unfold word_value. rewrite Hs. by destruct (jsonWord (c :: l) w).
Qed.

(** An object that opens: its first key, or its end. *)
Lemma object_sim stk st stack n l :
  (length l < B)%nat -> wants stk st stack ->
  sim st stack (obrace :: l) a n
    (match skipJSONSpace l with
     | [] => (n, [], scanTruncated)
     | c' :: l'' =>
         if Ascii.eqb c' "}" then after_value again stk n l''
         else match measureJSONKey (c' :: l'') with
              | (m, next, scanComplete) => again true (obrace :: stk) (n + m) next
              | (m, next, k) => (n + m, next, k)
              end
     end) (length l).
Proof.
  intros Hl Hw. pose proof (wants_allowed _ _ _ Hw) as Hst.
  assert (forall res, runs ObjectStart (st :: stack) (skipJSONSpace l) (a + n) res -> runs st stack (obrace :: l) (a + n) res) as Hopen.
  { intros res H. by apply (runs_open true), runs_skip. }
  pose proof (skip_length l) as Hsk. destruct (skipJSONSpace l) as [|c l1] eqn:E; [by apply Hopen, runs_end |].
  apply skip_not_space in E. cbn [length] in Hsk. destruct (Ascii.eqb c "}") eqn:Hc.
  - apply Ascii.eqb_eq in Hc as ->. eapply (sim_after (value_end st) stack l1 n (length l1)); [| lia | apply after_value_sim; [lia | done]].
    intros res H. by apply Hopen, runs_close.
  - pose proof (runs_key ObjectStart (st :: stack) c l1 (a + n) (or_intror (conj eq_refl Hc)) E) as Hk.
    destruct (measureJSONKey (c :: l1)) as [[m next] []]; cbn [sim].
    + destruct Hk as [Hlen Hk].
      eapply (sim_after ObjectValue (st :: stack) next (n + m) (length next)); [| lia | apply (Hagain true); [lia | done | done]].
      intros res H. apply Hopen, Hk. by rewrite <- Z.add_assoc.
    + rewrite Z.add_assoc. by apply Hopen.
    + by apply Hopen.
Qed.

Lemma array_sim stk st stack n l :
  (length l < B)%nat -> wants stk st stack ->
  sim st stack (obracket :: l) a n
    (match skipJSONSpace l with
     | [] => (n, [], scanTruncated)
     | c' :: l'' => if Ascii.eqb c' "]" then after_value again stk n l''
                    else again true (obracket :: stk) n (c' :: l'')
     end) (length l).
Proof.
  intros Hl Hw. pose proof (wants_allowed _ _ _ Hw) as Hst.
  assert (forall res, runs ArrayStart (st :: stack) (skipJSONSpace l) (a + n) res -> runs st stack (obracket :: l) (a + n) res) as Hopen.
  { intros res H. by apply (runs_open false), runs_skip. }
  pose proof (skip_length l) as Hsk. destruct (skipJSONSpace l) as [|c l1] eqn:E; [by apply Hopen, runs_end |].
  cbn [length] in Hsk. destruct (Ascii.eqb_spec c "]") as [->|Hc].
  - eapply (sim_after (value_end st) stack l1 n (length l1)); [| lia | apply after_value_sim; [lia | done]].
    intros res H. by apply Hopen, runs_close.
  - eapply (sim_after ArrayStart (st :: stack) (c :: l1) n (length (c :: l1))); [exact Hopen | cbn; lia |].
    apply (Hagain true); [cbn; lia | split; [cbn; eauto | done] |].
    intros _ _. cbn [skipJSONSpace]. rewrite (skip_not_space _ _ _ E). by intros [= ->].
Qed.

Lemma wanted_sim stk st stack n l :
  (length l <= B)%nat -> wants stk st stack -> ready st l ->
  sim st stack l a n (value_turn again true stk n l) (pred (length l)).
Proof.
  intros Hl Hw Hready. unfold ready in Hready. unfold value_turn. cbn [negb].
  pose proof (skip_length l) as Hsk. pose proof (runs_skip st stack l) as Hskip.
  pose proof (wants_allowed _ _ _ Hw) as Hst.
  destruct (skipJSONSpace l) as [|c l1] eqn:E; [by apply Hskip, runs_end |].
  apply skip_not_space in E. cbn [length] in Hsk.
  apply (sim_after st stack (c :: l1) n (length l1)); [exact (fun res => Hskip (a + n) res) | lia |].
  destruct (Ascii.eqb_spec c obrace) as [->|Ho]; [apply object_sim; [lia | done] |].
  destruct (Ascii.eqb_spec c obracket) as [->|Ha]; [apply array_sim; [lia | done] |].
  destruct (Ascii.eqb_spec c quote) as [->|Hq].
  { pose proof (runs_string st (value_end st) stack l1 (a + n)) as Hr.
    destruct (measureJSONString (quote :: l1)) as [[m next]|]; [| by apply Hr; destruct st].
    destruct Hr as [Hlen Hr]; [by destruct st |].
    eapply sim_after; [| exact Hlen | apply after_value_sim; [lia | exact Hw]].
    intros res H. apply Hr. by rewrite <- Z.add_assoc. }
  destruct (Ascii.eqb_spec c "t") as [->|Ht]; [apply word_sim; [lia | done | cbn; auto | done] |].
  destruct (Ascii.eqb_spec c "f") as [->|Hf]; [apply word_sim; [lia | done | cbn; auto | done] |].
  destruct (Ascii.eqb_spec c "n") as [->|Hn]; [apply word_sim; [lia | done | cbn; auto | done] |].
  apply Ascii.eqb_neq in Ho, Ha, Hq, Ht, Hf, Hn.
  apply scalar_sim with stk; try done; [lia | intros [-> ->]; by apply Hready |].
  rewrite measureJSONNumber_spec by done. by destruct (scalar_len (c :: l1)).
Qed.

End turn.

(** *** The loops *)

Lemma value_loop_sim a fuel : forall (want : bool) stk st stack n l,
  (length l < fuel)%nat -> wants stk st stack -> (want = true -> ready st l) ->
  sim (if want then st else value_end st) stack l a n (value_loop fuel want stk n l) (length l).
Proof.
  induction fuel as [|fuel IH]; intros want stk st stack n l Hl Hw Hr; [lia |]. cbn [value_loop]. destruct want.
  - eapply sim_after; [| | eapply (wanted_sim _ fuel); [exact IH | lia | exact Hw | auto]]; [done | lia].
  - apply (after_value_sim _ fuel); [exact IH | lia | done].
Qed.

Lemma content_loop_run fuel : forall n l,
  (length l < fuel)%nat -> runs TopValue [] l n (content_loop fuel n l).
Proof.
  induction fuel as [|fuel IH]; intros n l Hl; [lia |]. cbn [content_loop].
  pose proof (wanted_sim (value_loop (length l)) (length l) n (value_loop_sim n (length l)) [] TopValue [] 0 l) as H.
  specialize (H ltac:(lia) (conj eq_refl eq_refl) ltac:(done)).
  change (measureJSONValue l) with (value_turn (value_loop (length l)) true [] 0 l).
  destruct (value_turn (value_loop (length l)) true [] 0 l) as [[m next] []] eqn:E; cbn [sim] in H;
    [| by rewrite Z.add_0_r in H ..].
  destruct H as [Hlen H]. destruct l as [|c l]; [done |].
  rewrite <- (Z.add_0_r n) at 1. apply H, IH. cbn [length pred] in Hlen, Hl. lia.
Qed.

Lemma run_reference doc fuel : forall d n res,
  dec_in doc d -> (length doc - d_pos d < fuel)%nat -> run d n res -> reference_loop None fuel d n = res.
Proof.
  induction fuel as [|fuel IH]; intros d n res Hd Hf Hr; [lia |]. cbn [reference_loop].
  inversion Hr as [? ? Ht | ? ? Ht | ? ? tok start d' ? Ht Hr']; subst; rewrite Ht; [done | done |]. cbn [too_deep].
  apply (Token_spans doc) in Ht as (H1 & H2 & Hd' & _); [| done]. apply IH; [done | | done].
  destruct Hd' as [_ Hd']. lia.
Qed.

(** The deepest level the decoder opens before it ends or fails. *)
Fixpoint deepest (fuel : nat) (d : decoder) : nat :=
  match fuel with
  | O => 0
  | S fuel =>
      match Token d with
      | TokOk tok _ d' => Nat.max (match tok with Open _ => List.length (d_stack d') | _ => 0 end) (deepest fuel d')
      | _ => 0
      end
  end.

Definition nesting (raw : bytes) : Z := Z.of_nat (deepest (S (List.length raw)) (NewDecoder raw)).

(** A limit only matters to what is nested past it. *)
Lemma limited_reference k fuel : forall d n,
  0 <= k ->
  reference_loop (Some k) fuel d n = if Z.of_nat (deepest fuel d) <=? k then reference_loop None fuel d n else None.
Proof.
  induction fuel as [|fuel IH]; intros d n Hk; cbn [reference_loop deepest];
    (assert ((Z.of_nat 0 <=? k) = true) as H0 by (by apply Z.leb_le)); [by rewrite H0 |].
  destruct (Token d) as [tok start d'| |]; [| by rewrite H0.. ].
  rewrite IH by done. unfold too_deep. destruct tok; cbn [Nat.max]; try done.
  destruct (Z.ltb_spec k (Z.of_nat (List.length (d_stack d')))) as [H|H]; destruct (Z.leb_spec (Z.of_nat (deepest fuel d')) k) as [H'|H'].
  all: match goal with |- context [Z.of_nat (Nat.max ?a ?b) <=? ?l] => destruct (Z.leb_spec (Z.of_nat (Nat.max a b)) l) end; done || lia.
Qed.

(** C33: equivalence: the scan that decodes nothing measures, on every input,
    well formed, truncated or broken, what the decoder loop it replaced
    measures under a toolchain whose decoder nests without limit: escapes and
    surrogate pairs decoded, invalid UTF-8 as U+FFFD, the partial count where
    the bytes run out at a boundary, and the raw length where a byte cannot be
    there.  Under one that stops nesting, as go1.27 does past ten thousand, the
    two agree exactly on what is nested no deeper; past the limit the loop
    falls back to the raw length and the scan goes on measuring. *)
Theorem ContentBytes_is_the_decoder raw :
  ContentBytes raw = contentBytesReference None raw /\
  forall limit, 0 <= limit ->
    contentBytesReference (Some limit) raw = if nesting raw <=? limit then ContentBytes raw else size_of raw.
Proof.
  assert (ContentBytes raw = contentBytesReference None raw) as H.
  { destruct raw as [|c raw]; [done |]. unfold ContentBytes, contentBytesReference, measureContent. f_equal. symmetry.
    apply (run_reference (c :: raw)); [apply NewDecoder_in | cbn [NewDecoder d_pos]; lia |]. apply content_loop_run. lia. }
  split; [exact H |]. intros limit Hl. rewrite H. destruct raw as [|c raw]; [by destruct (_ <=? _) |].
  unfold contentBytesReference, nesting. rewrite limited_reference by done. by destruct (_ <=? limit).
Qed.

(** Two levels under a limit of two, and under a limit of one: the number alone,
    and the six bytes. *)
Lemma ContentBytes_is_the_decoder_witness :
  let raw := list_ascii_of_string "[[17]]" in
  contentBytesReference (Some 2) raw = ContentBytes raw /\ contentBytesReference (Some 1) raw = 6.
Proof.
  intros raw. destruct (ContentBytes_is_the_decoder raw) as [_ H].
  split; rewrite H by (vm_compute; discriminate); vm_compute; reflexivity.
Defined.

End WireSpec.
