(* ===== verification/Vault.v ===== *)
(** The vault ([src/internal/masking/vault.go]): placeholders for secrets, how
    long a secret stays, and what is answered for a placeholder.

    The keyed hash is a parameter: [mac] gives the lower-case hex of
    HMAC-SHA256 under the vault's key, of which the source keeps sixteen
    digits.  Each operation takes the clock reading it made and whether the
    encrypted file could be written; encryption and the file itself are I/O.
    The mutex makes each operation one step. *)

From S2P Require Import Prelude GoString GoTime.
From Stdlib Require Import Ascii String.

Open Scope string_scope.
Open Scope Z_scope.

Module Vault.

Definition PlaceholderPrefix : string := "REPLAY_SECRET_".
Definition placeholderHex : nat := 16.
Definition PlaceholderLength : nat := String.length PlaceholderPrefix + placeholderHex.

Definition DefaultVaultTTL : duration := 24 * hour.

(** [time.Time.Unix] and [time.Unix]: seconds since 1970. *)
Definition unix_epoch : time := days_from_civil 1970 1 1 * day_ns.
Definition to_unix (t : time) : Z := (t - unix_epoch) / second.
Definition from_unix (s : Z) : time := unix_epoch + s * second.

Record entry := mkEntry { Secret : string; entry_Pattern : string; At : Z }.

Record t := mkVault { vault_ttl : duration; secrets : gmap string entry }.

Definition expired (v : t) (now : time) (e : entry) : bool :=
  if vault_ttl v <=? 0 then false else vault_ttl v <? Sub now (from_unix (At e)).

(** [sweepLocked]: what is left of each entry, and whether anything changed.
    The code reads the clock again for each entry; here one reading stands for
    the whole sweep, as if it took no time.
    The seconds of an instant are not wrapped: Go's [time.Time] has 64 bits of
    them, and no clock comes near. *)
Definition sweep_entry (v : t) (now : time) (e : entry) : option entry :=
  if At e =? 0 then Some (mkEntry (Secret e) (entry_Pattern e) (to_unix now))
  else if expired v now e then None
  else Some e.

Definition sweepLocked (v : t) (now : time) : t * bool :=
  (mkVault (vault_ttl v) (omap (sweep_entry v now) (secrets v)),
   existsb (fun ke => (At ke.2 =? 0) || expired v now ke.2) (map_to_list (secrets v))).

(** The vault read back from its file, swept before use; [None] when the
    swept vault could not be written. *)
Definition OpenVaultWithTTL (ttl : duration) (stored : gmap string entry) (now : time)
    (save_ok : bool) : option t :=
  let '(v, changed) := sweepLocked (mkVault ttl stored) now in
  if changed && negb save_ok then None else Some v.

Section mac.
Context (mac : string -> string).

Definition placeholder_of (secret : string) : string :=
  PlaceholderPrefix ++ String.substring 0 placeholderHex (mac secret).

#[global] Arguments placeholder_of : simpl never.

(** [Placeholder]; [inl tt] is the error of a vault that could not be saved.
    A new pair that could not be saved is taken back out. *)
Definition Placeholder (v : t) (secret pattern : string) (now : time) (save_ok : bool)
    : (unit + string) * t :=
  let ph := placeholder_of secret in
  let '(v, swept) := sweepLocked v now in
  match secrets v !! ph with
  | Some _ => if swept && negb save_ok then (inl tt, v) else (inr ph, v)
  | None =>
      if save_ok
      then (inr ph, mkVault (vault_ttl v) (<[ph := mkEntry secret pattern (to_unix now)]> (secrets v)))
      else (inl tt, v)
  end.

End mac.

(** [Vault.Secret]: the secret and the pattern that matched it. *)
Definition Secret_ (v : t) (placeholder : string) (now : time) : option (string * string) :=
  match secrets v !! placeholder with
  | Some e => if expired v now e then None else Some (Secret e, entry_Pattern e)
  | None => None
  end.

Definition Len (v : t) (now : time) : Z :=
  Z.of_nat (List.length (List.filter (fun ke => negb (expired v now ke.2)) (map_to_list (secrets v)))).

(** ** What the vault keeps *)

Lemma to_unix_from t : from_unix (to_unix t) <= t < from_unix (to_unix t) + second.
Proof.
  unfold from_unix, to_unix. assert (0 < second) as Hs by reflexivity.
  pose proof (Z.div_mod (t - unix_epoch) second ltac:(lia)).
  pose proof (Z.mod_pos_bound (t - unix_epoch) second Hs). lia.
Qed.

Lemma sweep_lookup v now ph :
  secrets (sweepLocked v now).1 !! ph = secrets v !! ph ≫= sweep_entry v now.
Proof. unfold sweepLocked. cbn. apply lookup_omap. Qed.

Lemma sweep_unchanged v now :
  (sweepLocked v now).2 = false -> (sweepLocked v now).1 = v.
Proof.
  intros H. destruct v as [d m]. unfold sweepLocked in *. cbn in *. f_equal. apply map_eq. intros ph.
  rewrite lookup_omap. destruct (m !! ph) as [e|] eqn:E; [cbn | done].
  assert (((At e =? 0) || expired (mkVault d m) now e) = false) as Hb.
  { destruct ((At e =? 0) || expired (mkVault d m) now e) eqn:Hx; [| done].
    assert (existsb (fun ke : string * entry => (At ke.2 =? 0) || expired (mkVault d m) now ke.2)
              (map_to_list m) = true) as Ht; [| congruence].
    apply existsb_exists. exists (ph, e). split; [| done].
    apply list_elem_of_In, elem_of_map_to_list, E. }
  apply orb_false_iff in Hb as [H1 H2]. unfold sweep_entry. by rewrite H1, H2.
Qed.

(** A vault whose entries were made by [Placeholder] under one key. *)
Definition keyed (mac : string -> string) (v : t) : Prop :=
  forall ph e, secrets v !! ph = Some e -> ph = placeholder_of mac (Secret e).

Lemma keyed_sweep mac v now : keyed mac v -> keyed mac (sweepLocked v now).1.
Proof.
  intros Hk ph e. rewrite sweep_lookup. destruct (secrets v !! ph) as [e0|] eqn:E; [cbn | done].
  unfold sweep_entry. apply Hk in E as Hp.
  destruct (At e0 =? 0); [by intros [= <-] |]. destruct (expired v now e0); [done |].
  by intros [= <-].
Qed.

(** The outcomes of [Placeholder]. *)
Lemma Placeholder_cases mac v secret pattern now ok :
  let v1 := (sweepLocked v now).1 in
  let ph := placeholder_of mac secret in
  match Placeholder mac v secret pattern now ok with
  | (inr r, v') =>
      r = ph /\ ((exists e, secrets v1 !! ph = Some e /\ v' = v1) \/
                 (secrets v1 !! ph = None /\ ok = true /\
                  v' = mkVault (vault_ttl v)
                         (<[ph := mkEntry secret pattern (to_unix now)]> (secrets v1))))
  | (inl _, v') => v' = v1 /\ ok = false
  end.
Proof.
  cbv zeta. unfold Placeholder.
  assert (vault_ttl (sweepLocked v now).1 = vault_ttl v) as Ht by done.
  destruct (sweepLocked v now) as [v1 swept]. cbn [fst] in *.
  destruct (secrets v1 !! placeholder_of mac secret) as [e|] eqn:E.
  - destruct (swept && negb ok) eqn:B; [| by eauto].
    apply andb_true_iff in B as [_ B]. by destruct ok.
  - destruct ok; [| done]. rewrite Ht. eauto.
Qed.

Lemma keyed_Placeholder mac v secret pattern now ok :
  keyed mac v -> keyed mac (Placeholder mac v secret pattern now ok).2.
Proof.
  intros Hk. apply (keyed_sweep mac v now) in Hk.
  pose proof (Placeholder_cases mac v secret pattern now ok) as H.
  destruct (Placeholder mac v secret pattern now ok) as [[[]|r] v']; cbn in H |- *.
  - by destruct H as [-> _].
  - destruct H as [-> [(e & _ & ->)|(_ & _ & ->)]]; [done |].
    intros ph e. cbn. destruct (decide (placeholder_of mac secret = ph)) as [<-|Hne].
    + rewrite lookup_insert_eq. by intros [= <-].
    + rewrite lookup_insert_ne by done. apply Hk.
Qed.

(** No two secrets of the vault and this one share the sixteen digits. *)
Definition no_collision (mac : string -> string) (v : t) (secret : string) : Prop :=
  forall ph e, secrets v !! ph = Some e ->
    placeholder_of mac (Secret e) = placeholder_of mac secret -> Secret e = secret.

(** A placeholder handed out is the one answered for, and it is answered
    for exactly as long as its entry lives.  It depends on the secret alone;
    looking it up at any instant gives back the very secret, under the pattern
    it was first vaulted with, as long as no more than the retention has gone
    by since it was first vaulted (ever after, when retention is off), and
    nothing after that. *)
Lemma Placeholder_is_answered_until_it_lapses :
  forall mac v secret pattern now ok ph v',
    keyed mac v -> no_collision mac v secret ->
    Placeholder mac v secret pattern now ok = (inr ph, v') ->
    ph = placeholder_of mac secret /\
    exists e, secrets v' !! ph = Some e /\ Secret e = secret /\
      (secrets v !! ph = None -> entry_Pattern e = pattern /\ At e = to_unix now) /\
      (forall e0, secrets v !! ph = Some e0 -> At e0 <> 0 -> expired v now e0 = false -> e = e0) /\
      forall later,
        Secret_ v' ph later =
          if (vault_ttl v <=? 0) || (Sub later (from_unix (At e)) <=? vault_ttl v)
          then Some (secret, entry_Pattern e) else None.
Proof.
  intros mac v secret pattern now ok ph v' Hk Hc Hp.
  pose proof (Placeholder_cases mac v secret pattern now ok) as H. rewrite Hp in H. cbv beta iota zeta in H.
  destruct H as [-> H]. split; [done |].
  assert (forall e later, secrets v' !! placeholder_of mac secret = Some e -> Secret e = secret ->
            vault_ttl v' = vault_ttl v ->
            Secret_ v' (placeholder_of mac secret) later =
              if (vault_ttl v <=? 0) || (Sub later (from_unix (At e)) <=? vault_ttl v)
              then Some (secret, entry_Pattern e) else None) as Hans.
  { intros e later He Hs Ht. unfold Secret_, expired. rewrite He, Hs, Ht.
    destruct (vault_ttl v <=? 0); cbn [orb]; [done |].
    destruct (Z.leb_spec (Sub later (from_unix (At e))) (vault_ttl v)) as [Hle|Hlt].
    - by apply Z.ltb_ge in Hle as ->.
    - by apply Z.ltb_lt in Hlt as ->. }
  destruct H as [(e & He & ->)|(Hn & _ & ->)].
  - rewrite sweep_lookup in He. destruct (secrets v !! placeholder_of mac secret) as [e0|] eqn:E0;
      [cbn [mbind option_bind] in He | done].
    assert (Secret e0 = secret) as Hs0 by (apply (Hc _ _ E0); symmetry; by apply Hk).
    assert (Secret e = secret) as Hs.
    { unfold sweep_entry in He. destruct (At e0 =? 0); [by injection He as <- |].
      destruct (expired v now e0); [done | by injection He as <-]. }
    assert (secrets (sweepLocked v now).1 !! placeholder_of mac secret = Some e) as Hl
      by (rewrite sweep_lookup, E0; exact He).
    exists e. split_and!; [done | done | done | | by intros later; apply Hans].
    intros e1 [= <-] Hat Hexp. unfold sweep_entry in He. apply Z.eqb_neq in Hat.
    rewrite Hat, Hexp in He. congruence.
  - exists (mkEntry secret pattern (to_unix now)).
    split_and!; [apply lookup_insert_eq | done | done | |].
    + intros e0 E0 Hat Hexp. rewrite sweep_lookup, E0 in Hn. cbn [mbind option_bind] in Hn. unfold sweep_entry in Hn.
      apply Z.eqb_neq in Hat. rewrite Hat, Hexp in Hn. done.
    + intros later. apply Hans; [apply lookup_insert_eq | done | done].
Qed.

(** A stand-in for the keyed hash in concrete checks. *)
Definition pad_mac (s : string) : string := s ++ "0000000000000000".

Definition monday : time := days_from_civil 2026 9 7 * day_ns.

Definition empty_vault : t := mkVault DefaultVaultTTL ∅.

Lemma Placeholder_is_answered_until_it_lapses_witness :
  placeholder_of pad_mac "deadbeef" = "REPLAY_SECRET_deadbeef00000000" /\
  exists e, secrets (Placeholder pad_mac empty_vault "deadbeef" "jwt" monday true).2
              !! placeholder_of pad_mac "deadbeef" = Some e /\ Secret e = "deadbeef".
Proof.
  split; [vm_compute; reflexivity |].
  destruct (Placeholder_is_answered_until_it_lapses pad_mac empty_vault "deadbeef" "jwt" monday true
              (placeholder_of pad_mac "deadbeef")
              (Placeholder pad_mac empty_vault "deadbeef" "jwt" monday true).2)
    as (_ & e & He & Hs & _).
  - intros ph e H. unfold empty_vault in H. cbn [secrets] in H. by rewrite lookup_empty in H.
  - intros ph e H. unfold empty_vault in H. cbn [secrets] in H. by rewrite lookup_empty in H.
  - vm_compute. reflexivity.
  - exists e. split; [exact He | exact Hs].
Defined.

(** An entry keeps the instant it was first vaulted at: masking the secret
    again does not extend it.  A placeholder handed out at the end of the
    retention lapses while the request it was made for is in flight. *)
Lemma Placeholder_can_lapse_in_flight :
  let v0 := (Placeholder pad_mac empty_vault "deadbeef" "jwt" monday true).2 in
  let tuesday := monday + DefaultVaultTTL in
  let r := Placeholder pad_mac v0 "deadbeef" "jwt" tuesday true in
  r.1 = inr "REPLAY_SECRET_deadbeef00000000" /\
  Secret_ r.2 "REPLAY_SECRET_deadbeef00000000" tuesday = Some ("deadbeef", "jwt") /\
  Secret_ r.2 "REPLAY_SECRET_deadbeef00000000" (tuesday + second) = None.
Proof. split; [| split]; vm_compute; reflexivity. Qed.

(** ** Nothing outlives the retention *)

(** An entry stamped now is within a retention of a second or more. *)
Lemma stamped_is_fresh v now secret pattern :
  second <= vault_ttl v -> expired v now (mkEntry secret pattern (to_unix now)) = false.
Proof.
  intros Ht. unfold expired. cbn [At]. pose proof (to_unix_from now).
  destruct (vault_ttl v <=? 0); [done |]. apply Z.ltb_ge.
  assert (second = 1000000000) by reflexivity. rewrite Sub_exact; [lia | unfold_int; lia].
Qed.

Lemma swept_is_fresh v now ph e :
  second <= vault_ttl v -> secrets (sweepLocked v now).1 !! ph = Some e ->
  expired v now e = false.
Proof.
  intros Ht. rewrite sweep_lookup. destruct (secrets v !! ph) as [e0|]; [cbn | done].
  unfold sweep_entry. destruct (At e0 =? 0).
  - intros [= <-]. by apply stamped_is_fresh.
  - destruct (expired v now e0) eqn:E; [done |]. by intros [= <-].
Qed.

(** C17: masking does not pile secrets up.  With a retention of at least a
    second, every entry the vault holds after it is opened, and after any
    [Placeholder] whether it succeeded or failed, is within the retention at
    that instant, whatever the file held; and an entry that was within it is
    never dropped. *)
Theorem nothing_outlives_the_retention :
  forall mac v secret pattern now ok,
    second <= vault_ttl v ->
    (forall v', OpenVaultWithTTL (vault_ttl v) (secrets v) now ok = Some v' ->
       forall ph e, secrets v' !! ph = Some e -> expired v now e = false) /\
    (forall ph e, secrets (Placeholder mac v secret pattern now ok).2 !! ph = Some e ->
       expired v now e = false) /\
    (forall ph e, secrets v !! ph = Some e -> At e <> 0 -> expired v now e = false ->
       secrets (Placeholder mac v secret pattern now ok).2 !! ph = Some e).
Proof.
  intros mac v secret pattern now ok Ht.
  assert (v = mkVault (vault_ttl v) (secrets v)) as Hv by (by destruct v).
  assert (forall ph e, secrets v !! ph = Some e -> At e <> 0 -> expired v now e = false ->
            secrets (sweepLocked v now).1 !! ph = Some e) as Hkeep.
  { intros ph e He Hat Hexp. rewrite sweep_lookup, He. cbn. unfold sweep_entry.
    apply Z.eqb_neq in Hat. by rewrite Hat, Hexp. }
  pose proof (Placeholder_cases mac v secret pattern now ok) as H. cbv zeta in H.
  split; [| split].
  - unfold OpenVaultWithTTL. rewrite <- Hv. intros v'.
    destruct (sweepLocked v now) as [v1 changed] eqn:E. intros Hs ph e He.
    destruct (changed && negb ok); [done |]. injection Hs as <-.
    apply (swept_is_fresh v now ph e Ht). by rewrite E.
  - intros ph e He. destruct (Placeholder mac v secret pattern now ok) as [[[]|r] v']; cbn [snd] in He.
    + destruct H as [-> _]. by apply (swept_is_fresh v now ph e).
    + destruct H as [_ [(e0 & _ & ->)|(_ & _ & ->)]]; [by apply (swept_is_fresh v now ph e) |].
      cbn [secrets] in He. apply lookup_insert_Some in He as [[_ <-]|[_ He]]; [by apply stamped_is_fresh |].
      by apply (swept_is_fresh v now ph e).
  - intros ph e He Hat Hexp. specialize (Hkeep ph e He Hat Hexp).
    destruct (Placeholder mac v secret pattern now ok) as [[[]|r] v']; cbn [snd].
    + by destruct H as [-> _].
    + destruct H as [_ [(e0 & _ & ->)|(Hn & _ & ->)]]; [done |]. cbn [secrets].
      rewrite lookup_insert_ne; [done |]. intros <-. rewrite Hkeep in Hn. discriminate Hn.
Qed.

Lemma nothing_outlives_the_retention_witness :
  expired empty_vault monday (mkEntry "deadbeef" "jwt" (to_unix monday)) = false.
Proof.
  refine (proj1 (proj2 (nothing_outlives_the_retention pad_mac empty_vault "deadbeef" "jwt" monday true _))
            "REPLAY_SECRET_deadbeef00000000" _ _).
  - vm_compute. discriminate.
  - vm_compute. reflexivity.
Defined.

End Vault.
