(* ===== verification/Masking.v ===== *)
(** Masking request bodies ([src/internal/masking/patterns.go], [entropy.go],
    [mask.go]): finding secrets in the string values of a JSON body and
    replacing them with placeholders.

    A compiled regular expression is a function from a text to the spans of
    its successive matches and their groups; [math.Log2] is a parameter of the
    entropy heuristic.  The vault is reached through the interface the source
    gives it ([placeholderStore]), here a type class. *)

From S2P Require Import Prelude GoString GoFloat Json Splice.
From Stdlib Require Import Ascii String.

Open Scope string_scope.
Open Scope list_scope.
Open Scope nat_scope.

Module Masking.
Import Json Splice.

#[local] Abbreviation length := List.length.

Definition PlaceholderPrefix : bytes := of_string "REPLAY_SECRET_".

(** ** [patterns.go] *)

(** The spans of one match: the whole, then the groups that took part. *)
Definition spans : Set := list (option (nat * nat)).

Record Pattern := mkPattern {
  Name : string;
  re : bytes -> list spans;
  Group : nat
}.

Record Match := mkMatch { Start : nat; End : nat; match_Pattern : string }.

(** [loc[2*g], loc[2*g+1]] *)
Definition group_span (loc : spans) (g : nat) : option (nat * nat) :=
  match loc !! g with Some (Some se) => Some se | _ => None end.

(** The span a pattern claims: its group when it has one that took part. *)
Definition claimed_span (p : Pattern) (loc : spans) : nat * nat :=
  let whole := default (0, 0) (group_span loc 0) in
  if 0 <? Group p then default whole (group_span loc (Group p)) else whole.

Definition overlaps (taken : list bool) (s e : nat) : bool :=
  existsb (fun i => default false (taken !! i)) (seq s (e - s)).

Definition claim (taken : list bool) (s e : nat) : list bool :=
  imap (fun i b => b || ((s <=? i) && (i <? e))) taken.

Definition find_step (p : Pattern) (st : list Match * list bool) (loc : spans)
    : list Match * list bool :=
  let '(out, taken) := st in
  let '(s, e) := claimed_span p loc in
  if (e - s <? 1) || overlaps taken s e then (out, taken)
  else (out ++ [mkMatch s e (Name p)], claim taken s e).

(** [sortMatches]: insertion from the back, so equal starts keep their order. *)
Fixpoint insert_match (m : Match) (l : list Match) : list Match :=
  match l with
  | [] => [m]
  | x :: l' => if Start m <? Start x then m :: l else x :: insert_match m l'
  end.

Definition sortMatches (ms : list Match) : list Match :=
  fold_left (fun sorted m => insert_match m sorted) ms [].

Definition find (text : bytes) (patterns : list Pattern) : list Match * list bool :=
  let '(out, taken) :=
    fold_left (fun st p => fold_left (find_step p) (re p text) st) patterns
      ([], replicate (length text) false) in
  (sortMatches out, taken).

Definition Find (text : bytes) (patterns : list Pattern) : list Match := (find text patterns).1.

(** ** [entropy.go] *)

Definition EntropyPattern : string := "entropy".
Definition EntropyMinLength : nat := 32.
Definition EntropyMaxLength : nat := 256.
Definition EntropyMinBits : float64 := of_int 4.
Definition EntropyMinTransitions : float64 := of_ratio 4 10.

Definition benignPrefixes : list bytes := [of_string "sha256-"; of_string "sha384-"; of_string "sha512-"].

Definition isTokenByte (c : ascii) : bool :=
  is_alnum c || existsb (Ascii.eqb c) ["+"; "/"; "="; "_"; "-"]%char.

Inductive class := classLower | classUpper | classDigit | classOther.

#[export] Instance class_eq_dec : EqDecision class.
Proof. solve_decision. Defined.

Definition class_of (c : ascii) : class :=
  if is_lower c then classLower else if is_upper c then classUpper
  else if is_digit c then classDigit else classOther.

Fixpoint split_byte (sep : ascii) (l : bytes) : list bytes :=
  match l with
  | [] => [[]]
  | c :: l' =>
      if Ascii.eqb c sep then [] :: split_byte sep l'
      else match split_byte sep l' with
           | seg :: segs => (c :: seg) :: segs
           | [] => [[c]]
           end
  end.

(** A segment of two bytes or more, all of one named class. *)
Definition uniform (seg : bytes) : bool :=
  match seg with
  | c :: (_ :: _) as seg' =>
      bool_decide (class_of c <> classOther)
      && forallb (fun d => bool_decide (class_of d = class_of c)) seg'
  | _ => false
  end.

Definition pathLike (run : bytes) : bool :=
  existsb (Ascii.eqb "/") run && existsb uniform (split_byte "/" run).

Fixpoint transitions (l : bytes) : Z :=
  match l with
  | c :: (d :: _) as l' => ((if bool_decide (class_of c = class_of d) then 0 else 1) + transitions l')%Z
  | _ => 0%Z
  end.

Definition seen_class (k : class) (run : bytes) : bool :=
  existsb (fun c => bool_decide (class_of c = k)) run.

Definition byte_count (n : nat) (l : bytes) : Z :=
  Z.of_nat (length (List.filter (fun c => (N_of_ascii c =? N.of_nat n)%N) l)).

Definition hexCue : list string :=
  ["api_key"; "apikey"; "api-key"; "secret"; "token"; "password"; "passwd"; "auth"; "bearer";
   "credential"].

Definition hexCueWindow : nat := 40.

Definition LooksLikeHexSecret (line : bytes) (start len : nat) : bool :=
  if (len <? 32) || (length line <? start + len) then false
  else if negb (forallb (fun c => is_digit c || char_between "a" "f" c) (take len (drop start line)))
  then false
  else
    let before := to_lower (to_string (take (start - (start - hexCueWindow))
                                         (drop (start - hexCueWindow) line))) in
    existsb (contains before) hexCue.

Section entropy.
Context (log2 : float64 -> float64).

Definition shannonBits (b : bytes) : float64 :=
  let n := of_int (Z.of_nat (length b)) in
  fold_left (fun bits i =>
      let c := byte_count i b in
      if (c =? 0)%Z then bits
      else let p := (of_int c / n)%float in (bits - p * log2 p)%float) (seq 0 256) f0.

Definition looksLikeCredential (run : bytes) : bool :=
  if (length run <? EntropyMinLength) || (EntropyMaxLength <? length run) then false
  else if existsb (fun p => is_prefix p run) benignPrefixes then false
  else if pathLike run then false
  else if negb (seen_class classLower run && seen_class classUpper run && seen_class classDigit run)
  then false
  else if fltb (of_int (transitions run) / of_int (Z.of_nat (length run - 1)))%float
            EntropyMinTransitions then false
  else fleb EntropyMinBits (shannonBits run).

Fixpoint token_run (l : bytes) : nat :=
  match l with
  | c :: l' => if isTokenByte c then S (token_run l') else 0
  | [] => 0
  end.

(** [i] is the loop's index and [rest] the bytes from it on; every turn moves
    on by a byte or more, so the text's length is fuel enough. *)
Fixpoint entropy_scan (fuel : nat) (text : bytes) (taken : list bool) (i : nat) (rest : bytes)
    : list Match :=
  match fuel, rest with
  | S fuel, c :: rest' =>
      if negb (isTokenByte c) then entropy_scan fuel text taken (S i) rest'
      else
        let n := token_run rest in
        let j := i + n in
        let found := (looksLikeCredential (take n rest) || LooksLikeHexSecret text i n)
                     && negb (overlaps taken i j) in
        (if found then [mkMatch i j EntropyPattern] else [])
        ++ entropy_scan fuel text taken j (drop n rest)
  | _, _ => []
  end.

Definition FindEntropy (text : bytes) (taken : list bool) : list Match :=
  entropy_scan (length text) text taken 0 text.

(** ** [mask.go] *)

Record Masker := mkMasker { patterns : list Pattern; Entropy : bool }.

Definition Masker_find (m : Masker) (inner : bytes) : list Match :=
  let '(matches, taken) := find inner (patterns m) in
  if Entropy m then sortMatches (matches ++ FindEntropy inner taken) else matches.

End entropy.

(** [stringValues]: where the string values that may be masked stand. *)

Definition untouchedKeys : list string := ["thinking"; "signature"; "data"].

Record stringValue := mkSV { sv_start : nat; sv_end : nat }.

Record frame := mkFrame {
  object : bool;
  key : string;
  haveKey : bool;
  skipAll : bool;
  captured : list stringValue
}.

Definition value_read (f : frame) : frame :=
  mkFrame (object f) (key f) false (skipAll f) (captured f).

Definition capture (f : frame) (l : list stringValue) : frame :=
  mkFrame (object f) (key f) (haveKey f) (skipAll f) (captured f ++ l).

(** A string token under the top frame: a key, or a value. *)
Definition string_seen (top : frame) (t : string) (sv : stringValue) : frame :=
  if object top && negb (haveKey top)
  then mkFrame (object top) t true (skipAll top) (captured top)
  else if negb (object top) then capture top [sv]
  else if String.eqb (key top) "type"
          && (String.eqb t "thinking" || String.eqb t "redacted_thinking")
  then mkFrame (object top) (key top) false true (captured top)
  else if existsb (String.eqb (key top)) untouchedKeys then value_read top
  else value_read (capture top [sv]).

Definition sv_step (st : list frame * list stringValue) (tok : token) (sv : stringValue)
    : list frame * list stringValue :=
  let '(stack, out) := st in
  match tok with
  | Open o => (mkFrame o "" false false [] :: stack, out)
  | Close =>
      match stack with
      | [] => (stack, out)
      | done :: stack' =>
          let kept := if skipAll done then [] else captured done in
          match stack' with
          | [] => ([], out ++ kept)
          | parent :: rest => (value_read (capture parent kept) :: rest, out)
          end
      end
  | Str t =>
      match stack with
      | [] => ([], out ++ [sv])
      | top :: rest => (string_seen top t sv :: rest, out)
      end
  | Scalar =>
      match stack with
      | top :: rest => ((if object top then value_read top else top) :: rest, out)
      | [] => (stack, out)
      end
  end.

(** The token loop; each token takes a byte or more, so the body's length is
    fuel enough.  The end of the input ends it wherever it stands. *)
Fixpoint sv_loop (fuel : nat) (d : decoder) (st : list frame * list stringValue)
    : option (list frame * list stringValue) :=
  match fuel with
  | O => Some st
  | S fuel =>
      match Token d with
      | TokEOF => Some st
      | TokErr => None
      | TokOk tok start d' => sv_loop fuel d' (sv_step st tok (mkSV start (d_pos d')))
      end
  end.

Definition sv_le (a b : stringValue) : Prop := sv_start a <= sv_start b.

#[export] Instance sv_le_dec a b : Decision (sv_le a b).
Proof. unfold sv_le. apply _. Defined.

Definition stringValues (body : bytes) : option (list stringValue) :=
  '(_, out) ← sv_loop (S (length body)) (NewDecoder body) ([], []);
  Some (merge_sort sv_le out).

Definition BlindPlaceholder : bytes := of_string "[REDACTED_BY_PROXY_ERROR]".

(** The vault seam: what the masker asks of whatever stores its secrets. *)
Class PlaceholderStore (St : Type) := {
  store_error : Set;
  store_placeholder : St -> bytes -> string -> (store_error + bytes) * St
}.

Definition Report : Type := gmap string Z.

Section mask.
Context (log2 : float64 -> float64).
Context {St : Type} `{PS : PlaceholderStore St}.

Record mask_state := mkMask {
  ms_out : option bytes;
  ms_last : nat;
  ms_report : Report;
  ms_err : option store_error;
  ms_store : St
}.

(** One match of a value whose inner bytes start at [base]. *)
Definition mask_match (body inner : bytes) (base : nat) (s : mask_state) (mt : Match) : mask_state :=
  let secret := slice inner (Start mt) (End mt) in
  if is_prefix PlaceholderPrefix secret then s
  else
    let '(r, store) := store_placeholder (ms_store s) secret (match_Pattern mt) in
    let '(ph, err) := match r with
                      | inr ph => (ph, ms_err s)
                      | inl e => (BlindPlaceholder, Some e)
                      end in
    mkMask (Some (default [] (ms_out s) ++ slice body (ms_last s) (base + Start mt) ++ ph))
      (base + End mt)
      (<[match_Pattern mt := (default 0 (ms_report s !! match_Pattern mt) +! 1)%Z]> (ms_report s))
      err store.

Definition mask_value (m : Masker) (body : bytes) (s : mask_state) (sv : stringValue) : mask_state :=
  let inner := slice body (S (sv_start sv)) (sv_end sv - 1) in
  let matches := Masker_find log2 m inner in
  match matches with
  | [] => s
  | _ =>
      let s := mkMask (Some (default [] (ms_out s))) (ms_last s) (ms_report s) (ms_err s) (ms_store s) in
      fold_left (mask_match body inner (S (sv_start sv))) matches s
  end.

Inductive mask_result :=
| Unread (body : bytes)
| Masked (body : bytes) (report : Report) (err : option store_error).

(** [Mask]: an unreadable body is handed back with an error. *)
Definition Mask (m : Masker) (store : St) (body : bytes) : mask_result * St :=
  match stringValues body with
  | None => (Unread body, store)
  | Some values =>
      let s := fold_left (mask_value m body) values (mkMask None 0 ∅ None store) in
      match ms_out s with
      | None => (Masked body (ms_report s) (ms_err s), ms_store s)
      | Some out => (Masked (out ++ drop (ms_last s) body) (ms_report s) (ms_err s), ms_store s)
      end
  end.

End mask.

End Masking.
