(* ===== verification/MaskingSpec.v ===== *)
(** What masking guarantees: the matches it acts on are in order and apart,
    the values it looks into are quoted literals of the body, and the body it
    sends differs from the one it was given in the matched bytes alone. *)

From S2P Require Import Prelude GoString GoFloat GoTime Intervals Json Splice Vault Masking.
From Stdlib Require Import Ascii String.

Open Scope string_scope.
Open Scope list_scope.
Open Scope nat_scope.

Module MaskingSpec.
Import Json Splice Masking.

#[local] Abbreviation length := List.length.

(** A compiled expression reports spans of the text it was given. *)
Definition pattern_ok (p : Pattern) : Prop :=
  forall text loc g s e, loc ∈ re p text -> group_span loc g = Some (s, e) -> s <= e <= length text.

(** ** Matches *)

Definition matches_in (n : nat) (ms : list Match) : Prop :=
  disjoint_ranges Start End ms /\ forall m, m ∈ ms -> End m <= n.

Definition covers (taken : list bool) (ms : list Match) : Prop :=
  forall m i, m ∈ ms -> Start m <= i < End m -> taken !! i = Some true.

Lemma overlaps_false taken s e i :
  overlaps taken s e = false -> s <= i < e -> taken !! i <> Some true.
Proof.
  unfold overlaps. intros H Hi Ht.
  assert (existsb (fun i => default false (taken !! i)) (seq s (e - s)) = true) as Hx; [| congruence].
  apply existsb_exists. exists i. split; [apply in_seq; lia |]. by rewrite Ht.
Qed.

(** A range clear of what is taken is apart from every match. *)
Lemma overlaps_apart taken ms mt m :
  overlaps taken (Start mt) (End mt) = false -> covers taken ms -> m ∈ ms ->
  Start m < End m -> Start mt < End mt -> apart Start End mt m.
Proof.
  intros Ho Hc Hm Hne Hlt. unfold apart.
  destruct (decide (End mt <= Start m)) as [?|Hn]; [by left |]. right.
  destruct (decide (End m <= Start mt)) as [?|Hn']; [done | exfalso].
  apply (overlaps_false _ _ _ (Nat.max (Start m) (Start mt)) Ho); [lia |].
  apply (Hc m); [done | lia].
Qed.

Lemma claim_lookup taken s e i :
  claim taken s e !! i = (fun b => b || ((s <=? i) && (i <? e))) <$> taken !! i.
Proof. unfold claim. apply list_lookup_imap. Qed.

Lemma claim_length taken s e : length (claim taken s e) = length taken.
Proof. unfold claim. apply length_imap. Qed.

Definition find_inv (n : nat) (st : list Match * list bool) : Prop :=
  matches_in n st.1 /\ length st.2 = n /\ covers st.2 st.1.

Lemma matches_in_snoc n ms m :
  matches_in n ms -> Start m < End m <= n -> (forall x, x ∈ ms -> apart Start End m x) ->
  matches_in n (ms ++ [m]).
Proof.
  intros [Hd Hn] Hm Ha. split.
  - apply disjoint_ranges_snoc; [done | lia | done].
  - intros x [Hx|Hx%list_elem_of_singleton]%elem_of_app; [by apply Hn | subst; lia].
Qed.

Lemma find_step_inv text p st loc :
  pattern_ok p -> loc ∈ re p text -> find_inv (length text) st -> find_inv (length text) (find_step p st loc).
Proof.
  intros Hp Hin Hinv. destruct st as [out taken]. unfold find_step.
  destruct (claimed_span p loc) as [s e] eqn:Hs.
  destruct (e - s <? 1) eqn:Hlt; [done |]. apply Nat.ltb_ge in Hlt.
  destruct (overlaps taken s e) eqn:Ho; [done |]. cbn [orb].
  assert (s < e <= length text) as Hr.
  { assert (s <= e <= length text); [| lia]. unfold claimed_span in Hs.
    destruct (group_span loc 0) as [[s0 e0]|] eqn:E0; cbn [default] in Hs.
    - destruct (0 <? Group p); [destruct (group_span loc (Group p)) as [[s1 e1]|] eqn:E1 |];
        cbn in Hs; injection Hs as <- <-; eapply Hp; eauto.
    - destruct (0 <? Group p); [destruct (group_span loc (Group p)) as [[s1 e1]|] eqn:E1 |];
        cbn in Hs; injection Hs as <- <-; [eapply Hp; eauto | lia | lia]. }
  destruct Hinv as (Hm & Hl & Hc). cbn [fst snd] in *. unfold find_inv. cbn [fst snd]. split_and!.
  - apply matches_in_snoc; [done | cbn; lia |]. intros x Hx.
    apply (overlaps_apart taken out); cbn; [done | done | done | by apply Hm | lia].
  - by rewrite claim_length.
  - intros m i [Hx|Hx%list_elem_of_singleton]%elem_of_app Hi; rewrite claim_lookup.
    + by rewrite (Hc m i Hx Hi).
    + subst m. cbn in Hi.
      assert (is_Some (taken !! i)) as [b ->] by (apply lookup_lt_is_Some; lia). cbn. f_equal.
      apply orb_true_iff. right. apply andb_true_iff. split; [apply Nat.leb_le | apply Nat.ltb_lt]; lia.
Qed.

Lemma insert_match_perm m l : insert_match m l ≡ₚ m :: l.
Proof.
  induction l as [|x l IH]; cbn [insert_match]; [reflexivity |].
  destruct (Start m <? Start x); [reflexivity |]. rewrite IH. constructor.
Qed.

Lemma insert_match_sorted m l :
  StronglySorted (fun a b => Start a <= Start b) l ->
  StronglySorted (fun a b => Start a <= Start b) (insert_match m l).
Proof.
  intros Hs. induction Hs as [|x l Hs IH Hx]; cbn [insert_match]; [repeat constructor |].
  destruct (Start m <? Start x) eqn:E.
  - apply Nat.ltb_lt in E. constructor; [by constructor |]. constructor; [lia |].
    eapply Forall_impl; [exact Hx |]. cbn. lia.
  - apply Nat.ltb_ge in E. constructor; [done |]. rewrite insert_match_perm. by constructor.
Qed.

Lemma sortMatches_spec ms :
  sortMatches ms ≡ₚ ms /\ StronglySorted (fun a b => Start a <= Start b) (sortMatches ms).
Proof.
  unfold sortMatches.
  assert (forall acc, StronglySorted (fun a b => Start a <= Start b) acc ->
    fold_left (fun sorted m => insert_match m sorted) ms acc ≡ₚ acc ++ ms /\
    StronglySorted (fun a b => Start a <= Start b)
      (fold_left (fun sorted m => insert_match m sorted) ms acc)) as H.
  { induction ms as [|m ms IH]; intros acc Hacc; cbn; [by rewrite app_nil_r |].
    destruct (IH (insert_match m acc)) as [Hp Hs]; [by apply insert_match_sorted |].
    split; [| done]. rewrite Hp, insert_match_perm. cbn. apply Permutation_middle. }
  destruct (H []) as [Hp Hs]; [constructor | done].
Qed.

Definition in_order (ms : list Match) : Prop := StronglySorted (fun a b => End a <= Start b) ms.

Lemma sorted_matches n ms : matches_in n ms -> matches_in n (sortMatches ms) /\ in_order (sortMatches ms).
Proof.
  intros [Hd Hn]. destruct (sortMatches_spec ms) as [Hp Hs]. split.
  - split; [by rewrite Hp | intros m Hm; apply Hn; by rewrite <- Hp].
  - apply disjoint_ranges_sorted; [by rewrite Hp | done].
Qed.

Lemma find_inv_fold text ps :
  Forall pattern_ok ps ->
  find_inv (length text) (fold_left (fun st p => fold_left (find_step p) (re p text) st) ps
                            ([], replicate (length text) false)).
Proof.
  assert (find_inv (length text) ([], replicate (length text) false)) as H0.
  { split_and!; [| apply length_replicate |].
    - split; [apply disjoint_ranges_nil | intros m Hm; by apply not_elem_of_nil in Hm].
    - intros m i Hm; by apply not_elem_of_nil in Hm. }
  revert H0. generalize (@nil Match, replicate (length text) false) as st.
  intros st Hst Hps. revert st Hst. induction Hps as [|p ps Hp _ IH]; intros st Hst; [done |].
  cbn. apply IH. clear IH.
  assert (forall locs, (forall loc, loc ∈ locs -> loc ∈ re p text) -> forall st,
    find_inv (length text) st -> find_inv (length text) (fold_left (find_step p) locs st)) as Hin.
  { induction locs as [|loc locs IH]; intros Hsub st' H; [done |]. cbn. apply IH.
    - intros l Hl. apply Hsub. by right.
    - apply find_step_inv; [done | apply Hsub; by left | done]. }
  by apply Hin.
Qed.

(** The matches of [find], and what it reports taken. *)
Lemma find_spec text ps :
  Forall pattern_ok ps ->
  matches_in (length text) (find text ps).1 /\ in_order (find text ps).1 /\
  covers (find text ps).2 (find text ps).1.
Proof.
  intros Hps. pose proof (find_inv_fold text ps Hps) as (Hm & Hl & Hc). unfold find.
  destruct (fold_left _ ps _) as [out taken]. cbn [fst snd] in *.
  destruct (sorted_matches _ _ Hm) as [Hsm Ho]. split_and!; [done | done |].
  intros m i Hin. apply Hc. destruct (sortMatches_spec out) as [Hp _]. by rewrite <- Hp.
Qed.

Lemma token_run_le l : token_run l <= length l.
Proof. induction l as [|c l IH]; cbn; [lia |]. destruct (isTokenByte c); lia. Qed.

Section log2.
Context (log2 : float64 -> float64).

(** The heuristic's matches start at the scan's index or later, are apart, and
    stay clear of what the patterns took. *)
Lemma entropy_scan_spec text taken fuel : forall i rest,
  rest = drop i text -> i <= length text ->
  matches_in (length text) (entropy_scan log2 fuel text taken i rest) /\
  forall m, m ∈ entropy_scan log2 fuel text taken i rest ->
    i <= Start m /\ overlaps taken (Start m) (End m) = false.
Proof.
  assert (matches_in (length text) [] /\
          forall i m, m ∈ @nil Match -> i <= Start m /\ overlaps taken (Start m) (End m) = false) as [Hnil Hnil'].
  { split; [split; [apply disjoint_ranges_nil |]|]; intros; by apply not_elem_of_nil in H. }
  induction fuel as [|fuel IH]; intros i rest Hr Hi; [exact (conj Hnil (Hnil' i)) |].
  destruct rest as [|c rest]; [exact (conj Hnil (Hnil' i)) |]. cbn [entropy_scan].
  assert (S (length rest) = length text - i) as Hlen
    by (change (S (length rest)) with (length (c :: rest)); by rewrite Hr, length_drop).
  destruct (isTokenByte c) eqn:Ht; cbn [negb].
  - set (n := token_run (c :: rest)).
    assert (1 <= n <= length (c :: rest)) as Hn.
    { subst n. pose proof (token_run_le (c :: rest)). cbn [token_run] in *. rewrite Ht in *. lia. }
    cbn [length] in Hn.
    destruct (IH (i + n) (drop n (c :: rest))) as [Hm Hall]; [by rewrite Hr, drop_drop | lia |].
    destruct ((looksLikeCredential log2 (take n (c :: rest)) || LooksLikeHexSecret text i n)
              && negb (overlaps taken i (i + n))) eqn:E.
    + apply andb_true_iff in E as [_ E]. apply negb_true_iff in E. cbn [app].
      split; [| intros m [->|Hin]%elem_of_cons; [split; [cbn [Start]; lia | done] |
                destruct (Hall m Hin); split; [lia | done]]].
      assert (matches_in (length text) ([mkMatch i (i + n) EntropyPattern] ++
                entropy_scan log2 fuel text taken (i + n) (drop n (c :: rest)))) as H; [| exact H].
      destruct Hm as [Hd Hle]. split.
      * apply disjoint_ranges_app; [| done |].
        -- apply (disjoint_ranges_snoc Start End []); [apply disjoint_ranges_nil | cbn [Start End]; lia |].
           intros b Hb. by apply not_elem_of_nil in Hb.
        -- intros a b Ha%list_elem_of_singleton Hb. subst a. left. by apply Hall.
      * intros m [Hx%list_elem_of_singleton|Hx]%elem_of_app; [subst m; cbn [End]; lia | by apply Hle].
    + cbn [app]. split; [done |]. intros m Hin. destruct (Hall m Hin). split; [lia | done].
  - destruct (IH (S i) rest) as [Hm Hall]; [| lia |].
    + replace (S i) with (i + 1) by lia. by rewrite <- drop_drop, <- Hr.
    + split; [done |]. intros m Hin. destruct (Hall m Hin). split; [lia | done].
Qed.

(** Everything a masker finds in a text, in order and apart. *)
Lemma Masker_find_spec m text :
  Forall pattern_ok (patterns m) ->
  matches_in (length text) (Masker_find log2 m text) /\ in_order (Masker_find log2 m text).
Proof.
  intros Hps. destruct (find_spec text (patterns m) Hps) as (Hm & Ho & Hc). unfold Masker_find.
  destruct (find text (patterns m)) as [ms taken]. cbn [fst snd] in *.
  destruct (Entropy m); [| done]. apply sorted_matches.
  destruct (entropy_scan_spec text taken (length text) 0 text) as [He Hall]; [done | lia |].
  fold (FindEntropy log2 text taken) in He, Hall.
  destruct Hm as [Hd Hle], He as [Hd' Hle']. split.
  - apply disjoint_ranges_app; [done | done |]. intros a b Ha Hb.
    destruct (overlaps_apart taken ms b a) as [?|?]; [by apply Hall | done | done |
      by apply Hd | by apply Hd' | by right | by left].
  - intros x [?|?]%elem_of_app; auto.
Qed.

End log2.

(** ** The string values of a body *)

(** A quoted literal of the document, closed by its first unescaped quote. *)
Definition sv_ok (doc : bytes) (sv : stringValue) : Prop :=
  sv_start sv + 2 <= sv_end sv <= length doc /\
  doc !! sv_start sv = Some quote /\ doc !! (sv_end sv - 1) = Some quote /\
  string_len InString (drop (S (sv_start sv)) doc) = Some (sv_end sv - S (sv_start sv)).

(** Every value seen so far, wherever it is kept. *)
Definition all_values (st : list frame * list stringValue) : list stringValue :=
  List.concat (List.map captured st.1) ++ st.2.

Definition new_value (tok : token) (sv : stringValue) : list stringValue :=
  match tok with Str _ => [sv] | _ => [] end.

Lemma sv_step_values st tok sv :
  all_values (sv_step st tok sv) ⊆+ all_values st ++ new_value tok sv.
Proof.
  destruct st as [stack out]. unfold all_values, new_value. destruct tok as [o| |t|]; cbn [fst snd].
  - cbn. rewrite app_nil_r. reflexivity.
  - rewrite app_nil_r. destruct stack as [|d [|p rest]]; cbn; [reflexivity | |].
    + rewrite app_nil_r, (Permutation_app_comm out). apply submseteq_app; [| reflexivity].
      destruct (skipAll d); [apply submseteq_nil_l | reflexivity].
    + rewrite <- !app_assoc, (Permutation_app_swap_app (captured d)).
      apply submseteq_app; [reflexivity |]. apply submseteq_app; [| reflexivity].
      destruct (skipAll d); [apply submseteq_nil_l | reflexivity].
  - destruct stack as [|top rest]; cbn; [reflexivity |].
    assert (captured (string_seen top t sv) ⊆+ captured top ++ [sv]) as H.
    { unfold string_seen. repeat case_match; cbn; try reflexivity; by apply submseteq_inserts_r. }
    rewrite <- !app_assoc. etrans; [apply submseteq_app; [exact H | reflexivity] |].
    rewrite <- !app_assoc. apply submseteq_app; [reflexivity |].
    rewrite (Permutation_app_comm [sv]), <- !app_assoc. reflexivity.
  - rewrite app_nil_r. destruct stack as [|top rest]; cbn; [reflexivity |]. destruct (object top); reflexivity.
Qed.

Definition sv_inv (doc : bytes) (pos : nat) (st : list frame * list stringValue) : Prop :=
  disjoint_ranges sv_start sv_end (all_values st) /\
  forall sv, sv ∈ all_values st -> sv_ok doc sv /\ sv_end sv <= pos.

Lemma sv_step_inv doc pos st tok start d :
  token_spans doc pos tok start d -> sv_inv doc pos st ->
  sv_inv doc (d_pos d) (sv_step st tok (mkSV start (d_pos d))).
Proof.
  intros (Hle & Hlt & [_ Hin] & Htok) [Hd Hall].
  pose proof (sv_step_values st tok (mkSV start (d_pos d))) as Hsub.
  assert (disjoint_ranges sv_start sv_end (all_values st ++ new_value tok (mkSV start (d_pos d))) /\
          forall sv, sv ∈ all_values st ++ new_value tok (mkSV start (d_pos d)) ->
            sv_ok doc sv /\ sv_end sv <= d_pos d) as [Hd' Hall'].
  { destruct tok as [o| |t|]; cbn [new_value]; rewrite ?app_nil_r;
      try (split; [done |]; intros sv Hsv; destruct (Hall sv Hsv); split; [done | lia]).
    destruct Htok as (H2 & Hq & Hq' & _ & Hl). split.
    - apply disjoint_ranges_snoc; [done | cbn; lia |]. intros b Hb. right. cbn.
      destruct (Hall b Hb). lia.
    - intros sv [Hsv|Hsv%list_elem_of_singleton]%elem_of_app.
      + destruct (Hall sv Hsv). split; [done | lia].
      + subst sv. unfold sv_ok. cbn. split_and!; try done; lia. }
  split; [by eapply disjoint_ranges_submseteq |].
  intros sv Hsv. apply Hall'. by eapply elem_of_submseteq.
Qed.

Lemma sv_loop_inv doc fuel : forall d st st',
  dec_in doc d -> sv_inv doc (d_pos d) st -> sv_loop fuel d st = Some st' ->
  exists pos, sv_inv doc pos st'.
Proof.
  induction fuel as [|fuel IH]; intros d st st' Hd Hi H; cbn in H; [injection H as <-; eauto |].
  destruct (Token d) as [tok start d'| |] eqn:Ht; [| injection H as <-; eauto | done].
  apply (Token_spans doc) in Ht; [| done]. eapply IH; [| by eapply sv_step_inv | exact H].
  by destruct Ht as (_ & _ & ? & _).
Qed.

(** The loop's fuel never runs out: it is the end of the input that stops it. *)
Lemma sv_loop_fuel doc fuel : forall d st,
  dec_in doc d -> length doc - d_pos d < fuel ->
  forall more, sv_loop (fuel + more) d st = sv_loop fuel d st.
Proof.
  induction fuel as [|fuel IH]; intros d st Hd Hf more; [lia |]. cbn.
  destruct (Token d) as [tok start d'| |] eqn:Ht; [| done | done].
  apply (Token_spans doc) in Ht; [| done]. destruct Ht as (Hle & Hlt & Hd' & _).
  apply IH; [done |]. destruct Hd' as [_ ?]. lia.
Qed.

Lemma sv_inv_start doc : sv_inv doc 0 ([], []).
Proof. split; [apply disjoint_ranges_nil | intros sv Hsv; by apply not_elem_of_nil in Hsv]. Qed.

Lemma stringValues_spec body values :
  stringValues body = Some values ->
  StronglySorted (fun a b => sv_end a <= sv_start b) values /\ Forall (sv_ok body) values.
Proof.
  unfold stringValues. intros H.
  destruct (sv_loop (S (length body)) (NewDecoder body) ([], [])) as [[stack out]|] eqn:E; [| done].
  cbn in H. injection H as <-.
  destruct (sv_loop_inv body _ _ _ _ (NewDecoder_in body) (sv_inv_start body) E)
    as (pos & Hd & Hall).
  apply disjoint_ranges_app_inv in Hd as (_ & Hd & _). cbn [snd] in Hd.
  assert (Total sv_le) as Htot by (intros a b; unfold sv_le; lia).
  assert (Transitive sv_le) as Htr by (intros a b c; unfold sv_le; lia).
  pose proof (merge_sort_Permutation sv_le out) as Hp.
  split.
  - apply (disjoint_ranges_sorted sv_start sv_end); [by rewrite Hp |].
    apply (StronglySorted_merge_sort sv_le out).
  - rewrite Forall_forall. intros sv Hsv. apply Hall. unfold all_values. apply elem_of_app. right.
    cbn. by rewrite <- Hp.
Qed.

(** ** Rewriting a body *)

Section mask.
Context (log2 : float64 -> float64).
Context {St : Type} `{PS : PlaceholderStore St}.

(** Some calls of the store, each about a secret in [asked], take it from one
    state to another. *)
Inductive reach (asked : bytes -> Prop) : St -> St -> Prop :=
| reach_refl st : reach asked st st
| reach_step st secret pat r st' st'' :
    asked secret -> store_placeholder st secret pat = (r, st') -> reach asked st' st'' ->
    reach asked st st''.

Lemma reach_trans asked a b c : reach asked a b -> reach asked b c -> reach asked a c.
Proof. induction 1; [done |]. intros. eapply reach_step; eauto. Qed.

Lemma reach_mono (asked asked' : bytes -> Prop) a b :
  (forall x, asked x -> asked' x) -> reach asked a b -> reach asked' a b.
Proof. intros H. induction 1; econstructor; eauto. Qed.

(** [r] is what the store answered for the secret, somewhere from [a] to [b]. *)
Definition issued (asked : bytes -> Prop) (a b : St) (secret r : bytes) : Prop :=
  exists st pat st', reach asked a st /\ store_placeholder st secret pat = (inr r, st') /\
                     reach asked st' b.

Lemma issued_weaken (asked asked' : bytes -> Prop) a a' b b' secret r :
  (forall x, asked x -> asked' x) -> reach asked' a' a -> reach asked' b b' ->
  issued asked a b secret r -> issued asked' a' b' secret r.
Proof.
  intros Hm Ha Hb (st & pat & st' & H1 & H2 & H3). exists st, pat, st'.
  split_and!; [| done |]; eauto using reach_trans, reach_mono.
Qed.

(** The secrets some edits replace. *)
Definition replaced (body : bytes) (es : list edit) (secret : bytes) : Prop :=
  exists e, e ∈ es /\ secret = slice body (from e) (upto e).

Lemma replaced_app body es1 es2 secret :
  replaced body es1 secret \/ replaced body es2 secret -> replaced body (es1 ++ es2) secret.
Proof. intros [(e & He & ->)|(e & He & ->)]; exists e; (split; [apply elem_of_app; auto | done]). Qed.

Definition is_secret (text : bytes) (mt : Match) : bool :=
  negb (is_prefix PlaceholderPrefix (slice text (Start mt) (End mt))).

Definition inner_of (body : bytes) (sv : stringValue) : bytes :=
  slice body (S (sv_start sv)) (sv_end sv - 1).

(** Where the secrets of a value stand in the body. *)
Definition value_ranges (m : Masker) (body : bytes) (sv : stringValue) : list (nat * nat) :=
  List.map (fun mt => (S (sv_start sv) + Start mt, S (sv_start sv) + End mt))
    (List.filter (is_secret (inner_of body sv)) (Masker_find log2 m (inner_of body sv))).

Definition edit_range (e : edit) : nat * nat := (from e, upto e).

Definition edit_ok (asked : bytes -> Prop) (a b : St) (body : bytes) (e : edit) : Prop :=
  repl e = BlindPlaceholder \/ issued asked a b (slice body (from e) (upto e)) (repl e).

(** What a pass over some matches or values did to the state. *)
Record did (body : bytes) (s s' : mask_state) (es : list edit) : Prop := {
  did_out : default [] (ms_out s') = default [] (ms_out s) ++ copy body (ms_last s) es;
  did_last : ms_last s' = last_end (ms_last s) es;
  did_some : is_Some (ms_out s) \/ es <> [] -> is_Some (ms_out s');
  did_reach : reach (replaced body es) (ms_store s) (ms_store s');
  did_ok : Forall (edit_ok (replaced body es) (ms_store s) (ms_store s') body) es;
  did_err : ms_err s' = None ->
            ms_err s = None /\
            Forall (fun e => issued (replaced body es) (ms_store s) (ms_store s')
                               (slice body (from e) (upto e)) (repl e)) es
}.

Lemma did_nothing body s : did body s s [].
Proof. split; cbn; [by rewrite app_nil_r | done | by intros [?|?] | constructor | constructor | by split]. Qed.

Lemma replaced_l body es1 es2 secret : replaced body es1 secret -> replaced body (es1 ++ es2) secret.
Proof. intros. apply replaced_app. by left. Qed.

Lemma replaced_r body es1 es2 secret : replaced body es2 secret -> replaced body (es1 ++ es2) secret.
Proof. intros. apply replaced_app. by right. Qed.

#[local] Hint Resolve replaced_l replaced_r reach_refl : core.

Lemma did_both body s1 s2 s3 es1 es2 :
  did body s1 s2 es1 -> did body s2 s3 es2 -> did body s1 s3 (es1 ++ es2).
Proof.
  intros [O1 L1 S1 R1 K1 E1] [O2 L2 S2 R2 K2 E2]. split.
  - by rewrite O2, O1, L1, copy_app, app_assoc.
  - by rewrite L2, L1, last_end_app.
  - intros [H|H]; apply S2; [left; auto |]. destruct es2; [left | by right].
    apply S1. right. intros ->. by apply H.
  - eapply reach_trans; [eapply reach_mono; [| exact R1] | eapply reach_mono; [| exact R2]]; eauto.
  - apply Forall_app. split; [eapply Forall_impl; [exact K1 |] | eapply Forall_impl; [exact K2 |]];
      (intros e [?|?]; [by left | right]).
    + eapply issued_weaken; [| | | eassumption]; eauto using reach_mono.
    + eapply issued_weaken; [| | | eassumption]; eauto using reach_mono.
  - intros H. destruct (E2 H) as [H2 F2]. destruct (E1 H2) as [H1 F1]. split; [done |].
    apply Forall_app. split; [eapply Forall_impl; [exact F1 |] | eapply Forall_impl; [exact F2 |]]; cbn beta.
    + intros e ?. eapply issued_weaken; [| | | eassumption]; eauto using reach_mono.
    + intros e ?. eapply issued_weaken; [| | | eassumption]; eauto using reach_mono.
Qed.

Lemma mask_match_did body inner base s mt :
  slice inner (Start mt) (End mt) = slice body (base + Start mt) (base + End mt) ->
  exists es, did body s (mask_match body inner base s mt) es /\
    List.map edit_range es =
      if is_secret inner mt then [(base + Start mt, base + End mt)] else [].
Proof.
  intros Hs. unfold mask_match, is_secret.
  destruct (is_prefix PlaceholderPrefix (slice inner (Start mt) (End mt))); cbn [negb].
  { exists []. split; [apply did_nothing | done]. }
  destruct (store_placeholder (ms_store s) (slice inner (Start mt) (End mt)) (match_Pattern mt))
    as [r store] eqn:Hr.
  assert (forall ph, reach (replaced body [mkEdit (base + Start mt) (base + End mt) ph]) (ms_store s) store)
    as Hreach.
  { intros ph. eapply reach_step; [| exact Hr | constructor]. rewrite Hs. eexists.
    split; [by left | done]. }
  destruct r as [err|ph].
  - exists [mkEdit (base + Start mt) (base + End mt) BlindPlaceholder]. split; [| done].
    split; cbn [ms_out ms_last ms_err copy last_end from upto repl default];
      [by rewrite app_nil_r | done | by eauto | apply Hreach | | done].
    repeat constructor.
  - exists [mkEdit (base + Start mt) (base + End mt) ph]. split; [| done].
    rewrite Hs in Hr.
    assert (issued (replaced body [mkEdit (base + Start mt) (base + End mt) ph]) (ms_store s) store
              (slice body (base + Start mt) (base + End mt)) ph) as Hi
      by (exists (ms_store s), (match_Pattern mt), store; split_and!; [constructor | done | constructor]).
    split; cbn [ms_out ms_last ms_err copy last_end from upto repl default];
      [by rewrite app_nil_r | done | by eauto | apply Hreach | |].
    + constructor; [by right | constructor].
    + intros ->. split; [done | by constructor].
Qed.

Lemma mask_matches_did body inner base ms : forall s,
  (forall mt, mt ∈ ms ->
     slice inner (Start mt) (End mt) = slice body (base + Start mt) (base + End mt)) ->
  exists es, did body s (fold_left (mask_match body inner base) ms s) es /\
    List.map edit_range es =
      List.map (fun mt => (base + Start mt, base + End mt)) (List.filter (is_secret inner) ms).
Proof.
  induction ms as [|mt ms IH]; intros s Hs.
  { exists []. split; [apply did_nothing | done]. }
  destruct (mask_match_did body inner base s mt) as (es1 & D1 & R1); [apply Hs; by left |].
  destruct (IH (mask_match body inner base s mt)) as (es2 & D2 & R2); [intros; apply Hs; by right |].
  exists (es1 ++ es2). split; [cbn; by eapply did_both |].
  rewrite List.map_app, R1, R2. cbn. by destruct (is_secret inner mt).
Qed.

Lemma mask_value_did m body s sv :
  Forall pattern_ok (patterns m) -> sv_ok body sv ->
  exists es, did body s (mask_value log2 m body s sv) es /\
    List.map edit_range es = value_ranges m body sv.
Proof.
  intros Hps (Hb & _). unfold mask_value, value_ranges. fold (inner_of body sv).
  destruct (Masker_find_spec log2 m (inner_of body sv) Hps) as [[_ Hin] _].
  assert (forall mt, mt ∈ Masker_find log2 m (inner_of body sv) ->
     slice (inner_of body sv) (Start mt) (End mt)
     = slice body (S (sv_start sv) + Start mt) (S (sv_start sv) + End mt)) as Hsl.
  { intros mt Hmt. apply Hin in Hmt. unfold inner_of in Hmt. rewrite slice_length in Hmt by lia.
    unfold inner_of, slice. apply slice_slice. lia. }
  destruct (Masker_find log2 m (inner_of body sv)) as [|mt ms]; [exists []; split; [apply did_nothing | done] |].
  set (s0 := mkMask (Some (default [] (ms_out s))) _ _ _ _).
  destruct (mask_matches_did body (inner_of body sv) (S (sv_start sv)) (mt :: ms) s0 Hsl) as (es & D & R).
  exists es. split; [| exact R]. destruct D as [O L Sm Rc K E]. split; [exact O | exact L | | exact Rc | exact K | exact E].
  intros _. apply Sm. left. cbn. eauto.
Qed.

Lemma mask_values_did m body values : forall s,
  Forall pattern_ok (patterns m) -> Forall (sv_ok body) values ->
  exists es, did body s (fold_left (mask_value log2 m body) values s) es /\
    List.map edit_range es = List.concat (List.map (value_ranges m body) values).
Proof.
  induction values as [|sv values IH]; intros s Hps Hv.
  { exists []. split; [apply did_nothing | done]. }
  apply Forall_cons in Hv as [Hsv Hv].
  destruct (mask_value_did m body s sv Hps Hsv) as (es1 & D1 & R1).
  destruct (IH (mask_value log2 m body s sv) Hps Hv) as (es2 & D2 & R2).
  exists (es1 ++ es2). split; [cbn; by eapply did_both |]. by rewrite List.map_app, R1, R2.
Qed.

(** The ranges of one value: in order, inside its quotes. *)
Lemma value_ranges_inside m body sv :
  Forall pattern_ok (patterns m) -> sv_ok body sv ->
  StronglySorted (fun a b : nat * nat => a.2 <= b.1) (value_ranges m body sv) /\
  Forall (fun r : nat * nat => sv_start sv < r.1 /\ r.1 < r.2 /\ r.2 < sv_end sv)
    (value_ranges m body sv).
Proof.
  intros Hps (Hb & _). unfold value_ranges.
  destruct (Masker_find_spec log2 m (inner_of body sv) Hps) as [[[_ Hne _] Hin] Ho].
  assert (forall mt, mt ∈ Masker_find log2 m (inner_of body sv) ->
            Start mt < End mt /\ End mt <= sv_end sv - 1 - S (sv_start sv)) as Hr.
  { intros mt Hmt. split; [by apply Hne |]. apply Hin in Hmt. unfold inner_of in Hmt.
    rewrite slice_length in Hmt by lia. done. }
  clear Hne Hin. unfold in_order in Ho. revert Ho Hr.
  generalize (Masker_find log2 m (inner_of body sv)) as ms.
  induction ms as [|mt ms IH]; intros Ho Hr; [split; constructor |].
  apply StronglySorted_inv in Ho as [Ho Hall].
  destruct (IH Ho) as [Hs Hf]; [intros x Hx; apply Hr; by right |].
  cbn. destruct (is_secret (inner_of body sv) mt); [| done]. cbn. split.
  - constructor; [done |]. rewrite Forall_forall. intros r Hx.
    apply list_elem_of_In, in_map_iff in Hx as (y & <- & Hy). apply filter_In in Hy as [Hy _].
    rewrite Forall_forall in Hall. cbn. apply list_elem_of_In in Hy. apply Hall in Hy. lia.
  - constructor; [| done]. cbn. destruct (Hr mt) as [? ?]; [by left | lia].
Qed.

Lemma values_ranges_inside m body values :
  Forall pattern_ok (patterns m) -> Forall (sv_ok body) values ->
  StronglySorted (fun a b => sv_end a <= sv_start b) values ->
  let rs := List.concat (List.map (value_ranges m body) values) in
  StronglySorted (fun a b : nat * nat => a.2 <= b.1) rs /\
  Forall (fun r : nat * nat => r.1 < r.2 /\
            exists sv, sv ∈ values /\ sv_start sv < r.1 /\ r.2 < sv_end sv) rs.
Proof.
  intros Hps Hv Hs. cbv zeta. induction Hs as [|sv values Hs IH Hall]; [split; constructor |].
  apply Forall_cons in Hv as [Hsv Hv]. destruct (IH Hv) as [Ho Hf]. clear IH.
  destruct (value_ranges_inside m body sv Hps Hsv) as [Ho1 Hf1]. cbn. split.
  - apply StronglySorted_app. split_and!; [| done | done]. intros a b Ha Hb.
    rewrite Forall_forall in Hf1. rewrite Forall_forall in Hf. rewrite Forall_forall in Hall.
    apply Hf1 in Ha as (_ & _ & Ha). apply Hf in Hb as (_ & sv' & Hin & Hb & _).
    apply Hall in Hin. lia.
  - apply Forall_app. split.
    + eapply Forall_impl; [exact Hf1 |]. cbn. intros r (? & ? & ?). split; [done |].
      exists sv. split; [by left | done].
    + eapply Forall_impl; [exact Hf |]. cbn. intros r (? & sv' & ? & ?). split; [done |].
      exists sv'. split; [by right | done].
Qed.

(** C12: masking changes the secrets and nothing else.  On a body the decoder
    reads, the result is the body with a list of edits applied, in order and
    apart, each strictly inside the quotes of one string value; what is edited
    is exactly every match in those values that is not already a placeholder,
    so no secret found is left; and what stands in its place is the
    placeholder the vault answered for that very secret, or, only when the
    error is reported, the blind scrub. *)
Theorem Mask_edits_exactly_the_secrets :
  forall m store body values,
    Forall pattern_ok (patterns m) -> stringValues body = Some values ->
    exists es report err store',
      Mask log2 m store body = (Masked (apply_edits body es) report err, store') /\
      List.map edit_range es = List.concat (List.map (value_ranges m body) values) /\
      StronglySorted (fun a b : nat * nat => a.2 <= b.1) (List.map edit_range es) /\
      Forall (fun r : nat * nat => r.1 < r.2 /\
                exists sv, sv ∈ values /\ sv_start sv < r.1 /\ r.2 < sv_end sv)
        (List.map edit_range es) /\
      reach (replaced body es) store store' /\
      Forall (edit_ok (replaced body es) store store' body) es /\
      (err = None -> Forall (fun e => issued (replaced body es) store store'
                                        (slice body (from e) (upto e)) (repl e)) es).
Proof.
  intros m store body values Hps Hv. destruct (stringValues_spec body values Hv) as [Hs Hok].
  destruct (mask_values_did m body values (mkMask None 0 ∅ None store) Hps Hok) as (es & D & R).
  unfold Mask. rewrite Hv.
  set (s := fold_left (mask_value log2 m body) values _) in *.
  destruct D as [O L Sm Rc K E]. cbn in O, L, Rc.
  exists es, (ms_report s), (ms_err s), (ms_store s). rewrite R.
  destruct (values_ranges_inside m body values Hps Hok Hs) as [Hso Hin].
  split_and!; [| done | done | done | done | done | intros H; by apply E].
  destruct (ms_out s) as [out|] eqn:Ho; cbn in O.
  - do 2 f_equal. unfold apply_edits. by rewrite O, L.
  - destruct es as [|e es]; [done |]. destruct Sm as [? H]; [by right | discriminate H].
Qed.

End mask.

(** ** The vault behind the seam *)

Record vault_world := mkWorld { w_vault : Vault.t; w_calls : nat }.

(** Each call reads the clock and tries the disk once. *)
Definition vault_store (mac : string -> string) (world : nat -> GoTime.time * bool)
    : PlaceholderStore vault_world := {|
  store_error := unit;
  store_placeholder w secret pattern :=
    let '(now, ok) := world (w_calls w) in
    let '(r, v) := Vault.Placeholder mac (w_vault w) (to_string secret) pattern now ok in
    (match r with inl e => inl e | inr ph => inr (of_string ph) end, mkWorld v (S (w_calls w)))
|}.

Lemma of_to_string b : of_string (to_string b) = b.
Proof. apply list_ascii_of_string_of_list_ascii. Qed.

(** What the vault issues is the placeholder of the secret. *)
Lemma vault_issued mac world asked a b secret r :
  @issued vault_world (vault_store mac world) asked a b secret r ->
  r = of_string (Vault.placeholder_of mac (to_string secret)).
Proof.
  intros (w & pat & w' & _ & H & _). cbn [store_placeholder vault_store] in H. destruct (world (w_calls w)) as [now ok].
  pose proof (Vault.Placeholder_cases mac (w_vault w) (to_string secret) pat now ok) as Hc.
  cbv zeta in Hc.
  destruct (Vault.Placeholder mac (w_vault w) (to_string secret) pat now ok) as [[e|ph] v]; [cbn in H; discriminate H |].
  destruct Hc as [-> _]. cbn in H. injection H as H _. by symmetry.
Qed.

(** ** Concrete bodies *)

(** A pattern that finds one word. *)
Fixpoint occurrences (word : bytes) (i : nat) (l : bytes) : list spans :=
  match l with
  | [] => []
  | _ :: l' =>
      (if is_prefix word l then [[Some (i, i + length word)]] else []) ++ occurrences word (S i) l'
  end.

Definition word_pattern (name word : string) : Pattern :=
  mkPattern name (occurrences (of_string word) 0) 0.

Lemma word_pattern_ok name word : pattern_ok (word_pattern name word).
Proof.
  intros text loc g s e Hin Hg. cbn in Hin.
  assert (forall l i, loc ∈ occurrences (of_string word) i l -> s <= e <= i + length l) as H.
  { clear Hin. intros l. induction l as [|c l IH]; intros i Hin; cbn in Hin;
      [by apply not_elem_of_nil in Hin |].
    apply elem_of_app in Hin as [Hin|Hin].
    - destruct (is_prefix (of_string word) (c :: l)) eqn:Hp; [| by apply not_elem_of_nil in Hin].
      apply list_elem_of_singleton in Hin as ->. apply is_prefix_length in Hp.
      unfold group_span in Hg. destruct g as [|g]; [injection Hg as <- <-; cbn in *; lia |].
      destruct g; discriminate Hg.
    - apply IH in Hin. cbn. lia. }
  apply H in Hin. cbn in Hin. lia.
Qed.

Definition test_store : PlaceholderStore vault_world :=
  vault_store Vault.pad_mac (fun _ => (Vault.monday, true)).

Definition test_masker : Masker := mkMasker [word_pattern "word" "cafebabe"] false.

Definition test_world : vault_world := mkWorld Vault.empty_vault 0.

(** A JSON document written with single quotes. *)
Definition json (s : string) : bytes :=
  List.map (fun c => if Ascii.eqb c "'" then quote else c) (of_string s).

Definition test_body : bytes := json "{'model':'m','messages':[{'text':'key cafebabe.'}]}".

(** The bytes that are sent on. *)
Definition body_of {St} `{PlaceholderStore St} (r : mask_result * St) : bytes :=
  match r.1 with Unread b => b | Masked b _ _ => b end.

(** Whether the caller is told that something went wrong. *)
Definition failed {St} `{PlaceholderStore St} (r : mask_result * St) : bool :=
  match r.1 with Unread _ => true | Masked _ _ err => bool_decide (is_Some err) end.

Lemma Mask_edits_exactly_the_secrets_witness :
  stringValues test_body = Some [mkSV 9 12; mkSV 33 48] /\
  exists es, List.map edit_range es = [(38, 46)] /\
    apply_edits test_body es
    = json "{'model':'m','messages':[{'text':'key REPLAY_SECRET_cafebabe00000000.'}]}".
Proof.
  split; [vm_compute; reflexivity |].
  destruct (@Mask_edits_exactly_the_secrets (fun x => x) vault_world test_store test_masker test_world
              test_body [mkSV 9 12; mkSV 33 48]) as (es & report & err & w & HM & HR & _).
  - constructor; [apply word_pattern_ok | constructor].
  - vm_compute. reflexivity.
  - exists es. split.
    + rewrite HR. vm_compute. reflexivity.
    + assert (body_of (@Mask (fun x => x) vault_world test_store test_masker test_world test_body)
              = json "{'model':'m','messages':[{'text':'key REPLAY_SECRET_cafebabe00000000.'}]}") as HE
        by (vm_compute; reflexivity).
      rewrite HM in HE. exact HE.
Defined.

(** A body that stops inside an open object is taken for one without string
    values: the decoder's end of input is not told from the end of the
    document, so what was captured in the open containers is dropped, and the
    secret goes out as it stands, without an error. *)
Lemma Mask_lets_a_truncated_body_through :
  let body := json "{'model':'m','messages':[{'text':'key cafebabe.'}]" in
  let r := @Mask (fun x => x) vault_world test_store test_masker test_world body in
  body_of r = body /\ failed r = false.
Proof. split; vm_compute; reflexivity. Qed.

End MaskingSpec.
