(* ===== verification/JsonValue.v ===== *)
(** Go's [json.Unmarshal] as far as the program decodes with it: a whole
    document as a tree of values, and the field rules of a struct target
    (exact name first, then a name equal up to case; a field given twice is
    decoded twice, in order).

    The tree is built from the token decoder of [Json]: a document is accepted
    when its tokens make exactly one value and nothing follows it. *)

From S2P Require Import Prelude GoString Json.
From Stdlib Require Import Ascii String.

Open Scope string_scope.
Open Scope list_scope.
Open Scope nat_scope.

Module JsonValue.
Import Json.

#[local] Abbreviation length := List.length.

Inductive value :=
| Null
| Bool (b : bool)
| Num (raw : bytes)
| String_ (s : string)
| Array (l : list value)
| Object (l : list (string * value)).

(** An open container: its values so far, last first, and for an object the
    key whose value is being read. *)
Inductive frame :=
| InArray (rev_values : list value)
| InObject (rev_fields : list (string * value)) (key : option string).

Definition scalar_value (raw : bytes) : value :=
  match raw with
  | c :: _ =>
      if Ascii.eqb c "t" then Bool true else if Ascii.eqb c "f" then Bool false
      else if Ascii.eqb c "n" then Null else Num raw
  | [] => Null
  end.

Record build := mkBuild { stack : list frame; roots : list value (* last first *) }.

(** A finished value goes to the container it stands in, or to the top. *)
Definition put (b : build) (v : value) : build :=
  match stack b with
  | [] => mkBuild [] (v :: roots b)
  | InArray l :: st => mkBuild (InArray (v :: l) :: st) (roots b)
  | InObject l (Some k) :: st => mkBuild (InObject ((k, v) :: l) None :: st) (roots b)
  | InObject l None :: st => b
  end.

Definition close_frame (f : frame) : value :=
  match f with
  | InArray l => Array (rev l)
  | InObject l _ => Object (rev l)
  end.

Definition build_step (doc : bytes) (b : build) (tok : token) (start stop : nat) : build :=
  match tok with
  | Open true => mkBuild (InObject [] None :: stack b) (roots b)
  | Open false => mkBuild (InArray [] :: stack b) (roots b)
  | Close =>
      match stack b with
      | f :: st => put (mkBuild st (roots b)) (close_frame f)
      | [] => b
      end
  | Str s =>
      match stack b with
      | InObject l None :: st => mkBuild (InObject l (Some s) :: st) (roots b)
      | _ => put b (String_ s)
      end
  | Scalar => put b (scalar_value (take (stop - start) (drop start doc)))
  end.

(** [maxNestingDepth] of the scanner. *)
Definition max_depth : N := 10000%N.

Fixpoint build_loop (fuel : nat) (doc : bytes) (d : decoder) (b : build) : option build :=
  match fuel with
  | O => Some b
  | S fuel =>
      match Token d with
      | TokEOF => Some b
      | TokErr => None
      | TokOk tok start d' =>
          let b := build_step doc b tok start (d_pos d') in
          if (max_depth <? N.of_nat (length (stack b)))%N then None else build_loop fuel doc d' b
      end
  end.

(** The document's value, or [None] for a document [Unmarshal] refuses. *)
Definition parse (doc : bytes) : option value :=
  match build_loop (S (length doc)) doc (NewDecoder doc) (mkBuild [] []) with
  | Some (mkBuild [] [v]) => Some v
  | _ => None
  end.

(** ** Struct fields *)

(** The field a key names among the tags of a struct. *)
Definition field_of (tags : list string) (k : string) : option string :=
  match find_first (String.eqb k) tags with
  | Some t => Some t
  | None => find_first (equal_fold k) tags
  end.

(** Every value given for a field, in document order. *)
Definition field_values (tags : list string) (tag : string) (l : list (string * value)) : list value :=
  omap (fun kv => match field_of tags kv.1 with
                  | Some t => if String.eqb t tag then Some kv.2 else None
                  | None => None
                  end) l.

(** Decoding in order into one target: a value of the wrong kind is an error
    that does not stop the rest, [null] leaves the target as it is. *)
Definition decode_string (st : string * bool) (v : value) : string * bool :=
  match v with
  | String_ s => (s, st.2)
  | Null => st
  | _ => (st.1, false)
  end.

Definition string_field (tags : list string) (tag : string) (l : list (string * value))
    (init : string) : string * bool :=
  fold_left decode_string (field_values tags tag l) (init, true).

End JsonValue.

(** [json.Unmarshal] into Go structs that keep pieces of the document raw
    ([json.RawMessage]): the members of an object and the elements of an array
    with the bytes each value stands in, and decoding by field from them.

    A target of the wrong kind makes [Unmarshal] return an error after decoding
    the rest; every caller in the program discards what was decoded then, so
    here it is [None].  [null] leaves a string, a number, a boolean or a struct
    as it was, empties a pointer, and is kept by a raw field.  A list given
    twice is decoded afresh the second time, where Go decodes into the elements
    of the first; no writer of these documents gives one twice. *)

Open Scope string_scope.
Open Scope list_scope.
Open Scope Z_scope.

Module RawJson.
Import Json JsonValue.

#[local] Abbreviation length := List.length.

(** ** Members with their bytes *)

(** The walk over the tokens of one container: how deep it stands, whether the
    container is an object, the key whose value is being read, where that
    value starts, and what is finished, last first. *)
Record walk := mkWalk {
  w_depth : nat;
  w_object : bool;
  w_key : option string;
  w_start : nat;
  w_done : list (string * bytes)
}.

Definition slice (doc : bytes) (start stop : nat) : bytes := take (stop - start) (drop start doc).

Definition finish (doc : bytes) (w : walk) (start stop : nat) : walk :=
  mkWalk 1 (w_object w) None 0 ((default "" (w_key w), slice doc start stop) :: w_done w).

Definition walk_step (doc : bytes) (w : walk) (tok : token) (start stop : nat) : walk :=
  match tok, w_depth w with
  | Open o, O => mkWalk 1 o None 0 []
  | Open _, 1%nat => mkWalk 2 (w_object w) (w_key w) start (w_done w)
  | Open _, S d => mkWalk (S (S d)) (w_object w) (w_key w) (w_start w) (w_done w)
  | Close, 2%nat => finish doc w (w_start w) stop
  | Close, d => mkWalk (pred d) (w_object w) (w_key w) (w_start w) (w_done w)
  | Str s, 1%nat =>
      if w_object w && negb (bool_decide (is_Some (w_key w)))
      then mkWalk 1 true (Some s) 0 (w_done w) else finish doc w start stop
  | Scalar, 1%nat => finish doc w start stop
  | _, _ => w
  end.

Fixpoint walk_loop (fuel : nat) (doc : bytes) (d : decoder) (w : walk) : walk :=
  match fuel with
  | O => w
  | S fuel =>
      match Token d with
      | TokOk tok start d' => walk_loop fuel doc d' (walk_step doc w tok start (d_pos d'))
      | _ => w
      end
  end.

(** The members of a valid document that is an object, each value as the bytes
    it stands in; of an array, the elements, under empty names. *)
Definition members (doc : bytes) : list (string * bytes) :=
  rev (w_done (walk_loop (S (length doc)) doc (NewDecoder doc) (mkWalk 0 false None 0 []))).

Definition elements (doc : bytes) : list bytes := List.map snd (members doc).

(** ** Targets *)

Definition decoded (A : Type) : Type := bytes -> A -> option A.

Definition into_string : decoded string := fun raw cur =>
  match parse raw with Some (String_ s) => Some s | Some Null => Some cur | _ => None end.

Definition into_bool : decoded bool := fun raw cur =>
  match parse raw with Some (Bool b) => Some b | Some Null => Some cur | _ => None end.

(** [strconv.ParseInt(s, 10, 64)] on a JSON number. *)
Definition parse_int (raw : bytes) : option Z :=
  let '(sign, digits) := match raw with
                         | c :: l => if Ascii.eqb c "-" then (-1, l) else (1, raw)
                         | [] => (1, raw)
                         end in
  if forallb is_digit digits && negb (length digits =? 0)%nat then
    let n := sign * fold_left (fun n c => n * 10 + (Z.of_N (N_of_ascii c) - 48)) digits 0 in
    if bool_decide (int64_range n) then Some n else None
  else None.

Definition into_int : decoded Z := fun raw cur =>
  match parse raw with Some (Num n) => parse_int n | Some Null => Some cur | _ => None end.

Definition into_raw : decoded bytes := fun raw _ => Some raw.

Definition into_pointer {A} (zero : A) (into : decoded A) : decoded (option A) := fun raw cur =>
  match parse raw with Some Null => Some None | _ => Some <$> into raw (default zero cur) end.

(** A struct whose fields have these tags: each member goes to the field its
    key names, in document order. *)
Definition into_struct {A} (tags : list string) (set : string -> decoded A) : decoded A := fun raw cur =>
  match parse raw with
  | Some (Object _) =>
      fold_left (fun (acc : option A) (kv : string * bytes) =>
        a ← acc; match field_of tags kv.1 with Some t => set t kv.2 a | None => Some a end)
        (members raw) (Some cur)
  | Some Null => Some cur
  | _ => None
  end.

Fixpoint sequence {A} (l : list (option A)) : option (list A) :=
  match l with
  | [] => Some []
  | x :: l => a ← x; r ← sequence l; Some (a :: r)
  end.

Definition into_list {A} (zero : A) (into : decoded A) : decoded (list A) := fun raw cur =>
  match parse raw with
  | Some (Array _) => sequence (List.map (fun e => into e zero) (elements raw))
  | Some Null => Some []
  | _ => None
  end.

(** A field of a record, decoded in place. *)
Definition field {A B} (get : A -> B) (put : A -> B -> A) (into : decoded B) : decoded A :=
  fun raw a => put a <$> into raw (get a).

Definition q1 : string := String quote "a" ++ String quote "".

Example members_spans :
  members (of_string ("{" ++ q1 ++ ": [1, {" ++ q1 ++ ":2}] ,  " ++ q1 ++ ":null}")%string)
    = [("a", of_string ("[1, {" ++ q1 ++ ":2}]")%string); ("a", of_string "null")].
Proof. reflexivity. Qed.

Example elements_spans : elements (of_string "[ 1,[2 ,3], 4]") = [of_string "1"; of_string "[2 ,3]"; of_string "4"].
Proof. reflexivity. Qed.

End RawJson.
