(* ===== verification/Scope.v ===== *)
(** Where a secret may be restored ([src/internal/masking/scope.go]): scopes
    and their flag grammar, destinations, and whether a file edit's path stays
    inside the project.

    The file system is a parameter: [eval_symlinks] is
    [filepath.EvalSymlinks], [None] when a path does not exist.  The lexical
    functions of [path/filepath] are modelled on the components of a cleaned
    Unix path. *)

From S2P Require Import Prelude GoString.
From Stdlib Require Import Ascii String.

Open Scope string_scope.
Open Scope list_scope.
Open Scope nat_scope.

Module Scope.

(** ** [path/filepath] *)

(** A cleaned path: [Clean] leaves no empty and no "." component, and ".."
    only at the front of a relative one.  Its text is "/" or "" followed by
    the components joined with "/", and "." when that is empty. *)
Record path := mkPath { rooted : bool; comps : list string }.

#[export] Instance path_eq_dec : EqDecision path.
Proof. solve_decision. Defined.

Fixpoint split_slash (s : string) : list string :=
  match s with
  | EmptyString => [""]
  | String c s' =>
      if Ascii.eqb c "/" then "" :: split_slash s'
      else match split_slash s' with
           | seg :: segs => String c seg :: segs
           | [] => [String c ""]
           end
  end.

(** One element of [Clean]; the components are kept last first. *)
Definition clean_step (r : bool) (acc : list string) (c : string) : list string :=
  if String.eqb c "" || String.eqb c "." then acc
  else if String.eqb c ".." then
    match acc with
    | top :: acc' => if String.eqb top ".." then ".." :: acc else acc'
    | [] => if r then [] else [".."]
    end
  else c :: acc.

Definition clean_comps (r : bool) (cs : list string) : list string :=
  rev (fold_left (clean_step r) cs []).

Definition IsAbs (s : string) : bool := has_prefix "/" s.

Definition Clean (s : string) : path := mkPath (IsAbs s) (clean_comps (IsAbs s) (split_slash s)).

Definition render (p : path) : string :=
  let body := String.concat "/" (comps p) in
  if rooted p then String "/" body else if String.eqb body "" then "." else body.

(** [Join] of a non-empty path with the components after it. *)
Definition Join (p : path) (rest : list string) : path :=
  mkPath (rooted p) (clean_comps (rooted p) (comps p ++ rest)).

Fixpoint strip_common (base targ : list string) : list string * list string :=
  match base, targ with
  | b :: base', t :: targ' => if String.eqb b t then strip_common base' targ' else (base, targ)
  | _, _ => (base, targ)
  end.

(** The components of [Rel(base, targ)]; [None] is its error. *)
Definition Rel (base targ : path) : option (list string) :=
  if Bool.eqb (rooted base) (rooted targ) then
    match strip_common (comps base) (comps targ) with
    | ([], t) => Some t
    | (b :: bs, t) =>
        if String.eqb b ".." then None else Some (repeat ".." (S (List.length bs)) ++ t)
    end
  else None.

Section fs.
Context (eval_symlinks : string -> option string).

(** [resolveExisting]: the deepest existing ancestor resolved, the rest
    re-attached.  [cs] are the components of the ancestor, last first; when
    none of them exists the path is returned as it is. *)
Fixpoint resolve_from (p : path) (cs rest : list string) : path :=
  match eval_symlinks (render (mkPath (rooted p) (rev cs))) with
  | Some resolved => Join (Clean resolved) rest
  | None =>
      match cs with
      | [] => p
      | c :: cs' => resolve_from p cs' (c :: rest)
      end
  end.

Definition resolveExisting (p : path) : path := resolve_from p (rev (comps p)) [].

Definition PlaceholderPrefix : string := "REPLAY_SECRET_".

Definition insideProject (root p : string) : bool :=
  if contains p PlaceholderPrefix then false
  else
    let root := resolveExisting (Clean root) in
    let target := if IsAbs p then Clean p else Join root (split_slash p) in
    match Rel root (resolveExisting target) with
    | None => false
    | Some (c :: _) => negb (String.eqb c "..")
    | Some [] => true
    end.

End fs.

(** ** Destinations and scopes *)

Inductive DestinationKind := DestinationText | DestinationEdit | DestinationTool.

#[export] Instance DestinationKind_eq_dec : EqDecision DestinationKind.
Proof. solve_decision. Defined.

Definition kind_text (k : DestinationKind) : string :=
  match k with DestinationText => "text" | DestinationEdit => "edit" | DestinationTool => "tool" end.

Definition ReasonScope : string := "scope".
Definition ReasonOutsideProject : string := "outside-project".
Definition ReasonNoPath : string := "no-path".
Definition ReasonNoProject : string := "no-project".
Definition ReasonUnparsedInput : string := "unparsed-input".
Definition ReasonTooLarge : string := "too-large".
Definition ReasonUnknown : string := "unknown".

Record Destination := mkDest {
  Kind : DestinationKind;
  Tool : string;
  Inside : bool;
  Reason : string
}.

Definition text_destination : Destination := mkDest DestinationText "" false "".

Definition dest_string (d : Destination) : string :=
  match Kind d with
  | DestinationText => "text"
  | k => String.append (kind_text k) (String.append ":" (Tool d))
  end.

Record Scope := mkScope { Text : bool; Edit : bool; Tools : gset string }.

Definition DefaultScope : Scope := mkScope true true ∅.

(** [deny]: why the scope keeps a secret out, or "". *)
Definition deny (s : Scope) (d : Destination) : string :=
  if bool_decide (Tool d ∈ Tools s) && negb (bool_decide (Kind d = DestinationText)) then ""
  else if negb (String.eqb (Reason d) "") then Reason d
  else if bool_decide (Kind d = DestinationText) && Text s then ""
  else if bool_decide (Kind d = DestinationEdit) && Inside d && Edit s then ""
  else ReasonScope.

Record Scopes := mkScopes {
  Project : string;
  Default : Scope;
  ByPattern : gmap string Scope
}.

(** [Scopes.For] *)
Definition For_ (s : Scopes) (pattern : string) : Scope := default (Default s) (ByPattern s !! pattern).

(** *** The flag grammar *)

(** [strings.Cut] at "=". *)
Fixpoint cut_eq (s : string) : option (string * string) :=
  match s with
  | EmptyString => None
  | String c s' =>
      if Ascii.eqb c "=" then Some ("", s')
      else match cut_eq s' with Some (a, b) => Some (String c a, b) | None => None end
  end.

Fixpoint split_comma (s : string) : list string :=
  match s with
  | EmptyString => [""]
  | String c s' =>
      if Ascii.eqb c "," then "" :: split_comma s'
      else match split_comma s' with
           | seg :: segs => String c seg :: segs
           | [] => [String c ""]
           end
  end.

Inductive scope_error := NoDestinations | BadDestination (d : string) | UnknownPattern (name : string).

(** The loop over the destinations; [alone] says there is only one. *)
Fixpoint parse_dests (alone : bool) (s : Scope) (dests : list string) : scope_error + Scope :=
  match dests with
  | [] => inr s
  | d :: dests' =>
      let d := trim_space d in
      if String.eqb d "text" then parse_dests alone (mkScope true (Edit s) (Tools s)) dests'
      else if String.eqb d "edit" then parse_dests alone (mkScope (Text s) true (Tools s)) dests'
      else if String.eqb d "none" && alone then inr (mkScope false false ∅)
      else match strip_prefix "tool:" d with
           | Some (String c n) =>
               parse_dests alone (mkScope (Text s) (Edit s) ({[String c n]} ∪ Tools s)) dests'
           | _ => inl (BadDestination d)
           end
  end.

Definition ParseScope (spec : string) : scope_error + (string * Scope) :=
  match cut_eq spec with
  | None => inl NoDestinations
  | Some (name, list) =>
      let name := trim_space name in
      if String.eqb name "" then inl NoDestinations
      else
        let dests := split_comma list in
        match parse_dests (List.length dests =? 1) (mkScope false false ∅) dests with
        | inl e => inl e
        | inr s => inr (name, s)
        end
  end.

Definition AnyPattern : string := "*".
Definition EntropyPattern : string := "entropy".

(** [ParseScopes]; [known] are the names of the patterns in use. *)
Fixpoint parse_specs (known : list string) (out : Scopes) (specs : list string) : scope_error + Scopes :=
  match specs with
  | [] => inr out
  | spec :: specs' =>
      match ParseScope spec with
      | inl e => inl e
      | inr (name, s) =>
          if String.eqb name AnyPattern
          then parse_specs known (mkScopes (Project out) s (ByPattern out)) specs'
          else if negb (existsb (String.eqb name) (EntropyPattern :: known))
          then inl (UnknownPattern name)
          else parse_specs known (mkScopes (Project out) (Default out) (<[name := s]> (ByPattern out))) specs'
      end
  end.

Definition ParseScopes (project : string) (specs known : list string) : scope_error + Scopes :=
  parse_specs known (mkScopes project DefaultScope ∅) specs.

(** ** What the scope decides *)

(** A scope lets a secret into a destination in three ways only: it names the
    tool, it allows text, or it allows edits and the edit is inside. *)
Lemma deny_spec s d :
  deny s d = "" <->
  (Tool d ∈ Tools s /\ Kind d <> DestinationText) \/
  (Reason d = "" /\ ((Kind d = DestinationText /\ Text s = true) \/
                     (Kind d = DestinationEdit /\ Inside d = true /\ Edit s = true))).
Proof.
  unfold deny. destruct (bool_decide_reflect (Tool d ∈ Tools s)) as [Ht|Ht],
    (bool_decide_reflect (Kind d = DestinationText)) as [Hk|Hk]; cbn [andb negb];
    try (split; [by auto | done]);
    destruct (String.eqb_spec (Reason d) "") as [Hr|Hr]; cbn [negb];
    try (split; [intros ?; done | intros [[? ?]|[? _]]; done]);
    destruct (Text s) eqn:E1, (bool_decide_reflect (Kind d = DestinationEdit)) as [He|He],
      (Inside d) eqn:E2, (Edit s) eqn:E3; cbn [andb]; unfold ReasonScope; naive_solver.
Qed.

(** ** Paths *)

(** A cleaned rooted path climbs nowhere. *)
Lemma clean_step_rooted acc c : ~ (".." ∈ acc) -> ~ (".." ∈ clean_step true acc c).
Proof.
  unfold clean_step. intros H.
  destruct (String.eqb c "" || String.eqb c "."); [done |].
  destruct (String.eqb_spec c "..") as [->|Hc].
  - destruct acc as [|top acc]; [done |]. destruct (String.eqb_spec top "..") as [->|Hne].
    + exfalso. apply H. by left.
    + intros Hin. apply H. by right.
  - intros [Heq|Hin]%elem_of_cons; [congruence | done].
Qed.

Lemma clean_comps_rooted cs : ~ (".." ∈ clean_comps true cs).
Proof.
  unfold clean_comps. rewrite list_elem_of_In, <- in_rev, <- list_elem_of_In.
  assert (forall acc, ~ (".." ∈ acc) -> ~ (".." ∈ fold_left (clean_step true) cs acc)) as H.
  { induction cs as [|c cs IH]; intros acc Hacc; [done |]. cbn. by apply IH, clean_step_rooted. }
  apply H. by intros ?%not_elem_of_nil.
Qed.

Lemma strip_common_spec base targ b t :
  strip_common base targ = (b, t) -> exists k, base = k ++ b /\ targ = k ++ t.
Proof.
  revert targ. induction base as [|x base IH]; intros targ H.
  { cbn in H. injection H as <- <-. by exists []. }
  destruct targ as [|y targ]; cbn in H; [injection H as <- <-; by exists [] |].
  destruct (String.eqb_spec x y) as [->|_]; [| injection H as <- <-; by exists []].
  destruct (IH targ H) as (k & -> & ->). by exists (y :: k).
Qed.

(** A path the check lets through resolves below the resolved root. *)
Lemma insideProject_below eval root p :
  insideProject eval root p = true ->
  contains p PlaceholderPrefix = false /\
  exists r t below, resolveExisting eval (Clean root) = r /\
    t = resolveExisting eval (if IsAbs p then Clean p else Join r (split_slash p)) /\
    rooted t = rooted r /\ comps t = comps r ++ below /\ head below <> Some "..".
Proof.
  unfold insideProject. destruct (contains p PlaceholderPrefix); [done |]. intros H. split; [done |].
  set (r := resolveExisting eval (Clean root)) in *.
  set (t := resolveExisting eval (if IsAbs p then Clean p else Join r (split_slash p))) in *.
  unfold Rel in H.
  destruct (Bool.eqb_spec (rooted r) (rooted t)) as [Hr|]; [| done].
  destruct (strip_common (comps r) (comps t)) as [b below] eqn:E.
  apply strip_common_spec in E as (k & Eb & Et). destruct b as [|b bs].
  - exists r, t, below. rewrite app_nil_r in Eb. subst k. split; [reflexivity |]. split; [reflexivity |]. split; [done |]. split; [done |].
    destruct below as [|c below]; [done |]. cbn in H |- *.
    apply negb_true_iff, String.eqb_neq in H. congruence.
  - destruct (String.eqb b ".."); [done |]. cbn in H. done.
Qed.

(** Resolving leaves no ".." in a rooted path. *)
Lemma resolve_from_rooted eval p : forall cs rest,
  (rooted p = true -> ~ (".." ∈ comps p)) ->
  rooted (resolve_from eval p cs rest) = true -> ~ (".." ∈ comps (resolve_from eval p cs rest)).
Proof.
  induction cs as [|c cs IH]; intros rest Hp; cbn [resolve_from];
    (destruct (eval _) as [resolved|];
     [unfold Join; cbn [rooted comps]; intros ->; apply clean_comps_rooted | auto]).
Qed.

Lemma resolveExisting_rooted eval p :
  (rooted p = true -> ~ (".." ∈ comps p)) ->
  rooted (resolveExisting eval p) = true -> ~ (".." ∈ comps (resolveExisting eval p)).
Proof. apply resolve_from_rooted. Qed.

Lemma Clean_rooted s : rooted (Clean s) = true -> ~ (".." ∈ comps (Clean s)).
Proof. unfold Clean. cbn. intros ->. apply clean_comps_rooted. Qed.

(** Where a path leads: at or below the resolved root, with no way up. *)
Definition below_root (eval : string -> option string) (root p : string) : Prop :=
  let r := resolveExisting eval (Clean root) in
  let t := resolveExisting eval (if IsAbs p then Clean p else Join r (split_slash p)) in
  contains p PlaceholderPrefix = false /\ rooted t = rooted r /\
  (exists below, comps t = comps r ++ below /\ head below <> Some "..") /\
  (rooted r = true -> ~ (".." ∈ comps t)).

Lemma insideProject_spec eval root p : insideProject eval root p = true -> below_root eval root p.
Proof.
  intros H. apply insideProject_below in H as (Hc & r & t & below & Hr & Ht & Hrt & Hb & Hh).
  unfold below_root. rewrite Hr, <- Ht. split_and!; [done | done | eauto |].
  intros Hroot. subst t. apply resolveExisting_rooted; [| congruence].
  destruct (IsAbs p); [apply Clean_rooted |]. unfold Join. cbn. intros ->. apply clean_comps_rooted.
Qed.

End Scope.
