(* ===== verification/Rehydrate.v ===== *)
(** Restoring secrets in responses ([src/internal/masking/literals.go],
    [rehydrate.go], [scope.go]): where the string literals of a document
    stand, which placeholders in them a scope lets through, and the rewritten
    body.

    The vault answers through [lookup] ([Vault.Secret] at the instant of the
    response), the file system through [eval_symlinks]. *)

From S2P Require Import Prelude GoString Json Splice JsonValue Scope Masking.
From Stdlib Require Import Ascii String.

Open Scope string_scope.
Open Scope list_scope.
Open Scope nat_scope.

Module Rehydrate.
Import Json Splice JsonValue Scope Masking.

#[local] Abbreviation length := List.length.

(** ** [literals.go] *)

Record literal := mkLit { lit_start : nat; lit_end : nat; lit_path : list string }.

Record lframe := mkLFrame {
  l_object : bool;
  l_key : string;
  l_haveKey : bool;
  l_index : Z;
  l_label : string
}.

(** The label of the value about to be read at the top frame. *)
Definition current (top : lframe) : string := if l_object top then l_key top else itoa (l_index top).

Definition advance (top : lframe) : lframe :=
  if l_object top then mkLFrame true (l_key top) false (l_index top) (l_label top)
  else mkLFrame false (l_key top) (l_haveKey top) (l_index top + 1)%Z (l_label top).

(** [stack] is kept top first; the root container's label is not part of it. *)
Definition lit_path_of (stack : list lframe) (leaf : string) : list string :=
  rev (leaf :: List.map l_label (removelast stack)).

Definition lit_step (st : list lframe * list literal) (tok : token) (start stop : nat)
    : list lframe * list literal :=
  let '(stack, out) := st in
  match tok, stack with
  | Open o, [] => ([mkLFrame o "" false 0 ""], out)
  | Open o, top :: _ => (mkLFrame o "" false 0 (current top) :: stack, out)
  | Close, [] => st
  | Close, [_] => ([], out)
  | Close, _ :: parent :: rest => (advance parent :: rest, out)
  | Str t, [] => ([], out ++ [mkLit start stop []])
  | Str t, top :: rest =>
      if l_object top && negb (l_haveKey top)
      then (mkLFrame true t true (l_index top) (l_label top) :: rest, out)
      else (advance top :: rest, out ++ [mkLit start stop (lit_path_of stack (current top))])
  | Scalar, [] => st
  | Scalar, top :: rest => (advance top :: rest, out)
  end.

(** The token loop; the end of the input inside a container is an error. *)
Fixpoint lit_loop (fuel : nat) (d : decoder) (st : list lframe * list literal) : option (list literal) :=
  match fuel with
  | O => None
  | S fuel =>
      match Token d with
      | TokEOF => match st.1 with [] => Some st.2 | _ => None end
      | TokErr => None
      | TokOk tok start d' => lit_loop fuel d' (lit_step st tok start (d_pos d'))
      end
  end.

Definition literals (doc : bytes) : option (list literal) :=
  lit_loop (S (length doc)) (NewDecoder doc) ([], []).

(** ** Placeholders in a text *)

Definition lower_hex (c : ascii) : bool := is_digit c || char_between "a" "f" c.

Definition PlaceholderLength : nat := 30.

(** [placeholderRE] matches here. *)
Definition placeholder_at (l : bytes) : bool :=
  is_prefix PlaceholderPrefix l && (PlaceholderLength <=? length l)
  && forallb lower_hex (take 16 (drop 14 l)).

(** [FindAllIndex]: successive matches; [skip] counts down through the match
    just found. *)
Fixpoint find_placeholders (skip i : nat) (l : bytes) : list nat :=
  match l with
  | [] => []
  | _ :: l' =>
      match skip with
      | S skip' => find_placeholders skip' (S i) l'
      | O => if placeholder_at l then i :: find_placeholders (PlaceholderLength - 1) (S i) l'
             else find_placeholders 0 (S i) l'
      end
  end.

Record RehydrationReport := mkRep { Restored : gmap string Z; Denied : gmap string Z }.

Definition bump (m : gmap string Z) (k : string) : gmap string Z :=
  <[k := (default 0 (m !! k) +! 1)%Z]> m.

Definition restored (r : RehydrationReport) (d : Destination) : RehydrationReport :=
  mkRep (bump (Restored r) (dest_string d)) (Denied r).

Definition denied (r : RehydrationReport) (d : Destination) (reason : string) : RehydrationReport :=
  mkRep (Restored r) (bump (Denied r) (String.append (dest_string d) (String.append "/" reason))).

Definition no_report : RehydrationReport := mkRep ∅ ∅.

Section rehydrator.
Context (lookup : bytes -> option (bytes * string)).
Context (eval_symlinks : string -> option string).
Context (scopes : Scopes).

Record restore_state := mkRestore { rs_out : option bytes; rs_last : nat; rs_rep : RehydrationReport }.

Definition restore_step (inner : bytes) (dest : Destination) (s : restore_state) (i : nat)
    : restore_state :=
  match lookup (slice inner i (i + PlaceholderLength)) with
  | None => mkRestore (rs_out s) (rs_last s) (denied (rs_rep s) dest ReasonUnknown)
  | Some (secret, pattern) =>
      let reason := deny (For_ scopes pattern) dest in
      if negb (String.eqb reason "") then mkRestore (rs_out s) (rs_last s) (denied (rs_rep s) dest reason)
      else mkRestore (Some (default [] (rs_out s) ++ slice inner (rs_last s) i ++ secret))
             (i + PlaceholderLength) (restored (rs_rep s) dest)
  end.

(** [restore]: the new inner bytes, whether they changed, and the report. *)
Definition restore (inner : bytes) (dest : Destination) (rep : RehydrationReport)
    : bytes * bool * RehydrationReport :=
  let s := fold_left (restore_step inner dest) (find_placeholders 0 0 inner) (mkRestore None 0 rep) in
  match rs_out s with
  | None => (inner, false, rs_rep s)
  | Some out => (out ++ drop (rs_last s) inner, true, rs_rep s)
  end.

Record doc_state := mkDoc { ds_out : option bytes; ds_last : nat; ds_rep : RehydrationReport }.

(** One literal of a document being rewritten. *)
Definition restore_literal (doc : bytes) (dest : Destination) (s : doc_state) (lit : literal) : doc_state :=
  let inner := slice doc (S (lit_start lit)) (lit_end lit - 1) in
  match restore inner dest (ds_rep s) with
  | (_, false, rep) => mkDoc (ds_out s) (ds_last s) rep
  | (new, true, rep) =>
      mkDoc (Some (default [] (ds_out s) ++ slice doc (ds_last s) (S (lit_start lit)) ++ new))
        (lit_end lit - 1) rep
  end.

Definition restoreJSONText (doc : bytes) (dest : Destination) (rep : RehydrationReport)
    : bytes * bool * RehydrationReport :=
  match literals doc with
  | None =>
      (doc, false, fold_left (fun r _ => denied r dest ReasonUnparsedInput) (find_placeholders 0 0 doc) rep)
  | Some lits =>
      let s := fold_left (restore_literal doc dest) lits (mkDoc None 0 rep) in
      match ds_out s with
      | None => (doc, false, ds_rep s)
      | Some out => (out ++ drop (ds_last s) doc, true, ds_rep s)
      end
  end.

(** ** Tool destinations *)

Definition fileEditTools : list (string * string) :=
  [("Edit", "file_path"); ("Write", "file_path"); ("MultiEdit", "file_path");
   ("NotebookEdit", "notebook_path"); ("str_replace_editor", "path");
   ("str_replace_based_edit_tool", "path"); ("create_file", "path"); ("write_to_file", "path");
   ("replace_in_file", "path"); ("write_file", "file_path"); ("edit_file", "target_file")].

Definition pathKeys : list string := ["file_path"; "path"; "notebook_path"; "filePath"; "target_file"].

Definition edit_key (tool : string) : option string :=
  snd <$> find_first (fun tk => String.eqb tk.1 tool) fileEditTools.

(** The last value a document gives a key: a map target keeps no other. *)
Definition last_value (l : list (string * value)) (k : string) : option value :=
  fold_left (fun acc kv => if String.eqb kv.1 k then Some kv.2 else acc) l None.

(** [inputPaths]: the path-like fields; [None] for an unreadable input. *)
Definition path_field (fields : list (string * value)) (acc : option (list (string * string)))
    (k : string) : option (list (string * string)) :=
  paths ← acc;
  match last_value fields k with
  | None => Some paths
  | Some (String_ p) => Some (paths ++ [(k, p)])
  | Some Null => Some (paths ++ [(k, "")])
  | Some _ => None
  end.

Definition inputPaths (input : option value) : option (list (string * string)) :=
  match input with
  | Some (Object fields) => fold_left (path_field fields) pathKeys (Some [])
  | Some Null => Some []
  | _ => None
  end.

Definition allInside (root : string) (paths : list (string * string)) : bool :=
  forallb (fun kp => insideProject eval_symlinks root kp.2) paths.

Definition path_at (paths : list (string * string)) (k : string) : string :=
  match find_first (fun kp => String.eqb kp.1 k) paths with Some kp => kp.2 | None => "" end.

(** [toolDestination]; [input] is the tool's input as decoded, [None] when it
    does not parse. *)
Definition toolDestination (tool : string) (input : option value) : Destination :=
  match edit_key tool with
  | None => mkDest DestinationTool tool false ""
  | Some key =>
      match inputPaths input with
      | None => mkDest DestinationEdit tool false ReasonUnparsedInput
      | Some paths =>
          if String.eqb (path_at paths key) "" then mkDest DestinationEdit tool false ReasonNoPath
          else if String.eqb (Project scopes) "" then mkDest DestinationEdit tool false ReasonNoProject
          else if negb (allInside (Project scopes) paths)
          then mkDest DestinationEdit tool false ReasonOutsideProject
          else mkDest DestinationEdit tool true ""
      end
  end.

(** ** [Body] *)

Record content_block := mkBlock { cb_Type : string; cb_Name : string; cb_Input : option value }.

Definition block_tags : list string := ["type"; "name"; "input"].

(** One element of [content], decoded into what an earlier array left there. *)
Definition decode_block (old : content_block) (v : value) : content_block * bool :=
  match v with
  | Object l =>
      let '(ty, ok1) := string_field block_tags "type" l (cb_Type old) in
      let '(nm, ok2) := string_field block_tags "name" l (cb_Name old) in
      (mkBlock ty nm (match last (field_values block_tags "input" l) with
                      | Some i => Some i | None => cb_Input old end), ok1 && ok2)
  | Null => (old, true)
  | _ => (old, false)
  end.

Definition zero_block : content_block := mkBlock "" "" None.

Definition decode_content (st : list content_block * bool) (v : value) : list content_block * bool :=
  match v with
  | Array l =>
      let ds := imap (fun i v => decode_block (default zero_block (st.1 !! i)) v) l in
      (List.map fst ds, st.2 && forallb snd ds)
  | Null => ([], st.2)
  | _ => (st.1, false)
  end.

Definition message_tags : list string := ["type"; "content"].

(** [json.Unmarshal] into [responseMessage]: its type and content blocks. *)
Definition decode_message (body : bytes) : option (string * list content_block) :=
  match parse body with
  | Some (Object l) =>
      let '(ty, ok1) := string_field message_tags "type" l "" in
      let '(content, ok2) := fold_left decode_content (field_values message_tags "content" l) ([], true) in
      if ok1 && ok2 then Some (ty, content) else None
  | Some Null => Some ("", [])
  | _ => None
  end.

(** [strconv.Atoi] of an array index label. *)
Definition atoi_index (s : string) (bound : nat) : option nat :=
  find_first (fun i => String.eqb (itoa (Z.of_nat i)) s) (seq 0 bound).

(** Where a literal's secrets would go, when it is one that is looked into. *)
Definition literal_destination (content : list content_block) (lit : literal) : option Destination :=
  match lit_path lit with
  | "content" :: idx :: field :: _ =>
      i ← atoi_index idx (length content);
      b ← content !! i;
      if String.eqb (cb_Type b) "text" && String.eqb field "text" then Some text_destination
      else if String.eqb (cb_Type b) "tool_use" && String.eqb field "input"
      then Some (toolDestination (cb_Name b) (cb_Input b))
      else None
  | _ => None
  end.

Definition body_literal (content : list content_block) (body : bytes) (s : doc_state) (lit : literal)
    : doc_state :=
  match literal_destination content lit with
  | None => s
  | Some dest => restore_literal body dest s lit
  end.

Inductive body_result :=
| Kept (body : bytes) (rep : RehydrationReport)
| Rewritten (body : bytes) (rep : RehydrationReport)
| BodyError (body : bytes) (rep : RehydrationReport) (invalid_result : bool).

Definition Body (body : bytes) : body_result :=
  match decode_message body with
  | None => Kept body no_report
  | Some (ty, content) =>
      if negb (String.eqb ty "message") then Kept body no_report
      else
        match literals body with
        | None => BodyError body no_report false
        | Some lits =>
            let s := fold_left (body_literal content body) lits (mkDoc None 0 no_report) in
            match ds_out s with
            | None => Kept body (ds_rep s)
            | Some out =>
                let out := out ++ drop (ds_last s) body in
                match parse out with
                | None => BodyError body no_report true
                | Some _ => Rewritten out (ds_rep s)
                end
            end
        end
  end.

End rehydrator.

End Rehydrate.
