(* ===== verification/RehydrateSpec.v ===== *)
(** What restoring guarantees: a response changes only where a placeholder
    stood that the vault knows and whose scope lets its secret into exactly
    that destination, and restoring undoes masking. *)

From S2P Require Import Prelude GoString Intervals Json Splice JsonValue Scope Masking Rehydrate.
From Stdlib Require Import Ascii String.

Open Scope string_scope.
Open Scope list_scope.
Open Scope nat_scope.

Module RehydrateSpec.
Import Json Splice JsonValue Scope Masking Rehydrate.

#[local] Abbreviation length := List.length.

(** ** Finding placeholders *)

Lemma placeholder_at_length l : placeholder_at l = true -> 30 <= length l.
Proof.
  unfold placeholder_at. intros H. apply andb_true_iff in H as [H _].
  apply andb_true_iff in H as [_ H]. by apply Nat.leb_le in H.
Qed.

(** A match found in a tail, as a match of the whole. *)
Lemma placeholder_tail c (l : bytes) i p :
  S i <= p -> p - S i + PlaceholderLength <= length l /\ placeholder_at (drop (p - S i) l) = true ->
  i <= p /\ p - i + PlaceholderLength <= length (c :: l) /\ placeholder_at (drop (p - i) (c :: l)) = true.
Proof. intros Hp [Hl Ha]. replace (p - i) with (S (p - S i)) by lia. cbn. split_and!; [lia | lia | done]. Qed.

Lemma find_placeholders_spec l : forall k i,
  StronglySorted (fun p q => p + PlaceholderLength <= q) (find_placeholders k i l) /\
  Forall (fun p => i + k <= p /\ p - i + PlaceholderLength <= length l /\
                   placeholder_at (drop (p - i) l) = true) (find_placeholders k i l).
Proof.
  induction l as [|c l IH]; intros k i; [split; constructor |]. cbn [find_placeholders].
  assert (forall k', StronglySorted (fun p q => p + PlaceholderLength <= q) (find_placeholders k' (S i) l) /\
            Forall (fun p => S i + k' <= p /\ p - i + PlaceholderLength <= length (c :: l) /\
              placeholder_at (drop (p - i) (c :: l)) = true) (find_placeholders k' (S i) l)) as Hk.
  { intros k'. destruct (IH k' (S i)) as [Hs Hf]. split; [done |]. eapply Forall_impl; [exact Hf |].
    cbn beta. intros p (Hp & H). split; [done |]. apply (placeholder_tail c) in H; [tauto | lia]. }
  destruct k as [|k]; [destruct (placeholder_at (c :: l)) eqn:Hat |].
  - destruct (Hk (PlaceholderLength - 1)) as [Hs Hf]. split; constructor; [done | | | ].
    + eapply Forall_impl; [exact Hf |]. cbn beta. unfold PlaceholderLength. intros p (? & _). lia.
    + apply placeholder_at_length in Hat as Hl. unfold PlaceholderLength.
      replace (i - i) with 0 by lia. split_and!; [lia | cbn [length] in *; lia | exact Hat].
    + eapply Forall_impl; [exact Hf |]. cbn beta. intros p (? & ?). split; [lia | done].
  - destruct (Hk 0) as [Hs Hf]. split; [done |]. eapply Forall_impl; [exact Hf |]. cbn beta.
    intros p (? & ?). split; [lia | done].
  - destruct (Hk k) as [Hs Hf]. split; [done |]. eapply Forall_impl; [exact Hf |]. cbn beta.
    intros p (? & ?). split; [lia | done].
Qed.

(** The byte at an index of a placeholder. *)
Lemma is_prefix_lookup p : forall l i, is_prefix p l = true -> i < length p -> l !! i = p !! i.
Proof.
  induction p as [|c p IH]; intros l i H Hi; [cbn in Hi; lia |].
  destruct l as [|d l]; [done |]. cbn [is_prefix] in H. apply andb_true_iff in H as [Hc H].
  apply Ascii.eqb_eq in Hc as ->. destruct i as [|i]; [done |]. cbn in Hi |- *. apply IH; [done | lia].
Qed.

Lemma placeholder_at_byte l i : placeholder_at l = true -> i < 30 ->
  exists c, l !! i = Some c /\
    (i < 14 -> PlaceholderPrefix !! i = Some c) /\ (14 <= i -> lower_hex c = true).
Proof.
  intros H Hi. pose proof (placeholder_at_length _ H) as Hl.
  assert (is_Some (l !! i)) as [c Hc] by (apply lookup_lt_is_Some; lia).
  exists c. split; [done |]. unfold placeholder_at in H.
  apply andb_true_iff in H as [H Hh]. apply andb_true_iff in H as [Hp _]. split; intros Hlt.
  - rewrite <- Hc. symmetry. apply is_prefix_lookup; [done | exact Hlt].
  - apply (proj1 (forallb_forall _ _) Hh). apply list_elem_of_In, list_elem_of_lookup.
    exists (i - 14). rewrite lookup_take, decide_True, lookup_drop by lia.
    rewrite <- Hc. f_equal. lia.
Qed.

(** Two placeholders never overlap. *)
Lemma placeholders_apart l p :
  placeholder_at l = true -> placeholder_at (drop p l) = true -> p = 0 \/ PlaceholderLength <= p.
Proof.
  intros H0 Hp. destruct (decide (p = 0)) as [?|Hne]; [by left |].
  destruct (decide (PlaceholderLength <= p)) as [?|Hlt]; [by right | exfalso]. unfold PlaceholderLength in Hlt.
  assert (forall k, k < 14 -> p + k < 30 -> exists c, PlaceholderPrefix !! k = Some c /\
            (p + k < 14 -> PlaceholderPrefix !! (p + k) = Some c) /\ (14 <= p + k -> lower_hex c = true)) as Hk.
  { intros k Hk Hpk. destruct (placeholder_at_byte _ (p + k) H0 Hpk) as (c & Hc & Hb).
    destruct (placeholder_at_byte _ k Hp) as (c' & Hc' & Hb' & _); [lia |].
    rewrite lookup_drop in Hc'. assert (c' = c) as -> by congruence. eauto. }
  destruct (Hk 0) as (c0 & E0 & P0 & X0); [lia | lia |].
  destruct (decide (14 <= p)) as [Hge|Hlt14].
  - specialize (X0 ltac:(lia)). injection E0 as <-. discriminate X0.
  - destruct (Hk 2) as (c2 & E2 & P2 & X2); [lia | lia |]. injection E0 as <-. injection E2 as <-.
    specialize (P0 ltac:(lia)). clear Hk X0 H0 Hp.
    do 14 (destruct p as [|p]; [try done; try (specialize (P2 ltac:(lia)); discriminate P2) |]). lia.
Qed.

Lemma find_placeholders_all l : forall k i p,
  k <= p -> placeholder_at (drop p l) = true -> i + p ∈ find_placeholders k i l.
Proof.
  induction l as [|c l IH]; intros k i p Hk Hp; [by rewrite drop_nil in Hp |].
  cbn [find_placeholders].
  assert (forall k', p <> 0 -> k' <= p - 1 -> i + p ∈ find_placeholders k' (S i) l) as Htail.
  { intros k' Hne Hk'. replace (i + p) with (S i + (p - 1)) by lia. apply IH; [done |].
    destruct p as [|p]; [done |]. cbn in Hp. by replace (S p - 1) with p by lia. }
  destruct k as [|k]; [destruct (placeholder_at (c :: l)) eqn:Hat |].
  - destruct (placeholders_apart _ _ Hat Hp) as [->|H]; [rewrite Nat.add_0_r; by left |].
    right. unfold PlaceholderLength in *. apply Htail; lia.
  - apply Htail; [| lia]. intros ->. cbn in Hp. congruence.
  - apply Htail; lia.
Qed.

Lemma find_placeholders_skip l : forall k i,
  k <= length l -> find_placeholders k i l = find_placeholders 0 (i + k) (drop k l).
Proof.
  induction l as [|c l IH]; intros k i Hk; [cbn in Hk; by replace k with 0 by lia |].
  destruct k as [|k]; [by rewrite Nat.add_0_r |]. cbn [find_placeholders drop]. cbn in Hk.
  rewrite IH by lia. f_equal. lia.
Qed.

Lemma find_placeholders_gap gap rest : forall i,
  (forall p, p < length gap -> placeholder_at (drop p (gap ++ rest)) = false) ->
  find_placeholders 0 i (gap ++ rest) = find_placeholders 0 (i + length gap) rest.
Proof.
  induction gap as [|c gap IH]; intros i H; [cbn; by rewrite Nat.add_0_r |].
  cbn [app find_placeholders]. pose proof (H 0 ltac:(cbn; lia)) as H0. cbn in H0. rewrite H0.
  rewrite IH; [f_equal; cbn; lia |]. intros p Hp. apply (H (S p)). cbn. lia.
Qed.

Lemma find_placeholders_head ph rest i :
  placeholder_at (ph ++ rest) = true -> length ph = PlaceholderLength ->
  find_placeholders 0 i (ph ++ rest) = i :: find_placeholders 0 (i + PlaceholderLength) rest.
Proof.
  intros H Hl. destruct (ph ++ rest) as [|c l] eqn:E; [done |].
  cbn [find_placeholders]. rewrite H. f_equal.
  pose proof (placeholder_at_length _ H) as Hlen. cbn in Hlen. unfold PlaceholderLength in *.
  rewrite find_placeholders_skip by lia.
  assert (drop (30 - 1) l = rest) as ->.
  { assert (drop 30 (ph ++ rest) = rest) as H' by (rewrite <- Hl; apply drop_app_length).
    rewrite E in H'. exact H'. }
  f_equal. lia.
Qed.

(** A placeholder is its thirty bytes, whatever follows. *)
Lemma placeholder_at_app ph rest :
  length ph = PlaceholderLength -> placeholder_at (ph ++ rest) = placeholder_at ph.
Proof.
  unfold PlaceholderLength. intros Hl. apply eq_true_iff_eq. unfold placeholder_at.
  rewrite !andb_true_iff, length_app, !Nat.leb_le. unfold PlaceholderLength.
  rewrite drop_app_le, take_app_le by (rewrite ?length_drop; lia).
  split; intros [[Hp _] Hh]; (split; [split; [| lia] | done]).
  - apply is_prefix_spec in Hp as [k Hk]. apply is_prefix_spec.
    exists (drop (length PlaceholderPrefix) ph).
    apply (f_equal (take (length PlaceholderPrefix))) in Hk. rewrite take_app_length in Hk.
    rewrite take_app_le in Hk by (rewrite Hl; cbn; lia). rewrite <- Hk at 1. by rewrite take_drop.
  - apply is_prefix_spec in Hp as [k ->]. apply is_prefix_spec. exists (k ++ rest). by rewrite app_assoc.
Qed.

Lemma placeholder_at_take l : placeholder_at l = true -> placeholder_at (take PlaceholderLength l) = true.
Proof.
  intros H. pose proof (placeholder_at_length _ H) as Hl.
  rewrite <- (take_drop PlaceholderLength l), placeholder_at_app in H; [done |].
  rewrite length_take. unfold PlaceholderLength. lia.
Qed.

(** Between two texts that hold no placeholder, one begins nowhere but where
    it was put. *)
Lemma gap_clear gap ph rest :
  (forall p, placeholder_at (drop p gap) = false) ->
  length ph = PlaceholderLength -> placeholder_at ph = true ->
  forall p, p < length gap -> placeholder_at (drop p (gap ++ ph ++ rest)) = false.
Proof.
  intros Hg Hl Hph p Hp. apply not_true_iff_false. intros Ht.
  destruct (placeholders_apart _ (length gap - p) Ht) as [?|Hge].
  - rewrite drop_drop. replace (p + (length gap - p)) with (length gap) by lia.
    rewrite drop_app_length. by rewrite placeholder_at_app.
  - lia.
  - rewrite drop_app_le in Ht by lia. apply placeholder_at_take in Ht.
    rewrite take_app_le in Ht by (rewrite length_drop; lia).
    assert (placeholder_at (drop p gap) = true) as Hc; [| by rewrite Hg in Hc].
    rewrite <- (take_drop PlaceholderLength (drop p gap)), placeholder_at_app; [done |].
    rewrite length_take, length_drop. unfold PlaceholderLength in *. lia.
Qed.

(** A stretch of a text that holds no placeholder holds none. *)
Lemma stretch_clear body a b :
  (forall p, placeholder_at (drop p body) = false) ->
  forall p, placeholder_at (drop p (slice body a b)) = false.
Proof.
  intros H p. apply not_true_iff_false. intros Ht. unfold slice in Ht.
  rewrite skipn_firstn_comm, drop_drop in Ht. apply placeholder_at_take in Ht as Htk.
  pose proof (placeholder_at_length _ Ht) as Hl. rewrite length_take in Hl.
  rewrite take_take in Htk. replace (PlaceholderLength `min` (b - a - p)) with PlaceholderLength in Htk
    by (unfold PlaceholderLength; lia).
  specialize (H (a + p)). rewrite <- (take_drop PlaceholderLength (drop (a + p) body)) in H.
  rewrite placeholder_at_app in H; [congruence |]. rewrite length_take. unfold PlaceholderLength. lia.
Qed.

(** ** The literals of a document *)

(** A quoted literal of the document. *)
Definition lit_ok (doc : bytes) (lit : literal) : Prop :=
  lit_start lit + 2 <= lit_end lit <= length doc /\
  doc !! lit_start lit = Some quote /\ doc !! (lit_end lit - 1) = Some quote /\
  string_len InString (drop (S (lit_start lit)) doc) = Some (lit_end lit - S (lit_start lit)).

Definition lit_inv (doc : bytes) (pos : nat) (out : list literal) : Prop :=
  StronglySorted (fun a b => lit_end a <= lit_start b) out /\
  Forall (fun lit => lit_ok doc lit /\ lit_end lit <= pos) out.

Lemma lit_inv_later doc pos pos' out : pos <= pos' -> lit_inv doc pos out -> lit_inv doc pos' out.
Proof.
  intros Hp [Hs Hf]. split; [done |]. eapply Forall_impl; [exact Hf |]. cbn. intros ? [? ?]. split; [done | lia].
Qed.

Lemma lit_inv_snoc doc pos t start d path out :
  token_spans doc pos (Str t) start d -> lit_inv doc pos out ->
  lit_inv doc (d_pos d) (out ++ [mkLit start (d_pos d) path]).
Proof.
  intros (Hle & Hlt & [_ Hin] & H2 & Hq & Hq' & _ & Hl) [Hs Hf]. split.
  - apply StronglySorted_app. split_and!; [| done | repeat constructor].
    intros a b Ha Hb%list_elem_of_singleton. subst b. cbn.
    rewrite Forall_forall in Hf. apply Hf in Ha as [_ ?]. lia.
  - apply Forall_app. split.
    + eapply Forall_impl; [exact Hf |]. cbn. intros ? [? ?]. split; [done | lia].
    + constructor; [| constructor]. unfold lit_ok. cbn. split_and!; try done; lia.
Qed.

Lemma lit_step_inv doc pos st tok start d :
  token_spans doc pos tok start d -> lit_inv doc pos st.2 ->
  lit_inv doc (d_pos d) (lit_step st tok start (d_pos d)).2.
Proof.
  intros Hspan Hinv. destruct st as [stack out]. cbn [snd] in Hinv.
  assert (lit_inv doc (d_pos d) out) as Hkeep.
  { eapply lit_inv_later; [| done]. destruct Hspan as (? & ? & _). lia. }
  destruct tok as [o| |t|]; cbn [lit_step]; destruct stack as [|top rest]; cbn [snd]; try done.
  - destruct rest; done.
  - by eapply lit_inv_snoc.
  - destruct (l_object top && negb (l_haveKey top)); [done |]. by eapply lit_inv_snoc.
Qed.

Lemma lit_loop_inv doc fuel : forall d st lits,
  dec_in doc d -> lit_inv doc (d_pos d) st.2 -> lit_loop fuel d st = Some lits ->
  exists pos, lit_inv doc pos lits.
Proof.
  induction fuel as [|fuel IH]; intros d st lits Hd Hi H; cbn in H; [done |].
  destruct (Token d) as [tok start d'| |] eqn:Ht; [| | done].
  - apply (Token_spans doc) in Ht; [| done]. eapply IH; [| by eapply lit_step_inv | exact H].
    by destruct Ht as (_ & _ & ? & _).
  - destruct st as [[|f stack] out]; [| done]. injection H as <-. eauto.
Qed.

(** What [literals] lists: quoted literals, in order and apart. *)
Lemma literals_spec doc lits :
  literals doc = Some lits ->
  StronglySorted (fun a b => lit_end a <= lit_start b) lits /\ Forall (lit_ok doc) lits.
Proof.
  intros H. apply lit_loop_inv with (doc := doc) in H as (pos & Hs & Hf).
  - split; [done |]. eapply Forall_impl; [exact Hf |]. by intros ? [? _].
  - apply NewDecoder_in.
  - split; constructor.
Qed.

(** ** One text *)

Section rehydrator.
Context (lookup : bytes -> option (bytes * string)).
Context (eval_symlinks : string -> option string).
Context (scopes : Scopes).

#[local] Abbreviation restore := (restore lookup scopes).
#[local] Abbreviation restore_literal := (restore_literal lookup scopes).

(** The secret a placeholder gives way to in a destination, if any. *)
Definition released (dest : Destination) (ph : bytes) : option bytes :=
  '(secret, pattern) ← lookup ph;
  if String.eqb (deny (For_ scopes pattern) dest) "" then Some secret else None.

Definition restore_edit (inner : bytes) (dest : Destination) (i : nat) : option edit :=
  secret ← released dest (slice inner i (i + PlaceholderLength));
  Some (mkEdit i (i + PlaceholderLength) secret).

Definition restore_edits (inner : bytes) (dest : Destination) : list edit :=
  omap (restore_edit inner dest) (find_placeholders 0 0 inner).

Lemma restore_fold inner dest ps : forall s,
  let s' := fold_left (restore_step lookup scopes inner dest) ps s in
  let es := omap (restore_edit inner dest) ps in
  default [] (rs_out s') = default [] (rs_out s) ++ copy inner (rs_last s) es /\
  rs_last s' = last_end (rs_last s) es /\
  (rs_out s' = None <-> rs_out s = None /\ es = []).
Proof.
  induction ps as [|i ps IH]; intros s; cbv zeta.
  { cbn. rewrite app_nil_r. split_and!; [done | done |]. by split; [| intros [? _]]. }
  cbn [fold_left omap list_omap]. specialize (IH (restore_step lookup scopes inner dest s i)). cbv zeta in IH.
  destruct IH as (Ho & Hl & Hn).
  rewrite Ho, Hl, Hn. unfold restore_edit, released. clear Ho Hl Hn. unfold restore_step.
  destruct (lookup (slice inner i (i + PlaceholderLength))) as [[secret pattern]|]; cbn [mbind option_bind]; [| done].
  destruct (String.eqb (deny (For_ scopes pattern) dest) ""); cbn [negb]; [| done].
  cbn [rs_out rs_last default from_option id copy last_end from upto repl]. rewrite <- !app_assoc. split_and!; [done | done |].
  split; [intros [? _]; done | intros [_ ?]; done].
Qed.

(** [restore] applies its edits. *)
Lemma restore_spec inner dest rep : exists rep',
  restore inner dest rep
  = (apply_edits inner (restore_edits inner dest), negb (bool_decide (restore_edits inner dest = [])), rep').
Proof.
  unfold Rehydrate.restore. set (s := fold_left _ _ _).
  destruct (restore_fold inner dest (find_placeholders 0 0 inner) (mkRestore None 0 rep)) as (Ho & Hl & Hn).
  fold s in Ho, Hl, Hn. fold (restore_edits inner dest) in Ho, Hl, Hn. cbn in Ho, Hl, Hn.
  exists (rs_rep s). unfold apply_edits. rewrite <- Hl. destruct (rs_out s) as [out|]; cbn in Ho.
  - rewrite Ho. rewrite bool_decide_false; [done |]. intros E. destruct Hn as [_ Hn]. by discriminate Hn.
  - destruct Hn as [Hn _]. destruct Hn as [_ Hn]; [done |]. rewrite Hl, Hn. done.
Qed.

Lemma restore_edits_inside inner dest :
  edits_from inner 0 (restore_edits inner dest) /\
  Forall (fun e => upto e = from e + PlaceholderLength /\ upto e <= length inner /\
    placeholder_at (drop (from e) inner) = true /\
    released dest (slice inner (from e) (upto e)) = Some (repl e)) (restore_edits inner dest).
Proof.
  unfold restore_edits. destruct (find_placeholders_spec inner 0 0) as [Hs Hf].
  revert Hs Hf. assert (forall last, last <= length inner -> forall ps,
    StronglySorted (fun p q => p + PlaceholderLength <= q) ps ->
    Forall (fun p => last <= p /\ p - 0 + PlaceholderLength <= length inner /\
                     placeholder_at (drop (p - 0) inner) = true) ps ->
    edits_from inner last (omap (restore_edit inner dest) ps) /\
    Forall (fun e => upto e = from e + PlaceholderLength /\ upto e <= length inner /\
      placeholder_at (drop (from e) inner) = true /\
      released dest (slice inner (from e) (upto e)) = Some (repl e)) (omap (restore_edit inner dest) ps)) as H.
  { intros last Hlast ps Hs. revert last Hlast. induction Hs as [|p ps Hs IH Hall]; intros last Hlast Hf.
    { split; [done | constructor]. }
    apply Forall_cons in Hf as [(Hp & Hl & Ha) Hf]. rewrite Nat.sub_0_r in Hl, Ha.
    cbn [omap list_omap]. destruct (restore_edit inner dest p) as [e|] eqn:E.
    - unfold restore_edit in E.
      destruct (released dest (slice inner p (p + PlaceholderLength))) as [secret|] eqn:Er; [| done].
      injection E as <-. destruct (IH (p + PlaceholderLength) Hl) as [He Hfe].
      { rewrite Forall_forall in Hf. rewrite Forall_forall in Hall. rewrite Forall_forall. intros q Hq.
        destruct (Hf q Hq) as (_ & ? & ?). split; [by apply Hall | done]. }
      split; [cbn; split_and!; [lia | lia | done] |]. constructor; [cbn; by split_and! | done].
    - apply IH; [done |]. eapply Forall_impl; [exact Hf |]. cbn beta. intros q (? & ? & ?). split_and!; [lia | done | done]. }
  intros Hs Hf. by apply H; [lia | |].
Qed.

(** ** One document *)

Definition inner_of (doc : bytes) (lit : literal) : bytes := slice doc (S (lit_start lit)) (lit_end lit - 1).

(** The edits of a literal, in the document's coordinates. *)
Definition literal_edits (doc : bytes) (dest : Destination) (lit : literal) : list edit :=
  List.map (shift_edit (S (lit_start lit))) (restore_edits (inner_of doc lit) dest).

(** Rewritten up to [ds_last]: the edits so far, and the rest as it was. *)
Definition doc_inv (doc : bytes) (es : list edit) (s : doc_state) : Prop :=
  edits_from doc 0 es /\ last_end 0 es <= ds_last s <= length doc /\
  match ds_out s with
  | None => es = [] /\ ds_last s = 0
  | Some out => es <> [] /\ out = copy doc 0 es ++ slice doc (last_end 0 es) (ds_last s)
  end.

(** A literal that starts past what is rewritten adds its own edits. *)
Lemma restore_literal_inv doc dest lit es s :
  lit_ok doc lit -> ds_last s <= lit_start lit -> doc_inv doc es s ->
  let s' := restore_literal doc dest s lit in
  doc_inv doc (es ++ literal_edits doc dest lit) s' /\ ds_last s' <= lit_end lit.
Proof.
  intros (Hb & _) Hlast (He & Hle & Hout). cbv zeta. unfold Rehydrate.restore_literal. fold (inner_of doc lit).
  destruct (restore_spec (inner_of doc lit) dest (ds_rep s)) as [rep' ->].
  destruct (restore_edits_inside (inner_of doc lit) dest) as [Hin _].
  unfold literal_edits. destruct (restore_edits (inner_of doc lit) dest) as [|e es'] eqn:E.
  { rewrite bool_decide_true by done. cbn [negb List.map]. rewrite app_nil_r.
    split; [| cbn; lia]. unfold doc_inv. cbn [ds_out ds_last]. done. }
  rewrite bool_decide_false by done. cbn [negb]. rewrite <- E in *.
  set (base := S (lit_start lit)) in *. set (n := lit_end lit - 1 - base).
  assert (inner_of doc lit = slice doc base (base + n)) as Hinner
    by (unfold inner_of; f_equal; unfold n, base; lia).
  rewrite Hinner in *. assert (base + n <= length doc) as Hn by (unfold n, base; lia).
  destruct (shift_edits_from doc base n _ 0 Hn Hin) as [Hs Hl]. rewrite Nat.add_0_r in Hs, Hl.
  pose proof (last_end_le _ _ _ Hin) as Hle'. rewrite slice_length in Hle' by lia.
  set (es2 := List.map (shift_edit base) (restore_edits (slice doc base (base + n)) dest)) in *.
  split; [| cbn [ds_last]; unfold base in *; lia].
  unfold doc_inv. cbn [ds_out ds_last]. rewrite last_end_app.
  assert (edits_from doc (last_end 0 es) es2) as Hs' by (eapply edits_from_weaken; [| exact Hs]; unfold base; lia).
  assert (es2 <> []) as Hne by (unfold es2; rewrite E; done).
  assert (last_end (last_end 0 es) es2 = last_end base es2) as Hle2 by (by destruct es2).
  split_and!; [by apply edits_from_app | rewrite Hle2; lia | unfold base in *; lia | |].
  { intros H. by apply app_eq_nil in H as [_ ?]. }
  rewrite Hle2, apply_edits_shift by done. fold es2.
  replace (base + n) with (lit_end lit - 1) by (unfold n, base in *; lia).
  rewrite copy_app, !app_assoc. f_equal. rewrite <- !app_assoc.
  assert (default [] (ds_out s) = copy doc 0 es ++ slice doc (last_end 0 es) (ds_last s)) as ->.
  { destruct (ds_out s) as [out|]; [by destruct Hout as [_ ->] |]. destruct Hout as [-> ->]. done. }
  rewrite <- !app_assoc. f_equal. rewrite app_assoc, slice_app by (unfold base in *; lia).
  destruct es2 as [|e2 es2]; [done |]. cbn [copy]. rewrite app_assoc. f_equal.
  cbn in Hs. apply slice_app; [lia |]. destruct Hs as (? & ? & Hs). apply edits_from_le in Hs. lia.
Qed.

(** The edits of every literal that has a destination. *)
Definition lits_edits (doc : bytes) (dest_of : literal -> option Destination) (lits : list literal)
    : list edit :=
  List.flat_map (fun lit => match dest_of lit with
                            | None => [] | Some dest => literal_edits doc dest lit end) lits.

Definition lits_fold (doc : bytes) (dest_of : literal -> option Destination) (s : doc_state)
    (lits : list literal) : doc_state :=
  fold_left (fun s lit => match dest_of lit with
                          | None => s | Some dest => restore_literal doc dest s lit end) lits s.

Lemma lits_fold_inv doc dest_of lits : forall es s,
  StronglySorted (fun a b => lit_end a <= lit_start b) lits -> Forall (lit_ok doc) lits ->
  (forall lit, lit ∈ lits -> ds_last s <= lit_start lit) -> doc_inv doc es s ->
  doc_inv doc (es ++ lits_edits doc dest_of lits) (lits_fold doc dest_of s lits).
Proof.
  induction lits as [|lit lits IH]; intros es s Hs Hok Hlast Hinv; [by rewrite app_nil_r |].
  apply StronglySorted_inv in Hs as [Hs Hall]. apply Forall_cons in Hok as [Hlit Hok].
  cbn [lits_edits List.flat_map]. fold (lits_edits doc dest_of lits). rewrite app_assoc.
  unfold lits_fold. cbn [fold_left]. apply IH; [done | done | |].
  - intros l Hl. rewrite Forall_forall in Hall. apply Hall in Hl as Hll.
    destruct (dest_of lit) as [dest|]; [| apply Hlast; by right].
    destruct (restore_literal_inv doc dest lit es s Hlit) as [_ ?]; [apply Hlast; by left | done | lia].
  - destruct (dest_of lit) as [dest|]; [| by rewrite app_nil_r].
    apply restore_literal_inv; [done | apply Hlast; by left | done].
Qed.

(** The rewritten document, and that it is left alone when there is no edit. *)
Lemma lits_fold_spec doc dest_of lits rep :
  literals doc = Some lits ->
  let s := lits_fold doc dest_of (mkDoc None 0 rep) lits in
  let es := lits_edits doc dest_of lits in
  edits_from doc 0 es /\
  match ds_out s with
  | None => es = []
  | Some out => es <> [] /\ out ++ drop (ds_last s) doc = apply_edits doc es
  end.
Proof.
  intros Hl. apply literals_spec in Hl as [Hs Hok]. cbv zeta.
  assert (doc_inv doc [] (mkDoc None 0 rep)) as H0 by (unfold doc_inv; cbn; split_and!; done || lia).
  assert (forall lit, lit ∈ lits -> ds_last (mkDoc None 0 rep) <= lit_start lit) as H1 by (cbn; lia).
  destruct (lits_fold_inv doc dest_of lits [] _ Hs Hok H1 H0) as (He & Hle & Hout).
  cbn [app] in *. split; [done |]. destruct (ds_out _) as [out|]; [| by destruct Hout].
  destruct Hout as [Hne ->]. split; [done |]. rewrite <- app_assoc. unfold apply_edits. f_equal.
  apply slice_to_end. lia.
Qed.

(** What each of them does: a whole placeholder inside the quotes of a literal
    with a destination gives way to the secret the vault answers with, whose
    scope lets it into that destination. *)
Definition edit_released (doc : bytes) (dest_of : literal -> option Destination) (lits : list literal)
    (e : edit) : Prop :=
  exists lit dest secret pattern,
    lit ∈ lits /\ dest_of lit = Some dest /\
    lit_start lit < from e /\ upto e < lit_end lit /\ upto e = from e + PlaceholderLength /\
    placeholder_at (drop (from e) doc) = true /\
    lookup (slice doc (from e) (upto e)) = Some (secret, pattern) /\
    deny (For_ scopes pattern) dest = "" /\ repl e = secret.

Lemma released_spec dest ph secret :
  released dest ph = Some secret <->
  exists pattern, lookup ph = Some (secret, pattern) /\ deny (For_ scopes pattern) dest = "".
Proof.
  unfold released. destruct (lookup ph) as [[sec pat]|]; cbn [mbind option_bind].
  - destruct (String.eqb_spec (deny (For_ scopes pat) dest) "") as [E|E]; split.
    + intros [= ->]. eauto.
    + intros (p & [= -> ->] & _). done.
    + done.
    + intros (p & [= -> ->] & ?). done.
  - split; [done | by intros (? & ? & _)].
Qed.

Lemma lits_edits_released doc dest_of lits :
  Forall (lit_ok doc) lits -> Forall (edit_released doc dest_of lits) (lits_edits doc dest_of lits).
Proof.
  intros Hok. apply Forall_forall. intros e He. unfold lits_edits in He.
  apply list_elem_of_In, in_flat_map in He as (lit & Hlit & He). apply list_elem_of_In in Hlit.
  destruct (dest_of lit) as [dest|] eqn:Hd; [| done]. unfold literal_edits in He.
  apply in_map_iff in He as (e0 & <- & He0). apply list_elem_of_In in He0.
  rewrite Forall_forall in Hok. destruct (Hok lit Hlit) as (Hb & _).
  destruct (restore_edits_inside (inner_of doc lit) dest) as [_ Hf].
  rewrite Forall_forall in Hf. destruct (Hf e0 He0) as (Hu & Hle & Hat & Hrel).
  unfold inner_of in Hle, Hat, Hrel. rewrite slice_length in Hle by lia.
  apply released_spec in Hrel as (pat & Hlk & Hdeny).
  exists lit, dest, (repl e0), pat. cbn [shift_edit from upto repl]. split_and!; try done; try lia.
  - unfold slice in Hat. rewrite skipn_firstn_comm, drop_drop in Hat.
    apply placeholder_at_take in Hat as Htk. pose proof (placeholder_at_length _ Hat) as Hlen.
    rewrite length_take in Hlen. rewrite take_take in Htk.
    replace (PlaceholderLength `min` _) with PlaceholderLength in Htk by (unfold PlaceholderLength; lia).
    rewrite <- (take_drop PlaceholderLength (drop (S (lit_start lit) + from e0) doc)).
    rewrite placeholder_at_app; [done |]. rewrite length_take. unfold PlaceholderLength. lia.
  - rewrite <- Hlk. f_equal.
    replace (lit_end lit - 1) with (S (lit_start lit) + (lit_end lit - 1 - S (lit_start lit))) by lia.
    rewrite slice_of_slice by lia. done.
Qed.

(** Every placeholder of such a literal that may be released is. *)
Lemma lits_edits_all doc dest_of lits lit dest p secret :
  Forall (lit_ok doc) lits ->
  lit ∈ lits -> dest_of lit = Some dest -> lit_start lit < p -> p + PlaceholderLength < lit_end lit ->
  placeholder_at (drop p doc) = true ->
  released dest (slice doc p (p + PlaceholderLength)) = Some secret ->
  mkEdit p (p + PlaceholderLength) secret ∈ lits_edits doc dest_of lits.
Proof.
  intros Hok Hlit Hd Hlo Hhi Hat Hrel. rewrite Forall_forall in Hok. destruct (Hok lit Hlit) as (Hb & _).
  unfold lits_edits. apply list_elem_of_In, in_flat_map. exists lit.
  split; [by apply list_elem_of_In |]. rewrite Hd. unfold literal_edits. apply in_map_iff.
  set (q := p - S (lit_start lit)). exists (mkEdit q (q + PlaceholderLength) secret).
  split; [unfold shift_edit; cbn; f_equal; unfold q; lia |].
  apply list_elem_of_In. unfold restore_edits. apply list_elem_of_omap. exists q.
  assert (inner_of doc lit = slice doc (S (lit_start lit)) (S (lit_start lit) + (lit_end lit - 1 - S (lit_start lit))))
    as Hi by (unfold inner_of; f_equal; lia).
  split.
  - replace q with (0 + q) by lia. apply find_placeholders_all; [lia |].
    unfold inner_of, slice. rewrite skipn_firstn_comm, drop_drop.
    replace (S (lit_start lit) + q) with p by (unfold q; lia).
    apply placeholder_at_take in Hat as Htk. pose proof (placeholder_at_length _ Hat) as Hlen.
    rewrite <- (take_drop PlaceholderLength (take _ _)), placeholder_at_app.
    + rewrite take_take. replace (PlaceholderLength `min` _) with PlaceholderLength by lia. done.
    + rewrite length_take, length_take. unfold PlaceholderLength in *. lia.
  - unfold restore_edit. rewrite Hi, slice_of_slice by (unfold q; lia).
    replace (S (lit_start lit) + q) with p by (unfold q; lia).
    replace (S (lit_start lit) + (q + PlaceholderLength)) with (p + PlaceholderLength) by (unfold q; lia).
    by rewrite Hrel.
Qed.

(** Where masking put a placeholder the vault answers for. *)
Definition answered (dest : Destination) (body : bytes) (e : edit) : Prop :=
  length (repl e) = PlaceholderLength /\ placeholder_at (repl e) = true /\
  released dest (repl e) = Some (slice body (from e) (upto e)).

Lemma slice_mid (a b c : bytes) : slice (a ++ b ++ c) (length a) (length a + length b) = b.
Proof. unfold slice. rewrite drop_app_length. replace (_ - _) with (length b) by lia. apply take_app_length. Qed.

Lemma restore_after_edits dest body es : forall last pre,
  (forall p, placeholder_at (drop p body) = false) ->
  edits_from body last es -> Forall (answered dest body) es ->
  let rest := copy body last es ++ drop (last_end last es) body in
  let es' := omap (restore_edit (pre ++ rest) dest) (find_placeholders 0 (length pre) rest) in
  copy (pre ++ rest) (length pre) es' ++ drop (last_end (length pre) es') (pre ++ rest) = drop last body.
Proof.
  induction es as [|e es IH]; intros last pre Hb He Ha; cbv zeta.
  - cbn [copy last_end app].
    assert (find_placeholders 0 (length pre) (drop last body) = []) as ->.
    { rewrite <- (app_nil_r (drop last body)), find_placeholders_gap; [done |].
      intros p _. rewrite app_nil_r, drop_drop. apply Hb. }
    cbn. apply drop_app_length.
  - cbn in He. destruct He as (Hfrom & Hupto & He). pose proof (edits_from_le _ _ _ He) as Hle.
    apply Forall_cons in Ha as [(Hlen & Hat & Hrel) Ha].
    cbn [copy last_end]. set (gap := slice body last (from e)).
    set (rest := copy body (upto e) es ++ drop (last_end (upto e) es) body).
    assert (gap ++ repl e ++ rest
      = (gap ++ repl e ++ copy body (upto e) es) ++ drop (last_end (upto e) es) body) as Hw
      by (unfold rest; by rewrite <- !app_assoc).
    rewrite <- Hw. clear Hw.
    rewrite find_placeholders_gap
      by (apply gap_clear; [by apply stretch_clear | done | done]).
    rewrite find_placeholders_head by (rewrite ?placeholder_at_app; done).
    assert (restore_edit (pre ++ gap ++ repl e ++ rest) dest (length pre + length gap)
      = Some (mkEdit (length pre + length gap) (length pre + length gap + PlaceholderLength)
                (slice body (from e) (upto e)))) as E.
    { unfold restore_edit.
      replace (slice (pre ++ gap ++ repl e ++ rest) (length pre + length gap)
                (length pre + length gap + PlaceholderLength)) with (repl e); [by rewrite Hrel |].
      rewrite <- Hlen, <- length_app, app_assoc. symmetry. apply slice_mid. }
    cbn [omap list_omap]. rewrite E. cbn [copy last_end from upto repl].
    specialize (IH (upto e) (pre ++ gap ++ repl e) Hb He Ha). cbv zeta in IH. fold rest in IH.
    rewrite <- !app_assoc, !length_app, Hlen in IH. rewrite <- !app_assoc, <- Nat.add_assoc.
    replace (slice (pre ++ gap ++ repl e ++ rest) (length pre) (length pre + length gap)) with gap
      by (symmetry; apply slice_mid).
    etrans; [do 2 apply f_equal; exact IH |].
    unfold gap. rewrite slice_to_end by lia. apply slice_to_end. lia.
Qed.

(** The edits [Body] has to make, and no others: in order and apart, each puts
    in the place of one whole placeholder, strictly inside the quotes of a
    literal that has a destination, the secret the vault answers with and whose
    scope lets it in there; and every such placeholder has its edit. *)
Record due (body : bytes) (content : list content_block) (lits : list literal) (es : list edit) : Prop := {
  due_apart : edits_from body 0 es;
  due_only : Forall (edit_released body (literal_destination eval_symlinks scopes content) lits) es;
  due_all : forall lit dest p secret,
    lit ∈ lits -> literal_destination eval_symlinks scopes content lit = Some dest ->
    lit_start lit < p -> p + PlaceholderLength < lit_end lit ->
    placeholder_at (drop p body) = true ->
    released dest (slice body p (p + PlaceholderLength)) = Some secret ->
    mkEdit p (p + PlaceholderLength) secret ∈ es
}.

(** What [Body] has to answer with these edits to make. *)
Definition answers (body : bytes) (es : list edit) (r : body_result) : Prop :=
  match es with
  | [] => exists rep, r = Kept body rep
  | _ => match parse (apply_edits body es) with
         | Some _ => exists rep, r = Rewritten (apply_edits body es) rep
         | None => exists rep, r = BodyError body rep true
         end
  end.

(** C14: a response is changed exactly where a placeholder stood whose scope
    lets its secret in.  Of a message whose literals can be read, [Body]
    replaces, each by the secret the vault answers with, the placeholders in
    the literals of its text blocks and of its tools' inputs whose scope lets
    the secret into that destination, all of them and nothing else; it leaves
    the bytes alone exactly when there is none, and gives them back with an
    error when the result would not be JSON.  A message whose literals cannot
    be read comes back with an error, and what is no message as it was. *)
Theorem Body_restores_only_where_the_scope_lets :
  forall body,
    match decode_message body with
    | Some ("message", content) =>
        match literals body with
        | Some lits => exists es, due body content lits es /\ answers body es (Body lookup eval_symlinks scopes body)
        | None => exists rep, Body lookup eval_symlinks scopes body = BodyError body rep false
        end
    | _ => exists rep, Body lookup eval_symlinks scopes body = Kept body rep
    end.
Proof.
  intros body. unfold Body. destruct (decode_message body) as [[ty content]|]; [| by eexists].
  destruct (String.eqb_spec ty "message") as [->|Hne]; cbn [negb].
  2: { repeat (case_match; try (exfalso; by apply Hne); try (by eexists)). }
  destruct (literals body) as [lits|] eqn:Hl; [| by eexists].
  set (dest_of := literal_destination eval_symlinks scopes content).
  change (fold_left (body_literal lookup eval_symlinks scopes content body) lits (mkDoc None 0 no_report))
    with (lits_fold body dest_of (mkDoc None 0 no_report) lits).
  destruct (lits_fold_spec body dest_of lits no_report Hl) as [He Hs].
  exists (lits_edits body dest_of lits). split.
  - apply literals_spec in Hl as [_ Hok].
    split; [done | by apply lits_edits_released |]. intros. by eapply lits_edits_all.
  - unfold answers. destruct (ds_out _) as [out|]; [| rewrite Hs; by eexists].
    destruct Hs as [Hne Hout]. rewrite Hout. destruct (lits_edits body dest_of lits) as [|e es]; [done |].
    destruct (parse _); by eexists.
Qed.

(** C15: an edit of a file outside the project gets no secret.  A secret goes
    into a tool's input only if its scope names that very tool, or if the tool
    is one of the file editors, its input is readable, names its path and
    nothing but paths that lead inside the project's directory (symbolic links
    resolved, no way up, no placeholder in the path itself), and the scope
    allows edits; in each of these cases it does go. *)
Theorem a_tool_gets_a_secret_only_inside_the_project :
  forall s tool input,
    (deny s (toolDestination eval_symlinks scopes tool input) = "" <->
     tool ∈ Tools s \/
     exists key paths,
       edit_key tool = Some key /\ inputPaths input = Some paths /\ path_at paths key <> "" /\
       Project scopes <> "" /\ Edit s = true /\
       forall k p, (k, p) ∈ paths -> insideProject eval_symlinks (Project scopes) p = true) /\
    (forall p, insideProject eval_symlinks (Project scopes) p = true ->
       below_root eval_symlinks (Project scopes) p).
Proof.
  intros s tool input. split; [| intros p; apply insideProject_spec].
  rewrite deny_spec. unfold toolDestination, allInside.
  destruct (edit_key tool) as [key|] eqn:Hk; [| cbn; naive_solver].
  destruct (inputPaths input) as [paths|] eqn:Hp; [| cbn; unfold ReasonUnparsedInput; naive_solver].
  destruct (String.eqb_spec (path_at paths key) "") as [Hpath|Hpath];
    [cbn; unfold ReasonNoPath; naive_solver |].
  destruct (String.eqb_spec (Project scopes) "") as [Hpr|Hpr]; [cbn; unfold ReasonNoProject; naive_solver |].
  destruct (forallb _ paths) eqn:Hall; cbn [negb].
  - cbn. split; [| naive_solver].
    intros [[? _]|(_ & [[? _]|(_ & _ & ?)])]; [by left | done | right].
    exists key, paths. split_and!; try done. intros k p Hin. apply list_elem_of_In in Hin.
    apply (proj1 (forallb_forall _ _) Hall (k, p) Hin).
  - cbn. split; [unfold ReasonOutsideProject; naive_solver |].
    intros [?|(key' & paths' & _ & [= <-] & _ & _ & _ & Hin)]; [by left; split |]. exfalso.
    apply not_true_iff_false in Hall. apply Hall, forallb_forall. intros [k p] H.
    by apply (Hin k p), list_elem_of_In.
Qed.

End rehydrator.

(** A reply that names the secret in its text, and the placeholder of no secret. *)
Definition named_secret : bytes := of_string "REPLAY_SECRET_0123456789abcdef".

Definition secret_of (ph : bytes) : option (bytes * string) :=
  if decide (ph = named_secret) then Some (of_string "hunter2", "word") else None.

Definition naming_reply (secret other : bytes) : bytes :=
  of_string "{'type':'message','content':[{'type':'text','text':'it is " ++ secret ++ of_string " not " ++ other ++ of_string "'}]}".

Definition in_quotes (l : bytes) : bytes := List.map (fun c => if Ascii.eqb c "'" then quote else c) l.

Lemma Body_restores_only_where_the_scope_lets_witness :
  let scopes := mkScopes "/work" DefaultScope ∅ in
  let body := in_quotes (naming_reply named_secret (of_string "REPLAY_SECRET_fedcba9876543210")) in
  exists content lits es rep,
    due secret_of (fun p => Some p) scopes body content lits es /\ es <> [] /\
    Body secret_of (fun p => Some p) scopes body = Rewritten (apply_edits body es) rep /\
    apply_edits body es = in_quotes (naming_reply (of_string "hunter2") (of_string "REPLAY_SECRET_fedcba9876543210")).
Proof.
  intros scopes body.
  assert (exists rep, Body secret_of (fun p => Some p) scopes body
            = Rewritten (in_quotes (naming_reply (of_string "hunter2") (of_string "REPLAY_SECRET_fedcba9876543210"))) rep) as [rep E]
    by (eexists; vm_compute; reflexivity).
  pose proof (Body_restores_only_where_the_scope_lets secret_of (fun p => Some p) scopes body) as H.
  rewrite E in H. clearbody body.
  destruct (decode_message body) as [[ty content]|]; [| by destruct H].
  assert (exists lits es, due secret_of (fun p => Some p) scopes body content lits es /\
    answers body es (Rewritten (in_quotes (naming_reply (of_string "hunter2") (of_string "REPLAY_SECRET_fedcba9876543210"))) rep))
    as (lits & es & D & A) by (repeat (case_match; try (by destruct H)); destruct H as (es & D & A); eauto).
  exists content, lits, es. destruct es as [|e es]; [by destruct A |]. cbn [answers] in A.
  destruct (parse _) in A; [| by destruct A]. destruct A as [rep' A]. exists rep. rewrite E.
  injection A as A <-. rewrite <- A. by split_and!.
Defined.

End RehydrateSpec.
