(* ===== verification/RoundTrip.v ===== *)
(** Restoring undoes masking: the masker and the rehydrator against the
    contract they share, a store whose placeholders are answered for, and the
    vault as such a store for the span of one exchange. *)

From S2P Require Import Prelude GoString GoFloat GoTime Intervals Json Splice Vault Masking MaskingSpec.
From S2P Require Import JsonValue Scope Rehydrate RehydrateSpec.
From Stdlib Require Import Ascii String.

Open Scope string_scope.
Open Scope list_scope.
Open Scope nat_scope.

Module RoundTrip.
Import Json Splice Masking MaskingSpec.
Import Scope Rehydrate RehydrateSpec.

#[local] Abbreviation length := List.length.

(** ** The contract *)

(** What a store of placeholders owes, for a class of secrets: what it hands
    out has the shape that is looked for, is answered with the secret it was
    handed out for, and goes on being answered through later calls. *)
Class Answering (St : Type) `{PlaceholderStore St} (dom : bytes -> Prop) := {
  store_lookup : St -> bytes -> option (bytes * string);
  store_ok : St -> Prop;
  store_keeps_ok st secret pat r st' :
    dom secret -> store_ok st -> store_placeholder st secret pat = (r, st') -> store_ok st';
  store_shape st secret pat ph st' :
    dom secret -> store_placeholder st secret pat = (inr ph, st') ->
    length ph = PlaceholderLength /\ placeholder_at ph = true;
  store_answers st secret pat ph st' :
    dom secret -> store_ok st -> store_placeholder st secret pat = (inr ph, st') ->
    exists pat', store_lookup st' ph = Some (secret, pat');
  store_keeps st secret pat r st' ph x :
    dom secret -> store_ok st -> store_placeholder st secret pat = (r, st') ->
    store_lookup st ph = Some x -> store_lookup st' ph = Some x
}.

Section answering.
Context {St : Type} `{PS : PlaceholderStore St} {dom : bytes -> Prop} {AN : Answering St dom}.

Lemma reach_ok (asked : bytes -> Prop) a b :
  (forall s, asked s -> dom s) -> reach asked a b -> store_ok a -> store_ok b.
Proof. intros Hd. induction 1; [done |]. eauto using store_keeps_ok. Qed.

Lemma reach_keeps (asked : bytes -> Prop) a b ph x :
  (forall s, asked s -> dom s) -> reach asked a b -> store_ok a ->
  store_lookup a ph = Some x -> store_lookup b ph = Some x.
Proof.
  intros Hd. induction 1 as [|st s pat r st' st'' Ha Hp _ IH]; [done |]. intros Hok Hl.
  apply IH; [eauto using store_keeps_ok |]. eapply store_keeps; eauto.
Qed.

(** What was handed out on the way is answered for at the end. *)
Lemma issued_answered (asked : bytes -> Prop) a b secret ph :
  (forall s, asked s -> dom s) -> dom secret -> store_ok a -> issued asked a b secret ph ->
  length ph = PlaceholderLength /\ placeholder_at ph = true /\
  exists pat, store_lookup b ph = Some (secret, pat).
Proof.
  intros Hd Hs Ha (st & pat & st' & H1 & Hp & H2).
  destruct (store_shape _ _ _ _ _ Hs Hp) as [Hl Hat]. split_and!; [done | done |].
  assert (store_ok st) as Hst by eauto using reach_ok.
  destruct (store_answers _ _ _ _ _ Hs Hst Hp) as [pat' Hlk]. exists pat'.
  eauto using reach_keeps, store_keeps_ok.
Qed.

(** C13: restoring undoes masking.  Take a body the masker reads, whose bytes
    hold no placeholder yet, and a store that answers for what it hands out.
    If masking reports no error, then restoring every placeholder of the
    masked body into a destination that may have these secrets gives the
    original body back, byte for byte. *)
Theorem restoring_undoes_masking :
  forall log2 m store body values masked report store' scopes dest rep,
    Forall pattern_ok (patterns m) -> store_ok store ->
    stringValues body = Some values ->
    (forall p, placeholder_at (drop p body) = false) ->
    (forall r, r ∈ List.concat (List.map (value_ranges log2 m body) values) -> dom (slice body r.1 r.2)) ->
    (forall pat, deny (For_ scopes pat) dest = "") ->
    Mask log2 m store body = (Masked masked report None, store') ->
    (restore (store_lookup store') scopes masked dest rep).1.1 = body.
Proof.
  intros log2 m store body values masked report store' scopes dest rep Hps Hok Hv Hclear Hdom Hdeny HM.
  destruct (Mask_edits_exactly_the_secrets log2 m store body values Hps Hv)
    as (es & report' & err & store'' & HM' & Hr & Hs & Hin & Hreach & _ & Hiss).
  rewrite HM in HM'. injection HM' as -> <- <- <-. specialize (Hiss eq_refl).
  assert (forall s, replaced body es s -> dom s) as Hd.
  { intros s (e & He & ->). apply (Hdom (edit_range e)). rewrite <- Hr.
    apply list_elem_of_In, List.in_map. by apply list_elem_of_In. }
  assert (Forall (answered (store_lookup store') scopes dest body) es) as Hans.
  { rewrite Forall_forall in Hiss. rewrite Forall_forall. intros e He.
    destruct (issued_answered _ _ _ _ _ Hd (Hd _ (ex_intro _ e (conj He eq_refl))) Hok (Hiss e He))
      as (Hl & Hat & pat & Hlk).
    unfold answered. split_and!; [done | done |]. apply released_spec. exists pat. by split. }
  destruct (restore_spec (store_lookup store') scopes (apply_edits body es) dest rep) as [rep' ->].
  cbn [fst]. unfold apply_edits at 1. unfold restore_edits, apply_edits.
  apply (restore_after_edits (store_lookup store') scopes dest body es 0 []); [done | | done].
  destruct (stringValues_spec body values Hv) as [_ Hok'].
  clear -Hs Hin Hok'.
  assert (forall last, last <= length body ->
            Forall (fun r => last <= r.1) (List.map edit_range es) -> edits_from body last es) as H.
  { induction es as [|e es IH]; intros last Hlast Hl; [done |]. cbn in Hs, Hin, Hl |- *.
    apply StronglySorted_inv in Hs as [Hs Hall].
    apply Forall_cons in Hin as [(Hlt & sv & Hsv & _ & Hend) Hin]. apply Forall_cons in Hl as [Hl _].
    rewrite Forall_forall in Hok'. destruct (Hok' sv Hsv) as (Hb & _). cbn in *.
    split_and!; [done | lia |]. apply IH; [done | done | lia | done]. }
  apply H; [lia |]. apply Forall_forall. intros; lia.
Qed.

End answering.

(** ** The vault honours it *)

Section vault.
Import Vault.
Local Open Scope Z_scope.
#[local] Set Default Proof Using "All".
Context (mac : string -> string) (world : nat -> time * bool) (later : time) (ttl : duration).
Context (dom : string -> Prop).

(** The digits the vault keeps tell these secrets apart and are hex digits. *)
Hypothesis mac_tells_apart :
  forall a b, dom a -> dom b -> placeholder_of mac a = placeholder_of mac b -> a = b.
Hypothesis mac_hex :
  forall a, dom a -> List.length (of_string (placeholder_of mac a)) = PlaceholderLength /\
                     placeholder_at (of_string (placeholder_of mac a)) = true.

(** The exchange ends at [later], within the retention of each clock reading. *)
Hypothesis in_time :
  forall i, (world i).1 <= later /\
            (0 < ttl -> Sub later (from_unix (to_unix (world i).1)) <= ttl).

Record vault_ok (w : vault_world) : Prop := {
  vo_keyed : keyed mac (w_vault w);
  vo_ttl : vault_ttl (w_vault w) = ttl;
  vo_dom : forall ph e, secrets (w_vault w) !! ph = Some e -> dom (Secret e);
  vo_fresh : forall ph e, secrets (w_vault w) !! ph = Some e -> At e <> 0 ->
                          expired (w_vault w) later e = false
}.

Lemma expired_ttl (v v' : t) now e : vault_ttl v = vault_ttl v' -> expired v now e = expired v' now e.
Proof. unfold expired. by intros ->. Qed.

Lemma expired_mono (v : t) now now' e : now <= now' -> expired v now' e = false -> expired v now e = false.
Proof.
  unfold expired. intros Hn. destruct (vault_ttl v <=? 0); [done |]. rewrite !Z.ltb_ge.
  unfold Sub. unfold_int. lia.
Qed.

(** An entry stamped during the exchange outlasts it. *)
Lemma stamped_outlasts v i secret pattern :
  vault_ttl v = ttl -> expired v later (mkEntry secret pattern (to_unix (world i).1)) = false.
Proof.
  intros Ht. unfold expired. rewrite Ht. destruct (Z.leb_spec ttl 0); [done |].
  apply Z.ltb_ge. cbn [At]. by apply in_time.
Qed.

(** An entry of the vault after a sweep during the exchange. *)
Lemma sweep_fresh w i ph e :
  vault_ok w -> secrets (sweepLocked (w_vault w) (world i).1).1 !! ph = Some e ->
  dom (Secret e) /\ expired (w_vault w) later e = false.
Proof.
  intros [Hk Ht Hd Hf]. rewrite sweep_lookup. destruct (secrets (w_vault w) !! ph) as [e0|] eqn:E; [| done].
  cbn [mbind option_bind]. unfold sweep_entry. destruct (At e0 =? 0) eqn:E0.
  - intros [= <-]. split; [by apply (Hd ph e0) | by apply stamped_outlasts].
  - destruct (expired (w_vault w) (world i).1 e0); [done |]. intros [= <-].
    apply Z.eqb_neq in E0. split; [by apply (Hd ph e0) | by apply (Hf ph e0)].
Qed.

(** Sweeping during the exchange loses no answer. *)
Lemma sweep_answers w i ph e :
  vault_ok w -> secrets (w_vault w) !! ph = Some e -> expired (w_vault w) later e = false ->
  exists e', secrets (sweepLocked (w_vault w) (world i).1).1 !! ph = Some e' /\
             Secret e' = Secret e /\ entry_Pattern e' = entry_Pattern e.
Proof.
  intros Hw He Hexp. rewrite sweep_lookup, He. cbn [mbind option_bind]. unfold sweep_entry.
  destruct (At e =? 0); [by eexists |].
  rewrite (expired_mono _ _ later) by (done || apply in_time). by eexists.
Qed.

Definition vault_lookup (w : vault_world) (ph : bytes) : option (bytes * string) :=
  (fun sp => (of_string sp.1, sp.2)) <$> Secret_ (w_vault w) (to_string ph) later.

(** One call during the exchange: what is answered, and the vault after. *)
Lemma vault_call w secret pat r w' :
  vault_ok w -> dom (to_string secret) ->
  @store_placeholder _ (vault_store mac world) w secret pat = (r, w') ->
  vault_ok w' /\
  (forall ph, r = inr ph -> ph = of_string (placeholder_of mac (to_string secret)) /\
     exists e, secrets (w_vault w') !! placeholder_of mac (to_string secret) = Some e /\
       Secret e = to_string secret /\ expired (w_vault w') later e = false) /\
  (forall ph e, secrets (sweepLocked (w_vault w) (world (w_calls w)).1).1 !! ph = Some e ->
     secrets (w_vault w') !! ph = Some e).
Proof.
  intros Hw Hdom. cbn [store_placeholder vault_store].
  destruct (world (w_calls w)) as [now ok] eqn:Hworld.
  assert (now = (world (w_calls w)).1) as Hnow by (by rewrite Hworld). cbn [fst]. subst now. clear Hworld.
  set (v1 := (sweepLocked (w_vault w) (world (w_calls w)).1).1).
  pose proof (keyed_Placeholder mac (w_vault w) (to_string secret) pat (world (w_calls w)).1 ok (vo_keyed _ Hw)) as Hk.
  pose proof (Placeholder_cases mac (w_vault w) (to_string secret) pat (world (w_calls w)).1 ok) as H.
  cbv zeta in H. fold v1 in H.
  assert (keyed mac v1) as Hk1 by (apply keyed_sweep, Hw).
  assert (forall n, vault_ok (mkWorld v1 n)) as Hok1.
  { intros n. split; cbn [w_vault]; [done | apply Hw | |].
    - intros ph e He. apply (sweep_fresh w (w_calls w) ph e Hw He).
    - intros ph e He _. rewrite (expired_ttl _ (w_vault w)) by done.
      apply (sweep_fresh w (w_calls w) ph e Hw He). }
  destruct (Placeholder _ _ _ _ _ _) as [[[]|ph] v']; cbn [snd] in Hk; intros [= <- <-].
  - destruct H as [-> _]. split_and!; [apply Hok1 | by intros ph [=] | done].
  - destruct H as [-> [(e & He & ->)|(Hn & _ & ->)]].
    + split_and!; [apply Hok1 | | done]. intros ph [= <-]. split; [done |]. exists e. split; [done |].
      cbn [w_vault]. destruct (sweep_fresh w _ _ e Hw He) as [Hde Hexp].
      apply Hk1 in He. split; [by apply mac_tells_apart | by rewrite (expired_ttl _ (w_vault w))].
    + split_and!.
      * split; cbn [w_vault]; [done | apply Hw | |].
        -- intros ph e. cbn [secrets]. intros [[_ <-]|[_ He]]%lookup_insert_Some; [done |].
           eapply sweep_fresh; [exact Hw | exact He].
        -- intros ph e. cbn [secrets]. rewrite (expired_ttl _ (w_vault w)) by done.
           intros [[_ <-]|[_ He]]%lookup_insert_Some _; [apply stamped_outlasts, Hw |].
           eapply sweep_fresh; [exact Hw | exact He].
      * intros ph [= <-]. split; [done |]. eexists. cbn [w_vault secrets]. rewrite lookup_insert_eq. split_and!; [done | done |].
        rewrite (expired_ttl _ (w_vault w)) by done. apply stamped_outlasts, Hw.
      * intros ph e He. cbn. rewrite lookup_insert_ne; [done |]. intros <-. congruence.
Qed.

(** For the span of one exchange the vault is a store that answers. *)
#[refine] Instance vault_answering :
  @Answering vault_world (vault_store mac world) (fun s => dom (to_string s)) := {
  store_lookup := vault_lookup;
  store_ok := vault_ok
}.
Proof.
  - intros w secret pat r w' Hd Hw Hp. by destruct (vault_call w secret pat r w' Hw Hd Hp).
  - intros w secret pat ph w' Hd Hp.
    assert (ph = of_string (placeholder_of mac (to_string secret))) as ->.
    { apply (vault_issued mac world (fun _ => True) w w' secret ph). exists w, pat, w'.
      split_and!; [constructor | done | constructor]. }
    by apply mac_hex.
  - intros w secret pat ph w' Hd Hw Hp. destruct (vault_call w secret pat _ w' Hw Hd Hp) as (Hw' & Hr & _).
    destruct (Hr ph eq_refl) as (-> & e & He & Hs & Hexp). exists (entry_Pattern e).
    unfold vault_lookup, Secret_. unfold to_string at 1. rewrite string_of_list_ascii_of_string, He.
    rewrite Hexp. cbn. by rewrite Hs, of_to_string.
  - intros w secret pat r w' ph x Hd Hw Hp Hx. destruct (vault_call w secret pat _ w' Hw Hd Hp) as (Hw' & _ & Hkeep).
    unfold vault_lookup, Secret_ in *. destruct (secrets (w_vault w) !! to_string ph) as [e|] eqn:E; [| done].
    destruct (expired (w_vault w) later e) eqn:Hexp; [done |]. cbn in Hx. injection Hx as <-.
    destruct (sweep_answers w (w_calls w) _ e Hw E Hexp) as (e' & He' & Hs & Hpat).
    rewrite (Hkeep _ _ He'). destruct (sweep_fresh w _ _ e' Hw He') as [_ Hexp'].
    rewrite (expired_ttl _ (w_vault w)), Hexp' by (rewrite (vo_ttl _ Hw'), (vo_ttl _ Hw); done).
    cbn. by rewrite Hs, Hpat.
Defined.

End vault.

(** ** A concrete exchange *)

Definition test_dom (s : string) : Prop := s = "cafebabe".

Lemma test_tells_apart a b :
  test_dom a -> test_dom b ->
  Vault.placeholder_of Vault.pad_mac a = Vault.placeholder_of Vault.pad_mac b -> a = b.
Proof. by intros -> ->. Qed.

Lemma test_hex a : test_dom a ->
  length (of_string (Vault.placeholder_of Vault.pad_mac a)) = PlaceholderLength /\
  placeholder_at (of_string (Vault.placeholder_of Vault.pad_mac a)) = true.
Proof. intros ->. split; vm_compute; reflexivity. Qed.

Lemma test_in_time (i : nat) :
  (Vault.monday <= Vault.monday)%Z /\
  ((0 < Vault.DefaultVaultTTL)%Z ->
   (Sub Vault.monday (Vault.from_unix (Vault.to_unix Vault.monday)) <= Vault.DefaultVaultTTL)%Z).
Proof. split; [reflexivity |]. intros _. vm_compute. discriminate. Qed.

Definition test_answering : @Answering vault_world test_store (fun s => test_dom (to_string s)) :=
  vault_answering Vault.pad_mac (fun _ => (Vault.monday, true)) Vault.monday Vault.DefaultVaultTTL test_dom
    test_tells_apart test_hex test_in_time.

Definition test_masked : bytes := json "{'model':'m','messages':[{'text':'key REPLAY_SECRET_cafebabe00000000.'}]}".

Lemma no_placeholder_check body :
  forallb (fun p => negb (placeholder_at (drop p body))) (seq 0 (length body)) = true ->
  forall p, placeholder_at (drop p body) = false.
Proof.
  intros H p. destruct (decide (p < length body)) as [Hlt|Hge].
  - apply negb_true_iff. apply (proj1 (forallb_forall _ _) H). apply in_seq. lia.
  - rewrite drop_ge by lia. done.
Qed.

Lemma test_world_ok : @store_ok vault_world test_store _ test_answering test_world.
Proof.
  assert (forall ph e, Vault.secrets (w_vault test_world) !! ph = Some e -> False) as He.
  { intros ph e H. unfold test_world, Vault.empty_vault in H. cbn [w_vault Vault.secrets] in H.
    by rewrite lookup_empty in H. }
  split; [intros ph e H; by apply He in H | done | intros ph e H; by apply He in H
    | intros ph e H; by apply He in H].
Qed.

Lemma restoring_undoes_masking_witness :
  let r := @Mask (fun x => x) vault_world test_store test_masker test_world test_body in
  @body_of _ test_store r = test_masked /\
  forall rep, (restore (@store_lookup vault_world test_store _ test_answering r.2)
     (mkScopes "/work" DefaultScope ∅) test_masked text_destination rep).1.1 = test_body.
Proof.
  cbv zeta. split; [vm_compute; reflexivity |]. intros rep.
  refine (@restoring_undoes_masking vault_world test_store _ test_answering (fun x => x) test_masker test_world
            test_body [mkSV 9 12; mkSV 33 48] test_masked {["word" := 1%Z]} _ _ text_destination rep
            _ _ _ _ _ _ _).
  - constructor; [apply word_pattern_ok | constructor].
  - apply test_world_ok.
  - vm_compute. reflexivity.
  - apply no_placeholder_check. vm_compute. reflexivity.
  - intros rg Hrg. assert (rg = (38, 46)) as ->; [| vm_compute; reflexivity].
    apply list_elem_of_singleton. exact Hrg.
  - intros pat. vm_compute. reflexivity.
  - rewrite (surjective_pairing (Mask _ _ _ _)) at 1. f_equal; vm_compute; reflexivity.
Defined.

End RoundTrip.
