(* ===== verification/Stream.v ===== *)
(** Restoring secrets in a server-sent event stream
    ([src/internal/masking/stream.go]): cutting the bytes into events, holding
    back what could begin a placeholder, holding a tool's input until its
    block ends.

    Go passes events on as slices of the pending buffer.  Here an event is a
    value of its own.  The two agree on streams in which one block holds text
    at a time, which is how the API sends them; when two text blocks are
    interleaved, the [append]s onto a held slice can write into the other
    block's held event (see the development's findings). *)

From S2P Require Import Prelude GoString Json Splice JsonValue Scope Masking Rehydrate.
From Stdlib Require Import Ascii String.

Open Scope string_scope.
Open Scope list_scope.
Open Scope nat_scope.

Module Stream.
Import Json Splice JsonValue Scope Masking Rehydrate.

#[local] Abbreviation length := List.length.

(** ** Cutting the bytes into events *)

Definition maxPendingEvent : N := 4194304%N.
Definition MaxHeldToolInputBytes : N := 4194304%N.

Definition lf : ascii := byte 10.
Definition cr : ascii := byte 13.
Definition lfLF : bytes := [lf; lf].
Definition crlfCRLF : bytes := [cr; lf; cr; lf].
Definition dataLine : bytes := of_string "data:".

(** [bytes.Index] *)
Fixpoint index_of (p l : bytes) : option nat :=
  if is_prefix p l then Some 0
  else match l with [] => None | _ :: l' => S <$> index_of p l' end.

(** The length of the first complete event. *)
Definition eventEnd (buf : bytes) : option nat :=
  match index_of lfLF buf, index_of crlfCRLF buf with
  | None, None => None
  | Some i, None => Some (i + length lfLF)
  | None, Some j => Some (j + length crlfCRLF)
  | Some i, Some j => if j <? i then Some (j + length crlfCRLF) else Some (i + length lfLF)
  end.

(** One line [pos, lineEnd) of an event; [inr] is a data line met twice. *)
Definition data_line (raw : bytes) (found : option (nat * nat)) (pos lineEnd : nat)
    : option (nat * nat) + unit :=
  if is_prefix dataLine (slice raw pos lineEnd) then
    match found with
    | Some _ => inr tt
    | None =>
        let start := pos + length dataLine in
        let start := if (start <? lineEnd) && Ascii.eqb (default "000"%char (raw !! start)) " " then S start else start in
        let stop := if (start <? lineEnd) && Ascii.eqb (default "000"%char (raw !! (lineEnd - 1))) cr
                    then lineEnd - 1 else lineEnd in
        inl (Some (start, stop))
    end
  else inl found.

Fixpoint data_loop (fuel : nat) (raw : bytes) (found : option (nat * nat)) (pos : nat) : option (nat * nat) :=
  match fuel with
  | O => found
  | S fuel =>
      if length raw <=? pos then found
      else
        let lineEnd := match index_of [lf] (drop pos raw) with Some nl => pos + nl | None => length raw end in
        match data_line raw found pos lineEnd with
        | inr _ => None
        | inl found => data_loop fuel raw found (S lineEnd)
        end
  end.

(** The JSON of an event's single data line; every line takes a byte or more,
    so the event's length is fuel enough. *)
Definition dataRange (raw : bytes) : option (nat * nat) := data_loop (S (length raw)) raw None 0.

(** ** Decoding an event *)

Record content_start := mkStart { cs_Type : string; cs_Name : string }.
Record delta := mkDelta { de_Type : string; PartialJSON : string }.

Record streamEvent := mkEvent {
  ev_Type : string;
  Index : Z;
  ContentBlock : option content_start;
  Delta : option delta
}.

Definition event_tags : list string := ["type"; "index"; "content_block"; "delta"].

(** A decimal literal into an [int]: a fraction, an exponent or a value out of
    range is an error that leaves the target. *)
Definition parse_digits (l : bytes) : option Z :=
  if forallb is_digit l && negb (length l =? 0)
  then Some (fold_left (fun n c => (n * 10 + Z.of_N (N_of_ascii c - 48))%Z) l 0%Z) else None.

Definition parse_int (raw : bytes) : option Z :=
  n ← match raw with
      | c :: l => if Ascii.eqb c "-" then Z.opp <$> parse_digits l else parse_digits raw
      | [] => None
      end;
  if decide (int64_range n) then Some n else None.

Definition decode_int (st : Z * bool) (v : value) : Z * bool :=
  match v with
  | Num raw => match parse_int raw with Some n => (n, st.2) | None => (st.1, false) end
  | Null => st
  | _ => (st.1, false)
  end.

Definition start_tags : list string := ["type"; "name"].

Definition decode_start (st : option content_start * bool) (v : value) : option content_start * bool :=
  match v with
  | Object l =>
      let old := default (mkStart "" "") st.1 in
      let '(ty, ok1) := string_field start_tags "type" l (cs_Type old) in
      let '(nm, ok2) := string_field start_tags "name" l (cs_Name old) in
      (Some (mkStart ty nm), st.2 && ok1 && ok2)
  | Null => (None, st.2)
  | _ => (st.1, false)
  end.

Definition delta_tags : list string := ["type"; "partial_json"].

Definition decode_delta (st : option delta * bool) (v : value) : option delta * bool :=
  match v with
  | Object l =>
      let old := default (mkDelta "" "") st.1 in
      let '(ty, ok1) := string_field delta_tags "type" l (de_Type old) in
      let '(pj, ok2) := string_field delta_tags "partial_json" l (PartialJSON old) in
      (Some (mkDelta ty pj), st.2 && ok1 && ok2)
  | Null => (None, st.2)
  | _ => (st.1, false)
  end.

(** [json.Unmarshal] into a [streamEvent]; [None] is its error. *)
Definition decode_event (doc : bytes) : option streamEvent :=
  match parse doc with
  | Some (Object l) =>
      let '(ty, ok1) := string_field event_tags "type" l "" in
      let '(ix, ok2) := fold_left decode_int (field_values event_tags "index" l) (0%Z, true) in
      let '(cb, ok3) := fold_left decode_start (field_values event_tags "content_block" l) (None, true) in
      let '(de, ok4) := fold_left decode_delta (field_values event_tags "delta" l) (None, true) in
      if ok1 && ok2 && ok3 && ok4 then Some (mkEvent ty ix cb de) else None
  | Some Null => Some (mkEvent "" 0 None None)
  | _ => None
  end.

(** ** What could begin a placeholder *)

Definition isPlaceholderPrefix (s : bytes) : bool :=
  if length s <=? length PlaceholderPrefix then is_prefix s PlaceholderPrefix
  else if negb (is_prefix PlaceholderPrefix s) || (PlaceholderLength <=? length s) then false
  else forallb lower_hex (drop (length PlaceholderPrefix) s).

(** The loop over [k], longest first. *)
Fixpoint partial_from (text : bytes) (k : nat) : nat :=
  match k with
  | O => 0
  | S k' => if isPlaceholderPrefix (drop (length text - k) text) then k else partial_from text k'
  end.

Definition partialPlaceholderSuffix (text : bytes) : nat :=
  partial_from text (Nat.min (PlaceholderLength - 1) (length text)).

(** [splice] *)
Definition splice (raw : bytes) (start stop : nat) (new : bytes) : bytes :=
  take start raw ++ new ++ drop stop raw.

(** ** Encoding a tool's input ([json.Encoder] without HTML escapes) *)

Definition hex_digit (n : N) : ascii := byte (if (n <? 10)%N then 48 + n else 87 + n)%N.

Definition encode_ascii (c : ascii) : bytes :=
  let n := N_of_ascii c in
  if Ascii.eqb c backslash || Ascii.eqb c quote then [backslash; c]
  else if (n =? 8)%N then [backslash; "b"%char]
  else if (n =? 12)%N then [backslash; "f"%char]
  else if (n =? 10)%N then [backslash; "n"%char]
  else if (n =? 13)%N then [backslash; "r"%char]
  else if (n =? 9)%N then [backslash; "t"%char]
  else if (n <? 32)%N
  then [backslash; "u"%char; "0"%char; "0"%char; hex_digit (n / 16)%N; hex_digit (n mod 16)%N]
  else [c].

(** Every turn takes a byte or more, so the input's length is fuel enough. *)
Fixpoint encode_inner (fuel : nat) (l : bytes) : bytes :=
  match fuel, l with
  | S fuel, c :: l' =>
      if (N_of_ascii c <? 128)%N then encode_ascii c ++ encode_inner fuel l'
      else
        let '(r, w) := decode_rune l in
        (if (r =? 65533)%N && (w =? 1) then of_string "\ufffd"
         else if (r =? 8232)%N then of_string "\u2028"
         else if (r =? 8233)%N then of_string "\u2029"
         else take w l) ++ encode_inner fuel (drop w l)
  | _, _ => []
  end.

Definition encode_string (l : bytes) : bytes := quote :: encode_inner (length l) l ++ [quote].

(** The text of an event whose quotes are written as apostrophes here. *)
Definition quoted (s : string) : bytes :=
  List.map (fun c => if Ascii.eqb c "'" then quote else c) (of_string s).

Definition inputDeltaEvent (index : Z) (input : bytes) : bytes :=
  of_string "event: content_block_delta" ++ [lf]
  ++ quoted "data: {'type':'content_block_delta','index':" ++ of_string (itoa index)
  ++ quoted ",'delta':{'type':'input_json_delta','partial_json':" ++ encode_string input
  ++ of_string "}}" ++ [lf; lf].

(** ** The blocks of a stream *)

Record streamBlock := mkSBlock {
  kind : string;
  tool : string;
  (** [heldText] with [heldLit]: the held event and its literal *)
  heldText : option (bytes * (nat * nat));
  tail : nat;
  held : list bytes;
  heldBytes : N;
  sb_input : bytes;
  gaveUp : bool
}.

Definition new_block (kind tool : string) : streamBlock := mkSBlock kind tool None 0 [] 0 [] false.

Definition set_held_text (b : streamBlock) (h : option (bytes * (nat * nat))) (t : nat) : streamBlock :=
  mkSBlock (kind b) (tool b) h t (held b) (heldBytes b) (sb_input b) (gaveUp b).

Definition set_held (b : streamBlock) (h : list bytes) (n : N) (input : bytes) (g : bool) : streamBlock :=
  mkSBlock (kind b) (tool b) (heldText b) (tail b) h n input g.

Definition flushCarry (b : streamBlock) : bytes * streamBlock :=
  (match heldText b with Some (raw, _) => raw | None => [] end, set_held_text b None 0).

(** The held event without its tail; [cutHeld] is called with one held. *)
Definition cutHeld (b : streamBlock) : bytes :=
  match heldText b with
  | None => []
  | Some (raw, (litStart, litEnd)) =>
      if litEnd - 1 - tail b =? S litStart then []
      else splice raw (litEnd - 1 - tail b) (litEnd - 1) []
  end.

Definition releaseHeld (b : streamBlock) : bytes * streamBlock :=
  (List.concat (held b), set_held b [] 0 [] (gaveUp b)).

(** [findLiteral] *)
Definition findLiteral (doc : bytes) (path : list string) : option (nat * nat) :=
  match literals doc with
  | None => None
  | Some lits =>
      (fun l => (lit_start l, lit_end l)) <$> find_first (fun l => bool_decide (lit_path l = path)) lits
  end.

Section stream.
Context (lookup : bytes -> option (bytes * string)).
Context (eval_symlinks : string -> option string).
Context (scopes : Scopes).

(** The held bytes a text delta's inner bytes follow on from. *)
Definition held_tail (b : streamBlock) : bytes :=
  match heldText b with
  | Some (raw, (_, litEnd)) => slice raw (litEnd - 1 - tail b) (litEnd - 1)
  | None => []
  end.

(** Whether a placeholder crosses, or may still cross, from what is held into
    this delta. *)
Definition crosses (tl inner : bytes) : bool :=
  existsb (fun p => p <? length tl) (find_placeholders 0 0 (tl ++ inner))
  || (length inner <? partialPlaceholderSuffix (tl ++ inner)).

(** What goes first (the held event), the inner bytes to look into, and
    whether they begin with bytes taken over from it. *)
Definition take_over (b : streamBlock) (inner : bytes) : bytes * bytes * bool :=
  match heldText b with
  | None => ([], inner, false)
  | Some (raw, _) =>
      if crosses (held_tail b) inner then (cutHeld b, held_tail b ++ inner, true)
      else (raw, inner, false)
  end.

Definition textDelta (b : streamBlock) (rep : RehydrationReport) (raw : bytes) (start stop : nat)
    : bytes * streamBlock * RehydrationReport :=
  match findLiteral (slice raw start stop) ["delta"; "text"] with
  | None => let '(out, b) := flushCarry b in (out ++ raw, b, rep)
  | Some (l0, l1) =>
      let litStart := start + l0 in
      let litEnd := start + l1 in
      let '(out, inner, crossing) := take_over b (slice raw (S litStart) (litEnd - 1)) in
      let hold := partialPlaceholderSuffix inner in
      let kept := drop (length inner - hold) inner in
      let '(restored, changed, rep) :=
        restore lookup scopes (take (length inner - hold) inner) text_destination rep in
      let '(ev, lit) :=
        if changed || crossing
        then (splice raw (S litStart) (litEnd - 1) (restored ++ kept),
              (litStart, litStart + 1 + length (restored ++ kept) + 1))
        else (raw, (litStart, litEnd)) in
      if 0 <? hold then (out, set_held_text b (Some (ev, lit)) hold, rep)
      else (out ++ ev, set_held_text b None 0, rep)
  end.

Definition holdToolDelta (b : streamBlock) (rep : RehydrationReport) (raw : bytes) (partial : string)
    : bytes * streamBlock * RehydrationReport :=
  let b := set_held b (held b ++ [raw]) (heldBytes b + N.of_nat (length raw))%N
             (sb_input b ++ of_string partial) (gaveUp b) in
  if (heldBytes b <=? MaxHeldToolInputBytes)%N then ([], b, rep)
  else
    let dest := mkDest (match edit_key (tool b) with Some _ => DestinationEdit | None => DestinationTool end)
                  (tool b) false "" in
    let rep := fold_left (fun r _ => denied r dest ReasonTooLarge) (find_placeholders 0 0 (sb_input b)) rep in
    let '(out, b) := releaseHeld (set_held b (held b) (heldBytes b) (sb_input b) true) in
    (out, b, rep).

(** [bytes.Contains] *)
Definition holds (p l : bytes) : bool := match index_of p l with Some _ => true | None => false end.

Definition releaseTool (b : streamBlock) (rep : RehydrationReport) (index : Z)
    : bytes * RehydrationReport :=
  if negb (holds PlaceholderPrefix (sb_input b)) then ((releaseHeld b).1, rep)
  else
    let dest := toolDestination eval_symlinks scopes (tool b) (parse (sb_input b)) in
    match restoreJSONText lookup scopes (sb_input b) dest rep with
    | (_, false, rep) => ((releaseHeld b).1, rep)
    | (restored, true, rep) => (inputDeltaEvent index restored, rep)
    end.

(** ** The stream *)

Record stream := mkStream {
  s_rep : RehydrationReport;
  pending : bytes;
  blocks : gmap Z streamBlock;
  passthrough : bool
}.

Definition NewStream : stream := mkStream no_report [] ∅ false.

Definition set_blocks (s : stream) (rep : RehydrationReport) (bs : gmap Z streamBlock) : stream :=
  mkStream rep (pending s) bs (passthrough s).

(** What was held for a block, when it goes. *)
Definition flush_block (b : streamBlock) : bytes :=
  let '(o1, b) := flushCarry b in let '(o2, _) := releaseHeld b in o1 ++ o2.

(** [event]: one complete raw event. *)
Definition event (s : stream) (raw : bytes) : bytes * stream :=
  let as_is := (raw, s) in
  match dataRange raw with
  | None => as_is
  | Some (start, stop) =>
      match decode_event (slice raw start stop) with
      | None => as_is
      | Some ev =>
          if String.eqb (ev_Type ev) "content_block_start" then
            match ContentBlock ev with
            | None => as_is
            | Some cb =>
                let out := match blocks s !! Index ev with Some old => flush_block old | None => [] end in
                (out ++ raw,
                 set_blocks s (s_rep s) (<[Index ev := new_block (cs_Type cb) (cs_Name cb)]> (blocks s)))
            end
          else if String.eqb (ev_Type ev) "content_block_delta" then
            match blocks s !! Index ev, Delta ev with
            | Some b, Some d =>
                if String.eqb (kind b) "text" && String.eqb (de_Type d) "text_delta" then
                  let '(out, b, rep) := textDelta b (s_rep s) raw start stop in
                  (out, set_blocks s rep (<[Index ev := b]> (blocks s)))
                else if String.eqb (kind b) "tool_use" && String.eqb (de_Type d) "input_json_delta"
                        && negb (gaveUp b) then
                  let '(out, b, rep) := holdToolDelta b (s_rep s) raw (PartialJSON d) in
                  (out, set_blocks s rep (<[Index ev := b]> (blocks s)))
                else as_is
            | _, _ => as_is
            end
          else if String.eqb (ev_Type ev) "content_block_stop" then
            match blocks s !! Index ev with
            | None => as_is
            | Some b =>
                let '(out, rep) :=
                  if String.eqb (kind b) "text" then ((flushCarry b).1, s_rep s)
                  else if String.eqb (kind b) "tool_use" then releaseTool b (s_rep s) (Index ev)
                  else ([], s_rep s) in
                (out ++ raw, set_blocks s rep (delete (Index ev) (blocks s)))
            end
          else as_is
      end
  end.

Definition index_le (a b : Z * streamBlock) : Prop := (a.1 <= b.1)%Z.

#[local] Instance index_le_dec a b : Decision (index_le a b).
Proof. unfold index_le. apply _. Defined.

(** [sortedBlocks]: the indices in increasing order. *)
Definition sortedBlocks (bs : gmap Z streamBlock) : list (Z * streamBlock) :=
  merge_sort index_le (map_to_list bs).

Definition giveUp (s : stream) : bytes * stream :=
  (List.flat_map (fun ib => flush_block ib.2) (sortedBlocks (blocks s)) ++ pending s,
   mkStream (s_rep s) [] ((fun b => set_held (set_held_text b None 0) [] 0 [] (gaveUp b)) <$> blocks s) true).

(** The loop over the complete events; each takes two bytes or more. *)
Fixpoint drain (fuel : nat) (s : stream) : bytes * stream :=
  match fuel with
  | O => ([], s)
  | S fuel =>
      match eventEnd (pending s) with
      | None => ([], s)
      | Some n =>
          let '(o1, s1) := event s (take n (pending s)) in
          let '(o2, s2) := drain fuel (mkStream (s_rep s1) (drop n (pending s)) (blocks s1) (passthrough s1)) in
          (o1 ++ o2, s2)
      end
  end.

Definition Transform (s : stream) (p : bytes) : bytes * stream :=
  if passthrough s then (p, s)
  else
    let s := mkStream (s_rep s) (pending s ++ p) (blocks s) false in
    let '(out, s) := drain (length (pending s)) s in
    if (maxPendingEvent <? N.of_nat (length (pending s)))%N
    then let '(o, s) := giveUp s in (out ++ o, s)
    else (out, s).

Definition Flush (s : stream) : bytes * stream :=
  if passthrough s then ([], s) else giveUp s.

End stream.

End Stream.
