(* ===== verification/StreamSpec.v ===== *)
(** What restoring a stream guarantees: however the provider cuts its bytes
    and its text, the client gets the text restored as a whole; nothing is
    lost or reordered inside a block. *)

From S2P Require Import Prelude GoString Json Splice JsonValue Scope Masking Rehydrate RehydrateSpec Stream.
From Stdlib Require Import Ascii String.

Open Scope string_scope.
Open Scope list_scope.
Open Scope nat_scope.

Module StreamSpec.
Import Json Splice JsonValue Scope Masking Rehydrate RehydrateSpec Stream.

#[local] Abbreviation length := List.length.

(** ** Restoring, as a function of the text alone *)

Section restored.
Context (released_as : bytes -> option bytes).

(** The text with every placeholder that is released replaced; [k] counts down
    through a placeholder just dealt with. *)
Fixpoint restored_text (k : nat) (l : bytes) : bytes :=
  match l with
  | [] => []
  | c :: l' =>
      match k with
      | S k' => restored_text k' l'
      | O =>
          if placeholder_at l
          then default (take PlaceholderLength l) (released_as (take PlaceholderLength l))
               ++ restored_text (PlaceholderLength - 1) l'
          else c :: restored_text 0 l'
      end
  end.

Lemma restored_skip l : forall k, restored_text k l = restored_text 0 (drop k l).
Proof.
  induction l as [|c l IH]; intros k; [by rewrite drop_nil |]. destruct k as [|k]; [done |]. apply IH.
Qed.

Lemma restored_short l : length l < PlaceholderLength -> restored_text 0 l = l.
Proof.
  induction l as [|c l IH]; intros Hl; [done |]. cbn [restored_text].
  destruct (placeholder_at (c :: l)) eqn:Hat.
  - apply placeholder_at_length in Hat. unfold PlaceholderLength in *. lia.
  - rewrite IH; [done |]. cbn in Hl. lia.
Qed.

Lemma placeholder_at_short l x : PlaceholderLength <= length l -> placeholder_at (l ++ x) = placeholder_at l.
Proof.
  intros Hl. rewrite <- (take_drop PlaceholderLength l), <- app_assoc.
  assert (length (take PlaceholderLength l) = PlaceholderLength) as Ht by (rewrite length_take; lia).
  rewrite !placeholder_at_app by done. done.
Qed.

(** Two texts between which no placeholder lies are restored apart. *)
Lemma restored_app a b : forall k, k <= length a ->
  (forall p, k <= p < length a -> length a < p + PlaceholderLength ->
     placeholder_at (drop p (a ++ b)) = false) ->
  restored_text k (a ++ b) = restored_text k a ++ restored_text 0 b.
Proof.
  induction a as [|c a IH]; intros k Hk H.
  { cbn in Hk. replace k with 0 by lia. done. }
  cbn in Hk. assert (forall k', k <= S k' -> k' <= length a ->
    restored_text k' (a ++ b) = restored_text k' a ++ restored_text 0 b) as IH'.
  { intros k' Hkk Hk'. apply IH; [done |]. intros p Hp Hlt. apply (H (S p)); cbn; lia. }
  cbn [app restored_text]. destruct k as [|k]; [| apply IH'; lia].
  change (c :: a ++ b) with ((c :: a) ++ b).
  destruct (decide (PlaceholderLength <= length (c :: a))) as [Hge|Hlt].
  - rewrite placeholder_at_short by done. destruct (placeholder_at (c :: a)).
    + rewrite take_app_le by done. rewrite IH', <- !app_assoc; [done | lia |].
      cbn in Hge. unfold PlaceholderLength in *. lia.
    + by rewrite IH' by lia.
  - assert (placeholder_at ((c :: a) ++ b) = false) as -> by (apply (H 0); cbn in *; lia).
    destruct (placeholder_at (c :: a)) eqn:Hat.
    { apply placeholder_at_length in Hat. unfold PlaceholderLength in *. lia. }
    by rewrite IH' by lia.
Qed.

End restored.

(** Edits past a point leave what is before it. *)
Lemma copy_from (w : bytes) a b es :
  a <= b -> edits_from w b es ->
  copy w a es ++ drop (last_end a es) w = slice w a b ++ copy w b es ++ drop (last_end b es) w.
Proof.
  intros Hab He. destruct es as [|e es]; cbn.
  - cbn in He. symmetry. by apply slice_to_end.
  - destruct He as (H1 & H2 & H3). apply edits_from_le in H3.
    rewrite app_assoc, <- slice_app with (b := b) by lia. by rewrite <- !app_assoc.
Qed.

Section rehydrator.
Context (lookup : bytes -> option (bytes * string)).
Context (scopes : Scopes).

#[local] Abbreviation restore := (restore lookup scopes).
#[local] Abbreviation released := (released lookup scopes).
#[local] Abbreviation restore_edit := (restore_edit lookup scopes).

Lemma positions_edits w dest ps : forall last,
  last <= length w -> StronglySorted (fun p q => p + PlaceholderLength <= q) ps ->
  Forall (fun p => last <= p /\ p + PlaceholderLength <= length w) ps ->
  edits_from w last (omap (restore_edit w dest) ps).
Proof.
  induction ps as [|p ps IH]; intros last Hl Hs Hf; [done |].
  apply StronglySorted_inv in Hs as [Hs Hall]. apply Forall_cons in Hf as [[Hp Hpl] Hf].
  cbn [omap list_omap]. assert (forall b, (b = last \/ b = p + PlaceholderLength) ->
    edits_from w b (omap (restore_edit w dest) ps)) as IH'.
  { intros b Hb. apply IH; [lia | done |]. rewrite Forall_forall in Hf. rewrite Forall_forall in Hall.
    rewrite Forall_forall. intros q Hq. destruct (Hf q Hq). specialize (Hall q Hq). cbn in Hall. lia. }
  destruct (restore_edit w dest p) as [e|] eqn:E; [| apply IH'; by left].
  unfold RehydrateSpec.restore_edit in E. destruct (released dest _); [| done]. injection E as <-.
  cbn. split_and!; [lia | lia |]. apply IH'. by right.
Qed.

Lemma edits_restored dest l : forall k pre,
  k <= length l ->
  let w := pre ++ l in
  let es := omap (restore_edit w dest) (find_placeholders k (length pre) l) in
  copy w (length pre + k) es ++ drop (last_end (length pre + k) es) w = restored_text (released dest) k l.
Proof.
  induction l as [|c l IH]; intros k pre Hk; cbv zeta.
  { cbn in Hk. replace k with 0 by lia. cbn. rewrite Nat.add_0_r, app_nil_r. apply drop_all. }
  assert (forall k', k' <= length l ->
    copy (pre ++ c :: l) (length pre + S k') (omap (restore_edit (pre ++ c :: l) dest) (find_placeholders k' (S (length pre)) l))
    ++ drop (last_end (length pre + S k') (omap (restore_edit (pre ++ c :: l) dest) (find_placeholders k' (S (length pre)) l))) (pre ++ c :: l)
    = restored_text (released dest) k' l /\
    edits_from (pre ++ c :: l) (length pre + S k')
      (omap (restore_edit (pre ++ c :: l) dest) (find_placeholders k' (S (length pre)) l))) as IH'.
  { intros k' Hk'. split.
    - specialize (IH k' (pre ++ [c]) Hk'). cbv zeta in IH. rewrite <- app_assoc, length_app in IH.
      cbn [app length] in IH. replace (length pre + 1) with (S (length pre)) in IH by lia.
      replace (length pre + S k') with (S (length pre) + k') by lia. exact IH.
    - destruct (find_placeholders_spec l k' (S (length pre))) as [Hs Hf].
      apply positions_edits; [rewrite length_app; cbn; lia | done |].
      eapply Forall_impl; [exact Hf |]. cbn beta. intros p (? & ? & _). rewrite length_app. cbn. lia. }
  assert (slice (pre ++ c :: l) (length pre) (length pre + 1) = [c]) as Hc.
  { unfold slice. rewrite drop_app_length. by replace (length pre + 1 - length pre) with 1 by lia. }
  cbn in Hk. cbn [find_placeholders restored_text]. destruct k as [|k]; [| apply IH'; lia].
  rewrite Nat.add_0_r. destruct (placeholder_at (c :: l)) eqn:Hat.
  - apply placeholder_at_length in Hat as Hlen. cbn in Hlen.
    destruct (IH' (PlaceholderLength - 1)) as [E He]; [unfold PlaceholderLength; lia |].
    replace (length pre + S (PlaceholderLength - 1)) with (length pre + PlaceholderLength) in E, He
      by (unfold PlaceholderLength; lia).
    assert (slice (pre ++ c :: l) (length pre) (length pre + PlaceholderLength) = take PlaceholderLength (c :: l)) as Hs.
    { unfold slice. rewrite drop_app_length. f_equal. lia. }
    cbn [omap list_omap]. destruct (restore_edit (pre ++ c :: l) dest (length pre)) as [e|] eqn:Ee;
      unfold RehydrateSpec.restore_edit in Ee; rewrite Hs in Ee;
      destruct (released dest (take PlaceholderLength (c :: l))) as [secret|] eqn:Er; try done; cbn [default].
    + injection Ee as <-. cbn [copy last_end from upto repl].
      assert (slice (pre ++ c :: l) (length pre) (length pre) = []) as -> by (unfold slice; by rewrite Nat.sub_diag).
      cbn [app]. rewrite <- app_assoc. f_equal. exact E.
    + rewrite (copy_from _ (length pre) (length pre + PlaceholderLength)) by (done || lia). by rewrite Hs, E.
  - destruct (IH' 0) as [E He]; [lia |].
    rewrite (copy_from _ (length pre) (length pre + 1)) by (done || lia). by rewrite Hc, E.
Qed.

(** [restore] computes it. *)
Lemma restore_restored inner dest rep :
  (restore inner dest rep).1.1 = restored_text (released dest) 0 inner /\
  ((restore inner dest rep).1.2 = false -> restored_text (released dest) 0 inner = inner).
Proof.
  destruct (restore_spec lookup scopes inner dest rep) as [rep' ->]. cbn [fst snd].
  pose proof (edits_restored dest inner 0 [] ltac:(lia)) as E. cbv zeta in E. cbn [length app Nat.add] in E.
  split; [exact E |]. intros Hn. apply negb_false_iff, bool_decide_eq_true in Hn.
  rewrite <- E. unfold restore_edits in Hn. by rewrite Hn.
Qed.

End rehydrator.

(** ** What could begin a placeholder *)

Lemma drop_prefix k : drop 14 (PlaceholderPrefix ++ k) = k.
Proof. reflexivity. Qed.

Lemma placeholder_parts l :
  placeholder_at l = true <->
  exists hex rest, l = PlaceholderPrefix ++ hex ++ rest /\ length hex = 16 /\ forallb lower_hex hex = true.
Proof.
  unfold placeholder_at, PlaceholderLength. rewrite !andb_true_iff, is_prefix_spec, Nat.leb_le. split.
  - intros [[[k ->] Hl] Hh]. rewrite length_app in Hl. change (length PlaceholderPrefix) with 14 in Hl.
    exists (take 16 k), (drop 16 k). rewrite take_drop, length_take.
    rewrite drop_prefix in Hh. split_and!; [done | lia | done].
  - intros (hex & rest & -> & Hl & Hh). rewrite !length_app, Hl.
    change (length PlaceholderPrefix) with 14. split; [split; [by eexists | lia] |].
    rewrite drop_prefix, take_app_le, take_ge by lia. done.
Qed.

Lemma forallb_app_l {A} (f : A -> bool) (a b : list A) : forallb f (a ++ b) = true -> forallb f a = true.
Proof. rewrite forallb_app, andb_true_iff. tauto. Qed.

Lemma prefix_of_placeholder s ext :
  placeholder_at (s ++ ext) = true -> length s < PlaceholderLength -> isPlaceholderPrefix s = true.
Proof.
  intros (hex & rest & E & Hl & Hh)%placeholder_parts Hlt. unfold isPlaceholderPrefix.
  destruct (Nat.leb_spec (length s) (length PlaceholderPrefix)) as [Hle|Hgt].
  - apply is_prefix_spec. exists (drop (length s) PlaceholderPrefix).
    apply (f_equal (take (length s))) in E. rewrite take_app_length, take_app_le in E by done.
    rewrite E at 1. symmetry. apply take_drop.
  - assert (exists k, s = PlaceholderPrefix ++ k) as [k ->].
    { exists (drop (length PlaceholderPrefix) s).
      apply (f_equal (take (length PlaceholderPrefix))) in E.
      rewrite take_app_length, take_app_le in E by lia. rewrite <- E at 1. symmetry. apply take_drop. }
    rewrite <- app_assoc in E. apply app_inv_head in E. rewrite drop_app_length.
    assert (is_prefix PlaceholderPrefix (PlaceholderPrefix ++ k) = true) as ->
      by (apply is_prefix_spec; by eexists).
    assert ((PlaceholderLength <=? length (PlaceholderPrefix ++ k)) = false) as -> by (apply Nat.leb_gt; lia).
    cbn [negb orb]. rewrite length_app in Hlt. change (length PlaceholderPrefix) with 14 in Hlt.
    apply (f_equal (take (length k))) in E. unfold PlaceholderLength in Hlt.
    rewrite take_app_length, take_app_le in E by lia. apply (forallb_app_l _ k (drop (length k) hex)).
    rewrite E at 1. by rewrite take_drop.
Qed.

Lemma prefix_extends s :
  isPlaceholderPrefix s = true -> length s < PlaceholderLength /\ exists ext, placeholder_at (s ++ ext) = true.
Proof.
  unfold isPlaceholderPrefix. destruct (Nat.leb_spec (length s) (length PlaceholderPrefix)) as [Hle|Hgt].
  - intros [k Hk]%is_prefix_spec. split; [change (length PlaceholderPrefix) with 14 in Hle; unfold PlaceholderLength; lia |].
    exists (k ++ replicate 16 "0"%char). rewrite app_assoc, <- Hk. done.
  - destruct (is_prefix PlaceholderPrefix s) eqn:E; cbn [negb orb]; [| done].
    destruct (Nat.leb_spec PlaceholderLength (length s)) as [|Hlt]; [done |]. intros Hh. split; [done |].
    apply is_prefix_spec in E as [k ->]. rewrite drop_app_length in Hh.
    rewrite length_app in Hlt. change (length PlaceholderPrefix) with 14 in Hlt. unfold PlaceholderLength in Hlt.
    exists (replicate (16 - length k) "0"%char). apply placeholder_parts.
    exists (k ++ replicate (16 - length k) "0"%char), []. rewrite app_nil_r, app_assoc.
    split_and!; [done | rewrite length_app, length_replicate; lia |].
    rewrite forallb_app, Hh. cbn [andb]. apply forallb_forall. intros c Hc.
    apply list_elem_of_In, elem_of_replicate in Hc as [-> _]. done.
Qed.

Lemma partial_from_spec text k :
  let r := partial_from text k in
  r <= k /\ (0 < r -> isPlaceholderPrefix (drop (length text - r) text) = true) /\
  forall j, r < j <= k -> isPlaceholderPrefix (drop (length text - j) text) = false.
Proof.
  cbv zeta. induction k as [|k (Hr & Hp & Hj)]; [cbn; split_and!; lia |].
  cbn [partial_from]. destruct (isPlaceholderPrefix (drop (length text - S k) text)) eqn:E.
  - split_and!; [done | done | lia].
  - split_and!; [lia | done |]. intros j Hj'. destruct (decide (j = S k)) as [->|]; [done | apply Hj; lia].
Qed.

Lemma partial_spec text :
  let r := partialPlaceholderSuffix text in
  r < PlaceholderLength /\ r <= length text /\
  (0 < r -> isPlaceholderPrefix (drop (length text - r) text) = true) /\
  forall j, r < j <= length text -> j < PlaceholderLength ->
    isPlaceholderPrefix (drop (length text - j) text) = false.
Proof.
  cbv zeta. unfold partialPlaceholderSuffix.
  destruct (partial_from_spec text (Nat.min (PlaceholderLength - 1) (length text))) as (Hr & Hp & Hj).
  unfold PlaceholderLength in *. split_and!; [lia | lia | done |]. intros j ? ?. apply Hj. lia.
Qed.

(** Before what is held back no placeholder starts that ends in it or after. *)
Lemma nothing_crosses_the_hold text x p :
  let hold := partialPlaceholderSuffix text in
  p < length text - hold -> length text - hold < p + PlaceholderLength ->
  placeholder_at (drop p (text ++ x)) = false.
Proof.
  cbv zeta. destruct (partial_spec text) as (Hr & Hrl & Hpre & Hmax).
  set (hold := partialPlaceholderSuffix text) in *. intros Hp Hlt. apply not_true_iff_false. intros Hat.
  rewrite drop_app_le in Hat by lia.
  destruct (decide (p + PlaceholderLength <= length text)) as [Hin|Hout].
  - rewrite placeholder_at_short in Hat by (rewrite length_drop; lia).
    pose proof (Hpre ltac:(lia)) as Hh. apply prefix_extends in Hh as [_ [ext Hext]].
    rewrite <- (placeholder_at_short _ ext) in Hat by (rewrite length_drop; lia).
    destruct (placeholders_apart _ (length text - hold - p) Hat) as [?|?]; [| lia | lia].
    rewrite drop_app_le, drop_drop by (rewrite length_drop; lia).
    by replace (p + (length text - hold - p)) with (length text - hold) by lia.
  - apply prefix_of_placeholder in Hat; [| rewrite length_drop; lia].
    specialize (Hmax (length text - p)). replace (length text - (length text - p)) with p in Hmax by lia.
    rewrite Hmax in Hat by lia. done.
Qed.

(** When nothing crosses from what was held, no placeholder lies across. *)
Lemma nothing_crosses tl inner x p :
  crosses tl inner = false -> p < length tl -> length tl < PlaceholderLength ->
  placeholder_at (drop p (tl ++ inner ++ x)) = false.
Proof.
  unfold crosses. intros [Hm Hs]%orb_false_iff Hp Htl. apply Nat.ltb_ge in Hs.
  apply not_true_iff_false. intros Hat. rewrite app_assoc in Hat.
  destruct (partial_spec (tl ++ inner)) as (_ & _ & _ & Hmax).
  rewrite drop_app_le in Hat by (rewrite length_app; lia).
  destruct (decide (p + PlaceholderLength <= length (tl ++ inner))) as [Hin|Hout].
  - rewrite placeholder_at_short in Hat by (rewrite length_drop; lia).
    apply (find_placeholders_all _ 0 0) in Hat; [| lia].
    assert (existsb (fun p => p <? length tl) (find_placeholders 0 0 (tl ++ inner)) = true) as Hc; [| congruence].
    apply existsb_exists. exists p. split; [by apply list_elem_of_In | by apply Nat.ltb_lt].
  - rewrite length_app in Hout. apply prefix_of_placeholder in Hat; [| rewrite length_drop, length_app; lia].
    rewrite length_app in Hmax. specialize (Hmax (length tl + length inner - p)).
    replace (length tl + length inner - (length tl + length inner - p)) with p in Hmax by lia.
    rewrite Hmax in Hat by lia. done.
Qed.

(** ** The text of a block *)

Section text.
Context (lookup : bytes -> option (bytes * string)).
Context (scopes : Scopes).

#[local] Abbreviation Rt := (restored_text (released lookup scopes text_destination) 0).
#[local] Abbreviation textDelta := (textDelta lookup scopes).

(** A text delta: its bytes and where its JSON stands in them. *)
Record delta_event := mkDE { de_raw : bytes; de_start : nat; de_stop : nat }.

(** Where the text's literal stands. *)
Definition text_lit (e : delta_event) : option (nat * nat) :=
  (fun l => (de_start e + l.1, de_start e + l.2))
    <$> findLiteral (slice (de_raw e) (de_start e) (de_stop e)) ["delta"; "text"].

Definition text_of (e : delta_event) : bytes :=
  match text_lit e with Some (l, r) => slice (de_raw e) (S l) (r - 1) | None => [] end.

(** The event with another text; [None] for one that is not sent. *)
Definition with_text (e : delta_event) (t : option bytes) : bytes :=
  match text_lit e, t with Some (l, r), Some t => splice (de_raw e) (S l) (r - 1) t | _, _ => [] end.

(** The deltas of a block, one after another, and what is still held sent at
    the end. *)
Fixpoint text_run (b : streamBlock) (rep : RehydrationReport) (es : list delta_event) : bytes :=
  match es with
  | [] => (flushCarry b).1
  | e :: es' =>
      let '(out, b, rep) := textDelta b rep (de_raw e) (de_start e) (de_stop e) in
      out ++ text_run b rep es'
  end.

Lemma text_lit_inside e l r : text_lit e = Some (l, r) -> l + 2 <= r <= length (de_raw e).
Proof.
  unfold text_lit, findLiteral. destruct (literals _) as [lits|] eqn:Hl; [| done].
  destruct (find_first _ lits) as [lit|] eqn:Hf; [| done]. cbn. intros [= <- <-].
  apply literals_spec in Hl as [_ Hok]. apply find_first_some in Hf as (l1 & l2 & -> & _).
  apply Forall_app in Hok as [_ Hok]. apply Forall_cons in Hok as [(Hb & _) _].
  unfold slice in Hb. rewrite length_take, length_drop in Hb. lia.
Qed.

(** *** Splicing *)

Lemma splice_inner raw a b (h : bytes) : a <= length raw -> slice (splice raw a b h) a (a + length h) = h.
Proof.
  intros Ha. unfold splice.
  assert (length (take a raw) = a) as Hl by (rewrite length_take; lia).
  rewrite <- Hl at 2 3. apply slice_mid.
Qed.

Lemma splice_same raw a b : a <= b <= length raw -> splice raw a b (slice raw a b) = raw.
Proof.
  intros H. unfold splice. rewrite slice_to_end by lia. apply take_drop.
Qed.

Lemma splice_splice raw a b (h1 h2 h3 h : bytes) :
  a <= length raw ->
  splice (splice raw a b (h1 ++ h2 ++ h3)) (a + length h1) (a + length h1 + length h2) h
  = splice raw a b (h1 ++ h ++ h3).
Proof.
  intros Ha. unfold splice. assert (length (take a raw) = a) as Hl by (rewrite length_take; lia).
  replace (take a raw ++ (h1 ++ h2 ++ h3) ++ drop b raw)
    with ((take a raw ++ h1) ++ h2 ++ (h3 ++ drop b raw)) by (by rewrite <- !app_assoc).
  assert (length (take a raw ++ h1) = a + length h1) as Hl1 by (rewrite length_app; lia).
  rewrite <- Hl1, take_app_length.
  rewrite (app_assoc (take a raw ++ h1) h2), <- length_app, drop_app_length.
  by rewrite <- !app_assoc.
Qed.

(** *** What is held *)

(** The held event [e] carries the text [h ++ tl], of which [tl] could begin a
    placeholder. *)
Record holding (b : streamBlock) (e : delta_event) (h tl : bytes) : Prop := {
  ho_lit : exists l r, text_lit e = Some (l, r) /\
             heldText b = Some (with_text e (Some (h ++ tl)), (l, l + 1 + length (h ++ tl) + 1));
  ho_tail : tail b = length tl;
  ho_prefix : isPlaceholderPrefix tl = true;
  ho_pos : 0 < length tl
}.

Lemma holding_tail b e h tl : holding b e h tl -> held_tail b = tl.
Proof.
  intros [(l & r & Hl & Hh) Ht _ _]. pose proof (text_lit_inside _ _ _ Hl).
  unfold held_tail. rewrite Hh, Ht. unfold with_text. rewrite Hl.
  replace (l + 1 + length (h ++ tl) + 1 - 1 - length tl) with (length (take (S l) (de_raw e) ++ h))
    by (rewrite !length_app, length_take; lia).
  replace (l + 1 + length (h ++ tl) + 1 - 1) with (length (take (S l) (de_raw e) ++ h) + length tl)
    by (rewrite !length_app, length_take; lia).
  unfold splice. replace (take (S l) (de_raw e) ++ (h ++ tl) ++ drop (r - 1) (de_raw e))
    with ((take (S l) (de_raw e) ++ h) ++ tl ++ drop (r - 1) (de_raw e)) by (by rewrite <- !app_assoc).
  apply slice_mid.
Qed.

(** The held event cut before its tail: with the text before it, or dropped
    when there is none. *)
Lemma holding_cut b e h tl :
  holding b e h tl -> exists t, default [] t = h /\ cutHeld b = with_text e t.
Proof.
  intros [(l & r & Hl & Hh) Ht _ Hpos]. pose proof (text_lit_inside _ _ _ Hl).
  unfold cutHeld. rewrite Hh, Ht. rewrite length_app.
  destruct (Nat.eqb_spec (l + 1 + (length h + length tl) + 1 - 1 - length tl) (S l)) as [E|E].
  - exists None. split; [destruct h; [done | cbn in E; lia] |]. unfold with_text. by rewrite Hl.
  - exists (Some h). split; [done |]. unfold with_text. rewrite Hl.
    replace (l + 1 + (length h + length tl) + 1 - 1 - length tl) with (S l + length h) by lia.
    replace (l + 1 + (length h + length tl) + 1 - 1) with (S l + length h + length tl) by lia.
    pose proof (splice_splice (de_raw e) (S l) (r - 1) h tl [] [] ltac:(lia)) as Hs.
    rewrite !app_nil_r in Hs. exact Hs.
Qed.

(** *** One delta *)

Definition free (b : streamBlock) : Prop := heldText b = None.

(** What a delta does with the bytes [C] it looks into: it is sent with a text
    that restores them, or held with what could begin a placeholder apart. *)
Definition dealt (e : delta_event) (C out : bytes) (b : streamBlock) : Prop :=
  (exists t, out = with_text e (Some t) /\ free b /\ forall x, Rt (C ++ x) = t ++ Rt x) \/
  (exists h tl, out = [] /\ holding b e h tl /\ forall x, Rt (C ++ x) = h ++ Rt (tl ++ x)).

Lemma Rt_hold C x :
  let n := length C - partialPlaceholderSuffix C in
  Rt (C ++ x) = Rt (take n C) ++ Rt (drop n C ++ x).
Proof.
  cbv zeta. set (n := _ - _). rewrite <- (take_drop n C) at 1. rewrite <- app_assoc.
  assert (length (take n C) = n) as Hn by (rewrite length_take; unfold n; lia).
  apply restored_app; [lia |]. rewrite Hn. intros p Hp Hlt.
  rewrite app_assoc, take_drop. apply nothing_crosses_the_hold; unfold n in *; lia.
Qed.

(** The part of [textDelta] after the held event is dealt with. *)
Lemma delta_dealt b rep e l r out1 C crossing out b' rep' :
  text_lit e = Some (l, r) -> take_over b (text_of e) = (out1, C, crossing) ->
  (crossing = false -> C = text_of e) ->
  textDelta b rep (de_raw e) (de_start e) (de_stop e) = (out, b', rep') ->
  exists out2, out = out1 ++ out2 /\ dealt e C out2 b'.
Proof.
  intros Hlit Htake Hsame H. pose proof (text_lit_inside _ _ _ Hlit) as Hin.
  unfold Stream.textDelta in H. unfold text_lit in Hlit.
  destruct (findLiteral _ _) as [[l0 l1]|] eqn:Hf; [| done]. cbn in Hlit. injection Hlit as <- <-.
  assert (text_lit e = Some (de_start e + l0, de_start e + l1)) as Hlit by (unfold text_lit; by rewrite Hf).
  assert (slice (de_raw e) (S (de_start e + l0)) (de_start e + l1 - 1) = text_of e) as Htx
    by (unfold text_of; by rewrite Hlit).
  rewrite Htx, Htake in H. cbv beta iota in H.
  set (l := de_start e + l0) in *. set (r := de_start e + l1) in *.
  set (hold := partialPlaceholderSuffix C) in *. set (n := length C - hold) in *.
  destruct (restore lookup scopes (take n C) text_destination rep) as [[new changed] rep1] eqn:Hr.
  destruct (restore_restored lookup scopes (take n C) text_destination rep) as [Hnew Hkeep].
  rewrite Hr in Hnew, Hkeep. cbn [fst snd] in Hnew, Hkeep.
  assert ((if changed || crossing
           then (splice (de_raw e) (S l) (r - 1) (new ++ drop n C), (l, l + 1 + length (new ++ drop n C) + 1))
           else (de_raw e, (l, r)))
          = (with_text e (Some (new ++ drop n C)), (l, l + 1 + length (new ++ drop n C) + 1))) as Hev.
  { unfold with_text. rewrite Hlit. destruct (changed || crossing) eqn:E; [done |].
    apply orb_false_iff in E as [-> ->]. rewrite Hnew, Hkeep, take_drop, Hsame by done.
    rewrite <- Htx, splice_same by lia. do 2 f_equal. rewrite slice_length by lia. lia. }
  rewrite Hev in H. cbv beta iota in H. unfold n, hold in *.
  destruct (partial_spec C) as (_ & Hle & Hpre & _).
  destruct (Nat.ltb_spec 0 (partialPlaceholderSuffix C)) as [Hpos|Hzero]; injection H as <- <- <-.
  - exists []. rewrite app_nil_r. split; [done |]. right.
    exists new, (drop (length C - partialPlaceholderSuffix C) C). split_and!; [done | | intros x; by rewrite Rt_hold, Hnew].
    split; cbn [heldText tail set_held_text].
    + exists l, r. split; [done |]. done.
    + rewrite length_drop. lia.
    + by apply Hpre.
    + rewrite length_drop. lia.
  - assert (partialPlaceholderSuffix C = 0) as E0 by lia.
    exists (with_text e (Some new)). rewrite E0 in *. rewrite Nat.sub_0_r, drop_all, app_nil_r in *. split; [done |]. left. exists new.
    split_and!; [done | done |]. intros x. pose proof (Rt_hold C x) as HR. cbv zeta in HR.
    rewrite E0, Nat.sub_0_r, drop_all in HR.
    by rewrite HR, Hnew.
Qed.

(** *** A whole block *)

Definition rendered (es : list delta_event) (ts : list (option bytes)) : bytes :=
  List.concat (zip_with with_text es ts).

Definition texts (ts : list (option bytes)) : bytes := List.concat (List.map (default []) ts).

Definition all_text (es : list delta_event) : bytes := List.concat (List.map text_of es).

(** From nothing held, and from an event held. *)
Definition run_free (es : list delta_event) : Prop := forall b rep, free b ->
  exists ts, length ts = length es /\ text_run b rep es = rendered es ts /\ texts ts = Rt (all_text es).

Definition run_holding (es : list delta_event) : Prop := forall b rep e h tl, holding b e h tl ->
  exists t ts, length ts = length es /\ text_run b rep es = with_text e t ++ rendered es ts /\
    default [] t ++ texts ts = h ++ Rt (tl ++ all_text es).

(** Once a delta is dealt with, the rest of the block goes on from there. *)
Lemma run_dealt e es C out b rep :
  run_free es -> run_holding es -> dealt e C out b ->
  exists t ts, length ts = length es /\
    out ++ text_run b rep es = with_text e t ++ rendered es ts /\
    default [] t ++ texts ts = Rt (C ++ all_text es).
Proof.
  intros Hf Hh [(t & -> & Hb & HR)|(h & tl & -> & Hb & HR)].
  - destruct (Hf b rep Hb) as (ts & Hl & -> & Ht). exists (Some t), ts.
    split_and!; [done | done |]. cbn [default]. by rewrite Ht, HR.
  - destruct (Hh b rep e h tl Hb) as (t & ts & Hl & -> & Ht). exists t, ts.
    split_and!; [done | done |]. by rewrite Ht, HR.
Qed.

Lemma run_spec es :
  Forall (fun e => is_Some (text_lit e)) es -> run_free es /\ run_holding es.
Proof.
  induction 1 as [|e es [[l r] Hlit] _ [IHf IHh]].
  - split.
    + intros b rep Hb. exists []. split_and!; [done | | done]. cbn. unfold free in Hb. by rewrite Hb.
    + intros b rep e h tl [(l & r & Hl & Hb) _ Hpre _]. exists (Some (h ++ tl)), [].
      split_and!; [done | by cbn; rewrite Hb, app_nil_r |]. apply prefix_extends in Hpre as [Hlt _].
      cbn. rewrite !app_nil_r. by rewrite restored_short.
  - split.
    + intros b rep Hb. cbn [text_run]. destruct (textDelta b rep _ _ _) as [[out b'] rep'] eqn:E.
      destruct (delta_dealt b rep e l r [] (text_of e) false out b' rep') as (out2 & -> & Hd);
        [done | by unfold take_over; rewrite Hb | done | done |].
      destruct (run_dealt e es _ out2 b' rep' IHf IHh Hd) as (t & ts & Hl & Ho & Ht).
      exists (t :: ts). split_and!; [cbn; by rewrite Hl | exact Ho | exact Ht].
    + intros b rep e0 h tl Hb. cbn [text_run]. destruct (textDelta b rep _ _ _) as [[out b'] rep'] eqn:E.
      pose proof (holding_tail b e0 h tl Hb) as Htl. pose proof (prefix_extends tl (ho_prefix _ _ _ _ Hb)) as [Hlt _].
      assert (exists raw lit, heldText b = Some (raw, lit) /\ raw = with_text e0 (Some (h ++ tl))) as (raw & lit & Hraw & Hr).
      { destruct Hb as [(? & ? & _ & ->) _ _ _]. by eexists _, _. }
      destruct (crosses tl (text_of e)) eqn:Hc.
      * destruct (holding_cut b e0 h tl Hb) as (t0 & Ht0 & Hcut).
        destruct (delta_dealt b rep e l r (cutHeld b) (tl ++ text_of e) true out b' rep') as (out2 & -> & Hd);
          [done | unfold take_over; by rewrite Hraw, Htl, Hc | done | done |].
        destruct (run_dealt e es _ out2 b' rep' IHf IHh Hd) as (t & ts & Hl & Ho & Ht).
        exists t0, (t :: ts). split_and!; [cbn; by rewrite Hl | |].
        -- rewrite <- app_assoc, Ho, Hcut. done.
        -- unfold texts in Ht |- *. cbn [List.map List.concat]. rewrite Ht, Ht0. unfold all_text.
           cbn [List.map List.concat]. by rewrite <- app_assoc.
      * destruct (delta_dealt b rep e l r raw (text_of e) false out b' rep') as (out2 & -> & Hd);
          [done | unfold take_over; by rewrite Hraw, Htl, Hc | done | done |].
        destruct (run_dealt e es _ out2 b' rep' IHf IHh Hd) as (t & ts & Hl & Ho & Ht).
        exists (Some (h ++ tl)), (t :: ts). split_and!; [cbn; by rewrite Hl | |].
        -- rewrite <- app_assoc, Ho, Hr. done.
        -- unfold texts in Ht |- *. cbn [List.map List.concat]. rewrite Ht. unfold all_text.
           cbn [List.map List.concat default from_option id]. rewrite <- app_assoc. f_equal.
           rewrite (restored_app _ tl); [by rewrite (restored_short _ tl) | lia |].
           intros p Hp _. apply nothing_crosses; [done | lia | done].
Qed.

End text.

(** C16: however the provider cuts a text into deltas, the client gets the text
    restored as a whole.  The deltas of a text block, and what is still held
    sent when it ends, go out as the same events in the same order, each with
    only its text changed (or not sent, when no text is left in it); and the
    texts they carry, put together, are what restoring the whole text of the
    block gives, placeholders cut by any number of deltas included. *)
Theorem streamed_text_is_restored_whole :
  forall lookup scopes tool rep rep' es,
    Forall (fun e => is_Some (text_lit e)) es ->
    exists ts, length ts = length es /\
      text_run lookup scopes (new_block "text" tool) rep es = rendered es ts /\
      texts ts = (restore lookup scopes (all_text es) text_destination rep').1.1.
Proof.
  intros lookup scopes tool rep rep' es Hes.
  destruct (run_spec lookup scopes es Hes) as [Hf _].
  destruct (Hf (new_block "text" tool) rep eq_refl) as (ts & Hl & Ho & Ht).
  exists ts. split_and!; [done | done |]. rewrite Ht. symmetry. apply restore_restored.
Qed.

(** A secret cut in three. *)
Definition test_lookup (ph : bytes) : option (bytes * string) :=
  if is_prefix (of_string "REPLAY_SECRET_0123456789abcdef") ph then Some (of_string "hunter2", "word") else None.

Definition test_delta (text : string) : delta_event :=
  let raw := of_string "data: " ++ quoted "{'type':'content_block_delta','index':0,'delta':{'type':'text_delta','text':'"
             ++ of_string text ++ quoted "'}}" ++ [lf; lf] in
  mkDE raw 6 (length raw - 2).

Definition test_deltas : list delta_event :=
  [test_delta "it is REPLAY_S"; test_delta "ECRET_0123456789"; test_delta "abcdef."].

Lemma streamed_text_is_restored_whole_witness :
  exists ts, length ts = 3 /\ texts ts = of_string "it is hunter2." /\
    text_run test_lookup (mkScopes "/work" DefaultScope ∅) (new_block "text" "") no_report test_deltas
    = rendered test_deltas ts.
Proof.
  destruct (streamed_text_is_restored_whole test_lookup (mkScopes "/work" DefaultScope ∅) "" no_report no_report
              test_deltas) as (ts & Hl & Ho & Ht).
  - repeat constructor; vm_compute; by eexists.
  - exists ts. split; [exact Hl |]. split; [| exact Ho]. rewrite Ht. vm_compute. reflexivity.
Defined.

(** ** Cutting the bytes *)

Lemma is_prefix_app p l x : is_prefix p l = true -> is_prefix p (l ++ x) = true.
Proof. rewrite !is_prefix_spec. intros [k ->]. exists (k ++ x). by rewrite app_assoc. Qed.

(** The first occurrence. *)
Lemma index_of_spec p l i :
  index_of p l = Some i <->
  is_prefix p (drop i l) = true /\ i <= length l /\ forall j, j < i -> is_prefix p (drop j l) = false.
Proof.
  revert i. induction l as [|c l IH]; intros i; cbn [index_of].
  - destruct (is_prefix p []) eqn:E; split.
    + intros [= <-]. split_and!; [done | done | lia].
    + intros (_ & Hi & _). cbn in Hi. f_equal. lia.
    + done.
    + intros (H & _). by rewrite drop_nil, E in H.
  - destruct (is_prefix p (c :: l)) eqn:E; split.
    + intros [= <-]. split_and!; [done | cbn; lia | lia].
    + intros (_ & _ & H). destruct i as [|i]; [done |]. specialize (H 0 ltac:(lia)). cbn [drop] in H. congruence.
    + destruct (index_of p l) as [k|] eqn:Hk; [| done]. cbn. intros [= <-].
      destruct (proj1 (IH k) eq_refl) as (H1 & H2 & H3). split_and!; [done | cbn; lia |].
      intros [|j] Hj; [done |]. cbn. apply H3. lia.
    + intros (H1 & H2 & H3). destruct i as [|i]; [cbn in H1; congruence |].
      assert (index_of p l = Some i) as ->; [| done]. apply IH. cbn in H1, H2.
      split_and!; [done | lia |]. intros j Hj. apply (H3 (S j)). lia.
Qed.

Lemma index_of_none p l : p <> [] -> index_of p l = None -> forall j, is_prefix p (drop j l) = false.
Proof.
  intros Hp Hn j. apply not_true_iff_false. intros Hj.
  assert (exists i, index_of p l = Some i) as [i Hi]; [| congruence].
  revert j Hj. clear Hn. induction l as [|c l IH]; intros j Hj.
  - rewrite drop_nil in Hj. by destruct p.
  - cbn [index_of]. destruct (is_prefix p (c :: l)) eqn:E; [eauto |].
    destruct j as [|j]; [cbn in Hj; congruence |]. destruct (IH j Hj) as [i ->]. eauto.
Qed.

(** An occurrence is found where it was when more bytes follow. *)
Lemma index_of_app p l x i : index_of p l = Some i -> index_of p (l ++ x) = Some i.
Proof.
  intros (H1 & H2 & H3)%index_of_spec. apply index_of_spec. split_and!.
  - rewrite drop_app_le by done. by apply is_prefix_app.
  - rewrite length_app. lia.
  - intros j Hj. specialize (H3 j Hj). rewrite drop_app_le by lia.
    apply not_true_iff_false. intros Ht. apply is_prefix_spec in Ht as [k Hk].
    apply is_prefix_spec in H1 as [k1 Hk1].
    assert (length p <= length (drop j l)) as Hlen.
    { apply (f_equal length) in Hk1. rewrite length_app, length_drop in Hk1. rewrite length_drop. lia. }
    assert (is_prefix p (drop j l) = true); [| congruence]. apply is_prefix_spec.
    exists (drop (length p) (drop j l)). apply (f_equal (take (length p))) in Hk.
    rewrite take_app_length, take_app_le in Hk by done. rewrite <- Hk at 1. symmetry. apply take_drop.
Qed.

(** A later occurrence ends in what follows. *)
Lemma index_of_app_late p l x i :
  p <> [] -> index_of p l = None -> index_of p (l ++ x) = Some i -> length l < i + length p.
Proof.
  intros Hp Hn (H1 & H2 & _)%index_of_spec.
  destruct (decide (length l < i + length p)) as [|Hge]; [done | exfalso].
  pose proof (index_of_none p l Hp Hn i) as Hi. apply not_true_iff_false in Hi. apply Hi, is_prefix_spec.
  apply is_prefix_spec in H1 as [k Hk]. rewrite drop_app_le in Hk by lia.
  exists (drop (length p) (drop i l)). apply (f_equal (take (length p))) in Hk.
  rewrite take_app_length, take_app_le in Hk by (rewrite length_drop; lia).
  rewrite <- Hk at 1. symmetry. apply take_drop.
Qed.

Lemma index_of_lookup p l i k : index_of p l = Some i -> k < length p -> l !! (i + k) = p !! k.
Proof.
  intros (H & _)%index_of_spec Hk. rewrite <- lookup_drop. by apply is_prefix_lookup.
Qed.

(** A complete event stays the first one whatever follows it. *)
Lemma eventEnd_app buf x n :
  eventEnd buf = Some n -> eventEnd (buf ++ x) = Some n /\ 0 < n <= length buf.
Proof.
  assert (forall p i, p <> [] -> index_of p buf = Some i -> 0 < i + length p <= length buf) as Hin.
  { intros p i Hp (H & Hi & _)%index_of_spec. apply is_prefix_length in H. rewrite length_drop in H.
    destruct p; [done |]. cbn in *. lia. }
  unfold eventEnd. change (length lfLF) with 2. change (length crlfCRLF) with 4.
  destruct (index_of lfLF buf) as [i|] eqn:Ei, (index_of crlfCRLF buf) as [j|] eqn:Ej; [| | | done].
  - rewrite (index_of_app _ _ x _ Ei), (index_of_app _ _ x _ Ej).
    apply Hin in Ei as ?; [| done]. apply Hin in Ej as ?; [| done]. change (length lfLF) with 2 in *.
    change (length crlfCRLF) with 4 in *. destruct (j <? i); intros [= <-]; split; done || lia.
  - rewrite (index_of_app _ _ x _ Ei). intros [= <-]. apply Hin in Ei as Hi; [| done].
    change (length lfLF) with 2 in Hi. split; [| lia].
    destruct (index_of crlfCRLF (buf ++ x)) as [j|] eqn:Ej'; [| done].
    pose proof (index_of_app_late crlfCRLF buf x j ltac:(done) Ej Ej') as Hlate.
    change (length crlfCRLF) with 4 in Hlate.
    destruct (Nat.ltb_spec j i) as [Hlt|]; [| done]. exfalso.
    pose proof (index_of_lookup _ _ _ 2 Ej' ltac:(cbn; lia)) as Hj2.
    pose proof (index_of_lookup _ _ _ 1 (index_of_app _ _ x _ Ei) ltac:(cbn; lia)) as Hi1.
    replace (i + 1) with (j + 2) in Hi1 by lia. rewrite Hi1 in Hj2. discriminate Hj2.
  - rewrite (index_of_app _ _ x _ Ej). intros [= <-]. apply Hin in Ej as Hj; [| done].
    change (length crlfCRLF) with 4 in Hj. split; [| lia].
    destruct (index_of lfLF (buf ++ x)) as [i|] eqn:Ei'; [| done].
    pose proof (index_of_app_late lfLF buf x i ltac:(done) Ei Ei') as Hlate.
    change (length lfLF) with 2 in Hlate. assert ((j <? i) = true) as -> by (apply Nat.ltb_lt; lia). done.
Qed.

Section stream.
Context (lookup : bytes -> option (bytes * string)).
Context (eval_symlinks : string -> option string).
Context (scopes : Scopes).

#[local] Abbreviation event := (event lookup eval_symlinks scopes).
#[local] Abbreviation drain := (drain lookup eval_symlinks scopes).
#[local] Abbreviation Transform := (Transform lookup eval_symlinks scopes).

Definition with_pending (s : stream) (p : bytes) : stream := mkStream (s_rep s) p (blocks s) (passthrough s).

(** An event is dealt with whatever waits behind it. *)
Lemma event_pending s p raw :
  event (with_pending s p) raw = ((event s raw).1, with_pending (event s raw).2 p) /\
  pending (event s raw).2 = pending s /\ passthrough (event s raw).2 = passthrough s.
Proof.
  unfold Stream.event, with_pending. cbn [blocks s_rep].
  repeat (first
    [ match goal with |- context [match ?x with _ => _ end] =>
        lazymatch x with
        | context [match _ with _ => _ end] => fail
        | _ => destruct x
        end
      end
    | progress cbn [fst snd pending passthrough set_blocks s_rep blocks] ]);
  split_and!; reflexivity.
Qed.

(** The state after the complete events of some bytes, and what they sent. *)
Lemma drain_fuel f : forall s more, length (pending s) <= f -> drain (f + more) s = drain f s.
Proof.
  induction f as [|f IH]; intros s more Hl.
  - destruct (pending s) eqn:E; [| cbn in Hl; lia]. destruct more; [done |]. cbn. by rewrite E.
  - cbn [Nat.add Stream.drain]. destruct (eventEnd (pending s)) as [n|] eqn:E; [| done].
    destruct (eventEnd_app _ [] _ E) as [_ Hn]. destruct (event s _) as [o1 s1].
    rewrite IH; [done |]. cbn. rewrite length_drop. lia.
Qed.

Lemma drain_app f x : forall s f2, length (pending s) <= f -> length (pending s) + length x <= f + f2 ->
  let '(o1, s1) := drain f s in
  let '(o2, s2) := drain (length (pending s1) + length x) (with_pending s1 (pending s1 ++ x)) in
  drain (f + f2) (with_pending s (pending s ++ x)) = (o1 ++ o2, s2) /\ passthrough s1 = passthrough s.
Proof.
  induction f as [|f IH]; intros s f2 Hl Hf2.
  - cbn [Stream.drain]. destruct (drain _ _) as [o2 s2] eqn:E2. split; [| done].
    assert (0 + f2 = length (pending s) + length x + (f2 - (length (pending s) + length x))) as -> by lia.
    rewrite drain_fuel; [by rewrite E2 | cbn; rewrite length_app; lia].
  - cbn [Stream.drain]. destruct (eventEnd (pending s)) as [n|] eqn:E.
    + destruct (eventEnd_app _ x _ E) as [Ex Hn]. cbn [Nat.add Stream.drain with_pending pending].
      rewrite Ex. rewrite take_app_le, drop_app_le by lia.
      destruct (event_pending s (pending s ++ x) (take n (pending s))) as (Hev & _ & Hpt).
      rewrite Hev. destruct (event s (take n (pending s))) as [o s1]. cbn [fst snd with_pending s_rep blocks passthrough] in *.
      set (s1' := mkStream (s_rep s1) (drop n (pending s)) (blocks s1) (passthrough s1)).
      specialize (IH s1' f2). cbn [pending s1'] in IH. rewrite length_drop in IH.
      specialize (IH ltac:(lia) ltac:(lia)). destruct (drain f s1') as [o1 s2].
      destruct (drain _ _) as [o2 s3]. destruct IH as [IH Hpt']. unfold with_pending in IH. cbn [s_rep blocks passthrough s1'] in IH, Hpt'.
      rewrite IH. split; [by rewrite app_assoc | congruence].
    + destruct (drain _ _) as [o2 s2] eqn:E2. split; [| done].
      assert (S f + f2 = length (pending s) + length x + (S f + f2 - (length (pending s) + length x))) as -> by lia.
      rewrite drain_fuel; [by rewrite E2 | cbn; rewrite length_app; lia].
Qed.

(** Where the network cuts the provider's bytes makes no difference.  As
    long as no unfinished event outgrows the limit, feeding two chunks one
    after the other sends the same bytes, and leaves the stream in the same
    state, as feeding them at once. *)
Lemma Transform_chunks :
  forall s p q o1 s1 o2 s2,
    Transform s p = (o1, s1) -> passthrough s1 = false -> Transform s1 q = (o2, s2) ->
    Transform s (p ++ q) = (o1 ++ o2, s2).
Proof.
  intros s p q o1 s1 o2 s2 H1 Hpt H2. unfold Stream.Transform in *.
  destruct (passthrough s) eqn:Hs; [injection H1 as <- <-; congruence |].
  set (s0 := mkStream (s_rep s) (pending s ++ p) (blocks s) false) in *.
  pose proof (drain_app (length (pending s0)) q s0 (length q) ltac:(lia) ltac:(lia)) as Hd.
  destruct (drain (length (pending s0)) s0) as [oa sa].
  destruct (maxPendingEvent <? N.of_nat (length (pending sa)))%N.
  { unfold giveUp in H1. injection H1 as <- <-. cbn in Hpt. congruence. }
  injection H1 as <- <-. rewrite Hpt in H2.
  assert (with_pending sa (pending sa ++ q) = mkStream (s_rep sa) (pending sa ++ q) (blocks sa) false) as Hw
    by (unfold with_pending; by rewrite Hpt).
  rewrite Hw in Hd. cbn [pending] in H2. rewrite length_app in H2.
  assert (with_pending s0 (pending s0 ++ q) = mkStream (s_rep s) (pending s ++ p ++ q) (blocks s) false) as Hw0
    by (unfold with_pending, s0; cbn; by rewrite <- app_assoc).
  rewrite Hw0 in Hd. cbn [pending]. rewrite !length_app. rewrite Nat.add_assoc.
  unfold s0 in Hd. cbn [pending] in Hd. rewrite length_app in Hd.
  destruct (drain (length (pending sa) + length q) _) as [ob sb]. destruct Hd as [-> _].
  destruct (maxPendingEvent <? N.of_nat (length (pending sb)))%N.
  - destruct (giveUp sb) as [og sg]. injection H2 as <- <-. by rewrite app_assoc.
  - by injection H2 as <- <-.
Qed.

End stream.

(** ** A tool's input *)

Section tool.
Context (lookup : bytes -> option (bytes * string)).
Context (eval_symlinks : string -> option string).
Context (scopes : Scopes).

(** The input deltas of a tool block (the event and the JSON text it carries)
    and the end of the block, as [event] deals with them. *)
Fixpoint tool_run (b : streamBlock) (rep : RehydrationReport) (index : Z) (ds : list (bytes * string)) : bytes :=
  match ds with
  | [] => (releaseTool lookup eval_symlinks scopes b rep index).1
  | (raw, partial) :: ds' =>
      if gaveUp b then raw ++ tool_run b rep index ds'
      else let '(out, b, rep) := holdToolDelta b rep raw partial in out ++ tool_run b rep index ds'
  end.

Definition raws (ds : list (bytes * string)) : bytes := List.concat (List.map fst ds).
Definition partials (ds : list (bytes * string)) : bytes := List.concat (List.map (fun d => of_string d.2) ds).

(** What [restoreJSONText] does to a document. *)
Lemma restoreJSONText_spec doc dest rep :
  match restoreJSONText lookup scopes doc dest rep with
  | (new, false, _) => new = doc
  | (new, true, _) =>
      exists lits es, literals doc = Some lits /\ es <> [] /\ new = apply_edits doc es /\
        edits_from doc 0 es /\ Forall (edit_released lookup scopes doc (fun _ => Some dest) lits) es
  end.
Proof.
  unfold restoreJSONText. destruct (literals doc) as [lits|] eqn:Hl; [| done].
  change (fold_left (restore_literal lookup scopes doc dest) lits (mkDoc None 0 rep))
    with (lits_fold lookup scopes doc (fun _ => Some dest) (mkDoc None 0 rep) lits).
  destruct (lits_fold_spec lookup scopes doc (fun _ => Some dest) lits rep Hl) as [He Hs].
  destruct (ds_out _) as [out|]; [| done]. destruct Hs as [Hne ->].
  exists lits, (lits_edits lookup scopes doc (fun _ => Some dest) lits). apply literals_spec in Hl as [_ Hok].
  split_and!; try done. by apply lits_edits_released.
Qed.

(** A block past the limit lets everything through. *)
Lemma tool_run_gave_up ds : forall b rep index,
  gaveUp b = true -> held b = [] -> sb_input b = [] -> tool_run b rep index ds = raws ds.
Proof.
  induction ds as [|[raw partial] ds IH]; intros b rep index Hg Hh Hi; cbn [tool_run].
  - unfold releaseTool. rewrite Hi. cbn. by rewrite Hh.
  - rewrite Hg, IH by done. done.
Qed.

(** While the block is held: what it holds, and the input so far. *)
Record held_so_far (b : streamBlock) (tool_name : string) (ds : list (bytes * string)) : Prop := {
  hs_tool : tool b = tool_name;
  hs_held : List.concat (held b) = raws ds;
  hs_input : sb_input b = partials ds;
  hs_bytes : heldBytes b = N.of_nat (length (raws ds));
  hs_gave : gaveUp b = false
}.

Definition released_input (tool_name : string) (index : Z) (input out : bytes) : Prop :=
  exists lits es,
    literals input = Some lits /\ es <> [] /\ edits_from input 0 es /\
    out = inputDeltaEvent index (apply_edits input es) /\
    Forall (edit_released lookup scopes input
              (fun _ => Some (toolDestination eval_symlinks scopes tool_name (parse input))) lits) es.

Lemma tool_run_spec ds : forall b tool_name sofar rep index,
  held_so_far b tool_name sofar ->
  tool_run b rep index ds = raws (sofar ++ ds) \/
  ((N.of_nat (length (raws (sofar ++ ds))) <= MaxHeldToolInputBytes \/ ds = [])%N /\
   released_input tool_name index (partials (sofar ++ ds)) (tool_run b rep index ds)).
Proof.
  induction ds as [|[raw partial] ds IH]; intros b tool_name sofar rep index [Ht Hh Hi Hb Hg]; cbn [tool_run].
  - rewrite app_nil_r. unfold releaseTool. destruct (holds _ (sb_input b)); cbn [negb]; [| left; exact Hh].
    rewrite Ht, Hi. set (dest := toolDestination _ _ _ _).
    pose proof (restoreJSONText_spec (partials sofar) dest rep) as H.
    destruct (restoreJSONText lookup scopes (partials sofar) dest rep) as [[new []] rep']; [| left; exact Hh].
    right. split; [by right |]. destruct H as (lits & es & ? & ? & -> & ? & ?). by exists lits, es.
  - rewrite Hg. unfold holdToolDelta. cbn [held heldBytes sb_input gaveUp set_held tool].
    assert (raws (sofar ++ [(raw, partial)]) = raws sofar ++ raw) as Hraws
      by (unfold raws; rewrite List.map_app, List.concat_app; cbn; by rewrite app_nil_r).
    assert (partials (sofar ++ [(raw, partial)]) = partials sofar ++ of_string partial) as Hpart
      by (unfold partials; rewrite List.map_app, List.concat_app; cbn; by rewrite app_nil_r).
    replace (sofar ++ (raw, partial) :: ds) with ((sofar ++ [(raw, partial)]) ++ ds) by (by rewrite <- app_assoc).
    assert (heldBytes b + N.of_nat (length raw) = N.of_nat (length (raws (sofar ++ [(raw, partial)]))))%N as Hn
      by (rewrite Hb, Hraws, length_app; lia).
    rewrite Hn. destruct (N.leb_spec (N.of_nat (length (raws (sofar ++ [(raw, partial)])))) MaxHeldToolInputBytes)
      as [Hle|Hgt].
    + cbn [app]. match goal with |- context [tool_run ?b' rep index ds] =>
        destruct (IH b' tool_name (sofar ++ [(raw, partial)]) rep index) as [H|[H1 H2]] end.
      * split; cbn; [done | | by rewrite Hi, Hpart | done | done].
        rewrite List.concat_app, Hh, Hraws. cbn. by rewrite app_nil_r.
      * by left.
      * right. split; [| done]. destruct H1 as [?| ->]; [by left | left; by rewrite app_nil_r].
    + left. unfold releaseHeld. cbn [held set_held]. rewrite tool_run_gave_up by done.
      rewrite List.concat_app, Hh. cbn. rewrite app_nil_r. unfold raws.
      rewrite <- app_assoc. rewrite List.map_app, List.concat_app. cbn.
      rewrite List.map_app, List.concat_app, <- app_assoc. cbn. by rewrite app_nil_r.
Qed.

End tool.

(** A tool's input reaches the client exactly as it was sent, or restored
    as a whole.  The held deltas of a tool block go out byte for byte and in
    order, unless the whole input fits the limit, is a JSON document, and some
    placeholder in its string literals may go to the destination that the
    tool's name and the whole input decide; then one delta carries the input
    with those placeholders, and nothing else, replaced by their secrets. *)
Lemma a_tool_input_is_released_whole :
  forall lookup eval_symlinks scopes tool_name rep index ds,
    let out := tool_run lookup eval_symlinks scopes (new_block "tool_use" tool_name) rep index ds in
    out = raws ds \/
    ((N.of_nat (length (raws ds)) <= MaxHeldToolInputBytes)%N /\
     released_input lookup eval_symlinks scopes tool_name index (partials ds) out).
Proof.
  intros lookup eval_symlinks scopes tool_name rep index ds. cbv zeta.
  destruct (tool_run_spec lookup eval_symlinks scopes ds (new_block "tool_use" tool_name) tool_name [] rep index)
    as [H|[H1 H2]]; [by split | by left | right].
  split; [| exact H2]. destruct H1 as [H1 | ->]; [exact H1 | by vm_compute].
Qed.

Definition test_event (s : string) : bytes := of_string "data: " ++ quoted s ++ [lf; lf].

Definition test_scopes : Scopes := mkScopes "/work" DefaultScope ∅.

Lemma Transform_chunks_witness :
  let whole := test_event "{'type':'ping'}" in
  (Transform test_lookup (fun p => Some p) test_scopes NewStream (take 7 whole ++ drop 7 whole)).1 = whole.
Proof.
  cbv zeta. set (whole := test_event "{'type':'ping'}").
  destruct (Transform test_lookup (fun p => Some p) test_scopes NewStream (take 7 whole)) as [o1 s1] eqn:E1.
  destruct (Transform test_lookup (fun p => Some p) test_scopes s1 (drop 7 whole)) as [o2 s2] eqn:E2.
  rewrite (Transform_chunks test_lookup (fun p => Some p) test_scopes NewStream (take 7 whole) (drop 7 whole)
             o1 s1 o2 s2 E1); [| | exact E2].
  - vm_compute in E1. injection E1 as <- <-. vm_compute in E2. injection E2 as <- <-. vm_compute. reflexivity.
  - vm_compute in E1. by injection E1 as <- <-.
Defined.

End StreamSpec.
