(* ===== verification/Siblings.v ===== *)
(** Holding parallel siblings ([src/internal/proxy/siblings.go]): a request
    whose prefix has a first response in flight waits for it to begin, then
    reads the cache entry it wrote.

    The gate is shared by every request's goroutine.  Each critical section of
    the mutex is one step; closing a flight's channel happens after the mutex
    is released and is a step of its own, as are waking up, timing out and the
    passing of time.  [tick] is the clock; a channel is a flight number and
    [closed] the set of those that have been closed. *)

From S2P Require Import Prelude GoTime CacheRules CachePrices.
From Stdlib Require Import String.

Open Scope Z_scope.

Module Siblings.
Import CachePrices.

(** ** The table of warm prefixes *)

Definition siblingWarmWindow : duration := TTLShort.
Definition maxSiblingPrefixes : nat := 1024.

Definition expired (now : time) (at_ : time) : bool := siblingWarmWindow <=? Sub now at_.

(** The scan for the oldest entry: the first met that is strictly before what
    was found so far, from the empty name at [now]. *)
Definition older (acc : string * time) (pa : string * time) : string * time :=
  if pa.2 <? acc.2 then pa else acc.

Definition oldest (it : iteration) (now : time) (warm : gmap string time) : string * time :=
  fold_left older (go_range it warm) (""%string, now).

(** The eviction loop, [max] entries being allowed to stay; [None] is a loop
    that deletes nothing any more and so does not end. *)
Fixpoint evict (it : iteration) (now : time) (max fuel : nat) (warm : gmap string time)
    : option (gmap string time) :=
  if decide (size warm <= max)%nat then Some warm
  else
    match fuel with
    | O => None
    | S fuel => evict it now max fuel (delete (oldest it now warm).1 warm)
    end.

Definition prune (it : iteration) (now : time) (max : nat) (warm : gmap string time)
    : option (gmap string time) :=
  if decide (size warm <= max)%nat then Some warm
  else
    let warm := filter (fun pa => expired now pa.2 = false) warm in
    evict it now max (size warm) warm.

(** ** The gate *)

Record gate := mkGate {
  flights : gmap string nat;
  warm : gmap string time;
  closed : gset nat;
  (** flights taken out of the table whose channel is yet to be closed *)
  closing : gset nat;
  next : nat;
  now : time
}.

Definition isWarm (g : gate) (prefix : string) : bool :=
  match warm g !! prefix with Some at_ => Sub (now g) at_ <? siblingWarmWindow | None => false end.

(** Where a request's goroutine stands.  [Leads] and [Passed] are past
    [enter]; the leader still has its [release] to call. *)
Inductive request :=
| Entering (prefix : string)
| Waiting (prefix : string) (f : nat)
| Leads (prefix : string) (f : nat) (released : bool)
| Passed (prefix : string).

(** One turn of [enter]'s loop, under the lock. *)
Definition enter_locked (g : gate) (prefix : string) : gate * request :=
  if isWarm g prefix then (g, Passed prefix)
  else
    match flights g !! prefix with
    | None =>
        (mkGate (<[prefix := next g]> (flights g)) (warm g) (closed g) (closing g) (S (next g)) (now g),
         Leads prefix (next g) false)
    | Some f => (g, Waiting prefix f)
    end.

(** [finish], up to the unlock. *)
Definition finish_locked (g : gate) (prefix : string) (f : nat) : gate :=
  mkGate (if decide (flights g !! prefix = Some f) then delete prefix (flights g) else flights g)
    (warm g) (closed g) ({[f]} ∪ closing g) (next g) (now g).

(** [began], up to the unlock; [t] is the clock [prune] reads. *)
Definition began_locked (it : iteration) (t : time) (g : gate) (prefix : string) : option gate :=
  w ← prune it t maxSiblingPrefixes (<[prefix := now g]> (warm g));
  Some (mkGate (delete prefix (flights g)) w (closed g)
          (match flights g !! prefix with Some f => {[f]} ∪ closing g | None => closing g end)
          (next g) t).

(** [flight.finish] *)
Definition close_flight (g : gate) (f : nat) : gate :=
  mkGate (flights g) (warm g) ({[f]} ∪ closed g) (closing g ∖ {[f]}) (next g) (now g).

Record system := mkSys { s_gate : gate; reqs : gmap nat request }.

Definition set_req (s : system) (r : nat) (q : request) (g : gate) : system :=
  mkSys g (<[r := q]> (reqs s)).

(** ** Steps *)

Inductive label :=
| Arrive (r : nat) | Enter (r : nat) | Wake (r : nat) | Timeout (r : nat)
| Release (r : nat) | Began (r : nat) | Close (f : nat) | Tick.

Inductive step : label -> system -> system -> Prop :=
| step_arrive s r prefix :
    reqs s !! r = None -> step (Arrive r) s (set_req s r (Entering prefix) (s_gate s))
| step_enter s r prefix g q :
    reqs s !! r = Some (Entering prefix) -> enter_locked (s_gate s) prefix = (g, q) ->
    step (Enter r) s (set_req s r q g)
| step_wake s r prefix f :
    reqs s !! r = Some (Waiting prefix f) -> f ∈ closed (s_gate s) ->
    step (Wake r) s (set_req s r (Entering prefix) (s_gate s))
| step_timeout s r prefix f : (* the deadline, or the request was cancelled *)
    reqs s !! r = Some (Waiting prefix f) ->
    step (Timeout r) s (set_req s r (Passed prefix) (s_gate s))
| step_release s r prefix f b :
    reqs s !! r = Some (Leads prefix f b) ->
    step (Release r) s (set_req s r (Leads prefix f true) (finish_locked (s_gate s) prefix f))
| step_began s r prefix q it t g :
    reqs s !! r = Some q -> (q = Passed prefix \/ exists f b, q = Leads prefix f b) ->
    now (s_gate s) <= t -> began_locked it t (s_gate s) prefix = Some g ->
    step (Began r) s (mkSys g (reqs s))
| step_close s f :
    f ∈ closing (s_gate s) -> step (Close f) s (mkSys (close_flight (s_gate s) f) (reqs s))
| step_tick s t :
    now (s_gate s) <= t ->
    step Tick s (mkSys (mkGate (flights (s_gate s)) (warm (s_gate s)) (closed (s_gate s))
                     (closing (s_gate s)) (next (s_gate s)) t) (reqs s)).

Inductive run : system -> list label -> system -> Prop :=
| run_nil s : run s [] s
| run_cons s l s' ls s'' : step l s s' -> run s' ls s'' -> run s (l :: ls) s''.

Definition newSiblingGate (t : time) : gate := mkGate ∅ ∅ ∅ ∅ 0 t.

Definition reachable (s : system) : Prop :=
  exists t ls, run (mkSys (newSiblingGate t) ∅) ls s.

(** ** What holds in every state *)

Record gate_ok (s : system) : Prop := {
  (** an entry of the table is an open flight with its leader still to release it *)
  ok_flight : forall prefix f, flights (s_gate s) !! prefix = Some f ->
    (f < next (s_gate s))%nat /\ ~ (f ∈ closed (s_gate s)) /\ ~ (f ∈ closing (s_gate s)) /\
    exists r, reqs s !! r = Some (Leads prefix f false);
  (** a flight has one leader *)
  ok_leader : forall r r' prefix prefix' f b b',
    reqs s !! r = Some (Leads prefix f b) -> reqs s !! r' = Some (Leads prefix' f b') -> r = r';
  ok_leads : forall r prefix f b, reqs s !! r = Some (Leads prefix f b) ->
    (f < next (s_gate s))%nat /\
    (b = false -> flights (s_gate s) !! prefix = Some f \/ f ∈ closing (s_gate s) \/ f ∈ closed (s_gate s));
  (** nobody waits for a flight that nobody will close *)
  ok_waits : forall r prefix f, reqs s !! r = Some (Waiting prefix f) ->
    f ∈ closed (s_gate s) \/ f ∈ closing (s_gate s) \/ flights (s_gate s) !! prefix = Some f;
  ok_closing : forall f, f ∈ closing (s_gate s) \/ f ∈ closed (s_gate s) -> (f < next (s_gate s))%nat;
  (** entries of the warm table are not from the future *)
  ok_warm : forall prefix at_, warm (s_gate s) !! prefix = Some at_ -> at_ <= now (s_gate s)
}.

(** ** The table stays bounded *)

(** The entries at least as recent as an instant. *)
Definition since (at_ : time) (w : gmap string time) : gmap string time :=
  filter (fun pa => at_ <= pa.2) w.

Lemma older_min (l : list (string * time)) : forall acc,
  let r := fold_left older l acc in
  (r = acc \/ r ∈ l) /\ r.2 <= acc.2 /\ (forall pa : string * time, pa ∈ l -> r.2 <= pa.2) /\ (r <> acc -> r.2 < acc.2).
Proof.
  induction l as [|x l IH]; intros acc; cbn [fold_left].
  - split_and!; [by left | lia | intros pa H; by apply not_elem_of_nil in H | done].
  - specialize (IH (older acc x)). cbv zeta in *.
    destruct IH as (Hin & Hle & Hall & Hne). unfold older in *. destruct (x.2 <? acc.2) eqn:E; reflect_bool.
    + split_and!; [right; destruct Hin as [->|?]; [by left | by right] | lia | | intros _; lia].
      intros pa [->|Hpa]%elem_of_cons; [done | by apply Hall].
    + split_and!; [destruct Hin as [->|?]; [by left | right; by right] | done | | done].
       intros pa [->|Hpa]%elem_of_cons; [lia | by apply Hall].
Qed.

(** When some entry is strictly before [now], the oldest is an entry, and none
    is before it. *)
Lemma oldest_spec it now w p at_ :
  w !! p = Some at_ -> at_ < now ->
  let o := oldest it now w in w !! o.1 = Some o.2 /\ forall p' at', w !! p' = Some at' -> o.2 <= at'.
Proof.
  intros Hp Hlt. cbv zeta. unfold oldest.
  destruct (older_min (go_range it w) (""%string, now)) as (Hin & _ & Hall & _). cbv zeta in *.
  assert (forall p' at', w !! p' = Some at' -> (fold_left older (go_range it w) (""%string, now)).2 <= at') as Hmin.
  { intros p' at' H. apply (Hall (p', at')). by apply elem_of_go_range. }
  split; [| exact Hmin]. destruct Hin as [Heq|Hin].
  - specialize (Hmin p at_ Hp). rewrite Heq in Hmin. cbn in Hmin. lia.
  - destruct (fold_left older _ _) as [p' at']. by apply elem_of_go_range in Hin.
Qed.

Lemma since_delete at_ w p : since at_ (delete p w) = delete p (since at_ w).
Proof. unfold since. apply map_filter_delete. Qed.

(** More entries than those since [at_]: one is strictly before it. *)
Lemma before_exists at_ (w : gmap string time) :
  (size (since at_ w) < size w)%nat -> exists p a, w !! p = Some a /\ a < at_.
Proof.
  intros Hs. destruct (decide (filter (fun pa : string * time => ~ at_ <= pa.2) w = ∅)) as [He|He].
  - exfalso. assert (since at_ w = w) as Heq; [| rewrite Heq in Hs; lia].
    apply map_filter_id. intros p a Hp. destruct (decide (at_ <= (p, a).2)) as [|Hn]; [done |].
    assert (filter (fun pa : string * time => ~ at_ <= pa.2) w !! p = Some a) as Hf
      by (by apply map_lookup_filter_Some). rewrite He in Hf. by rewrite lookup_empty in Hf.
  - apply map_choose in He as (p & a & H). apply map_lookup_filter_Some in H as [Hp Ha].
    exists p, a. cbn in Ha. split; [done | lia].
Qed.

(** The eviction ends when few enough entries are from [now] on; it leaves at
    most [max] entries, and drops none for a more recent one. *)
Lemma evict_spec it now max fuel : forall w,
  (size w <= fuel)%nat -> (size (since now w) <= max)%nat ->
  exists w', evict it now max fuel w = Some w' /\ w' ⊆ w /\ (size w' <= max)%nat /\
    forall p a, w !! p = Some a -> (size (since a w) <= max)%nat -> w' !! p = Some a.
Proof.
  induction fuel as [|fuel IH]; intros w Hf Hs; cbn [evict]; destruct (decide (size w <= max)%nat) as [Hle|Hgt];
    try (exists w; split_and!; [done | reflexivity | done | done]).
  - lia.
  - destruct (before_exists now w) as (p0 & a0 & Hp0 & Ha0); [lia |].
    destruct (oldest_spec it now w p0 a0 Hp0 Ha0) as [Ho Hmin]. cbv zeta in *.
    destruct (oldest it now w) as [po ao]. cbn [fst snd] in *.
    assert (size (delete po w) = pred (size w)) as Hsz by (apply map_size_delete_Some; by eexists).
    assert (forall x, (size (since x (delete po w)) <= size (since x w))%nat) as Hmono.
    { intros x. rewrite since_delete. apply map_subseteq_size, delete_subseteq. }
    destruct (IH (delete po w)) as (w' & He & Hsub & Hmax & Hkeep).
    { rewrite Hsz. assert (0 < size w)%nat by lia. lia. }
    { specialize (Hmono now). lia. }
    exists w'. split_and!; [done | | done |].
    + etrans; [exact Hsub | apply delete_subseteq].
    + intros p a Hp Hcnt. apply Hkeep; [| specialize (Hmono a); lia].
      rewrite lookup_delete_ne; [done |]. intros <-. rewrite Ho in Hp. injection Hp as <-.
      destruct (before_exists ao w) as (p1 & a1 & Hp1 & Ha1); [lia |]. specialize (Hmin p1 a1 Hp1). lia.
Qed.

End Siblings.

(** What the sibling gate guarantees, by induction on the steps of its
    goroutines: one leader per flight, nobody waiting for a flight that nobody
    will close, and a bounded table. *)

Open Scope string_scope.
Open Scope list_scope.
Open Scope Z_scope.

Module SiblingsSpec.
Import Siblings.

Lemma gate_ok_start t : gate_ok (mkSys (newSiblingGate t) ∅).
Proof.
  split; cbn [s_gate reqs newSiblingGate flights closed closing warm next].
  - intros prefix f H. by rewrite lookup_empty in H.
  - intros r r' prefix prefix' f b b' H. by rewrite lookup_empty in H.
  - intros r prefix f b H. by rewrite lookup_empty in H.
  - intros r prefix f H. by rewrite lookup_empty in H.
  - intros f. set_solver.
  - intros prefix at_ H. by rewrite lookup_empty in H.
Qed.

(** A request that neither leads nor waits may come and go. *)
Lemma gate_ok_move s r q :
  (forall prefix f b, reqs s !! r <> Some (Leads prefix f b)) ->
  match q with
  | Leads _ _ _ => False
  | Waiting prefix f => flights (s_gate s) !! prefix = Some f
  | _ => True
  end ->
  gate_ok s -> gate_ok (set_req s r q (s_gate s)).
Proof.
  intros Hr Hq [H1 H2 H3 H4 H5 H6].
  split; cbn [s_gate reqs set_req].
  - intros prefix f Hf. destruct (H1 prefix f Hf) as (? & ? & ? & r0 & Hr0). split_and!; [done | done | done |].
    exists r0. rewrite lookup_insert_ne; [done |]. intros ->. by eapply Hr.
  - intros r1 r2 prefix prefix' f b b' [[_ Heq]|[_ Hl]]%lookup_insert_Some; [subst q; done |].
    intros [[_ Heq]|[_ Hl']]%lookup_insert_Some; [subst q; done |]. by eapply H2.
  - intros r1 prefix f b [[_ Heq]|[_ Hl]]%lookup_insert_Some; [subst q; done |]. by eapply H3.
  - intros r1 prefix f [[_ Heq]|[_ Hl]]%lookup_insert_Some; [subst q; by auto |]. by eapply H4.
  - done.
  - done.
Qed.

Lemma enter_ok s r prefix g q :
  reqs s !! r = Some (Entering prefix) -> enter_locked (s_gate s) prefix = (g, q) ->
  gate_ok s -> gate_ok (set_req s r q g).
Proof.
  intros Hr He Hok. assert (forall p f b, reqs s !! r <> Some (Leads p f b)) as Hnl by (rewrite Hr; done).
  unfold enter_locked in He. destruct (isWarm (s_gate s) prefix); [injection He as <- <-; by apply gate_ok_move |].
  destruct (flights (s_gate s) !! prefix) as [f|] eqn:Ef; injection He as <- <-; [by apply gate_ok_move |].
  destruct Hok as [H1 H2 H3 H4 H5 H6]. split; cbn [s_gate reqs set_req flights warm closed closing next now].
  - intros p f [[<- <-]|[Hne Hf]]%lookup_insert_Some.
    + split_and!; [lia | intros Hc; pose proof (H5 _ (or_intror Hc)); lia
        | intros Hc; pose proof (H5 _ (or_introl Hc)); lia |].
      exists r. by rewrite lookup_insert_eq.
    + destruct (H1 p f Hf) as (? & ? & ? & r0 & Hr0). split_and!; [lia | done | done |].
      exists r0. rewrite lookup_insert_ne; [done |]. intros ->. by eapply Hnl.
  - intros r1 r2 p p' f b b' [[<- Heq]|[Hne Hl]]%lookup_insert_Some.
    + injection Heq as <- <- <-. intros [[<- _]|[_ Hl']]%lookup_insert_Some; [done |].
      destruct (H3 _ _ _ _ Hl'). lia.
    + intros [[<- Heq]|[_ Hl']]%lookup_insert_Some; [| by eapply H2].
      injection Heq as <- <- <-. destruct (H3 _ _ _ _ Hl). lia.
  - intros r1 p f b [[<- Heq]|[Hne Hl]]%lookup_insert_Some.
    + injection Heq as <- <- <-. split; [lia |]. intros _. left. by rewrite lookup_insert_eq.
    + destruct (H3 _ _ _ _ Hl) as [Hlt Hin]. split; [lia |]. intros Hb. destruct (Hin Hb) as [Hf|Hf]; [| by right].
      left. rewrite lookup_insert_ne; [done |]. intros ->. congruence.
  - intros r1 p f [[_ Heq]|[_ Hl]]%lookup_insert_Some; [done |].
    destruct (H4 _ _ _ Hl) as [?|[?|Hf]]; [by left | by right; left |]. right. right.
    rewrite lookup_insert_ne; [done |]. intros ->. congruence.
  - intros f Hf. specialize (H5 f Hf). lia.
  - done.
Qed.

Lemma release_ok s r prefix f b :
  reqs s !! r = Some (Leads prefix f b) -> gate_ok s ->
  gate_ok (set_req s r (Leads prefix f true) (finish_locked (s_gate s) prefix f)).
Proof.
  intros Hr [H1 H2 H3 H4 H5 H6]. destruct (H3 _ _ _ _ Hr) as [Hlt _].
  assert (forall p f', (if decide (flights (s_gate s) !! prefix = Some f) then delete prefix (flights (s_gate s))
                        else flights (s_gate s)) !! p = Some f' ->
            flights (s_gate s) !! p = Some f' /\ f' <> f) as Hfl.
  { intros p f' Hf'. assert (flights (s_gate s) !! p = Some f') as Hp.
    { destruct (decide _); [by apply lookup_delete_Some in Hf' as [_ ?] | done]. }
    split; [done |]. intros ->. destruct (H1 p f Hp) as (_ & _ & _ & r0 & Hr0).
    assert (r0 = r) as -> by (by eapply H2). rewrite Hr in Hr0. injection Hr0 as <- _.
    destruct (decide _) as [|Hn]; [by rewrite lookup_delete_eq in Hf' | done]. }
  split; cbn [s_gate reqs set_req finish_locked flights warm closed closing next now].
  - intros p f' Hf'. apply Hfl in Hf' as [Hp Hne]. destruct (H1 p f' Hp) as (? & ? & ? & r0 & Hr0).
    split_and!; [done | done | set_solver |]. exists r0. rewrite lookup_insert_ne; [done |].
    intros <-. rewrite Hr in Hr0. injection Hr0 as _ ? _. done.
  - intros r1 r2 p p' f' b1 b2 [[<- Heq]|[_ Hl]]%lookup_insert_Some.
    + injection Heq as <- <- <-. intros [[<- _]|[_ Hl']]%lookup_insert_Some; [done | by eapply H2].
    + intros [[<- Heq]|[_ Hl']]%lookup_insert_Some; [injection Heq as <- <- <- |]; by eapply H2.
  - intros r1 p f' b' [[<- Heq]|[_ Hl]]%lookup_insert_Some.
    + injection Heq as <- <- <-. by split.
    + destruct (H3 _ _ _ _ Hl) as [? Hin]. split; [done |]. intros Hb.
      destruct (Hin Hb) as [Hp|[?|?]]; [| right; left; set_solver | by right; right].
      destruct (decide (f' = f)) as [->|Hne]; [right; left; set_solver |]. left.
      destruct (decide _) as [Hd|_]; [| done]. rewrite lookup_delete_ne; [done |]. intros <-. congruence.
  - intros r1 p f' [[_ Heq]|[_ Hl]]%lookup_insert_Some; [done |].
    destruct (H4 _ _ _ Hl) as [?|[?|Hp]]; [by left | right; left; set_solver |].
    destruct (decide (f' = f)) as [->|Hne]; [right; left; set_solver |]. right. right.
    destruct (decide _) as [Hd|_]; [| done]. rewrite lookup_delete_ne; [done |]. intros <-. congruence.
  - intros f' Hf'. destruct (decide (f' = f)) as [->|]; [done |]. apply H5. set_solver.
  - done.
Qed.

Lemma prune_subset it t max w w' : prune it t max w = Some w' -> w' ⊆ w.
Proof.
  unfold prune. destruct (decide _); [by intros [= <-] |].
  set (w0 := filter _ w). assert (w0 ⊆ w) as H0 by apply map_filter_subseteq.
  assert (forall fuel v, v ⊆ w -> evict it t max fuel v = Some w' -> w' ⊆ w) as H; [| by apply H].
  induction fuel as [|fuel IH]; intros v Hv; cbn [evict]; destruct (decide _); try done;
    try (intros [= <-]; done).
  apply IH. etrans; [apply delete_subseteq | done].
Qed.

Lemma began_ok s it t g prefix :
  now (s_gate s) <= t -> began_locked it t (s_gate s) prefix = Some g ->
  gate_ok s -> gate_ok (mkSys g (reqs s)).
Proof.
  intros Ht Hb [H1 H2 H3 H4 H5 H6]. unfold began_locked in Hb.
  destruct (prune it t maxSiblingPrefixes _) as [w|] eqn:Hw; [| done]. cbn [mbind option_bind] in Hb.
  injection Hb as <-. apply prune_subset in Hw.
  assert (forall f, f ∈ closing (s_gate s) ->
    f ∈ match flights (s_gate s) !! prefix with Some f0 => {[f0]} ∪ closing (s_gate s) | None => closing (s_gate s) end) as Hin
    by (intros f; destruct (flights _ !! prefix); set_solver).
  assert (forall f p, flights (s_gate s) !! p = Some f ->
    delete prefix (flights (s_gate s)) !! p = Some f \/
    f ∈ match flights (s_gate s) !! prefix with Some f0 => {[f0]} ∪ closing (s_gate s) | None => closing (s_gate s) end) as Hfl.
  { intros f p Hp. destruct (decide (p = prefix)) as [->|]; [right; rewrite Hp; set_solver |].
    left. by rewrite lookup_delete_ne. }
  split; cbn [s_gate reqs flights warm closed closing next now].
  - intros p f [Hne Hp]%lookup_delete_Some. destruct (H1 p f Hp) as (? & ? & ? & r & Hr).
    split_and!; [done | done | | by exists r]. destruct (flights (s_gate s) !! prefix) as [f0|] eqn:E; [| done].
    intros [->%elem_of_singleton|?]%elem_of_union; [| done].
    destruct (H1 prefix f0 E) as (_ & _ & _ & r' & Hr'). assert (r' = r) as -> by (by eapply H2).
    rewrite Hr in Hr'. injection Hr' as ->. done.
  - done.
  - intros r p f b Hl. destruct (H3 _ _ _ _ Hl) as [? Hf]. split; [done |]. intros Hb.
    destruct (Hf Hb) as [Hp|[?|?]]; [destruct (Hfl f p Hp); auto | by auto | by auto].
  - intros r p f Hl. destruct (H4 _ _ _ Hl) as [?|[?|Hp]]; [by left | by auto |].
    destruct (Hfl f p Hp); auto.
  - intros f [Hf|Hf]; [| by auto]. destruct (flights (s_gate s) !! prefix) as [f0|] eqn:E; [| by auto].
    apply elem_of_union in Hf as [->%elem_of_singleton|?]; [by apply (H1 prefix f0) | by auto].
  - intros p at_ Hp. assert ((<[prefix := now (s_gate s)]> (warm (s_gate s))) !! p = Some at_) as Hp'
      by (by eapply lookup_weaken).
    apply lookup_insert_Some in Hp' as [[_ <-]|[_ Hp']]; [done |]. apply H6 in Hp'. lia.
Qed.

Lemma step_ok l s s' : step l s s' -> gate_ok s -> gate_ok s'.
Proof.
  intros Hs Hok. destruct Hs as [s r p Hr|s r p g q Hr He|s r p f Hr Hc|s r p f Hr|s r p f b Hr
    |s r p q it t g Hr Hq Ht Hb|s f Hf|s t Ht].
  - apply gate_ok_move; [by rewrite Hr | done | done].
  - by eapply enter_ok.
  - apply gate_ok_move; [by rewrite Hr | done | done].
  - apply gate_ok_move; [by rewrite Hr | done | done].
  - by eapply release_ok.
  - by eapply began_ok.
  - destruct Hok as [H1 H2 H3 H4 H5 H6].
    split; cbn [s_gate reqs close_flight flights warm closed closing next now].
    + intros p f' Hp. destruct (H1 p f' Hp) as (? & ? & ? & ?). split_and!; [done | | set_solver | done].
      intros [->%elem_of_singleton|?]%elem_of_union; done.
    + done.
    + intros r p f' b Hl. destruct (H3 _ _ _ _ Hl) as [? Hf']. split; [done |]. intros Hb.
      destruct (decide (f' = f)) as [->|]; [right; right; set_solver |].
      destruct (Hf' Hb) as [?|[?|?]]; [by left | right; left; set_solver | right; right; set_solver].
    + intros r p f' Hl. destruct (decide (f' = f)) as [->|]; [left; set_solver |].
      destruct (H4 _ _ _ Hl) as [?|[?|?]]; [left; set_solver | right; left; set_solver | by right; right].
    + intros f' Hf'. destruct (decide (f' = f)) as [->|]; [by auto |]. apply H5. set_solver.
    + done.
  - destruct Hok as [H1 H2 H3 H4 H5 H6]. split; cbn [s_gate reqs flights warm closed closing next now]; try done.
    intros p at_ Hp. apply H6 in Hp. lia.
Qed.

Lemma run_ok s ls s' : run s ls s' -> gate_ok s -> gate_ok s'.
Proof. induction 1; [done |]. intros. apply IHrun. by eapply step_ok. Qed.

Lemma reachable_ok s : reachable s -> gate_ok s.
Proof. intros (t & ls & H). eapply run_ok; [exact H | apply gate_ok_start]. Qed.

(** C18: one leader, and no wakeup lost.  In every state the gate can reach,
    an entry of the table is an open flight led by exactly one request, which
    has yet to release it; and a request waits only for a flight that is
    closed, that some goroutine is about to close, or that such a leader holds,
    so nobody waits for a flight that nobody will close. *)
Theorem one_leader_and_no_lost_wakeup :
  forall s, reachable s ->
    (forall prefix f, flights (s_gate s) !! prefix = Some f ->
       ~ (f ∈ closed (s_gate s)) /\
       exists r, reqs s !! r = Some (Leads prefix f false) /\
         forall r' prefix' b, reqs s !! r' = Some (Leads prefix' f b) -> r' = r) /\
    (forall r prefix f, reqs s !! r = Some (Waiting prefix f) ->
       f ∈ closed (s_gate s) \/ f ∈ closing (s_gate s) \/
       (flights (s_gate s) !! prefix = Some f /\ exists r', reqs s !! r' = Some (Leads prefix f false))).
Proof.
  intros s [H1 H2 H3 H4 _ _]%reachable_ok. split.
  - intros prefix f Hf. destruct (H1 prefix f Hf) as (_ & Hc & _ & r & Hr). split; [done |].
    exists r. split; [done |]. intros r' prefix' b Hr'. by eapply H2.
  - intros r prefix f Hw. destruct (H4 r prefix f Hw) as [?|[?|Hf]]; [by left | by right; left |].
    right. right. split; [done |]. destruct (H1 prefix f Hf) as (_ & _ & _ & r' & ?). by exists r'.
Qed.

Lemma run_app s1 l1 s2 l2 s3 : run s1 l1 s2 -> run s2 l2 s3 -> run s1 (l1 ++ l2) s3.
Proof. induction 1; [done |]. intros. econstructor; eauto. Qed.

Definition not_timeout (l : label) : Prop := match l with Timeout _ => False | _ => True end.

(** The flight in the table for a prefix, if any, can be ended by its leader. *)
Lemma leader_can_finish s prefix r f :
  gate_ok s -> reqs s !! r = Some (Waiting prefix f) ->
  exists ls s', run s ls s' /\ Forall not_timeout ls /\ gate_ok s' /\
    flights (s_gate s') !! prefix = None /\ reqs s' !! r = Some (Waiting prefix f).
Proof.
  intros Hok Hr. destruct (flights (s_gate s) !! prefix) as [f2|] eqn:Ef;
    [| exists [], s; split_and!; [constructor | constructor | done | done | done]].
  destruct (ok_flight _ Hok prefix f2 Ef) as (_ & _ & _ & r2 & Hr2).
  pose proof (step_release s r2 prefix f2 false Hr2) as Hs.
  exists [Release r2], (set_req s r2 (Leads prefix f2 true) (finish_locked (s_gate s) prefix f2)).
  split_and!.
  - econstructor; [exact Hs | constructor].
  - repeat constructor.
  - by eapply step_ok.
  - cbn. rewrite decide_True by done. by rewrite lookup_delete_eq.
  - cbn. rewrite lookup_insert_ne; [done |]. intros ->. congruence.
Qed.

(** C19: no waiter depends on its deadline.  From every state the gate can
    reach, a waiting request can get through without any request timing out:
    there are steps of its leader, of the goroutine that closes the flight and
    of its own after which it has passed or leads a flight itself. *)
Theorem a_waiter_gets_through :
  forall s r prefix f, reachable s -> reqs s !! r = Some (Waiting prefix f) ->
    exists ls s', run s ls s' /\ Forall not_timeout ls /\
      (reqs s' !! r = Some (Passed prefix) \/ exists f', reqs s' !! r = Some (Leads prefix f' false)).
Proof.
  intros s r prefix f Hreach Hr. apply reachable_ok in Hreach.
  destruct (leader_can_finish s prefix r f Hreach Hr) as (l1 & s1 & Hrun1 & Hl1 & Hok1 & Hnone & Hr1).
  assert (exists l2 s2, run s1 l2 s2 /\ Forall not_timeout l2 /\ f ∈ closed (s_gate s2) /\
            flights (s_gate s2) !! prefix = None /\ reqs s2 !! r = Some (Waiting prefix f))
    as (l2 & s2 & Hrun2 & Hl2 & Hc & Hnone2 & Hr2).
  { destruct (ok_waits _ Hok1 r prefix f Hr1) as [Hc|[Hc|Hc]]; [| | congruence].
    - exists [], s1. split_and!; [constructor | constructor | done | done | done].
    - exists [Close f], (mkSys (close_flight (s_gate s1) f) (reqs s1)). split_and!.
      + econstructor; [by apply step_close | constructor].
      + repeat constructor.
      + cbn. set_solver.
      + done.
      + done. }
  set (s3 := set_req s2 r (Entering prefix) (s_gate s2)).
  assert (reqs s3 !! r = Some (Entering prefix)) as Hr3 by apply lookup_insert_eq.
  destruct (enter_locked (s_gate s3) prefix) as [g q] eqn:He.
  exists (l1 ++ l2 ++ [Wake r; Enter r]), (set_req s3 r q g). split_and!.
  - eapply run_app; [exact Hrun1 |]. eapply run_app; [exact Hrun2 |].
    econstructor; [by eapply step_wake |]. econstructor; [by eapply step_enter | constructor].
  - apply Forall_app. split; [done |]. apply Forall_app. split; [done | repeat constructor].
  - cbn [set_req reqs]. rewrite lookup_insert_eq. unfold enter_locked in He. cbn [s3 set_req s_gate] in He.
    destruct (isWarm (s_gate s2) prefix); [injection He as _ <-; by left |]. rewrite Hnone2 in He.
    injection He as _ <-. right. by eexists.
Qed.

(** Once a response has begun its siblings go, and the table stays
    bounded.  When a response begins, and no more than [maxSiblingPrefixes]
    prefixes are stamped with this very instant, the call ends, leaves at most
    [maxSiblingPrefixes] warm prefixes, takes the flight out of the table, and
    a sibling that enters next passes at once; and a warm prefix is dropped
    only when its window is over or when more prefixes than may stay are at
    least as recent. *)
Lemma began_lets_the_siblings_go :
  forall it t g prefix,
    now g <= t -> Sub t (now g) < siblingWarmWindow ->
    (size (since (now g) (<[prefix := now g]> (warm g))) <= maxSiblingPrefixes)%nat ->
    exists g', began_locked it t g prefix = Some g' /\
      (size (warm g') <= maxSiblingPrefixes)%nat /\
      flights g' !! prefix = None /\
      enter_locked g' prefix = (g', Passed prefix) /\
      forall p a, p <> prefix -> warm g !! p = Some a -> warm g' !! p = None ->
        expired t a = true \/ (maxSiblingPrefixes < size (since a (<[prefix := now g]> (warm g))))%nat.
Proof.
  intros it t g prefix Ht Hw Hs. set (w := <[prefix := now g]> (warm g)) in *.
  assert (forall x w0, w0 ⊆ w -> (size (since x w0) <= size (since x w))%nat) as Hmono.
  { intros x w0 Hsub. apply map_subseteq_size. by apply map_filter_subseteq_mono. }
  assert (size (since t w) <= size (since (now g) w))%nat as Ht'.
  { apply map_subseteq_size. unfold since. apply map_filter_subseteq_ext. intros p a _ Ha. cbn in *. lia. }
  assert (exists w', prune it t maxSiblingPrefixes w = Some w' /\ (size w' <= maxSiblingPrefixes)%nat /\
    forall p a, w !! p = Some a -> expired t a = false -> (size (since a w) <= maxSiblingPrefixes)%nat ->
      w' !! p = Some a) as (w' & Hp & Hmax & Hkeep).
  { unfold prune. destruct (decide _) as [Hle|_]; [by exists w |].
    set (w0 := filter _ w). assert (w0 ⊆ w) as H0 by apply map_filter_subseteq.
    destruct (evict_spec it t maxSiblingPrefixes (size w0) w0) as (w' & He & _ & Hmax & Hkeep);
      [lia | specialize (Hmono t w0 H0); lia |].
    exists w'. split_and!; [done | done |]. intros p a Hpa Hex Hcnt. apply Hkeep.
    - by apply map_lookup_filter_Some.
    - specialize (Hmono a w0 H0). lia. }
  unfold began_locked. fold w. rewrite Hp. cbn [mbind option_bind].
  eexists. split; [reflexivity |]. cbn [warm flights].
  assert (w' !! prefix = Some (now g)) as Hin.
  { apply Hkeep; [by apply lookup_insert_eq | unfold expired; by apply Z.leb_gt | done]. }
  split_and!; [done | by apply lookup_delete_eq | |].
  - unfold enter_locked, isWarm. cbn [warm now]. rewrite Hin.
    assert ((Sub t (now g) <? siblingWarmWindow) = true) as -> by (by apply Z.ltb_lt). done.
  - intros p a Hne Hpa Hgone. destruct (expired t a) eqn:Hex; [by left | right].
    destruct (decide (size (since a w) <= maxSiblingPrefixes)%nat) as [Hle|]; [exfalso | lia].
    assert (w' !! p = Some a); [| congruence]. apply Hkeep; [| done | done].
    unfold w. by rewrite lookup_insert_ne.
Qed.

(** The bound is not a formality: with more prefixes than may stay stamped at
    (or after) the instant [prune] reads, its loop finds nothing older, deletes
    the entry of the empty name, and goes round for ever under the lock. *)
Lemma prune_spins it t max w :
  w !! "" = None -> (max < size (since t w))%nat -> prune it t max w = None.
Proof.
  intros He Hs.
  assert (forall (v : gmap string time), (size (since t v) <= size v)%nat) as Hle
    by (intros v; apply map_subseteq_size, map_filter_subseteq).
  unfold prune. destruct (decide _) as [Hd|_]; [specialize (Hle w); lia |].
  set (w0 := filter _ w). assert (since t w0 = since t w) as H0.
  { unfold since, w0. rewrite map_filter_filter. apply map_filter_ext. intros p a _. cbn. split; [tauto |].
    intros Ha. split; [done |]. unfold expired, Sub. apply Z.leb_gt.
    unfold siblingWarmWindow. change CachePrices.CachePrices.TTLShort with 300000000000. unfold_int. lia. }
  assert (w0 !! "" = None) as He0 by (apply map_lookup_filter_None; by left).
  rewrite <- H0 in Hs. clearbody w0. clear H0 He w.
  generalize (size w0) as fuel. intros fuel. revert w0 He0 Hs.
  induction fuel as [|fuel IH]; intros w He Hs; cbn [evict];
    (destruct (decide _) as [Hd|_]; [specialize (Hle w); lia |]); [done |].
  assert (since t (delete (oldest it t w).1 w) = since t w) as Hsame.
  { rewrite since_delete. apply delete_id. unfold oldest.
    destruct (older_min (go_range it w) ("", t)) as (Hin & _ & _ & Hlt). cbv zeta in *.
    destruct (fold_left older (go_range it w) ("", t)) as [p a]. cbn [fst snd] in *.
    apply map_lookup_filter_None. destruct Hin as [[= -> ->]|Hin]; [by left |]. right.
    intros x Hx. apply elem_of_go_range in Hin. rewrite Hin in Hx. injection Hx as <-. cbn.
    destruct (decide ((p, a) = ("", t))) as [[= -> ->]|Hne]; [congruence |].
    specialize (Hlt Hne). lia. }
  apply IH; [| by rewrite Hsame]. apply lookup_delete_None. by right.
Qed.

(** Two requests, one prefix: the first leads, the other waits. *)
Definition two_siblings : system :=
  mkSys (mkGate {["p" := 0%nat]} ∅ ∅ ∅ 1 0) {[0%nat := Leads "p" 0 false; 1%nat := Waiting "p" 0]}.

Lemma two_siblings_reachable : reachable two_siblings.
Proof.
  exists 0, [Arrive 0%nat; Enter 0%nat; Arrive 1%nat; Enter 1%nat].
  eapply run_cons; [apply (step_arrive _ 0%nat "p"); reflexivity |].
  eapply run_cons; [eapply (step_enter _ 0%nat "p"); reflexivity |].
  eapply run_cons; [apply (step_arrive _ 1%nat "p"); reflexivity |].
  eapply run_cons; [eapply (step_enter _ 1%nat "p"); reflexivity |].
  assert (forall s s', s = s' -> run s [] s') as H by (intros ? ? ->; constructor). apply H. reflexivity.
Qed.

Lemma one_leader_and_no_lost_wakeup_witness :
  ~ (0%nat ∈ closed (s_gate two_siblings)) /\
  exists r, reqs two_siblings !! r = Some (Leads "p" 0 false) /\
    forall r' prefix' b, reqs two_siblings !! r' = Some (Leads prefix' 0 b) -> r' = r.
Proof.
  refine (proj1 (one_leader_and_no_lost_wakeup two_siblings two_siblings_reachable) "p" 0%nat _).
  reflexivity.
Defined.

Lemma a_waiter_gets_through_witness :
  exists ls s', run two_siblings ls s' /\ Forall not_timeout ls /\
    (reqs s' !! 1%nat = Some (Passed "p") \/ exists f', reqs s' !! 1%nat = Some (Leads "p" f' false)).
Proof.
  refine (a_waiter_gets_through two_siblings 1 "p" 0 two_siblings_reachable _). reflexivity.
Defined.

Lemma began_lets_the_siblings_go_witness :
  exists g', began_locked key_order 5 (s_gate two_siblings) "p" = Some g' /\
    enter_locked g' "p" = (g', Passed "p").
Proof.
  destruct (began_lets_the_siblings_go key_order 5 (s_gate two_siblings) "p") as (g' & H1 & _ & _ & H2 & _).
  - vm_compute. discriminate.
  - vm_compute. reflexivity.
  - vm_compute. lia.
  - exists g'. split; [exact H1 | exact H2].
Defined.

End SiblingsSpec.
