(* ===== verification/Retry.v ===== *)
(** The proxy's own retries ([src/internal/proxy/retry.go]): which failures are
    sent again, how long is waited, and when the loop gives up.

    The provider, the clock, the jitter, the sleep and the client's
    cancellation are what each attempt met, given as functions of the attempt's
    number.  [http.ParseTime] is a parameter. *)

From S2P Require Import Prelude GoString GoFloat GoTime.
From Stdlib Require Import Ascii String.

Open Scope string_scope.
Open Scope list_scope.
Open Scope Z_scope.

Module Retry.

Record RetrySettings := mkRetry { Attempts : Z; BaseDelay : duration; MaxDelay : duration }.

Definition DefaultRetryBaseDelay : duration := 500000000.
Definition DefaultRetryMaxDelay : duration := 30 * second.

(** [validate]: [None] is valid; [Off] is the retries being off. *)
Inductive settings_error := Off | BadDelays.

Definition validate (s : RetrySettings) : option settings_error :=
  if Attempts s <=? 0 then Some Off
  else if (BaseDelay s <=? 0) || (MaxDelay s <? BaseDelay s) then Some BadDelays
  else None.

(** [IsRetryableStatus] *)
Definition IsRetryableStatus (status : Z) : bool :=
  (status =? 429) || ((500 <=? status) && (status <=? 599)).

(** What one attempt met: a response with its Retry-After header, or a
    transport error, which [dialError] marks when nothing was sent. *)
Inductive attempt_result :=
| Response (status : Z) (retry_after : string)
| Failure (dial : bool).

(** [beforeRequestSent] and the status test. *)
Definition retryable (r : attempt_result) : bool :=
  match r with
  | Response status _ => IsRetryableStatus status
  | Failure dial => dial
  end.

(** ** How long to wait *)

(** [strconv.Atoi] *)
Fixpoint digits_value (acc : Z) (s : string) : Z :=
  match s with
  | EmptyString => acc
  | String c s' => digits_value (acc * 10 + Z.of_nat (nat_of_ascii c - 48)) s'
  end.

Definition parse_digits (s : string) : option Z :=
  if String.eqb s "" || negb (string_forallb is_digit s) then None else Some (digits_value 0 s).

Definition Atoi (s : string) : option Z :=
  n ← match s with
      | String c s' => if Ascii.eqb c "-" then Z.opp <$> parse_digits s'
                       else if Ascii.eqb c "+" then parse_digits s' else parse_digits s
      | EmptyString => None
      end;
  if decide (int64_range n) then Some n else None.

Section delay.
Context (parse_time : string -> option time).

(** [retryAfter]; the seconds are multiplied in 64 bits. *)
Definition retryAfter (value : string) (now : time) : option duration :=
  if String.eqb value "" then None
  else
    match (n ← Atoi value; if 0 <=? n then Some n else None) with
    | Some secs => Some (secs *! second)
    | None => (fun at_ => Z.max (Sub at_ now) 0) <$> parse_time value
    end.

(** [BaseDelay << attempt], in 64 bits. *)
Definition shifted (d : duration) (attempt : Z) : duration := wrap64 (Z.shiftl d attempt).

Definition backoff (s : RetrySettings) (attempt : Z) : duration :=
  let b := shifted (BaseDelay s) attempt in
  if (MaxDelay s <? b) || (b <=? 0) then MaxDelay s else b.

(** [delay]: the wait, and whether there is to be another attempt. *)
Definition delay (s : RetrySettings) (attempt : Z) (r : attempt_result) (now : time) (jitter : float64)
    : duration * bool :=
  match (match r with Response _ after => retryAfter after now | Failure _ => None end) with
  | Some after => (after, after <=? MaxDelay s)
  | None => (to_int (of_int (backoff s attempt) * jitter)%float, true)
  end.

(** ** The loop *)

Record world := mkWorld {
  w_send : Z -> attempt_result;
  w_now : Z -> time;
  w_jitter : Z -> float64;
  (** the request's context is done when the attempt came back *)
  w_gone : Z -> bool;
  (** the sleep after the attempt ran its course *)
  w_slept : Z -> bool;
  (** the body could be opened again *)
  w_body : Z -> bool
}.

Inductive outcome :=
| Answered (r : attempt_result)
| SleepError
| BodyError.

(** How the request ended, how often it was sent, the waits, and the retry
    counter. *)
Record round := mkRound { r_outcome : outcome; r_sends : Z; r_waits : list duration; r_counter : Z }.

(** From an attempt on; [fuel] is how many more attempts the settings allow
    beside this one. *)
Fixpoint round_from (s : RetrySettings) (w : world) (has_body : bool) (fuel : nat) (attempt : Z)
    (waits : list duration) (counter : Z) : round :=
  let r := w_send w attempt in
  let stop o := mkRound o (attempt + 1) waits counter in
  if negb (retryable r) || (Attempts s <=? attempt) || negb has_body then stop (Answered r)
  else
    let '(d, ok) := delay s attempt r (w_now w attempt) (w_jitter w attempt) in
    if negb ok then stop (Answered r)
    else if (match r with Failure _ => w_gone w attempt | Response _ _ => false end) then stop (Answered r)
    else
      let waits := waits ++ [d] in
      if negb (w_slept w attempt) then mkRound SleepError (attempt + 1) waits counter
      else if negb (w_body w attempt) then mkRound BodyError (attempt + 1) waits counter
      else
        match fuel with
        | O => stop (Answered r)
        | S fuel => round_from s w has_body fuel (attempt + 1) waits (counter + 1)
        end.

(** [RoundTrip] *)
Definition RoundTrip (s : RetrySettings) (w : world) (has_body : bool) : round :=
  round_from s w has_body (Z.to_nat (Attempts s)) 0 [] 0.

(** ** Lemmas *)

(** One attempt is followed by another only in these circumstances. *)
Definition resent (s : RetrySettings) (w : world) (has_body : bool) (i : Z) (wait : duration) : Prop :=
  retryable (w_send w i) = true /\ i < Attempts s /\ has_body = true /\
  delay s i (w_send w i) (w_now w i) (w_jitter w i) = (wait, true) /\
  (forall dial, w_send w i = Failure dial -> w_gone w i = false).

(** Why the loop answers with a failure it could have sent again. *)
Definition gave_up (s : RetrySettings) (w : world) (has_body : bool) (i : Z) : Prop :=
  Attempts s <= i \/ has_body = false \/
  (delay s i (w_send w i) (w_now w i) (w_jitter w i)).2 = false \/
  (exists dial, w_send w i = Failure dial /\ w_gone w i = true).

Record round_ok (s : RetrySettings) (w : world) (has_body : bool) (attempt : Z) (waits : list duration)
    (counter : Z) (r : round) : Prop := {
  ro_last : attempt < r_sends r;
  ro_bound : r_sends r <= Z.max (Attempts s) attempt + 1;
  ro_resent : forall i, attempt <= i < r_sends r - 1 ->
    exists d, resent s w has_body i d /\ w_slept w i = true /\ w_body w i = true /\
              r_waits r !! (Z.to_nat (i - attempt) + List.length waits)%nat = Some d;
  ro_counter : r_counter r = counter + (r_sends r - 1 - attempt);
  ro_prefix : exists more, r_waits r = waits ++ more;
  ro_outcome :
    match r_outcome r with
    | Answered a => a = w_send w (r_sends r - 1) /\
                    (retryable a = true -> gave_up s w has_body (r_sends r - 1))
    | SleepError | BodyError => retryable (w_send w (r_sends r - 1)) = true
    end
}.

Lemma round_from_ok s w hb : forall fuel attempt waits counter,
  (attempt <= Attempts s -> Attempts s - attempt <= Z.of_nat fuel) ->
  round_ok s w hb attempt waits counter (round_from s w hb fuel attempt waits counter).
Proof.
  assert (forall attempt waits counter o more,
    (match o with
     | Answered a => a = w_send w attempt /\ (retryable a = true -> gave_up s w hb attempt)
     | SleepError | BodyError => retryable (w_send w attempt) = true
     end) ->
    round_ok s w hb attempt waits counter (mkRound o (attempt + 1) (waits ++ more) counter)) as Hstop.
  { intros attempt waits counter o more Ho. split; cbn [r_sends r_waits r_counter r_outcome]; try lia.
    - by exists more.
    - by replace (attempt + 1 - 1) with attempt by lia. }
  assert (forall attempt waits counter o,
    (match o with
     | Answered a => a = w_send w attempt /\ (retryable a = true -> gave_up s w hb attempt)
     | SleepError | BodyError => retryable (w_send w attempt) = true
     end) ->
    round_ok s w hb attempt waits counter (mkRound o (attempt + 1) waits counter)) as Hstop0.
  { intros attempt waits counter o Ho. pose proof (Hstop attempt waits counter o [] Ho) as H.
    by rewrite app_nil_r in H. }
  induction fuel as [|fuel IH]; intros attempt waits counter Hfuel; cbn [round_from];
    destruct (retryable (w_send w attempt)) eqn:Hr; cbn [negb orb];
    try (apply Hstop0; split; [done | by rewrite Hr]);
    (destruct (Attempts s <=? attempt) eqn:Ha; reflect_bool; cbn [orb];
      [apply Hstop0; split; [done |]; intros _; by left |]);
    (destruct hb; cbn [negb];
      [| apply Hstop0; split; [done |]; intros _; right; by left]);
    (destruct (delay s attempt (w_send w attempt) (w_now w attempt) (w_jitter w attempt)) as [d ok] eqn:Hd;
     destruct ok; cbn [negb];
      [| apply Hstop0; split; [done |]; intros _; right; right; left; by rewrite Hd]);
    (destruct (match w_send w attempt with Failure _ => w_gone w attempt | Response _ _ => false end) eqn:Hg;
      [apply Hstop0; split; [done |]; intros _; right; right; right;
       destruct (w_send w attempt) as [|dial]; [done | by exists dial] |]);
    (destruct (w_slept w attempt) eqn:Hsl; cbn [negb]; [| by apply Hstop]);
    (destruct (w_body w attempt) eqn:Hbo; cbn [negb]; [| by apply Hstop]).
  - exfalso. lia.
  - destruct (IH (attempt + 1) (waits ++ [d]) (counter + 1)) as [H1 H2 H3 H4 H5 H6]; [lia |].
    split; [lia | lia | | lia | | exact H6].
    + intros i Hi. destruct (decide (i = attempt)) as [->|Hne].
      * exists d. split_and!; [| done | done |].
        -- split_and!; [done | done | done | done |]. intros dial Hf. by rewrite Hf in Hg.
        -- destruct H5 as [more ->]. rewrite Z.sub_diag, <- app_assoc. cbn [Z.to_nat Nat.add].
           rewrite lookup_app_r, Nat.sub_diag by lia. done.
      * destruct (H3 i) as (d' & Hre & Hs & Hb & Hl); [lia |]. exists d'. split_and!; [done | done | done |].
        rewrite <- Hl. f_equal. rewrite length_app. cbn. lia.
    + destruct H5 as [more ->]. exists ([d] ++ more). by rewrite app_assoc.
Qed.

(** Whatever the attempt, the backoff is positive and at most the ceiling,
    shifts that overflow included; while it fits it is the base doubled. *)
Lemma backoff_bounds s attempt :
  0 < MaxDelay s -> 0 <= attempt ->
  0 < backoff s attempt <= MaxDelay s /\
  (0 < BaseDelay s -> BaseDelay s * 2 ^ attempt <= MaxDelay s <= max_int64 ->
   backoff s attempt = BaseDelay s * 2 ^ attempt).
Proof.
  intros Hm Ha. unfold backoff. split.
  - destruct (_ || _) eqn:E; [lia |]. reflect_bool. lia.
  - intros Hb Hle. unfold shifted. rewrite Z.shiftl_mul_pow2 by done.
    assert (0 < 2 ^ attempt) as Hp by (apply Z.pow_pos_nonneg; lia).
    rewrite wrap64_small by (unfold_int; nia).
    assert ((MaxDelay s <? BaseDelay s * 2 ^ attempt) = false) as -> by (apply Z.ltb_ge; lia).
    assert ((BaseDelay s * 2 ^ attempt <=? 0) = false) as -> by (apply Z.leb_gt; nia). done.
Qed.

(** The seconds a Retry-After names, when it names seconds. *)
Definition named_seconds (after : string) : option Z :=
  if String.eqb after "" then None else n ← Atoi after; if 0 <=? n then Some n else None.

Lemma retryAfter_seconds after now n :
  named_seconds after = Some n -> n * second <= max_int64 -> retryAfter after now = Some (n * second).
Proof.
  unfold named_seconds, retryAfter. destruct (String.eqb after ""); [done |]. intros Hs Hn. rewrite Hs. f_equal.
  unfold imul. apply wrap64_small. destruct (Atoi after) as [k|]; [cbn in Hs | done].
  destruct (Z.leb_spec 0 k); [| done]. injection Hs as ->. unfold_int. assert (0 < second) by reflexivity. nia.
Qed.

(** C20: a request is sent again only after a failure that may be.  It is sent
    at least once and at most [Attempts] times more, and the counter tells how
    often; it is sent again only after status 429, a 5xx, or a connection that
    was never made, with its body opened anew.  The wait before is what the
    provider's Retry-After came to, which is at most the ceiling, or the base
    doubled for each attempt up to the ceiling, times the jitter.  After a
    Retry-After of seconds that 64 bits of nanoseconds can hold, the wait is
    exactly those seconds, and none beyond the ceiling is waited for.  The
    answer is the last attempt's own, and when that could have been sent again
    it is because the attempts were used up, the body cannot be sent twice, the
    Retry-After is beyond the ceiling, or the client is gone. *)
Theorem RoundTrip_resends_only_retryable_failures :
  forall s w has_body,
    0 <= Attempts s -> 0 < MaxDelay s ->
    let r := RoundTrip s w has_body in
    1 <= r_sends r <= Attempts s + 1 /\ r_counter r = r_sends r - 1 /\
    (forall i, 0 <= i < r_sends r - 1 ->
       has_body = true /\
       (w_send w i = Failure true \/
        exists status after, w_send w i = Response status after /\ (status = 429 \/ 500 <= status <= 599)) /\
       exists d, r_waits r !! Z.to_nat i = Some d /\
         ((exists status after, w_send w i = Response status after /\
             retryAfter after (w_now w i) = Some d /\ d <= MaxDelay s /\
             (forall n, named_seconds after = Some n -> n * second <= max_int64 -> d = n * second)) \/
          (d = to_int (of_int (backoff s i) * w_jitter w i)%float /\ 0 < backoff s i <= MaxDelay s /\
             (0 < BaseDelay s -> BaseDelay s * 2 ^ i <= MaxDelay s <= max_int64 -> backoff s i = BaseDelay s * 2 ^ i)))) /\
    (forall a, r_outcome r = Answered a ->
       a = w_send w (r_sends r - 1) /\ (retryable a = true -> gave_up s w has_body (r_sends r - 1))).
Proof.
  intros s w has_body Ha Hm. cbv zeta.
  destruct (round_from_ok s w has_body (Z.to_nat (Attempts s)) 0 [] 0) as [H1 H2 H3 H4 H5 H6]; [lia |].
  fold (RoundTrip s w has_body) in *. split_and!; [lia | lia | lia | | intros a E; by rewrite E in H6].
  intros i Hi. destruct (H3 i Hi) as (d & (Hr & _ & Hb & Hd & _) & _ & _ & Hl).
  rewrite Z.sub_0_r, Nat.add_0_r in Hl.
  assert (d = to_int (of_int (backoff s i) * w_jitter w i)%float -> d = to_int (of_int (backoff s i) * w_jitter w i)%float /\
    0 < backoff s i <= MaxDelay s /\
    (0 < BaseDelay s -> BaseDelay s * 2 ^ i <= MaxDelay s <= max_int64 -> backoff s i = BaseDelay s * 2 ^ i)) as Hback
    by (intros E; split; [exact E | by apply backoff_bounds; lia]).
  split_and!; [done | |].
  - destruct (w_send w i) as [status after|dial]; cbn in Hr; [right | left; by subst dial].
    exists status, after. split; [done |]. unfold IsRetryableStatus in Hr.
    apply orb_true_iff in Hr as [Hr|Hr]; reflect_bool; [by left | right; lia].
  - exists d. split; [done |]. unfold delay in Hd.
    destruct (w_send w i) as [status after|dial]; cbn in Hd.
    + destruct (retryAfter after (w_now w i)) as [d'|] eqn:E.
      * left. injection Hd as <- Hle. reflect_bool. exists status, after. split_and!; try done.
        intros n Hn Hfit. rewrite (retryAfter_seconds _ _ _ Hn Hfit) in E. by injection E.
      * right. injection Hd as <-. by apply Hback.
    + right. injection Hd as <-. by apply Hback.
Qed.

(** The seconds of a Retry-After are multiplied in 64 bits: one far beyond the
    ceiling can come out negative, fit under it, and be retried at once. *)
Lemma retryAfter_overflows s attempt now jitter :
  0 < MaxDelay s -> exists d, d < 0 /\ delay s attempt (Response 429 "10000000000") now jitter = (d, true).
Proof.
  intros Hm. exists (-8446744073709551616). split; [done |]. unfold delay.
  assert (retryAfter "10000000000" now = Some (-8446744073709551616)) as -> by reflexivity.
  f_equal. apply Z.leb_le. lia.
Qed.

End delay.

(** The provider refuses the connection, then is overloaded, then answers. *)
Definition test_settings : RetrySettings := mkRetry 3 DefaultRetryBaseDelay DefaultRetryMaxDelay.

Definition test_world : world :=
  mkWorld (fun i => if i =? 0 then Failure true else if i =? 1 then Response 529 "2" else Response 200 "")
    (fun _ => 0) (fun _ => of_int 1) (fun _ => false) (fun _ => true) (fun _ => true).

Lemma RoundTrip_resends_only_retryable_failures_witness :
  let r := RoundTrip (fun _ => None) test_settings test_world true in
  r = mkRound (Answered (Response 200 "")) 3 [500000000; 2000000000] 2 /\
  1 <= r_sends r <= Attempts test_settings + 1.
Proof.
  split; [vm_compute; reflexivity |].
  refine (proj1 (RoundTrip_resends_only_retryable_failures (fun _ => None) test_settings test_world true _ _));
    vm_compute; [discriminate | reflexivity].
Defined.

End Retry.
