(* ===== verification/Labels.v ===== *)
(** Labels that are safe to print ([SanitizeLabel] and [TruncateLabel] of
    [src/internal/transcript/wire.go]), over UTF-8 byte strings. *)

From S2P Require Import Prelude GoString Json.
From Stdlib Require Import Ascii String.

Open Scope string_scope.
Open Scope list_scope.
Open Scope nat_scope.

Module Labels.
Import Json.

#[local] Abbreviation length := List.length.

(** One step of Go's [range] over a string: the rune and its width. *)
Definition next_rune (l : bytes) : N * nat :=
  match l with
  | [] => (65533%N, 1)
  | c :: _ => if (N_of_ascii c <? 128)%N then (N_of_ascii c, 1) else decode_rune l
  end.

(** [strings.Map(f, s)] for an [f] that never drops a rune; [fuel] is the
    length of the string. *)
Fixpoint map_runes (f : N -> N) (fuel : nat) (l : bytes) : bytes :=
  match fuel with
  | O => []
  | S fuel =>
      match l with
      | [] => []
      | _ => let '(r, w) := next_rune l in encode_rune (f r) ++ map_runes f fuel (drop w l)
      end
  end.

Definition is_control (r : N) : bool := ((r <? 32) || (r =? 127))%N || in_range 128 159 r.

Definition sanitize_rune (r : N) : N := if is_control r then 32%N else r.

Definition sanitize (l : bytes) : bytes := map_runes sanitize_rune (length l) l.

Definition SanitizeLabel (s : string) : string := to_string (sanitize (of_string s)).

(** The byte offsets at which the runes of a string start. *)
Fixpoint rune_starts (fuel : nat) (i : nat) (l : bytes) : list nat :=
  match fuel with
  | O => []
  | S fuel => match l with
              | [] => []
              | _ => i :: rune_starts fuel (i + (next_rune l).2) (drop (next_rune l).2 l)
              end
  end.

Definition ellipsis : bytes := [byte 226; byte 128; byte 166].

Definition TruncateLabel (s : string) (n : nat) : string :=
  let l := of_string s in
  match n with
  | O => s
  | S m => let starts := rune_starts (length l) 0 l in
           if n <? length starts then to_string (take (nth m starts 0) l ++ ellipsis) else s
  end.

(** ** [bytes.TrimSpace], with Unicode's white space *)

(** A text as its runes, each with the bytes it stands in. *)
Fixpoint runes (fuel : nat) (l : bytes) : list (N * bytes) :=
  match fuel with
  | O => []
  | S fuel => match l with
              | [] => []
              | _ => let '(r, w) := next_rune l in (r, take w l) :: runes fuel (drop w l)
              end
  end.

(** [unicode.IsSpace] *)
Definition unicode_space (r : N) : bool :=
  in_range 9 13 r || in_range 8192 8202 r
  || existsb (N.eqb r) [32; 133; 160; 5760; 8232; 8233; 8239; 8287; 12288]%N.

Fixpoint drop_spaces (l : list (N * bytes)) : list (N * bytes) :=
  match l with
  | (r, _) :: l' => if unicode_space r then drop_spaces l' else l
  | [] => []
  end.

Definition TrimSpace (s : string) : string :=
  let l := of_string s in
  to_string (List.concat (List.map snd (rev (drop_spaces (rev (drop_spaces (runes (length l) l))))))).

(** ** What comes out *)

Lemma next_rune_width l : 1 <= (next_rune l).2 <= 4.
Proof.
  unfold next_rune, decode_rune. destruct l as [|c0 l]; [cbn; lia |].
  repeat (case_match; cbn [fst snd]; try lia).
Qed.

(** A printable ASCII text is left as it is. *)
Lemma sanitize_ascii l :
  Forall (fun c => (32 <=? N_of_ascii c)%N = true /\ (N_of_ascii c <? 127)%N = true) l -> sanitize l = l.
Proof.
  unfold sanitize. induction 1 as [|c l [Hlo Hhi] _ IH]; [done |]. cbn [length map_runes].
  apply N.leb_le in Hlo. apply N.ltb_lt in Hhi.
  unfold next_rune. replace (N_of_ascii c <? 128)%N with true by (symmetry; apply N.ltb_lt; lia).
  assert (sanitize_rune (N_of_ascii c) = N_of_ascii c) as ->.
  { unfold sanitize_rune, is_control, in_range.
    replace (N_of_ascii c <? 32)%N with false by (symmetry; apply N.ltb_ge; lia).
    replace (N_of_ascii c =? 127)%N with false by (symmetry; apply N.eqb_neq; lia).
    by replace (128 <=? N_of_ascii c)%N with false by (symmetry; apply N.leb_gt; lia). }
  unfold encode_rune. replace (N_of_ascii c <? 128)%N with true by (symmetry; apply N.ltb_lt; lia).
  unfold byte. rewrite ascii_N_embedding. cbn [app skipn]. rewrite drop_0. by rewrite IH.
Qed.

(** A terminal never gets an escape, a carriage return or any other C0
    control byte out of a label, nor DEL. *)
Lemma sanitize_no_control l :
  Forall (fun c => (32 <=? N_of_ascii c)%N = true /\ (N_of_ascii c =? 127)%N = false) (sanitize l).
Proof.
  unfold sanitize. generalize (length l) as fuel. intros fuel. revert l.
  induction fuel as [|fuel IH]; intros l; [constructor |]. cbn [map_runes].
  destruct l as [|c l]; [constructor |]. destruct (next_rune (c :: l)) as [r w].
  apply Forall_app. split; [| apply IH].
  assert (forall k n m, (n < m)%N -> (128 <= k)%N -> (k + m <= 256)%N ->
    (32 <=? N_of_ascii (byte (k + n)))%N = true /\ (N_of_ascii (byte (k + n)) =? 127)%N = false) as Hb.
  { intros k n m Hn Hk Hm'. unfold byte. rewrite N_ascii_embedding by lia.
    split; [apply N.leb_le | apply N.eqb_neq]; lia. }
  assert (forall n, (n mod 64 < 64)%N) as Hm by (intros; apply N.mod_lt; lia).
  assert (forall r, (r < 65536)%N -> (r / 4096 < 16)%N) as Hd3.
  { intros x Hx. apply N.Div0.div_lt_upper_bound; lia. }
  unfold encode_rune.
  destruct ((sanitize_rune r) <? 128)%N eqn:E1.
  { apply N.ltb_lt in E1. constructor; [| constructor]. unfold byte.
    rewrite N_ascii_embedding by lia. revert E1. unfold sanitize_rune.
    destruct (is_control r) eqn:Ec; [done |]. intros _. unfold is_control in Ec.
    apply orb_false_iff in Ec as [Ec _]. apply orb_false_iff in Ec as [Ha Hb'].
    split; [| done]. apply N.leb_le. apply N.ltb_ge in Ha. lia. }
  apply N.ltb_ge in E1.
  destruct ((sanitize_rune r) <? 2048)%N eqn:E2.
  { apply N.ltb_lt in E2. repeat apply List.Forall_cons; try apply List.Forall_nil.
    - apply (Hb _ _ 32%N); [apply N.Div0.div_lt_upper_bound; lia | done | done].
    - by apply (Hb _ _ 64%N). }
  destruct (in_range 55296 57343 (sanitize_rune r) || _)%N eqn:E3.
  { repeat apply List.Forall_cons; try apply List.Forall_nil; by split. }
  apply orb_false_iff in E3 as [_ E3]. apply N.ltb_ge in E3.
  destruct ((sanitize_rune r) <? 65536)%N eqn:E4.
  { apply N.ltb_lt in E4. repeat apply List.Forall_cons; try apply List.Forall_nil.
    - apply (Hb _ _ 16%N); [by apply Hd3 | done | done].
    - by apply (Hb _ _ 64%N).
    - by apply (Hb _ _ 64%N). }
  repeat apply List.Forall_cons; try apply List.Forall_nil.
  - apply (Hb _ _ 16%N); [apply N.Div0.div_lt_upper_bound; lia | done | done].
  - by apply (Hb _ _ 64%N).
  - by apply (Hb _ _ 64%N).
  - by apply (Hb _ _ 64%N).
Qed.

End Labels.
