(* ===== verification/Blocks.v ===== *)
(** Content blocks as the wire carries them, and as the analyses see them
    ([src/internal/transcript/wire.go], but for the measure, which is [Wire]).

    [sha256hex] is the digest of the standard library in hexadecimal. *)

From S2P Require Import Prelude GoString Json Wire JsonValue Labels Transcript.
From Stdlib Require Import Ascii String.

Open Scope string_scope.
Open Scope list_scope.
Open Scope Z_scope.

Module Blocks.
Import Json RawJson Labels Transcript.

#[local] Abbreviation length := List.length.

(** ** The wire shapes *)

Record RawBlock := mkRaw {
  rb_Type : string;
  rb_Text : string;
  rb_Thinking : string;
  rb_ID : string;
  rb_Name : string;
  rb_Input : bytes;
  rb_ToolUseID : string;
  rb_Content : bytes;
  rb_Source : Z;
  rb_IsError : bool;
  rb_CacheControl : bytes
}.

Definition zero_block : RawBlock := mkRaw "" "" "" "" "" [] "" [] 0 false [].

(** [(m *MeasuredBytes) UnmarshalJSON] *)
Definition MeasuredBytes_UnmarshalJSON : decoded Z := fun data _ => Some (Wire.ContentBytes data).

Definition block_tags : list string :=
  ["type"; "text"; "thinking"; "id"; "name"; "input"; "tool_use_id"; "content"; "source"; "is_error"; "cache_control"].

Definition set_block (tag : string) : decoded RawBlock := fun raw b =>
  let 'mkRaw ty tx th id nm inp tu ct src ie cc := b in
  if String.eqb tag "type" then (fun x => mkRaw x tx th id nm inp tu ct src ie cc) <$> into_string raw ty
  else if String.eqb tag "text" then (fun x => mkRaw ty x th id nm inp tu ct src ie cc) <$> into_string raw tx
  else if String.eqb tag "thinking" then (fun x => mkRaw ty tx x id nm inp tu ct src ie cc) <$> into_string raw th
  else if String.eqb tag "id" then (fun x => mkRaw ty tx th x nm inp tu ct src ie cc) <$> into_string raw id
  else if String.eqb tag "name" then (fun x => mkRaw ty tx th id x inp tu ct src ie cc) <$> into_string raw nm
  else if String.eqb tag "input" then (fun x => mkRaw ty tx th id nm x tu ct src ie cc) <$> into_raw raw inp
  else if String.eqb tag "tool_use_id" then (fun x => mkRaw ty tx th id nm inp x ct src ie cc) <$> into_string raw tu
  else if String.eqb tag "content" then (fun x => mkRaw ty tx th id nm inp tu x src ie cc) <$> into_raw raw ct
  else if String.eqb tag "source" then (fun x => mkRaw ty tx th id nm inp tu ct x ie cc) <$> MeasuredBytes_UnmarshalJSON raw src
  else if String.eqb tag "is_error" then (fun x => mkRaw ty tx th id nm inp tu ct src x cc) <$> into_bool raw ie
  else (fun x => mkRaw ty tx th id nm inp tu ct src ie x) <$> into_raw raw cc.

Definition into_block : decoded RawBlock := into_struct block_tags set_block.

Record OutputDetails := mkDetails { od_Thinking : Z }.
Record CacheBreak := mkCacheBreak { cb_Short : Z; cb_Long : Z }.

Record WireUsage := mkWireUsage {
  wu_Input : Z;
  wu_CacheCreation : Z;
  wu_CacheRead : Z;
  wu_Output : Z;
  wu_OutputDetails : option OutputDetails;
  wu_CacheBreak : option CacheBreak
}.

Definition zero_usage : WireUsage := mkWireUsage 0 0 0 0 None None.

Definition into_details : decoded OutputDetails :=
  into_struct ["thinking_tokens"] (fun _ => field od_Thinking (fun _ => mkDetails) into_int).

Definition into_break : decoded CacheBreak :=
  into_struct ["ephemeral_5m_input_tokens"; "ephemeral_1h_input_tokens"] (fun tag =>
    if String.eqb tag "ephemeral_5m_input_tokens"
    then field cb_Short (fun b x => mkCacheBreak x (cb_Long b)) into_int
    else field cb_Long (fun b x => mkCacheBreak (cb_Short b) x) into_int).

Definition into_usage : decoded WireUsage :=
  into_struct ["input_tokens"; "cache_creation_input_tokens"; "cache_read_input_tokens"; "output_tokens";
               "output_tokens_details"; "cache_creation"] (fun tag raw u =>
    let 'mkWireUsage i c r o d b := u in
    if String.eqb tag "input_tokens" then (fun x => mkWireUsage x c r o d b) <$> into_int raw i
    else if String.eqb tag "cache_creation_input_tokens" then (fun x => mkWireUsage i x r o d b) <$> into_int raw c
    else if String.eqb tag "cache_read_input_tokens" then (fun x => mkWireUsage i c x o d b) <$> into_int raw r
    else if String.eqb tag "output_tokens" then (fun x => mkWireUsage i c r x d b) <$> into_int raw o
    else if String.eqb tag "output_tokens_details"
    then (fun x => mkWireUsage i c r o x b) <$> into_pointer (mkDetails 0) into_details raw d
    else (fun x => mkWireUsage i c r o d x) <$> into_pointer (mkCacheBreak 0 0) into_break raw b).

(** [(u *WireUsage) Usage()] *)
Definition WireUsage_Usage (u : option WireUsage) : Usage :=
  match u with
  | None => mkUsage 0 0 0 0 0 0 0 false
  | Some u =>
      let thinking := match wu_OutputDetails u with Some d => od_Thinking d | None => 0 end in
      match wu_CacheBreak u with
      | Some b => mkUsage (wu_Input u) (wu_CacheCreation u) (wu_CacheRead u) (wu_Output u) thinking
                    (cb_Short b) (cb_Long b) true
      | None => mkUsage (wu_Input u) (wu_CacheCreation u) (wu_CacheRead u) (wu_Output u) thinking 0 0 false
      end
  end.

(** [RawMessage] *)
Record WireMessage := mkWireMessage {
  wm_Role : string;
  wm_ID : string;
  wm_Model : string;
  wm_Content : bytes;
  wm_Usage : option WireUsage
}.

Definition zero_message : WireMessage := mkWireMessage "" "" "" [] None.

Definition into_message : decoded WireMessage :=
  into_struct ["role"; "id"; "model"; "content"; "usage"] (fun tag raw m =>
    let 'mkWireMessage ro id mo co us := m in
    if String.eqb tag "role" then (fun x => mkWireMessage x id mo co us) <$> into_string raw ro
    else if String.eqb tag "id" then (fun x => mkWireMessage ro x mo co us) <$> into_string raw id
    else if String.eqb tag "model" then (fun x => mkWireMessage ro id x co us) <$> into_string raw mo
    else if String.eqb tag "content" then (fun x => mkWireMessage ro id mo x us) <$> into_raw raw co
    else (fun x => mkWireMessage ro id mo co x) <$> into_pointer zero_usage into_usage raw us).

(** ** Content *)

(** What [DecodeContent] hands back without an error: the text of a string, or
    a block list, empty when there is no content. *)
Inductive content := IsText (text : string) | IsBlocks (blocks : list RawBlock).

Definition DecodeContent (raw : bytes) : option content :=
  let trimmed := of_string (TrimSpace (to_string raw)) in
  match trimmed with
  | [] => Some (IsBlocks [])
  | c :: _ =>
      if Ascii.eqb c "n" then Some (IsBlocks [])
      else if Ascii.eqb c quote then IsText <$> into_string trimmed ""
      else IsBlocks <$> into_list zero_block into_block trimmed []
  end.

Definition toolResultText (raw : bytes) : string :=
  match DecodeContent raw with
  | None => ""
  | Some (IsText text) => text
  | Some (IsBlocks [p]) => rb_Text p
  | Some (IsBlocks parts) => fold_left (fun sb p => (sb ++ rb_Text p)%string) parts ""
  end.

(** ** Labels *)

Definition LabelArgs : list string := ["file_path"; "path"; "pattern"; "command"; "url"; "query"].
Definition PathArgs : list string := ["file_path"; "path"].

(** [labelValues], by the name of the argument. *)
Definition labelValues : Type := string -> string.

Definition into_labelValues : decoded labelValues :=
  into_struct LabelArgs (fun tag raw v =>
    (fun x arg => if String.eqb arg tag then x else v arg) <$> into_string raw (v tag)).

Definition LabelArg (input : bytes) (args : list string) : option (string * string) :=
  v ← into_labelValues input (fun _ => "");
  a ← find_first (fun a => negb (String.eqb (v a) "")) args;
  Some (a, v a).

Definition labelMaxLen : nat := 400.

Definition ToolLabel (name : string) (input : bytes) : string :=
  match LabelArg input LabelArgs with
  | Some (_, v) => (name ++ " " ++ TruncateLabel (SanitizeLabel v) labelMaxLen)%string
  | None => name
  end.

Definition SafeExtension (ext : string) : bool :=
  (2 <=? len ext) && (len ext <=? 8) &&
  match ext with
  | String c rest => Ascii.eqb c "." && string_forallb (fun r => is_lower r || is_digit r) rest
  | EmptyString => false
  end.

(** [path.Ext]: from the last dot after the last slash. *)
Fixpoint path_Ext (s : string) : string :=
  match s with
  | EmptyString => ""
  | String c s' =>
      let rest := path_Ext s' in
      if negb (String.eqb rest "") then rest
      else if Ascii.eqb c "." && string_forallb (fun c => negb (Ascii.eqb c "/") && negb (Ascii.eqb c ".")) s' then s
      else ""
  end.

Definition HashedLabelBytes : nat := 12.

(** [HashedPathLabel]; [None] is the panic of a digest shorter than the cut. *)
Definition HashedPathLabel (hexDigest original : string) : option string :=
  if (String.length hexDigest <? HashedLabelBytes)%nat then None
  else let ext := path_Ext original in
       Some ("r/" ++ substring 0 HashedLabelBytes hexDigest ++ (if SafeExtension ext then ext else ""))%string.

(** ** Blocks *)

Definition LabelAssistantThinking : string := "assistant thinking".
Definition LabelToolCallPrefix : string := "tool call: ".
Definition LabelToolResultPrefix : string := "tool result: ".
Definition LabelUnknownTool : string := "unknown tool".
Definition LabelOtherPrefix : string := "other: ".

(** A map of tool names that may be nil. *)
Abbreviation tool_names := (option (gmap string string)).

Section hash.
Context (sha256hex : string -> string).

Definition CallKey (name : string) (input : bytes) : string :=
  substring 0 16 (sha256hex (name ++ String "000"%char (to_string input))%string).

(** The name a call is entered under, when there is a map to enter it in and
    it is not there yet. *)
Definition note_call (label : option (string -> bytes -> string)) (rb : RawBlock) (names : tool_names) : tool_names :=
  match names with
  | None => None
  | Some m =>
      if String.eqb (rb_ID rb) "" then Some m
      else match m !! rb_ID rb with
           | Some _ => Some m
           | None => Some (<[rb_ID rb := match label with Some f => f (rb_Name rb) (rb_Input rb) | None => rb_Name rb end]> m)
           end
  end.

Definition DecodeBlock (rb : RawBlock) (role : string) (names : tool_names)
    (label : option (string -> bytes -> string)) : Block * tool_names :=
  if String.eqb (rb_Type rb) KindText then
    (mkBlock KindText (TextLabel role) (len (rb_Text rb)) (rb_Text rb) "" "" "" false None, names)
  else if String.eqb (rb_Type rb) KindThinking then
    (mkBlock KindThinking LabelAssistantThinking (len (rb_Thinking rb)) (rb_Thinking rb) "" "" "" false None, names)
  else if String.eqb (rb_Type rb) KindToolUse then
    (mkBlock KindToolUse (LabelToolCallPrefix ++ rb_Name rb) (len (rb_Name rb) +! Wire.ContentBytes (rb_Input rb))
       (to_string (rb_Input rb)) (rb_ID rb) (rb_Name rb) (CallKey (rb_Name rb) (rb_Input rb)) false None,
     note_call label rb names)
  else if String.eqb (rb_Type rb) KindToolResult then
    let text := toolResultText (rb_Content rb) in
    let found := default "" (m ← names; m !! rb_ToolUseID rb) in
    let name := if String.eqb found "" then LabelUnknownTool else found in
    (mkBlock KindToolResult (LabelToolResultPrefix ++ name) (len text) text (rb_ToolUseID rb) name "" (rb_IsError rb) None,
     names)
  else if String.eqb (rb_Type rb) KindImage || String.eqb (rb_Type rb) KindDocument then
    (mkBlock (rb_Type rb) (rb_Type rb) (Wire.ContentBytes (rb_Content rb) +! rb_Source rb) "" "" "" "" false None, names)
  else
    (mkBlock KindOther (LabelOtherPrefix ++ rb_Type rb) (Wire.ContentBytes (rb_Content rb) +! len (rb_Text rb))
       "" "" "" "" false None, names).

Fixpoint DecodeBlocks (raws : list RawBlock) (role : string) (names : tool_names)
    (label : option (string -> bytes -> string)) : list Block * tool_names :=
  match raws with
  | [] => ([], names)
  | rb :: raws =>
      let '(b, names) := DecodeBlock rb role names label in
      let '(bs, names) := DecodeBlocks raws role names label in
      (b :: bs, names)
  end.

End hash.

End Blocks.
