(* ===== verification/Evidence.v ===== *)
(** The error flag of a tool result, read from the raw bytes before decoding
    collapses a key given twice ([src/internal/transcript/evidence.go]).

    The scanner's position is the suffix it stands at; past the end it reads
    the byte zero, as [peek] does, and the suffix stays empty. *)

From S2P Require Import Prelude GoString Json Wire JsonValue Transcript Blocks.
From Stdlib Require Import Ascii String.

Open Scope string_scope.
Open Scope list_scope.
Open Scope Z_scope.

Module Evidence.
Import Json RawJson Transcript Blocks.

#[local] Abbreviation length := List.length.

Definition peek (l : bytes) : ascii := default zero (head l).

Definition at_byte (c : ascii) (l : bytes) : bool := Ascii.eqb (peek l) c.

(** [expect]: what is left when the byte is there. *)
Definition expect (c : ascii) (l : bytes) : option bytes := if at_byte c l then Some (tail l) else None.

Definition skipWS : bytes -> bytes := Wire.skipJSONSpace.

Fixpoint close_quote (fuel : nat) (l : bytes) : option bytes :=
  match fuel, l with
  | S fuel, c :: l' =>
      if Ascii.eqb c quote then Some l'
      else if Ascii.eqb c backslash then close_quote fuel (tail l')
      else close_quote fuel l'
  | _, _ => None
  end.

(** [readString]: the decoded literal and what follows it; a literal that does
    not close leaves nothing. *)
Definition readString (l : bytes) : option string * bytes :=
  match l with
  | c :: l' =>
      if Ascii.eqb c quote then
        match close_quote (length l) l' with
        | None => (None, [])
        | Some rest => (into_string (take (length l - length rest) l) "", rest)
        end
      else (None, l)
  | [] => (None, l)
  end.

Definition readBool (l : bytes) : option (bool * bytes) :=
  if is_prefix (of_string "true") l then Some (true, drop 4 l)
  else if is_prefix (of_string "false") l then Some (false, drop 5 l)
  else None.

(** A number, [true], [false] or [null]: up to the next delimiter. *)
Fixpoint skip_scalar (l : bytes) : bytes :=
  match l with
  | c :: l' => if Ascii.eqb c "," || Ascii.eqb c "}" || Ascii.eqb c "]" || is_json_space c then l else skip_scalar l'
  | [] => []
  end.

(** The loops of [skipObject] and [skipArray], over [value] for [skipValue]. *)
Fixpoint skipValue (fuel : nat) (l : bytes) : bytes :=
  match fuel with
  | O => l
  | S fuel =>
      let l := skipWS l in
      match l with
      | [] => []
      | c :: l' =>
          if Ascii.eqb c quote then (readString l).2
          else if Ascii.eqb c "{" then
            let l := skipWS l' in
            match expect "}" l with Some l => l | None => skip_members fuel l end
          else if Ascii.eqb c "[" then
            let l := skipWS l' in
            match expect "]" l with Some l => l | None => skip_elements fuel l end
          else skip_scalar l
      end
  end
with skip_members (fuel : nat) (l : bytes) : bytes :=
  match fuel with
  | O => l
  | S fuel =>
      let l := skipWS (skipValue fuel (tail (skipWS (readString (skipWS l)).2))) in
      match expect "," l with
      | Some l => skip_members fuel l
      | None => default l (expect "}" l)
      end
  end
with skip_elements (fuel : nat) (l : bytes) : bytes :=
  match fuel with
  | O => l
  | S fuel =>
      let l := skipWS (skipValue fuel l) in
      match expect "," l with
      | Some l => skip_elements fuel l
      | None => default l (expect "]" l)
      end
  end.

(** Two turns for a byte are enough: a container's own and its loop's. *)
Definition skip_value (l : bytes) : bytes := skipValue (S (2 * length l)) l.

(** ** One tool result *)

Record saw := mkSaw { sawBool : bool; boolVal : bool; conflict : bool; nonBool : bool }.

Definition saw_nothing : saw := mkSaw false false false false.

Definition saw_bool (s : saw) (b : bool) : saw :=
  if negb (sawBool s) then mkSaw true b (conflict s) (nonBool s)
  else if negb (Bool.eqb b (boolVal s)) then mkSaw (sawBool s) (boolVal s) true (nonBool s) else s.

Definition saw_other (s : saw) : saw := mkSaw (sawBool s) (boolVal s) (conflict s) true.

Definition flagValue (s : saw) : ErrorFlag :=
  if negb (sawBool s) && negb (nonBool s) then ErrorFlagAbsent
  else if nonBool s then if sawBool s || conflict s then ErrorFlagConflict else ErrorFlagNonBoolean
  else if conflict s then ErrorFlagConflict
  else if boolVal s then ErrorFlagTrue else ErrorFlagFalse.

Definition is_error_key : string := "is_error".

(** The value behind a key: what it adds to what was seen, and the rest. *)
Definition member_value (key : string) (s : saw) (l : bytes) : option (saw * bytes) :=
  if String.eqb key is_error_key then
    if at_byte "t" l || at_byte "f" l then
      match readBool l with None => None | Some (b, l) => Some (saw_bool s b, l) end
    else Some (saw_other s, skip_value l)
  else Some (s, skip_value l).

Fixpoint result_loop (fuel : nat) (s : saw) (l : bytes) : option ErrorFlag * bytes :=
  match fuel with
  | O => (None, l)
  | S fuel =>
      match readString (skipWS l) with
      | (None, l) => (None, l)
      | (Some key, l) =>
          match expect ":" (skipWS l) with
          | None => (None, skipWS l)
          | Some l =>
              match member_value key s (skipWS l) with
              | None => (None, skipWS l)
              | Some (s, l) =>
                  let l := skipWS l in
                  if at_byte "," l then result_loop fuel s (tail l)
                  else if at_byte "}" l then (Some (flagValue s), tail l)
                  else (None, l)
              end
          end
      end
  end.

Definition scanToolResult (l : bytes) : option ErrorFlag * bytes :=
  match expect "{" l with
  | None => (None, l)
  | Some l =>
      let l := skipWS l in
      match expect "}" l with
      | Some l => (Some (flagValue saw_nothing), l)
      | None => result_loop (S (length l)) saw_nothing l
      end
  end.

(** ** The blocks of a message *)

Fixpoint flags_loop (blocks : list RawBlock) (l : bytes) : list (option ErrorFlag) :=
  match blocks with
  | [] => []
  | b :: blocks' =>
      if at_byte "]" l then List.map (fun _ => None) blocks
      else
        let '(flag, l) := if String.eqb (rb_Type b) KindToolResult then scanToolResult l else (None, skip_value l) in
        let l := skipWS l in
        let l := match expect "," l with Some l => skipWS l | None => l end in
        flag :: flags_loop blocks' l
  end.

Definition errorFlags (raw : bytes) (blocks : list RawBlock) : list (option ErrorFlag) :=
  match expect "[" (skipWS raw) with
  | None => List.map (fun _ => None) blocks
  | Some l => flags_loop blocks (skipWS l)
  end.

Definition set_evidence (b : Block) (flag : option ErrorFlag) : Block :=
  match flag with
  | Some f => mkBlock (Kind b) (Label b) (Bytes b) (Text b) (ToolUseID b) (ToolName b) (Transcript.CallKey b) (IsError b) (Some f)
  | None => b
  end.

(** A flag for each block as far as there are flags. *)
Fixpoint attach (blks : list Block) (flags : list (option ErrorFlag)) : list Block :=
  match blks, flags with
  | b :: blks, f :: flags => set_evidence b f :: attach blks flags
  | _, _ => blks
  end.

Definition attachEvidence (blks : list Block) (raw : bytes) (blocks : list RawBlock) : list Block :=
  match raw with
  | [] => blks
  | _ => attach blks (errorFlags raw blocks)
  end.

End Evidence.
