(* ===== verification/Ledger.v ===== *)
(** Ledger records and the sessions built from them
    ([src/internal/ledger/record.go], and [SessionBuilder] of
    [src/internal/ledger/store.go]).

    A record is one proxied request and its response, reduced to structure.
    The builder takes records one at a time, in time order, and grows the same
    session the offline reader builds from the whole file; the proxy scores a
    live session with it.  [*transcript.Message] pointers shared through the
    builder's memo are never written to afterwards, so a message is a value
    and the memo a map. *)

From S2P Require Import Prelude GoString GoFloat GoTime Transcript Tenancy Breaker CacheRules CachePrices.
From S2P Require Import CacheVerdict Json Labels.
From Stdlib Require Import Ascii String.

Open Scope string_scope.
Open Scope list_scope.
Open Scope Z_scope.

Module Ledger.
Import Labels Transcript Tenancy LoopGuard CacheVerdict.

#[local] Abbreviation length := List.length.

Definition SchemaVersion : Z := 2.

Record Prompt := mkPrompt {
  SystemBytes : Z;
  ToolBytes : Z;
  ToolCount : Z;
  p_Tools : list ToolDef;
  CacheControlCount : Z;
  Messages : list LMessage;
  ContextEdits : bool
}.

Record RequestSummary := mkSummary {
  sum_Model : string;
  sum_Effort : string;
  sum_Stream : bool;
  sum_Prompt : Prompt;
  PrefixHash : string;
  SessionHash : string
}.

Record Response := mkResponse {
  resp_Blocks : list Block;
  resp_Usage : option Usage;
  RawUsage : string;
  resp_AppliedEdits : Z;
  ClearedInputTokens : Z;
  Unparsed : bool
}.

(** [BreakCause]'s Go zero value is the empty string: [None]. *)
Record CacheOutcome := mkOutcome {
  oc_Outcome : ReadOutcome;
  oc_Expected : Z;
  Deficit : Z;
  Cause : option BreakCause;
  CauseDetail : string
}.

(** [Record]; [Trimmed] is written by nothing and read by nothing and left
    out. *)
Record Entry := mkEntry {
  Schema : Z;
  rec_Timestamp : time;
  SessionID : string;
  rec_Kind : string;
  AgentID : string;
  RequestID : string;
  rec_Correlation : string;
  Path : string;
  Frozen : bool;
  rec_Epoch : string;
  Summary : RequestSummary;
  rec_Policy : string;
  Status : Z;
  Refusal : string;
  RefusalReason : string;
  rec_TenantID : string;
  BodyHashBefore : string;
  BodyHashAfter : string;
  Masked : gmap string Z;
  MaskDegraded : bool;
  Rehydrated : gmap string Z;
  RehydrationDenied : gmap string Z;
  Retries : Z;
  HeldMS : Z;
  LatencyMS : Z;
  Quota : gmap string string;
  rec_Response : Response;
  rec_Cache : option CacheOutcome
}.

Definition empty_prompt : Prompt := mkPrompt 0 0 0 [] 0 [] false.
Definition empty_summary : RequestSummary := mkSummary "" "" false empty_prompt "" "".
Definition empty_response : Response := mkResponse [] None "" 0 0 false.

(** [ledger.Record{Timestamp: at, SessionID: s, AgentID: a}] *)
Definition new_record (at_ : time) (path session agent : string) : Entry :=
  mkEntry 0 at_ session "" agent "" "" path false "" empty_summary "" 0 "" "" "" "" "" ∅ false ∅ ∅
    0 0 0 ∅ empty_response None.

Definition rec_Model (r : Entry) : string := sum_Model (Summary r).
Definition rec_Prompt (r : Entry) : Prompt := sum_Prompt (Summary r).
Definition rec_Usage (r : Entry) : option Usage := resp_Usage (rec_Response r).
Definition rec_PrefixHash (r : Entry) : string := PrefixHash (Summary r).

Definition TenantIDOf (tenant : string) : string :=
  if String.eqb tenant "" || String.eqb tenant LocalTenant then "" else tenant.

(** ** Identities within a ledger *)

Definition prefixUUID (r : Entry) : string :=
  if negb (String.eqb (rec_PrefixHash r) "") then rec_PrefixHash r
  else ("prefix-" ++ itoa (SystemBytes (rec_Prompt r)) ++ "-" ++ itoa (ToolBytes (rec_Prompt r))
        ++ "-" ++ itoa (ToolCount (rec_Prompt r)))%string.

Definition messageUUID (i : nat) (m : LMessage) : string :=
  let total := fold_left (fun n b => n +! Bytes b) (lm_Blocks m) 0 in
  ("m" ++ itoa (Z.of_nat i) ++ "-" ++ lm_Role m ++ "-" ++ itoa (Z.of_nat (length (lm_Blocks m)))
   ++ "-" ++ itoa total)%string.

Definition sanitize_block (b : Block) : Block :=
  mkBlock (Kind b) (SanitizeLabel (Label b)) (Bytes b) (Text b) (ToolUseID b) (ToolName b)
    (CallKey b) (IsError b) (Evidence b).

Definition sanitized : list Block -> list Block := List.map sanitize_block.

(** ** From a record to a request *)

Abbreviation memo_map := (gmap string Message).

(** What the memo holds under an identity, [m] the first time it is met. *)
Definition memoized (memo : memo_map) (id : string) (m : Message) : Message * memo_map :=
  match memo !! id with
  | Some found => (found, memo)
  | None => (m, <[id := m]> memo)
  end.

Definition prefix_message (r : Entry) : Message :=
  mkMessage (prefixUUID r) RoleSystem (rec_Timestamp r)
    [mkBlock KindText "system prompt" (SystemBytes (rec_Prompt r)) "" "" "" "" false None;
     mkBlock KindOther ("tool definitions (" ++ itoa (ToolCount (rec_Prompt r)) ++ " tools)")
       (ToolBytes (rec_Prompt r)) "" "" "" "" false None].

Definition history_message (r : Entry) (i : nat) (m : LMessage) : Message :=
  mkMessage (messageUUID i m) (lm_Role m) (rec_Timestamp r) (sanitized (lm_Blocks m)).

Definition context_step (r : Entry) (s : list Message * memo_map) (im : nat * LMessage)
    : list Message * memo_map :=
  let '(ctx, memo) := s in
  let '(i, m) := im in
  let '(msg, memo) := memoized memo (messageUUID i m) (history_message r i m) in
  (ctx ++ [msg], memo).

Definition context_of (r : Entry) (memo : memo_map) : list Message * memo_map :=
  let '(prefix, memo) := memoized memo (prefixUUID r) (prefix_message r) in
  fold_left (context_step r) (indexed (Messages (rec_Prompt r))) ([prefix], memo).

Definition millisecond : duration := 1000000.

Definition requestFromRecord (r : Entry) (usage : Usage) (index : Z) (memo : memo_map)
    : Request * memo_map :=
  let id := if String.eqb (RequestID r) "" then ("ledger-" ++ itoa index)%string else RequestID r in
  let '(ctx, memo) := context_of r memo in
  let out := mkMessage ("out-" ++ id) RoleAssistant (rec_Timestamp r + LatencyMS r *! millisecond)
               (sanitized (resp_Blocks (rec_Response r))) in
  (mkRequest id (negb (String.eqb (RequestID r) "")) false (rec_Correlation r) (rec_Model r)
     (sum_Effort (Summary r)) (rec_Epoch r) (rec_Timestamp r) usage ctx (Some out)
     (resp_AppliedEdits (rec_Response r)) (ClearedInputTokens (rec_Response r))
     (p_Tools (rec_Prompt r)), memo).

(** ** The builder *)

Record SessionBuilder := mkBuilder { b_session : Session; b_memo : memo_map; b_added : Z }.

Definition empty_session (id path : string) : Session :=
  mkSession id path SourceLedger [] 0 0 0 (mkFailures ∅ 0) 0 "" "" [].

Definition NewSessionBuilder (id path : string) : SessionBuilder :=
  mkBuilder (empty_session id path) ∅ 0.

Definition TrialTreated : string := "treated".
Definition TrialControl : string := "control".

(** What one record is to the session: the branches of [Add]. *)
Inductive triage :=
| UnknownKind
| Refused
| FailedWith (status : Z)
| FailedWithout
| Unreadable
| Usable (u : Usage).

Definition triage_of (r : Entry) : triage :=
  if negb (String.eqb (rec_Kind r) "") then UnknownKind
  else
    let no_prompt := (length (Messages (rec_Prompt r)) =? 0)%nat in
    let unusable :=
      if negb (String.eqb (Refusal r) "") then Refused
      else match rec_Usage r with
           | None => if 400 <=? Status r then FailedWith (Status r)
                     else if (Status r =? 0) && negb no_prompt then FailedWithout
                     else Unreadable
           | Some _ => if (Status r =? 0) && negb no_prompt then FailedWithout else Unreadable
           end in
    match rec_Usage r with
    | None => unusable
    | Some u => if no_prompt then unusable else Usable u
    end.

Definition set_counts (s : Session) (skipped unknown refusals : Z) (pf : ProviderFailures) : Session :=
  mkSession (ses_ID s) (ses_Path s) (ses_Source s) (Lanes s) skipped unknown refusals pf
    (SchemaMismatch s) (ses_Policy s) (Trial s) (Compactions s).

Definition append_request (req : Request) (l : Lane) : Lane :=
  mkLane (lane_ID l) (Sidechain l) (Continuation l) (Requests l ++ [req]).

Definition Add (b : SessionBuilder) (r : Entry) : SessionBuilder :=
  let s := b_session b in
  let added := b_added b +! 1 in
  let counted s := mkBuilder s (b_memo b) added in
  let pf := ses_Failures s in
  match triage_of r with
  | UnknownKind => counted (set_counts s (Skipped s) (UnknownKinds s +! 1) (Refusals s) pf)
  | Refused => counted (set_counts s (Skipped s) (UnknownKinds s) (Refusals s +! 1) pf)
  | FailedWith st =>
      let n := default 0 (ByStatus pf !! st) in
      counted (set_counts s (Skipped s) (UnknownKinds s) (Refusals s)
                 (mkFailures (<[st := n +! 1]> (ByStatus pf)) (NoStatus pf)))
  | FailedWithout =>
      counted (set_counts s (Skipped s) (UnknownKinds s) (Refusals s)
                 (mkFailures (ByStatus pf) (NoStatus pf +! 1)))
  | Unreadable => counted (set_counts s (Skipped s +! 1) (UnknownKinds s) (Refusals s) pf)
  | Usable u =>
      let '(req, memo) := requestFromRecord r u (added -! 1) (b_memo b) in
      let lanes := with_lane (append_request req) (AgentID r) (negb (String.eqb (AgentID r) ""))
                     (Lanes s) in
      let '(policy, trial) := if negb (String.eqb (rec_Policy r) "") then (rec_Policy r, TrialTreated)
                              else (ses_Policy s, Trial s) in
      mkBuilder (mkSession (ses_ID s) (ses_Path s) (ses_Source s) lanes (Skipped s) (UnknownKinds s)
                   (Refusals s) pf (SchemaMismatch s) policy trial (Compactions s))
        memo added
  end.

Definition build (id path : string) (rs : list Entry) : Session :=
  b_session (fold_left Add rs (NewSessionBuilder id path)).

(** [sessionFromRecords]; the caller has checked there is a record. *)
Definition by_time : list Entry -> list Entry :=
  SliceStable (fun a b => Before (rec_Timestamp a) (rec_Timestamp b)).

Definition sessionFromRecords (rs : list Entry) (path : string) (skipped mismatch : Z) : option Session :=
  match by_time rs with
  | [] => None
  | r :: _ =>
      let b := NewSessionBuilder (SessionID r) path in
      let s := b_session b in
      let s := mkSession (ses_ID s) (ses_Path s) (ses_Source s) (Lanes s) skipped (UnknownKinds s)
                 (Refusals s) (ses_Failures s) mismatch (ses_Policy s) (Trial s) (Compactions s) in
      Some (b_session (fold_left Add (by_time rs) (mkBuilder s (b_memo b) (b_added b))))
  end.

(** ** What the builder keeps *)

(** The lane a record's request goes to. *)
Definition lane_requests (agent : string) (s : Session) : list Request :=
  match lane_of agent (Lanes s) with Some l => Requests l | None => [] end.

Lemma requestFromRecord_fields r u i memo :
  let req := (requestFromRecord r u i memo).1 in
  req_Usage req = u /\ Timestamp req = rec_Timestamp r /\ Model req = rec_Model r /\
  Correlation req = rec_Correlation r /\ Effort req = sum_Effort (Summary r).
Proof. unfold requestFromRecord. by destruct (context_of r memo). Qed.

(** One record adds one request at the end of its own lane, or none. *)
Lemma Add_lane b r agent :
  lane_requests agent (b_session (Add b r)) =
    lane_requests agent (b_session b) ++
    match triage_of r with
    | Usable u => if String.eqb (AgentID r) agent
                  then [(requestFromRecord r u ((b_added b +! 1) -! 1) (b_memo b)).1] else []
    | _ => []
    end.
Proof.
  unfold Add, lane_requests. destruct (triage_of r) as [| |st| | |u]; cbn [b_session Lanes set_counts];
    try by rewrite app_nil_r.
  destruct (requestFromRecord r u _ (b_memo b)) as [req memo]. destruct (if negb _ then _ else _) as [p t].
  cbn [b_session Lanes fst]. rewrite with_lane_lookup by done.
  destruct (String.eqb_spec (AgentID r) agent) as [<-|_]; [| by rewrite app_nil_r].
  cbn [append_request Requests]. by destruct (lane_of (AgentID r) (Lanes (b_session b))).
Qed.

End Ledger.

(** What a session built from a ledger is: well formed, and an account of every
    record it was built from. *)

Module LedgerSpec.
Import Labels Transcript LoopGuard Ledger.

#[local] Abbreviation length := List.length.

(** ** Sums of machine integers *)

Definition map_sum (m : gmap Z Z) : Z := map_fold (fun _ v n => v + n) 0 m.

Lemma map_sum_insert (m : gmap Z Z) k v : map_sum (<[k := v]> m) = map_sum m - default 0 (m !! k) + v.
Proof.
  unfold map_sum. rewrite <- insert_delete_eq.
  rewrite map_fold_insert_L; [| intros; cbn; lia | apply lookup_delete_eq].
  destruct (m !! k) as [w|] eqn:E; cbn [default].
  - rewrite (map_fold_delete_L (fun (_ : Z) v n => v + n) 0 k w m); [cbn; lia | intros; cbn; lia | done].
  - rewrite delete_id by done. lia.
Qed.

Lemma fold_left_iadd {A} (f : A -> Z) (l : list A) n :
  fold_left (fun n x => n +! f x) l n ≡₆₄ n + foldr (fun x s => f x + s) 0 l.
Proof.
  revert n. induction l as [|x l IH]; intros n; cbn [fold_left foldr]; [by rewrite Z.add_0_r |].
  rewrite IH, cong64_iadd. by rewrite <- Z.add_assoc.
Qed.

Lemma Failures_Total_sum p : Failures_Total p ≡₆₄ NoStatus p + map_sum (ByStatus p).
Proof.
  unfold Failures_Total. rewrite (fold_left_iadd (fun kc : Z * Z => kc.2)).
  assert (foldr (fun (kc : Z * Z) s => kc.2 + s) 0 (map_to_list (ByStatus p)) = map_sum (ByStatus p)) as ->; [| done].
  unfold map_sum. rewrite map_fold_foldr. by induction (map_to_list (ByStatus p)) as [|[k v] l IH]; cbn; rewrite ?IH.
Qed.

Definition requests_of (s : Session) : Z :=
  foldr (fun l n => Z.of_nat (length (Requests l)) + n) 0 (Lanes s).

Lemma RequestCount_sum s : RequestCount s ≡₆₄ requests_of s.
Proof. unfold RequestCount. by rewrite (fold_left_iadd (fun l => Z.of_nat (length (Requests l)))). Qed.

(** Every record of a session, by what became of it. *)
Definition accounted (s : Session) : Z :=
  RequestCount s +! Skipped s +! UnknownKinds s +! Refusals s +! Failures_Total (ses_Failures s).

Definition account (s : Session) : Z :=
  requests_of s + Skipped s + UnknownKinds s + Refusals s + NoStatus (ses_Failures s) + map_sum (ByStatus (ses_Failures s)).

Lemma accounted_account s : accounted s ≡₆₄ account s.
Proof.
  unfold accounted, account. rewrite !cong64_iadd, RequestCount_sum, Failures_Total_sum. by rewrite Z.add_assoc.
Qed.

(** ** What a record becomes *)

(** A provider request that sent messages and was answered with usage. *)
Definition usable_usage (r : Entry) : option Usage :=
  if String.eqb (rec_Kind r) "" && negb (length (Messages (rec_Prompt r)) =? 0)%nat then rec_Usage r else None.

Lemma triage_usable r :
  usable_usage r = match triage_of r with Usable u => Some u | _ => None end.
Proof.
  unfold usable_usage, triage_of. destruct (String.eqb (rec_Kind r) ""); [| done]. cbn [negb andb].
  destruct (length (Messages (rec_Prompt r)) =? 0)%nat; cbn [negb].
  - destruct (rec_Usage r); by repeat case_match.
  - destruct (rec_Usage r) as [u|]; [done |]. by repeat case_match.
Qed.

(** The identities of the messages a record sent, the prefix first. *)
Definition identities (r : Entry) : list string :=
  prefixUUID r :: List.map (fun im => messageUUID im.1 im.2) (indexed (Messages (rec_Prompt r))).

(** The request a record becomes: its own usage, its own instant, a message for
    the prefix and one for each message sent, and the output the provider gave. *)
Record request_of (r : Entry) (q : Request) : Prop := {
  ro_usage : usable_usage r = Some (req_Usage q);
  ro_time : Timestamp q = rec_Timestamp r;
  ro_model : Model q = rec_Model r;
  ro_measured : IDMeasured q = negb (String.eqb (RequestID r) "");
  ro_id : IDMeasured q = true -> ID q = RequestID r;
  ro_context : List.map UUID (Context q) = identities r;
  ro_output : exists out, req_Output q = Some out /\ Role out = RoleAssistant /\
                Blocks out = sanitized (resp_Blocks (rec_Response r))
}.

Definition memo_ok (memo : memo_map) : Prop := forall id m, memo !! id = Some m -> UUID m = id.

Lemma memoized_id memo id m :
  memo_ok memo -> UUID m = id -> UUID (memoized memo id m).1 = id /\ memo_ok (memoized memo id m).2.
Proof.
  intros Hm Hid. unfold memoized. destruct (memo !! id) as [found|] eqn:E; cbn [fst snd]; [eauto |].
  split; [done |]. intros id' m' [[<- <-] | [_ H]]%lookup_insert_Some; eauto.
Qed.

Lemma context_fold_ids r ims : forall ctx memo, memo_ok memo ->
  let out := fold_left (context_step r) ims (ctx, memo) in
  List.map UUID out.1 = List.map UUID ctx ++ List.map (fun im => messageUUID im.1 im.2) ims /\ memo_ok out.2.
Proof.
  induction ims as [|[i m] ims IH]; intros ctx memo Hm; cbn [fold_left List.map]; [by rewrite app_nil_r |].
  unfold context_step at 2 4.
  destruct (memoized_id memo (messageUUID i m) (history_message r i m) Hm eq_refl) as [Hid Hok].
  destruct (memoized memo (messageUUID i m) (history_message r i m)) as [msg memo']. cbn [fst snd] in *.
  destruct (IH (ctx ++ [msg]) memo' Hok) as [-> ?]. split; [| done].
  rewrite map_app. cbn [List.map]. by rewrite Hid, <- app_assoc.
Qed.

Lemma context_of_ids r memo : memo_ok memo ->
  List.map UUID (context_of r memo).1 = identities r /\ memo_ok (context_of r memo).2.
Proof.
  intros Hm. unfold context_of.
  destruct (memoized_id memo (prefixUUID r) (prefix_message r) Hm eq_refl) as [Hid Hok].
  destruct (memoized memo (prefixUUID r) (prefix_message r)) as [p memo']. cbn [fst snd] in *.
  destruct (context_fold_ids r (indexed (Messages (rec_Prompt r))) [p] memo' Hok) as [-> ?].
  split; [| done]. cbn [List.map app]. by rewrite Hid.
Qed.

Lemma requestFromRecord_ok r u i memo : memo_ok memo -> triage_of r = Usable u ->
  request_of r (requestFromRecord r u i memo).1 /\ memo_ok (requestFromRecord r u i memo).2.
Proof.
  intros Hm Hu. unfold requestFromRecord. destruct (context_of_ids r memo Hm) as [Hids Hok].
  destruct (context_of r memo) as [ctx memo']. cbn [fst snd] in *. split; [| done].
  constructor; cbn; try done.
  - by rewrite triage_usable, Hu.
  - destruct (String.eqb (RequestID r) ""); done.
  - by eexists.
Qed.

(** ** The builder's invariant *)

Record lane_wf (l : Lane) : Prop := {
  lw_requests : Requests l <> [];
  lw_sidechain : Sidechain l = negb (String.eqb (lane_ID l) "");
  lw_whole : Continuation l = false
}.

Record lanes_wf (ls : list Lane) : Prop := {
  lsw_ids : NoDup (List.map lane_ID ls);
  lsw_lanes : Forall lane_wf ls
}.

Lemma with_lane_wf req id ls :
  lanes_wf ls -> lanes_wf (with_lane (append_request req) id (negb (String.eqb id "")) ls).
Proof.
  intros [Hids Hlanes]. split; [by apply with_lane_NoDup |]. apply with_lane_Forall; [| by split | done].
  intros l _ [H1 H2 H3]. split; cbn; try done. by destruct (Requests l).
Qed.

Lemma with_lane_requests req id side ls :
  foldr (fun l n => Z.of_nat (length (Requests l)) + n) 0 (with_lane (append_request req) id side ls)
    = foldr (fun l n => Z.of_nat (length (Requests l)) + n) 0 ls + 1.
Proof.
  induction ls as [|l ls IH]; [done |]. cbn [with_lane]. destruct (String.eqb (lane_ID l) id); cbn [foldr].
  - cbn [append_request Requests]. rewrite length_app. cbn. lia.
  - rewrite IH. lia.
Qed.

(** The records of one lane, and its requests. *)
Definition of_agent (agent : string) (rs : list Entry) : list Entry :=
  List.filter (fun r => String.eqb (AgentID r) agent && bool_decide (is_Some (usable_usage r))) rs.

Record builder_ok (start : Z) (rs : list Entry) (b : SessionBuilder) : Prop := {
  bo_memo : memo_ok (b_memo b);
  bo_lanes : lanes_wf (Lanes (b_session b));
  bo_requests : forall agent, Forall2 request_of (of_agent agent rs) (lane_requests agent (b_session b));
  bo_account : account (b_session b) ≡₆₄ start + Z.of_nat (length rs)
}.

Lemma of_agent_snoc agent rs r :
  of_agent agent (rs ++ [r]) = of_agent agent rs ++
    match triage_of r with Usable _ => if String.eqb (AgentID r) agent then [r] else [] | _ => [] end.
Proof.
  unfold of_agent. rewrite List.filter_app. f_equal. cbn [List.filter]. rewrite triage_usable.
  destruct (triage_of r); cbn; by destruct (String.eqb (AgentID r) agent).
Qed.

Lemma Add_account b r : account (b_session (Add b r)) ≡₆₄ account (b_session b) + 1.
Proof.
  unfold Add, account, requests_of. destruct (triage_of r) as [| |st| | |u];
    cbn [b_session set_counts Lanes Skipped UnknownKinds Refusals ses_Failures ByStatus NoStatus];
    try (rewrite map_sum_insert); rewrite ?cong64_iadd; try (apply cong64_iff; exists 0; lia).
  destruct (requestFromRecord r u _ _) as [req memo]. destruct (if negb _ then _ else _) as [p t].
  cbn [b_session Lanes Skipped UnknownKinds Refusals ses_Failures ByStatus NoStatus].
  rewrite with_lane_requests. apply cong64_iff. exists 0. lia.
Qed.

Lemma Add_ok start rs b r : builder_ok start rs b -> builder_ok start (rs ++ [r]) (Add b r).
Proof.
  intros [Hm Hl Hr Ha]. split.
  - unfold Add. destruct (triage_of r) as [| |st| | |u] eqn:E; try done.
    destruct (requestFromRecord_ok r u ((b_added b +! 1) -! 1) (b_memo b) Hm E) as [_ Hok].
    destruct (requestFromRecord r u _ _) as [req memo]. by destruct (if negb _ then _ else _).
  - unfold Add. destruct (triage_of r) as [| |st| | |u]; try done.
    destruct (requestFromRecord r u _ _) as [req memo]. destruct (if negb _ then _ else _) as [p t].
    by apply with_lane_wf.
  - intros agent. rewrite Add_lane, of_agent_snoc. apply Forall2_app; [done |].
    destruct (triage_of r) as [| |st| | |u] eqn:E; try constructor.
    destruct (String.eqb (AgentID r) agent); [| done]. constructor; [| done]. by apply requestFromRecord_ok.
  - rewrite Add_account, Ha, length_app. cbn. apply cong64_iff. exists 0. lia.
Qed.

Lemma adds_ok start todo : forall rs b,
  builder_ok start rs b -> builder_ok start (rs ++ todo) (fold_left Add todo b).
Proof.
  induction todo as [|r todo IH]; intros rs b H; cbn [fold_left]; [by rewrite app_nil_r |].
  rewrite cons_middle, app_assoc. by apply IH, Add_ok.
Qed.

(** ** A session read from a file *)

#[export] Instance by_time_strict : StrictWeak (fun a b => Before (rec_Timestamp a) (rec_Timestamp b)).
Proof.
  split; unfold in_order, Before.
  - intros x y H%Z.ltb_lt. apply Z.ltb_ge. lia.
  - intros x y z H1%Z.ltb_ge H2%Z.ltb_ge. apply Z.ltb_ge. lia.
Qed.

(** Instants that never go back. *)
Definition in_time (a b : Request) : Prop := Before (Timestamp b) (Timestamp a) = false.

Lemma requests_in_time rs qs :
  Forall2 request_of rs qs ->
  StronglySorted (in_order (fun a b => Before (rec_Timestamp a) (rec_Timestamp b))) rs -> StronglySorted in_time qs.
Proof.
  induction 1 as [|r q rs qs Hq Hqs IH]; intros Hs; [constructor |]. apply StronglySorted_inv in Hs as [Hs Hr].
  constructor; [by apply IH |]. clear IH Hs. induction Hqs as [|r' q' rs qs Hq' Hqs IH]; [constructor |].
  apply Forall_cons in Hr as [Hr' Hr]. constructor; [| by apply IH].
  unfold in_time. rewrite (ro_time _ _ Hq), (ro_time _ _ Hq'). exact Hr'.
Qed.

Lemma StronglySorted_filter {A} (R : A -> A -> Prop) (f : A -> bool) l :
  StronglySorted R l -> StronglySorted R (List.filter f l).
Proof.
  induction 1 as [|x l Hl IH Hx]; cbn; [constructor |]. destruct (f x); [| done]. constructor; [done |].
  apply Forall_forall. intros y Hy. rewrite Forall_forall in Hx. apply Hx.
  apply list_elem_of_In in Hy. apply filter_In in Hy as [Hy _]. by apply list_elem_of_In.
Qed.

Lemma lane_requests_of s l :
  lanes_wf (Lanes s) -> l ∈ Lanes s -> lane_requests (lane_ID l) s = Requests l.
Proof.
  intros [Hids _] Hl. unfold lane_requests, lane_of. induction (Lanes s) as [|l' ls IH]; [by apply not_elem_of_nil in Hl |].
  cbn [List.map] in Hids. apply NoDup_cons in Hids as [Hn Hids]. cbn [find_first].
  apply elem_of_cons in Hl as [<- | Hl]; [by rewrite String.eqb_refl |].
  destruct (String.eqb_spec (lane_ID l') (lane_ID l)) as [He|_]; [| by apply IH].
  exfalso. apply Hn. rewrite He. apply list_elem_of_In, in_map, list_elem_of_In, Hl.
Qed.

Lemma accounted_range s : int64_range (accounted s).
Proof. apply wrap64_range. Qed.

(** C34: type: a ledger's records always make a session, and a well-formed one:
    no two lanes share an id, no lane is empty, a lane is a sidechain exactly
    when it names an agent, and within a lane time never goes back.  The
    requests of a lane are, one for one and in time order, the usable records
    of its agent, each with its own usage, its prefix, its messages and its
    output; and the requests, the skipped, the unknown kinds, the refusals and
    the failures together count every record and every line skipped before. *)
Theorem a_session_accounts_for_every_record rs path skipped mismatch :
  rs <> [] -> 0 <= skipped -> skipped + Z.of_nat (length rs) <= max_int64 ->
  exists s, sessionFromRecords rs path skipped mismatch = Some s /\
    lanes_wf (Lanes s) /\
    (forall agent, Forall2 request_of (of_agent agent (by_time rs)) (lane_requests agent s)) /\
    Forall (fun l => StronglySorted in_time (Requests l)) (Lanes s) /\
    accounted s = skipped + Z.of_nat (length rs).
Proof.
  intros Hne Hsk Hmax. unfold sessionFromRecords. destruct (by_time rs) as [|r0 rs0] eqn:E.
  { pose proof (SliceStable_perm (fun a b => Before (rec_Timestamp a) (rec_Timestamp b)) rs) as Hp.
    unfold by_time in E. rewrite E in Hp. by apply Permutation_nil in Hp. }
  eexists. split; [done |]. rewrite <- E.
  match goal with |- lanes_wf (Lanes (b_session (fold_left Add _ ?b))) /\ _ => set (b0 := b) end.
  assert (builder_ok skipped [] b0) as H0.
  { split; [by intros id m H | by repeat constructor | by constructor |]. apply cong64_iff. exists 0.
    unfold account, requests_of, map_sum. cbn. rewrite map_fold_empty. lia. }
  destruct (adds_ok skipped (by_time rs) [] b0 H0) as [_ Hl Hr Ha]. cbn [app] in Hr, Ha.
  set (s := b_session (fold_left Add (by_time rs) b0)) in *. split_and!; [done | done | |].
  - apply Forall_forall. intros l Hin. rewrite <- (lane_requests_of s l Hl Hin).
    eapply requests_in_time; [apply Hr |]. apply StronglySorted_filter, SliceStable_StronglySorted, _.
  - apply cong64_eq; [apply accounted_range | unfold int64_range, min_int64, max_int64, two63 in *; lia |].
    rewrite accounted_account, Ha. unfold by_time.
    by rewrite (Permutation_length (SliceStable_perm _ rs)).
Qed.

Definition toy_message : LMessage := mkLMessage RoleUser [mkBlock KindText "user text" 5 "hello" "" "" "" false None].
Definition toy_usage : Usage := mkUsage 10 0 0 3 0 0 0 false.

Definition toy_entry_at (at_ : time) (agent kind : string) (status : Z) (u : option Usage) : Entry :=
  mkEntry 2 at_ "s" kind agent "" "" "/v1" false "" (mkSummary "m" "" false (mkPrompt 4 0 0 [] 0 [toy_message] false) "" "")
    "" status "" "" "" "" "" ∅ false ∅ ∅ 0 0 0 ∅ (mkResponse [] u "" 0 0 false) None.

Lemma a_session_accounts_for_every_record_witness :
  exists s, sessionFromRecords
      [toy_entry_at 9 "" "" 200 (Some toy_usage); toy_entry_at 5 "" "" 529 None;
       toy_entry_at 7 "a1" "" 200 (Some toy_usage); toy_entry_at 8 "" "audit" 0 None] "p" 1 0 = Some s /\
    accounted s = 5.
Proof.
  destruct (a_session_accounts_for_every_record
      [toy_entry_at 9 "" "" 200 (Some toy_usage); toy_entry_at 5 "" "" 529 None;
       toy_entry_at 7 "a1" "" 200 (Some toy_usage); toy_entry_at 8 "" "audit" 0 None] "p" 1 0)
    as (s & Hs & _ & _ & _ & Ha); [done | lia | unfold max_int64, two63; cbn; lia |].
  exists s. split; [exact Hs | exact Ha].
Defined.

End LedgerSpec.
