(* ===== verification/LedgerStore.v ===== *)
(** The ledger on disk ([Store] of [src/internal/ledger/store.go]): appending
    and reading records, and the policy pins and the revert a restart has to
    find again.

    A file is the text it holds.  A write may stop short: what an operation met
    is a [write_outcome].  [encoding/json] on a record, a pin and the revert,
    SHA-256 and HMAC are parameters. *)

From S2P Require Import Prelude GoString GoTime Json Labels Transcript Tenancy Guards Breaker Ledger.
From Stdlib Require Import Ascii String.

Open Scope string_scope.
Open Scope list_scope.
Open Scope Z_scope.

Module LedgerStore.
Import Labels Transcript Tenancy LoopGuard Ledger.

#[local] Abbreviation length := List.length.

(** ** Lines ([bufio.Scanner] with [ScanLines], as [NewLineScanner] sets it up) *)

Definition LF : ascii := "010"%char.
Definition CR : ascii := "013"%char.

Definition maxLineBytes : Z := 67108864.

(** The pieces between newlines; the last one only if it is not empty. *)
Fixpoint pieces_from (acc : string) (s : string) : list string :=
  match s with
  | EmptyString => if String.eqb acc "" then [] else [acc]
  | String c s' => if Ascii.eqb c LF then acc :: pieces_from "" s'
                   else pieces_from (acc ++ String c "")%string s'
  end.

Definition pieces : string -> list string := pieces_from "".

(** [dropCR] *)
Fixpoint drop_cr (s : string) : string :=
  match s with
  | EmptyString => ""
  | String c s' => if String.eqb s' "" && Ascii.eqb c CR then "" else String c (drop_cr s')
  end.

(** The lines the scanner hands out, and whether it stopped on one that does
    not fit its buffer. *)
Fixpoint scan_lines (ls : list string) : list string * bool :=
  match ls with
  | [] => ([], false)
  | l :: ls => if maxLineBytes <? len l + 1 then ([], true)
               else let '(out, too_long) := scan_lines ls in (drop_cr l :: out, too_long)
  end.

Fixpoint last_char (s : string) : option ascii :=
  match s with
  | EmptyString => None
  | String c s' => if String.eqb s' "" then Some c else last_char s'
  end.

(** [endsWithNewline] on a file that could be asked. *)
Definition endsWithNewline (content : string) : bool :=
  match last_char content with None => true | Some c => Ascii.eqb c LF end.

(** ** Session files *)

Definition safe_char (c : ascii) : bool :=
  is_alnum c || Ascii.eqb c "." || Ascii.eqb c "_" || Ascii.eqb c "-".

(** [safeName.ReplaceAllString(id, "_")]: every run of other characters
    becomes one underscore. *)
Fixpoint safe_name (in_run : bool) (s : string) : string :=
  match s with
  | EmptyString => ""
  | String c s' => if safe_char c then String c (safe_name false s')
                   else if in_run then safe_name true s'
                   else String "_" (safe_name true s')
  end.

(** What the write of one line did: all of it, or an error after the first
    bytes of it.  Failing to open the file is an error after none. *)
Inductive write_outcome := Written | WriteError (n : nat).

Definition after_write (content line : string) (o : write_outcome) : string :=
  match o with
  | Written => content ++ line
  | WriteError n => content ++ substring 0 n line
  end.

(** The directory: each session file's text. *)
Abbreviation directory := (gmap string string).

Section store.
Context (sha256hex : string -> string) (hmac16 : string -> string -> string).
Context (encode : Entry -> string) (decode : string -> option Entry).

Definition sessionFileName (id : string) : string :=
  let name := safe_name false id in
  if String.eqb name "" then "unknown"
  else if String.eqb name id then name
  else (name ++ "-" ++ substring 0 8 (sha256hex id))%string.

(** [KeyResponseCalls] under the ledger's secret. *)
Definition key_call (key : string) (b : Block) : Block :=
  if negb (String.eqb (Kind b) KindToolUse) || String.eqb (CallKey b) "" then b
  else mkBlock (Kind b) (Label b) (Bytes b) (Text b) (ToolUseID b) (ToolName b)
         (hmac16 key ("response-call" ++ String "000" (CallKey b))) (IsError b) (Evidence b).

Definition KeyResponseCalls (key : string) : list Block -> list Block := List.map (key_call key).

Definition with_schema (key : string) (r : Entry) : Entry :=
  let resp := rec_Response r in
  mkEntry SchemaVersion (rec_Timestamp r) (SessionID r) (rec_Kind r) (AgentID r) (RequestID r)
    (rec_Correlation r) (Path r) (Frozen r) (rec_Epoch r) (Summary r) (rec_Policy r) (Status r)
    (Refusal r) (RefusalReason r) (rec_TenantID r) (BodyHashBefore r) (BodyHashAfter r) (Masked r)
    (MaskDegraded r) (Rehydrated r) (RehydrationDenied r) (Retries r) (HeldMS r) (LatencyMS r)
    (Quota r)
    (mkResponse (KeyResponseCalls key (resp_Blocks resp)) (resp_Usage resp) (RawUsage resp)
       (resp_AppliedEdits resp) (ClearedInputTokens resp) (Unparsed resp))
    (rec_Cache r).

Definition record_line (key : string) (r : Entry) : string := encode (with_schema key r) ++ String LF "".

(** [Append]; the result says whether an error was reported. *)
Definition Append (key : string) (d : directory) (r : Entry) (o : write_outcome) : directory * bool :=
  let path := (sessionFileName (SessionID r) ++ ".jsonl")%string in
  (<[path := after_write (default "" (d !! path)) (record_line key r) o]> d,
   match o with Written => true | WriteError _ => false end).

(** ** Reading *)

Inductive rejected := RejectedNone | RejectedUnreadable | RejectedSchema.

#[export] Instance rejected_eq_dec : EqDecision rejected.
Proof using Type. solve_decision. Defined.

Record reading := mkReading {
  records : list Entry;
  skipped : Z;
  schemaMismatch : Z;
  incomplete : bool;
  lastRejected : rejected
}.

Definition read_line (s : reading) (raw : string) : reading :=
  let line := TrimSpace raw in
  if String.eqb line "" then mkReading (records s) (skipped s) (schemaMismatch s) (incomplete s) RejectedNone
  else match decode line with
       | None => mkReading (records s) (skipped s +! 1) (schemaMismatch s) (incomplete s) RejectedUnreadable
       | Some r =>
           if negb (Schema r =? SchemaVersion)
           then mkReading (records s) (skipped s) (schemaMismatch s +! 1) (incomplete s) RejectedSchema
           else mkReading (records s ++ [r]) (skipped s) (schemaMismatch s) (incomplete s) RejectedNone
       end.

(** The correction for a record still being written. *)
Definition torn (tailKnown endsClean : bool) (s : reading) : reading :=
  if negb (bool_decide (lastRejected s = RejectedNone)) && tailKnown && negb endsClean
  then match lastRejected s with
       | RejectedSchema => mkReading (records s) (skipped s) (schemaMismatch s -! 1) true (lastRejected s)
       | _ => mkReading (records s) (skipped s -! 1) (schemaMismatch s) true (lastRejected s)
       end
  else s.

(** [ReadRecords] on a file's text; [inr] is the error of a line too long, with
    the counts so far. *)
Definition ReadRecords (tailKnown : bool) (content : string) : reading + reading :=
  let '(ls, too_long) := scan_lines (pieces content) in
  let s := torn tailKnown (endsWithNewline content)
             (fold_left read_line ls (mkReading [] 0 0 false RejectedNone)) in
  if too_long then inr (mkReading [] (skipped s) (schemaMismatch s) (incomplete s) (lastRejected s))
  else inl s.

(** [ReadFile]: [None] is an error. *)
Definition ReadFile (path content : string) : option Session :=
  match ReadRecords true content with
  | inr _ => None
  | inl s => match records s with
             | [] => None
             | _ => sessionFromRecords (records s) path (skipped s) (schemaMismatch s)
             end
  end.

End store.

(** ** Pins and the revert *)

Record Pin := mkPin {
  pin_SessionID : string;
  pin_TenantID : string;
  pin_Policy : string;
  pin_Trigger : Z;
  pin_Keep : Z;
  pin_Decision : string;
  pin_At : time;
  pin_Trial : string;
  pin_Type : string
}.

Record Revert := mkRevert {
  rv_Policy : string;
  rv_Trigger : Z;
  rv_Keep : Z;
  rv_Reason : string;
  rv_Breached : Z;
  rv_At : time;
  PolicyGenerated : time
}.

Abbreviation pin_table := (gmap string (gmap string Pin)).

Definition set_tenant (tenant : string) (p : Pin) : Pin :=
  mkPin (pin_SessionID p) tenant (pin_Policy p) (pin_Trigger p) (pin_Keep p) (pin_Decision p)
    (pin_At p) (pin_Trial p) (pin_Type p).

Definition put_pin (tenant : string) (p : Pin) (pins : pin_table) : pin_table :=
  <[tenant := <[pin_SessionID p := p]> (inner pins tenant)]> pins.

Section pins.
Context (encode_pin : Pin -> string) (decode_pin : string -> option Pin).
Context (encode_revert : Revert -> string) (decode_revert : string -> option Revert).

Record Store := mkStore {
  st_pins : pin_table;
  pins_file : string;
  st_revert : option Revert;
  revert_file : option string
}.

(** [Pin] *)
Definition get_pin (s : Store) (tenant sessionID : string) : option Pin :=
  inner (st_pins s) tenant !! sessionID.

Definition SetPin (s : Store) (tenant : string) (p : Pin) (o : write_outcome) : Store * bool :=
  let p := set_tenant tenant p in
  let file := after_write (pins_file s) (encode_pin p ++ String LF "") o in
  match o with
  | Written => (mkStore (put_pin tenant p (st_pins s)) file (st_revert s) (revert_file s), true)
  | WriteError _ => (mkStore (st_pins s) file (st_revert s) (revert_file s), false)
  end.

(** [persistedPinTenantKey] is [persistedTenantKey] of the spend guard, said
    again. *)
Definition persistedPinTenantKey : string -> option string := SpendGuard.persistedTenantKey.

Definition pin_line (pins : pin_table) (raw : string) : pin_table :=
  match decode_pin raw with
  | None => pins
  | Some p =>
      if String.eqb (pin_SessionID p) "" then pins
      else match (if String.eqb (pin_TenantID p) "" then Some LocalTenant
                  else persistedPinTenantKey (pin_TenantID p)) with
           | None => pins
           | Some tenant => put_pin tenant (set_tenant tenant p) pins
           end
  end.

(** [loadPins] on the file's text, a missing file having none; [None] is the
    error of a line too long. *)
Definition loadPins (content : string) : option pin_table :=
  let '(ls, too_long) := scan_lines (pieces content) in
  if too_long then None else Some (fold_left pin_line ls ∅).

(** [SetRevert]: the file is written over, so a write that stops short leaves
    the start of the new record and nothing of the old. *)
Definition SetRevert (s : Store) (r : Revert) (o : write_outcome) : Store * bool :=
  let line := (encode_revert r ++ String LF "")%string in
  match o with
  | Written => (mkStore (st_pins s) (pins_file s) (Some r) (Some line), true)
  | WriteError n => (mkStore (st_pins s) (pins_file s) (st_revert s) (Some (substring 0 n line)), false)
  end.

Definition loadRevert (file : option string) : option Revert :=
  content ← file;
  r ← decode_revert content;
  if String.eqb (rv_Policy r) "" then None else Some r.

(** [Open], as far as pins and revert go: what a process finds at its start. *)
Definition Open (pins_content : string) (revert_content : option string) : option Store :=
  pins ← loadPins pins_content;
  Some (mkStore pins pins_content (loadRevert revert_content) revert_content).

Definition MarkControl (s : Store) (tenant : string) (sess : Session) : Session :=
  if negb (String.eqb (Trial sess) "") then sess
  else match get_pin s tenant (ses_ID sess) with
       | Some p => if String.eqb (pin_Trial p) TrialControl
                   then mkSession (ses_ID sess) (ses_Path sess) (ses_Source sess) (Lanes sess) (Skipped sess)
                          (UnknownKinds sess) (Refusals sess) (ses_Failures sess) (SchemaMismatch sess)
                          (ses_Policy sess) TrialControl (Compactions sess)
                   else sess
       | None => sess
       end.

End pins.

End LedgerStore.
