(* ===== verification/Summary.v ===== *)
(** What a Messages request is reduced to before anything of it is written
    down ([src/internal/ledger/summarize.go]): sizes, counts, hashes and labels,
    never text.

    [hmachex] is HMAC-SHA-256 of the standard library under the ledger's secret,
    in hexadecimal; [sha256hex] the plain digest. *)

From S2P Require Import Prelude GoString Json Wire JsonValue Labels Transcript Blocks Breaker Ledger.
From Stdlib Require Import Ascii String.

Open Scope string_scope.
Open Scope list_scope.
Open Scope Z_scope.

Module Summary.
Import Json RawJson Labels Transcript Blocks LoopGuard Ledger.

#[local] Abbreviation length := List.length.

(** ** The wire shape *)

Record rawRequest := mkRawRequest {
  rq_Model : string;
  rq_Stream : bool;
  rq_System : bytes;
  rq_Tools : list bytes;
  rq_Messages : list bytes;
  rq_OutputConfig : option string;
  rq_ContextManagement : bytes
}.

Definition zero_request : rawRequest := mkRawRequest "" false [] [] [] None [].

Definition request_tags : list string :=
  ["model"; "stream"; "system"; "tools"; "messages"; "output_config"; "context_management"].

Definition into_request : decoded rawRequest :=
  into_struct request_tags (fun tag raw r =>
    let 'mkRawRequest mo st sy tl ms oc cm := r in
    if String.eqb tag "model" then (fun x => mkRawRequest x st sy tl ms oc cm) <$> into_string raw mo
    else if String.eqb tag "stream" then (fun x => mkRawRequest mo x sy tl ms oc cm) <$> into_bool raw st
    else if String.eqb tag "system" then (fun x => mkRawRequest mo st x tl ms oc cm) <$> into_raw raw sy
    else if String.eqb tag "tools" then (fun x => mkRawRequest mo st sy x ms oc cm) <$> into_list [] into_raw raw tl
    else if String.eqb tag "messages" then (fun x => mkRawRequest mo st sy tl x oc cm) <$> into_list [] into_raw raw ms
    else if String.eqb tag "output_config"
    then (fun x => mkRawRequest mo st sy tl ms x cm) <$> into_pointer "" (into_struct ["Effort"] (fun _ => into_string)) raw oc
    else (fun x => mkRawRequest mo st sy tl ms oc x) <$> into_raw raw cm).

(** ** Pieces *)

Definition hashLabelBytes : nat := 16.

Record tool_head := mkHead { th_Name : string; th_Type : string }.

Definition into_head : decoded tool_head :=
  into_struct ["name"; "type"] (fun tag raw t =>
    if String.eqb tag "name" then (fun x => mkHead x (th_Type t)) <$> into_string raw (th_Name t)
    else (fun x => mkHead (th_Name t) x) <$> into_string raw (th_Type t)).

Definition toolName (raw : bytes) : string :=
  match into_head raw (mkHead "" "") with
  | Some t => if String.eqb (th_Name t) "" then LabelUnknownTool else SanitizeLabel (th_Name t)
  | None => LabelUnknownTool
  end.

Definition nonempty (raw : bytes) : bool := negb (length raw =? 0)%nat.

(** [len(b.CacheControl) > 0], counted over blocks. *)
Definition markers (blocks : list RawBlock) (n : Z) : Z :=
  fold_left (fun n b => if nonempty (rb_CacheControl b) then n +! 1 else n) blocks n.

Definition systemSize (raw : bytes) : Z * Z :=
  match DecodeContent raw with
  | None => (Wire.size_of raw, 0)
  | Some (IsText text) => (len text, 0)
  | Some (IsBlocks blocks) => (fold_left (fun size b => size +! len (rb_Text b)) blocks 0, markers blocks 0)
  end.

Definition hasCacheControl (raw : bytes) : bool :=
  match into_struct ["cache_control"] (fun _ => into_raw) raw [] with
  | Some cc => nonempty cc
  | None => false
  end.

Definition strip_block (b : Block) : Block :=
  mkBlock (Kind b) (Label b) (Bytes b) "" (ToolUseID b) (ToolName b) (Transcript.CallKey b) (IsError b) (Evidence b).

Definition stripText : list Block -> list Block := List.map strip_block.

Section hash.
Context (sha256hex : string -> string) (hmachex : string -> string -> string).

(** [hashOf]: each part as sent, closed by a zero byte. *)
Definition hashOf (prefix : string) (parts : list bytes) : string :=
  (prefix ++ substring 0 hashLabelBytes
     (sha256hex (to_string (flat_map (fun p => (p ++ [zero])%list) parts))))%string.

(** [(l *Labeler) Label]; [None] is the panic of a digest cut short. *)
Definition Label_ (key : string) (name : string) (input : bytes) : option string :=
  match LabelArg input PathArgs with
  | None => Some name
  | Some (_, value) => l ← HashedPathLabel (hmachex key value) value; Some (name ++ " " ++ l)%string
  end.

(** The labeler as [DecodeBlocks] calls it: an HMAC's 64 digits are never cut
    short ([Label_total]). *)
Definition labeler (key : string) (name : string) (input : bytes) : string := default name (Label_ key name input).

Definition key_one (key : string) (b : Block) : Block :=
  if String.eqb (Kind b) KindToolUse then
    mkBlock (Kind b) (Label b) (Bytes b) (Text b) (ToolUseID b) (ToolName b)
      (substring 0 hashLabelBytes (hmachex key (ToolName b ++ String zero (Text b))%string)) (IsError b) (Evidence b)
  else b.

Definition keyCalls (key : string) : list Block -> list Block := List.map (key_one key).

(** ** The request *)

(** The loop over the tools. *)
Definition add_tool (p : Prompt) (t : bytes) : Prompt :=
  let def := mkToolDef (toolName t) (Wire.ContentBytes t) in
  mkPrompt (SystemBytes p) (ToolBytes p +! td_Bytes def) (ToolCount p) (p_Tools p ++ [def])
    (if hasCacheControl t then CacheControlCount p +! 1 else CacheControlCount p) (Messages p) (ContextEdits p).

Definition add_message (p : Prompt) (count : Z) (m : LMessage) : Prompt :=
  mkPrompt (SystemBytes p) (ToolBytes p) (ToolCount p) (p_Tools p) count (Messages p ++ [m]) (ContextEdits p).

(** One turn of the loop over the messages, with the names of the calls met. *)
Definition summarize_message (key : string) (st : Prompt * tool_names) (raw : bytes) : option (Prompt * tool_names) :=
  let '(p, names) := st in
  m ← into_message raw zero_message;
  c ← DecodeContent (wm_Content m);
  match c with
  | IsText text =>
      Some (add_message p (CacheControlCount p)
              (mkLMessage (wm_Role m) [mkBlock KindText (TextLabel (wm_Role m)) (len text) "" "" "" "" false None]), names)
  | IsBlocks blocks =>
      let '(decoded, names) := DecodeBlocks sha256hex blocks (wm_Role m) names (Some (labeler key)) in
      Some (add_message p (markers blocks (CacheControlCount p))
              (mkLMessage (wm_Role m) (stripText (keyCalls key decoded))), names)
  end.

Fixpoint summarize_messages (key : string) (raws : list bytes) (st : Prompt * tool_names) : option (Prompt * tool_names) :=
  match raws with
  | [] => Some st
  | raw :: raws => st ← summarize_message key st raw; summarize_messages key raws st
  end.

Definition SummarizeRequest (body : bytes) (key : string) : option RequestSummary :=
  req ← into_request body zero_request;
  let '(size, count) := systemSize (rq_System req) in
  let p := fold_left add_tool (rq_Tools req)
             (mkPrompt size 0 (Z.of_nat (length (rq_Tools req))) [] count [] (nonempty (rq_ContextManagement req))) in
  let prefix := hashOf "prefix-" (rq_Tools req ++ [rq_System req]) in
  let session := match rq_Messages req with
                 | [] => ""
                 | first :: _ => hashOf "session-" [rq_System req; first]
                 end in
  st ← summarize_messages key (rq_Messages req) (p, Some ∅);
  Some (mkSummary (rq_Model req) (default "" (rq_OutputConfig req)) (rq_Stream req) st.1 prefix session).

End hash.

End Summary.
