(* ===== verification/StreamLines.v ===== *)
(** The line buffer the three stream parsers share in shape
    ([Write] of [src/internal/ledger/response.go], [openai_stream.go] and
    [responses_stream.go]): bytes in whatever chunks arrive, lines out.

    [line] is the parser the complete lines go to, each without its newline. *)

From S2P Require Import Prelude Json Wire.
From Stdlib Require Import Ascii.

Open Scope list_scope.
Open Scope Z_scope.

Module StreamLines.
Import Json.

#[local] Abbreviation length := List.length.

Definition newline : ascii := byte 10.

(** What is before the first newline and what is after it ([bytes.IndexByte]). *)
Fixpoint cut_line (l : bytes) : option (bytes * bytes) :=
  match l with
  | [] => None
  | c :: l =>
      if Ascii.eqb c newline then Some ([], l)
      else '(first, rest) ← cut_line l; Some (c :: first, rest)
  end.

(** [maxPendingLine] *)
Definition maxPendingLine : Z := 1048576.

Section parser.
Context {St : Type} (line : bytes -> St -> St).

(** The buffer, and the parser behind it. *)
Record buffered := mkBuffered { dropped : bool; pending : bytes; parser : St }.

(** The loop; every turn takes a newline or more. *)
Fixpoint drain (fuel : nat) (l : bytes) (s : St) : bytes * St :=
  match fuel, cut_line l with
  | S fuel, Some (first, rest) => drain fuel rest (line first s)
  | _, _ => (l, s)
  end.

Definition feed (l : bytes) (s : St) : bytes * St := drain (length l) l s.

(** [Write] of the chat-completions parser. *)
Definition write (b : buffered) (p : bytes) : buffered :=
  let '(rest, s) := feed (pending b ++ p) (parser b) in mkBuffered (dropped b) rest s.

(** [Write] of the other two, which give up on a buffer past the bound. *)
Definition write_bounded (b : buffered) (p : bytes) : buffered :=
  if dropped b then b
  else if maxPendingLine <? Wire.size_of (pending b ++ p) then mkBuffered true [] (parser b)
  else write b p.

Definition writes (w : buffered -> bytes -> buffered) (b : buffered) (chunks : list bytes) : buffered :=
  fold_left w chunks b.

Definition fresh (s : St) : buffered := mkBuffered false [] s.

(** ** Chunks do not matter *)

Lemma cut_line_some l first rest : cut_line l = Some (first, rest) -> l = first ++ newline :: rest.
Proof.
  revert first rest. induction l as [|c l IH]; intros first rest; [done |]. cbn [cut_line app].
  destruct (Ascii.eqb_spec c newline) as [-> | _]; [by intros [= <- <-] |].
  destruct (cut_line l) as [[f r]|]; cbn; [| done]. intros [= <- <-]. cbn. f_equal. by apply IH.
Qed.

Lemma cut_line_app l more first rest :
  cut_line l = Some (first, rest) -> cut_line (l ++ more) = Some (first, rest ++ more).
Proof.
  revert first rest. induction l as [|c l IH]; intros first rest; [done |]. cbn [cut_line app].
  destruct (Ascii.eqb c newline); [by intros [= <- <-] |].
  destruct (cut_line l) as [[f r]|]; cbn; [| done]. intros [= <- <-]. by rewrite (IH f r).
Qed.

Lemma cut_line_shorter l first rest : cut_line l = Some (first, rest) -> (length rest < length l)%nat.
Proof. intros ->%cut_line_some. rewrite length_app. cbn. lia. Qed.

Lemma drain_enough fuel l s : (length l <= fuel)%nat -> drain fuel l s = feed l s.
Proof.
  unfold feed. revert fuel s. induction l as [l IH] using (induction_ltof1 _ length); unfold ltof in IH. intros fuel s Hf.
  destruct l as [|c l]; [by destruct fuel |]. cbn [length] in *. destruct fuel as [|fuel]; [lia |].
  cbn [drain]. destruct (cut_line (c :: l)) as [[first rest]|] eqn:Hc; [| done].
  apply cut_line_shorter in Hc. cbn [length] in Hc.
  rewrite (IH rest) by (cbn; lia). rewrite (IH rest) with (fuel := length l) by (cbn; lia). done.
Qed.

Lemma feed_step l s :
  feed l s = match cut_line l with Some (first, rest) => feed rest (line first s) | None => (l, s) end.
Proof.
  unfold feed at 1. destruct l as [|c l]; [done |]. cbn [drain length].
  destruct (cut_line (c :: l)) as [[first rest]|] eqn:Hc; [| done].
  apply cut_line_shorter in Hc. cbn in Hc. apply drain_enough. lia.
Qed.

Lemma feed_rest l s : cut_line (feed l s).1 = None.
Proof.
  revert s. induction l as [l IH] using (induction_ltof1 _ length); unfold ltof in IH. intros s. rewrite feed_step.
  destruct (cut_line l) as [[first rest]|] eqn:Hc; [| done].
  pose proof (cut_line_shorter _ _ _ Hc). by apply IH.
Qed.

Lemma feed_app l more s : feed (l ++ more) s = let '(rest, s) := feed l s in feed (rest ++ more) s.
Proof.
  revert s. induction l as [l IH] using (induction_ltof1 _ length); unfold ltof in IH. intros s. rewrite (feed_step l).
  destruct (cut_line l) as [[first rest]|] eqn:Hc; [| done].
  pose proof (cut_line_shorter _ _ _ Hc). rewrite feed_step, (cut_line_app _ _ _ _ Hc). by apply IH.
Qed.

(** However a stream is cut, what was parsed and what is held are the same. *)
Lemma writes_concat b chunks : writes write b chunks = 
  (if (length chunks =? 0)%nat then b else write b (concat chunks)).
Proof.
  assert (forall b p q, write (write b p) q = write b (p ++ q)) as Hw.
  { clear. intros [d pe s] p q. unfold write. cbn [pending parser dropped]. rewrite (app_assoc pe), (feed_app (pe ++ p)).
    by destruct (feed (pe ++ p) s) as [rest s']. }
  unfold writes. induction chunks as [|p chunks IH] in b |- *; [done |]. cbn. rewrite IH.
  destruct chunks as [|q chunks]; cbn; [by rewrite app_nil_r |]. by rewrite Hw.
Qed.

Lemma writes_dropped b chunks : dropped b = true -> writes write_bounded b chunks = b.
Proof.
  intros Hb. unfold writes. induction chunks as [|p chunks IH]; [done |]. cbn. unfold write_bounded at 2. by rewrite Hb.
Qed.

(** A bounded buffer that never gave up did what the unbounded one does. *)
Lemma writes_bounded_kept b chunks :
  dropped (writes write_bounded b chunks) = false -> writes write_bounded b chunks = writes write b chunks.
Proof.
  unfold writes. induction chunks as [|p chunks IH] in b |- *; [done |]. cbn. intros Hk. unfold write_bounded at 2 in Hk.
  unfold write_bounded at 2. destruct (dropped b) eqn:Hb.
  - pose proof (writes_dropped b chunks Hb) as E. unfold writes in E. rewrite E in Hk. congruence.
  - case_bool; [| by apply IH].
    pose proof (writes_dropped (mkBuffered true [] (parser b)) chunks eq_refl) as E. unfold writes in E.
    rewrite E in Hk. done.
Qed.

End parser.

Arguments mkBuffered {St}.
Arguments buffered : clear implicits.

End StreamLines.
