(* ===== verification/MessageReader.v ===== *)
(** What is kept of a Messages response: structure and usage, from a whole body
    or from an event stream as it passes ([src/internal/ledger/response.go],
    and [rawUsageBytes] of [openai.go]). *)

From S2P Require Import Prelude GoString Json Wire JsonValue Labels Transcript Blocks Ledger Summary StreamLines.
From Stdlib Require Import Ascii String.

Open Scope string_scope.
Open Scope list_scope.
Open Scope Z_scope.

Module MessageReader.
Import Json JsonValue RawJson Labels Transcript Blocks Ledger Summary StreamLines.

#[local] Abbreviation length := List.length.

(** ** The usage bytes *)

(** [envelope["usage"]]: the last value under exactly this name. *)
Definition member_named (name : string) (doc : bytes) : option bytes :=
  snd <$> find_first (fun kv => String.eqb kv.1 name) (rev (members doc)).

Definition rawUsageBytes (body : bytes) : option bytes :=
  match parse body with
  | Some (Object _) =>
      u ← member_named "usage" body;
      if negb (nonempty u) || String.eqb (to_string u) "null" then None else Some u
  | _ => None
  end.

Definition messageUsageBytes (payload : bytes) : option bytes :=
  message ← into_struct ["message"] (fun _ => into_raw) payload [];
  if nonempty message then rawUsageBytes message else None.

(** ** The edits the provider reports *)

(** [contextManagement]: the tokens each applied edit cleared. *)
Abbreviation contextManagement := (list Z).

Definition into_contextManagement : decoded contextManagement :=
  into_struct ["applied_edits"] (fun _ =>
    into_list 0 (into_struct ["cleared_input_tokens"] (fun _ => into_int))).

Definition totals (c : option contextManagement) : Z * Z :=
  match c with
  | None => (0, 0)
  | Some edits => (Z.of_nat (length edits), fold_left (fun cleared e => cleared +! e) edits 0)
  end.

(** ** A whole body *)

Record message_body := mkBody {
  mb_Type : string;
  mb_Content : list RawBlock;
  mb_Usage : option WireUsage;
  mb_Context : option contextManagement
}.

Definition into_body : decoded message_body :=
  into_struct ["type"; "content"; "usage"; "context_management"] (fun tag raw m =>
    let 'mkBody ty co us cm := m in
    if String.eqb tag "type" then (fun x => mkBody x co us cm) <$> into_string raw ty
    else if String.eqb tag "content" then (fun x => mkBody ty x us cm) <$> into_list zero_block into_block raw co
    else if String.eqb tag "usage" then (fun x => mkBody ty co x cm) <$> into_pointer zero_usage into_usage raw us
    else (fun x => mkBody ty co us x) <$> into_pointer [] into_contextManagement raw cm).

Definition unparsed : Response := mkResponse [] None "" 0 0 true.

Definition raw_text (raw : option bytes) : string := to_string (default [] raw).

Section hash.
Context (sha256hex : string -> string).

Definition ParseResponse (body : bytes) : Response :=
  match into_body body (mkBody "" [] None None) with
  | None => unparsed
  | Some msg =>
      if negb (String.eqb (mb_Type msg) "message") then unparsed
      else
        let blocks := stripText (DecodeBlocks sha256hex (mb_Content msg) RoleAssistant None None).1 in
        let '(edits, cleared) := totals (mb_Context msg) in
        match mb_Usage msg with
        | Some u => mkResponse blocks (Some (WireUsage_Usage (Some u))) (raw_text (rawUsageBytes body)) edits cleared false
        | None => mkResponse blocks None "" edits cleared false
        end
  end.

(** ** A stream *)

Record event_message := mkEventMessage { em_Usage : option WireUsage; em_Context : option contextManagement }.
Record delta := mkDelta { de_Text : string; de_PartialJSON : string; de_Thinking : string }.

Record event := mkEvent {
  ev_Type : string;
  ev_Index : Z;
  ev_Message : option event_message;
  ev_ContentBlock : option RawBlock;
  ev_Delta : option delta;
  ev_Usage : option WireUsage;
  ev_Context : option contextManagement
}.

Definition into_event_message : decoded event_message :=
  into_struct ["usage"; "context_management"] (fun tag raw m =>
    if String.eqb tag "usage"
    then (fun x => mkEventMessage x (em_Context m)) <$> into_pointer zero_usage into_usage raw (em_Usage m)
    else (fun x => mkEventMessage (em_Usage m) x) <$> into_pointer [] into_contextManagement raw (em_Context m)).

Definition into_delta : decoded delta :=
  into_struct ["text"; "partial_json"; "thinking"] (fun tag raw d =>
    let 'mkDelta te pj th := d in
    if String.eqb tag "text" then (fun x => mkDelta x pj th) <$> into_string raw te
    else if String.eqb tag "partial_json" then (fun x => mkDelta te x th) <$> into_string raw pj
    else (fun x => mkDelta te pj x) <$> into_string raw th).

Definition into_event : decoded event :=
  into_struct ["type"; "index"; "message"; "content_block"; "delta"; "usage"; "context_management"] (fun tag raw e =>
    let 'mkEvent ty ix me cb de us cm := e in
    if String.eqb tag "type" then (fun x => mkEvent x ix me cb de us cm) <$> into_string raw ty
    else if String.eqb tag "index" then (fun x => mkEvent ty x me cb de us cm) <$> into_int raw ix
    else if String.eqb tag "message"
    then (fun x => mkEvent ty ix x cb de us cm) <$> into_pointer (mkEventMessage None None) into_event_message raw me
    else if String.eqb tag "content_block"
    then (fun x => mkEvent ty ix me x de us cm) <$> into_pointer zero_block into_block raw cb
    else if String.eqb tag "delta"
    then (fun x => mkEvent ty ix me cb x us cm) <$> into_pointer (mkDelta "" "" "") into_delta raw de
    else if String.eqb tag "usage"
    then (fun x => mkEvent ty ix me cb de x cm) <$> into_pointer zero_usage into_usage raw us
    else (fun x => mkEvent ty ix me cb de us x) <$> into_pointer [] into_contextManagement raw cm).

(** The parser's own state; its line buffer is [StreamLines]. *)
Record parsed := mkParsed {
  s_blocks : list Block;
  s_usage : WireUsage;
  s_seen : bool;
  s_rawUsage : option bytes;
  s_edits : Z;
  s_cleared : Z
}.

Definition StreamParser : Type := buffered parsed.

Definition nothing_parsed : parsed := mkParsed [] zero_usage false None 0 0.

Definition NewStreamParser : StreamParser := fresh nothing_parsed.

Definition noteEdits (c : option contextManagement) (s : parsed) : parsed :=
  match c with
  | None => s
  | Some _ => let '(edits, cleared) := totals c in mkParsed (s_blocks s) (s_usage s) (s_seen s) (s_rawUsage s) edits cleared
  end.

(** [if src > 0 { dst = src }], and for the pointers. *)
Definition newer (dst src : Z) : Z := if 0 <? src then src else dst.
Definition newer_ptr {A} (dst src : option A) : option A := match src with Some _ => src | None => dst end.

Definition merge (dst src : WireUsage) : WireUsage :=
  mkWireUsage (newer (wu_Input dst) (wu_Input src)) (newer (wu_CacheCreation dst) (wu_CacheCreation src))
    (newer (wu_CacheRead dst) (wu_CacheRead src)) (newer (wu_Output dst) (wu_Output src))
    (newer_ptr (wu_OutputDetails dst) (wu_OutputDetails src)) (newer_ptr (wu_CacheBreak dst) (wu_CacheBreak src)).

Definition with_blocks (s : parsed) (blocks : list Block) : parsed :=
  mkParsed blocks (s_usage s) (s_seen s) (s_rawUsage s) (s_edits s) (s_cleared s).

Definition with_usage (s : parsed) (u : WireUsage) (raw : option bytes) : parsed :=
  mkParsed (s_blocks s) u true (newer_ptr (s_rawUsage s) raw) (s_edits s) (s_cleared s).

Definition add_bytes (n : Z) (b : Block) : Block :=
  mkBlock (Kind b) (Label b) (Bytes b +! n) (Text b) (ToolUseID b) (ToolName b) (Transcript.CallKey b) (IsError b) (Evidence b).

(** The switch on the event's type. *)
Definition on_event (payload : bytes) (ev : event) (s : parsed) : parsed :=
  if String.eqb (ev_Type ev) "message_start" then
    match ev_Message ev ≫= em_Usage with
    | Some u => with_usage s u (messageUsageBytes payload)
    | None => s
    end
  else if String.eqb (ev_Type ev) "content_block_start" then
    match ev_ContentBlock ev with
    | Some rb => with_blocks s (s_blocks s ++ [strip_block (DecodeBlock sha256hex rb RoleAssistant None None).1])
    | None => s
    end
  else if String.eqb (ev_Type ev) "content_block_delta" then
    match ev_Delta ev with
    | Some d =>
        if (0 <=? ev_Index ev) && (ev_Index ev <? Z.of_nat (length (s_blocks s))) then
          with_blocks s (alter (add_bytes (len (de_Text d) +! len (de_PartialJSON d) +! len (de_Thinking d)))
                           (Z.to_nat (ev_Index ev)) (s_blocks s))
        else s
    | None => s
    end
  else if String.eqb (ev_Type ev) "message_delta" then
    match ev_Usage ev with
    | Some u => with_usage s (merge (s_usage s) u) (rawUsageBytes payload)
    | None => s
    end
  else s.

Definition dataPrefix : bytes := of_string "data: ".

(** [bytes.TrimRight(line, "\r\n")] *)
Fixpoint trim_line (l : bytes) : bytes :=
  match l with
  | [] => []
  | c :: l' =>
      match trim_line l' with
      | [] => if Ascii.eqb c newline || Ascii.eqb c (byte 13) then [] else [c]
      | rest => c :: rest
      end
  end.

Definition line (l : bytes) (s : parsed) : parsed :=
  if negb (is_prefix dataPrefix l) then s
  else
    let payload := drop (length dataPrefix) l in
    match into_event payload (mkEvent "" 0 None None None None None) with
    | None => s
    | Some ev =>
        let s := match ev_Message ev with Some m => noteEdits (em_Context m) s | None => s end in
        on_event payload ev (noteEdits (ev_Context ev) s)
    end.

(** [(s *StreamParser) Write]: each line goes to the parser with its newline,
    trimmed. *)
Definition message_line (first : bytes) : parsed -> parsed := line (trim_line (first ++ [newline])).

Definition Write : StreamParser -> bytes -> StreamParser := write_bounded message_line.

Definition Result (p : StreamParser) : Response :=
  let s := parser p in
  if s_seen s
  then mkResponse (s_blocks s) (Some (WireUsage_Usage (Some (s_usage s)))) (raw_text (s_rawUsage s)) (s_edits s) (s_cleared s) false
  else mkResponse (s_blocks s) None "" (s_edits s) (s_cleared s) false.

End hash.

Definition IsEventStream (contentType : string) : bool := has_prefix "text/event-stream" (to_lower contentType).

End MessageReader.
