(* ===== verification/ChatReader.v ===== *)
(** The chat-completions shapes, reduced to what the Messages path produces
    ([src/internal/transcript/openai.go], [src/internal/ledger/openai.go] and
    [openai_stream.go]). *)

From S2P Require Import Prelude GoString Json Wire JsonValue Labels Transcript Blocks Breaker Ledger Stream Summary.
From S2P Require Import StreamLines MessageReader.
From Stdlib Require Import Ascii String.

Open Scope string_scope.
Open Scope list_scope.
Open Scope Z_scope.

Module ChatReader.
Import Json RawJson Labels Transcript Blocks LoopGuard Ledger Summary StreamLines MessageReader.

#[local] Abbreviation length := List.length.

(** ** Usage *)

Record OpenAIUsage := mkOpenAIUsage {
  PromptTokens : Z;
  CompletionTokens : Z;
  TotalTokens : Z;
  PromptDetails : option Z;
  CompletionDetails : option Z
}.

Definition zero_openai_usage : OpenAIUsage := mkOpenAIUsage 0 0 0 None None.

Definition into_openai_usage : decoded OpenAIUsage :=
  into_struct ["prompt_tokens"; "completion_tokens"; "total_tokens"; "prompt_tokens_details"; "completion_tokens_details"]
    (fun tag raw u =>
    let 'mkOpenAIUsage pt ct tot pd cd := u in
    if String.eqb tag "prompt_tokens" then (fun x => mkOpenAIUsage x ct tot pd cd) <$> into_int raw pt
    else if String.eqb tag "completion_tokens" then (fun x => mkOpenAIUsage pt x tot pd cd) <$> into_int raw ct
    else if String.eqb tag "total_tokens" then (fun x => mkOpenAIUsage pt ct x pd cd) <$> into_int raw tot
    else if String.eqb tag "prompt_tokens_details"
    then (fun x => mkOpenAIUsage pt ct tot x cd) <$>
         into_pointer 0 (into_struct ["cached_tokens"] (fun _ => into_int)) raw pd
    else (fun x => mkOpenAIUsage pt ct tot pd x) <$>
         into_pointer 0 (into_struct ["reasoning_tokens"] (fun _ => into_int)) raw cd).

(** [(u *OpenAIUsage) Usage()] *)
Definition OpenAIUsage_Usage (u : option OpenAIUsage) : Usage :=
  match u with
  | None => mkUsage 0 0 0 0 0 0 0 false
  | Some u =>
      let cached := default 0 (PromptDetails u) in
      let cached := if PromptTokens u <? cached then PromptTokens u else cached in
      let cached := if cached <? 0 then 0 else cached in
      mkUsage (PromptTokens u -! cached) 0 cached (CompletionTokens u) (default 0 (CompletionDetails u)) 0 0 false
  end.

(** ** The request *)

Record oaiCall := mkCall { oc_ID : string; oc_Name : string; oc_Arguments : bytes }.

Definition into_call : decoded oaiCall :=
  into_struct ["id"; "function"] (fun tag raw c =>
    if String.eqb tag "id" then (fun x => mkCall x (oc_Name c) (oc_Arguments c)) <$> into_string raw (oc_ID c)
    else into_struct ["name"; "arguments"] (fun tag raw c =>
           if String.eqb tag "name" then (fun x => mkCall (oc_ID c) x (oc_Arguments c)) <$> into_string raw (oc_Name c)
           else (fun x => mkCall (oc_ID c) (oc_Name c) x) <$> into_raw raw (oc_Arguments c)) raw c).

Record oaiMessage := mkOaiMessage {
  om_Role : string;
  om_Content : bytes;
  om_Name : string;
  om_ToolCalls : list oaiCall;
  om_ToolCallID : string
}.

Definition into_oaiMessage : decoded oaiMessage :=
  into_struct ["role"; "content"; "name"; "tool_calls"; "tool_call_id"] (fun tag raw m =>
    let 'mkOaiMessage ro co na tc id := m in
    if String.eqb tag "role" then (fun x => mkOaiMessage x co na tc id) <$> into_string raw ro
    else if String.eqb tag "content" then (fun x => mkOaiMessage ro x na tc id) <$> into_raw raw co
    else if String.eqb tag "name" then (fun x => mkOaiMessage ro co x tc id) <$> into_string raw na
    else if String.eqb tag "tool_calls"
    then (fun x => mkOaiMessage ro co na x id) <$> into_list (mkCall "" "" []) into_call raw tc
    else (fun x => mkOaiMessage ro co na tc x) <$> into_string raw id).

Record chat_request := mkChat {
  ch_Model : string;
  ch_Stream : bool;
  ch_Messages : list oaiMessage;
  ch_Tools : list string
}.

Definition into_chat : decoded chat_request :=
  into_struct ["model"; "stream"; "messages"; "tools"] (fun tag raw r =>
    let 'mkChat mo st ms tl := r in
    if String.eqb tag "model" then (fun x => mkChat x st ms tl) <$> into_string raw mo
    else if String.eqb tag "stream" then (fun x => mkChat mo x ms tl) <$> into_bool raw st
    else if String.eqb tag "messages"
    then (fun x => mkChat mo st x tl) <$> into_list (mkOaiMessage "" [] "" [] "") into_oaiMessage raw ms
    else (fun x => mkChat mo st ms x) <$>
         into_list "" (into_struct ["function"] (fun _ => into_struct ["name"] (fun _ => into_string))) raw tl).

Record OpenAIRequest := mkOpenAIRequest { or_Model : string; or_Stream : bool; or_Bytes : Z; or_Blocks : list Block }.

Definition kindForRole (role : string) : string := if String.eqb role "tool" then KindToolResult else KindText.

(** [json.Marshal] of a string: HTML's own characters escaped too. *)
Definition html_escape (c : ascii) : bytes :=
  if Ascii.eqb c "<" then of_string "\u003c" else if Ascii.eqb c ">" then of_string "\u003e"
  else if Ascii.eqb c "&" then of_string "\u0026" else [c].

Definition marshal_string (s : string) : bytes := flat_map html_escape (Stream.encode_string (of_string s)).

(** The text of a document whose quotes are written as apostrophes here. *)
Definition literal (s : string) : bytes := Stream.quoted s.

Definition blockIdentity (b : Block) : bytes :=
  literal "{'kind':" ++ marshal_string (Kind b) ++ literal ",'bytes':" ++ of_string (itoa (Bytes b))
  ++ (if String.eqb (ToolName b) "" then [] else literal ",'name':" ++ marshal_string (ToolName b)) ++ literal "}".

Section hash.
Context (sha256hex : string -> string).

(** The block of one message. *)
Definition message_block (m : oaiMessage) : Block :=
  let n := Wire.ContentBytes (om_Content m) in
  match om_ToolCalls m with
  | c :: _ =>
      mkBlock KindToolUse (LabelToolCallPrefix ++ oc_Name c) (n +! Wire.ContentBytes (oc_Arguments c)) ""
        (oc_ID c) (oc_Name c) (CallKey sha256hex (oc_Name c) (oc_Arguments c)) false None
  | [] =>
      if String.eqb (om_Role m) "tool"
      then mkBlock (kindForRole (om_Role m)) (LabelToolResultPrefix ++ "tool") n "" (om_ToolCallID m) "" "" false None
      else mkBlock (kindForRole (om_Role m)) (TextLabel (om_Role m)) n "" "" "" "" false None
  end.

Definition ParseOpenAIRequest (body : bytes) : option OpenAIRequest :=
  raw ← into_chat body (mkChat "" false [] []);
  Some (mkOpenAIRequest (ch_Model raw) (ch_Stream raw) (Wire.size_of body) (List.map message_block (ch_Messages raw))).

Definition block_role (b : Block) : string :=
  if String.eqb (Kind b) KindToolResult then "tool"
  else if String.eqb (Kind b) KindToolUse then "assistant" else "user".

(** [SummarizeOpenAIRequest]; the labeler is not used. *)
Definition SummarizeOpenAIRequest (body : bytes) : option RequestSummary :=
  req ← ParseOpenAIRequest body;
  let msgs := List.map (fun b => mkLMessage (block_role b) [b]) (or_Blocks req) in
  let '(size, prefix, session) :=
    match or_Blocks req with
    | [] => (0, "", "")
    | [a] => (Bytes a, hashOf sha256hex "prefix-" [blockIdentity a], hashOf sha256hex "session-" [blockIdentity a])
    | a :: b :: _ => (Bytes a, hashOf sha256hex "prefix-" [blockIdentity a],
                      hashOf sha256hex "session-" [blockIdentity a; blockIdentity b])
    end in
  Some (mkSummary (or_Model req) "" (or_Stream req) (mkPrompt size 0 0 [] 0 msgs false) prefix session).

End hash.

(** ** The response *)

Record chat_choice := mkChoice { cc_Content : string; cc_Reasoning : string; cc_ToolCalls : list string }.

Definition into_chat_message : decoded chat_choice :=
  into_struct ["content"; "reasoning_content"; "tool_calls"] (fun tag raw m =>
    let 'mkChoice co re tc := m in
    if String.eqb tag "content" then (fun x => mkChoice x re tc) <$> into_string raw co
    else if String.eqb tag "reasoning_content" then (fun x => mkChoice co x tc) <$> into_string raw re
    else (fun x => mkChoice co re x) <$>
         into_list "" (into_struct ["function"] (fun _ => into_struct ["name"] (fun _ => into_string))) raw tc).

Record openAIResponse := mkChatResponse {
  cr_Model : string;
  cr_Choices : list chat_choice;
  cr_Usage : option OpenAIUsage
}.

Definition into_chat_response : decoded openAIResponse :=
  into_struct ["model"; "choices"; "usage"] (fun tag raw r =>
    let 'mkChatResponse mo ch us := r in
    if String.eqb tag "model" then (fun x => mkChatResponse x ch us) <$> into_string raw mo
    else if String.eqb tag "choices"
    then (fun x => mkChatResponse mo x us) <$>
         into_list (mkChoice "" "" []) (into_struct ["message"] (fun _ => into_chat_message)) raw ch
    else (fun x => mkChatResponse mo ch x) <$> into_pointer zero_openai_usage into_openai_usage raw us).

Definition response_block (kind label tool : string) (n : Z) : Block := mkBlock kind label n "" "" tool "" false None.

Definition choice_blocks (c : chat_choice) : list Block :=
  (if String.eqb (cc_Reasoning c) "" then []
   else [response_block KindThinking LabelAssistantThinking "" (len (cc_Reasoning c))])
  ++ (if String.eqb (cc_Content c) "" then [] else [response_block KindText LabelAssistantText "" (len (cc_Content c))])
  ++ List.map (fun name => response_block KindToolUse (LabelToolCallPrefix ++ name) name 0) (cc_ToolCalls c).

(** [{}] and all-zero are the absence of a measurement. *)
Definition measured (u : option OpenAIUsage) : option OpenAIUsage :=
  match u with
  | Some x => if (PromptTokens x =? 0) && (CompletionTokens x =? 0) then None else u
  | None => None
  end.

Definition ParseOpenAIResponse (body : bytes) : Response :=
  match into_chat_response body (mkChatResponse "" [] None) with
  | None => unparsed
  | Some raw =>
      let blocks := flat_map choice_blocks (cr_Choices raw) in
      match measured (cr_Usage raw) with
      | Some u => mkResponse blocks (Some (OpenAIUsage_Usage (Some u))) (raw_text (rawUsageBytes body)) 0 0 false
      | None => mkResponse blocks None "" 0 0 false
      end
  end.

(** ** The stream *)

Record chat_delta := mkChatDelta { cd_Content : string; cd_Reasoning : string }.

Definition into_chat_delta : decoded chat_delta :=
  into_struct ["content"; "reasoning_content"] (fun tag raw d =>
    if String.eqb tag "content" then (fun x => mkChatDelta x (cd_Reasoning d)) <$> into_string raw (cd_Content d)
    else (fun x => mkChatDelta (cd_Content d) x) <$> into_string raw (cd_Reasoning d)).

Record chat_frame := mkFrame { fr_Choices : list chat_delta; fr_Usage : option OpenAIUsage }.

Definition into_frame : decoded chat_frame :=
  into_struct ["choices"; "usage"] (fun tag raw f =>
    if String.eqb tag "choices"
    then (fun x => mkFrame x (fr_Usage f)) <$>
         into_list (mkChatDelta "" "") (into_struct ["delta"] (fun _ => into_chat_delta)) raw (fr_Choices f)
    else (fun x => mkFrame (fr_Choices f) x) <$> into_pointer zero_openai_usage into_openai_usage raw (fr_Usage f)).

Record chat_parsed := mkChatParsed {
  cp_usage : option OpenAIUsage;
  cp_raw : option bytes;
  cp_thinkingBytes : Z;
  cp_bytes : Z
}.

Definition OpenAIStreamParser : Type := buffered chat_parsed.

Definition NewOpenAIStreamParser : OpenAIStreamParser := fresh (mkChatParsed None None 0 0).

(** [bytes.TrimSpace] *)
Definition trim_bytes (l : bytes) : bytes := of_string (TrimSpace (to_string l)).

Definition on_frame (payload : bytes) (f : chat_frame) (p : chat_parsed) : chat_parsed :=
  let n := fold_left (fun n c => n +! len (cd_Content c)) (fr_Choices f) (cp_bytes p) in
  let t := fold_left (fun n c => n +! len (cd_Reasoning c)) (fr_Choices f) (cp_thinkingBytes p) in
  match fr_Usage f with
  | None => mkChatParsed (cp_usage p) (cp_raw p) t n
  | Some u =>
      let raw := match into_struct ["usage"] (fun _ => into_raw) payload [] with
                 | Some raw => Some raw
                 | None => cp_raw p
                 end in
      mkChatParsed (Some u) raw t n
  end.

Definition chat_line (l : bytes) (p : chat_parsed) : chat_parsed :=
  if negb (is_prefix (of_string "data:") l) then p
  else
    let payload := trim_bytes (drop 5 l) in
    if (length payload =? 0)%nat || String.eqb (to_string payload) "[DONE]" then p
    else match into_frame payload (mkFrame [] None) with
         | None => p
         | Some f => on_frame payload f p
         end.

(** [(p *OpenAIStreamParser) Write]; nothing bounds the buffer. *)
Definition OpenAI_Write : OpenAIStreamParser -> bytes -> OpenAIStreamParser := write (fun l => chat_line (trim_bytes l)).

(** The thinking and the text counted, thinking first. *)
Definition counted_blocks (thinking text : Z) : list Block :=
  (if 0 <? thinking then [response_block KindThinking LabelAssistantThinking "" thinking] else [])
  ++ (if 0 <? text then [response_block KindText LabelAssistantText "" text] else []).

Definition OpenAI_Result (b : OpenAIStreamParser) : Response :=
  let p := parser b in
  let blocks := counted_blocks (cp_thinkingBytes p) (cp_bytes p) in
  match cp_usage p with
  | Some u => mkResponse blocks (Some (OpenAIUsage_Usage (Some u))) (raw_text (cp_raw p)) 0 0 false
  | None => mkResponse blocks None "" 0 0 false
  end.

End ChatReader.
