(* ===== verification/SummarySpec.v ===== *)
(** A summary says how much text a request holds, and nothing of it: what the
    messages say reaches the ledger as lengths, and as the one plain digest of
    the first message that names the session. *)

From S2P Require Import Prelude GoString Json Wire JsonValue Labels Transcript Blocks Breaker Ledger Stream Summary StreamLines ChatReader.
From Stdlib Require Import Ascii String.

Open Scope string_scope.
Open Scope list_scope.
Open Scope Z_scope.

#[local] Set Default Proof Using "All".

Module SummarySpec.
Import Json RawJson Labels Transcript Blocks LoopGuard Ledger Summary ChatReader.

#[local] Abbreviation length := List.length.

(** ** Blocks that measure the same *)

(** Everything about a block but the letters of its text: the same kind,
    identity, call and marker, texts of the same length, content that measures
    the same. *)
Record same_measure (a b : RawBlock) : Prop := {
  sm_Type : rb_Type a = rb_Type b;
  sm_ID : rb_ID a = rb_ID b;
  sm_Name : rb_Name a = rb_Name b;
  sm_Input : rb_Input a = rb_Input b;
  sm_ToolUseID : rb_ToolUseID a = rb_ToolUseID b;
  sm_IsError : rb_IsError a = rb_IsError b;
  sm_Source : rb_Source a = rb_Source b;
  sm_Marked : nonempty (rb_CacheControl a) = nonempty (rb_CacheControl b);
  sm_Text : len (rb_Text a) = len (rb_Text b);
  sm_Thinking : len (rb_Thinking a) = len (rb_Thinking b);
  sm_Content : Wire.ContentBytes (rb_Content a) = Wire.ContentBytes (rb_Content b);
  sm_Result : len (toolResultText (rb_Content a)) = len (toolResultText (rb_Content b))
}.

Inductive same_content : content -> content -> Prop :=
| same_text a b : len a = len b -> same_content (IsText a) (IsText b)
| same_blocks a b : Forall2 same_measure a b -> same_content (IsBlocks a) (IsBlocks b).

(** Two messages of one role whose contents measure the same. *)
Definition same_message (a b : bytes) : Prop :=
  exists ma mb ca cb,
    into_message a zero_message = Some ma /\ into_message b zero_message = Some mb /\
    wm_Role ma = wm_Role mb /\
    DecodeContent (wm_Content ma) = Some ca /\ DecodeContent (wm_Content mb) = Some cb /\ same_content ca cb.

Section hash.
Context (sha256hex : string -> string) (hmachex : string -> string -> string) (key : string).

Lemma same_block role names label a b :
  same_measure a b ->
  (DecodeBlock sha256hex a role names label).2 = (DecodeBlock sha256hex b role names label).2 /\
  strip_block (key_one hmachex key (DecodeBlock sha256hex a role names label).1)
  = strip_block (key_one hmachex key (DecodeBlock sha256hex b role names label).1).
Proof.
  intros [Ht Hi Hn Hp Hu He Hs _ Hx Hk Hc Hr].
  unfold DecodeBlock, note_call. rewrite Ht, Hi, Hn, Hp, Hu, He, Hs, Hx, Hk, Hc, Hr.
  repeat case_match; split; try done; unfold key_one, strip_block; cbn; repeat case_match; done.
Qed.

Lemma same_decoded role label a b :
  Forall2 same_measure a b -> forall names,
  (DecodeBlocks sha256hex a role names label).2 = (DecodeBlocks sha256hex b role names label).2 /\
  stripText (keyCalls hmachex key (DecodeBlocks sha256hex a role names label).1)
  = stripText (keyCalls hmachex key (DecodeBlocks sha256hex b role names label).1).
Proof.
  induction 1 as [|x y a b Hxy Hab IH]; intros names; [done |].
  destruct (same_block role names label x y Hxy) as [Hn Hb]. cbn [DecodeBlocks].
  destruct (DecodeBlock _ x _ _ _) as [bx nx], (DecodeBlock _ y _ _ _) as [by_ ny]. cbn in Hn, Hb. subst ny.
  destruct (IH nx) as [Hn' Hb'].
  destruct (DecodeBlocks _ a _ _ _) as [ba na], (DecodeBlocks _ b _ _ _) as [bb nb]. cbn in *. by rewrite Hn', Hb, Hb'.
Qed.

Lemma same_markers a b n : Forall2 same_measure a b -> markers a n = markers b n.
Proof.
  intros H. unfold markers. revert n. induction H as [|x y a b Hxy _ IH]; intros n; [done |]. cbn.
  rewrite (sm_Marked _ _ Hxy). apply IH.
Qed.

Lemma same_messages raws raws' st :
  Forall2 same_message raws raws' ->
  summarize_messages sha256hex hmachex key raws st = summarize_messages sha256hex hmachex key raws' st.
Proof.
  intros H. revert st. induction H as [|a b raws raws' Hab _ IH]; intros [p names]; [done |]. cbn [summarize_messages].
  destruct Hab as (ma & mb & ca & cb & Ea & Eb & Hrole & Ca & Cb & Hsame). unfold summarize_message.
  rewrite Ea, Eb. cbn [mbind option_bind]. rewrite Ca, Cb. cbn [mbind option_bind]. rewrite Hrole.
  destruct Hsame as [ta tb Hlen | ba bb Hblocks].
  - rewrite Hlen. apply IH.
  - rewrite (same_markers _ _ (CacheControlCount p) Hblocks).
    destruct (same_decoded (wm_Role mb) (Some (labeler hmachex key)) _ _ Hblocks names) as [Hn Hb].
    destruct (DecodeBlocks _ ba _ _ _) as [da na], (DecodeBlocks _ bb _ _ _) as [db nb]. cbn in Hn, Hb. subst nb.
    rewrite Hb. apply IH.
Qed.

(** Two requests that are the same but for what their messages say. *)
Definition same_request (a b : bytes) : Prop :=
  exists ra rb, into_request a zero_request = Some ra /\ into_request b zero_request = Some rb /\
    rq_Model ra = rq_Model rb /\ rq_Stream ra = rq_Stream rb /\ rq_System ra = rq_System rb /\ rq_Tools ra = rq_Tools rb /\
    rq_OutputConfig ra = rq_OutputConfig rb /\ rq_ContextManagement ra = rq_ContextManagement rb /\
    Forall2 same_message (rq_Messages ra) (rq_Messages rb).

(** The one field of a summary the letters of a message reach: the digest, with
    no key, of the system prompt and the first message as they were sent. *)
Definition session_hash (body : bytes) : string :=
  match into_request body zero_request with
  | Some req => match rq_Messages req with
                | [] => ""
                | first :: _ => ("session-" ++ substring 0 hashLabelBytes
                                   (sha256hex (to_string (rq_System req ++ [zero] ++ first ++ [zero]))))%string
                end
  | None => ""
  end.

(** C22: what the messages of a request say reaches its summary as lengths, and
    as one digest.  Two requests that differ in the letters of their messages'
    texts, thinking, results and attachments, but in no decoded length, role,
    tool call, image or marker, nor outside the messages, are both refused or
    have the same summary but for the session: and that is sixteen digits of
    the plain digest of the system prompt and the first message as sent. *)
Theorem text_reaches_a_summary_as_lengths_and_one_digest a b :
  same_request a b ->
  match SummarizeRequest sha256hex hmachex a key, SummarizeRequest sha256hex hmachex b key with
  | Some sa, Some sb =>
      sum_Model sa = sum_Model sb /\ sum_Effort sa = sum_Effort sb /\ sum_Stream sa = sum_Stream sb /\
      sum_Prompt sa = sum_Prompt sb /\ PrefixHash sa = PrefixHash sb /\
      SessionHash sa = session_hash a /\ SessionHash sb = session_hash b
  | None, None => True
  | _, _ => False
  end.
Proof.
  intros (ra & rb & Ea & Eb & Hm & Hs & Hy & Ht & Ho & Hc & Hms).
  unfold SummarizeRequest, session_hash. rewrite Ea, Eb. cbn [mbind option_bind]. rewrite Hm, Hs, Hy, Ht, Ho, Hc.
  destruct (systemSize (rq_System rb)) as [size count]. rewrite (same_messages _ _ _ Hms).
  destruct (summarize_messages _ _ _ _ _) as [st|]; cbn [mbind option_bind]; [| done].
  split_and!; try done.
  - destruct (rq_Messages ra); [done |]. cbn. unfold hashOf. cbn. by rewrite app_nil_r, <- app_assoc.
  - destruct (rq_Messages rb); [done |]. cbn. unfold hashOf. cbn. by rewrite app_nil_r, <- app_assoc.
Qed.

(** ** No text, and no call under its own digest *)

(** A block as the ledger may hold it: no text, and an identity that is empty
    or keyed. *)
Definition kept (b : Block) : Prop :=
  Text b = "" /\
  (Transcript.CallKey b = "" \/ exists call, Transcript.CallKey b = substring 0 hashLabelBytes (hmachex key call)).

Lemma DecodeBlock_kept rb role names label :
  kept (strip_block (key_one hmachex key (DecodeBlock sha256hex rb role names label).1)).
Proof.
  unfold kept, DecodeBlock. repeat case_match; cbn; unfold key_one, strip_block; cbn;
    repeat case_match; cbn; (split; [done |]); eauto.
  all: try (left; done).
Qed.

Lemma DecodeBlocks_kept rbs role label : forall names,
  Forall kept (stripText (keyCalls hmachex key (DecodeBlocks sha256hex rbs role names label).1)).
Proof.
  induction rbs as [|rb rbs IH]; intros names; [constructor |]. cbn [DecodeBlocks].
  pose proof (DecodeBlock_kept rb role names label) as Hb.
  destruct (DecodeBlock _ rb _ _ _) as [b n]. specialize (IH n).
  destruct (DecodeBlocks _ rbs _ _ _) as [bs n']. by constructor.
Qed.

Lemma summarize_messages_kept raws : forall st st',
  summarize_messages sha256hex hmachex key raws st = Some st' ->
  Forall (fun m => Forall kept (lm_Blocks m)) (Messages st.1) ->
  Forall (fun m => Forall kept (lm_Blocks m)) (Messages st'.1).
Proof.
  induction raws as [|raw raws IH]; intros [p names] st'; cbn [summarize_messages]; [by intros [= <-] |].
  intros Hst Hp. destruct (summarize_message _ _ _ _ raw) as [[p' names']|] eqn:Hm; [| done].
  apply (IH _ _ Hst). unfold summarize_message in Hm.
  destruct (into_message raw zero_message) as [m|]; [| done]. cbn [mbind option_bind] in Hm.
  destruct (DecodeContent (wm_Content m)) as [[text | blocks]|]; [| | done]; cbn [mbind option_bind] in Hm.
  - injection Hm as <- <-. cbn. apply Forall_app. split; [done |]. by repeat constructor; left.
  - pose proof (DecodeBlocks_kept blocks (wm_Role m) (Some (labeler hmachex key)) names) as Hk.
    destruct (DecodeBlocks _ blocks _ _ _) as [bs n]. injection Hm as <- <-. cbn. apply Forall_app. split; [done |].
    by constructor; [| constructor].
Qed.

Lemma add_tool_messages tools p : Messages (fold_left add_tool tools p) = Messages p.
Proof. revert p. induction tools as [|t tools IH]; intros p; [done |]. cbn. by rewrite IH. Qed.

(** A Messages request leaves no text in its record, and no tool call under
    a digest that can be recomputed without the key. *)
Lemma a_summary_holds_no_text body sum :
  SummarizeRequest sha256hex hmachex body key = Some sum ->
  Forall (fun m => Forall kept (lm_Blocks m)) (Messages (sum_Prompt sum)).
Proof.
  unfold SummarizeRequest. destruct (into_request body zero_request) as [req|]; [| done]. cbn [mbind option_bind].
  destruct (systemSize (rq_System req)) as [size count].
  destruct (summarize_messages _ _ _ _ _) as [st|] eqn:Hst; [| done]. cbn. intros [= <-]. cbn.
  apply (summarize_messages_kept _ _ _ Hst). cbn. by rewrite add_tool_messages.
Qed.

(** Not so for chat completions: a call's identity is the plain digest of its
    name and arguments. *)
Lemma chat_calls_are_not_keyed c rest m :
  om_ToolCalls m = c :: rest ->
  Transcript.CallKey (message_block sha256hex m) = Blocks.CallKey sha256hex (oc_Name c) (oc_Arguments c).
Proof. intros H. unfold message_block. by rewrite H. Qed.

(** Only the first of a message's calls has one. *)
Lemma chat_calls_after_the_first_leave_no_key c rest rest' m :
  om_ToolCalls m = c :: rest ->
  message_block sha256hex m
  = message_block sha256hex (mkOaiMessage (om_Role m) (om_Content m) (om_Name m) (c :: rest') (om_ToolCallID m)).
Proof. intros H. unfold message_block. by rewrite H. Qed.

End hash.

(** Two turns that say different things at the same length. *)
Definition saying (text result : string) : bytes :=
  Stream.quoted ("{'model':'m','system':'be brief','messages':[{'role':'user','content':'" ++ text
    ++ "'},{'role':'user','content':[{'type':'tool_result','tool_use_id':'t','content':'" ++ result ++ "'}]}]}")%string.

Lemma text_reaches_a_summary_as_lengths_and_one_digest_witness :
  exists sa sb,
    SummarizeRequest (fun s => s) (fun _ _ => "") (saying "abc" "yes!") "k" = Some sa /\
    SummarizeRequest (fun s => s) (fun _ _ => "") (saying "xyz" "none") "k" = Some sb /\
    sum_Prompt sa = sum_Prompt sb /\ PrefixHash sa = PrefixHash sb.
Proof.
  destruct (SummarizeRequest (fun s => s) (fun _ _ => "") (saying "abc" "yes!") "k") as [sa|] eqn:Ea; [| by vm_compute in Ea].
  destruct (SummarizeRequest (fun s => s) (fun _ _ => "") (saying "xyz" "none") "k") as [sb|] eqn:Eb; [| by vm_compute in Eb].
  exists sa, sb. split; [done |]. split; [done |].
  assert (same_request (saying "abc" "yes!") (saying "xyz" "none")) as H.
  { eexists _, _. split; [vm_compute; reflexivity |]. split; [vm_compute; reflexivity |]. split_and!; try reflexivity.
    constructor; [| constructor; [| constructor]].
    - eexists _, _, (IsText "abc"), (IsText "xyz").
      split; [vm_compute; reflexivity |]. split; [vm_compute; reflexivity |]. split; [reflexivity |].
      split; [vm_compute; reflexivity |]. split; [vm_compute; reflexivity |]. constructor; reflexivity.
    - eexists _, _, (IsBlocks [_]), (IsBlocks [_]).
      split; [vm_compute; reflexivity |]. split; [vm_compute; reflexivity |]. split; [reflexivity |].
      split; [vm_compute; reflexivity |]. split; [vm_compute; reflexivity |].
      constructor. repeat constructor. }
  pose proof (text_reaches_a_summary_as_lengths_and_one_digest (fun s => s) (fun _ _ => "") "k" _ _ H) as T.
  rewrite Ea, Eb in T. destruct T as (_ & _ & _ & Tp & Tx & _). split; [exact Tp | exact Tx].
Defined.

(** A stream that carries an empty usage object is recorded as free; the same
    object in a whole body is no measurement. *)
Lemma an_empty_usage_is_free_on_a_stream :
  resp_Usage (OpenAI_Result (OpenAI_Write NewOpenAIStreamParser (Stream.quoted "data: {'usage':{}}" ++ [StreamLines.newline])))
  = Some (mkUsage 0 0 0 0 0 0 0 false) /\
  resp_Usage (ParseOpenAIResponse (Stream.quoted "{'usage':{}}")) = None.
Proof. by vm_compute. Qed.

Lemma Label_total hmachex key name input :
  (forall k m, (12 <= String.length (hmachex k m))%nat) -> is_Some (Label_ hmachex key name input).
Proof.
  intros H. unfold Label_. destruct (LabelArg input PathArgs) as [[a v]|]; [| by eexists].
  unfold HashedPathLabel. specialize (H key v). destruct (Nat.ltb_spec (String.length (hmachex key v)) HashedLabelBytes);
    [unfold HashedLabelBytes in *; lia | by eexists].
Qed.

End SummarySpec.
