(* ===== verification/HostGuard.v ===== *)
(** Who may call the proxy ([src/internal/proxy/hostguard.go]): no browser, and
    over TCP only under a name of this machine.

    [net.SplitHostPort] and [net.ParseIP] are the standard library's, as far as
    a loopback address is told from the rest. *)

From S2P Require Import Prelude GoString Json.
From Stdlib Require Import Ascii String.

Open Scope string_scope.
Open Scope list_scope.
Open Scope Z_scope.

Module HostGuard.
Import Json.

#[local] Abbreviation length := List.length.

(** ** [net.SplitHostPort] *)

Definition is_byte (c : ascii) : ascii -> bool := Ascii.eqb c.

(** What is before the first [c] and what is after it. *)
Fixpoint cut_at (c : ascii) (l : bytes) : option (bytes * bytes) :=
  match l with
  | [] => None
  | x :: l => if Ascii.eqb x c then Some ([], l) else '(a, b) ← cut_at c l; Some (x :: a, b)
  end.

(** What is before the last [c]. *)
Definition before_last (c : ascii) (l : bytes) : option bytes :=
  '(_, a) ← cut_at c (rev l); Some (rev a).

Definition has_byte (c : ascii) (l : bytes) : bool := existsb (is_byte c) l.

(** The host, or [None] for an error.  Of the address in brackets the closing
    one must be followed by the last colon. *)
Definition SplitHost (hostport : bytes) : option bytes :=
  host ← before_last ":" hostport;
  match hostport with
  | c :: l =>
      if Ascii.eqb c "[" then
        '(inside, rest) ← cut_at "]" l;
        match rest with
        | x :: port =>
            if Ascii.eqb x ":" && negb (has_byte ":" port) && negb (has_byte "[" inside) && negb (has_byte "[" port)
               && negb (has_byte "]" port)
            then Some inside else None
        | [] => None
        end
      else if has_byte ":" host || has_byte "[" hostport || has_byte "]" hostport then None else Some host
  | [] => None
  end.

(** ** [net.ParseIP] *)

Fixpoint split_on (c : ascii) (l : bytes) : list bytes :=
  match l with
  | [] => [[]]
  | x :: l =>
      if Ascii.eqb x c then [] :: split_on c l
      else match split_on c l with
           | first :: rest => (x :: first) :: rest
           | [] => [[x]]
           end
  end.

Definition digit_value (c : ascii) : Z := Z.of_N (N_of_ascii c) - 48.

(** One field of a dotted address: no sign, no leading zero, at most 255. *)
Definition dotted_field (l : bytes) : option Z :=
  match l with
  | [] => None
  | c :: rest =>
      if negb (forallb is_digit l) || (Ascii.eqb c "0" && negb (length rest =? 0)%nat) || (3 <? length l)%nat then None
      else let n := fold_left (fun n c => n * 10 + digit_value c) l 0 in if n <=? 255 then Some n else None
  end.

Definition parseIPv4 (l : bytes) : option (Z * Z * Z * Z) :=
  match split_on "." l with
  | [a; b; c; d] =>
      a ← dotted_field a; b ← dotted_field b; c ← dotted_field c; d ← dotted_field d; Some (a, b, c, d)
  | _ => None
  end.

(** The hexadecimal digits a text starts with. *)
Fixpoint take_hex (l : bytes) : bytes * bytes :=
  match l with
  | c :: l' => if is_hex c then let '(a, b) := take_hex l' in (c :: a, b) else ([], l)
  | [] => ([], [])
  end.

Definition group_value (l : bytes) : Z := fold_left (fun n c => n * 16 + Z.of_N (hex_value c)) l 0.

(** The loop of [netip.parseIPv6]: the groups read so far, last first, and how
    many stood before the ellipsis. *)
Fixpoint v6_loop (fuel : nat) (groups : list Z) (ellipsis : option nat) (s : bytes) : option (list Z * option nat) :=
  match fuel with
  | O => match s with [] => Some (groups, ellipsis) | _ => None end
  | S fuel =>
      let '(hex, rest) := take_hex s in
      if (length hex =? 0)%nat || (4 <? length hex)%nat then None
      else if match rest with c :: _ => Ascii.eqb c "." | [] => false end then
        if (match ellipsis with None => negb (length groups =? 6)%nat | Some _ => false end) || (6 <? length groups)%nat
        then None
        else '(a, b, c, d) ← parseIPv4 s; Some (c * 256 + d :: a * 256 + b :: groups, ellipsis)
      else
        let groups := group_value hex :: groups in
        match rest with
        | [] => Some (groups, ellipsis)
        | c :: rest =>
            if negb (Ascii.eqb c ":") then None
            else match rest with
                 | [] => None
                 | c :: rest' =>
                     if Ascii.eqb c ":" then
                       match ellipsis, rest' with
                       | Some _, _ => None
                       | None, [] => Some (groups, Some (length groups))
                       | None, _ => v6_loop fuel groups (Some (length groups)) rest'
                       end
                     else v6_loop fuel groups ellipsis rest
                 end
        end
  end.

(** The eight groups of an address without a zone. *)
Definition parseIPv6 (l : bytes) : option (list Z) :=
  if has_byte "%" l then None
  else
    r ← match l with
        | c1 :: c2 :: rest =>
            if Ascii.eqb c1 ":" && Ascii.eqb c2 ":"
            then match rest with [] => Some ([], Some 0%nat) | _ => v6_loop 8 [] (Some 0%nat) rest end
            else v6_loop 8 [] None l
        | _ => v6_loop 8 [] None l
        end;
    let '(groups, ellipsis) := r in
    let groups := rev groups in
    match ellipsis with
    | None => if (length groups =? 8)%nat then Some groups else None
    | Some e => if (length groups <? 8)%nat
                then Some (take e groups ++ repeat 0 (8 - length groups)%nat ++ drop e groups) else None
    end.

(** [ParseIP] and [IsLoopback]: [None] is a text that is no address.  The first
    dot, colon or percent sign says which form it must have. *)
Definition ParseIP_IsLoopback (name : bytes) : option bool :=
  match find_first (fun c => Ascii.eqb c "." || Ascii.eqb c ":" || Ascii.eqb c "%") name with
  | None => None
  | Some c =>
      if Ascii.eqb c "." then '(a, _, _, _) ← parseIPv4 name; Some (a =? 127)
      else if Ascii.eqb c ":" then
        g ← parseIPv6 name;
        match g with
        | [0; 0; 0; 0; 0; 65535; hi; _] => Some (hi / 256 =? 127)
        | _ => Some (bool_decide (g = [0; 0; 0; 0; 0; 0; 0; 1]))
        end
      else None
  end.

(** ** The guard *)

Definition trim_prefix (c : ascii) (l : bytes) : bytes :=
  match l with x :: l' => if Ascii.eqb x c then l' else l | [] => [] end.

Definition trim_suffix (c : ascii) (l : bytes) : bytes := rev (trim_prefix c (rev l)).

(** [strings.CutSuffix] *)
Definition cut_suffix (s l : bytes) : option bytes :=
  if is_prefix (rev s) (rev l) then Some (take (length l - length s) l) else None.

(** A host without its port and brackets. *)
Definition name_is_local (name : bytes) : bool :=
  match ParseIP_IsLoopback name with
  | Some loopback => loopback
  | None =>
      let name := List.map lower_char (trim_suffix "." name) in
      if bool_decide (name = of_string "localhost") then true
      else match cut_suffix (of_string ".localhost") name with
           | Some rest => negb (length rest =? 0)%nat && negb (is_prefix (of_string ".") (rev rest))
           | None => false
           end
  end.

Definition hostIsLocal (host : string) : bool :=
  if String.eqb host "" then true
  else
    let h := of_string host in
    name_is_local (trim_suffix "]" (trim_prefix "[" (default h (SplitHost h)))).

(** [notLocal]: whether the request is refused.  [overTCP] says the listener. *)
Definition notLocal (origin secFetchMode : string) (overTCP : bool) (host : string) : bool :=
  if negb (String.eqb origin "") || negb (String.eqb secFetchMode "") then true
  else overTCP && negb (hostIsLocal host).

(** ** Examples *)

Example hosts_accepted :
  forallb hostIsLocal ["localhost"; "LocalHost:8080"; "app.localhost."; "127.0.0.1:99"; "127.9.8.7"; "[::1]:80"; "::1";
                       "[0:0::0:1]"; "[::ffff:127.0.0.1]:1"; "[::ffff:7f01:1]"; "localhost."] = true.
Proof. by vm_compute. Qed.

Example hosts_refused :
  existsb hostIsLocal ["example.com"; "localhost.example.com"; "127.0.0.1.example.com"; "10.0.0.1"; ".localhost"; "..localhost";
                       "[::]:80"; "0127.0.0.1"; "evillocalhost"; "[::1%lo0]"; "1.2.3"; "[1:2:3:4:5:6:7:8:9]"] = false.
Proof. by vm_compute. Qed.

(** ** Printed addresses *)

Definition dotted (a b c d : Z) : string := (itoa a ++ "." ++ itoa b ++ "." ++ itoa c ++ "." ++ itoa d)%string.

Definition octet (a : Z) : Prop := 0 <= a < 256.

(** A printed octet is read back, and holds neither dot, colon nor bracket. *)
Definition printed_ok (a : Z) : bool :=
  bool_decide (dotted_field (of_string (itoa a)) = Some a) && forallb is_digit (of_string (itoa a)).

Lemma octet_printed a : octet a -> dotted_field (of_string (itoa a)) = Some a /\ forallb is_digit (of_string (itoa a)) = true.
Proof.
  intros Ha. assert (forallb printed_ok (List.map Z.of_nat (seq 0 256)) = true) as H by by vm_compute.
  rewrite forallb_forall in H. specialize (H a). assert (printed_ok a = true) as Hp.
  { apply H, in_map_iff. exists (Z.to_nat a). unfold octet in Ha. split; [lia |]. apply in_seq. lia. }
  unfold printed_ok in Hp. apply andb_true_iff in Hp as [Hp Hd]. by apply bool_decide_eq_true_1 in Hp.
Qed.

Lemma digits_split l rest : forallb is_digit l = true -> split_on "." (l ++ "."%char :: rest) = l :: split_on "." rest.
Proof.
  induction l as [|c l IH]; [done |]. cbn [forallb app split_on]. intros [Hc Hl]%andb_true_iff.
  destruct (Ascii.eqb_spec c ".") as [-> | _]; [done |]. by rewrite IH.
Qed.

Lemma digits_whole l : forallb is_digit l = true -> split_on "." l = [l].
Proof.
  induction l as [|c l IH]; [done |]. cbn [forallb split_on]. intros [Hc Hl]%andb_true_iff.
  destruct (Ascii.eqb_spec c ".") as [-> | _]; [done |]. by rewrite IH.
Qed.

Lemma of_string_app a b : of_string (a ++ b)%string = of_string a ++ of_string b.
Proof. induction a as [|c a IH]; [done |]. cbn. by f_equal. Qed.

Lemma dotted_parsed a b c d :
  octet a -> octet b -> octet c -> octet d -> parseIPv4 (of_string (dotted a b c d)) = Some (a, b, c, d).
Proof.
  intros [Ha Da]%octet_printed [Hb Db]%octet_printed [Hc Dc]%octet_printed [Hd Dd]%octet_printed.
  unfold parseIPv4, dotted. rewrite !of_string_app. change (of_string ".") with ["."%char]. cbn [app].
  rewrite !digits_split, digits_whole by done. by rewrite Ha, Hb, Hc, Hd.
Qed.

(** ** An address under its port *)

Definition plain (c : ascii) : bool := is_digit c || Ascii.eqb c ".".

Lemma plain_not c x : plain x = false -> forall l, forallb plain l = true -> c ∈ l -> c <> x.
Proof. intros Hx l Hl Hc ->. rewrite forallb_forall in Hl. rewrite list_elem_of_In in Hc. by rewrite (Hl x Hc) in Hx. Qed.

Lemma plain_has c l : plain c = false -> forallb plain l = true -> has_byte c l = false.
Proof.
  intros Hc Hl. unfold has_byte. apply not_true_is_false. intros (x & Hx & E)%existsb_exists.
  apply Ascii.eqb_eq in E as <-. rewrite forallb_forall in Hl. by rewrite (Hl _ Hx) in Hc.
Qed.

Lemma plain_cut c l : plain c = false -> forallb plain l = true -> cut_at c l = None.
Proof.
  intros Hc. induction l as [|x l IH]; [done |]. cbn [forallb cut_at]. intros [Hx Hl]%andb_true_iff.
  destruct (Ascii.eqb_spec x c) as [-> | _]; [congruence |]. by rewrite IH.
Qed.

Lemma cut_at_app c a b : plain c = false -> forallb plain a = true -> cut_at c (a ++ c :: b) = Some (a, b).
Proof.
  intros Hc. induction a as [|x a IH]; cbn [app forallb cut_at]; [by rewrite Ascii.eqb_refl |].
  intros [Hx Ha]%andb_true_iff. destruct (Ascii.eqb_spec x c) as [-> | _]; [congruence |]. by rewrite IH.
Qed.

Lemma plain_rev l : forallb plain l = true -> forallb plain (rev l) = true.
Proof. rewrite !forallb_forall. intros H x Hx. by apply H, in_rev. Qed.

Lemma plain_trim c l : plain c = false -> forallb plain l = true -> trim_prefix c l = l.
Proof.
  destruct l as [|x l]; [done |]. cbn. intros Hc [Hx _]%andb_true_iff.
  destruct (Ascii.eqb_spec x c) as [-> | _]; [congruence | done].
Qed.

Lemma plain_trim_suffix c l : plain c = false -> forallb plain l = true -> trim_suffix c l = l.
Proof. intros Hc Hl. unfold trim_suffix. rewrite plain_trim by (by try apply plain_rev). apply rev_involutive. Qed.

Lemma dotted_plain a b c d : octet a -> octet b -> octet c -> octet d -> forallb plain (of_string (dotted a b c d)) = true.
Proof.
  intros [_ Da]%octet_printed [_ Db]%octet_printed [_ Dc]%octet_printed [_ Dd]%octet_printed.
  assert (forall l, forallb is_digit l = true -> forallb plain l = true) as Hp.
  { intros l. rewrite !forallb_forall. intros H x Hx. unfold plain. by rewrite (H x Hx). }
  unfold dotted. rewrite !of_string_app, !forallb_app, (Hp _ Da), (Hp _ Db), (Hp _ Dc), (Hp _ Dd). by vm_compute.
Qed.

Lemma dotted_first a b c d :
  octet a -> octet b -> octet c -> octet d ->
  ParseIP_IsLoopback (of_string (dotted a b c d)) = Some (a =? 127).
Proof.
  intros Ha Hb Hc Hd. unfold ParseIP_IsLoopback.
  assert (find_first (fun x => Ascii.eqb x "." || Ascii.eqb x ":" || Ascii.eqb x "%") (of_string (dotted a b c d))
          = Some "."%char) as ->.
  { apply octet_printed in Ha as [_ Da]. unfold dotted. rewrite of_string_app. revert Da.
    generalize (of_string (itoa a)). intros l. induction l as [|x l IH]; [done |]. cbn [forallb app find_first].
    intros [Hx Hl]%andb_true_iff. rewrite (IH Hl).
    destruct (Ascii.eqb_spec x ".") as [-> | _]; [done |]. destruct (Ascii.eqb_spec x ":") as [-> | _]; [done |].
    by destruct (Ascii.eqb_spec x "%") as [-> | _]. }
  change (Ascii.eqb "." ".") with true. cbv iota. by rewrite dotted_parsed.
Qed.

(** A name without brackets, alone or before a port, is looked at as it is. *)
Lemma plain_name name port :
  name <> "" -> forallb plain (of_string name) = true -> forallb is_digit (of_string port) = true ->
  hostIsLocal name = name_is_local (of_string name) /\ hostIsLocal (name ++ ":" ++ port) = name_is_local (of_string name).
Proof.
  intros Hn Hl Hp. assert (trim_suffix "]" (trim_prefix "[" (of_string name)) = of_string name) as Ht
    by (rewrite plain_trim, plain_trim_suffix by done; done).
  assert (SplitHost (of_string name) = None) as Hs.
  { unfold SplitHost, before_last. by rewrite plain_cut by (by try apply plain_rev). }
  assert (SplitHost (of_string (name ++ ":" ++ port)) = Some (of_string name)) as Hs'.
  { unfold SplitHost, before_last. rewrite !of_string_app. change (of_string ":") with [":"%char].
    assert (forallb plain (of_string port) = true) as Hpp.
    { rewrite forallb_forall in Hp |- *. intros x Hx. unfold plain. by rewrite (Hp x Hx). }
    rewrite rev_app_distr. cbn [app rev]. rewrite <- app_assoc. cbn [app].
    rewrite cut_at_app by (by try apply plain_rev). cbn [mbind option_bind]. rewrite rev_involutive.
    assert (Hb : forall c, plain c = false -> c <> ":"%char -> has_byte c (of_string name ++ ":"%char :: of_string port) = false).
    { intros c Hc Hne. unfold has_byte. rewrite existsb_app. fold (has_byte c (of_string name)). cbn [existsb].
      fold (has_byte c (of_string port)). rewrite !plain_has by done. unfold is_byte.
      by destruct (Ascii.eqb_spec c ":"). }
    rewrite !Hb by done. rewrite (plain_has ":") by done.
    destruct (of_string name) as [|x l] eqn:E; [by destruct name | cbn [app]].
    destruct (Ascii.eqb_spec x "[") as [-> | _]; [| done]. by cbn in Hl. }
  assert (String.eqb name "" = false) as He by by apply String.eqb_neq.
  assert (String.eqb (name ++ ":" ++ port) "" = false) as He' by (destruct name; by apply String.eqb_neq).
  unfold hostIsLocal. rewrite He, He', Hs, Hs'. cbn [default id]. by rewrite Ht.
Qed.

(** Over TCP a dotted address is let in exactly when it is a loopback
    address, with its port or without. *)
Lemma only_loopback_addresses_are_local a b c d port :
  octet a -> octet b -> octet c -> octet d -> forallb is_digit (of_string port) = true ->
  hostIsLocal (dotted a b c d) = (a =? 127) /\ hostIsLocal (dotted a b c d ++ ":" ++ port) = (a =? 127).
Proof.
  intros Ha Hb Hc Hd Hp. pose proof (dotted_first a b c d Ha Hb Hc Hd) as Hf.
  destruct (plain_name (dotted a b c d) port) as [-> ->]; [| by apply dotted_plain | done |].
  - unfold dotted. by destruct (itoa a).
  - unfold name_is_local. by rewrite Hf.
Qed.

Lemma only_loopback_addresses_are_local_witness :
  hostIsLocal "10.0.0.1:8787" = false /\ hostIsLocal "127.0.0.9:8787" = true.
Proof.
  split.
  - refine (proj2 (only_loopback_addresses_are_local 10 0 0 1 "8787" _ _ _ _ _)); unfold octet; first [lia | reflexivity].
  - refine (proj2 (only_loopback_addresses_are_local 127 0 0 9 "8787" _ _ _ _ _)); unfold octet; first [lia | reflexivity].
Defined.

End HostGuard.
