(* ===== verification/Rewrites.v ===== *)
(** Two rewrites of a request body: the pinned client version
    ([src/internal/proxy/freeze.go]) and the request for usage on a
    chat-completions stream ([withUsageReporting] of [policyinject.go]).

    [sha256hex] is the digest of the standard library in hexadecimal. *)

From S2P Require Import Prelude GoString GoFloat Fit Json JsonValue Stream Labels StreamLines MessageReader.
From S2P Require Import ChatReader.
From Stdlib Require Import Ascii String.

Open Scope string_scope.
Open Scope list_scope.
Open Scope Z_scope.

Module Rewrites.
Import Json JsonValue RawJson MessageReader ChatReader.

#[local] Abbreviation length := List.length.

(** ** Freezing the version *)

Definition version_tag : bytes := of_string "cc_version=".
Definition frozenVersion : bytes := of_string "cc_version=frozen".

(** [[0-9A-Za-z._-]] *)
Definition version_char (c : ascii) : bool :=
  is_alnum c || Ascii.eqb c "." || Ascii.eqb c "_" || Ascii.eqb c "-".

Fixpoint run_length (p : ascii -> bool) (l : bytes) : nat :=
  match l with
  | c :: l => if p c then S (run_length p l) else 0
  | [] => 0
  end.

(** The length of the match of [ccVersion] that starts here, if one does. *)
Definition version_here (l : bytes) : option nat :=
  if is_prefix version_tag l then
    match run_length version_char (drop (length version_tag) l) with
    | O => None
    | n => Some (length version_tag + n)%nat
    end
  else None.

(** [ccVersion.FindIndex]: where the leftmost match starts, and its length. *)
Fixpoint find_version (l : bytes) : option (nat * nat) :=
  match version_here l with
  | Some n => Some (0%nat, n)
  | None =>
      match l with
      | [] => None
      | _ :: l => '(i, n) ← find_version l; Some (S i, n)
      end
  end.

(** [freezeBillingHeader] *)
Definition freezeBillingHeader (body : bytes) : bytes * bool :=
  match find_version body with
  | None => (body, false)
  | Some (i, n) =>
      if (n <? length frozenVersion)%nat then (body, false)
      else (take i body ++ (frozenVersion ++ repeat " "%char (n - length frozenVersion)) ++ drop (i + n) body, true)
  end.

(** [toolsWireHash] *)
Definition toolsWireHash (sha256hex : string -> string) (body : bytes) : string :=
  match parse body with
  | Some (Object _) =>
      let raw := default [] (member_named "tools" body) in
      let t := Labels.TrimSpace (to_string raw) in
      if String.eqb t "" || String.eqb t "null" || String.eqb t "[]" then ""
      else substring 0 16 (sha256hex (to_string raw))
  | _ => ""
  end.

(** ** Asking for usage *)

(** [json.RawMessage] inside [json.Marshal]: no white space outside strings,
    HTML's own characters and the two line separators escaped. *)
Fixpoint compact (fuel : nat) (in_string escaped : bool) (l : bytes) : bytes :=
  match fuel, l with
  | S fuel, c :: l' =>
      if is_prefix [byte 226; byte 128; byte 168] l then of_string "\u2028" ++ compact fuel in_string false (drop 3 l)
      else if is_prefix [byte 226; byte 128; byte 169] l then of_string "\u2029" ++ compact fuel in_string false (drop 3 l)
      else if in_string then
        html_escape c ++
        (if escaped then compact fuel true false l'
         else if Ascii.eqb c backslash then compact fuel true true l'
         else compact fuel (negb (Ascii.eqb c quote)) false l')
      else if is_json_space c then compact fuel false false l'
      else c :: compact fuel (Ascii.eqb c quote) false l'
  | _, _ => []
  end.

Definition marshal_raw (raw : bytes) : bytes := compact (length raw) false false raw.

(** [map[string]json.RawMessage] from an object: a later value replaces an
    earlier one of its name. *)
Definition raw_map (body : bytes) : option (gmap string bytes) :=
  match parse body with
  | Some (Object _) => Some (fold_left (fun m kv => <[kv.1 := kv.2]> m) (members body) ∅)
  | Some Null => Some ∅
  | _ => None
  end.

Fixpoint join_members (l : list (string * bytes)) : bytes :=
  match l with
  | [] => []
  | [(k, v)] => marshal_string k ++ of_string ":" ++ marshal_raw v
  | (k, v) :: l => marshal_string k ++ of_string ":" ++ marshal_raw v ++ of_string "," ++ join_members l
  end.

(** [json.Marshal] of the map: its keys in order. *)
Definition marshal_map (m : gmap string bytes) : bytes :=
  of_string "{" ++ join_members (SliceStable (fun a b => String.ltb a.1 b.1) (map_to_list m)) ++ of_string "}".

Definition include_usage : bytes := literal "{'include_usage':true}".

Definition withUsageReporting (body : bytes) : bytes * bool :=
  match raw_map body with
  | None => (body, false)
  | Some raw =>
      match raw !! "stream" ≫= (fun v => into_bool v false) with
      | Some true =>
          match raw !! "stream_options" with
          | Some _ => (body, false)
          | None => (marshal_map (<["stream_options" := include_usage]> raw), true)
          end
      | _ => (body, false)
      end
  end.

Example asks_for_usage :
  withUsageReporting (literal "{ 'stream' : true, 'model': 'a<b' }")
  = (literal "{'model':'a\u003cb','stream':true,'stream_options':{'include_usage':true}}", true).
Proof. by vm_compute. Qed.

Example leaves_the_rest :
  withUsageReporting (literal "{'stream':false}") = (literal "{'stream':false}", false) /\
  withUsageReporting (literal "{'stream':true,'stream_options':null}") = (literal "{'stream':true,'stream_options':null}", false).
Proof. by vm_compute. Qed.

(** ** What freezing does *)

Lemma run_length_le p l : (run_length p l <= length l)%nat.
Proof. induction l as [|c l IH]; [done |]. cbn. destruct (p c); lia. Qed.

Lemma run_length_app p a b : forallb p a = true -> run_length p (a ++ b) = (length a + run_length p b)%nat.
Proof. induction a as [|c a IH]; [done |]. cbn. intros [-> H]%andb_true_iff. by rewrite IH. Qed.

(** A match is the tag, one or more characters of a version, and then
    something else. *)
Lemma version_here_spec l n :
  version_here l = Some n <->
  exists v rest, l = version_tag ++ v ++ rest /\ n = length (version_tag ++ v) /\ v <> [] /\
                 forallb version_char v = true /\ run_length version_char rest = 0%nat.
Proof.
  unfold version_here. split.
  - destruct (is_prefix version_tag l) eqn:Hp; [| done]. apply is_prefix_spec in Hp as [rest ->].
    rewrite drop_app_length. intros H.
    assert (forall m, run_length version_char rest = m -> m <> 0%nat -> exists v r, rest = v ++ r /\ length v = m /\
      forallb version_char v = true /\ run_length version_char r = 0%nat) as Hr.
    { clear. induction rest as [|c rest IH]; intros m; cbn [run_length]; [by intros <- |].
      destruct (version_char c) eqn:Hc; [| by intros <-]. intros <- _.
      destruct (run_length version_char rest) as [|k] eqn:Hk.
      - exists [c], rest. cbn. by rewrite Hc.
      - destruct (IH (S k)) as (v & r & -> & Hl & Hv & Hr); [done | done |]. exists (c :: v), r. cbn. by rewrite Hc, Hl. }
    destruct (run_length version_char rest) as [|m] eqn:Hm; [done |].
    destruct (Hr (S m)) as (v & r & -> & Hl & Hv & Hz); [done | done |]. exists v, r.
    injection H as <-. rewrite length_app, Hl. repeat split; [| done..]. by destruct v.
  - intros (v & rest & -> & -> & Hv & Hf & Hz).
    assert (is_prefix version_tag (version_tag ++ v ++ rest) = true) as -> by (apply is_prefix_spec; by eexists).
    rewrite drop_app_length, run_length_app, Hz, Nat.add_0_r by done. rewrite length_app.
    destruct v as [|c v]; [done |]. cbn [length]. done.
Qed.

Lemma find_version_here body i n :
  find_version body = Some (i, n) ->
  version_here (drop i body) = Some n /\ (forall j, (j < i)%nat -> version_here (drop j body) = None) /\ (i <= length body)%nat.
Proof.
  revert i. induction body as [|c body IH]; intros i.
  - cbn. intros H. discriminate H.
  - cbn [find_version]. destruct (version_here (c :: body)) as [m|] eqn:Hh.
    + intros [= <- <-]. cbn. repeat split; [done | lia | lia].
    + destruct (find_version body) as [[k m]|] eqn:Hf; cbn; [| done]. intros [= <- <-].
      destruct (IH k eq_refl) as (H1 & H2 & H3). cbn. repeat split; [done | | lia].
      intros [|j] Hj; cbn; [done |]. apply H2. lia.
Qed.

Lemma find_version_none body : find_version body = None -> forall j, version_here (drop j body) = None.
Proof.
  induction body as [|c body IH]; cbn [find_version].
  - intros _ [|j]; done.
  - destruct (version_here (c :: body)) as [m|] eqn:Hh; [done |].
    destruct (find_version body) as [[k m]|]; [done |]. intros _ [|j]; cbn; [done | by apply IH].
Qed.

(** Only what the match covers decides whether there is one. *)
Lemma find_version_first pre l n :
  version_here l = Some n -> (forall j, (j < length pre)%nat -> version_here (drop j (pre ++ l)) = None) ->
  find_version (pre ++ l) = Some (length pre, n).
Proof.
  intros Hl. induction pre as [|c pre IH]; intros Hj; cbn [app length].
  - destruct l; cbn [find_version]; [done |]. by rewrite Hl.
  - cbn [find_version]. pose proof (Hj 0%nat) as H0. cbn in H0. rewrite H0 by lia.
    rewrite IH; [done |]. intros j Hlt. apply (Hj (S j)). cbn. lia.
Qed.

(** Whether a match starts here shows in twelve bytes: the tag and one more. *)
Lemma version_here_take l : version_here l = None <-> version_here (take 12 l) = None.
Proof.
  unfold version_here. change (length version_tag) with 11%nat.
  assert (is_prefix version_tag (take 12 l) = is_prefix version_tag l) as ->.
  { apply eq_true_iff_eq. rewrite !is_prefix_spec. split; intros [rest Hr].
    - exists (rest ++ drop 12 l). rewrite app_assoc, <- Hr. by rewrite firstn_skipn.
    - exists (take 1 rest). subst l. by rewrite firstn_app. }
  destruct (is_prefix version_tag l); [| done].
  rewrite skipn_firstn_comm. change (12 - 11)%nat with 1%nat.
  destruct (drop 11 l) as [|c rest]; [done |]. cbn. by destruct (version_char c).
Qed.

Lemma version_here_before pre x y j :
  (j < length pre)%nat -> version_here (drop j (pre ++ version_tag ++ x)) = None ->
  version_here (drop j (pre ++ version_tag ++ y)) = None.
Proof.
  intros Hj. rewrite !(version_here_take (drop j _)).
  assert (forall z, take 12 (drop j (pre ++ version_tag ++ z)) = take 12 (drop j (pre ++ version_tag))) as E.
  { intros z. rewrite app_assoc, skipn_app, firstn_app.
    replace (12 - length (drop j (pre ++ version_tag)))%nat with 0%nat; [by rewrite firstn_0, app_nil_r |].
    rewrite length_skipn, length_app. change (length version_tag) with 11%nat. lia. }
  by rewrite !E.
Qed.

Definition frozen_body (pre rest : bytes) (n : nat) : bytes := pre ++ frozenVersion ++ repeat " "%char n ++ rest.

Lemma freeze_at pre v rest :
  find_version (pre ++ version_tag ++ v ++ rest) = Some (length pre, length (version_tag ++ v)) ->
  (6 <= length v)%nat ->
  freezeBillingHeader (pre ++ version_tag ++ v ++ rest) = (frozen_body pre rest (length v - 6), true).
Proof.
  intros Hf Hv. unfold freezeBillingHeader, frozen_body. rewrite Hf.
  change (length frozenVersion) with 17%nat. rewrite length_app. change (length version_tag) with 11%nat.
  destruct (Nat.ltb_spec (11 + length v) 17); [lia |].
  rewrite firstn_app, firstn_all, Nat.sub_diag, firstn_0, app_nil_r, skipn_app.
  replace (drop (length pre + (11 + length v)) pre) with (@nil ascii) by (symmetry; apply skipn_all2; lia).
  replace (length pre + (11 + length v) - length pre)%nat with (length (version_tag ++ v))
    by (rewrite length_app; change (length version_tag) with 11%nat; lia).
  rewrite (app_assoc version_tag), drop_app_length. cbn [app].
  replace (11 + length v - 17)%nat with (length v - 6)%nat by lia. by rewrite <- app_assoc.
Qed.

(** Freezing forgets the version and nothing else.  Two bodies that differ
    in the version alone, at the same length, are frozen to the same bytes, as
    long as they were; what is around the version stays where it was; and
    freezing again changes nothing. *)
Lemma freezing_forgets_the_version pre v v' rest :
  find_version (pre ++ version_tag ++ v ++ rest) = Some (length pre, length (version_tag ++ v)) ->
  length v' = length v -> forallb version_char v' = true -> (6 <= length v)%nat ->
  let out := frozen_body pre rest (length v - 6) in
  freezeBillingHeader (pre ++ version_tag ++ v ++ rest) = (out, true) /\
  freezeBillingHeader (pre ++ version_tag ++ v' ++ rest) = (out, true) /\
  freezeBillingHeader out = (out, true) /\
  length out = length (pre ++ version_tag ++ v ++ rest).
Proof.
  intros Hf Hl Hv' H6 out. pose proof (find_version_here _ _ _ Hf) as (Hh & Hb & _).
  rewrite drop_app_length in Hh. apply version_here_spec in Hh as (w & r & Ew & En & Hw & Hfw & Hz).
  rewrite !length_app in En. apply app_inv_head in Ew.
  assert (length w = length v) as Elen by lia. apply app_inj_1 in Ew as [<- <-]; [| done].
  assert (forall x, length x = length v -> forallb version_char x = true ->
    find_version (pre ++ version_tag ++ x ++ rest) = Some (length pre, length (version_tag ++ x))) as Hfind.
  { intros x Hx Hvx. apply find_version_first; [| intros j Hj; by apply (version_here_before pre (v ++ rest)), Hb].
    apply version_here_spec. exists x, rest. repeat split; [| done..]. intros ->. cbn in Hx. lia. }
  split; [by apply freeze_at |]. split; [| split].
  - rewrite freeze_at by (by auto || lia). by rewrite Hl.
  - unfold out, frozen_body. change frozenVersion with (version_tag ++ of_string "frozen"). rewrite <- !app_assoc.
    assert (find_version (pre ++ version_tag ++ of_string "frozen" ++ repeat " "%char (length v - 6) ++ rest)
            = Some (length pre, length (version_tag ++ of_string "frozen"))) as Hfo.
    { apply find_version_first; [| intros j Hj; by apply (version_here_before pre (v ++ rest)), Hb].
      apply version_here_spec. eexists _, (repeat " "%char (length v - 6) ++ rest). repeat split; [done |].
      by destruct (length v - 6)%nat. }
    rewrite freeze_at by (done || cbn; lia). unfold frozen_body. by rewrite Nat.sub_diag.
  - unfold out, frozen_body. rewrite !length_app, repeat_length. change (length frozenVersion) with 17%nat.
    change (length version_tag) with 11%nat. lia.
Qed.

Lemma freezing_forgets_the_version_witness :
  let out := frozen_body (literal "{'x':'") (literal "'}") 1 in
  freezeBillingHeader (literal "{'x':'cc_version=2.1.0.f'}") = (out, true) /\
  freezeBillingHeader (literal "{'x':'cc_version=2.1.1.0'}") = (out, true) /\
  freezeBillingHeader out = (out, true) /\ length out = length (literal "{'x':'cc_version=2.1.0.f'}").
Proof.
  exact (freezing_forgets_the_version (literal "{'x':'") (of_string "2.1.0.f") (of_string "2.1.1.0") (literal "'}")
           ltac:(vm_compute; reflexivity) eq_refl eq_refl ltac:(cbn; lia)).
Defined.

End Rewrites.

(** What a changed prefix would cost, decided before the request is sent
    ([src/internal/analysis/predictor.go], [src/internal/proxy/preflight.go]),
    and what is kept of a response's headers ([src/internal/proxy/quota.go]). *)

Module PreFlight.

(** ** The policy *)

Record PolicyState := mkPolicy { CeilingTokens : Z; OptInActive : bool }.

Definition EvaluatePreFlightPolicy (isDiverged : bool) (estimatedTokens ceiling : Z) (optInActive : bool) : bool :=
  if negb optInActive then false else isDiverged && (ceiling <? estimatedTokens).

Definition EstimateError : float64 := of_ratio 15 100.

Record PreFlightDeficit := mkDeficit { Tokens : Z; Low : Z; High : Z; Diverged : bool; Fitted : bool }.

Definition NewPreFlightDeficit (tokens : Z) (diverged fitted : bool) : PreFlightDeficit :=
  let margin := to_int (of_int tokens * EstimateError)%float in
  mkDeficit tokens (tokens -! margin) (tokens +! margin) diverged fitted.

Definition WouldRefuse (d : PreFlightDeficit) (p : PolicyState) : bool :=
  EvaluatePreFlightPolicy (Diverged d) (Tokens d) (CeilingTokens p) (OptInActive p).

Definition Straddles (d : PreFlightDeficit) (p : PolicyState) : bool :=
  if negb (OptInActive p) || negb (Diverged d) then false
  else (Low d <=? CeilingTokens p) && (CeilingTokens p <=? High d).

(** ** The guard *)

Definition tokensPerByte : float64 := Fit.DefaultTokensPerByte.

Inductive verdict := Pass | PassWarned | PassOverridden | RefusePreFlight.

(** [preFlight] on what the lane sent last and on the summary. *)
Definition preFlight (policy : PolicyState) (prior : option string) (prefixHash : string) (systemBytes toolBytes : Z)
    (override : string) : verdict :=
  if String.eqb prefixHash "" then Pass
  else match prior with
       | None => Pass
       | Some prior =>
           if String.eqb prior "" || String.eqb prior prefixHash then Pass
           else
             let d := NewPreFlightDeficit (to_int (of_int (systemBytes +! toolBytes) * tokensPerByte)%float) true false in
             if negb (WouldRefuse d policy) then Pass
             else if Straddles d policy then PassWarned
             else if negb (String.eqb override "") then PassOverridden
             else RefusePreFlight
       end.

(** A refusal rests on the estimate whole: the ceiling is below its band, and
    the band holds the estimate. *)
Lemma a_refusal_is_outside_the_band policy prior hash sb tb override :
  preFlight policy prior hash sb tb override = RefusePreFlight ->
  let d := NewPreFlightDeficit (to_int (of_int (sb +! tb) * tokensPerByte)%float) true false in
  OptInActive policy = true /\ override = "" /\ (exists p, prior = Some p /\ p <> hash) /\
  (Low d <= Tokens d <= High d -> CeilingTokens policy < Low d).
Proof.
  unfold preFlight. generalize (NewPreFlightDeficit (to_int (of_int (sb +! tb) * tokensPerByte)%float) true false).
  intros d H. cbv zeta.
  destruct (String.eqb hash ""); [done |]. destruct prior as [p|]; [| done].
  destruct (String.eqb p ""); [done |]. destruct (String.eqb_spec p hash) as [| Hp]; [done |].
  cbn [orb] in H. destruct (WouldRefuse d policy) eqn:Hw; [| done]. cbn [negb] in H.
  destruct (Straddles d policy) eqn:Hs; [done |]. destruct (String.eqb_spec override "") as [-> |]; [| done].
  unfold WouldRefuse, EvaluatePreFlightPolicy in Hw. destruct (OptInActive policy) eqn:Ho; [| done].
  cbn [negb] in Hw. apply andb_true_iff in Hw as [Hd Hc]. reflect_bool. unfold Straddles in Hs. rewrite Ho, Hd in Hs. cbn [negb orb] in Hs.
  repeat split; [by exists p |]. intros Hb. apply andb_false_iff in Hs as [Hs | Hs]; reflect_bool; lia.
Qed.

Example a_ceiling_in_the_band_warns :
  preFlight (mkPolicy 900 true) (Some "a") "b" 2000 2000 "" = PassWarned /\
  preFlight (mkPolicy 800 true) (Some "a") "b" 2000 2000 "" = RefusePreFlight /\
  preFlight (mkPolicy 800 false) (Some "a") "b" 2000 2000 "" = Pass /\
  preFlight (mkPolicy 800 true) (Some "a") "b" 2000 2000 "why" = PassOverridden.
Proof. by vm_compute. Qed.

(** ** Headers *)

(** A response's headers, under their canonical names. *)
Abbreviation header := (gmap string (list string)).

Definition header_get (h : header) (canonical : string) : string :=
  match h !! canonical with Some (v :: _) => v | _ => "" end.

Definition providerRequestID (h : header) : string :=
  let id := header_get h "Request-Id" in
  if negb (String.eqb id "") then id else header_get h "X-Request-Id".

Definition quotaPrefixes : list string := ["anthropic-ratelimit-"; "x-ratelimit-"].
Definition quotaExact : list string := ["retry-after"].

Definition quota_allowed (lower : string) : bool :=
  existsb (fun p => has_prefix p lower) quotaPrefixes || existsb (String.eqb lower) quotaExact.

(** One header: its first value under its lower-case name, when there is one
    and the name is allowed. *)
Definition quota_add (out : gmap string string) (nv : string * list string) : gmap string string :=
  match nv.2 with
  | [] => out
  | value :: _ =>
      let lower := to_lower nv.1 in
      if quota_allowed lower && negb (String.eqb value "") then <[lower := value]> out else out
  end.

Definition quotaFrom (it : iteration) (h : header) : gmap string string := fold_left quota_add (go_range it h) ∅.

(** Nothing but a rate-limit header is kept, and nothing empty. *)
Lemma only_quota_headers_are_kept it h name value :
  quotaFrom it h !! name = Some value ->
  quota_allowed name = true /\ value <> "" /\ exists n vs, h !! n = Some (value :: vs) /\ name = to_lower n.
Proof.
  unfold quotaFrom.
  assert (forall l (m : gmap string string), (forall n vs, (n, vs) ∈ l -> h !! n = Some vs) ->
    (forall k v, m !! k = Some v -> quota_allowed k = true /\ v <> "" /\ exists n vs, h !! n = Some (v :: vs) /\ k = to_lower n) ->
    forall k v, fold_left quota_add l m !! k = Some v ->
      quota_allowed k = true /\ v <> "" /\ exists n vs, h !! n = Some (v :: vs) /\ k = to_lower n) as H.
  { clear. induction l as [|[n vs] l IH]; intros m Hl Hm; [done |]. cbn. apply IH; [intros; apply Hl; by right |].
    intros k v. unfold quota_add. cbn. destruct vs as [|w vs]; [apply Hm |].
    destruct (quota_allowed (to_lower n)) eqn:Ha; [| apply Hm].
    destruct (String.eqb_spec w "") as [| Hw]; [apply Hm |]. cbn.
    destruct (decide (k = to_lower n)) as [-> | Hne].
    - rewrite lookup_insert_eq. intros [= <-]. repeat split; [done | done |]. exists n, vs. split; [apply Hl; left |]; done.
    - rewrite lookup_insert_ne by done. apply Hm. }
  apply H.
  - intros n vs. by rewrite elem_of_go_range.
  - intros k v. by rewrite lookup_empty.
Qed.

End PreFlight.
