(* ===== verification/GoMath.v ===== *)
(** The parts of [math] and [time] that the later reports use: [Ceil], [Max],
    [Hypot], the hours of a duration, and the numbers of a division. *)

From S2P Require Import Prelude GoString GoFloat GoTime.
From Stdlib Require Import SpecFloat Ascii String.

Open Scope Z_scope.

(** [math.Ceil]: the sign of a zero is kept. *)
Definition Ceil (f : float64) : float64 :=
  match f with
  | S754_finite s m e =>
      if 0 <=? e then f
      else binary_normalize prec emax (if s then - (Zpos m / 2 ^ (- e)) else - (- Zpos m / 2 ^ (- e))) 0 s
  | _ => f
  end.

(** [math.Max], its special cases in the source's order. *)
Definition Max (x y : float64) : float64 :=
  match x, y with
  | S754_infinity false, _ | _, S754_infinity false => S754_infinity false
  | S754_nan, _ | _, S754_nan => S754_nan
  | S754_zero s, S754_zero t => if s then y else x
  | _, _ => if fltb y x then x else y
  end.

Definition fabs (f : float64) : float64 :=
  match f with
  | S754_zero _ => S754_zero false
  | S754_infinity _ => S754_infinity false
  | S754_nan => S754_nan
  | S754_finite _ m e => S754_finite false m e
  end.

(** [math.Hypot] *)
Definition Hypot (p q : float64) : float64 :=
  match p, q with
  | S754_infinity _, _ | _, S754_infinity _ => S754_infinity false
  | S754_nan, _ | _, S754_nan => S754_nan
  | _, _ =>
      let p := fabs p in
      let q := fabs q in
      let '(p, q) := if fltb p q then (q, p) else (p, q) in
      if feqb p f0 then f0
      else let q := (q / p)%float in (p * fsqrt (of_int 1 + q * q))%float
  end.

(** [Duration.Hours] *)
Definition Hours (d : duration) : float64 :=
  (of_int (Z.quot d hour) + of_int (Z.rem d hour) / of_int 3600000000000)%float.

Example Ceil_up : Ceil (of_ratio 5 2) = of_int 3.
Proof. reflexivity. Qed.

Example Ceil_down : Ceil (of_ratio (-5) 2) = of_int (-2).
Proof. reflexivity. Qed.

Example Hypot_right : Hypot (of_int 3) (of_int 4) = of_int 5.
Proof. reflexivity. Qed.

Example Hours_half : Hours (30 * minute) = of_ratio 1 2.
Proof. reflexivity. Qed.

(** The parts of [strings], [path] and [sort] that the advice, the trimming
    probe and the transcript readers use. *)

Open Scope string_scope.
Open Scope list_scope.
Open Scope Z_scope.

(** [strings.Cut(s, sep)] where it is found. *)
Fixpoint Cut (sep s : string) : option (string * string) :=
  match strip_prefix sep s with
  | Some rest => Some ("", rest)
  | None => match s with
            | EmptyString => None
            | String c s' => '(a, b) ← Cut sep s'; Some (String c a, b)
            end
  end.

(** [strings.Index(s, sub)], a negative number where it is absent. *)
Fixpoint Index (s sub : string) : Z :=
  if has_prefix sub s then 0
  else match s with
       | EmptyString => -1
       | String _ s' => let i := Index s' sub in if i <? 0 then i else i + 1
       end.

(** [strings.TrimPrefix] *)
Definition TrimPrefix (s p : string) : string := default s (strip_prefix p s).

Definition TrimSuffix (s p : string) : string :=
  match strip_prefix (string_of_list_ascii (rev (list_ascii_of_string p))) (string_of_list_ascii (rev (list_ascii_of_string s))) with
  | Some r => string_of_list_ascii (rev (list_ascii_of_string r))
  | None => s
  end.

(** [s[n:]], [s[:n]] for an index in range. *)
Definition from_byte (n : Z) (s : string) : string := substring (Z.to_nat n) (String.length s) s.
Definition to_byte (n : Z) (s : string) : string := substring 0 (Z.to_nat n) s.

(** [strings.Split(s, sep)] for a separator of one byte. *)
Fixpoint Split1 (c : ascii) (s : string) : list string :=
  match s with
  | EmptyString => [""]
  | String b s' =>
      if Ascii.eqb b c then "" :: Split1 c s'
      else match Split1 c s' with
           | x :: rest => String b x :: rest
           | [] => [String b ""]
           end
  end.

Definition NUL : string := String "000"%char "".
Definition LF : ascii := "010"%char.

(** [path.Base] *)
Definition drop_slashes (l : list ascii) : list ascii :=
  (fix go l := match l with c :: l' => if Ascii.eqb c "/" then go l' else l | [] => [] end) l.

Fixpoint until_slash (l : list ascii) : list ascii :=
  match l with
  | c :: l' => if Ascii.eqb c "/" then [] else c :: until_slash l'
  | [] => []
  end.

Definition path_Base (p : string) : string :=
  match p with
  | EmptyString => "."
  | _ =>
      match until_slash (drop_slashes (rev (list_ascii_of_string p))) with
      | [] => "/"
      | l => string_of_list_ascii (rev l)
      end
  end.

(** [sort.Strings] *)
Definition Strings : list string -> list string := SliceStable String.ltb.

Lemma Cut_spec sep s a b : Cut sep s = Some (a, b) -> s = (a ++ sep ++ b)%string.
Proof.
  revert a b. induction s as [|c s IH]; intros a b H; cbn in H.
  - destruct sep as [|x sep]; cbn in H; [by injection H as <- <- | discriminate].
  - change (match sep with EmptyString => Some (String c s) | String a0 p' => if Ascii.eqb a0 c then strip_prefix p' s else None end)
      with (strip_prefix sep (String c s)) in H.
    destruct (strip_prefix sep (String c s)) as [rest|] eqn:E.
    + injection H as <- <-. by apply strip_prefix_spec in E.
    + destruct (Cut sep s) as [[x y]|] eqn:Ec; [| done]. injection H as <- <-. cbn. by rewrite (IH x y).
Qed.

Lemma Index_contains s sub : contains s sub = false -> Index s sub = -1.
Proof.
  unfold contains. induction s as [|c s IH]; cbn [suffixes existsb Index]; intros H; apply orb_false_iff in H as [-> H]; [done |].
  by rewrite IH.
Qed.

Lemma Index_found s sub : contains s sub = true -> 0 <= Index s sub.
Proof.
  unfold contains. induction s as [|c s IH]; cbn [suffixes existsb Index]; intros H; apply orb_true_iff in H as [H|H].
  - by rewrite H.
  - done.
  - by rewrite H.
  - destruct (has_prefix sub (String c s)); [lia |]. specialize (IH H). destruct (Z.ltb_spec (Index s sub) 0); lia.
Qed.

Example base_of_path : path_Base "/a/b/c.go/" = "c.go" /\ path_Base "" = "." /\ path_Base "//" = "/" /\ path_Base "x" = "x".
Proof. done. Qed.

Example cut_and_split : Cut ": " "tool result: Read" = Some ("tool result", "Read") /\ Split1 "," "a,,b" = ["a"; ""; "b"] /\ TrimSuffix "a.md" ".md" = "a".
Proof. done. Qed.
