(* ===== verification/Plans.v ===== *)
(** Advice over figures the caller supplies: the order of a plan
    ([src/internal/analysis/order.go]), whether a model switch repays itself
    ([payback.go]), what an idle prefix stands to lose ([idle.go]), how
    concentrated a session is ([outlier.go]), and the figures of a model pair
    ([route.go]).  The sentences printed with them are left out. *)

From S2P Require Import Prelude GoString GoFloat GoTime GoMath Transcript Tenancy CacheRules CachePrices.
From S2P Require Import Calibrate Fit.
From Stdlib Require Import Ascii String.

Open Scope string_scope.
Open Scope list_scope.
Open Scope Z_scope.

Module Plans.
Import CacheRules CachePrices Fit.

#[local] Abbreviation length := List.length.

(** ** The order of a plan *)

Inductive Scope := ScopeAppend | ScopeSystem | ScopeTools | ScopeMemory.

#[export] Instance Scope_eq_dec : EqDecision Scope.
Proof. solve_decision. Defined.

Definition invalidates (s : Scope) : bool := negb (bool_decide (s = ScopeAppend)).

Record Action := mkAction { act_Name : string; act_Scope : Scope; act_Tokens : Z }.

Definition rewrites (a : Action) : bool := invalidates (act_Scope a).

Record PlanOrder := mkPlan {
  Order : list Action;
  Invalidations : Z;
  InvalidationsAsGiven : Z;
  SavedTokens : Z;
  SavedUSD : float64;
  Priced : bool;
  AlreadyOptimal : bool
}.

(** One re-prefill for a run of rewriting actions. *)
Definition count_run (st : Z * bool) (a : Action) : Z * bool :=
  let '(n, inRun) := st in
  if rewrites a then (if inRun then n else n +! 1, true) else (n, false).

Definition countInvalidations (plan : list Action) : Z := (fold_left count_run plan (0, false)).1.

Definition countInvalidatingActions (plan : list Action) : Z :=
  fold_left (fun n a => if rewrites a then n +! 1 else n) plan 0.

(** The rewriting actions first, otherwise as written. *)
Definition grouped_before (a b : Action) : bool := rewrites a && negb (rewrites b).

Section prices.
Context (ov : option Rules).

Definition OrderPlan (plan : list Action) (prefixTokens : Z) (model : string) : PlanOrder :=
  match plan with
  | [] => mkPlan [] 0 0 0 f0 false true
  | _ =>
      let asGiven := countInvalidations plan in
      let ordered := SliceStable grouped_before plan in
      let now := countInvalidations ordered in
      let saved := asGiven -! now in
      let tokens := if (0 <? saved) && (0 <? prefixTokens) then saved *! prefixTokens else 0 in
      let '(price, known) := PriceFor ov model in
      let priced := known && (0 <? tokens) in
      mkPlan ordered now asGiven tokens
        (if priced then (of_int tokens / of_int 1000000 * InputPerMTok price)%float else f0) priced (asGiven =? now)
  end.

(** ** Idle prefixes *)

Definition warnWithin : duration := 60 * second.
Definition warnFloorTokens : Z := 25000.

Record IdleRisk := mkIdle {
  idle_Model : string;
  PrefixTokens : Z;
  Idle : duration;
  idle_TTL : duration;
  Remaining : duration;
  ExcessTokens : Z;
  ExcessUSD : float64;
  idle_Warn : bool
}.

Definition MeasureIdleRisk (model : string) (prefixTokens : Z) (idle ttl : duration) : IdleRisk :=
  let ttl := if ttl <=? 0 then TTLShort else ttl in
  let rem := ttl -! idle in
  let remaining := if 0 <? rem then rem else 0 in
  if prefixTokens <? MinCacheablePrefix ov model then mkIdle model prefixTokens idle ttl remaining 0 f0 false
  else
    let excess := round_to_int (of_int prefixTokens * (WriteMultiplier ttl - ReadMultiplierFor ov model))%float in
    let '(p, known) := PriceFor ov model in
    mkIdle model prefixTokens idle ttl remaining excess
      (if known then (of_int excess / of_int 1000000 * InputPerMTok p)%float else f0)
      ((0 <? remaining) && (remaining <=? warnWithin) && (warnFloorTokens <=? excess)).

(** ** A model and its rates *)

Definition BreakEvenTrim (alpha w hitRate : float64) : float64 :=
  let f := (hitRate * alpha + (of_int 1 - hitRate))%float in
  ((w - alpha) / (f + w - alpha))%float.

Record Topology := mkTopology {
  topo_Model : string;
  topo_ReadMult : float64;
  topo_InputPerMTok : float64;
  WriteShort : float64;
  WriteLong : float64;
  BreakEvenShort : float64;
  BreakEvenLong : float64;
  HitRate : float64;
  Known : bool
}.

Definition TopologyOf (model : string) (hitRate : float64) : Topology :=
  let '(price, known) := PriceFor ov model in
  if negb known || fleb (ReadMult price) f0 then mkTopology model f0 f0 f0 f0 f0 f0 f0 false
  else
    let ws := WriteMultiplier (5 * minute) in
    let wl := WriteMultiplier hour in
    mkTopology model (ReadMult price) (InputPerMTok price) ws wl (BreakEvenTrim (ReadMult price) ws hitRate)
      (BreakEvenTrim (ReadMult price) wl hitRate) hitRate true.

End prices.

Definition CrossRatio (alphaFrom alphaTo priceRatio cachedShare sigma : float64) : float64 :=
  let from := ((of_int 1 - cachedShare) + alphaFrom * cachedShare)%float in
  let to := ((of_int 1 - cachedShare) + alphaTo * cachedShare)%float in
  (priceRatio * sigma * (to / from))%float.

Definition InversionShare (alphaFrom alphaTo priceRatio : float64) : float64 * bool :=
  let den := (alphaFrom + priceRatio - of_int 1 - priceRatio * alphaTo)%float in
  if feqb den f0 then (f0, false)
  else
    let c := ((priceRatio - of_int 1) / den)%float in
    if is_nan c || fleb c f0 || fleb (of_int 1) c then (f0, false) else (c, true).

Definition MinDilationTurns : Z := 10.

Record Dilation := mkDilation {
  dil_From : string;
  dil_To : string;
  Sigma : float64;
  dil_RelativeError : float64;
  FromTurns : Z;
  ToTurns : Z;
  dil_Measured : bool;
  (** the sides that are missing, with what they miss *)
  Why : list (string * string)
}.

Definition no_fit : TokenFit := mkFit f0 f0 0 (measured 0) (measured 0).

Definition missing_side (model : string) (fit : option TokenFit) : list (string * string) :=
  match fit with
  | None => [(model, "no turns on the wire")]
  | Some fit =>
      if fit_Turns fit <? MinDilationTurns then [(model, "turns")]
      else if fleb (TokensPerByte fit) f0 then [(model, "no fitted tokens-per-byte")]
      else []
  end.

Definition MeasureDilation (from to : string) (fits : gmap string TokenFit) : Dilation :=
  let a := default no_fit (fits !! from) in
  let b := default no_fit (fits !! to) in
  match missing_side from (fits !! from) ++ missing_side to (fits !! to) with
  | [] => mkDilation from to (TokensPerByte b / TokensPerByte a)%float
            (if String.eqb from to then f0 else Hypot (RelativeError a) (RelativeError b))
            (fit_Turns a) (fit_Turns b) true []
  | missing => mkDilation from to f0 f0 (fit_Turns a) (fit_Turns b) false missing
  end.

(** ** Whether a switch repays itself *)

Record Switch := mkSwitch {
  CostUSD : float64;
  SavingPerTurnUSD : float64;
  PaybackTurns : Z;
  PaysBack : bool;
  WithinObserved : bool
}.

Definition Payback (switchCostUSD observedUSD projectedUSD : float64) (turns : Z) : Switch :=
  if turns <=? 0 then mkSwitch switchCostUSD f0 0 false false
  else
    let saving := ((observedUSD - projectedUSD) / of_int turns)%float in
    if fleb saving f0 then mkSwitch switchCostUSD saving 0 false false
    else
      let n := to_int (Max (of_int 1) (Ceil (switchCostUSD / saving)%float)) in
      mkSwitch switchCostUSD saving n true (n <=? turns).

(** ** Concentration *)

Definition minSessions : Z := 3.
Definition concentrationMultiple : float64 := of_int 2.
Definition minShareFloor : float64 := of_ratio 10 100.

Record Outlier := mkOutlier { Share : float64; out_Total : float64; out_Cost : float64; out_N : Z }.

Definition CompareToTotal (cost total : float64) (n : Z) : Outlier * bool :=
  if (n <? minSessions) || fleb total f0 then (mkOutlier f0 f0 f0 0, false)
  else (mkOutlier (cost / total)%float total cost n, true).

Definition Notable (o : Outlier) : bool :=
  if out_N o <? minSessions then false
  else
    let even := (of_int 1 / of_int (out_N o))%float in
    fleb (concentrationMultiple * even)%float (Share o) && fleb minShareFloor (Share o).

(** ** The order is the cheapest there is *)

(** Runs of rewriting actions, without the width. *)
Fixpoint runs (inRun : bool) (plan : list Action) : Z :=
  match plan with
  | [] => 0
  | a :: rest => (if rewrites a && negb inRun then 1 else 0) + runs (rewrites a) rest
  end.

Lemma runs_bound plan : forall b, 0 <= runs b plan <= Z.of_nat (length plan).
Proof.
  induction plan as [|a plan IH]; intros b; cbn [runs length]; [lia |].
  specialize (IH (rewrites a)). destruct (rewrites a && negb b); lia.
Qed.

Lemma count_runs plan : forall n b,
  0 <= n -> n + Z.of_nat (length plan) <= max_int64 -> (fold_left count_run plan (n, b)).1 = n + runs b plan.
Proof.
  induction plan as [|a plan IH]; intros n b Hn Hl; cbn [fold_left runs length] in *; [cbn; lia |].
  cbn [count_run]. destruct (rewrites a), b; cbn [negb andb]; rewrite IH; try lia_int; try (by lia);
    assert (n +! 1 = n + 1) as -> by lia_int; lia.
Qed.

Lemma countInvalidations_runs plan :
  Z.of_nat (length plan) <= max_int64 -> countInvalidations plan = runs false plan.
Proof. intros H. unfold countInvalidations. rewrite count_runs; lia. Qed.

#[local] Abbreviation rewriting := (List.filter rewrites).
#[local] Abbreviation appending := (List.filter (fun a => negb (rewrites a))).

Lemma insert_append x (l1 l2 : list Action) :
  rewrites x = false -> forallb rewrites l1 = true -> forallb (fun a => negb (rewrites a)) l2 = true ->
  insert_stable grouped_before x (l1 ++ l2) = l1 ++ x :: l2.
Proof.
  intros Hx H1 H2. induction l1 as [|y l1 IH]; cbn [app insert_stable forallb] in *.
  - destruct l2 as [|y l2]; [done |]. cbn in *. unfold grouped_before. apply andb_true_iff in H2 as [Hy%negb_true_iff _].
    by rewrite Hy.
  - apply andb_true_iff in H1 as [Hy H1]. unfold grouped_before at 1. rewrite Hy, Hx. cbn. by rewrite IH.
Qed.

Lemma forallb_filter {A} (p : A -> bool) l : forallb p (List.filter p l) = true.
Proof. induction l as [|x l IH]; [done |]. cbn. destruct (p x) eqn:E; [by cbn; rewrite E | done]. Qed.

Lemma grouped plan : SliceStable grouped_before plan = rewriting plan ++ appending plan.
Proof.
  induction plan as [|a plan IH]; [done |]. cbn. fold (SliceStable grouped_before plan). rewrite IH.
  destruct (rewrites a) eqn:E; cbn [negb].
  - cbn [app]. assert (forall l, insert_stable grouped_before a l = a :: l) as -> by
      (intros [|y l]; [done |]; cbn; unfold grouped_before; by rewrite E, andb_false_r).
    done.
  - apply insert_append; [done | apply forallb_filter..].
Qed.

Lemma runs_appends l : forallb (fun a => negb (rewrites a)) l = true -> forall b, runs b l = 0.
Proof.
  induction l as [|a l IH]; [done |]. cbn. intros [Ha%negb_true_iff Hl]%andb_true_iff b. rewrite Ha. cbn. by apply IH.
Qed.

Lemma runs_rewrites l rest : forallb rewrites l = true -> runs true (l ++ rest) = runs true rest.
Proof.
  induction l as [|a l IH]; [done |]. cbn. intros [Ha Hl]%andb_true_iff. rewrite Ha. cbn. by apply IH.
Qed.

Lemma runs_grouped plan : runs false (SliceStable grouped_before plan) = if existsb rewrites plan then 1 else 0.
Proof.
  rewrite grouped. pose proof (forallb_filter rewrites plan) as Hr. pose proof (runs_appends _ (forallb_filter (fun a => negb (rewrites a)) plan)) as Ha.
  assert (existsb rewrites plan = bool_decide (rewriting plan <> [])) as ->.
  { clear. induction plan as [|a plan IH]; [done |]. cbn. destruct (rewrites a); [done |]. exact IH. }
  destruct (rewriting plan) as [|a l]; [apply Ha |]. cbn in Hr |- *. apply andb_true_iff in Hr as [Hra Hr].
  rewrite Hra. cbn. by rewrite runs_rewrites, Ha.
Qed.

Lemma runs_some plan : existsb rewrites plan = true -> 1 <= runs false plan.
Proof.
  induction plan as [|a plan IH]; [done |]. cbn. destruct (rewrites a); cbn; [| done].
  intros _. pose proof (runs_bound plan true). lia.
Qed.

Lemma existsb_perm {A} (p : A -> bool) l1 l2 : l1 ≡ₚ l2 -> existsb p l1 = existsb p l2.
Proof. induction 1; cbn; [done | congruence | by rewrite !orb_assoc, (orb_comm (p y)) | congruence]. Qed.

(** The recommended order holds the same actions, the work and the rewrites
    each in the order they were written, and no order of them costs fewer
    re-prefills; the tokens saved are the re-prefills avoided, each of the
    prefix at risk. *)
Lemma no_order_costs_less (ov : option Rules) plan other prefixTokens model :
  Z.of_nat (length plan) <= max_int64 -> other ≡ₚ plan ->
  let r := OrderPlan ov plan prefixTokens model in
  Order r ≡ₚ plan /\ appending (Order r) = appending plan /\ rewriting (Order r) = rewriting plan /\
  Invalidations r = countInvalidations (Order r) /\ Invalidations r <= countInvalidations other /\
  (0 <= prefixTokens -> countInvalidations plan * prefixTokens <= max_int64 ->
   SavedTokens r = (countInvalidations plan - Invalidations r) * prefixTokens).
Proof.
  intros Hlen Hperm. pose proof (SliceStable_perm grouped_before plan) as Hp. pose proof (grouped plan) as Hg.
  assert (length (SliceStable grouped_before plan) = length plan) as Hl1 by by rewrite Hp.
  assert (length other = length plan) as Hl2 by by rewrite Hperm.
  assert (countInvalidations (SliceStable grouped_before plan) <= countInvalidations other) as Hle.
  { rewrite !countInvalidations_runs by lia. rewrite runs_grouped, <- (existsb_perm _ _ _ Hperm).
    pose proof (runs_bound other false). destruct (existsb rewrites other) eqn:E; [by apply runs_some | lia]. }
  assert (0 <= countInvalidations (SliceStable grouped_before plan) <= countInvalidations plan) as Hc.
  { rewrite !countInvalidations_runs by lia. pose proof (runs_bound plan false). rewrite runs_grouped.
    destruct (existsb rewrites plan) eqn:E; [pose proof (runs_some _ E) |]; lia. }
  assert (countInvalidations plan <= max_int64) as Hm.
  { rewrite countInvalidations_runs by lia. pose proof (runs_bound plan false). lia. }
  assert (forall (p q : Action -> bool) l, (forall a, p a = true -> q a = true) -> List.filter q (List.filter p l) = List.filter p l) as Hff.
  { intros p q l Hpq. induction l as [|a l IH]; [done |]. cbn. destruct (p a) eqn:E; [cbn; by rewrite (Hpq _ E), IH | done]. }
  assert (forall (p q : Action -> bool) l, (forall a, p a = true -> q a = false) -> List.filter q (List.filter p l) = []) as Hfn.
  { intros p q l Hpq. induction l as [|a l IH]; [done |]. cbn. destruct (p a) eqn:E; [cbn; by rewrite (Hpq _ E), IH | done]. }
  unfold OrderPlan. destruct plan as [|a plan'] eqn:Ep; [by apply Permutation_nil_r in Hperm as -> |].
  rewrite <- Ep in *. clear Ep. destruct (PriceFor ov model) as [price known]. cbn [Order Invalidations SavedTokens].
  split; [done |]. split; [rewrite Hg, List.filter_app, Hfn, Hff; [done | done |]; intros b; by destruct (rewrites b) |].
  split; [rewrite Hg, List.filter_app, Hff, Hfn, app_nil_r; [done | | done]; intros b; by destruct (rewrites b) |].
  split; [done |]. split; [done |]. intros Hpre Hbig.
  assert (countInvalidations plan -! countInvalidations (SliceStable grouped_before plan)
    = countInvalidations plan - countInvalidations (SliceStable grouped_before plan)) as -> by lia_int.
  destruct (0 <? countInvalidations plan - _) eqn:E1; destruct (0 <? prefixTokens) eqn:E2; reflect_bool; cbn; try nia.
  unfold imul. apply wrap64_small. unfold int64_range, min_int64, max_int64, two63 in *. nia.
Qed.

(** ** A payback that never comes *)

(** A saving of rounding noise overflows the turn count, which then reads as a
    payback inside the run observed. *)
Lemma noise_pays_back :
  let r := Payback (of_int 2) (of_ratio 1000000000000001 1000000000000000) (of_int 1) 10000 in
  PaybackTurns r = min_int64 /\ WithinObserved r = true.
Proof. split; vm_compute; reflexivity. Qed.

Definition act (name : string) (s : Scope) : Action := mkAction name s 0.

Lemma no_order_costs_less_witness :
  let plan := [act "read" ScopeAppend; act "edit CLAUDE.md" ScopeSystem; act "test" ScopeAppend; act "add a server" ScopeTools] in
  Invalidations (OrderPlan None plan 1000 "m") <= countInvalidations (rev plan) /\
  Invalidations (OrderPlan None plan 1000 "m") = 1.
Proof.
  cbv zeta. split; [| vm_compute; reflexivity].
  refine (proj1 (proj2 (proj2 (proj2 (proj2 (no_order_costs_less None
    [act "read" ScopeAppend; act "edit CLAUDE.md" ScopeSystem; act "test" ScopeAppend; act "add a server" ScopeTools]
    (rev [act "read" ScopeAppend; act "edit CLAUDE.md" ScopeSystem; act "test" ScopeAppend; act "add a server" ScopeTools])
    1000 "m" _ _)))))); [vm_compute; intros H; discriminate H | symmetry; apply Permutation_rev].
Defined.

End Plans.
