(* ===== verification/Quota.v ===== *)
(** What a request spent against a rate limit ([src/internal/quota/quota.go])
    and when the limit is reached at the rate observed ([forecast.go]).

    [ParseFloat] is the standard library's; a refusal to report carries which
    guard refused, not the sentence. *)

From S2P Require Import Prelude GoString GoFloat GoTime GoMath Transcript Tenancy CacheRules CachePrices CacheVerdict Ledger.
From Stdlib Require Import Ascii String.

Open Scope string_scope.
Open Scope list_scope.
Open Scope Z_scope.

Module Quota.
Import Ledger.

#[local] Abbreviation length := List.length.

(** ** The arms *)

Definition RemainingHeaders : list string := ["anthropic-ratelimit-tokens-remaining"; "x-ratelimit-remaining-tokens"].
Definition UtilizationHeaders : list string :=
  ["anthropic-ratelimit-unified-5h-utilization"; "anthropic-ratelimit-unified-7d-utilization"].

Definition MinStepsPerArm : Z := 20.
Definition MinPerArm : Z := 20.
Definition armDominance : float64 := of_ratio 9 10.

Definition classifyArm (u : option Transcript.Usage) : bool * bool :=
  match u with
  | None => (false, false)
  | Some u =>
      let cached := Transcript.CacheCreation u +! Transcript.CacheRead u in
      if cached =? 0 then (false, false)
      else if fleb armDominance (of_int (Transcript.CacheCreation u) / of_int cached)%float then (true, true)
      else if fleb armDominance (of_int (Transcript.CacheRead u) / of_int cached)%float then (false, true)
      else (false, false)
  end.

Record Sample := mkSample { Limit : string; Spent : Z; smp_Tokens : Z; Wrote : bool }.

(** ** Readings *)

(** [strconv.ParseInt(v, 10, 64)] *)
Definition ParseInt (v : string) : option Z :=
  let '(neg, digits) := match v with
                        | String c rest => if Ascii.eqb c "-" then (true, rest) else if Ascii.eqb c "+" then (false, rest) else (false, v)
                        | EmptyString => (false, v)
                        end in
  match digits with
  | EmptyString => None
  | _ =>
      n ← digits_value 0 digits;
      let n := if neg : bool then - n else n in
      if (min_int64 <=? n) && (n <=? max_int64) then Some n else None
  end.

Section parse.
Context (ParseFloat : string -> option float64).

Definition remaining (quota : gmap string string) (h : string) : option (string * Z) :=
  v ← quota !! h; n ← ParseInt v; Some (h, n).

(** Millionths of the window that are left. *)
Definition utilization (quota : gmap string string) (h : string) : option (string * Z) :=
  v ← quota !! h; f ← ParseFloat v; Some (h, to_int ((of_int 1 - f) * of_int 1000000)%float).

Definition first_some {A B} (f : A -> option B) (l : list A) : option B :=
  fold_right (fun x acc => match f x with Some y => Some y | None => acc end) None l.

Definition reading (r : Entry) : option (string * Z) :=
  match first_some (remaining (Ledger.Quota r)) RemainingHeaders with
  | Some x => Some x
  | None => first_some (utilization (Ledger.Quota r)) UtilizationHeaders
  end.

(** ** Samples *)

(** The chain: the samples so far and the reading before, if the chain holds. *)
Definition sample_step (st : list Sample * option (string * Z)) (r : Entry) : list Sample * option (string * Z) :=
  let '(out, prev) := st in
  match reading r with
  | None => (out, None)
  | Some (limit, val) =>
      match prev with
      | Some (prevLimit, prevVal) =>
          let d := prevVal -! val in
          if String.eqb limit prevLimit && (0 <=? d) then
            match rec_Usage r, classifyArm (rec_Usage r) with
            | Some u, (wrote, true) =>
                (out ++ [mkSample limit d (Transcript.Input u +! Transcript.CacheCreation u +! Transcript.CacheRead u) wrote],
                 Some (limit, val))
            | _, _ => (out, Some (limit, val))
            end
          else (out, Some (limit, val))
      | None => (out, Some (limit, val))
      end
  end.

Definition older (a b : Entry) : bool := Before (rec_Timestamp a) (rec_Timestamp b).

Definition Samples (recs : list Entry) : list Sample :=
  (fold_left sample_step (SliceStable older recs) ([], None)).1.

(** ** What a sample is *)

(** The pair a sample comes from, if it gives one. *)
Definition sample_of (before r : Entry) : list Sample :=
  match reading before, reading r, rec_Usage r with
  | Some (prevLimit, prevVal), Some (limit, val), Some u =>
      if String.eqb limit prevLimit && (0 <=? prevVal -! val) && (classifyArm (Some u)).2 then
        [mkSample limit (prevVal -! val) (Transcript.Input u +! Transcript.CacheCreation u +! Transcript.CacheRead u)
           (classifyArm (Some u)).1]
      else []
  | _, _, _ => []
  end.

Fixpoint neighbours {A} (l : list A) : list (A * A) :=
  match l with
  | a :: (b :: _) as rest => (a, b) :: neighbours rest
  | _ => []
  end.

Lemma sample_step_of out before r :
  sample_step (out, reading before) r = (out ++ sample_of before r, reading r).
Proof.
  unfold sample_step, sample_of. destruct (reading before) as [[pl pv]|]; destruct (reading r) as [[l v]|];
    try by rewrite app_nil_r.
  destruct (String.eqb l pl && (0 <=? pv -! v)) eqn:E; destruct (rec_Usage r) as [u|]; cbn [andb];
    try by rewrite app_nil_r.
  destruct (classifyArm (Some u)) as [w []]; cbn; [done | by rewrite app_nil_r].
Qed.

Lemma samples_from l : forall out before,
  (fold_left sample_step l (out, reading before)).1 = out ++ flat_map (fun p => sample_of p.1 p.2) (neighbours (before :: l)).
Proof.
  induction l as [|r l IH]; intros out before; cbn [fold_left]; [by rewrite app_nil_r |].
  rewrite sample_step_of, IH, <- app_assoc. done.
Qed.

(** A sample is the fall of one counter between two records next to each
    other in time, whoever's sessions they are of: never across a record that
    reported nothing, never between two counters, never across a reset, and
    always with the tokens of the later one, whose request falls on one arm. *)
Lemma a_sample_is_a_fall_between_neighbours recs :
  Samples recs = flat_map (fun p => sample_of p.1 p.2) (neighbours (SliceStable older recs)).
Proof.
  unfold Samples. destruct (SliceStable older recs) as [|r l]; [done |]. cbn [fold_left].
  assert (sample_step ([], None) r = ([], reading r)) as ->.
  { unfold sample_step. by destruct (reading r) as [[]|]. }
  by rewrite samples_from.
Qed.

End parse.

(** ** Comparison *)

Record Arms := mkArms {
  readN : Z; writeN : Z; readSteps : Z; writeSteps : Z; readTokens : Z; writeTokens : Z
}.

Definition tally (a : Arms) (x : Sample) : Arms :=
  if smp_Tokens x <=? 0 then a
  else if Wrote x
  then mkArms (readN a) (writeN a +! 1) (readSteps a) (writeSteps a +! Spent x) (readTokens a) (writeTokens a +! smp_Tokens x)
  else mkArms (readN a +! 1) (writeN a) (readSteps a +! Spent x) (writeSteps a) (readTokens a +! smp_Tokens x) (writeTokens a).

Inductive refusal := NotEnoughSamples | NotEnoughMovement | ReadsFree.

Record Comparison := mkComparison {
  ReadN : Z;
  WriteN : Z;
  ReadRate : float64;
  WriteRate : float64;
  Ratio : float64;
  cmp_Why : option refusal
}.

Definition Reportable (c : Comparison) : bool := bool_decide (cmp_Why c = None).

#[export] Instance refusal_eq_dec : EqDecision refusal.
Proof. solve_decision. Defined.

Definition Compare (s : list Sample) : Comparison :=
  let a := fold_left tally s (mkArms 0 0 0 0 0 0) in
  let readRate := if 0 <? readTokens a then (of_int (readSteps a) / of_int (readTokens a))%float else f0 in
  let writeRate := if 0 <? writeTokens a then (of_int (writeSteps a) / of_int (writeTokens a))%float else f0 in
  let refused why := mkComparison (readN a) (writeN a) readRate writeRate f0 (Some why) in
  if (readN a <? MinPerArm) || (writeN a <? MinPerArm) then refused NotEnoughSamples
  else if (readSteps a <? MinStepsPerArm) || (writeSteps a <? MinStepsPerArm) then refused NotEnoughMovement
  else if fleb readRate f0 then refused ReadsFree
  else mkComparison (readN a) (writeN a) readRate writeRate (writeRate / readRate)%float None.

(** ** Forecast *)

Definition minReadings : Z := 3.
Definition resolution : float64 := of_ratio 1 100.

Record Reading := mkReading { At : time; Util : float64; Window : string; rd_Status : string }.

Inductive unforeseen := NoReadings | TooFewReadings (n : Z) | NoElapsed | BelowResolution | NotRising.

Record Projection := mkProjection {
  prj_Window : string;
  prj_Util : float64;
  RatePerHour : float64;
  TimeToLimit : duration;
  prj_Why : option unforeseen
}.

(** The readings since the last fall. *)
Fixpoint since_reset (first : Reading) (cur rest : list Reading) : list Reading :=
  match rest with
  | [] => first :: cur
  | r :: rest =>
      if fltb (Util r) (Util (List.last cur first)) then since_reset r [] rest
      else since_reset first (cur ++ [r]) rest
  end.

Definition Forecast (rs : list Reading) : Projection :=
  match rs with
  | [] => mkProjection "" f0 f0 0 (Some NoReadings)
  | r :: rest =>
      let last := List.last rest r in
      let cur := since_reset r [] rest in
      let first := List.hd r cur in
      let fails rate why := mkProjection (Window last) (Util last) rate 0 (Some why) in
      if Z.of_nat (length cur) <? minReadings then fails f0 (TooFewReadings (Z.of_nat (length cur)))
      else
        let span := Sub (At last) (At first) in
        let rise := (Util last - Util first)%float in
        if span <=? 0 then fails f0 NoElapsed
        else if fltb rise resolution then fails f0 BelowResolution
        else
          let rate := (rise / Hours span)%float in
          if fleb rate f0 then fails rate NotRising
          else
            let headroom := (of_int 1 - Util last)%float in
            mkProjection (Window last) (Util last) rate
              (if fltb f0 headroom then to_int (headroom / rate * of_int hour)%float else 0) None
  end.

(** ** The unit of a step *)

(** Utilisation moves in hundredths and is counted in millionths, so one step
    of the counter on each arm passes the floor of twenty. *)
Definition arm (wrote : bool) : list Sample :=
  mkSample "anthropic-ratelimit-unified-5h-utilization" 10000 100 wrote
  :: repeat (mkSample "anthropic-ratelimit-unified-5h-utilization" 0 100 wrote) 19.

Lemma one_hundredth_passes_the_step_floor :
  (forall (parse : string -> option float64) q h v w,
     parse v = Some (of_ratio 1 4) -> parse w = Some (of_ratio 26 100) ->
     option_map snd (utilization parse (<[h := v]> q) h) = Some 750000 /\
     option_map snd (utilization parse (<[h := w]> q) h) = Some 740000) /\
  Reportable (Compare (arm false ++ arm true)) = true.
Proof.
  split; [| vm_compute; reflexivity]. intros parse q h v w Hv Hw. unfold utilization. rewrite !lookup_insert_eq.
  cbn. rewrite Hv, Hw. cbn. split; vm_compute; reflexivity.
Qed.

End Quota.
