(* ===== verification/Prog.v ===== *)
(** Goroutines that share a state: a program is a tree of operations on the
    shared state, each a critical section, and a system is the state with the
    programs in flight, which take their operations in any order.

    What a program does, whatever runs in between, is told by a monitor: a
    ghost value moved by each operation and its answer, with a condition on
    the operations it allows and one on what the value must be at the end. *)

From S2P Require Import Prelude.

Open Scope list_scope.

Module Prog.

Section prog.
Context {Op : Type -> Type} {Out : Type}.

Inductive prog :=
| Done (o : Out)
| Do {A} (e : Op A) (k : A -> prog).

(** The answers an operation can give. *)
Context (may : forall A, Op A -> A -> Prop).

(** ** Monitors *)

Section monitor.
Context {G : Type} (allowed : forall A, Op A -> G -> Prop) (δ : forall A, Op A -> A -> G -> G) (Q : G -> Out -> Prop).

Fixpoint monitored (g : G) (p : prog) : Prop :=
  match p with
  | Done o => Q g o
  | Do e k => allowed _ e g /\ forall a, may _ e a -> monitored (δ _ e a g) (k a)
  end.

End monitor.

(** ** Traces *)

(** An operation with its answer. *)
Inductive event :=
| Ev {A} (e : Op A) (a : A).

(** The operations a program takes to its end, with the answers it got. *)
Fixpoint traces (p : prog) (tr : list event) (o : Out) : Prop :=
  match p with
  | Done o' => tr = [] /\ o' = o
  | Do e k => exists a tr', may _ e a /\ tr = Ev e a :: tr' /\ traces (k a) tr' o
  end.

(** A program whose operations all have an answer has an end to come to. *)
Lemma has_trace p : (forall A (e : Op A), exists a, may _ e a) -> exists tr o, traces p tr o.
Proof.
  intros Hall. induction p as [o | A e k IH]; [by exists [], o |].
  destruct (Hall A e) as [a Ha], (IH a) as (tr & o & Ht). by exists (Ev e a :: tr), o, a, tr.
Qed.

Definition watch {G} (δ : forall A, Op A -> A -> G -> G) (g : G) (ev : event) : G :=
  match ev with Ev e a => δ _ e a g end.

(** A monitored program's every trace leaves the ghost as it must be. *)
Lemma monitored_traces {G} ok (δ : forall A, Op A -> A -> G -> G) Q p : forall g tr o,
  monitored ok δ Q g p -> traces p tr o -> Q (fold_left (watch δ) tr g) o.
Proof.
  induction p as [o' | A e k IH]; intros g tr o; cbn [monitored traces].
  - by intros HQ [-> ->].
  - intros [_ Hm] (a & tr' & Ha & -> & Ht). cbn. by apply (IH a); [apply Hm |].
Qed.

(** ** Systems *)

Section system.
Context {St : Type} (ready : forall A, Op A -> St -> bool) (perform : forall A, Op A -> St -> St * A).
Context (starts : nat -> prog -> Prop) (env : St -> St -> Prop).

Record system := mkSystem { shared : St; pool : gmap nat prog }.

(** A program arrives, takes its next operation if that does not block, or ends
    and leaves; and the state moves by itself (time passes). *)
Inductive step : system -> system -> Prop :=
| step_arrive s r p :
    pool s !! r = None -> starts r p -> step s (mkSystem (shared s) (<[r := p]> (pool s)))
| step_do s r A (e : Op A) k st a :
    pool s !! r = Some (Do e k) -> ready A e (shared s) = true -> perform A e (shared s) = (st, a) ->
    step s (mkSystem st (<[r := k a]> (pool s)))
| step_done s r o :
    pool s !! r = Some (Done o) -> step s (mkSystem (shared s) (delete r (pool s)))
| step_env s st : env (shared s) st -> step s (mkSystem st (pool s)).

Inductive reachable (init : St) : system -> Prop :=
| reach_init : reachable init (mkSystem init ∅)
| reach_step s s' : reachable init s -> step s s' -> reachable init s'.

(** A program from beginning to end with nothing in between. *)
Fixpoint exec (p : prog) (st : St) : St * list event * Out :=
  match p with
  | Done o => (st, [], o)
  | Do e k => let '(st, a) := perform _ e st in let '(st, tr, o) := exec (k a) st in (st, Ev e a :: tr, o)
  end.

Lemma exec_traces p : forall st st' tr o,
  (forall A (e : Op A) st st' a, perform A e st = (st', a) -> may A e a) ->
  exec p st = (st', tr, o) -> traces p tr o.
Proof.
  induction p as [o' | A e k IH]; intros st st' tr o Hmay; cbn; [by intros [= <- <- <-] |].
  destruct (perform A e st) as [st1 a] eqn:He. destruct (exec (k a) st1) as [[st2 tr'] o'] eqn:Ek. intros [= <- <- <-].
  exists a, tr'. split; [by eapply Hmay |]. split; [done |]. by eapply IH.
Qed.

(** A program's first [n] operations with nothing in between. *)
Fixpoint alone (n : nat) (p : prog) (st : St) : option (prog * St) :=
  match n, p with
  | O, _ => Some (p, st)
  | S n, Do e k => if ready _ e st then let '(st, a) := perform _ e st in alone n (k a) st else None
  | S _, Done _ => None
  end.

Lemma alone_reachable init r n : forall p p' st st',
  alone n p st = Some (p', st') -> reachable init (mkSystem st {[r := p]}) -> reachable init (mkSystem st' {[r := p']}).
Proof.
  induction n as [|n IH]; intros p p' st st'; cbn; [by intros [= <- <-] |].
  destruct p as [|A e k]; [done |]. destruct (ready A e st) eqn:Hr; [| done]. destruct (perform A e st) as [st1 a] eqn:He.
  intros Ha Hreach. apply (IH (k a) p' st1 st' Ha). eapply reach_step; [exact Hreach |].
  pose proof (step_do (mkSystem st {[r := Do e k]}) r A e k st1 a) as Hs. cbn in Hs.
  rewrite lookup_singleton_eq, insert_singleton_eq in Hs. by apply Hs.
Qed.

Lemma arrives init r p n p' st' :
  starts r p -> alone n p init = Some (p', st') -> reachable init (mkSystem st' {[r := p']}).
Proof.
  intros Hs Ha. eapply alone_reachable; [exact Ha |]. eapply reach_step; [apply reach_init |].
  by apply (step_arrive (mkSystem init ∅)).
Qed.

(** Each program in flight against its own ghost, and the shared state against
    all of them: what one operation does to its program's ghost keeps the
    relation, whoever else is in flight. *)
Section invariant.
Context {G : Type} (ok : forall A, Op A -> G -> Prop) (δ : forall A, Op A -> A -> G -> G) (Q : G -> Out -> Prop).
Context (g0 : nat -> G).
Context (I : St -> gmap nat G -> Prop).

Record invariant_laws : Prop := {
  law_answer A (e : Op A) st st' a : perform A e st = (st', a) -> may A e a;
  law_start r p : starts r p -> monitored ok δ Q (g0 r) p;
  law_arrive st gs r : gs !! r = None -> I st gs -> I st (<[r := g0 r]> gs);
  law_do st gs r g A (e : Op A) st' a : gs !! r = Some g -> ok A e g -> I st gs -> perform A e st = (st', a) ->
    I st' (<[r := δ A e a g]> gs);
  law_done st gs r g o : gs !! r = Some g -> Q g o -> I st gs -> I st (delete r gs);
  law_env st st' gs : env st st' -> I st gs -> I st' gs
}.

Definition invariant (s : system) : Prop :=
  exists gs, I (shared s) gs /\ map_Forall2 (fun _ => monitored ok δ Q) gs (pool s).

Lemma reachable_invariant init s : invariant_laws -> I init ∅ -> reachable init s -> invariant s.
Proof.
  intros [Hmay Hstart Harr Hdo Hdone Henv] Hi. induction 1 as [|s s' _ (gs & HI & Hp) Hstep].
  { exists ∅. split; [done |]. apply map_Forall2_empty. }
  assert (forall r, gs !! r = None <-> pool s !! r = None) as Hnone.
  { intros r. specialize (Hp r). destruct Hp; split; congruence. }
  destruct Hstep as [s r p Hr Hs | s r A e k st a Hr _ He | s r o Hr | s st He].
  - exists (<[r := g0 r]> gs). split; [apply Harr; [by apply Hnone | done] |].
    apply map_Forall2_insert_2; [by apply Hstart | done].
  - pose proof (Hp r) as Hg. rewrite Hr in Hg. inversion Hg as [g ? Hm E1 E2|]; subst.
    exists (<[r := δ A e a g]> gs). destruct Hm as [Hok Hm]. split; [by eapply Hdo |].
    apply map_Forall2_insert_2; [by eapply Hm, Hmay | done].
  - pose proof (Hp r) as Hg. rewrite Hr in Hg. inversion Hg as [g ? Hm E1 E2|]; subst.
    exists (delete r gs). split; [by eapply Hdone |]. by apply map_Forall2_delete.
  - exists gs. split; [by eapply Henv | done].
Qed.

End invariant.

End system.

End prog.

#[global] Arguments reachable_invariant {_ _ _ _ _ _ _ _ _ _ _ _ _ _ init s}.
#[global] Arguments monitored_traces {_ _ _ _ _ _ _ _ _ _ _}.
Arguments prog : clear implicits.
Arguments event : clear implicits.
Arguments system : clear implicits.

Notation "x <~ e ; k" := (Do e (fun x => k)) (at level 100, e at next level, right associativity).
Notation "e ;; k" := (Do e (fun _ => k)) (at level 100, right associativity).

End Prog.
