(* ===== verification/ResponsesReader.v ===== *)
(** The Responses API shapes ([src/internal/transcript/responses.go],
    [src/internal/ledger/responses.go] and [responses_stream.go]). *)

From S2P Require Import Prelude GoString Json Wire JsonValue Labels Transcript Blocks Breaker Ledger Summary.
From S2P Require Import StreamLines MessageReader ChatReader.
From Stdlib Require Import Ascii String.

Open Scope string_scope.
Open Scope list_scope.
Open Scope Z_scope.

Module ResponsesReader.
Import Json JsonValue RawJson Labels Transcript Blocks LoopGuard Ledger Summary StreamLines MessageReader ChatReader.

#[local] Abbreviation length := List.length.

(** ** Usage *)

Record ResponsesInputDetails := mkInputDetails { CachedTokens : Z; CacheWriteTokens : option Z }.

Record ResponsesUsage := mkResponsesUsage {
  InputTokens : Z;
  OutputTokens : Z;
  ru_TotalTokens : Z;
  InputDetails : option ResponsesInputDetails;
  ru_OutputDetails : option Z
}.

Definition zero_responses_usage : ResponsesUsage := mkResponsesUsage 0 0 0 None None.

Definition into_input_details : decoded ResponsesInputDetails :=
  into_struct ["cached_tokens"; "cache_write_tokens"] (fun tag raw d =>
    if String.eqb tag "cached_tokens" then (fun x => mkInputDetails x (CacheWriteTokens d)) <$> into_int raw (CachedTokens d)
    else (fun x => mkInputDetails (CachedTokens d) x) <$> into_pointer 0 into_int raw (CacheWriteTokens d)).

Definition into_responses_usage : decoded ResponsesUsage :=
  into_struct ["input_tokens"; "output_tokens"; "total_tokens"; "input_tokens_details"; "output_tokens_details"]
    (fun tag raw u =>
    let 'mkResponsesUsage i o to id od := u in
    if String.eqb tag "input_tokens" then (fun x => mkResponsesUsage x o to id od) <$> into_int raw i
    else if String.eqb tag "output_tokens" then (fun x => mkResponsesUsage i x to id od) <$> into_int raw o
    else if String.eqb tag "total_tokens" then (fun x => mkResponsesUsage i o x id od) <$> into_int raw to
    else if String.eqb tag "input_tokens_details"
    then (fun x => mkResponsesUsage i o to x od) <$> into_pointer (mkInputDetails 0 None) into_input_details raw id
    else (fun x => mkResponsesUsage i o to id x) <$>
         into_pointer 0 (into_struct ["reasoning_tokens"] (fun _ => into_int)) raw od).

Definition Empty (u : option ResponsesUsage) : bool :=
  match u with None => true | Some u => (InputTokens u =? 0) && (OutputTokens u =? 0) end.

(** [(u *ResponsesUsage) Usage()] *)
Definition ResponsesUsage_Usage (u : option ResponsesUsage) : Usage :=
  match u with
  | None => mkUsage 0 0 0 0 0 0 0 false
  | Some u =>
      let cached := match InputDetails u with Some d => CachedTokens d | None => 0 end in
      let write := match InputDetails u ≫= CacheWriteTokens with Some w => w | None => 0 end in
      let cached := if cached <? 0 then 0 else cached in
      let write := if write <? 0 then 0 else write in
      let cached := if InputTokens u <? cached then InputTokens u else cached in
      let write := if InputTokens u <? cached +! write then InputTokens u -! cached else write in
      mkUsage (InputTokens u -! cached -! write) write cached (OutputTokens u) (default 0 (ru_OutputDetails u)) 0 0 false
  end.

(** ** The request *)

Record ResponsesItem := mkItem { it_Role : string; it_Block : Block }.

Record ResponsesRequest := mkResponsesRequest {
  rr_Model : string;
  rr_Stream : bool;
  rr_PromptCacheKey : string;
  rr_Bytes : Z;
  rr_Instructions : Z;
  rr_Items : list ResponsesItem;
  rr_Tools : list ToolDef
}.

Record responses_body := mkResponsesBody {
  rb_Model : string;
  rb_Stream : bool;
  rb_Instructions : string;
  rb_PromptCacheKey : string;
  rb_Input : bytes;
  rb_Tools : list bytes
}.

Definition into_responses_body : decoded responses_body :=
  into_struct ["model"; "stream"; "instructions"; "prompt_cache_key"; "input"; "tools"] (fun tag raw r =>
    let 'mkResponsesBody mo st ins ck inp tl := r in
    if String.eqb tag "model" then (fun x => mkResponsesBody x st ins ck inp tl) <$> into_string raw mo
    else if String.eqb tag "stream" then (fun x => mkResponsesBody mo x ins ck inp tl) <$> into_bool raw st
    else if String.eqb tag "instructions" then (fun x => mkResponsesBody mo st x ck inp tl) <$> into_string raw ins
    else if String.eqb tag "prompt_cache_key" then (fun x => mkResponsesBody mo st ins x inp tl) <$> into_string raw ck
    else if String.eqb tag "input" then (fun x => mkResponsesBody mo st ins ck x tl) <$> into_raw raw inp
    else (fun x => mkResponsesBody mo st ins ck inp x) <$> into_list [] into_raw raw tl).

Record responsesInputItem := mkInputItem {
  ii_Type : string;
  ii_Role : string;
  ii_Content : bytes;
  ii_CallID : string;
  ii_Name : string;
  ii_Arguments : bytes;
  ii_Output : bytes;
  ii_Summary : bytes;
  ii_EncryptedContent : string
}.

Definition into_input_item : decoded responsesInputItem :=
  into_struct ["type"; "role"; "content"; "call_id"; "name"; "arguments"; "output"; "summary"; "encrypted_content"]
    (fun tag raw it =>
    let 'mkInputItem ty ro co id na ar ou su ec := it in
    if String.eqb tag "type" then (fun x => mkInputItem x ro co id na ar ou su ec) <$> into_string raw ty
    else if String.eqb tag "role" then (fun x => mkInputItem ty x co id na ar ou su ec) <$> into_string raw ro
    else if String.eqb tag "content" then (fun x => mkInputItem ty ro x id na ar ou su ec) <$> into_raw raw co
    else if String.eqb tag "call_id" then (fun x => mkInputItem ty ro co x na ar ou su ec) <$> into_string raw id
    else if String.eqb tag "name" then (fun x => mkInputItem ty ro co id x ar ou su ec) <$> into_string raw na
    else if String.eqb tag "arguments" then (fun x => mkInputItem ty ro co id na x ou su ec) <$> into_raw raw ar
    else if String.eqb tag "output" then (fun x => mkInputItem ty ro co id na ar x su ec) <$> into_raw raw ou
    else if String.eqb tag "summary" then (fun x => mkInputItem ty ro co id na ar ou x ec) <$> into_raw raw su
    else (fun x => mkInputItem ty ro co id na ar ou su x) <$> into_string raw ec).

Definition into_part : decoded (string * string) :=
  into_struct ["text"; "refusal"] (fun tag raw p =>
    if String.eqb tag "text" then (fun x => (x, p.2)) <$> into_string raw p.1
    else (fun x => (p.1, x)) <$> into_string raw p.2).

(** One part: its text when it decodes to some, measured whole otherwise. *)
Definition part_bytes (p : bytes) : Z :=
  match into_part p ("", "") with
  | Some (text, refusal) =>
      if negb (String.eqb text "") || negb (String.eqb refusal "") then len text +! len refusal else Wire.ContentBytes p
  | None => Wire.ContentBytes p
  end.

Definition ResponsesContentBytes (raw : bytes) : Z :=
  match into_list [] into_raw raw [] with
  | None => Wire.ContentBytes raw
  | Some parts => fold_left (fun n p => n +! part_bytes p) parts 0
  end.

Definition responsesRole (role : string) : string :=
  if String.eqb role RoleAssistant then RoleAssistant
  else if String.eqb role RoleSystem || String.eqb role "developer" then RoleSystem else RoleUser.

(** A tool's decoding error is ignored: a field of the right kind is kept. *)
Definition tool_field (tag : string) (t : bytes) : string :=
  match parse t with
  | Some (Object l) => (fold_left decode_string (field_values ["type"; "name"] tag l) ("", true)).1
  | _ => ""
  end.

Definition responses_tool (t : bytes) : ToolDef :=
  let name := tool_field "name" t in
  mkToolDef (if String.eqb name "" then tool_field "type" t else name) (Wire.size_of t).

Section hash.
Context (sha256hex : string -> string) (hmachex : string -> string -> string).

Definition responsesItemBlock (item : responsesInputItem) (rawLen : Z) : ResponsesItem :=
  if String.eqb (ii_Type item) "function_call" then
    mkItem RoleAssistant
      (mkBlock KindToolUse (LabelToolCallPrefix ++ ii_Name item) (len (ii_Name item) +! Wire.ContentBytes (ii_Arguments item))
         (to_string (ii_Arguments item)) (ii_CallID item) (ii_Name item)
         (CallKey sha256hex (ii_Name item) (ii_Arguments item)) false None)
  else if String.eqb (ii_Type item) "function_call_output" then
    mkItem "tool" (mkBlock KindToolResult (LabelToolResultPrefix ++ "tool") (ResponsesContentBytes (ii_Output item)) ""
                     (ii_CallID item) "" "" false None)
  else if String.eqb (ii_Type item) "reasoning" then
    mkItem RoleAssistant (mkBlock KindThinking LabelAssistantThinking
      (ResponsesContentBytes (ii_Summary item) +! len (ii_EncryptedContent item)) "" "" "" "" false None)
  else if String.eqb (ii_Type item) "message" || String.eqb (ii_Type item) "" && negb (String.eqb (ii_Role item) "") then
    let role := responsesRole (ii_Role item) in
    mkItem role (mkBlock KindText (TextLabel role) (ResponsesContentBytes (ii_Content item)) "" "" "" "" false None)
  else mkItem RoleUser (mkBlock KindOther "other" rawLen "" "" "" "" false None).

Definition input_item (it : bytes) : option ResponsesItem :=
  item ← into_input_item it (mkInputItem "" "" [] "" "" [] [] [] "");
  Some (responsesItemBlock item (Wire.size_of it)).

(** The input: a string, a list of items, or nothing. *)
Definition input_items (input : bytes) : option (list ResponsesItem) :=
  if negb (nonempty input) then Some []
  else match into_string input "" with
       | Some text => Some [mkItem RoleUser (mkBlock KindText LabelUserText (len text) "" "" "" "" false None)]
       | None => items ← into_list [] into_raw input []; RawJson.sequence (List.map input_item items)
       end.

Definition ParseResponsesRequest (body : bytes) : option ResponsesRequest :=
  raw ← into_responses_body body (mkResponsesBody "" false "" "" [] []);
  items ← input_items (rb_Input raw);
  Some (mkResponsesRequest (rb_Model raw) (rb_Stream raw) (rb_PromptCacheKey raw) (Wire.size_of body)
          (len (rb_Instructions raw)) items (List.map responses_tool (rb_Tools raw))).

Definition marshal_tool (t : ToolDef) : bytes :=
  literal "{'name':" ++ marshal_string (td_Name t) ++ literal ",'bytes':" ++ of_string (itoa (td_Bytes t)) ++ literal "}".

Fixpoint join_comma (l : list bytes) : bytes :=
  match l with
  | [] => []
  | [x] => x
  | x :: l => x ++ of_string "," ++ join_comma l
  end.

Definition responsesPrefixIdentity (req : ResponsesRequest) : bytes :=
  literal "{'instructions':" ++ of_string (itoa (rr_Instructions req))
  ++ (match rr_Tools req with
      | [] => []
      | tools => literal ",'tools':[" ++ join_comma (List.map marshal_tool tools) ++ literal "]"
      end) ++ literal "}".

Definition SummarizeResponsesRequest (body : bytes) (labeler : option string) : option RequestSummary :=
  req ← ParseResponsesRequest body;
  let bytes := fold_left (fun n t => n +! td_Bytes t) (rr_Tools req) 0 in
  let msgs := List.map (fun it =>
      let blocks := match labeler with Some key => keyCalls hmachex key [it_Block it] | None => [it_Block it] end in
      mkLMessage (it_Role it) (stripText blocks)) (rr_Items req) in
  let prefix := responsesPrefixIdentity req in
  let session :=
    if negb (String.eqb (rr_PromptCacheKey req) "")
    then hashOf sha256hex "session-" [of_string ("prompt_cache_key" ++ String zero (rr_PromptCacheKey req))%string]
    else hashOf sha256hex "session-" (prefix :: List.map (fun it => blockIdentity (it_Block it)) (take 2 (rr_Items req))) in
  Some (mkSummary (rr_Model req) "" (rr_Stream req)
          (mkPrompt (rr_Instructions req) bytes (Z.of_nat (length (rr_Tools req))) (rr_Tools req) 0 msgs false)
          (hashOf sha256hex "prefix-" [prefix]) session).

(** ** The response *)

Record responsesOutputItem := mkOutputItem {
  oi_Type : string;
  oi_Name : string;
  oi_CallID : string;
  oi_Content : list (string * string);
  oi_Arguments : bytes;
  oi_Summary : bytes;
  oi_EncryptedContent : string
}.

Definition zero_output : responsesOutputItem := mkOutputItem "" "" "" [] [] [] "".

(** A content element; its own type is decoded and read by nothing. *)
Definition into_output_part : decoded (string * string) :=
  into_struct ["type"; "text"; "refusal"] (fun tag raw p =>
    if String.eqb tag "type" then (fun _ => p) <$> into_string raw ""
    else if String.eqb tag "text" then (fun x => (x, p.2)) <$> into_string raw p.1
    else (fun x => (p.1, x)) <$> into_string raw p.2).

Definition into_output_item : decoded responsesOutputItem :=
  into_struct ["type"; "name"; "call_id"; "content"; "arguments"; "summary"; "encrypted_content"] (fun tag raw it =>
    let 'mkOutputItem ty na id co ar su ec := it in
    if String.eqb tag "type" then (fun x => mkOutputItem x na id co ar su ec) <$> into_string raw ty
    else if String.eqb tag "name" then (fun x => mkOutputItem ty x id co ar su ec) <$> into_string raw na
    else if String.eqb tag "call_id" then (fun x => mkOutputItem ty na x co ar su ec) <$> into_string raw id
    else if String.eqb tag "content"
    then (fun x => mkOutputItem ty na id x ar su ec) <$> into_list ("", "") into_output_part raw co
    else if String.eqb tag "arguments" then (fun x => mkOutputItem ty na id co x su ec) <$> into_raw raw ar
    else if String.eqb tag "summary" then (fun x => mkOutputItem ty na id co ar x ec) <$> into_raw raw su
    else (fun x => mkOutputItem ty na id co ar su x) <$> into_string raw ec).

Definition item_blocks (it : responsesOutputItem) : list Block :=
  if String.eqb (oi_Type it) "message" then
    omap (fun c => let n := len c.1 +! len c.2 in
                   if 0 <? n then Some (response_block KindText LabelAssistantText "" n) else None) (oi_Content it)
  else if String.eqb (oi_Type it) "function_call" then
    [mkBlock KindToolUse (LabelToolCallPrefix ++ oi_Name it) (len (oi_Name it) +! Wire.ContentBytes (oi_Arguments it)) ""
       (oi_CallID it) (oi_Name it) (CallKey sha256hex (oi_Name it) (oi_Arguments it)) false None]
  else if String.eqb (oi_Type it) "reasoning" then
    let n := ResponsesContentBytes (oi_Summary it) +! len (oi_EncryptedContent it) in
    if 0 <? n then [response_block KindThinking LabelAssistantThinking "" n] else []
  else [].

Record responses_reply := mkReply {
  re_Object : string;
  re_Error : bytes;
  re_Output : option (list responsesOutputItem);
  re_Usage : option ResponsesUsage
}.

Definition into_reply : decoded responses_reply :=
  into_struct ["object"; "error"; "output"; "usage"] (fun tag raw r =>
    let 'mkReply ob er ou us := r in
    if String.eqb tag "object" then (fun x => mkReply x er ou us) <$> into_string raw ob
    else if String.eqb tag "error" then (fun x => mkReply ob x ou us) <$> into_raw raw er
    else if String.eqb tag "output"
    then (fun x => mkReply ob er x us) <$> into_pointer [] (into_list zero_output into_output_item) raw ou
    else (fun x => mkReply ob er ou x) <$> into_pointer zero_responses_usage into_responses_usage raw us).

Definition absent {A} (x : option A) : bool := match x with None => true | Some _ => false end.

Definition ParseResponsesResponse (body : bytes) : Response :=
  match into_reply body (mkReply "" [] None None) with
  | None => unparsed
  | Some raw =>
      let errObj := to_string (re_Error raw) in
      if negb (String.eqb (re_Object raw) "") && negb (String.eqb (re_Object raw) "response") then unparsed
      else if negb (String.eqb errObj "") && negb (String.eqb errObj "null")
              && absent (re_Output raw) && absent (re_Usage raw) then unparsed
      else
        let blocks := flat_map item_blocks (default [] (re_Output raw)) in
        if Empty (re_Usage raw) then mkResponse blocks None "" 0 0 false
        else mkResponse blocks (Some (ResponsesUsage_Usage (re_Usage raw))) (raw_text (rawUsageBytes body)) 0 0 false
  end.

(** ** The stream *)

Record responses_parsed := mkResponsesParsed {
  sp_usage : option ResponsesUsage;
  sp_raw : option bytes;
  sp_textBytes : Z;
  sp_thinkingBytes : Z;
  sp_tools : list Block
}.

Definition ResponsesStreamParser : Type := buffered responses_parsed.

Definition NewResponsesStreamParser : ResponsesStreamParser := fresh (mkResponsesParsed None None 0 0 []).

Record responses_event := mkResponsesEvent {
  rv_Type : string;
  rv_Delta : string;
  rv_Item : option responsesOutputItem;
  rv_Response : option bytes
}.

Definition into_responses_event : decoded responses_event :=
  into_struct ["type"; "delta"; "item"; "response"] (fun tag raw e =>
    let 'mkResponsesEvent ty de it re := e in
    if String.eqb tag "type" then (fun x => mkResponsesEvent x de it re) <$> into_string raw ty
    else if String.eqb tag "delta" then (fun x => mkResponsesEvent ty x it re) <$> into_string raw de
    else if String.eqb tag "item" then (fun x => mkResponsesEvent ty de x re) <$> into_pointer zero_output into_output_item raw it
    else (fun x => mkResponsesEvent ty de it x) <$>
         into_pointer [] (into_struct ["usage"] (fun _ => into_raw)) raw re).

Definition is_one_of (s : string) (l : list string) : bool := existsb (String.eqb s) l.

Definition on_responses_event (ev : responses_event) (p : responses_parsed) : responses_parsed :=
  let 'mkResponsesParsed us raw tx th tl := p in
  if is_one_of (rv_Type ev) ["response.output_text.delta"; "response.refusal.delta"]
  then mkResponsesParsed us raw (tx +! len (rv_Delta ev)) th tl
  else if is_one_of (rv_Type ev) ["response.reasoning_summary_text.delta"; "response.reasoning_text.delta"]
  then mkResponsesParsed us raw tx (th +! len (rv_Delta ev)) tl
  else if String.eqb (rv_Type ev) "response.output_item.done" then
    match rv_Item ev with
    | Some it => if String.eqb (oi_Type it) "function_call" then mkResponsesParsed us raw tx th (tl ++ item_blocks it) else p
    | None => p
    end
  else if is_one_of (rv_Type ev) ["response.completed"; "response.incomplete"] then
    match rv_Response ev with
    | None => p
    | Some usage =>
        match into_responses_usage usage zero_responses_usage with
        | None => p
        | Some u => mkResponsesParsed (Some u) (Some usage) tx th tl
        end
    end
  else p.

Definition responses_line (l : bytes) (p : responses_parsed) : responses_parsed :=
  if negb (is_prefix (of_string "data:") l) then p
  else match into_responses_event (trim_bytes (drop 5 l)) (mkResponsesEvent "" "" None None) with
       | None => p
       | Some ev => on_responses_event ev p
       end.

(** [(p *ResponsesStreamParser) Write] *)
Definition Responses_Write : ResponsesStreamParser -> bytes -> ResponsesStreamParser :=
  write_bounded (fun l => responses_line (trim_bytes l)).

Definition Responses_Result (b : ResponsesStreamParser) : Response :=
  let p := parser b in
  let blocks := counted_blocks (sp_thinkingBytes p) (sp_textBytes p) ++ sp_tools p in
  if Empty (sp_usage p) then mkResponse blocks None "" 0 0 false
  else mkResponse blocks (Some (ResponsesUsage_Usage (sp_usage p))) (raw_text (sp_raw p)) 0 0 false.

End hash.

End ResponsesReader.
