(* ===== verification/Tap.v ===== *)
(** The response tap ([src/internal/proxy/tap.go]): every byte goes to the
    client, and a parser is fed on the side.

    [inflate] is what [compress/gzip] reads out of a body and whether it then
    fails; a header it refuses is nothing read and a failure.  The bytes the
    client took of a chunk are the caller's. *)

From S2P Require Import Prelude GoString Transcript Json Wire JsonValue Stream Blocks Ledger StreamLines MessageReader.
From S2P Require Import ChatReader ResponsesReader.
From Stdlib Require Import Ascii String.

Open Scope string_scope.
Open Scope list_scope.
Open Scope Z_scope.

Module Tap.
Import Json Ledger StreamLines MessageReader ChatReader ResponsesReader.

#[local] Abbreviation length := List.length.

Definition MaxResponseBytes : Z := 16777216.

(** Which family of parsers the route names. *)
Inductive family := Anthropic | OpenAI | Responses.

(** The incremental parser, if there is one: [stream], [ostream], [rstream]. *)
Inductive feeding :=
| NoParser
| MessageParser (p : StreamParser)
| ChatParser (p : OpenAIStreamParser)
| ResponsesParser (p : ResponsesStreamParser).

Record responseTap := mkTap {
  t_family : family;
  upstreamFailed : bool;
  t_status : Z;
  t_contentType : string;
  t_stream : feeding;
  t_buffer : bytes;
  t_gz : bool;
  t_dropped : bool
}.

(** [&responseTap{openai: ..., responses: ...}] *)
Definition NewTap (openai responses : bool) : responseTap :=
  mkTap (if responses then Responses else if openai then OpenAI else Anthropic) false 0 "" NoParser [] false false.

Definition parser_for (f : family) : feeding :=
  match f with
  | Responses => ResponsesParser NewResponsesStreamParser
  | OpenAI => ChatParser NewOpenAIStreamParser
  | Anthropic => MessageParser NewStreamParser
  end.

(** [WriteHeader], under the headers the response came with. *)
Definition WriteHeader (code : Z) (contentType contentEncoding : string) (t : responseTap) : responseTap :=
  let gz := equal_fold contentEncoding "gzip" in
  mkTap (t_family t) (upstreamFailed t) code contentType
    (if IsEventStream contentType && negb gz then parser_for (t_family t) else t_stream t)
    (t_buffer t) gz (t_dropped t).

Section external.
Context (sha256hex : string -> string) (inflate : bytes -> bytes * bool).

Definition feed_parser (f : feeding) (p : bytes) : feeding :=
  match f with
  | NoParser => NoParser
  | MessageParser s => MessageParser (MessageReader.Write sha256hex s p)
  | ChatParser s => ChatParser (OpenAI_Write s p)
  | ResponsesParser s => ResponsesParser (Responses_Write sha256hex s p)
  end.

(** [Write] once the client took [p]; the headers are written first when the
    handler had not. *)
Definition Tap_Write (p : bytes) (contentType contentEncoding : string) (t : responseTap) : responseTap :=
  let t := if t_status t =? 0 then WriteHeader 200 contentType contentEncoding t else t in
  let 'mkTap fa uf st ct sp buf gz dr := t in
  match sp with
  | NoParser =>
      if Wire.size_of buf + Wire.size_of p <=? MaxResponseBytes
      then mkTap fa uf st ct sp (buf ++ p) gz dr
      else mkTap fa uf st ct sp buf gz true
  | _ => mkTap fa uf st ct (feed_parser sp p) buf gz dr
  end.

Definition parser_result (f : feeding) : option Response :=
  match f with
  | NoParser => None
  | MessageParser s => Some (Result s)
  | ChatParser s => Some (OpenAI_Result s)
  | ResponsesParser s => Some (Responses_Result s)
  end.

(** [io.ReadAll(io.LimitReader(zr, MaxResponseBytes))]: a failure past the
    limit is never met. *)
Definition gunzip (body : bytes) : option bytes :=
  let '(out, failed) := inflate body in
  if MaxResponseBytes <=? Wire.size_of out then Some (take (Z.to_nat MaxResponseBytes) out)
  else if failed then None else Some out.

(** A whole body. *)
Definition parse_body (f : family) (contentType : string) (body : bytes) : Response :=
  if IsEventStream contentType then default unparsed (parser_result (feed_parser (parser_for f) body))
  else match f with
       | Responses => ParseResponsesResponse sha256hex body
       | OpenAI => ParseOpenAIResponse body
       | Anthropic => ParseResponse sha256hex body
       end.

Definition tap_result (t : responseTap) : Response :=
  match parser_result (t_stream t) with
  | Some r => r
  | None =>
      if t_dropped t then unparsed
      else if t_gz t then
        match gunzip (t_buffer t) with
        | None => unparsed
        | Some body => parse_body (t_family t) (t_contentType t) body
        end
      else parse_body (t_family t) (t_contentType t) (t_buffer t)
  end.

(** A response as it passes: its header, then the chunks the client took. *)
Definition respond (code : Z) (contentType contentEncoding : string) (chunks : list bytes) (t : responseTap) : responseTap :=
  fold_left (fun t p => Tap_Write p contentType contentEncoding t) chunks (WriteHeader code contentType contentEncoding t).

End external.

End Tap.

(** What the tap reads of a stream does not depend on how it was cut, and is
    the reading of its lines one by one; a stream decompressed into one write
    is the exception. *)

#[local] Set Default Proof Using "All".

Module TapSpec.
Import Json Ledger StreamLines MessageReader ChatReader ResponsesReader Tap.

#[local] Abbreviation length := List.length.

(** ** The lines of a text *)

(** The complete lines of a text, each without its newline, and what follows
    the last newline. *)
Fixpoint split_lines (l : bytes) : list bytes * bytes :=
  match l with
  | [] => ([], [])
  | c :: l =>
      let '(lines, rest) := split_lines l in
      if Ascii.eqb c newline then ([] :: lines, rest)
      else match lines with
           | [] => ([], c :: rest)
           | first :: lines => ((c :: first) :: lines, rest)
           end
  end.

Definition complete_lines (l : bytes) : list bytes := (split_lines l).1.

(** Every line, the unfinished one too. *)
Definition all_lines (l : bytes) : list bytes := complete_lines l ++ [(split_lines l).2].

Section lines.
Context {St : Type} (line : bytes -> St -> St).

Lemma split_cut l :
  split_lines l = match cut_line l with
                  | Some (first, rest) => (first :: (split_lines rest).1, (split_lines rest).2)
                  | None => ([], l)
                  end.
Proof.
  induction l as [|c l IH]; [done |]. cbn [split_lines cut_line]. rewrite IH.
  destruct (Ascii.eqb c newline).
  - rewrite <- IH. by destruct (split_lines l).
  - by destruct (cut_line l) as [[first rest]|].
Qed.

Lemma feed_lines l s :
  feed line l s = ((split_lines l).2, fold_left (fun s l => line l s) (complete_lines l) s).
Proof.
  unfold complete_lines. revert s. induction l as [l IH] using (induction_ltof1 _ length); unfold ltof in IH. intros s.
  rewrite feed_step, split_cut. destruct (cut_line l) as [[first rest]|] eqn:Hc; [| done].
  by rewrite (IH _ (cut_line_shorter _ _ _ Hc)).
Qed.

(** The line a text breaks off in is the start of a line of the whole. *)
Lemma rest_of_prefix (M : Z) q r :
  Forall (fun l => Wire.size_of l <= M) (all_lines (q ++ r)) -> Wire.size_of (split_lines q).2 <= M.
Proof.
  induction q as [q IH] using (induction_ltof1 _ length); unfold ltof in IH. unfold all_lines, complete_lines.
  rewrite (split_cut q). destruct (cut_line q) as [[first rest]|] eqn:Hc.
  - rewrite (split_cut (q ++ r)), (cut_line_app _ _ _ _ Hc). cbn. inversion 1; subst.
    by apply (IH _ (cut_line_shorter _ _ _ Hc)).
  - cbn [fst snd]. clear IH. intros H.
    assert (forall l, cut_line q = None -> exists first, Forall (fun l => Wire.size_of l <= M) (all_lines (q ++ l)) ->
      Wire.size_of q <= Wire.size_of first /\ Wire.size_of first <= M) as Hp.
    { clear H. intros l _. unfold all_lines, complete_lines. rewrite split_cut.
      assert (cut_line (q ++ l) = match cut_line l with Some (f, r) => Some (q ++ f, r) | None => None end) as ->.
      { induction q as [|c q IHq]; cbn [app]; [by destruct (cut_line l) as [[]|] |].
        cbn [cut_line] in Hc |- *. destruct (Ascii.eqb c newline); [done |].
        destruct (cut_line q) as [[]|]; [done |]. rewrite IHq by done. by destruct (cut_line l) as [[]|]. }
      destruct (cut_line l) as [[f r']|].
      - exists (q ++ f). cbn. inversion 1; subst. split; [| done]. unfold Wire.size_of. rewrite length_app. lia.
      - exists (q ++ l). cbn. inversion 1; subst. split; [| done]. unfold Wire.size_of. rewrite length_app. lia. }
    destruct (Hp r Hc) as [first Hf]. destruct (Hf H). lia.
Qed.

(** A buffer fed short chunks of short lines never gives up. *)
Lemma short_lines_kept (K : Z) chunks s :
  Forall (fun p => Wire.size_of p <= K) chunks ->
  Forall (fun l => Wire.size_of l <= maxPendingLine - K) (all_lines (List.concat chunks)) ->
  dropped (writes (write_bounded line) (fresh s) chunks) = false.
Proof.
  intros Hc Hl. unfold writes.
  assert (forall q b, dropped b = false -> pending b = (split_lines q).2 ->
    Forall (fun l => Wire.size_of l <= maxPendingLine - K) (all_lines (q ++ List.concat chunks)) ->
    dropped (fold_left (write_bounded line) chunks b) = false) as H; [| by apply (H [])].
  clear Hl. induction Hc as [|p chunks Hp _ IH]; intros q b Hb Hq Hl; [done |]. cbn in *.
  pose proof (rest_of_prefix _ _ _ Hl) as Hr. rewrite <- Hq in Hr. unfold write_bounded at 2. rewrite Hb.
  assert ((maxPendingLine <? Wire.size_of (pending b ++ p)) = false) as ->.
  { apply Z.ltb_ge. unfold Wire.size_of in *. rewrite length_app. lia. }
  rewrite (app_assoc q) in Hl. apply (IH (q ++ p)); [| | done]; unfold write; rewrite feed_lines; [done |]. cbn.
  pose proof (feed_app line q p s) as E. rewrite !feed_lines in E. rewrite Hq. congruence.
Qed.

(** The parser behind a buffer that kept everything has read the lines. *)
Lemma writes_lines s chunks :
  parser (writes (write line) (fresh s) chunks)
  = fold_left (fun s l => line l s) (complete_lines (List.concat chunks)) s.
Proof.
  rewrite writes_concat. destruct chunks as [|p chunks]; [done |].
  change (length (p :: chunks) =? 0)%nat with false. cbn [fresh]. unfold write. rewrite feed_lines. done.
Qed.

End lines.

Section external.
Context (sha256hex : string -> string) (inflate : bytes -> bytes * bool).

(** ** The reading of lines *)

(** Each family's parser over lines, one at a time. *)
Definition read_lines (f : family) (lines : list bytes) : Response :=
  match f with
  | Anthropic => Result (fresh (fold_left (fun s l => message_line sha256hex l s) lines nothing_parsed))
  | OpenAI => OpenAI_Result (fresh (fold_left (fun s l => chat_line (trim_bytes l) s) lines (mkChatParsed None None 0 0)))
  | Responses => Responses_Result
      (fresh (fold_left (fun s l => responses_line sha256hex (trim_bytes l) s) lines (mkResponsesParsed None None 0 0 [])))
  end.

Lemma feeding_chunks f chunks :
  fold_left (feed_parser sha256hex) chunks (parser_for f) =
  match f with
  | Anthropic => MessageParser (writes (write_bounded (message_line sha256hex)) (fresh nothing_parsed) chunks)
  | OpenAI => ChatParser (writes (write (fun l => chat_line (trim_bytes l))) (fresh (mkChatParsed None None 0 0)) chunks)
  | Responses => ResponsesParser
      (writes (write_bounded (fun l => responses_line sha256hex (trim_bytes l))) (fresh (mkResponsesParsed None None 0 0 [])) chunks)
  end.
Proof.
  destruct f; cbn; unfold NewStreamParser, NewOpenAIStreamParser, NewResponsesStreamParser, writes;
    match goal with |- fold_left _ _ (_ ?b) = _ => generalize b end;
    induction chunks as [|p chunks IH]; intros b; [done | apply IH | done | apply IH | done | apply IH].
Qed.

Definition streamed (f : family) (body : bytes) (K : Z) : Prop :=
  match f with
  | OpenAI => True
  | _ => Forall (fun l => Wire.size_of l <= maxPendingLine - K) (all_lines body)
  end.

Lemma parser_reads_lines f K chunks :
  Forall (fun p => Wire.size_of p <= K) chunks -> streamed f (List.concat chunks) K ->
  parser_result (fold_left (feed_parser sha256hex) chunks (parser_for f)) = Some (read_lines f (complete_lines (List.concat chunks))).
Proof.
  intros Hc Hl. rewrite feeding_chunks. destruct f; cbn [parser_result streamed read_lines] in *; f_equal.
  - pose proof (short_lines_kept (message_line sha256hex) K chunks nothing_parsed Hc Hl) as Hk.
    unfold Result. by rewrite (writes_bounded_kept _ _ _ Hk), writes_lines.
  - unfold OpenAI_Result. by rewrite writes_lines.
  - pose proof (short_lines_kept (fun l => responses_line sha256hex (trim_bytes l)) K chunks
                  (mkResponsesParsed None None 0 0 []) Hc Hl) as Hk.
    unfold Responses_Result. by rewrite (writes_bounded_kept _ _ _ Hk), writes_lines.
Qed.

Lemma respond_stream code contentType contentEncoding chunks t :
  code <> 0 -> IsEventStream contentType = true -> equal_fold contentEncoding "gzip" = false ->
  t_stream (respond sha256hex code contentType contentEncoding chunks t)
  = fold_left (feed_parser sha256hex) chunks (parser_for (t_family t)).
Proof.
  intros Hcode Hct Hce. unfold respond, WriteHeader. rewrite Hct, Hce. cbn [andb negb].
  assert (forall sp t, sp <> NoParser -> t_stream t = sp -> t_status t = code ->
    t_stream (fold_left (fun t p => Tap_Write sha256hex p contentType contentEncoding t) chunks t)
    = fold_left (feed_parser sha256hex) chunks sp) as H.
  { clear t. induction chunks as [|p chunks IH]; intros sp [fa uf st ct s0 bf gz dr] Hn Hs Ht; cbn in *; [done |]. subst s0 st.
    assert (Tap_Write sha256hex p contentType contentEncoding (mkTap fa uf code ct sp bf gz dr)
            = mkTap fa uf code ct (feed_parser sha256hex sp p) bf gz dr) as ->.
    { unfold Tap_Write. cbn. apply Z.eqb_neq in Hcode. rewrite Hcode. by destruct sp. }
    apply IH; [by destruct sp | done..]. }
  apply H; [by destruct (t_family t) | done..].
Qed.

(** C21: what the tap reads of an event stream does not depend on how it was
    cut, as long as it comes in small pieces.  Take a stream that is not
    compressed.  If every write is of at most [K] bytes and, for the two
    families whose parser is bounded, every line is of at most
    [maxPendingLine] less [K], the result is the reading of the complete lines
    one by one; the chat-completions parser has no bound and needs neither.
    That the writes are small is needed: one write longer than the bound is
    dropped though its lines are short, as the lemma after this one shows. *)
Theorem a_stream_is_read_however_it_is_cut openai responses code contentType contentEncoding K chunks :
  code <> 0 -> IsEventStream contentType = true -> equal_fold contentEncoding "gzip" = false ->
  Forall (fun p => Wire.size_of p <= K) chunks ->
  let f := t_family (NewTap openai responses) in
  streamed f (List.concat chunks) K ->
  tap_result sha256hex inflate (respond sha256hex code contentType contentEncoding chunks (NewTap openai responses))
  = read_lines f (complete_lines (List.concat chunks)).
Proof.
  intros Hcode Hct Hce Hc f Hl. unfold tap_result. rewrite respond_stream by done.
  by rewrite (parser_reads_lines _ K).
Qed.

(** The same stream decompressed goes to the parser in one write: past the
    bound it is read as a response that said nothing of its cost, though its
    lines are short. *)
Lemma a_long_gzipped_stream_is_lost f contentType body :
  f <> OpenAI -> IsEventStream contentType = true -> maxPendingLine < Wire.size_of body ->
  parse_body sha256hex f contentType body = empty_response.
Proof.
  intros Hf Hct Hb. unfold parse_body. rewrite Hct.
  destruct f; [| done |]; cbn; unfold Write, Responses_Write, write_bounded; cbn [dropped pending app];
    apply Z.ltb_lt in Hb; by rewrite Hb.
Qed.

End external.

(** Two frames of a stream, cut inside the first. *)
Definition sample_chunks : list bytes :=
  [Stream.quoted "data: {'type':'message_start','mess";
   Stream.quoted "age':{'usage':{'input_tokens':7}}}" ++ [newline] ++ Stream.quoted "data: {'type':'message_delta','usage'";
   Stream.quoted ":{'output_tokens':5}}" ++ [newline]].

Lemma a_stream_is_read_however_it_is_cut_witness :
  tap_result (fun _ => "") (fun b => (b, false))
    (respond (fun _ => "") 200 "text/event-stream" "" sample_chunks (NewTap false false))
  = read_lines (fun _ => "") Anthropic (complete_lines (List.concat sample_chunks)) /\
  resp_Usage (read_lines (fun _ => "") Anthropic (complete_lines (List.concat sample_chunks)))
  = Some (Transcript.mkUsage 7 0 0 5 0 0 0 false).
Proof.
  split; [| vm_compute; reflexivity].
  apply (a_stream_is_read_however_it_is_cut (fun _ => "") (fun b => (b, false)) false false 200 "text/event-stream" "" 32768 sample_chunks);
    [discriminate | reflexivity | reflexivity | |]; repeat constructor; vm_compute; discriminate.
Defined.

End TapSpec.
