(* ===== verification/ClaudeCode.v ===== *)
(** The reader of Claude Code transcripts ([src/internal/transcript/claudecode.go],
    with [clientversion.go] and [repository.go]): lines of JSON, each naming its
    parent, become the lanes of a session; a request is the assistant lines of
    one response, and its context the chain of its ancestors.

    The decoder's memo and its map of tool names are shared by every request of
    the file: [M] threads them, and an error keeps what was written before it.
    [parse_time] is [time.Parse(time.RFC3339Nano, _)], [sha256hex] the digest. *)

From S2P Require Import Prelude GoString GoTime Json JsonValue Labels Blocks Evidence Transcript LedgerStore.
From Stdlib Require Import Ascii String.

Open Scope string_scope.
Open Scope list_scope.
Open Scope Z_scope.

Module ClaudeCode.
Import Json RawJson Labels Blocks Transcript.

#[local] Abbreviation length := List.length.

Definition lineTypeUser : string := "user".
Definition lineTypeAssistant : string := "assistant".

Record rawCompaction := mkRawCompaction {
  rc_Trigger : string;
  rc_PreTokens : Z;
  rc_PostTokens : Z;
  rc_CumulativeDroppedTokens : Z;
  rc_DurationMS : Z
}.

Definition into_compaction : decoded rawCompaction :=
  into_struct ["trigger"; "preTokens"; "postTokens"; "cumulativeDroppedTokens"; "durationMs"] (fun tag raw c =>
    let 'mkRawCompaction t pre post cum dur := c in
    if String.eqb tag "trigger" then (fun x => mkRawCompaction x pre post cum dur) <$> into_string raw t
    else if String.eqb tag "preTokens" then (fun x => mkRawCompaction t x post cum dur) <$> into_int raw pre
    else if String.eqb tag "postTokens" then (fun x => mkRawCompaction t pre x cum dur) <$> into_int raw post
    else if String.eqb tag "cumulativeDroppedTokens" then (fun x => mkRawCompaction t pre post x dur) <$> into_int raw cum
    else (fun x => mkRawCompaction t pre post cum x) <$> into_int raw dur).

(** [rawLine], without the memo of its decoded content. *)
Record rawLine := mkLine {
  l_Type : string;
  l_UUID : string;
  ParentUUID : string;
  l_SessionID : string;
  Version : string;
  l_Timestamp : string;
  l_RequestID : string;
  IsAPIErrorMessage : bool;
  APIBlockIndex : Z;
  IsSidechain : bool;
  l_Effort : string;
  IsCompactSummary : bool;
  CompactMetadata : option rawCompaction;
  l_Message : option WireMessage
}.

Definition zero_line : rawLine := mkLine "" "" "" "" "" "" "" false 0 false "" false None None.

Definition line_tags : list string :=
  ["type"; "uuid"; "parentUuid"; "sessionId"; "version"; "timestamp"; "requestId"; "isApiErrorMessage";
   "apiBlockIndex"; "isSidechain"; "effort"; "isCompactSummary"; "compactMetadata"; "message"].

Definition set_line (tag : string) : decoded rawLine := fun raw l =>
  let 'mkLine ty id pa se ve ts rq er ix sc ef cs cm me := l in
  if String.eqb tag "type" then (fun x => mkLine x id pa se ve ts rq er ix sc ef cs cm me) <$> into_string raw ty
  else if String.eqb tag "uuid" then (fun x => mkLine ty x pa se ve ts rq er ix sc ef cs cm me) <$> into_string raw id
  else if String.eqb tag "parentUuid" then (fun x => mkLine ty id x se ve ts rq er ix sc ef cs cm me) <$> into_string raw pa
  else if String.eqb tag "sessionId" then (fun x => mkLine ty id pa x ve ts rq er ix sc ef cs cm me) <$> into_string raw se
  else if String.eqb tag "version" then (fun x => mkLine ty id pa se x ts rq er ix sc ef cs cm me) <$> into_string raw ve
  else if String.eqb tag "timestamp" then (fun x => mkLine ty id pa se ve x rq er ix sc ef cs cm me) <$> into_string raw ts
  else if String.eqb tag "requestId" then (fun x => mkLine ty id pa se ve ts x er ix sc ef cs cm me) <$> into_string raw rq
  else if String.eqb tag "isApiErrorMessage" then (fun x => mkLine ty id pa se ve ts rq x ix sc ef cs cm me) <$> into_bool raw er
  else if String.eqb tag "apiBlockIndex" then (fun x => mkLine ty id pa se ve ts rq er x sc ef cs cm me) <$> into_int raw ix
  else if String.eqb tag "isSidechain" then (fun x => mkLine ty id pa se ve ts rq er ix x ef cs cm me) <$> into_bool raw sc
  else if String.eqb tag "effort" then (fun x => mkLine ty id pa se ve ts rq er ix sc x cs cm me) <$> into_string raw ef
  else if String.eqb tag "isCompactSummary" then (fun x => mkLine ty id pa se ve ts rq er ix sc ef x cm me) <$> into_bool raw cs
  else if String.eqb tag "compactMetadata"
  then (fun x => mkLine ty id pa se ve ts rq er ix sc ef cs x me) <$> into_pointer (mkRawCompaction "" 0 0 0 0) into_compaction raw cm
  else (fun x => mkLine ty id pa se ve ts rq er ix sc ef cs cm x) <$> into_pointer zero_message into_message raw me.

Definition into_line : decoded rawLine := into_struct line_tags set_line.

(** [(l *rawLine) content()]: decoded once or each time, it is the same. *)
Definition content_of (l : rawLine) : option content :=
  match l_Message l with
  | None => Some (IsBlocks [])
  | Some m => DecodeContent (wm_Content m)
  end.

Definition blocks_of (c : content) : list RawBlock :=
  match c with IsText _ => [] | IsBlocks bs => bs end.

Definition requestKey (l : rawLine) : string :=
  if negb (String.eqb (l_RequestID l) "") then l_RequestID l
  else match l_Message l with Some m => wm_ID m | None => "" end.

(** [readLines]; [None] is the error of a line too long. *)
Definition read_one (acc : list rawLine * Z) (line : string) : list rawLine * Z :=
  let '(lines, skipped) := acc in
  let raw := TrimSpace line in
  if String.eqb raw "" then acc
  else match into_line (of_string raw) zero_line with
       | None => (lines, skipped +! 1)
       | Some l => if String.eqb (l_UUID l) "" then (lines, skipped +! 1) else (lines ++ [l], skipped)
       end.

Definition readLines (text : string) : option (list rawLine * Z) :=
  let '(ls, too_long) := LedgerStore.scan_lines (LedgerStore.pieces text) in
  if too_long then None else Some (fold_left read_one ls ([], 0)).

(** [collectToolNames] *)
Definition name_block (names : gmap string string) (b : RawBlock) : gmap string string :=
  if String.eqb (rb_Type b) KindToolUse && negb (String.eqb (rb_ID b) "")
  then <[rb_ID b := ToolLabel (rb_Name b) (rb_Input b)]> names else names.

Definition name_line (names : gmap string string) (l : rawLine) : gmap string string :=
  if negb (String.eqb (l_Type l) lineTypeAssistant) || negb (bool_decide (is_Some (l_Message l))) then names
  else match content_of l with
       | None => names
       | Some c => fold_left name_block (blocks_of c) names
       end.

Definition collectToolNames (lines : list rawLine) : gmap string string := fold_left name_line lines ∅.

(** ** The decoder's state *)

Record decoder := mkDecoder { toolNames : gmap string string; messages : gmap string Message }.

Definition M (A : Type) : Type := decoder -> decoder * option A.

Definition ret {A} (a : A) : M A := fun d => (d, Some a).
Definition fail {A} : M A := fun d => (d, None).
Definition lift {A} (o : option A) : M A := fun d => (d, o).

Definition bindM {A B} (x : M A) (f : A -> M B) : M B := fun d =>
  match x d with
  | (d, Some a) => f a d
  | (d, None) => (d, None)
  end.

#[local] Notation "a <- x ; y" := (bindM x (fun a => y)) (at level 100, x at next level, right associativity).

Definition memo (key : string) (build : M Message) : M Message := fun d =>
  match messages d !! key with
  | Some msg => (d, Some msg)
  | None =>
      match build d with
      | (d, Some msg) => (mkDecoder (toolNames d) (<[key := msg]> (messages d)), Some msg)
      | (d, None) => (d, None)
      end
  end.

Section reader.
Context (parse_time : string -> option time) (sha256hex : string -> string).

Definition parseTime (s : string) : option time := if String.eqb s "" then None else parse_time s.

(** [DecodeBlocks] into the decoder's own map of names, with the evidence. *)
Definition decode_content (l : rawLine) (m : WireMessage) (role : string) (blocks : list RawBlock) : M (list Block) := fun d =>
  let '(bs, names) := DecodeBlocks sha256hex blocks role (Some (toolNames d)) (Some ToolLabel) in
  (mkDecoder (default (toolNames d) names) (messages d),
   Some (Evidence.attachEvidence bs (wm_Content m) blocks)).

Definition by_index : list rawLine -> list rawLine :=
  SliceStable (fun a b => APIBlockIndex a <? APIBlockIndex b).

(** One line of an assistant run. *)
Definition run_line (l : rawLine) : M (list Block) :=
  m <- lift (l_Message l);
  c <- lift (content_of l);
  decode_content l m RoleAssistant (blocks_of c).

Fixpoint run_lines (run : list rawLine) : M (list Block) :=
  match run with
  | [] => ret []
  | l :: run => bs <- run_line l; rest <- run_lines run; ret (bs ++ rest)
  end.

Definition decodeAssistantRun (run : list rawLine) : M Message :=
  match by_index run with
  | [] => fail
  | first :: _ =>
      ts <- lift (parseTime (l_Timestamp first));
      bs <- run_lines (by_index run);
      ret (mkMessage (l_UUID first) RoleAssistant ts bs)
  end.

(** [assistantMessage] on the run that starts with [l]. *)
Definition assistantMessage (l : rawLine) (run : list rawLine) : M Message := memo (l_UUID l) (decodeAssistantRun run).

(** The closure [userMessage] memoizes. *)
Definition decodeUser (l : rawLine) : M Message :=
  m <- lift (l_Message l);
  ts <- lift (parseTime (l_Timestamp l));
  c <- lift (content_of l);
  match c with
  | IsText text => ret (mkMessage (l_UUID l) RoleUser ts [mkBlock KindText LabelUserText (len text) text "" "" "" false None])
  | IsBlocks blocks => bs <- decode_content l m RoleUser blocks; ret (mkMessage (l_UUID l) RoleUser ts bs)
  end.

Definition userMessage (l : rawLine) : M Message := memo (l_UUID l) (decodeUser l).

(** ** One request *)

(** The walk up from a line, nearest ancestor first; [None] when it has gone
    past as many lines as there are. *)
Fixpoint parents (byUUID : gmap string rawLine) (fuel : nat) (uuid : string) : option (list rawLine) :=
  match byUUID !! uuid with
  | None => Some []
  | Some cur =>
      match fuel with
      | O => None
      | S fuel => cons cur <$> parents byUUID fuel (ParentUUID cur)
      end
  end.

Definition chain_of (byUUID : gmap string rawLine) (first : rawLine) : option (list rawLine) :=
  @rev rawLine <$> parents byUUID (size byUUID) (ParentUUID first).

(** The lines that follow in the run of a request, and what comes after. *)
Fixpoint split_run (key : string) (chain : list rawLine) : list rawLine * list rawLine :=
  match chain with
  | l :: rest =>
      if String.eqb (l_Type l) lineTypeAssistant && String.eqb (requestKey l) key
      then let '(run, rest) := split_run key rest in (l :: run, rest) else ([], chain)
  | [] => ([], [])
  end.

(** The conversation in a chain, a user line alone and an assistant run
    together; every turn consumes a line. *)
Fixpoint turns (fuel : nat) (chain : list rawLine) : list (rawLine * list rawLine) :=
  match fuel, chain with
  | S fuel, l :: rest =>
      if String.eqb (l_Type l) lineTypeUser then (l, [l]) :: turns fuel rest
      else if String.eqb (l_Type l) lineTypeAssistant
      then let '(run, rest) := split_run (requestKey l) rest in (l, l :: run) :: turns fuel rest
      else turns fuel rest
  | _, _ => []
  end.

Definition turn_message (l : rawLine) (run : list rawLine) : M Message :=
  if String.eqb (l_Type l) lineTypeUser then userMessage l else assistantMessage l run.

Fixpoint context_messages (ts : list (rawLine * list rawLine)) : M (list Message) :=
  match ts with
  | [] => ret []
  | (l, run) :: ts =>
      msg <- turn_message l run;
      rest <- context_messages ts;
      ret (msg :: rest)
  end.

Definition is_turn (l : rawLine) : bool :=
  String.eqb (l_Type l) lineTypeUser || String.eqb (l_Type l) lineTypeAssistant.

Definition rooted_at_compaction (chain : list rawLine) : bool :=
  match chain with
  | [] => false
  | root :: _ => bool_decide (is_Some (CompactMetadata root)) || IsCompactSummary root
  end.

(** [buildRequest] on a group in block order: the request, its lane, and
    whether its chain is rooted at a compaction. *)
Definition buildRequest (byUUID : gmap string rawLine) (first : rawLine) (group : list rawLine) : M (Request * string * bool) :=
  m <- lift (l_Message first);
  u <- lift (wm_Usage m);
  ts <- lift (parseTime (l_Timestamp first));
  out <- decodeAssistantRun group;
  chain <- lift (chain_of byUUID first);
  ctx <- context_messages (turns (length chain) chain);
  let laneID := match find_first is_turn chain with Some l => l_UUID l | None => l_UUID first end in
  ret (mkRequest (requestKey first) true (String.eqb (l_RequestID first) "") CorrelationUnmeasured (wm_Model m)
         (l_Effort first) "" ts (WireUsage_Usage (Some u)) ctx (Some out) 0 0 [],
       laneID, rooted_at_compaction chain).

(** ** The whole file *)

Definition recordClientVersion (versions : list string) (version : string) : list string :=
  if String.eqb version "" || existsb (String.eqb version) versions then versions else versions ++ [version].

Definition ClientVersionUnmeasured : string := "unmeasured".
Definition ClientVersionSingle : string := "single".
Definition ClientVersionStraddling : string := "CLIENT_VERSION_STRADDLING".

Definition ClientVersionProvenance (versions : list string) : string :=
  match versions with
  | [] => ClientVersionUnmeasured
  | [_] => ClientVersionSingle
  | _ => ClientVersionStraddling
  end.

(** What the first pass gathers; [sawBoundary] pairs a boundary with the
    summary that follows it. *)
Record heading := mkHeading { h_ID : string; h_versions : list string; h_compactions : list Compaction; sawBoundary : bool }.

Definition head_line (h : heading) (l : rawLine) : heading :=
  let id := if negb (String.eqb (l_SessionID l) "") && String.eqb (h_ID h) "" then l_SessionID l else h_ID h in
  let versions := recordClientVersion (h_versions h) (Version l) in
  match CompactMetadata l with
  | Some m =>
      mkHeading id versions
        (h_compactions h ++ [mkCompaction (rc_Trigger m) (rc_PreTokens m) (rc_PostTokens m)
                               (rc_CumulativeDroppedTokens m) (rc_DurationMS m)
                               (default zero_time (parseTime (l_Timestamp l)))]) true
  | None =>
      if IsCompactSummary l && negb (sawBoundary h)
      then mkHeading id versions (h_compactions h ++ [mkCompaction "" 0 0 0 0 zero_time]) (sawBoundary h)
      else if IsCompactSummary l then mkHeading id versions (h_compactions h) false
      else mkHeading id versions (h_compactions h) (sawBoundary h)
  end.

(** The lines of each response, in the order the responses are first met. *)
Definition is_response (l : rawLine) : bool :=
  String.eqb (l_Type l) lineTypeAssistant && negb (String.eqb (requestKey l) "") && negb (IsAPIErrorMessage l).

Definition group_line (g : list string * gmap string (list rawLine)) (l : rawLine) : list string * gmap string (list rawLine) :=
  let '(order, groups) := g in
  if is_response l then
    let key := requestKey l in
    (match groups !! key with None => order ++ [key] | Some _ => order end,
     <[key := default [] (groups !! key) ++ [l]]> groups)
  else g.

Definition groups_of (lines : list rawLine) : list string * gmap string (list rawLine) :=
  fold_left group_line lines ([], ∅).

Definition index_lines (lines : list rawLine) : gmap string rawLine :=
  fold_left (fun m l => <[l_UUID l := l]> m) lines ∅.

Definition place (first : rawLine) (req : Request) (continued : bool) (l : Lane) : Lane :=
  mkLane (lane_ID l) (Sidechain l) (Continuation l || continued && negb (IsSidechain first)) (Requests l ++ [req]).

(** One response of the file: its request in its lane, or one line skipped. *)
Definition add_group (byUUID : gmap string rawLine) (groups : gmap string (list rawLine))
    (acc : decoder * (list Lane * Z)) (id : string) : decoder * (list Lane * Z) :=
  let '(d, (lanes, skipped)) := acc in
  match by_index (default [] (groups !! id)) with
  | [] => acc
  | (first :: _) as group =>
      match buildRequest byUUID first group d with
      | (d, None) => (d, (lanes, skipped +! 1))
      | (d, Some (req, laneID, continued)) =>
          (d, (with_lane (place first req continued) laneID (IsSidechain first) lanes, skipped))
      end
  end.

Definition RepositoryUnknown : string := "UNKNOWN".

(** A session with what the transcript reader alone records of it. *)
Record Parsed := mkParsed { p_Session : Session; p_ClientVersions : list string; p_RepositoryID : string }.

Definition ParseClaudeCode (text : string) : option Parsed :=
  '(lines, skipped) ← readLines text;
  match lines with
  | [] => None
  | _ =>
      let byUUID := index_lines lines in
      let h := fold_left head_line lines (mkHeading "" [] [] false) in
      let '(order, groups) := groups_of lines in
      let '(_, (lanes, skipped)) :=
        fold_left (add_group byUUID groups) order (mkDecoder (collectToolNames lines) ∅, ([], skipped)) in
      match lanes with
      | [] => None
      | _ => Some (mkParsed (mkSession (h_ID h) "" SourceTranscript lanes skipped 0 0 (mkFailures ∅ 0) 0 "" "" (h_compactions h))
                     (h_versions h) RepositoryUnknown)
      end
  end.

(** [ClientVersion] is the first one seen. *)
Definition ClientVersion (p : Parsed) : string := default "" (head (p_ClientVersions p)).

End reader.

End ClaudeCode.
