(* ===== verification/ClaudeCodeSpec.v ===== *)
(** What the transcript reader promises: the walk up a chain of parents always
    ends, and every response of a file is one request in the lane its ancestry
    names, or one line counted as skipped. *)

From S2P Require Import Prelude GoString GoTime Json Blocks Transcript ClaudeCode.
From Stdlib Require Import Ascii String.

Open Scope string_scope.
Open Scope list_scope.
Open Scope Z_scope.

Module ClaudeCodeSpec.
Import Json Blocks Transcript ClaudeCode.

#[local] Abbreviation length := List.length.

(** ** The ancestry of a line *)

(** [ls], nearest first, are all the ancestors from [uuid] on; the last one's
    parent is not in the file. *)
Inductive ascends (m : gmap string rawLine) : string -> list rawLine -> Prop :=
| top u : m !! u = None -> ascends m u []
| up u l ls : m !! u = Some l -> ascends m (ParentUUID l) ls -> ascends m u (l :: ls).

Definition keyed (m : gmap string rawLine) : Prop := forall u l, m !! u = Some l -> l_UUID l = u.

Lemma index_lines_keyed lines : keyed (index_lines lines).
Proof.
  unfold index_lines. assert (keyed ∅) as H by done. revert H. generalize (∅ : gmap string rawLine) as m.
  induction lines as [|l lines IH]; intros m H; cbn [fold_left]; [done |]. apply IH.
  intros u l' [[<- <-] | [_ ?]]%lookup_insert_Some; auto.
Qed.

Lemma parents_ascends m fuel : forall u ls, parents m fuel u = Some ls -> ascends m u ls.
Proof.
  induction fuel as [|fuel IH]; intros u ls; cbn [parents]; destruct (m !! u) as [l|] eqn:E; intros H;
    try done; try (injection H as <-; by constructor).
  destruct (parents m fuel (ParentUUID l)) as [ls'|] eqn:E'; [| done]. injection H as <-.
  econstructor; [done | by apply IH].
Qed.

Lemma ascends_parents m u ls : ascends m u ls -> forall fuel, (length ls <= fuel)%nat -> parents m fuel u = Some ls.
Proof.
  induction 1 as [u Hu | u l ls Hu _ IH]; intros fuel Hf; [destruct fuel; cbn [parents]; by rewrite Hu |].
  destruct fuel as [|fuel]; [cbn in Hf; lia |]. cbn [parents]. rewrite Hu, IH by (cbn in Hf; lia). done.
Qed.

Lemma ascends_det m u ls ls' : ascends m u ls -> ascends m u ls' -> ls = ls'.
Proof.
  intros H. revert ls'. induction H as [u Hu | u l ls Hu _ IH]; intros ls' H'; inversion H'; subst; try congruence.
  match goal with H1 : m !! u = Some l, H2 : m !! u = Some ?l2 |- _ => rewrite H1 in H2; injection H2 as <- end.
  f_equal. by apply IH.
Qed.

(** Below any line of an ancestry stands its own. *)
Lemma ascends_from m u ls : keyed m -> ascends m u ls ->
  forall l, l ∈ ls -> exists n, ascends m (l_UUID l) (drop n ls) /\ (n < length ls)%nat.
Proof.
  intros Hk. induction 1 as [u Hu | u l ls Hu Ha IH]; intros l' Hl'; [by apply elem_of_nil in Hl' |].
  apply elem_of_cons in Hl' as [-> | Hl'].
  - exists 0%nat. rewrite (Hk _ _ Hu). split; [by econstructor | cbn; lia].
  - destruct (IH _ Hl') as (n & Hn & Hlt). exists (S n). split; [exact Hn | cbn; lia].
Qed.

Lemma ascends_NoDup m u ls : keyed m -> ascends m u ls -> NoDup (List.map l_UUID ls).
Proof.
  intros Hk. induction 1 as [u Hu | u l ls Hu Ha IH]; [constructor |]. cbn [List.map]. constructor; [| done].
  intros (l' & He & Hl')%list_elem_of_fmap. destruct (ascends_from m _ ls Hk Ha l' Hl') as (n & Hn & Hlt).
  rewrite <- He, (Hk _ _ Hu) in Hn.
  assert (ascends m u (l :: ls)) as Hwhole by (by econstructor).
  pose proof (ascends_det _ _ _ _ Hwhole Hn) as Heq. apply (f_equal length) in Heq.
  rewrite length_drop in Heq. cbn in Heq. lia.
Qed.

Lemma ascends_size m u ls : keyed m -> ascends m u ls -> (length ls <= size m)%nat.
Proof.
  intros Hk Ha. pose proof (ascends_NoDup m u ls Hk Ha) as Hnd.
  assert (list_to_set (List.map l_UUID ls) ⊆@{gset string} dom m) as Hsub.
  { intros x Hx. apply elem_of_list_to_set in Hx. apply list_elem_of_fmap in Hx as (l & -> & Hl).
    destruct (ascends_from m u ls Hk Ha l Hl) as (n & Hn & Hlt). apply elem_of_dom.
    remember (drop n ls) as rest eqn:Hrest. destruct Hn as [u' Hu' | u' l2 ls2 Hl2 _]; [| by eexists].
    apply (f_equal length) in Hrest. rewrite length_drop in Hrest. cbn in Hrest. lia. }
  apply subseteq_size in Hsub. rewrite size_list_to_set, length_map, size_dom in Hsub by done. exact Hsub.
Qed.

(** The n-th ancestor. *)
Fixpoint ancestor (m : gmap string rawLine) (n : nat) (u : string) : option rawLine :=
  l ← m !! u;
  match n with O => Some l | S n => ancestor m n (ParentUUID l) end.

Lemma ancestor_ascends m u ls : ascends m u ls -> ancestor m (length ls) u = None.
Proof.
  induction 1 as [u Hu | u l ls Hu _ IH]; cbn [length ancestor]; rewrite Hu; done.
Qed.

Lemma parents_None m fuel : forall u, parents m fuel u = None -> is_Some (ancestor m fuel u).
Proof.
  induction fuel as [|fuel IH]; intros u; cbn [parents ancestor]; destruct (m !! u) as [l|]; try done; cbn [mbind option_bind].
  destruct (parents m fuel (ParentUUID l)) as [ls|] eqn:E; [done |]. intros _. by apply IH.
Qed.

Lemma ancestor_le m n : forall k u, (k <= n)%nat -> is_Some (ancestor m n u) -> is_Some (ancestor m k u).
Proof.
  induction n as [|n IH]; intros k u Hk Hn; [by replace k with 0%nat by lia |].
  cbn [ancestor] in Hn. destruct (m !! u) as [l|] eqn:E; [| by destruct Hn]. cbn in Hn.
  destruct k as [|k]; cbn [ancestor]; rewrite E; cbn; [by eexists |]. apply IH; [lia | done].
Qed.

Lemma the_walk_stops_chain lines first chain :
  chain_of (index_lines lines) first = Some chain -> ascends (index_lines lines) (ParentUUID first) (rev chain).
Proof.
  unfold chain_of. set (m := index_lines lines). intros H.
  destruct (parents m (size m) (ParentUUID first)) as [ls|] eqn:E; [| done]. injection H as <-.
  rewrite rev_involutive. by eapply parents_ascends.
Qed.

(** Termination: the walk from a line to its root is cut short only where
    it would never end.  It returns the line's ancestry, from the root down,
    exactly when there is one; otherwise there is an ancestor at every height,
    which in a file's finite lines is a cycle. *)
Lemma the_walk_stops_only_on_a_cycle lines first :
  (forall chain, chain_of (index_lines lines) first = Some chain <->
     ascends (index_lines lines) (ParentUUID first) (rev chain)) /\
  (chain_of (index_lines lines) first = None <->
     forall n, is_Some (ancestor (index_lines lines) n (ParentUUID first))).
Proof.
  pose proof (index_lines_keyed lines) as Hk. set (m := index_lines lines) in *. unfold chain_of. split.
  - intros chain. split.
    + apply the_walk_stops_chain.
    + intros H. rewrite (ascends_parents m _ _ H) by (by eapply ascends_size). cbn. by rewrite rev_involutive.
  - split.
    + intros H n. destruct (parents m (size m) (ParentUUID first)) as [ls|] eqn:E; [done |].
      apply parents_None in E. destruct (Nat.le_ge_cases n (size m)) as [Hn|Hn]; [by eapply ancestor_le |].
      destruct (parents m n (ParentUUID first)) as [ls|] eqn:E'; [| by apply parents_None].
      apply parents_ascends in E'. exfalso. pose proof (ascends_size _ _ _ Hk E') as Hs.
      apply ancestor_ascends in E'. destruct (ancestor_le m _ _ _ Hs E) as [? ?]. congruence.
    + intros H. destruct (parents m (size m) (ParentUUID first)) as [ls|] eqn:E; [| done].
      apply parents_ascends, ancestor_ascends in E. destruct (H (length ls)). congruence.
Qed.

(** ** The responses of a file *)

(** The keys of the assistant lines that have one and record no failed call. *)
Definition response_keys (lines : list rawLine) (k : string) : Prop :=
  k <> "" /\ exists l, l ∈ lines /\ l_Type l = lineTypeAssistant /\ IsAPIErrorMessage l = false /\ requestKey l = k.

Lemma response_keys_iff lines k :
  response_keys lines k <-> exists l, l ∈ lines /\ is_response l = true /\ requestKey l = k.
Proof.
  unfold response_keys, is_response. split.
  - intros (Hk & l & Hl & Ht & He & <-). exists l. split_and!; [done | | done].
    by rewrite Ht, He, (proj2 (String.eqb_neq _ _) Hk).
  - intros (l & Hl & Hr & <-). apply andb_true_iff in Hr as [Hr He]. apply andb_true_iff in Hr as [Ht Hk].
    apply String.eqb_eq in Ht. apply negb_true_iff in Hk, He. apply String.eqb_neq in Hk. eauto 8.
Qed.

(** The lines of one response, in file order. *)
Definition lines_of_key (lines : list rawLine) (k : string) : list rawLine :=
  List.filter (fun l => is_response l && String.eqb (requestKey l) k) lines.

Record grouped (lines : list rawLine) (g : list string * gmap string (list rawLine)) : Prop := {
  gr_nodup : NoDup g.1;
  gr_keys : forall k, k ∈ g.1 <-> response_keys lines k;
  gr_groups : forall k, default [] (g.2 !! k) = lines_of_key lines k;
  gr_present : forall k, k ∈ g.1 <-> is_Some (g.2 !! k)
}.

Lemma response_keys_snoc lines l k :
  response_keys (lines ++ [l]) k <-> response_keys lines k \/ is_response l = true /\ requestKey l = k.
Proof.
  rewrite !response_keys_iff. split.
  - intros (l' & [Hl | ->%list_elem_of_singleton]%elem_of_app & H); [left; eauto | by right].
  - intros [(l' & Hl & H) | H]; [exists l' | exists l]; (split; [apply elem_of_app; rewrite ?list_elem_of_singleton; auto | done]).
Qed.

Lemma group_line_grouped lines g l : grouped lines g -> grouped (lines ++ [l]) (group_line g l).
Proof.
  intros [Hnd Hkeys Hgr Hpr]. destruct g as [order groups]. cbn [fst snd] in *. unfold group_line.
  assert (forall k, lines_of_key (lines ++ [l]) k
            = lines_of_key lines k ++ (if is_response l && String.eqb (requestKey l) k then [l] else [])) as Hsnoc.
  { intros k. unfold lines_of_key. rewrite List.filter_app. cbn [List.filter]. by destruct (_ && _). }
  destruct (is_response l) eqn:E; split; cbn [fst snd].
  - destruct (groups !! requestKey l) eqn:Eg; [done |]. apply NoDup_app. split_and!; [done | | apply NoDup_singleton].
    intros x Hx ->%list_elem_of_singleton. apply Hpr in Hx as [? ?]. congruence.
  - intros k. rewrite response_keys_snoc, <- Hkeys. destruct (groups !! requestKey l) eqn:Eg;
      [| rewrite elem_of_app, list_elem_of_singleton; naive_solver].
    split; [by left |]. intros [? | [_ <-]]; [done |]. apply Hpr. by eexists.
  - intros k. rewrite Hsnoc. cbn [andb]. destruct (String.eqb_spec (requestKey l) k) as [<- | Hne].
    + rewrite lookup_insert_eq. cbn. by rewrite <- Hgr.
    + rewrite lookup_insert_ne, app_nil_r by done. apply Hgr.
  - intros k. destruct (decide (requestKey l = k)) as [<- | Hne].
    + rewrite lookup_insert_eq. split; [by eexists |]. intros _.
      destruct (groups !! requestKey l) eqn:Eg; [apply Hpr; by eexists |].
      apply elem_of_app. right. by apply list_elem_of_singleton.
    + rewrite lookup_insert_ne, <- Hpr by done. destruct (groups !! requestKey l); [done |].
      rewrite elem_of_app, list_elem_of_singleton. split; [intros [? | ->]; done | by left].
  - done.
  - intros k. rewrite response_keys_snoc, <- Hkeys. split; [by left | intros [? | [? _]]; [done | congruence]].
  - intros k. rewrite Hsnoc, app_nil_r. apply Hgr.
  - done.
Qed.

Lemma groups_of_grouped lines : grouped lines (groups_of lines).
Proof.
  unfold groups_of. assert (grouped [] ([], ∅)) as H.
  { split; cbn; [constructor | | by intros k; rewrite lookup_empty |].
    - intros k. rewrite response_keys_iff. split; [by intros ?%elem_of_nil | by intros (l & ?%elem_of_nil & _)].
    - intros k. rewrite lookup_empty. split; [by intros ?%elem_of_nil | by intros [? ?]]. }
  change lines with ([] ++ lines) at 1. revert H. generalize (@nil rawLine) as before.
  generalize ([] : list string, ∅ : gmap string (list rawLine)) as g.
  induction lines as [|l lines IH]; intros g before H; cbn [fold_left]; [by rewrite app_nil_r |].
  rewrite cons_middle, app_assoc. by apply IH, group_line_grouped.
Qed.

Lemma cong64_sub_exact n s t : int64_range s -> int64_range (t - n) -> n + s ≡₆₄ t -> n + s = t.
Proof.
  intros Hs Ht H. assert (s ≡₆₄ t - n) as Hc.
  { apply cong64_iff in H as [k Hk]. apply cong64_iff. exists k. lia. }
  apply cong64_eq in Hc; [lia | done | done].
Qed.

Section spec.
Context (parse_time : string -> option time) (sha256hex : string -> string).

Abbreviation run_request := (buildRequest parse_time sha256hex).

(** ** What one response becomes *)

(** What the decoder makes of a line or a run, under some table of the names of
    calls. *)
Definition decoded {A} (x : M A) (a : A) : Prop := exists d d', x d = (d', Some a).

(** A run of one response that starts at [l]: each line after it is the child
    of the one before, indexed, of the assistant and of the same response. *)
Inductive run_from (m : gmap string rawLine) (key : string) : rawLine -> list rawLine -> Prop :=
| run_one l : run_from m key l []
| run_more l l' run :
    m !! l_UUID l' = Some l' -> ParentUUID l' = l_UUID l -> l_Type l' = lineTypeAssistant -> requestKey l' = key ->
    run_from m key l' run -> run_from m key l (l' :: run).

(** A message of a turn: a user line's own, or what the lines of the turn's
    response decode to along one branch below the first of them. *)
Definition message_of (m : gmap string rawLine) (l : rawLine) (msg : Message) : Prop :=
  if String.eqb (l_Type l) lineTypeUser then decoded (decodeUser parse_time sha256hex l) msg
  else exists run, run_from m (requestKey l) l run /\ decoded (decodeAssistantRun parse_time sha256hex (l :: run)) msg.

(** A request of the response [k]: the usage, model and instant of its first
    block, its own lines decoded as its output, the message of each turn of its
    ancestry as context, and the lane named by the first of them. *)
Record response_of (lines : list rawLine) (k lane : string) (q : Request) : Prop := {
  rs_id : ID q = k;
  rs_measured : IDMeasured q = true;
  rs_first : exists first rest m u chain,
    by_index (lines_of_key lines k) = first :: rest /\
    l_Message first = Some m /\ wm_Usage m = Some u /\
    req_Usage q = WireUsage_Usage (Some u) /\ Model q = wm_Model m /\
    parseTime parse_time (l_Timestamp first) = Some (Timestamp q) /\
    IDFromMessage q = String.eqb (l_RequestID first) "" /\
    (exists out, req_Output q = Some out /\ decoded (decodeAssistantRun parse_time sha256hex (first :: rest)) out) /\
    ascends (index_lines lines) (ParentUUID first) (rev chain) /\
    Forall2 (fun t msg => message_of (index_lines lines) t.1 msg) (turns (length chain) chain) (Context q) /\
    lane = match find_first is_turn chain with Some l => l_UUID l | None => l_UUID first end
}.

(** Every message the decoder remembers is one of the line it is kept under. *)
Definition memo_ok (m : gmap string rawLine) (d : decoder) : Prop :=
  forall key msg, messages d !! key = Some msg -> exists l, m !! key = Some l /\ message_of m l msg.

(** Decoding content writes names, never messages. *)
Definition keeps {A} (x : M A) : Prop := forall d, messages (x d).1 = messages d.

Lemma keeps_bind {A B} (x : M A) (f : A -> M B) : keeps x -> (forall a, keeps (f a)) -> keeps (bindM x f).
Proof.
  intros Hx Hf d. unfold bindM. specialize (Hx d). destruct (x d) as [d1 [a|]]; cbn in *; [| done].
  by rewrite (Hf a d1).
Qed.

Lemma keeps_lift {A} (o : option A) : keeps (lift o).
Proof. done. Qed.

Lemma keeps_ret {A} (a : A) : keeps (ret a).
Proof. done. Qed.

Lemma keeps_decode_content l m role blocks : keeps (decode_content sha256hex l m role blocks).
Proof. intros d. unfold decode_content. by destruct (DecodeBlocks _ _ _ _ _). Qed.

Create HintDb keeps.
#[local] Hint Resolve keeps_bind keeps_lift keeps_ret keeps_decode_content : keeps.

Lemma keeps_run_lines run : keeps (run_lines sha256hex run).
Proof.
  induction run as [|l run IH]; cbn [run_lines]; [auto with keeps |].
  apply keeps_bind; [unfold run_line; auto 7 with keeps |]. auto with keeps.
Qed.

Lemma keeps_decodeAssistantRun run : keeps (decodeAssistantRun parse_time sha256hex run).
Proof.
  unfold decodeAssistantRun. destruct (by_index run); [done |].
  apply keeps_bind; [auto with keeps | intros ts]. apply keeps_bind; [apply keeps_run_lines | auto with keeps].
Qed.

Lemma memo_message m l (build : M Message) d d' r :
  memo_ok m d -> m !! l_UUID l = Some l -> keeps build ->
  (forall msg, decoded build msg -> message_of m l msg) ->
  memo (l_UUID l) build d = (d', r) ->
  memo_ok m d' /\ forall msg, r = Some msg -> message_of m l msg.
Proof.
  intros Hd Hl Hkeep Hof. unfold memo. destruct (messages d !! l_UUID l) as [found|] eqn:E.
  { intros [= <- <-]. split; [done |]. intros msg [= <-]. destruct (Hd _ _ E) as (l' & Hl' & H). congruence. }
  specialize (Hkeep d). destruct (build d) as [d1 [msg|]] eqn:Eb; cbn in Hkeep; intros [= <- <-].
  - assert (message_of m l msg) as Hr by (apply Hof; by exists d, d1). split; [| by intros ? [= <-]].
    intros key msg'. cbn. rewrite Hkeep. intros [[<- <-] | [_ H]]%lookup_insert_Some; [by exists l | by apply Hd].
  - split; [| done]. intros key msg'. rewrite Hkeep. apply Hd.
Qed.

Lemma keeps_decodeUser l : keeps (decodeUser parse_time sha256hex l).
Proof.
  unfold decodeUser. apply keeps_bind; [auto with keeps | intros m]. apply keeps_bind; [auto with keeps | intros ts].
  apply keeps_bind; [auto with keeps | intros []]; auto with keeps.
Qed.

(** A turn of a chain: a user line, or an assistant line with a run below it. *)
Definition turn_ok (m : gmap string rawLine) (t : rawLine * list rawLine) : Prop :=
  m !! l_UUID t.1 = Some t.1 /\ is_turn t.1 = true /\
  (String.eqb (l_Type t.1) lineTypeUser = false -> exists run, t.2 = t.1 :: run /\ run_from m (requestKey t.1) t.1 run).

Lemma turn_message_ok m l run d d' r :
  memo_ok m d -> turn_ok m (l, run) ->
  turn_message parse_time sha256hex l run d = (d', r) ->
  memo_ok m d' /\ forall msg, r = Some msg -> message_of m l msg.
Proof.
  intros Hd (Hl & _ & Hrun). cbn [fst snd] in *. unfold turn_message. destruct (String.eqb (l_Type l) lineTypeUser) eqn:E.
  - apply memo_message; [done | done | apply keeps_decodeUser |]. intros msg Hm. unfold message_of. by rewrite E.
  - apply memo_message; [done | done | apply keeps_decodeAssistantRun |]. intros msg Hm. unfold message_of. rewrite E.
    destruct (Hrun eq_refl) as (more & -> & H). by exists more.
Qed.

Lemma context_ok m ts : forall d d' r,
  memo_ok m d -> Forall (turn_ok m) ts ->
  context_messages parse_time sha256hex ts d = (d', r) ->
  memo_ok m d' /\ forall ctx, r = Some ctx -> Forall2 (fun t msg => message_of m t.1 msg) ts ctx.
Proof.
  induction ts as [|[l run] ts IH]; intros d d' r Hd Hts; cbn [context_messages].
  { intros [= <- <-]. split; [done |]. intros ctx [= <-]. constructor. }
  apply Forall_cons in Hts as [Ht Hts]. unfold bindM at 1.
  destruct (turn_message parse_time sha256hex l run d) as [d1 [msg|]] eqn:E;
    destruct (turn_message_ok m l run d d1 _ Hd Ht E) as [Hd1 Hmsg]; [| by intros [= <- <-]].
  unfold bindM. destruct (context_messages parse_time sha256hex ts d1) as [d2 [rest|]] eqn:E2;
    destruct (IH _ _ _ Hd1 Hts E2) as [Hd2 Hrest]; intros [= <- <-]; (split; [done |]); [| done].
  intros ctx [= <-]. constructor; [by apply Hmsg | by apply Hrest].
Qed.

(** *** Turns *)

(** A chain, from the root down: each line is indexed and a child of the one
    before it. *)
Fixpoint linked (m : gmap string rawLine) (chain : list rawLine) : Prop :=
  match chain with
  | [] => True
  | l :: rest => m !! l_UUID l = Some l /\ match rest with [] => True | l' :: _ => ParentUUID l' = l_UUID l end /\ linked m rest
  end.

Lemma linked_snoc m chain l :
  linked m chain -> m !! l_UUID l = Some l ->
  (forall l0, last chain = Some l0 -> ParentUUID l = l_UUID l0) -> linked m (chain ++ [l]).
Proof.
  induction chain as [|a chain IH]; intros Hc Hl Hp; [done |]. destruct Hc as (Ha & Hn & Hc). cbn [app linked].
  split; [done |]. split.
  - destruct chain as [|b chain]; [by apply Hp | done].
  - apply IH; [done | done |]. intros l0 H. apply Hp. destruct chain; [done | exact H].
Qed.

Lemma ascends_linked m u ls : keyed m -> ascends m u ls -> linked m (rev ls).
Proof.
  intros Hk. induction 1 as [u Hu | u l ls Hu Ha IH]; [done |]. cbn [rev].
  apply linked_snoc; [done | by rewrite (Hk _ _ Hu) |]. intros l0 Hl.
  inversion Ha as [? Hn | ? l1 ls1 Hl1 _]; subst; [done |].
  cbn [rev] in Hl. rewrite last_snoc in Hl. injection Hl as <-. symmetry. by apply (Hk _ _ Hl1).
Qed.

Lemma split_run_ok m key chain : forall l,
  linked m (l :: chain) -> run_from m key l (split_run key chain).1 /\ linked m (split_run key chain).2.
Proof.
  induction chain as [|a chain IH]; intros l Hc; cbn [split_run]; [by split; [constructor |] |].
  destruct Hc as (_ & Hp & Hc). destruct (String.eqb (l_Type a) lineTypeAssistant && String.eqb (requestKey a) key) eqn:E;
    [| by split; [constructor |]].
  apply andb_true_iff in E as [Et Ek]. apply String.eqb_eq in Et, Ek.
  destruct (IH a Hc) as [Hr Hl]. destruct (split_run key chain) as [run rest]. cbn [fst snd] in *.
  split; [| done]. destruct Hc as [Ha _]. by constructor.
Qed.

Lemma turns_ok m fuel : forall chain, linked m chain -> Forall (turn_ok m) (turns fuel chain).
Proof.
  induction fuel as [|fuel IH]; intros chain Hc; [constructor |]. destruct chain as [|l chain]; [constructor |].
  pose proof Hc as (Hl & _ & Hrest). cbn [turns].
  destruct (String.eqb (l_Type l) lineTypeUser) eqn:Eu.
  { constructor; [| by apply IH]. split; [exact Hl |]. unfold is_turn. cbn [fst]. rewrite Eu. by split. }
  destruct (String.eqb (l_Type l) lineTypeAssistant) eqn:Ea; [| by apply IH].
  destruct (split_run_ok m (requestKey l) chain l Hc) as [Hr Hr']. destruct (split_run (requestKey l) chain) as [run rest].
  constructor; [| by apply IH]. split; [exact Hl |]. unfold is_turn. cbn [fst snd]. rewrite Ea, orb_true_r.
  split; [done |]. intros _. by exists run.
Qed.

(** *** One response *)

Lemma lines_of_key_elem lines k l : l ∈ lines_of_key lines k -> l ∈ lines /\ is_response l = true /\ requestKey l = k.
Proof.
  intros H%list_elem_of_In. unfold lines_of_key in H. apply filter_In in H as [Hin H].
  apply andb_true_iff in H as [Hr Hk]. apply String.eqb_eq in Hk. split_and!; [by apply list_elem_of_In | done | done].
Qed.

Lemma buildRequest_ok lines k first rest d d' r :
  memo_ok (index_lines lines) d ->
  by_index (lines_of_key lines k) = first :: rest ->
  run_request (index_lines lines) first (first :: rest) d = (d', r) ->
  memo_ok (index_lines lines) d' /\
  forall req lane continued, r = Some (req, lane, continued) -> response_of lines k lane req.
Proof.
  intros Hd Hg. pose proof (index_lines_keyed lines) as Hk. unfold buildRequest, bindM, lift.
  destruct (l_Message first) as [m|] eqn:Em; [| by intros [= <- <-]].
  destruct (wm_Usage m) as [u|] eqn:Eu; [| by intros [= <- <-]].
  destruct (parseTime parse_time (l_Timestamp first)) as [ts|] eqn:Et; [| by intros [= <- <-]].
  pose proof (keeps_decodeAssistantRun (first :: rest) d) as Hkeep.
  destruct (decodeAssistantRun parse_time sha256hex (first :: rest) d) as [d1 out] eqn:Eo. cbn in Hkeep.
  assert (memo_ok (index_lines lines) d1) as Hd1 by (intros key msg; rewrite Hkeep; apply Hd).
  destruct out as [out|]; [| by intros [= <- <-]].
  destruct (chain_of (index_lines lines) first) as [chain|] eqn:Ec; [| by intros [= <- <-]].
  apply the_walk_stops_chain in Ec.
  pose proof (turns_ok (index_lines lines) (length chain) chain) as Hts.
  rewrite <- (rev_involutive chain) in Hts at 1. specialize (Hts (ascends_linked _ _ _ Hk Ec)).
  destruct (context_messages parse_time sha256hex (turns (length chain) chain) d1) as [d2 ctx] eqn:Ex.
  destruct (context_ok _ _ _ _ _ Hd1 Hts Ex) as [Hd2 Hctx].
  destruct ctx as [ctx|]; [| by intros [= <- <-]]. unfold ret. intros [= <- <-]. split; [done |].
  intros req lane continued [= <- <- <-].
  assert (first ∈ lines_of_key lines k) as Hfirst.
  { rewrite <- (SliceStable_perm (fun a b => APIBlockIndex a <? APIBlockIndex b)). fold (by_index (lines_of_key lines k)).
    rewrite Hg. by left. }
  apply lines_of_key_elem in Hfirst as (_ & _ & Hkey). constructor; cbn; [done | done |].
  exists first, rest, m, u, chain. split_and!; try done; [| by apply Hctx].
  exists out. split; [done |]. by exists d, d1.
Qed.

(** ** The lanes *)

Definition request_ids (lanes : list Lane) : list string := List.concat (List.map (fun l => List.map ID (Requests l)) lanes).

Record lanes_ok (lines : list rawLine) (seen : list string) (start : Z) (lanes : list Lane) (skipped : Z) : Prop := {
  lo_ids : NoDup (List.map lane_ID lanes);
  lo_requests : Forall (fun l => Requests l <> [] /\ Forall (fun q => response_of lines (ID q) (lane_ID l) q) (Requests l)) lanes;
  lo_once : request_ids lanes ⊆+ seen;
  lo_count : Z.of_nat (length (request_ids lanes)) + skipped ≡₆₄ start + Z.of_nat (length seen);
  lo_range : int64_range skipped
}.

Lemma with_lane_request_ids first req continued id side lanes :
  request_ids (with_lane (place first req continued) id side lanes) ≡ₚ ID req :: request_ids lanes.
Proof.
  unfold request_ids. induction lanes as [|l lanes IH]; [done |]. cbn [with_lane].
  destruct (String.eqb (lane_ID l) id); cbn [List.map List.concat].
  - cbn [place Requests]. rewrite map_app. cbn [List.map]. rewrite <- app_assoc. cbn [app]. by rewrite <- Permutation_middle.
  - rewrite IH. by rewrite <- Permutation_middle.
Qed.

Lemma place_lanes_ok lines first req continued lane side lanes :
  NoDup (List.map lane_ID lanes) -> response_of lines (ID req) lane req ->
  Forall (fun l => Requests l <> [] /\ Forall (fun q => response_of lines (ID q) (lane_ID l) q) (Requests l)) lanes ->
  let lanes' := with_lane (place first req continued) lane side lanes in
  NoDup (List.map lane_ID lanes') /\
  Forall (fun l => Requests l <> [] /\ Forall (fun q => response_of lines (ID q) (lane_ID l) q) (Requests l)) lanes'.
Proof.
  intros Hnd Hreq Hl. split; [by apply with_lane_NoDup |]. apply with_lane_Forall; [| | done].
  - intros l <- [Hne Hqs]. cbn. split; [by destruct (Requests l) |]. apply Forall_app. split; [done | by constructor].
  - cbn. split; [done | by constructor].
Qed.

Lemma add_group_ok lines groups seen start d lanes skipped k d' lanes' skipped' :
  (forall k, default [] (groups !! k) = lines_of_key lines k) -> response_keys lines k ->
  memo_ok (index_lines lines) d -> lanes_ok lines seen start lanes skipped ->
  add_group parse_time sha256hex (index_lines lines) groups (d, (lanes, skipped)) k = (d', (lanes', skipped')) ->
  memo_ok (index_lines lines) d' /\ lanes_ok lines (seen ++ [k]) start lanes' skipped'.
Proof.
  intros Hg (l0 & Hl0 & Hr0 & Hk0)%response_keys_iff Hd [Hids Hreqs Honce Hcount Hrange]. unfold add_group. rewrite Hg.
  destruct (by_index (lines_of_key lines k)) as [|first rest] eqn:E.
  { exfalso. assert (l0 ∈ lines_of_key lines k) as Hin.
    { apply list_elem_of_In. unfold lines_of_key. apply filter_In. split; [by apply list_elem_of_In |].
      rewrite Hr0. by apply String.eqb_eq. }
    rewrite <- (SliceStable_perm (fun a b => APIBlockIndex a <? APIBlockIndex b)) in Hin.
    fold (by_index (lines_of_key lines k)) in Hin. rewrite E in Hin. by apply elem_of_nil in Hin. }
  destruct (run_request (index_lines lines) first (first :: rest) d) as [d1 r] eqn:Eb.
  destruct (buildRequest_ok lines k first rest d d1 r Hd E Eb) as [Hd1 Hreq].
  destruct r as [[[req lane] continued]|]; intros [= <- <- <-]; (split; [done |]).
  - specialize (Hreq _ _ _ eq_refl). pose proof (rs_id _ _ _ _ Hreq) as Hid. rewrite <- Hid in Hreq.
    destruct (place_lanes_ok lines first req continued lane (IsSidechain first) lanes Hids Hreq Hreqs) as [H1 H2].
    pose proof (with_lane_request_ids first req continued lane (IsSidechain first) lanes) as Hp. split; [done | done | | | done].
    + rewrite Hp, Hid. rewrite <- Permutation_cons_append. by apply submseteq_skip.
    + rewrite (Permutation_length Hp), length_app. cbn [length].
      replace (Z.of_nat (S (length (request_ids lanes))) + skipped) with (Z.of_nat (length (request_ids lanes)) + skipped + 1) by lia.
      rewrite Hcount. apply cong64_iff. exists 0. lia.
  - split; [done | done | | | apply wrap64_range].
    + by apply submseteq_inserts_r.
    + rewrite cong64_iadd, Z.add_assoc, Hcount, length_app. cbn [length]. apply cong64_iff. exists 0. lia.
Qed.

Lemma add_groups_ok lines groups start order : forall seen d lanes skipped,
  (forall k, default [] (groups !! k) = lines_of_key lines k) -> Forall (response_keys lines) order ->
  memo_ok (index_lines lines) d -> lanes_ok lines seen start lanes skipped ->
  let out := fold_left (add_group parse_time sha256hex (index_lines lines) groups) order (d, (lanes, skipped)) in
  lanes_ok lines (seen ++ order) start out.2.1 out.2.2.
Proof.
  induction order as [|k order IH]; intros seen d lanes skipped Hg Ho Hd Hl; cbn [fold_left]; [by rewrite app_nil_r |].
  apply Forall_cons in Ho as [Hk Ho].
  destruct (add_group parse_time sha256hex (index_lines lines) groups (d, (lanes, skipped)) k) as [d1 [lanes1 skipped1]] eqn:E.
  destruct (add_group_ok _ _ _ _ _ _ _ _ _ _ _ Hg Hk Hd Hl E) as [Hd1 Hl1].
  rewrite cons_middle, app_assoc. by apply IH.
Qed.


End spec.

(** ** Concrete transcripts *)

(** JSON with its quotes written as primes. *)
Definition js (s : string) : string := map_string (fun c => if Ascii.eqb c "'" then quote else c) s.

Definition lines_text (ls : list string) : string :=
  fold_right (fun l acc => (js l ++ String "010"%char acc)%string) "" ls.

(** A response of two tool calls, a later response that saw only the first
    call's result, and one that saw both. *)
Definition parallel_calls : string := lines_text [
  "{'type':'user','uuid':'u0','timestamp':'t','message':{'content':'hi'}}";
  "{'type':'assistant','uuid':'a1','parentUuid':'u0','requestId':'R1','timestamp':'t','message':{'model':'m','content':[{'type':'tool_use','id':'t1','name':'A','input':{}}],'usage':{'input_tokens':1}}}";
  "{'type':'assistant','uuid':'a2','parentUuid':'a1','requestId':'R1','timestamp':'t','apiBlockIndex':1,'message':{'model':'m','content':[{'type':'tool_use','id':'t2','name':'B','input':{}}],'usage':{'input_tokens':1}}}";
  "{'type':'user','uuid':'r1','parentUuid':'a1','timestamp':'t','message':{'content':[{'type':'tool_result','tool_use_id':'t1','content':'x'}]}}";
  "{'type':'assistant','uuid':'b1','parentUuid':'r1','requestId':'R2','timestamp':'t','message':{'model':'m','content':'b','usage':{'input_tokens':2}}}";
  "{'type':'user','uuid':'r2','parentUuid':'a2','timestamp':'t','message':{'content':[{'type':'tool_result','tool_use_id':'t2','content':'y'}]}}";
  "{'type':'assistant','uuid':'c1','parentUuid':'r2','requestId':'R3','timestamp':'t','message':{'model':'m','content':'c','usage':{'input_tokens':3}}}";
  "not json"].

Definition toy_time (s : string) : option time := Some (len s).

(** The blocks, by tool use, of each message of a request's context. *)
Definition context_tools (p : Parsed) : list (string * list (list string)) :=
  List.concat (List.map (fun l => List.map (fun q => (ID q, List.map (fun m => List.map ToolUseID (Transcript.Blocks m)) (Context q))) (Requests l))
    (Lanes (p_Session p))).

Definition parsed_calls : list (string * list (list string)) :=
  match ParseClaudeCode toy_time (fun s => s) parallel_calls with Some p => context_tools p | None => [] end.

(** The message of a run is kept under its first line, whatever the run's
    length: R3, whose ancestry holds both calls, is given the one R2 saw. *)
Lemma a_longer_run_is_given_the_shorter_message :
  parsed_calls = [("R1", [[""]]); ("R2", [[""]; ["t1"]; ["t1"]]); ("R3", [[""]; ["t1"]; ["t2"]])].
Proof. vm_compute. reflexivity. Qed.


End ClaudeCodeSpec.
