(* ===== verification/LedgerStoreSpec.v ===== *)
(** What the ledger on disk keeps: every record appended is read back, once
    and in order, from a file no other session shares, a line still being written is neither lost nor counted as
    lost, and the pins a restart loads are the ones the process held. *)

From S2P Require Import Prelude GoString GoTime Json Labels Transcript Tenancy Guards Breaker Ledger.
From S2P Require Import LedgerStore.
From Stdlib Require Import Ascii String.

Open Scope string_scope.
Open Scope list_scope.
Open Scope Z_scope.

Module LedgerStoreSpec.
Import Labels Transcript Tenancy LoopGuard Ledger LedgerStore.

#[local] Abbreviation length := List.length.

Arguments Append : simpl never.

(** ** Strings and lines *)

Definition no_lf (s : string) : Prop := string_forallb (fun c => negb (Ascii.eqb c LF)) s = true.

Lemma append_assoc (a b c : string) : ((a ++ b) ++ c = a ++ (b ++ c))%string.
Proof. induction a as [|x a IH]; [done |]. cbn. by rewrite IH. Qed.

Lemma append_nil (a : string) : (a ++ "" = a)%string.
Proof. induction a as [|x a IH]; [done |]. cbn. by rewrite IH. Qed.

Lemma append_empty (a b : string) : (a ++ b)%string = "" -> a = "" /\ b = "".
Proof. by destruct a. Qed.

Lemma pieces_from_line l : forall acc rest,
  no_lf l -> pieces_from acc (l ++ String LF rest) = (acc ++ l)%string :: pieces rest.
Proof.
  induction l as [|c l IH]; intros acc rest Hl; cbn.
  - by rewrite append_nil.
  - unfold no_lf in Hl. cbn in Hl. apply andb_true_iff in Hl as [Hc Hl]. apply negb_true_iff in Hc as ->.
    rewrite IH by done. by rewrite append_assoc.
Qed.

Lemma pieces_from_tail t : forall acc, no_lf t ->
  pieces_from acc t = if String.eqb (acc ++ t) "" then [] else [(acc ++ t)%string].
Proof.
  induction t as [|c t IH]; intros acc Ht; cbn; [by rewrite append_nil |].
  unfold no_lf in Ht. cbn in Ht. apply andb_true_iff in Ht as [Hc Ht]. apply negb_true_iff in Hc as ->.
  rewrite IH by done. by rewrite append_assoc.
Qed.

Lemma last_char_cons c s : s <> "" -> last_char (String c s) = last_char s.
Proof. cbn. destruct (String.eqb_spec s ""); [done | done]. Qed.

Lemma pieces_from_app s b : forall acc,
  endsWithNewline s = true -> (s = "" -> acc = "") ->
  pieces_from acc (s ++ b) = pieces_from acc s ++ pieces b.
Proof.
  induction s as [|c s IH]; intros acc He Hacc; cbn.
  - by rewrite (Hacc eq_refl).
  - destruct (String.eqb_spec s "") as [->|Hne].
    + unfold endsWithNewline in He. cbn in He. rewrite He. done.
    + assert (endsWithNewline s = true) as He'
        by (unfold endsWithNewline in *; by rewrite last_char_cons in He).
      destruct (Ascii.eqb c LF); cbn; rewrite IH; done.
Qed.

(** A file that ends on a newline reads the same whatever follows. *)
Lemma pieces_app s b : endsWithNewline s = true -> pieces (s ++ b) = pieces s ++ pieces b.
Proof. intros He. by apply pieces_from_app. Qed.

Lemma endsWithNewline_line s l : endsWithNewline (s ++ (l ++ String LF "")) = true.
Proof.
  unfold endsWithNewline. rewrite <- append_assoc. generalize (s ++ l)%string as a.
  induction a as [|c a IH]; [done |]. cbn [String.append]. rewrite last_char_cons; [done |].
  by intros [_ ?]%append_empty.
Qed.

(** A line the scanner hands out as it was written. *)
Record line_ok (l : string) : Prop := {
  lo_no_lf : no_lf l;
  lo_fits : len l + 1 <= maxLineBytes;
  lo_no_cr : drop_cr l = l
}.

Lemma pieces_one l : line_ok l -> pieces (l ++ String LF "") = [l].
Proof. intros [Hl _ _]. unfold pieces. by rewrite pieces_from_line. Qed.

Lemma scan_lines_ok ls : Forall line_ok ls -> scan_lines ls = (ls, false).
Proof.
  induction 1 as [|l ls [_ Hfit Hcr] _ IH]; [done |]. cbn.
  replace (maxLineBytes <? len l + 1) with false by (symmetry; apply Z.ltb_ge; lia).
  by rewrite IH, Hcr.
Qed.

(** ** Pins *)

Section pins.
Context (encode_pin : Pin -> string) (decode_pin : string -> option Pin).
Context (decode_revert : string -> option Revert).

(** A pin the proxy writes: its line decodes to it, its session is named and
    its tenant is one a request can resolve to. *)
Record pin_ok (tenant : string) (p : Pin) : Prop := {
  po_line : line_ok (encode_pin (set_tenant tenant p));
  po_codec : decode_pin (encode_pin (set_tenant tenant p)) = Some (set_tenant tenant p);
  po_session : pin_SessionID p <> "";
  po_tenant : tenant = LocalTenant \/ ValidateTenantID tenant = None
}.

(** The file holds what the table holds. *)
Record store_ok (s : Store) : Prop := {
  so_clean : endsWithNewline (pins_file s) = true;
  so_lines : Forall line_ok (pieces (pins_file s));
  so_table : loadPins decode_pin (pins_file s) = Some (st_pins s)
}.

Lemma ValidateTenantID_nonempty t : ValidateTenantID t = None -> t <> "".
Proof. intros H ->. by vm_compute in H. Qed.

Lemma pin_line_written pins tenant p :
  pin_ok tenant p ->
  pin_line decode_pin pins (encode_pin (set_tenant tenant p)) = put_pin tenant (set_tenant tenant p) pins.
Proof.
  intros [_ Hc Hs Ht]. unfold pin_line. rewrite Hc. cbn [pin_SessionID set_tenant pin_TenantID].
  apply String.eqb_neq in Hs as ->. unfold persistedPinTenantKey, SpendGuard.persistedTenantKey.
  assert (tenant <> "") as Hne by (destruct Ht as [->|Ht]; [done | by apply ValidateTenantID_nonempty]).
  apply String.eqb_neq in Hne as ->.
  destruct (String.eqb_spec tenant LocalTenant) as [->|Hl]; [done |].
  destruct Ht as [? | ->]; done.
Qed.

Lemma loadPins_lines content :
  Forall line_ok (pieces content) ->
  loadPins decode_pin content = Some (fold_left (pin_line decode_pin) (pieces content) ∅).
Proof. intros H. unfold loadPins. by rewrite scan_lines_ok. Qed.

Lemma store_ok_fresh rv rf : store_ok (mkStore ∅ "" rv rf).
Proof. by split; [| constructor |]. Qed.

(** A write that succeeds, or that fails before its first byte, keeps the file
    and the table the same. *)
Lemma SetPin_ok s tenant p o :
  store_ok s -> pin_ok tenant p -> o = Written \/ o = WriteError 0 ->
  store_ok (SetPin encode_pin s tenant p o).1.
Proof.
  intros Hs Hp Ho. destruct Hs as [Hc Hl Ht]. unfold SetPin. destruct Ho as [-> | ->]; cbn [fst].
  - rewrite (loadPins_lines _ Hl) in Ht. injection Ht as Ht.
    pose proof (pieces_one _ (po_line _ _ Hp)) as H1.
    assert (Forall line_ok (pieces (pins_file s ++ (encode_pin (set_tenant tenant p) ++ String LF ""))))
      as Hl'.
    { rewrite pieces_app, H1 by done. apply Forall_app. split; [done |]. constructor; [apply Hp | done]. }
    split; cbn [pins_file st_pins after_write].
    + apply endsWithNewline_line.
    + exact Hl'.
    + rewrite (loadPins_lines _ Hl'), pieces_app, H1 by done.
      rewrite fold_left_app. cbn [fold_left]. by rewrite pin_line_written, Ht.
  - split; cbn [pins_file st_pins after_write]; destruct (encode_pin (set_tenant tenant p)) as [|c l];
      cbn [substring String.append]; rewrite append_nil; done.
Qed.

(** What a restart finds is what the process held. *)
Lemma Open_pins s rv :
  store_ok s -> exists s', Open decode_pin decode_revert (pins_file s) rv = Some s' /\
    st_pins s' = st_pins s /\ store_ok s'.
Proof.
  intros [Hc Hl Ht]. unfold Open. rewrite Ht. cbn [mbind option_bind]. eexists. split; [done |].
  split; [done |]. by split.
Qed.

Lemma get_pin_put s tenant p tenant' sid :
  inner (put_pin tenant p (st_pins s)) tenant' !! sid =
    if decide (tenant' = tenant /\ sid = pin_SessionID p) then Some p else get_pin s tenant' sid.
Proof.
  unfold put_pin, get_pin. destruct (decide (tenant' = tenant)) as [->|Hne].
  - rewrite inner_insert_eq. destruct (decide (sid = pin_SessionID p)) as [->|Hs].
    + rewrite lookup_insert_eq, decide_True; done.
    + rewrite lookup_insert_ne, decide_False; [done | by intros [_ ?] | done].
  - rewrite inner_insert_ne, decide_False; [done | by intros [? _] | done].
Qed.

End pins.

(** ** Records *)

Section records.
Context (sha256hex : string -> string) (hmac16 : string -> string -> string).
Context (encode : Entry -> string) (decode : string -> option Entry) (key : string).

(** A record whose line is read back as [back r]. *)
Record entry_ok (back : Entry -> Entry) (r : Entry) : Prop := {
  eo_line : line_ok (encode (with_schema hmac16 key r));
  eo_trim : TrimSpace (encode (with_schema hmac16 key r)) = encode (with_schema hmac16 key r);
  eo_some : encode (with_schema hmac16 key r) <> "";
  eo_codec : decode (encode (with_schema hmac16 key r)) = Some (back r);
  eo_schema : Schema (back r) = SchemaVersion
}.

Definition append_all (d : directory) (rs : list Entry) : directory :=
  fold_left (fun d r => (Append sha256hex hmac16 encode key d r Written).1) rs d.

Definition file_of (sid : string) : string := (sessionFileName sha256hex sid ++ ".jsonl")%string.

Definition lines_of (rs : list Entry) : string :=
  foldr (fun r s => (record_line hmac16 encode key r ++ s)%string) "" rs.

Lemma lines_of_snoc rs r :
  lines_of (rs ++ [r]) = (lines_of rs ++ record_line hmac16 encode key r)%string.
Proof.
  induction rs as [|r' rs IH]; cbn [lines_of foldr app]; [by rewrite append_nil |].
  fold (lines_of (rs ++ [r])) (lines_of rs). by rewrite IH, append_assoc.
Qed.

(** Each session file holds the lines of its own session, in order. *)
Lemma append_all_lookup rs sid :
  (forall r, r ∈ rs -> file_of (SessionID r) = file_of sid -> SessionID r = sid) ->
  default "" (append_all ∅ rs !! file_of sid) = lines_of (filter (fun r => SessionID r = sid) rs).
Proof.
  induction rs as [|r rs IH] using rev_ind; intros Hinj; [done |].
  unfold append_all in *. rewrite fold_left_app, filter_app. cbn [fold_left].
  specialize (IH (fun r' H => Hinj r' (proj2 (elem_of_app _ _ _) (or_introl H)))).
  unfold Append at 1. cbn [fst]. rewrite filter_cons, filter_nil.
  destruct (decide (SessionID r = sid)) as [Hs|Hs].
  - rewrite Hs. change (sessionFileName sha256hex sid ++ ".jsonl")%string with (file_of sid).
    rewrite lookup_insert_eq. cbn [default after_write]. rewrite IH. by rewrite lines_of_snoc.
  - rewrite lookup_insert_ne; [by rewrite app_nil_r |].
    intros Hf. apply Hs. apply Hinj; [| exact Hf]. apply elem_of_app. right. by left.
Qed.


Lemma record_line_app r s :
  (record_line hmac16 encode key r ++ s = encode (with_schema hmac16 key r) ++ String LF s)%string.
Proof. unfold record_line. by rewrite append_assoc. Qed.

Lemma lines_of_pieces back rs :
  Forall (entry_ok back) rs ->
  endsWithNewline (lines_of rs) = true /\
  pieces (lines_of rs) = List.map (fun r => encode (with_schema hmac16 key r)) rs.
Proof.
  induction 1 as [|r rs Hr _ [IHc IHp]]; [done |]. cbn [lines_of foldr]. fold (lines_of rs).
  rewrite record_line_app. split.
  - destruct (String.eqb_spec (lines_of rs) "") as [E|Hne].
    + rewrite E. apply (endsWithNewline_line "").
    + unfold endsWithNewline in *. generalize (encode (with_schema hmac16 key r)) as l. intros l.
      induction l as [|c l IHl]; cbn [String.append]; rewrite last_char_cons; [done | done | done |].
      by intros [_ ?]%append_empty.
  - unfold pieces. rewrite pieces_from_line by apply Hr. cbn [String.append List.map]. by rewrite IHp.
Qed.

Definition ok_reading (rs : list Entry) : reading := mkReading rs 0 0 false RejectedNone.

Lemma read_lines back rs : forall s,
  Forall (entry_ok back) rs ->
  fold_left (read_line decode) (List.map (fun r => encode (with_schema hmac16 key r)) rs) (ok_reading s) =
    ok_reading (s ++ List.map back rs).
Proof.
  induction rs as [|r rs IH]; intros s H; [by rewrite app_nil_r |]. inversion H as [|? ? Hr Hrs]; subst.
  cbn [List.map fold_left]. unfold read_line at 2. rewrite (eo_trim _ _ Hr).
  pose proof (eo_some _ _ Hr) as Hne. apply String.eqb_neq in Hne as ->.
  rewrite (eo_codec _ _ Hr), (eo_schema _ _ Hr), Z.eqb_refl. cbn [negb].
  unfold ok_reading in *. cbn [records skipped schemaMismatch incomplete].
  rewrite IH by done. by rewrite <- app_assoc.
Qed.

(** What a write that is still under way, or died, leaves at the end of a
    file: the start of a line, which is not a record yet. *)
Record tail_ok (t : string) : Prop := {
  to_no_lf : no_lf t;
  to_fits : len t + 1 <= maxLineBytes;
  to_partial : t <> "" -> TrimSpace (drop_cr t) <> "" /\ decode (TrimSpace (drop_cr t)) = None
}.

Lemma endsWithNewline_tail s t : no_lf t -> t <> "" -> endsWithNewline (s ++ t) = false.
Proof.
  intros Ht Hne. unfold endsWithNewline.
  assert (last_char (s ++ t) = last_char t) as ->.
  { induction s as [|c s IH]; [done |]. cbn [String.append]. rewrite last_char_cons; [done |].
    by intros [_ ?]%append_empty. }
  induction t as [|c t IH]; [done |]. unfold no_lf in Ht. cbn [string_forallb] in Ht.
  apply andb_true_iff in Ht as [Hc Ht]. destruct (String.eqb_spec t "") as [->|Htne].
  - cbn. by apply negb_true_iff in Hc.
  - rewrite last_char_cons by done. by apply IH.
Qed.

(** ** Which sessions share a file *)

Lemma safe_name_nonempty id : id <> "" -> safe_name false id <> "".
Proof. destruct id as [|c id]; [done |]. intros _. cbn. by destruct (safe_char c). Qed.

(** A digest has at least the eight digits a file is named by. *)
Hypothesis digest_length : forall s, (8 <= String.length (sha256hex s))%nat.

Lemma length_take8 s : String.length (substring 0 8 (sha256hex s)) = 8%nat.
Proof using digest_length.
  assert (forall n t, (n <= String.length t)%nat -> String.length (substring 0 n t) = n) as H; [| apply H, digest_length].
  induction n as [|n IH]; intros [|c t] Ht; cbn in *; try lia. by rewrite IH by lia.
Qed.

Lemma length_append (a b : string) : String.length (a ++ b) = (String.length a + String.length b)%nat.
Proof. induction a as [|c a IH]; cbn; [done | by rewrite IH]. Qed.

Lemma append_cancel (a a' b b' : string) :
  String.length b = String.length b' -> (a ++ b)%string = (a' ++ b')%string -> a = a' /\ b = b'.
Proof.
  intros Hl. revert a'. induction a as [|c a IH]; intros a' H.
  - destruct a' as [|c' a']; [by split |]. cbn in H. apply (f_equal String.length) in H. cbn in H. rewrite length_append in H. lia.
  - destruct a' as [|c' a'].
    + cbn in H. apply (f_equal String.length) in H. cbn in H. rewrite length_append in H. lia.
    + cbn in H. injection H as <- H. destruct (IH a' H) as [-> ->]. by split.
Qed.

(** An id that can stand for itself in a file's name. *)
Definition plain_id (id : string) : Prop := id <> "" /\ safe_name false id = id.

(** The ways two sessions come to one file: one has no name and the other is
    called unknown; both are written with other characters and agree in what is
    left of the names and in eight digits of the digest; or one is called what
    the other's name and digest make. *)
Definition one_file (a b : string) : Prop :=
  (a = "" /\ b = "unknown") \/
  (~ plain_id a /\ ~ plain_id b /\ safe_name false a = safe_name false b /\
     substring 0 8 (sha256hex a) = substring 0 8 (sha256hex b)) \/
  (plain_id a /\ a = (safe_name false b ++ "-" ++ substring 0 8 (sha256hex b))%string).

Lemma append_right_cancel (a b c : string) : (a ++ c)%string = (b ++ c)%string -> a = b.
Proof. intros H. by destruct (append_cancel a b c c eq_refl H). Qed.

(** The cases of a file's name. *)
Lemma sessionFileName_cases id :
  (id = "" /\ sessionFileName sha256hex id = "unknown") \/
  (plain_id id /\ sessionFileName sha256hex id = id) \/
  (id <> "" /\ ~ plain_id id /\ sessionFileName sha256hex id = (safe_name false id ++ "-" ++ substring 0 8 (sha256hex id))%string).
Proof.
  unfold sessionFileName, plain_id. destruct (decide (id = "")) as [->|Hne]; [by left |]. right.
  rewrite (proj2 (String.eqb_neq _ _) (safe_name_nonempty id Hne)).
  destruct (String.eqb_spec (safe_name false id) id) as [E|E]; [left | right]; split_and!; try done. by intros [_ ?].
Qed.

Lemma same_file_one_file a b : a <> b -> file_of a = file_of b -> one_file a b \/ one_file b a.
Proof using digest_length.
  intros Hne H. unfold file_of in H. apply append_right_cancel in H. unfold one_file.
  assert (forall id, sessionFileName sha256hex id = "unknown" -> id <> "" -> id = "unknown") as Hunk.
  { intros id Hu Hid. destruct (sessionFileName_cases id) as [[? _]|[[_ E]|(_ & _ & E)]]; [done | by rewrite <- E |].
    rewrite Hu in E. apply (f_equal String.length) in E. rewrite !length_append, length_take8 in E. cbn in E. lia. }
  destruct (sessionFileName_cases a) as [[Ea Na]|[[Pa Na]|(Ea & Pa & Na)]],
           (sessionFileName_cases b) as [[Eb Nb]|[[Pb Nb]|(Eb & Pb & Nb)]]; rewrite Na in H.
  - congruence.
  - left. left. split; [done |]. apply Hunk; [done | apply Pb].
  - left. left. split; [done |]. by apply Hunk.
  - right. left. split; [done |]. rewrite Nb in H. by rewrite <- H.
  - congruence.
  - left. right. right. split; [done |]. by rewrite H, Nb.
  - rewrite Nb in H. right. left. split; [done |]. apply Hunk; [by rewrite Na | done].
  - right. right. right. split; [done |]. by rewrite H, Nb.
  - rewrite Nb in H. left. right. left. split_and!; try done.
    all: apply append_cancel in H as [H1 H2]; [| cbn; by rewrite !length_take8]; [exact H1 || by injection H2].
Qed.

(** C32: what is appended is read back.  When records of any sessions are
    appended to an empty ledger in any order, the file of a session that shares
    it with none of the others reads back as exactly that session's records, in
    the order they were appended; a last line still being written is reported
    as incomplete, and nothing is counted as skipped or as another schema's.
    Sessions share a file only in the three ways listed: a missing id with the
    id unknown, and where eight digits of a digest agree or an id spells out
    another's. *)
Theorem appended_records_are_read :
  forall back rs sid t,
    Forall (entry_ok back) rs ->
    (forall r, r ∈ rs -> SessionID r <> sid -> ~ one_file (SessionID r) sid /\ ~ one_file sid (SessionID r)) ->
    tail_ok t ->
    let content := (default "" (append_all ∅ rs !! file_of sid) ++ t)%string in
    exists s, ReadRecords decode true content = inl s /\
      records s = List.map back (filter (fun r => SessionID r = sid) rs) /\
      skipped s = 0 /\ schemaMismatch s = 0 /\ (incomplete s = true <-> t <> "").
Proof using digest_length.
  intros back rs sid t Hrs Happart Ht content.
  assert (forall r, r ∈ rs -> file_of (SessionID r) = file_of sid -> SessionID r = sid) as Hinj.
  { intros r Hr Hf. destruct (decide (SessionID r = sid)) as [|Hne]; [done |]. destruct (Happart r Hr Hne) as [H1 H2].
    by destruct (same_file_one_file _ _ Hne Hf). }
  subst content. rewrite append_all_lookup by done.
  set (own := filter (fun r => SessionID r = sid) rs).
  assert (Forall (entry_ok back) own) as Hown.
  { apply Forall_forall. intros r Hr. apply list_elem_of_filter in Hr as [_ Hr].
    rewrite Forall_forall in Hrs. by apply Hrs. }
  destruct (lines_of_pieces back own Hown) as [Hc Hp]. unfold ReadRecords.
  rewrite pieces_app, Hp by done.
  assert (Forall line_ok (List.map (fun r => encode (with_schema hmac16 key r)) own)) as Hlo.
  { apply List.Forall_map. eapply List.Forall_impl; [| exact Hown]. intros r Hr. apply Hr. }
  destruct (String.eqb_spec t "") as [->|Hne].
  - change (pieces "") with (@nil string). rewrite app_nil_r, scan_lines_ok, append_nil, Hc by done.
    change (mkReading [] 0 0 false RejectedNone) with (ok_reading []). rewrite (read_lines back) by done.
    eexists. split; [reflexivity |]. by split_and!.
  - destruct Ht as [Hlf Hfit Hpart]. destruct (Hpart Hne) as [Hblank Hdec].
    unfold pieces at 1. rewrite pieces_from_tail by done. cbn [String.append].
    apply String.eqb_neq in Hne as Hne'. rewrite Hne'.
    assert (forall ls, Forall line_ok ls -> scan_lines (ls ++ [t]) = (ls ++ [drop_cr t], false)) as Hscan.
    { induction 1 as [|l ls [_ Hf Hcr] _ IH]; cbn [scan_lines app].
      - by replace (maxLineBytes <? len t + 1) with false by (symmetry; apply Z.ltb_ge; lia).
      - replace (maxLineBytes <? len l + 1) with false by (symmetry; apply Z.ltb_ge; lia).
        by rewrite IH, Hcr. }
    rewrite Hscan, endsWithNewline_tail, fold_left_app by done.
    change (mkReading [] 0 0 false RejectedNone) with (ok_reading []). rewrite (read_lines back) by done.
    cbn [fold_left]. unfold read_line, ok_reading. apply String.eqb_neq in Hblank as ->. rewrite Hdec.
    eexists. split; [reflexivity |]. by split_and!.
Qed.

(** A file that was left with the start of a line swallows the next record:
    the two become one line, which is not a record. *)
Lemma a_tear_swallows_the_next_record content t r o :
  no_lf t -> no_lf (encode (with_schema hmac16 key r)) -> endsWithNewline content = true ->
  o = Written ->
  pieces (after_write (content ++ t) (record_line hmac16 encode key r) o) =
    pieces content ++ [(t ++ encode (with_schema hmac16 key r))%string].
Proof.
  intros Ht Hr Hc ->. cbn [after_write]. unfold record_line.
  rewrite append_assoc, pieces_app by done. f_equal. unfold pieces.
  rewrite <- append_assoc, pieces_from_line; [done |].
  unfold no_lf in *. induction t as [|c t IH]; [done |]. cbn in *. apply andb_true_iff in Ht as [-> Ht].
  by rewrite IH.
Qed.

End records.

(** ** A concrete ledger: a codec that keeps the request id, two sessions, and
    a third record half written. *)

Definition toy_encode (r : Entry) : string := ("<" ++ RequestID r ++ ">")%string.

Definition toy_record (id : string) : Entry :=
  with_schema (fun _ s => s) "" (mkEntry 0 0 "" "" "" id "" "" false "" empty_summary "" 200 "" "" "" "" ""
    ∅ false ∅ ∅ 0 0 0 ∅ empty_response None).

Definition toy_decode (s : string) : option Entry :=
  if bool_decide (last_char s = Some ">"%char) then Some (toy_record s) else None.

Definition toy_entry (sid id : string) : Entry :=
  mkEntry 0 0 sid "" "" id "" "" false "" empty_summary "" 200 "" "" "" "" ""
    ∅ false ∅ ∅ 0 0 0 ∅ empty_response None.

Definition toy_ledger : list Entry := [toy_entry "a" "r1"; toy_entry "b/c" "r2"; toy_entry "a" "r3"].

Lemma appended_records_are_read_witness :
  let file := (default "" (append_all (fun _ => "00000000") (fun _ s => s) toy_encode "" ∅ toy_ledger
                 !! "a.jsonl") ++ "<r")%string in
  file = ("<r1>" ++ String LF ("<r3>" ++ String LF "<r"))%string /\
  exists s, ReadRecords toy_decode true file = inl s /\
    records s = [toy_record "<r1>"; toy_record "<r3>"] /\ skipped s = 0.
Proof.
  cbv zeta. split; [vm_compute; reflexivity |].
  destruct (appended_records_are_read (fun _ => "00000000") (fun _ s => s) toy_encode toy_decode "" (fun _ => le_n 8)
              (fun r => toy_record (toy_encode r)) toy_ledger "a" "<r") as (s & Hs & Hr & Hk & _ & _).
  - repeat (apply List.Forall_cons; [by split; [split | | | |] |]). apply List.Forall_nil.
  - assert (~ one_file (fun _ => "00000000") "b/c" "a" /\ ~ one_file (fun _ => "00000000") "a" "b/c") as Hab.
    { split; intros [[? _] | [(? & ? & _) | [[_ ?] ?]]]; try done;
        match goal with H : ~ plain_id "a" |- _ => by apply H end. }
    intros r Hr Hs. apply elem_of_cons in Hr as [-> | Hr]; [done |]. apply elem_of_cons in Hr as [-> | Hr]; [exact Hab |].
    apply elem_of_cons in Hr as [-> | Hr]; [done |]. by apply not_elem_of_nil in Hr.
  - split; [done | by vm_compute | by intros _; split].
  - exists s. split; [exact Hs |]. split; [| exact Hk]. rewrite Hr. reflexivity.
Defined.

End LedgerStoreSpec.
