(* ===== verification/Policy.v ===== *)
(** The request parameter the proxy can add
    ([src/internal/policy/contextedit.go]): when a request may carry it, and
    how it is spliced into the client's bytes. *)

From S2P Require Import Prelude GoString GoFloat GoTime Json JsonValue Labels Transcript CacheRules CachePrices.
From S2P Require Import CacheVerdict Calibrate Fit Replay.
From Stdlib Require Import Ascii String.

Open Scope string_scope.
Open Scope list_scope.
Open Scope Z_scope.

Module Policy.
Import Json JsonValue.

#[local] Abbreviation length := List.length.

Record ContextEdit := mkEdit { TriggerTokens : Z; KeepLast : Z }.

#[export] Instance ContextEdit_eq_dec : EqDecision ContextEdit.
Proof. solve_decision. Defined.

Definition Name : string := "context-edit".
Definition BetaFeature : string := "context-management-2025-06-27".
Definition parameterKey : string := "context_management".
Definition editType : string := "clear_tool_uses_20250919".

(** [Decision] is a string type; the pins keep its text. *)
Definition Applied : string := "applied".
Definition SkipClientSet : string := "skipped: client set " ++ parameterKey.
Definition SkipNoBeta : string := "skipped: client did not enable " ++ BetaFeature.
Definition SkipNotAnObject : string := "skipped: body is not a JSON object".
Definition SkipInvalid : string := "skipped: edited body would not parse".
Definition NotConfigured : string := "no policy configured".
Definition Control : string := "control: held out of the trial".
Definition Reverted : string := "reverted: the trial's guardrail tripped".
Definition SkipUnparsed : string := "skipped: request could not be summarized".

(** [Validate]: [true] is no error. *)
Definition Validate (p : ContextEdit) : bool := (0 <? TriggerTokens p) && (0 <=? KeepLast p).

Definition Simulated (p : ContextEdit) : Replay.ContextEditPolicy :=
  Replay.mkEdit (KeepLast p) (TriggerTokens p).

(** [strings.Split(s, ",")] *)
Fixpoint split_commas (acc : string) (s : string) : list string :=
  match s with
  | EmptyString => [acc]
  | String c s' => if Ascii.eqb c "," then acc :: split_commas "" s'
                   else split_commas (acc ++ String c "")%string s'
  end.

(** The feature has no letter with a folding outside ASCII. *)
Definition hasBeta (header feature : string) : bool :=
  existsb (fun f => equal_fold (Labels.TrimSpace f) feature) (split_commas "" header).

Definition Admissible (beta : string) (clientSet : bool) : string :=
  if clientSet then SkipClientSet else if negb (hasBeta beta BetaFeature) then SkipNoBeta else Applied.

Definition q (s : string) : string := String quote (s ++ String quote "").

Definition parameter (p : ContextEdit) : string :=
  let clearAtLeast := to_int (of_int (TriggerTokens p) * Replay.ClearHysteresis)%float in
  ("{" ++ q "edits" ++ ":[{" ++ q "type" ++ ":" ++ q editType ++ "," ++ q "trigger" ++ ":{" ++ q "type" ++ ":"
   ++ q "input_tokens" ++ "," ++ q "value" ++ ":" ++ itoa (TriggerTokens p) ++ "}," ++ q "keep" ++ ":{"
   ++ q "type" ++ ":" ++ q "tool_uses" ++ "," ++ q "value" ++ ":" ++ itoa (KeepLast p) ++ "},"
   ++ q "clear_at_least" ++ ":{" ++ q "type" ++ ":" ++ q "input_tokens" ++ "," ++ q "value" ++ ":"
   ++ itoa clearAtLeast ++ "}}]}")%string.

(** [bytes.IndexByte], [bytes.LastIndexByte] *)
Fixpoint index_byte (c : ascii) (l : bytes) : option nat :=
  match l with
  | [] => None
  | x :: l => if Ascii.eqb x c then Some 0%nat else S <$> index_byte c l
  end.

Fixpoint last_index_byte (c : ascii) (l : bytes) : option nat :=
  match l with
  | [] => None
  | x :: l => match last_index_byte c l with
              | Some i => Some (S i)
              | None => if Ascii.eqb x c then Some 0%nat else None
              end
  end.

(** [json.Valid] *)
Definition valid (doc : bytes) : bool := match parse doc with Some _ => true | None => false end.

Definition member (p : ContextEdit) : bytes := of_string (q parameterKey ++ ":" ++ parameter p).

Definition Apply (p : ContextEdit) (body : bytes) : bytes * string :=
  match index_byte "{" body, last_index_byte "}" body with
  | Some start, Some stop =>
      if (stop <=? start)%nat then (body, SkipNotAnObject)
      else
        let inner := Labels.TrimSpace (to_string (take (stop - S start) (drop (S start) body))) in
        let comma := if String.eqb inner "" then [] else [","%char] in
        let out := take stop body ++ comma ++ member p ++ drop stop body in
        if valid out then (out, Applied) else (body, SkipInvalid)
  | _, _ => (body, SkipNotAnObject)
  end.

(** [(p ContextEdit) String()] *)
Definition edit_string (p : ContextEdit) : string :=
  (Name ++ "(keep=" ++ itoa (KeepLast p) ++ ",trigger=" ++ itoa (TriggerTokens p) ++ ")")%string.

(** ** What it does to a body *)

Lemma last_index_byte_spec c l i :
  last_index_byte c l = Some i -> l !! i = Some c /\ forall j, (i < j)%nat -> l !! j <> Some c.
Proof.
  revert i. induction l as [|x l IH]; intros i; [done |]. cbn [last_index_byte].
  assert (last_index_byte c l = None -> forall j, l !! j <> Some c) as Hnone.
  { clear. induction l as [|x l IH]; [done |]. cbn. destruct (last_index_byte c l); [done |].
    destruct (Ascii.eqb_spec x c); [done |]. intros _ [|j]; cbn; [congruence | by apply IH]. }
  destruct (last_index_byte c l) as [k|].
  - intros [= <-]. destruct (IH k eq_refl) as [Hk Hl]. split; [done |].
    intros [|j] Hj; [lia |]. cbn. apply Hl. lia.
  - destruct (Ascii.eqb_spec x c) as [->|]; [| done]. intros [= <-]. split; [done |].
    intros [|j] Hj; [lia |]. cbn. by apply Hnone.
Qed.

(** Every byte of the client stays, in order: what is sent is the body with
    the member, and a comma when the object had one already, put in ahead of
    its last closing brace; or the body itself. *)
Lemma Apply_keeps_the_clients_bytes p body :
  (exists pre post comma,
     body = pre ++ post /\ head post = Some "}"%char /\ (comma = [] \/ comma = [","%char]) /\
     Apply p body = (pre ++ comma ++ member p ++ post, Applied) /\
     valid (pre ++ comma ++ member p ++ post) = true) \/
  ((Apply p body).1 = body /\ (Apply p body).2 <> Applied).
Proof.
  unfold Apply. destruct (index_byte "{" body) as [start|]; [| by right].
  destruct (last_index_byte "}" body) as [stop|] eqn:Hs; [| by right].
  destruct (stop <=? start)%nat; [by right |].
  match goal with |- context [if valid ?d then _ else _] => destruct (valid d) eqn:Hv end; [| by right].
  left. apply last_index_byte_spec in Hs as [Hs _].
  eexists (take stop body), (drop stop body), _. split; [symmetry; apply take_drop |]. split.
  - rewrite <- (Nat.add_0_r stop), <- lookup_drop in Hs. destruct (drop stop body); [done |].
    by injection Hs as ->.
  - split; [| by split]. destruct (String.eqb _ ""); [by left | by right].
Qed.

Example Apply_ok :
  Apply (mkEdit 100000 6) (of_string ("{" ++ q "a" ++ ":1}")) =
    (of_string ("{" ++ q "a" ++ ":1," ++ q parameterKey ++ ":" ++ parameter (mkEdit 100000 6) ++ "}"), Applied).
Proof. vm_compute. reflexivity. Qed.

(** The check for an object looks for braces only: an array that holds an
    object gets the member spliced into what it holds. *)
Lemma Apply_takes_an_array :
  exists out, Apply (mkEdit 1 0) (of_string "[{}]") = (out, Applied) /\
    parse (of_string "[{}]") = Some (Array [Object []]).
Proof. eexists. split; vm_compute; reflexivity. Qed.

End Policy.
