(* ===== verification/PrefixDelta.v ===== *)
(** Naming what changed in a prefix ([src/internal/proxy/causedetail.go]). *)

From S2P Require Import Prelude GoString GoTime Transcript CacheRules CachePrices CacheVerdict.
From Stdlib Require Import Ascii String.

Open Scope string_scope.
Open Scope list_scope.
Open Scope Z_scope.

Module PrefixDelta.
Import Transcript CacheVerdict.

#[local] Abbreviation length := List.length.

Definition maxNamedTools : nat := 6.

Record prefixDelta := mkDelta {
  added : list string;
  removed : list string;
  resized : list string;
  systemBefore : Z;
  systemNow : Z
}.

Definition nonempty {A} (l : list A) : bool := match l with [] => false | _ => true end.

Definition toolsChanged (d : prefixDelta) : bool :=
  nonempty (added d) || nonempty (removed d) || nonempty (resized d).

Definition systemChanged (d : prefixDelta) : bool := negb (systemBefore d =? systemNow d).

Definition cause (d : prefixDelta) : BreakCause :=
  if toolsChanged d && systemChanged d then CausePrefixChange
  else if toolsChanged d then CauseToolsChanged
  else if systemChanged d then CauseSystemChanged
  else CausePrefixChange.

(** [strings.Join] *)
Definition join (sep : string) (l : list string) : string := String.concat sep l.

Definition nameList (names : list string) : string :=
  if (length names <=? maxNamedTools)%nat
  then (itoa (Z.of_nat (length names)) ++ " tool(s): " ++ join ", " names)%string
  else (itoa (Z.of_nat (length names)) ++ " tool(s): " ++ join ", " (take maxNamedTools names) ++ " and "
        ++ itoa (Z.of_nat (length names - maxNamedTools)) ++ " more")%string.

Definition part (verb : string) (names : list string) : list string :=
  if nonempty names then [(verb ++ " " ++ nameList names)%string] else [].

Definition detail (d : prefixDelta) : string :=
  join "; " (part "added" (added d) ++ part "removed" (removed d) ++ part "resized" (resized d)
             ++ if systemChanged d
                then [("system prompt " ++ itoa (systemBefore d) ++ " to " ++ itoa (systemNow d) ++ " bytes")%string]
                else []).

(** The sizes by name; a name defined twice keeps its last size. *)
Definition sizes (tools : list ToolDef) : gmap string Z :=
  fold_left (fun m t => <[td_Name t := td_Bytes t]> m) tools ∅.

Definition sorted_names (m : gmap string Z) : list string := merge_sort string_le (List.map fst (map_to_list m)).

Definition resized_from (before : gmap string Z) (kv : string * Z) : bool :=
  match before !! kv.1 with Some s => negb (s =? kv.2) | None => false end.

Definition diffPrefix (prevTools tools : list ToolDef) (prevSystem system : Z) : prefixDelta :=
  let before := sizes prevTools in
  let now := sizes tools in
  mkDelta
    (sorted_names (filter (fun kv => before !! kv.1 = None) now))
    (sorted_names (filter (fun kv => now !! kv.1 = None) before))
    (sorted_names (filter (fun kv => resized_from before kv = true) now))
    prevSystem system.

(** ** What a delta says *)

Lemma elem_of_sorted_names m n : n ∈ sorted_names m <-> exists s, m !! n = Some s.
Proof.
  unfold sorted_names. rewrite merge_sort_Permutation. rewrite list_elem_of_In, in_map_iff. split.
  - intros ([k s] & <- & H). apply list_elem_of_In, elem_of_map_to_list in H. by exists s.
  - intros [s H]. exists (n, s). split; [done |]. by apply list_elem_of_In, elem_of_map_to_list.
Qed.

(** A tool is named in the list that says what happened to it, and in no
    other. *)
Lemma diffPrefix_names p t ps s n :
  let d := diffPrefix p t ps s in
  (n ∈ added d <-> sizes p !! n = None /\ exists z, sizes t !! n = Some z) /\
  (n ∈ removed d <-> sizes t !! n = None /\ exists z, sizes p !! n = Some z) /\
  (n ∈ resized d <-> exists z z', sizes p !! n = Some z /\ sizes t !! n = Some z' /\ z <> z').
Proof.
  cbv zeta. unfold diffPrefix. cbn [added removed resized]. rewrite !elem_of_sorted_names.
  split_and!.
  - split.
    + intros [z [H1 H2]%map_lookup_filter_Some]. eauto.
    + intros [H [z Hz]]. exists z. by apply map_lookup_filter_Some.
  - split.
    + intros [z [H1 H2]%map_lookup_filter_Some]. eauto.
    + intros [H [z Hz]]. exists z. by apply map_lookup_filter_Some.
  - split.
    + intros [z [H1 H2]%map_lookup_filter_Some]. cbn in H2.
      unfold resized_from in H2. cbn in H2. destruct (sizes p !! n) as [y|] eqn:E; [| done].
      reflect_bool. eauto.
    + intros (z & z' & Hz & Hz' & Hne). exists z'. apply map_lookup_filter_Some. unfold resized_from.
      cbn. rewrite Hz. split; [done |]. by apply negb_true_iff, Z.eqb_neq.
Qed.

(** Nothing changed in the tools exactly when every name has one size on both
    sides. *)
Lemma toolsChanged_sizes p t ps s :
  toolsChanged (diffPrefix p t ps s) = false <-> sizes p = sizes t.
Proof.
  assert (forall l : list string, nonempty l = false <-> forall n, ~ n ∈ l) as Hnil.
  { intros l. destruct l as [|x l]; cbn; split; try done.
    - intros _ n H. by apply not_elem_of_nil in H.
    - intros H. exfalso. apply (H x). by left. }
  unfold toolsChanged. rewrite !orb_false_iff, !Hnil. split.
  - intros [[Ha Hr] Hz]. apply map_eq. intros n.
    destruct (diffPrefix_names p t ps s n) as (Ea & Er & Ez). cbv zeta in *.
    specialize (Ha n). specialize (Hr n). specialize (Hz n). rewrite Ea in Ha. rewrite Er in Hr. rewrite Ez in Hz.
    destruct (sizes p !! n) as [z|], (sizes t !! n) as [z'|]; try done.
    + destruct (decide (z = z')) as [->|Hne]; [done |]. exfalso. apply Hz. eauto.
    + exfalso. apply Hr. eauto.
    + exfalso. apply Ha. eauto.
  - intros Heq. split_and!; intros n H; destruct (diffPrefix_names p t ps s n) as (Ea & Er & Ez); cbv zeta in *.
    + apply Ea in H as [H [z Hz]]. congruence.
    + apply Er in H as [H [z Hz]]. congruence.
    + apply Ez in H as (z & z' & H1 & H2 & Hne). congruence.
Qed.

End PrefixDelta.
