(* ===== verification/Stats.v ===== *)
(** The proxy's live state ([stats] of [src/internal/proxy/state.go]): what it
    remembers of every session and lane so that a cache read is classified the
    moment its response arrives, the session table's eviction, the in-flight
    bookkeeping of a lane, and the lifetime counters.

    Each method holds the mutex for its whole body and is one function.  A
    request's overlap flag is a cell of [flags], and a lane's open set holds
    flag numbers where the code holds pointers.  Left out are the what-if, the
    context and the re-read figures [rescore] stores for the status endpoint,
    and the text the status and metrics endpoints render. *)

From S2P Require Import Prelude GoString GoFloat GoTime Transcript Tenancy Breaker CacheRules CachePrices.
From S2P Require Import CacheVerdict Calibrate Fit Replay Ledger Policy PrefixDelta.
From Stdlib Require Import Ascii String.

Open Scope string_scope.
Open Scope list_scope.
Open Scope Z_scope.

Module Stats.
Import Transcript Tenancy CacheVerdict Pricing Replay Ledger PrefixDelta.

(** ** State *)

Record laneState := mkLaneState {
  last : Usage;
  lastSeen : time;
  model : string;
  prefixHash : string;
  tools : list ToolDef;
  systemBytes : Z;
  seen : bool;
  open : gset nat
}.

Definition zero_usage : Usage := mkUsage 0 0 0 0 0 0 0 false.
Definition new_lane : laneState := mkLaneState zero_usage zero_time "" "" [] 0 false ∅.

(** The policy decision pinned at a session's first request; empty until then. *)
Record pinned_policy := mkPinned {
  policy : string;
  edit : option Policy.ContextEdit;
  generated : time
}.

(** The session's measured totals beside its tally. *)
Record session_totals := mkTotals {
  breaks : Z;
  prefixChanges : Z;
  applied : Z;
  cleared : Z;
  masked : Z;
  rehydrated : Z;
  denied : Z;
  held : Z;
  heldMS : Z
}.

Record sessionState := mkSessionState {
  ss_last : Usage;
  ss_lastSeen : time;
  admitted : Z;
  ss_model : string;
  ss_prefixHash : string;
  lanes : gmap string laneState;
  tally : Tally;
  totals : session_totals;
  pin_ : pinned_policy;
  errorByLane : gmap string Z;
  breached : bool
}.

Definition no_totals : session_totals := mkTotals 0 0 0 0 0 0 0 0 0.
Definition no_pin : pinned_policy := mkPinned "" None zero_time.

(** [&sessionState{lastSeen: time.Now(), admitted: s.admittedSeq}] *)
Definition new_session (now : time) (seq : Z) : sessionState :=
  mkSessionState zero_usage now seq "" "" ∅ zero_tally no_totals no_pin ∅ false.

(** Counters since start. *)
Record counters := mkCounters {
  requests : gmap string Z;
  upstreamErrs : gmap Z Z;
  breakCauses : gmap string Z;
  latencySum : duration;
  latencyCount : Z;
  refusedByKind : gmap string Z;
  policyApplied : Z;
  c_retries : Z;
  c_masked : gmap string Z;
  c_rehydrated : gmap string Z;
  c_denied : gmap string Z;
  c_held : Z;
  c_heldMS : Z;
  promptTokens : Z;
  cacheReads : Z;
  cacheWrites : Z;
  breaksTotal : Z
}.

Record costs_ := mkCosts {
  costUSD : float64;
  dayCostUSD : float64;
  dayStamp : string;
  unpriced : Z
}.

Record guardrail := mkRail {
  breaches : gmap string Z;
  reverted : gset string;
  revertReason : string
}.

Record path_notes := mkPaths {
  noUsage : Z;
  unparsedBody : Z;
  unparsed : gmap string Z;
  unmasked : gmap string Z;
  disclosed : gset string
}.

Record t := mkStats {
  sessions : gmap string (gmap string sessionState);
  admittedSeq : Z;
  flags : gmap nat bool;
  count : counters;
  money : costs_;
  rail : guardrail;
  paths : path_notes
}.

Definition maxSessions : nat := 256.

Definition newStats : t :=
  mkStats ∅ 0 ∅ (mkCounters ∅ ∅ ∅ 0 0 ∅ 0 0 ∅ ∅ ∅ 0 0 0 0 0 0) (mkCosts f0 f0 "" 0) (mkRail ∅ ∅ "")
    (mkPaths 0 0 ∅ ∅ ∅).

Definition with_sessions (s : t) (x : gmap string (gmap string sessionState)) : t :=
  mkStats x (admittedSeq s) (flags s) (count s) (money s) (rail s) (paths s).

(** [m[k] += n] *)
Definition bump_by {K} `{Countable K} (m : gmap K Z) (k : K) (n : Z) : gmap K Z :=
  <[k := default 0 (m !! k) +! n]> m.

Definition bump {K} `{Countable K} (m : gmap K Z) (k : K) : gmap K Z := bump_by m k 1.

(** [for name, n := range add { m[name] += n }]; the order does not show. *)
Definition bump_all (m add : gmap string Z) : gmap string Z :=
  fold_left (fun m kn => bump_by m kn.1 kn.2) (map_to_list add) m.

Definition sum_values (m : gmap string Z) : Z := fold_left (fun n kv => n +! kv.2) (map_to_list m) 0.

(** ** The session table *)

(** The scan for the session to evict.  The empty name marks that none was
    found yet, also when it is a session's own name. *)
Definition older (acc : string * time * Z) (kv : string * sessionState) : string * time * Z :=
  let '(oldest, oldestSeen, oldestAdmitted) := acc in
  let '(k, v) := kv in
  if String.eqb oldest "" || Before (ss_lastSeen v) oldestSeen
     || ((ss_lastSeen v =? oldestSeen) && (admitted v <? oldestAdmitted))
  then (k, ss_lastSeen v, admitted v) else acc.

Definition oldest (it : iteration) (bucket : gmap string sessionState) : string :=
  (fold_left older (go_range it bucket) ("", zero_time, 0)).1.1.

Fixpoint make_room (it : iteration) (fuel : nat) (bucket : gmap string sessionState)
    : gmap string sessionState :=
  match fuel with
  | O => bucket
  | S fuel => if (maxSessions <=? size bucket)%nat
              then make_room it fuel (delete (oldest it bucket) bucket) else bucket
  end.

Definition find_session (s : t) (tenant id : string) : option sessionState := inner (sessions s) tenant !! id.

Definition put_session (s : t) (tenant id : string) (st : sessionState) : t :=
  with_sessions s (<[tenant := <[id := st]> (inner (sessions s) tenant)]> (sessions s)).

(** [session]; [now] is [time.Now()]. *)
Definition session (it : iteration) (now : time) (s : t) (tenant id : string) : t * sessionState :=
  match find_session s tenant id with
  | Some st => (s, st)
  | None =>
      let bucket := inner (sessions s) tenant in
      let bucket := make_room it (size bucket) bucket in
      let seq := (admittedSeq s + 1) mod two64 in
      let st := new_session now seq in
      (mkStats (<[tenant := <[id := st]> bucket]> (sessions s)) seq (flags s) (count s) (money s)
         (rail s) (paths s), st)
  end.

(** [lane] *)
Definition lane (st : sessionState) (agent : string) : laneState := default new_lane (lanes st !! agent).

Definition put_lane (st : sessionState) (agent : string) (ln : laneState) : sessionState :=
  mkSessionState (ss_last st) (ss_lastSeen st) (admitted st) (ss_model st) (ss_prefixHash st)
    (<[agent := ln]> (lanes st)) (tally st) (totals st) (pin_ st) (errorByLane st) (breached st).

(** ** In flight *)

Definition with_open (ln : laneState) (o : gset nat) : laneState :=
  mkLaneState (last ln) (lastSeen ln) (model ln) (prefixHash ln) (tools ln) (systemBytes ln) (seen ln) o.

Definition with_flags (s : t) (f : gmap nat bool) : t :=
  mkStats (sessions s) (admittedSeq s) f (count s) (money s) (rail s) (paths s).

(** Every flag already open and the newcomer's are set when any is open. *)
Definition mark_open (o : gset nat) (mine : nat) (f : gmap nat bool) : gmap nat bool :=
  let f := <[mine := false]> f in
  if decide (o = ∅) then f else set_to_map (fun i => (i, true)) ({[mine]} ∪ o) ∪ f.

(** [enterLane]; [mine] is a fresh cell. *)
Definition enterLane (it : iteration) (now : time) (mine : nat) (s : t) (tenant id agent : string) : t :=
  let '(s, st) := session it now s tenant id in
  let ln := lane st agent in
  let s := with_flags s (mark_open (open ln) mine (flags s)) in
  put_session s tenant id (put_lane st agent (with_open ln ({[mine]} ∪ open ln))).

(** The function [enterLane] returns.  It clears the flag from the lane it was
    opened in: once that lane's session is evicted nothing holds the flag. *)
Definition leaveLane (mine : nat) (s : t) (tenant id agent : string) : t :=
  match find_session s tenant id with
  | None => s
  | Some st =>
      match lanes st !! agent with
      | None => s
      | Some ln => put_session s tenant id (put_lane st agent (with_open ln (open ln ∖ {[mine]})))
      end
  end.

Definition correlation (s : t) (overlapped : nat) : string :=
  if default false (flags s !! overlapped) then CorrelationLaneOverlap else CorrelationLaneSerial.

(** ** Causes *)

Definition overlap_detail : string :=
  "two or more requests of this lane were in flight together; which one wrote the entry this request read is not observable".
Definition same_size_detail : string :=
  "prefix hash changed at equal system and tool sizes; the differing bytes are not in the ledger".

Definition breakCause (ln : laneState) (r : Entry) (cur : Usage) (prefixChanged : bool) : BreakCause * string :=
  if String.eqb (rec_Correlation r) CorrelationLaneOverlap then (CauseNotMeasured, overlap_detail)
  else if prefixChanged then
    let d := diffPrefix (tools ln) (p_Tools (rec_Prompt r)) (systemBytes ln) (SystemBytes (rec_Prompt r)) in
    if negb (toolsChanged d) && negb (systemChanged d) then (CausePrefixChange, same_size_detail)
    else (cause d, detail d)
  else match ClassifyBreakForModel (last ln) cur (model ln) (rec_Model r)
               (Sub (rec_Timestamp r) (lastSeen ln)) with
       | Some c => (c, "")
       | None => (CauseUnknown, "")
       end.

Definition responsesPath : string := "/v1/responses".

(** [strings.HasSuffix] *)
Definition has_suffix (s suffix : string) : bool :=
  (String.length suffix <=? String.length s)%nat
  && String.eqb (substring (String.length s - String.length suffix) (String.length suffix) s) suffix.

Definition isResponses (path : string) : bool := has_suffix path responsesPath.

(** ** One finished request *)

Definition class_of (status : Z) : option string :=
  if 500 <=? status then Some "5xx" else if 400 <=? status then Some "4xx"
  else if 200 <=? status then Some "2xx" else None.

(** What is counted whatever the response held. *)
Definition count_response (c : counters) (r : Entry) : counters :=
  mkCounters
    (match class_of (Status r) with Some k => bump (requests c) k | None => requests c end)
    (if (500 <=? Status r) || (Status r =? 429) then bump (upstreamErrs c) (Status r) else upstreamErrs c)
    (breakCauses c) (latencySum c +! LatencyMS r *! millisecond) (latencyCount c +! 1)
    (refusedByKind c) (policyApplied c) (c_retries c +! Retries r) (c_masked c) (c_rehydrated c)
    (c_denied c) (c_held c) (c_heldMS c) (promptTokens c) (cacheReads c) (cacheWrites c) (breaksTotal c).

(** What is counted for a response with usage. *)
Definition count_usage (c : counters) (r : Entry) (cur : Usage) (out : option CacheOutcome) : counters :=
  let broken := match out with Some o => bool_decide (oc_Outcome o = ReadBroken) | None => false end in
  let causes := match out with
                | Some o => match Cause o with
                            | Some k => if broken then bump (breakCauses c) (cause_text k) else breakCauses c
                            | None => breakCauses c
                            end
                | None => breakCauses c
                end in
  mkCounters (requests c) (upstreamErrs c) causes (latencySum c) (latencyCount c) (refusedByKind c)
    (if negb (String.eqb (rec_Policy r) "") then policyApplied c +! 1 else policyApplied c)
    (c_retries c) (bump_all (c_masked c) (Masked r)) (bump_all (c_rehydrated c) (Rehydrated r))
    (bump_all (c_denied c) (RehydrationDenied r))
    (if 0 <? HeldMS r then c_held c +! 1 else c_held c)
    (if 0 <? HeldMS r then c_heldMS c +! HeldMS r else c_heldMS c)
    (promptTokens c +! PromptTotal cur) (cacheReads c +! CacheRead cur) (cacheWrites c +! CacheCreation cur)
    (if broken then breaksTotal c +! 1 else breaksTotal c).

Definition total_usage (x : session_totals) (r : Entry) (broken prefixChanged : bool) : session_totals :=
  mkTotals (if broken then breaks x +! 1 else breaks x)
    (if prefixChanged then prefixChanges x +! 1 else prefixChanges x)
    (if negb (String.eqb (rec_Policy r) "") then applied x +! 1 else applied x)
    (cleared x +! ClearedInputTokens (rec_Response r))
    (masked x +! sum_values (Masked r)) (rehydrated x +! sum_values (Rehydrated r))
    (denied x +! sum_values (RehydrationDenied r))
    (if 0 <? HeldMS r then held x +! 1 else held x)
    (if 0 <? HeldMS r then heldMS x +! HeldMS r else heldMS x).

(** [addCost] *)
Definition addCost (now : time) (delta : float64) (m : costs_) : costs_ :=
  if fleb delta f0 then mkCosts (costUSD m) (dayCostUSD m) (dayStamp m) (unpriced m +! 1)
  else
    let stamp := format_date now in
    let day := if String.eqb stamp (dayStamp m) then dayCostUSD m else f0 in
    mkCosts (costUSD m + delta)%float (day + delta)%float stamp (unpriced m).

(** The cache outcome of a response in its lane. *)
Definition classify (ln : laneState) (r : Entry) (cur : Usage) (prefixChanged : bool) : option CacheOutcome :=
  if seen ln && negb (isResponses (Path r)) then
    let '(outcome, expected) := ClassifyRead (last ln) cur in
    Some (if decide (outcome = ReadBroken)
          then let '(c, d) := breakCause ln r cur prefixChanged in
               mkOutcome outcome expected (expected -! CacheRead cur) (Some c) d
          else mkOutcome outcome expected 0 None "")
  else None.

Definition lane_after (ln : laneState) (r : Entry) (cur : Usage) : laneState :=
  mkLaneState cur (rec_Timestamp r) (rec_Model r) (rec_PrefixHash r) (p_Tools (rec_Prompt r))
    (SystemBytes (rec_Prompt r)) true (open ln).

Section observe.
Context `{PL : PriceLayer}.

(** [observe]; [now] is the clock [session] and [addCost] read. *)
Definition observe (it : iteration) (now : time) (s : t) (tenant : string) (r : Entry)
    : t * option CacheOutcome :=
  let s := mkStats (sessions s) (admittedSeq s) (flags s) (count_response (count s) r) (money s) (rail s) (paths s) in
  match rec_Usage r with
  | None => (s, None)
  | Some cur =>
      if String.eqb (SessionID r) "" then (s, None)
      else
        let '(s, st) := session it now s tenant (SessionID r) in
        let ln := lane st (AgentID r) in
        let prefixChanged := seen ln && negb (String.eqb (rec_PrefixHash r) (prefixHash ln)) in
        let out := classify ln r cur prefixChanged in
        let broken := match out with Some o => bool_decide (oc_Outcome o = ReadBroken) | None => false end in
        let tally' := Replay.Add (tally st) cur (rec_Model r) in
        let st' := mkSessionState cur (rec_Timestamp r) (admitted st) (rec_Model r) (rec_PrefixHash r)
                     (<[AgentID r := lane_after ln r cur]> (lanes st)) tally'
                     (total_usage (totals st) r broken prefixChanged) (pin_ st) (errorByLane st) (breached st) in
        let s := put_session s tenant (SessionID r) st' in
        (mkStats (sessions s) (admittedSeq s) (flags s) (count_usage (count s) r cur out)
           (addCost now (t_CostUSD tally' - t_CostUSD (tally st))%float (money s)) (rail s) (paths s), out)
  end.

End observe.

(** ** The rest of the methods *)

Definition totalErrorTokens (st : sessionState) : Z := sum_values (errorByLane st).

Definition errorTokens (s : t) (tenant id : string) : Z * Z :=
  match find_session s tenant id with
  | None => (0, 0)
  | Some st => (totalErrorTokens st, PromptTokens (tally st))
  end.

Definition setLaneErrors (it : iteration) (now : time) (s : t) (tenant id agent : string) (tokens : Z) : t :=
  let '(s, st) := session it now s tenant id in
  put_session s tenant id
    (mkSessionState (ss_last st) (ss_lastSeen st) (admitted st) (ss_model st) (ss_prefixHash st) (lanes st)
       (tally st) (totals st) (pin_ st) (<[agent := tokens]> (errorByLane st)) (breached st)).

(** [pinned] *)
Definition pinned (s : t) (tenant id : string) : option (option Policy.ContextEdit * string) :=
  st ← find_session s tenant id;
  if String.eqb (policy (pin_ st)) "" then None else Some (edit (pin_ st), policy (pin_ st)).

Definition with_pin (st : sessionState) (p : pinned_policy) : sessionState :=
  mkSessionState (ss_last st) (ss_lastSeen st) (admitted st) (ss_model st) (ss_prefixHash st) (lanes st)
    (tally st) (totals st) p (errorByLane st) (breached st).

(** [pin] *)
Definition pin (it : iteration) (now : time) (s : t) (tenant id : string) (e : option Policy.ContextEdit)
    (decision : string) (gen : time) : t :=
  let '(s, st) := session it now s tenant id in
  if String.eqb (policy (pin_ st)) "" then put_session s tenant id (with_pin st (mkPinned decision e gen)) else s.

(** [trialSession] *)
Definition trialSession (s : t) (tenant id : string) : option (Policy.ContextEdit * time) :=
  st ← find_session s tenant id;
  if negb (String.eqb (policy (pin_ st)) Policy.Applied) then None
  else e ← edit (pin_ st); if IsZero (generated (pin_ st)) then None else Some (e, generated (pin_ st)).

Definition refused (s : t) (kind : string) : t :=
  let c := count s in
  mkStats (sessions s) (admittedSeq s) (flags s)
    (mkCounters (bump (requests c) "refused") (upstreamErrs c) (breakCauses c) (latencySum c) (latencyCount c)
       (bump (refusedByKind c) kind) (policyApplied c) (c_retries c) (c_masked c) (c_rehydrated c) (c_denied c)
       (c_held c) (c_heldMS c) (promptTokens c) (cacheReads c) (cacheWrites c) (breaksTotal c))
    (money s) (rail s) (paths s).

(** [costs] *)
Definition costs (s : t) (now : time) : float64 * float64 :=
  (costUSD (money s), if String.eqb (format_date now) (dayStamp (money s)) then dayCostUSD (money s) else f0).

Definition with_paths (s : t) (p : path_notes) : t :=
  mkStats (sessions s) (admittedSeq s) (flags s) (count s) (money s) (rail s) p.

Definition noteNoUsage (s : t) : t :=
  let p := paths s in with_paths s (mkPaths (noUsage p +! 1) (unparsedBody p) (unparsed p) (unmasked p) (disclosed p)).

Definition noteUnparsedBody (s : t) : t :=
  let p := paths s in with_paths s (mkPaths (noUsage p) (unparsedBody p +! 1) (unparsed p) (unmasked p) (disclosed p)).

Definition noteUnparsed (s : t) (path : string) : t * bool :=
  let p := paths s in
  (with_paths s (mkPaths (noUsage p) (unparsedBody p) (bump (unparsed p) path) (unmasked p) (disclosed p)),
   default 0 (unparsed p !! path) =? 0).

Definition noteUnmasked (s : t) (path : string) : t * bool :=
  let p := paths s in
  (with_paths s (mkPaths (noUsage p) (unparsedBody p) (unparsed p) (bump (unmasked p) path) (disclosed p)),
   default 0 (unmasked p !! path) =? 0).

Definition noteDisclosed (s : t) (path : string) : t * bool :=
  let p := paths s in
  (with_paths s (mkPaths (noUsage p) (unparsedBody p) (unparsed p) (unmasked p) ({[path]} ∪ disclosed p)),
   bool_decide (path ∉ disclosed p)).

Definition unparsedTotal (s : t) : Z := sum_values (unparsed (paths s)).

(** [laneSnapshot] *)
Definition laneSnapshot (s : t) (tenant id agent : string) : option string :=
  st ← find_session s tenant id;
  ln ← lanes st !! agent;
  if seen ln then Some (prefixHash ln) else None.

End Stats.
