(* ===== verification/Blame.v ===== *)
(** Attribution of prompt tokens to content labels
    ([src/internal/analysis/blame.go]): every turn's reported tokens shared over
    the blocks it added, and what that adds up to against the provider's bill. *)

From S2P Require Import Prelude GoString GoFloat GoTime Transcript CacheRules CachePrices.
From S2P Require Import CacheVerdict Calibrate Fit.
From Stdlib Require Import Ascii String.

Open Scope string_scope.
Open Scope list_scope.
Open Scope Z_scope.

Module Blame.
Import Transcript CacheVerdict Calibrate Fit.

#[local] Abbreviation length := List.length.

Record BlameEntry := mkBlame {
  be_Label : string;
  be_Tokens : Figure;
  Occurrences : Z;
  be_PromptTokens : Figure;
  Errors : Z
}.

Definition RebillLabel : string := "cache breaks: history re-billed (see replay diff)".
Definition UnaccountedLabel : string := "unaccounted: prefix grew where the transcript cannot see it".
Definition UnseenPrefixLabel : string :=
  "system prompt and tool definitions (shared prefix, not in transcript)".
Definition InjectedLabel : string :=
  "client-injected content on the first turn (attachments, reminders; not in transcript)".

(** ** The accumulator *)

Record labelAcc := mkAcc { once : Tokens; prompt : Tokens; occurrences : Z; errors : Z }.

Definition no_tokens : Tokens := mkTokens 0 0.
Definition zero_acc : labelAcc := mkAcc no_tokens no_tokens 0 0.

(** [(a *labelAcc) add] *)
Definition acc_add (a : labelAcc) (t : Tokens) (carried : Z) (isError : bool) : labelAcc :=
  mkAcc (Tokens_Add (once a) t) (Tokens_Add (prompt a) (Times t carried)) (occurrences a +! 1)
    (if isError then errors a +! 1 else errors a).

(** [map[string]*labelAcc] *)
Abbreviation accs := (gmap string labelAcc).

(** [get(label).add(t, carried, isError)] *)
Definition credit (m : accs) (label : string) (t : Tokens) (carried : Z) (isError : bool) : accs :=
  <[label := acc_add (default zero_acc (m !! label)) t carried isError]> m.

(** ** Sharing *)

(** The loop of [shareByBytes]; [q] makes a share a count of the tokens' kind. *)
Fixpoint share_loop (q : Z -> Tokens) (total totalBytes carried : Z) (bs : list Block) (remaining : Z)
    (m : accs) : accs :=
  match bs with
  | [] => m
  | b :: rest =>
      let share := match rest with
                   | [] => remaining
                   | _ => if 0 <? totalBytes then Z.quot (total *! Bytes b) totalBytes else 0
                   end in
      share_loop q total totalBytes carried rest (remaining -! share)
        (credit m (Label b) (q share) carried (IsError b))
  end.

Definition sum_bytes (bs : list Block) : Z := fold_left (fun n b => n +! Bytes b) bs 0.

Definition shareByBytes (bs : list Block) (tokens : Tokens) (carried : Z) (m : accs) : accs :=
  let total := Total tokens in
  if (total <=? 0) || (length bs =? 0)%nat then m
  else share_loop (if 0 <? Measured tokens then measured else estimated) total (sum_bytes bs) carried bs total m.

(** The thinking blocks share [thinkingTokens] equally. *)
Fixpoint thinking_loop (thinkingTokens n carried : Z) (bs : list Block) (remaining : Z) (m : accs) : accs :=
  match bs with
  | [] => m
  | b :: rest =>
      let share := match rest with [] => remaining | _ => Z.quot thinkingTokens n end in
      thinking_loop thinkingTokens n carried rest (remaining -! share)
        (credit m (Label b) (measured share) carried false)
  end.

Definition is_thinking (b : Block) : bool := String.eqb (Kind b) KindThinking.

Definition attributeOutput (req : Request) (carried : Z) (m : accs) : accs :=
  match req_Output req with
  | None => m
  | Some out =>
      let thinking := filter (fun b => is_thinking b = true) (Blocks out) in
      let rest := filter (fun b => is_thinking b = false) (Blocks out) in
      let thinkingTokens := if (length thinking =? 0)%nat then 0 else ThinkingTokens (req_Usage req) in
      let m := thinking_loop thinkingTokens (Z.of_nat (length thinking)) carried thinking thinkingTokens m in
      shareByBytes rest (measured (Output (req_Usage req) -! thinkingTokens)) carried m
  end.

(** What the fit allows the visible blocks to be worth. *)
Definition allowance (fit : TokenFit) (accountable : Z) : Z :=
  to_int (of_int accountable * (of_int 1 + RelativeError fit))%float.

Definition shareWithinTheFit (bs : list Block) (new carried : Z) (fit : TokenFit) (m : accs) : accs :=
  if (new <=? 0) || (length bs =? 0)%nat then shareByBytes bs (estimated new) carried m
  else
    let accountable := EstimateTokens fit (sum_bytes bs) in
    if new <=? allowance fit accountable then shareByBytes bs (estimated new) carried m
    else credit (shareByBytes bs (estimated accountable) carried m) UnaccountedLabel
           (estimated (new -! accountable)) carried false.

(** ** The report *)

Definition first_turn_accs (first : Request) (total : Z) (fit : TokenFit) : accs :=
  let visible := PromptTotal (req_Usage first) -! Total (UnseenPrefix fit) -! Total (Injected fit) in
  let m := shareByBytes (List.flat_map Blocks (Context first)) (estimated visible) total ∅ in
  let m := if 0 <? Total (UnseenPrefix fit) then credit m UnseenPrefixLabel (UnseenPrefix fit) total false else m in
  if 0 <? Total (Injected fit) then credit m InjectedLabel (Injected fit) total false else m.

Record blame_state := mkBlameState { bs_accs : accs; bs_seen : gset string }.

(** One turn of [Blame]'s loop; [None] is the nil dereference of a compared
    turn without a predecessor, which [Calibrate] never produces. *)
Definition blame_step (total : Z) (fit : TokenFit) (st : option blame_state) (t : Turn) : option blame_state :=
  s ← st;
  if decide (Outcome t = ReadFirst) then Some (mkBlameState (bs_accs s) (markSeen (bs_seen s) (turn_Request t)))
  else
    prev ← Previous t;
    let carried := total -! Index t in
    let '(tc, seen) := splitTurn t prev (bs_seen s) in
    let m := if 0 <? rebillTokens tc then credit (bs_accs s) RebillLabel (measured (rebillTokens tc)) 1 false
             else bs_accs s in
    let m := attributeOutput prev carried m in
    Some (mkBlameState (shareWithinTheFit (tc_blocks tc) (newTokens tc) carried fit m) seen).

Definition attributed (cal : Calibration) (fit : TokenFit) : option accs :=
  match Requests (cal_Lane cal) with
  | [] => Some ∅
  | (first :: _) as reqs =>
      let total := Z.of_nat (length reqs) in
      bs_accs <$> fold_left (blame_step total fit) (Turns cal)
                    (Some (mkBlameState (first_turn_accs first total fit) (markSeen ∅ first)))
  end.

Definition entry_of (fit : TokenFit) (la : string * labelAcc) : BlameEntry :=
  let '(label, a) := la in
  mkBlame label (figure fit (once a)) (occurrences a) (figure fit (prompt a)) (errors a).

(** No two entries share a label, so [sort.Slice] has no tie to break. *)
Definition dearer (a b : BlameEntry) : bool :=
  if negb (Value (be_PromptTokens a) =? Value (be_PromptTokens b))
  then Value (be_PromptTokens b) <? Value (be_PromptTokens a)
  else String.ltb (be_Label a) (be_Label b).

Definition Blame (it : iteration) (cal : Calibration) (fit : TokenFit) : option (list BlameEntry) :=
  m ← attributed cal fit;
  Some (SliceStable dearer (List.map (entry_of fit) (go_range it m))).


(** ** Conservation *)

(** A reading of an accumulator that every credit moves by the tokens credited,
    times a factor of how many requests carried them. *)
Class Meter (h : labelAcc -> Z) (k : Z -> Z) := {
  meter_zero : h zero_acc = 0;
  meter_add a t c e : h (acc_add a t c e) ≡₆₄ h a + (Measured t + Estimated t) * k c
}.

#[export] Instance once_meter : Meter (fun a => Total (once a)) (fun _ => 1).
Proof.
  split; [done |]. intros a t c e. unfold Total, acc_add, Tokens_Add. cbn [once Measured Estimated].
  rewrite !cong64_iadd. apply cong64_iff. exists 0. lia.
Qed.

#[export] Instance prompt_meter : Meter (fun a => Total (prompt a)) (fun c => c).
Proof.
  split; [done |]. intros a t c e. unfold Total, acc_add, Tokens_Add, Times. cbn [prompt Measured Estimated].
  rewrite !cong64_iadd, !cong64_imul. apply cong64_iff. exists 0. lia.
Qed.

Lemma total_measured n : int64_range n -> Total (measured n) = n.
Proof. intros H. unfold Total, measured, iadd. cbn. rewrite Z.add_0_r. by apply wrap64_small. Qed.

Lemma total_estimated n : int64_range n -> Total (estimated n) = n.
Proof. intros H. unfold Total, estimated, iadd. cbn. by apply wrap64_small. Qed.

Definition weigh (h : labelAcc -> Z) (m : accs) : Z := map_fold (fun _ a n => h a + n) 0 m.

Section conservation.
#[local] Set Default Proof Using "All".
Context (h : labelAcc -> Z) (k : Z -> Z) `{!Meter h k}.

Lemma weigh_insert m l a : m !! l = None -> weigh h (<[l := a]> m) = h a + weigh h m.
Proof. intros Hl. unfold weigh. rewrite map_fold_insert_L; [done | | done]. intros. lia. Qed.

Lemma weigh_credit m l t c e : weigh h (credit m l t c e) ≡₆₄ weigh h m + (Measured t + Estimated t) * k c.
Proof.
  unfold credit. rewrite <- insert_delete_eq, weigh_insert by apply lookup_delete_eq. rewrite meter_add.
  assert (weigh h m = h (default zero_acc (m !! l)) + weigh h (delete l m)) as ->.
  { destruct (m !! l) as [a|] eqn:E; cbn [default].
    - rewrite <- (insert_delete_id m l a E) at 1. by rewrite weigh_insert by apply lookup_delete_eq.
    - by rewrite meter_zero, delete_id. }
  apply cong64_iff. exists 0. lia.
Qed.

(** Whatever the bytes, the shares add up to what there was to share. *)
Lemma share_loop_weigh q total totalBytes c bs : forall remaining m,
  (forall n, Measured (q n) + Estimated (q n) = n) ->
  weigh h (share_loop q total totalBytes c bs remaining m) ≡₆₄
    weigh h m + (if (length bs =? 0)%nat then 0 else remaining * k c).
Proof.
  induction bs as [|b bs IH]; intros remaining m Hq; cbn [share_loop length Nat.eqb].
  - apply cong64_iff. exists 0. lia.
  - rewrite IH, weigh_credit, Hq by done. destruct bs as [|b' bs]; cbn [length Nat.eqb].
    + apply cong64_iff. exists 0. lia.
    + set (share := if 0 <? totalBytes then _ else _). rewrite cong64_isub.
      apply cong64_iff. exists 0. lia.
Qed.

Lemma thinking_loop_weigh tt n c bs : forall remaining m,
  weigh h (thinking_loop tt n c bs remaining m) ≡₆₄
    weigh h m + (if (length bs =? 0)%nat then 0 else remaining * k c).
Proof.
  induction bs as [|b bs IH]; intros remaining m; cbn [thinking_loop length Nat.eqb].
  - apply cong64_iff. exists 0. lia.
  - rewrite IH, weigh_credit. cbn [measured Measured Estimated]. destruct bs as [|b' bs]; cbn [length Nat.eqb].
    + apply cong64_iff. exists 0. lia.
    + rewrite cong64_isub. apply cong64_iff. exists 0. lia.
Qed.

(** What sharing [n] tokens over some blocks credits. *)
Definition shared (bs : list Block) (n : Z) : Z := if (length bs =? 0)%nat then 0 else Z.max 0 n.

Lemma shareByBytes_weigh bs t c m :
  weigh h (shareByBytes bs t c m) ≡₆₄ weigh h m + shared bs (Total t) * k c.
Proof.
  unfold shareByBytes, shared. destruct (Total t <=? 0) eqn:Et; cbn [orb].
  - reflect_bool. apply cong64_iff. exists 0. case_match; lia.
  - reflect_bool. destruct (length bs =? 0)%nat eqn:El; [apply cong64_iff; exists 0; lia |].
    rewrite share_loop_weigh, El.
    + apply cong64_iff. exists 0. lia.
    + intros n. destruct (0 <? Measured t); cbn; lia.
Qed.

(** What a request's output credits: the thinking tokens to its thinking
    blocks, the rest of the output to the others. *)
Definition output_credit (req : Request) : Z :=
  match req_Output req with
  | None => 0
  | Some out =>
      let thinking := filter (fun b => is_thinking b = true) (Blocks out) in
      let rest := filter (fun b => is_thinking b = false) (Blocks out) in
      let tt := if (length thinking =? 0)%nat then 0 else ThinkingTokens (req_Usage req) in
      tt + shared rest (Output (req_Usage req) -! tt)
  end.

Lemma attributeOutput_weigh req c m :
  weigh h (attributeOutput req c m) ≡₆₄ weigh h m + output_credit req * k c.
Proof.
  unfold attributeOutput, output_credit. destruct (req_Output req) as [out|]; [| apply cong64_iff; exists 0; lia].
  rewrite shareByBytes_weigh, thinking_loop_weigh, total_measured by (unfold isub; auto with go).
  destruct (length (filter (fun b => is_thinking b = true) (Blocks out)) =? 0)%nat;
    apply cong64_iff; exists 0; lia.
Qed.

(** What a turn's new tokens credit: all of them, once there is a block to
    share them over and the fit makes its bytes worth something. *)
Definition new_credit (fit : TokenFit) (bs : list Block) (new : Z) : Z :=
  if (length bs =? 0)%nat || (new <=? 0) then 0
  else if new <=? allowance fit (EstimateTokens fit (sum_bytes bs)) then new
  else new + Z.max 0 (- EstimateTokens fit (sum_bytes bs)).

Lemma shareWithinTheFit_weigh fit bs new c m :
  int64_range new ->
  weigh h (shareWithinTheFit bs new c fit m) ≡₆₄ weigh h m + new_credit fit bs new * k c.
Proof.
  intros Hn. unfold shareWithinTheFit, new_credit. set (a := EstimateTokens fit (sum_bytes bs)).
  assert (int64_range a) as Ha by apply round_to_int_range.
  destruct (new <=? 0) eqn:E0; [| destruct (length bs =? 0)%nat eqn:El]; cbn [orb].
  - rewrite shareByBytes_weigh, total_estimated by done. unfold shared. reflect_bool.
    apply cong64_iff. exists 0. rewrite orb_true_r. case_match; lia.
  - rewrite shareByBytes_weigh. unfold shared. rewrite El. apply cong64_iff. exists 0. lia.
  - destruct (new <=? allowance fit a) eqn:Ea.
    + rewrite shareByBytes_weigh, total_estimated by done. unfold shared. rewrite El. reflect_bool.
      apply cong64_iff. exists 0. lia.
    + rewrite weigh_credit, shareByBytes_weigh, total_estimated by done. unfold shared. rewrite El.
      cbn [estimated Measured Estimated]. rewrite cong64_isub.
      replace (Z.max 0 (- a)) with (Z.max 0 a - a) by lia. apply cong64_iff. exists 0. lia.
Qed.

End conservation.

(** What the turns of a lane credit, each with its new blocks among those not
    seen before and its factor. *)
Fixpoint turn_credits (k : Z -> Z) (total : Z) (fit : TokenFit) (seen : gset string) (ts : list Turn) : Z :=
  match ts with
  | [] => 0
  | t :: ts =>
      match Previous t with
      | None => turn_credits k total fit (markSeen seen (turn_Request t)) ts
      | Some prev =>
          let '(tc, seen') := splitTurn t prev seen in
          Z.max 0 (rebillTokens tc) * k 1
          + (output_credit prev + new_credit fit (tc_blocks tc) (newTokens tc)) * k (total -! Index t)
          + turn_credits k total fit seen' ts
      end
  end.

Definition first_credit (k : Z -> Z) (first : Request) (total : Z) (fit : TokenFit) : Z :=
  let unseen := Total (UnseenPrefix fit) in
  let injected := Total (Injected fit) in
  (shared (List.flat_map Blocks (Context first)) (PromptTotal (req_Usage first) -! unseen -! injected)
   + Z.max 0 unseen + Z.max 0 injected) * k total.

Lemma new_range t prev seen : int64_range (newTokens (splitTurn t prev seen).1).
Proof.
  unfold splitTurn, split_tokens. cbn [fst newTokens].
  match goal with |- context [Z.max ?x 0] => assert (int64_range x) by apply wrap64_range end.
  unfold_int. lia.
Qed.

Lemma turns_weigh (h : labelAcc -> Z) (k : Z -> Z) `{!Meter h k} total fit ts : forall m seen,
  Forall (fun t => Previous t = None <-> Outcome t = ReadFirst) ts ->
  exists s, fold_left (blame_step total fit) ts (Some (mkBlameState m seen)) = Some s /\
    weigh h (bs_accs s) ≡₆₄ weigh h m + turn_credits k total fit seen ts.
Proof.
  induction ts as [|t ts IH]; intros m seen Hts; cbn [fold_left turn_credits].
  { eexists. split; [reflexivity |]. cbn. apply cong64_iff. exists 0. lia. }
  inversion Hts as [|? ? Ht Hts']; subst. unfold blame_step at 2. cbn [mbind option_bind bs_accs bs_seen].
  destruct (Previous t) as [prev|] eqn:Ep.
  - rewrite decide_False by (intros E; by apply Ht in E). cbn [mbind option_bind].
    pose proof (new_range t prev seen) as Hn. destruct (splitTurn t prev seen) as [tc seen']. cbn [fst] in Hn.
    set (c := total -! Index t).
    set (m1 := if 0 <? rebillTokens tc then _ else m).
    destruct (IH (shareWithinTheFit (tc_blocks tc) (newTokens tc) c fit (attributeOutput prev c m1)) seen' Hts')
      as (s & Hs & Hw).
    exists s. split; [exact Hs |]. rewrite Hw, (shareWithinTheFit_weigh h k), (attributeOutput_weigh h k) by done.
    assert (weigh h m1 ≡₆₄ weigh h m + Z.max 0 (rebillTokens tc) * k 1) as ->.
    { subst m1. destruct (0 <? rebillTokens tc) eqn:E; reflect_bool.
      - rewrite (weigh_credit h k). cbn. apply cong64_iff. exists 0. rewrite Z.max_r by lia. lia.
      - apply cong64_iff. exists 0. lia. }
    apply cong64_iff. exists 0. lia.
  - rewrite decide_True by (by apply Ht). by apply IH.
Qed.

Lemma first_weigh (h : labelAcc -> Z) (k : Z -> Z) `{!Meter h k} first total fit :
  weigh h (first_turn_accs first total fit) ≡₆₄ first_credit k first total fit.
Proof.
  unfold first_turn_accs, first_credit.
  assert (forall m l t, weigh h (if 0 <? Total t then credit m l t total false else m) ≡₆₄
            weigh h m + Z.max 0 (Total t) * k total) as Hc.
  { intros m l t. destruct (0 <? Total t) eqn:E; reflect_bool.
    - rewrite (weigh_credit h k), Z.max_r by lia. unfold Total. rewrite cong64_iadd. done.
    - apply cong64_iff. exists 0. lia. }
  rewrite !Hc, (shareByBytes_weigh h k), total_estimated by apply wrap64_range.
  assert (weigh h ∅ = 0) as -> by done. apply cong64_iff. exists 0. lia.
Qed.

Lemma attributed_cons cal fit first rest :
  Requests (cal_Lane cal) = first :: rest ->
  attributed cal fit =
    bs_accs <$> fold_left (blame_step (Z.of_nat (length (Requests (cal_Lane cal)))) fit) (Turns cal)
      (Some (mkBlameState (first_turn_accs first (Z.of_nat (length (Requests (cal_Lane cal)))) fit) (markSeen ∅ first))).
Proof. intros H. unfold attributed. rewrite H. reflexivity. Qed.

(** ** The order of the report *)

#[export] Instance dearer_strict : StrictWeak dearer.
Proof.
  unfold in_order, dearer. split.
  - intros a b H. rewrite Z.eqb_sym. destruct (_ =? _) eqn:E; cbn [negb] in *.
    + by apply string_ltb_asym.
    + reflect_bool. apply Z.ltb_ge. lia.
  - intros a b c. unfold in_order.
    repeat match goal with |- context [?x =? ?y] => destruct (Z.eqb_spec x y) end; cbn [negb]; intros;
      reflect_bool; try congruence; try (apply Z.ltb_ge; lia); try lia.
    by apply (string_not_lt_trans (be_Label a) (be_Label b)).
Qed.

Lemma entries_labels fit it m : List.map be_Label (List.map (entry_of fit) (go_range it m)) = List.map fst (go_range it m).
Proof. rewrite map_map. apply List.map_ext. by intros [l a]. Qed.

Lemma go_range_labels it (m : accs) : NoDup (List.map fst (go_range it m)).
Proof. rewrite (go_range_perm it m). apply NoDup_fst_map_to_list. Qed.

(** The report does not depend on the order the map was ranged over. *)
Lemma Blame_order it it' cal fit : Blame it cal fit = Blame it' cal fit.
Proof.
  unfold Blame. destruct (attributed cal fit) as [m|]; cbn [mbind option_bind]; [| done]. f_equal.
  apply (SliceStable_unique dearer).
  - intros x y Hx Hy H1 H2. unfold in_order, dearer in *. rewrite Z.eqb_sym in H2.
    destruct (_ =? _) eqn:E in H1; cbn [negb] in H1, H2.
    + rewrite E in H2. cbn [negb] in H2. pose proof (string_ltb_tie _ _ H1 H2) as Hl.
      apply list_elem_of_fmap in Hx as ([lx ax] & -> & Hx), Hy as ([ly ay] & -> & Hy). cbn in Hl. subst ly.
      apply elem_of_go_range in Hx, Hy. by rewrite Hx in Hy; injection Hy as ->.
    + rewrite E in H2. cbn [negb] in H2. reflect_bool. lia.
  - by rewrite !go_range_perm.
Qed.

(** What a column of the report adds up to. *)
Definition column (f : BlameEntry -> Figure) (es : list BlameEntry) : Z :=
  fold_left (fun n e => n +! Value (f e)) es 0.

Lemma column_cong f es : column f es ≡₆₄ foldr (fun e n => Value (f e) + n) 0 es.
Proof.
  unfold column. assert (forall n, fold_left (fun n e => n +! Value (f e)) es n ≡₆₄ n + foldr (fun e n => Value (f e) + n) 0 es)
    as H; [| by rewrite H].
  induction es as [|e es IH]; intros n; cbn.
  - apply cong64_iff. exists 0. lia.
  - rewrite IH, cong64_iadd. apply cong64_iff. exists 0. lia.
Qed.

Lemma column_range f es : int64_range (column f es).
Proof.
  unfold column. destruct es as [|e es] using rev_ind; [by vm_compute |].
  rewrite fold_left_app. apply wrap64_range.
Qed.

Lemma column_weigh it fit (f : BlameEntry -> Figure) (h : labelAcc -> Z) m :
  (forall l a, Value (f (entry_of fit (l, a))) = h a) ->
  column f (SliceStable dearer (List.map (entry_of fit) (go_range it m))) ≡₆₄ weigh h m.
Proof.
  intros Hf. rewrite column_cong.
  assert (foldr (fun e n => Value (f e) + n) 0 (SliceStable dearer (List.map (entry_of fit) (go_range it m))) =
            weigh h m) as ->; [| done].
  assert (forall l l' : list BlameEntry, l ≡ₚ l' ->
    foldr (fun e n => Value (f e) + n) 0 l = foldr (fun e n => Value (f e) + n) 0 l') as Hperm
    by (induction 1; cbn; lia).
  rewrite (Hperm _ _ (SliceStable_perm dearer _)), (Hperm _ (List.map (entry_of fit) (map_to_list m)))
    by (by rewrite (go_range_perm it m)).
  unfold weigh. rewrite map_fold_foldr. induction (map_to_list m) as [|[l a] kvs IH]; [done |].
  cbn [List.map foldr uncurry]. by rewrite IH, Hf.
Qed.

(** The report of a calibrated lane exists, does not depend on the order its map
    is ranged over, names no label twice and the dearest first; its columns add
    up to what was credited, whatever overflowed, modulo 2^64. *)
Lemma the_report_adds_up_to_its_credits :
  forall lane fit first rest,
    Requests lane = first :: rest ->
    let total := Z.of_nat (length (Requests lane)) in
    let credits k := first_credit k first total fit
                     + turn_credits k total fit (markSeen ∅ first) (Turns (Calibrate lane)) in
    exists es, (forall it, Blame it (Calibrate lane) fit = Some es) /\
      StronglySorted (fun a b => dearer b a = false) es /\ NoDup (List.map be_Label es) /\
      column be_Tokens es = wrap64 (credits (fun _ => 1)) /\
      column be_PromptTokens es = wrap64 (credits (fun carried => carried)).
Proof.
  intros lane fit first rest Hl total credits. pose proof (Calibrate_turns lane) as [Ht Hlane].
  assert (Forall (fun t => Previous t = None <-> Outcome t = ReadFirst) (Turns (Calibrate lane))) as Hp.
  { rewrite Ht. apply Forall_lookup. intros i t Hi. destruct (turns_of_previous _ _ _ Hi) as [-> ->].
    destruct i as [|i]; [done |]. split; [| done]. intros Hn. apply lookup_ge_None in Hn.
    apply lookup_lt_Some in Hi. rewrite turns_of_length in Hi. lia. }
  assert (exists m, attributed (Calibrate lane) fit = Some m /\
    forall h k, Meter h k -> weigh h m ≡₆₄ credits k) as (m & Hm & Hw).
  { assert (Requests (cal_Lane (Calibrate lane)) = first :: rest) as Hr by (rewrite Hlane; exact Hl).
    rewrite (attributed_cons _ fit _ _ Hr). rewrite Hlane. fold total.
    destruct (turns_weigh _ _ total fit (Turns (Calibrate lane)) (first_turn_accs first total fit)
                (markSeen ∅ first) Hp) as (s & Hs & _).
    exists (bs_accs s). rewrite Hs. split; [done |]. intros h k Hk.
    destruct (turns_weigh h k total fit (Turns (Calibrate lane)) (first_turn_accs first total fit)
                (markSeen ∅ first) Hp) as (s' & Hs' & Hw).
    rewrite Hs in Hs'. injection Hs' as <-. rewrite Hw, (first_weigh h k). done. }
  exists (SliceStable dearer (List.map (entry_of fit) (go_range key_order m))).
  assert (forall (f : BlameEntry -> Figure) h k, Meter h k ->
    (forall l a, Value (f (entry_of fit (l, a))) = h a) ->
    column f (SliceStable dearer (List.map (entry_of fit) (go_range key_order m))) = wrap64 (credits k)) as Hcol.
  { intros f h k Hk Hf. apply cong64_eq; [apply column_range | apply wrap64_range |].
    by rewrite (column_weigh key_order fit f h m Hf), cong64_wrap, (Hw h k Hk). }
  split_and!.
  - intros it. rewrite (Blame_order it key_order). unfold Blame. by rewrite Hm.
  - apply (SliceStable_StronglySorted dearer).
  - rewrite (SliceStable_perm dearer), entries_labels. apply go_range_labels.
  - apply (Hcol be_Tokens (fun a => Total (once a)) _ once_meter). reflexivity.
  - apply (Hcol be_PromptTokens (fun a => Total (prompt a)) _ prompt_meter). reflexivity.
Qed.

(** ** The provider's bill

    What was credited is what was billed where the transcript shows something
    to credit it to. *)

Definition prompt_of (r : Request) : Z := PromptTotal (req_Usage r).

(** The history a break had the provider write again. *)
Definition rebilled (t : Turn) : Z := if decide (Outcome t = ReadBroken) then Expected t - Actual t else 0.

Definition total_of {A} (f : A -> Z) (l : list A) : Z := foldr (fun x n => f x + n) 0 l.

(** The output of a request stands in blocks: its thinking in thinking blocks,
    if it has some, and the rest in others. *)
Definition output_shown (r : Request) : Prop :=
  exists out, req_Output r = Some out /\
    let thinking := filter (fun b => is_thinking b = true) (Blocks out) in
    let rest := filter (fun b => is_thinking b = false) (Blocks out) in
    let tt := if (length thinking =? 0)%nat then 0 else ThinkingTokens (req_Usage r) in
    0 <= tt <= Output (req_Usage r) /\ (rest = [] -> tt = Output (req_Usage r)).

(** What a first prompt holds beside the unseen prefix and what the client put
    in stands in blocks. *)
Record first_shown (fit : TokenFit) (first : Request) : Prop := {
  fs_unseen : 0 <= Total (UnseenPrefix fit);
  fs_injected : 0 <= Total (Injected fit);
  fs_visible : Total (UnseenPrefix fit) + Total (Injected fit) <= prompt_of first;
  fs_blocks : Total (UnseenPrefix fit) + Total (Injected fit) = prompt_of first \/
              List.flat_map Blocks (Context first) <> []
}.

(** A turn grows the prompt by the reply before it at least, the reply stands
    in blocks, and what it adds beyond brings a block not seen before. *)
Record turn_shown (fit : TokenFit) (t : Turn) (prev : Request) (bs : list Block) : Prop := {
  ts_output : output_shown prev;
  ts_grows : prompt_of prev + Output (req_Usage prev) <= prompt_of (turn_Request t);
  ts_blocks : prompt_of prev + Output (req_Usage prev) = prompt_of (turn_Request t) \/ bs <> [];
  ts_worth : 0 <= EstimateTokens fit (sum_bytes bs)
}.

Fixpoint turns_shown (fit : TokenFit) (seen : gset string) (ts : list Turn) : Prop :=
  match ts with
  | [] => True
  | t :: ts =>
      match Previous t with
      | None => turns_shown fit (markSeen seen (turn_Request t)) ts
      | Some prev =>
          let '(tc, seen') := splitTurn t prev seen in turn_shown fit t prev (tc_blocks tc) /\ turns_shown fit seen' ts
      end
  end.

Lemma output_credit_shown r : usage_ok (req_Usage r) -> output_shown r -> output_credit r = Output (req_Usage r).
Proof.
  intros Hu (out & Ho & Htt & Hrest). unfold output_credit. rewrite Ho. cbv zeta in *.
  match goal with |- context [if (length ?l =? 0)%nat then 0 else ?x] => set (tt := if (length l =? 0)%nat then 0 else x) in * end.
  unfold shared. destruct Hu.
  rewrite (isub_exact (Output (req_Usage r)) tt) by (unfold_int; lia).
  destruct (filter (fun b => is_thinking b = false) (Blocks out)) as [|b bs] eqn:E; cbn [length Nat.eqb]; [rewrite (Hrest eq_refl) | ]; lia.
Qed.

(** What a turn wrote beyond the history it wrote again is what the prompt grew
    by. *)
Lemma split_tokens_growth i prev req :
  usage_ok (req_Usage prev) -> usage_ok (req_Usage req) ->
  prompt_of prev + Output (req_Usage prev) <= prompt_of req ->
  split_tokens (next_turn i prev req) prev
  = (rebilled (next_turn i prev req), prompt_of req - prompt_of prev - Output (req_Usage prev)) /\
  0 <= rebilled (next_turn i prev req).
Proof.
  intros Hp Hr. unfold prompt_of, split_tokens, rebilled, next_turn, ClassifyRead. rewrite !PromptTotal_exact, ExpectedRead_exact by done.
  destruct Hp, Hr. intros Hg.
  destruct (Z.eqb_spec (CacheRead (req_Usage req)) (CacheCreation (req_Usage prev) + CacheRead (req_Usage prev)));
    [| destruct (Z.ltb_spec (CacheCreation (req_Usage prev) + CacheRead (req_Usage prev)) (CacheRead (req_Usage req)))];
    cbn [turn_Request Outcome Expected Actual]; case_decide; try done; (split; [| lia]); f_equal; lia_int.
Qed.

Lemma turn_credits_next fit k total rest : forall i prev seen,
  usage_ok (req_Usage prev) -> Forall (fun r => usage_ok (req_Usage r)) rest ->
  total = Z.of_nat i + Z.of_nat (length rest) -> total <= max_int64 ->
  turns_shown fit seen (next_turns i prev rest) ->
  turn_credits k total fit seen (next_turns i prev rest) =
    total_of rebilled (next_turns i prev rest) * k 1
    + foldr (fun '(r, p, j) n => (prompt_of r - prompt_of p) * k j + n) 0
        (combine (combine rest (prev :: rest)) (List.map Z.of_nat (rev (seq 1 (length rest))))).
Proof.
  induction rest as [|r rest IH]; intros i prev seen Hp Hrest Ht Hm Hs; [cbn; lia |].
  apply Forall_cons in Hrest as [Hr Hrest]. cbn [next_turns turn_credits turns_shown] in *.
  destruct (next_turn_previous i prev r) as [Hprev _]. rewrite Hprev in *.
  unfold splitTurn in *. destruct (split_tokens (next_turn i prev r) prev) as [rb nw] eqn:E.
  destruct Hs as [[Hout Hgrow Hblocks Hworth] Hs]. rewrite next_turn_request in *. cbn [tc_blocks newTokens rebillTokens] in *.
  destruct (split_tokens_growth i prev r Hp Hr Hgrow) as [E' H0]. rewrite E in E'. injection E' as -> ->.
  rewrite (IH (S i) r); [| done | done | cbn [length] in Ht; lia | done | done].
  rewrite output_credit_shown by done.
  set (bs := sp_blocks _) in *.
  assert (new_credit fit bs (prompt_of r - prompt_of prev - Output (req_Usage prev)) = prompt_of r - prompt_of prev - Output (req_Usage prev)) as ->.
  { unfold new_credit. destruct (length bs =? 0)%nat eqn:El; cbn [orb].
    - apply Nat.eqb_eq, length_zero_iff_nil in El. destruct Hblocks; [lia | done].
    - destruct (Z.leb_spec (prompt_of r - prompt_of prev - Output (req_Usage prev)) 0); [lia |]. destruct (_ <=? allowance _ _); lia. }
  assert (Index (next_turn i prev r) = Z.of_nat i) as -> by (unfold next_turn; by destruct (ClassifyRead _ _)).
  rewrite isub_exact by (unfold_int; cbn [length] in Ht; lia).
  cbn [length]. rewrite seq_S, rev_app_distr. cbn [rev app List.map combine foldr total_of].
  replace (total - Z.of_nat i) with (Z.of_nat (1 + length rest)) by (cbn [length] in Ht; lia).
  rewrite Z.max_r by lia. fold (total_of rebilled (next_turns (S i) r rest)). cbn [Nat.add]. lia.
Qed.

Lemma last_cons_default {A} (l : list A) : forall x d, List.last (x :: l) d = List.last l x.
Proof.
  induction l as [|y l IH]; intros x d; [done |]. change (List.last (y :: l) d = List.last (y :: l) x). by rewrite !IH.
Qed.

(** The growth of the prompts adds up to the last of them, and weighed by the
    requests still to come to all of them. *)
Lemma growth_telescopes rest : forall prev,
  foldr (fun '(r, p, j) n => (prompt_of r - prompt_of p) * 1 + n) 0
    (combine (combine rest (prev :: rest)) (List.map Z.of_nat (rev (seq 1 (length rest)))))
  = prompt_of (List.last rest prev) - prompt_of prev.
Proof.
  induction rest as [|r rest IH]; intros prev; [cbn; lia |].
  cbn [length]. rewrite seq_S, rev_app_distr. cbn [rev app List.map combine foldr]. rewrite IH.
  rewrite last_cons_default. lia.
Qed.

Lemma growth_adds_up rest : forall prev,
  foldr (fun '(r, p, j) n => (prompt_of r - prompt_of p) * j + n) 0
    (combine (combine rest (prev :: rest)) (List.map Z.of_nat (rev (seq 1 (length rest)))))
  = total_of prompt_of rest - prompt_of prev * Z.of_nat (length rest).
Proof.
  induction rest as [|r rest IH]; intros prev; [cbn; lia |].
  cbn [length]. rewrite seq_S, rev_app_distr. cbn [rev app List.map combine foldr total_of]. rewrite IH.
  fold (total_of prompt_of rest). lia.
Qed.

Lemma first_credit_shown k first total fit :
  usage_ok (req_Usage first) -> first_shown fit first -> first_credit k first total fit = prompt_of first * k total.
Proof.
  intros Hu [H1 H2 H3 H4]. unfold first_credit. f_equal. unfold prompt_of in *.
  pose proof (PromptTotal_exact _ Hu) as Hp. destruct Hu.
  rewrite (isub_exact (PromptTotal (req_Usage first)) (Total (UnseenPrefix fit))) by (unfold_int; lia).
  rewrite isub_exact by (unfold_int; lia). unfold shared.
  destruct (length (List.flat_map Blocks (Context first)) =? 0)%nat eqn:El; [| lia].
  apply Nat.eqb_eq, length_zero_iff_nil in El. destruct H4; [lia | done].
Qed.

(** C37: every token is attributed, once, and the report adds up to the
    provider's bill.  Take a lane with sane usage whose every prompt grows by
    the reply before it at least, and in which what the provider billed stands
    in blocks: each reply in its own, and what a turn adds beyond the reply in a
    block no earlier turn had.  Its report exists and does not depend on the
    order its map is ranged over; no label occurs twice, and the dearest comes
    first; its token column adds up to the last prompt and the history that
    breaks had written again; and its prompt column to all the prompts of the
    lane and that history; modulo 2^64.  A turn that brings no block is
    attributed to nothing, and the report is short of it. *)
Theorem every_token_is_attributed :
  forall lane fit first rest,
    Requests lane = first :: rest -> Z.of_nat (length (Requests lane)) <= max_int64 ->
    Forall (fun r => usage_ok (req_Usage r)) (Requests lane) ->
    first_shown fit first -> turns_shown fit (markSeen ∅ first) (Turns (Calibrate lane)) ->
    let written_again := total_of rebilled (Turns (Calibrate lane)) in
    exists es, (forall it, Blame it (Calibrate lane) fit = Some es) /\
      StronglySorted (fun a b => dearer b a = false) es /\ NoDup (List.map be_Label es) /\
      column be_Tokens es = wrap64 (prompt_of (List.last rest first) + written_again) /\
      column be_PromptTokens es = wrap64 (total_of prompt_of (Requests lane) + written_again).
Proof.
  intros lane fit first rest Hl Hlen Hu Hfirst Hturns written_again.
  destruct (the_report_adds_up_to_its_credits lane fit first rest Hl) as (es & Hes & Hs & Hn & Ho & Hp).
  exists es. split; [exact Hes |]. split; [exact Hs |]. split; [exact Hn |]. rewrite Ho, Hp.
  destruct (Calibrate_turns lane) as [Ht _]. subst written_again. rewrite Ht, Hl in *. cbn [turns_of] in *.
  apply Forall_cons in Hu as [Hf Hu]. cbn [length turn_credits turns_shown total_of foldr first_turn Previous turn_Request] in *.
  fold (total_of rebilled (next_turns 1 first rest)) (total_of prompt_of rest).
  rewrite !first_credit_shown, !(turn_credits_next fit _ _ rest 1 first) by (done || lia).
  rewrite growth_telescopes, growth_adds_up.
  assert (rebilled (first_turn first) = 0) as -> by done.
  split; f_equal; lia.
Qed.

(** ** Concrete lanes *)

Definition text_block (label : string) (bytes : Z) : Block := mkBlock KindText label bytes "" "" "" "" false None.

Definition turn_of (at_ input creation read output : Z) (ctx : list Message) : Request :=
  mkRequest "r" false false CorrelationLaneSerial "claude-opus-5" "" "" at_
    (mkUsage input creation read output 0 creation 0 true) ctx
    (Some (mkMessage "out" RoleAssistant at_ [text_block "assistant text" 300])) 0 0 [].

Definition ask : Message := mkMessage "u1" RoleUser 0 [text_block "user text" 2000].
Definition answer : Message := mkMessage "a1" RoleAssistant 0 [text_block "assistant text" 300].
Definition file : Message := mkMessage "u2" RoleUser 0 [text_block "tool result: Read a.go" 3000; text_block "user text" 1000].

(** A question, and an answer followed by a file. *)
Definition two_turns : Lane :=
  mkLane "l" false false
    [turn_of second 10 600 0 80 [ask]; turn_of (2 * second) 20 1100 600 50 [ask; answer; file]].

Definition plain_fit : TokenFit := mkFit DefaultTokensPerByte f0 2 (measured 0) (measured 0).

Lemma every_token_is_attributed_witness :
  (List.map (fun e => (be_Label e, Value (be_Tokens e), Value (be_PromptTokens e))) <$>
     Blame key_order (Calibrate two_turns) plain_fit) =
    Some [("user text", 860, 1470); ("tool result: Read a.go", 750, 750); ("assistant text", 80, 80);
          (UnaccountedLabel, 30, 30)] /\
  exists es, Blame key_order (Calibrate two_turns) plain_fit = Some es /\
    column be_Tokens es = 1720 /\ column be_PromptTokens es = 610 + 1720.
Proof.
  split; [vm_compute; reflexivity |].
  destruct (every_token_is_attributed two_turns plain_fit _ _ eq_refl) as (es & Hes & _ & _ & Hcol & Hprompt).
  - vm_compute. discriminate.
  - repeat (apply List.Forall_cons; [split; vm_compute; intuition discriminate |]). apply List.Forall_nil.
  - split; [vm_compute; discriminate .. | right; vm_compute; discriminate].
  - vm_compute turns_shown. split; [| exact I]. split.
    + eexists. split; [reflexivity |]. vm_compute. split; [split; discriminate | discriminate].
    + vm_compute. discriminate.
    + right. discriminate.
    + vm_compute. discriminate.
  - exists es. split; [apply Hes |]. rewrite Hcol, Hprompt. by vm_compute.
Defined.

(** A turn that brings no block of its own has its write attributed to
    nothing: the report of this lane is 400 tokens short of what was billed. *)
Definition silent_turn : Lane :=
  mkLane "l" false false
    [turn_of second 10 600 0 80 [ask]; turn_of (2 * second) 10 480 600 50 [ask; answer]].

Lemma a_turn_without_blocks_is_not_attributed :
  (column be_Tokens <$> Blame key_order (Calibrate silent_turn) plain_fit) = Some (610 + 80).
Proof. vm_compute. reflexivity. Qed.

End Blame.
