(* ===== verification/Waste.v ===== *)
(** Wasted work visible in a lane: error content by class
    ([src/internal/analysis/errors.go]) and files read again
    ([src/internal/analysis/rereads.go]).

    Lower-casing is that of ASCII: the markers looked for are ASCII, and the
    only other letter whose lower case is one of theirs is U+0130. *)

From S2P Require Import Prelude GoString GoFloat GoTime Transcript CacheRules CachePrices.
From S2P Require Import CacheVerdict Calibrate Fit Replay Blame.
From Stdlib Require Import Ascii String.

Open Scope string_scope.
Open Scope list_scope.
Open Scope Z_scope.

Module Waste.
Import Transcript CacheVerdict Calibrate Fit Replay Blame.

#[local] Abbreviation length := List.length.

(** ** Which requests carry which block *)

Definition block_keys (r : Request) : list blockKey :=
  List.flat_map (fun m => List.map (fun ib : nat * Block => (UUID m, ib.1)) (indexed (Blocks m))) (Context r).

Definition carry (counts : gmap blockKey Z) (key : blockKey) : gmap blockKey Z :=
  <[key := default 0 (counts !! key) +! 1]> counts.

Definition blockCarryCounts (rs : list Request) : gmap blockKey Z :=
  fold_left (fun counts r => fold_left carry (block_keys r) counts) rs ∅.

(** ** Errors *)

Inductive ErrorClass := ErrorToolFailed | ErrorEditAnchor | ErrorRepeatedCommand | ErrorContextOverflow.

#[export] Instance ErrorClass_eq_dec : EqDecision ErrorClass.
Proof. solve_decision. Defined.

Record ErrorCost := mkErrorCost {
  Class_ : ErrorClass;
  Count : Z;
  ec_Tokens : Figure;
  ec_PromptTokens : Figure
}.

Record ErrorEvidence := mkEvidence { Unresolved : Z; Legacy : Z }.

Definition editAnchorMarkers : list string :=
  ["string to replace not found"; "not found in file"; "old_string"; "no match found"].
Definition overflowMarkers : list string := ["prompt is too long"; "context window"; "compact"].
Definition overflowMarkerMaxBytes : Z := 400.

Definition containsAny (s : string) (markers : list string) : bool := existsb (contains s) markers.

Definition classifyResult (b : Block) (isError : bool) : option ErrorClass :=
  if negb isError && (overflowMarkerMaxBytes <=? len (Text b)) then None
  else
    let lower := to_lower (Text b) in
    if isError && containsAny lower editAnchorMarkers then Some ErrorEditAnchor
    else if isError then Some ErrorToolFailed
    else if containsAny lower overflowMarkers then Some ErrorContextOverflow
    else None.

(** [(isError, known)] *)
Definition evidenceErrorState (b : Block) : bool * bool :=
  match Evidence b with
  | None => (false, false)
  | Some ErrorFlagTrue => (true, true)
  | Some ErrorFlagFalse | Some ErrorFlagAbsent => (false, true)
  | Some ErrorFlagConflict | Some ErrorFlagNonBoolean => (false, true)
  | Some ErrorFlagNone => (false, false)
  end.

(** [map[ErrorClass]*labelAcc], a class without an accumulator being absent. *)
Definition class_accs : Type := ErrorClass -> option labelAcc.

Definition charge (m : class_accs) (c : ErrorClass) (t : Tokens) (carried : Z) (isError : bool) : class_accs :=
  fun c' => if decide (c' = c) then Some (acc_add (default zero_acc (m c)) t carried isError) else m c'.

Record error_state := mkErrors {
  er_counts : class_accs;
  seenBlocks : gset blockKey;
  seenCalls : gset string;
  callBytes : gmap string Z;
  evidence : ErrorEvidence
}.

Definition with_counts (s : error_state) (m : class_accs) (ev : ErrorEvidence) : error_state :=
  mkErrors m (seenBlocks s) (seenCalls s) (callBytes s) ev.

(** A tool result. *)
Definition result_step (fit : TokenFit) (carried : Z) (b : Block) (s : error_state) : error_state :=
  let size := estimated (EstimateTokens fit (Bytes b +! default 0 (callBytes s !! ToolUseID b))) in
  let classified isError ev :=
    match classifyResult b isError with
    | Some c => with_counts s (charge (er_counts s) c size carried true) ev
    | None => with_counts s (er_counts s) ev
    end in
  let ev := evidence s in
  match evidenceErrorState b with
  | (true, true) => classified true ev
  | (false, true) =>
      match Evidence b with
      | Some ErrorFlagConflict | Some ErrorFlagNonBoolean =>
          with_counts s (er_counts s) (mkEvidence (Unresolved ev +! 1) (Legacy ev))
      | _ => s
      end
  | (_, false) => classified (IsError b) (mkEvidence (Unresolved ev) (Legacy ev +! 1))
  end.

(** A tool call. *)
Definition call_step (fit : TokenFit) (carried : Z) (b : Block) (s : error_state) : error_state :=
  let counts := if negb (String.eqb (CallKey b) "") && bool_decide (CallKey b ∈ seenCalls s)
                then charge (er_counts s) ErrorRepeatedCommand (estimated (EstimateTokens fit (Bytes b))) carried false
                else er_counts s in
  mkErrors counts (seenBlocks s) ({[CallKey b]} ∪ seenCalls s) (<[ToolUseID b := Bytes b]> (callBytes s)) (evidence s).

Definition error_step (fit : TokenFit) (carriedBy : gmap blockKey Z) (uuid : string) (s : error_state)
    (ib : nat * Block) : error_state :=
  let '(bi, b) := ib in
  let key := (uuid, bi) in
  if bool_decide (key ∈ seenBlocks s) then s
  else
    let s := mkErrors (er_counts s) ({[key]} ∪ seenBlocks s) (seenCalls s) (callBytes s) (evidence s) in
    let carried := default 0 (carriedBy !! key) in
    if String.eqb (Kind b) KindToolUse then call_step fit carried b s
    else if String.eqb (Kind b) KindToolResult then result_step fit carried b s
    else s.

Definition error_state_of (fit : TokenFit) (rs : list Request) : error_state :=
  fold_left (fun s r =>
      fold_left (fun s m => fold_left (error_step fit (blockCarryCounts rs) (UUID m)) (indexed (Blocks m)) s)
        (Context r) s)
    rs (mkErrors (fun _ => None) ∅ ∅ ∅ (mkEvidence 0 0)).

Definition class_order : list ErrorClass :=
  [ErrorEditAnchor; ErrorToolFailed; ErrorRepeatedCommand; ErrorContextOverflow].

Definition ErrorCosts (cal : Calibration) (fit : TokenFit) : list ErrorCost * ErrorEvidence :=
  let s := error_state_of fit (Requests (cal_Lane cal)) in
  (omap (fun c => a ← er_counts s c;
                  Some (mkErrorCost c (occurrences a) (figure fit (once a)) (figure fit (prompt a)))) class_order,
   evidence s).

(** ** Files read again *)

Definition readTools : list string := ["Read"; "NotebookRead"; "view"; "read_file"].

(** [strings.Cut(s, " ")] *)
Fixpoint cut_space (s : string) : option (string * string) :=
  match s with
  | EmptyString => None
  | String c s' => if Ascii.eqb c " " then Some ("", s')
                   else '(a, b) ← cut_space s'; Some (String c a, b)
  end.

Definition IsFileRead (label : string) : bool :=
  match cut_space label with
  | Some (name, path) => negb (String.eqb path "") && existsb (String.eqb name) readTools
  | None => false
  end.

Record ReReads := mkReReads {
  rr_Reads : Z;
  Repeated : Z;
  rr_Tokens : Figure;
  ContextEdits : Z;
  rr_ClearedTokens : Z;
  ReadsAfterClear : Z;
  RepeatedAfterClear : Z
}.

Definition ratio_of (n d : Z) : float64 := if d =? 0 then f0 else (of_int n / of_int d)%float.

Definition Rate (r : ReReads) : float64 := ratio_of (Repeated r) (rr_Reads r).
Definition RateAfterClear (r : ReReads) : float64 := ratio_of (RepeatedAfterClear r) (ReadsAfterClear r).
Definition RateBeforeClear (r : ReReads) : float64 :=
  ratio_of (Repeated r -! RepeatedAfterClear r) (rr_Reads r -! ReadsAfterClear r).

Record reread_state := mkRereadState {
  rs_out : ReReads;
  rs_seen : gset string;
  rs_tokens : Tokens;
  rs_cleared : bool
}.

(** One block of a request's new messages. *)
Definition reread_step (fit : TokenFit) (carriedBy : gmap blockKey Z) (uuid : string) (s : reread_state)
    (ib : nat * Block) : reread_state :=
  let '(bi, b) := ib in
  if negb (String.eqb (Kind b) KindToolResult) || negb (IsFileRead (ToolName b)) then s
  else
    let o := rs_out s in
    let after := if rs_cleared s then ReadsAfterClear o +! 1 else ReadsAfterClear o in
    if bool_decide (ToolName b ∈ rs_seen s)
    then mkRereadState
           (mkReReads (rr_Reads o +! 1) (Repeated o +! 1) (rr_Tokens o) (ContextEdits o) (rr_ClearedTokens o) after
              (if rs_cleared s then RepeatedAfterClear o +! 1 else RepeatedAfterClear o))
           (rs_seen s)
           (Tokens_Add (rs_tokens s)
              (Times (estimated (EstimateTokens fit (Bytes b))) (default 0 (carriedBy !! (uuid, bi)))))
           (rs_cleared s)
    else mkRereadState
           (mkReReads (rr_Reads o +! 1) (Repeated o) (rr_Tokens o) (ContextEdits o) (rr_ClearedTokens o) after
              (RepeatedAfterClear o))
           ({[ToolName b]} ∪ rs_seen s) (rs_tokens s) (rs_cleared s).

(** One request; [prevLen] is the length of the context before it. *)
Definition reread_request (fit : TokenFit) (carriedBy : gmap blockKey Z) (st : reread_state * nat) (r : Request)
    : reread_state * nat :=
  let '(s, prevLen) := st in
  let edited := 0 <? AppliedEdits r in
  let o := rs_out s in
  let o := if edited
           then mkReReads (rr_Reads o) (Repeated o) (rr_Tokens o) (ContextEdits o +! AppliedEdits r)
                  (rr_ClearedTokens o +! ClearedTokens r) (ReadsAfterClear o) (RepeatedAfterClear o)
           else o in
  let s := mkRereadState o (rs_seen s) (rs_tokens s) (rs_cleared s) in
  let s := fold_left (fun s m => fold_left (reread_step fit carriedBy (UUID m)) (indexed (Blocks m)) s)
             (drop (Nat.min prevLen (length (Context r))) (Context r)) s in
  (mkRereadState (rs_out s) (rs_seen s) (rs_tokens s) (rs_cleared s || edited), length (Context r)).

Definition no_rereads : ReReads := mkReReads 0 0 (mkFigure 0 0 false) 0 0 0 0.

Definition CountReReads (cal : Calibration) (fit : TokenFit) : ReReads :=
  let rs := Requests (cal_Lane cal) in
  let '(s, _) := fold_left (reread_request fit (blockCarryCounts rs)) rs
                   (mkRereadState no_rereads ∅ no_tokens false, 0%nat) in
  let o := rs_out s in
  mkReReads (rr_Reads o) (Repeated o) (figure fit (rs_tokens s)) (ContextEdits o) (rr_ClearedTokens o)
    (ReadsAfterClear o) (RepeatedAfterClear o).

(** ** What the counts say *)

(** The reads that were not repeats are the distinct files. *)
Definition reads_balance (s : reread_state) : Prop :=
  rr_Reads (rs_out s) ≡₆₄ Repeated (rs_out s) + Z.of_nat (size (rs_seen s)).

Lemma reread_step_balance fit carriedBy uuid s ib :
  reads_balance s -> reads_balance (reread_step fit carriedBy uuid s ib).
Proof.
  destruct ib as [bi b]. unfold reads_balance, reread_step. intros H. case_match; [done |].
  destruct (bool_decide (ToolName b ∈ rs_seen s)) eqn:E; reflect_bool;
    cbn [rs_out rs_seen rr_Reads Repeated]; rewrite !cong64_iadd, ?H; apply cong64_iff; exists 0.
  - lia.
  - rewrite size_union, size_singleton by set_solver. lia.
Qed.

Lemma fold_left_preserves {A B} (P : A -> Prop) (f : A -> B -> A) l :
  (forall a b, P a -> P (f a b)) -> forall a, P a -> P (fold_left f l a).
Proof. intros Hf. induction l as [|b l IH]; intros a Ha; cbn; auto. Qed.

(** Of the file reads of a lane, those not counted as repeated are as many as
    the distinct files read. *)
Lemma CountReReads_counts_files cal fit :
  exists files : gset string,
    (forall f, f ∈ files -> IsFileRead f = true) /\
    rr_Reads (CountReReads cal fit) ≡₆₄ Repeated (CountReReads cal fit) + Z.of_nat (size files).
Proof.
  unfold CountReReads. set (rs := Requests (cal_Lane cal)).
  assert (forall l st, reads_balance st.1 /\ (forall f, f ∈ rs_seen st.1 -> IsFileRead f = true) ->
    reads_balance (fold_left (reread_request fit (blockCarryCounts rs)) l st).1 /\
    (forall f, f ∈ rs_seen (fold_left (reread_request fit (blockCarryCounts rs)) l st).1 -> IsFileRead f = true)) as H.
  { intros l st. apply (fold_left_preserves (fun st : reread_state * nat =>
      reads_balance st.1 /\ (forall f, f ∈ rs_seen st.1 -> IsFileRead f = true))).
    intros [s n] r Hs. cbn [fst] in Hs. unfold reread_request. cbn [fst].
    match goal with |- reads_balance (mkRereadState (rs_out ?x) _ _ _) /\ _ => set (y := x) end.
    change (reads_balance y /\ (forall f, f ∈ rs_seen y -> IsFileRead f = true)). subst y.
    apply (fold_left_preserves (fun s => reads_balance s /\ (forall f, f ∈ rs_seen s -> IsFileRead f = true))).
    - intros s' m Hs'. apply (fold_left_preserves (fun s => reads_balance s /\ (forall f, f ∈ rs_seen s -> IsFileRead f = true)));
        [| exact Hs'].
      intros s'' [bi b] [Hb Hf]. split; [by apply reread_step_balance |]. unfold reread_step.
      destruct (negb _ || negb _) eqn:E; [done |]. apply orb_false_iff in E as [_ E]. apply negb_false_iff in E.
      case_match; cbn [rs_seen]; [done |]. intros f. rewrite elem_of_union, elem_of_singleton. by intros [->|?]; [| apply Hf].
    - destruct (0 <? AppliedEdits r); exact Hs. }
  destruct (fold_left _ rs _) as [s n] eqn:E. exists (rs_seen s).
  specialize (H rs (mkRereadState no_rereads ∅ no_tokens false, 0%nat)). rewrite E in H. cbn [fst] in H.
  destruct H as [Hb Hf]; [split; [reflexivity | set_solver] |]. by split.
Qed.

End Waste.
