(* ===== verification/Gap.v ===== *)
(** How far a session's attribution can be trusted
    ([src/internal/analysis/context.go]): what entered its context by tool,
    what the provider cleared and the client compacted, and the note printed
    under the figures; and the largest context a model was seen to reach
    ([ceiling.go]).

    A lane is a pointer in the source; [reported] is the place of the reported
    one among the session's lanes, if it is one of them. *)

From S2P Require Import Prelude GoString GoFloat GoTime Transcript Tenancy CacheRules CachePrices CacheVerdict.
From S2P Require Import Calibrate Fit Json Labels GoMath Blame.
From Stdlib Require Import Ascii String SpecFloat.

Open Scope string_scope.
Open Scope list_scope.
Open Scope Z_scope.

(** ** Numbers as they are printed *)

Module Print.

(** [n / d] to the nearest integer, a half to the even one. *)
Definition div_even (n d : Z) : Z :=
  let q := n / d in
  let r := n mod d in
  if 2 * r <? d then q else if d <? 2 * r then q + 1 else if Z.even q then q else q + 1.

(** [strconv.FormatFloat(f, 'f', prec, 64)] *)
Definition FormatFloat (prec : nat) (f : float64) : string :=
  let sign (s : bool) := if s then "-" else "" in
  let digits (n : Z) :=
    let whole := itoa (n / 10 ^ Z.of_nat prec) in
    match prec with
    | O => whole
    | _ => (whole ++ "." ++ pad prec (n mod 10 ^ Z.of_nat prec))%string
    end in
  match f with
  | S754_nan => "NaN"
  | S754_infinity s => if s then "-Inf" else "+Inf"
  | S754_zero s => (sign s ++ digits 0)%string
  | S754_finite s m e =>
      let scaled := Zpos m * 10 ^ Z.of_nat prec in
      (sign s ++ digits (if (0 <=? e)%Z then scaled * 2 ^ e else div_even scaled (2 ^ (- e))))%string
  end.

Definition shortCount (n : Z) : string :=
  if 1000000 <=? n then (FormatFloat 1 (of_int n / of_int 1000000)%float ++ "M")%string
  else if 1000 <=? n then (itoa (Z.quot n 1000) ++ "k")%string
  else itoa n.

Definition percent (f : float64) : string := (itoa (to_int (f * of_int 100 + of_ratio 1 2)%float) ++ "%")%string.
Definition tenthPercent (f : float64) : string := (FormatFloat 1 (f * of_int 100)%float ++ "%")%string.

Definition plural (n : Z) (word : string) : string :=
  if n =? 1 then ("1 " ++ word)%string else (itoa n ++ " " ++ word ++ "s")%string.

(** Digits from the right, a comma before every third. *)
Fixpoint with_commas (digits : list ascii) : list ascii :=
  match digits with
  | c :: rest => c :: (if (List.length rest mod 3 =? 0)%nat && negb (List.length rest =? 0)%nat then "," :: with_commas rest else with_commas rest)%char
  | [] => []
  end.

Definition formatCount (n : Z) : string :=
  let s := itoa n in
  match s with
  | String c rest => if Ascii.eqb c "-" then String "-" (string_of_list_ascii (with_commas (list_ascii_of_string rest)))
                     else string_of_list_ascii (with_commas (list_ascii_of_string s))
  | EmptyString => ""
  end.

Example format_tenth : FormatFloat 1 (of_ratio 25 100) = "0.2".
Proof. reflexivity. Qed.

Example format_count : formatCount (-1234567) = "-1,234,567" /\ formatCount 999 = "999" /\ formatCount 1000 = "1,000".
Proof. done. Qed.

Example short_count : shortCount 1250000 = "1.2M" /\ shortCount 45999 = "45k".
Proof. done. Qed.

(** Nothing but commas is added. *)
Lemma commas_only l : Forall (fun c => c <> ","%char) l -> List.filter (fun c => negb (Ascii.eqb c ","%char)) (with_commas l) = l.
Proof.
  induction 1 as [|c l Hc _ IH]; [done |]. cbn [with_commas List.filter].
  destruct (Ascii.eqb_spec c ",") as [?|_]; [done |]. cbn [negb]. f_equal.
  destruct ((List.length l mod 3 =? 0)%nat && _); [by cbn | done].
Qed.

End Print.

Module Gap.
Import Json Transcript Fit Labels Blame Print.

#[local] Abbreviation length := List.length.

(** ** What entered the context *)

Definition MaxContextLabel : nat := 48.

Definition safeLabel (s : string) : string :=
  let l := of_string s in
  let kept := List.filter (fun r => negb (is_control r)) (List.map fst (runes (length l) l)) in
  if (MaxContextLabel <? length kept)%nat
  then to_string (flat_map encode_rune (take (pred MaxContextLabel) kept) ++ ellipsis)
  else to_string (flat_map encode_rune kept).

Definition trim_prefix (p s : string) : string := default s (strip_prefix p s).

Fixpoint before_space (s : string) : option string :=
  match s with
  | EmptyString => None
  | String c rest => if Ascii.eqb c " " then Some "" else option_map (String c) (before_space rest)
  end.

(** A space at the very start does not end the name. *)
Definition toolNameOf (label : string) : string :=
  let s := trim_prefix "tool call: " (trim_prefix "tool result: " label) in
  safeLabel (match before_space s with Some EmptyString | None => s | Some name => name end).

Record ContextEntry := mkContextEntry {
  ce_Label : string;
  ce_Tokens : Z;
  ce_Share : float64;
  ce_Occurrences : Z;
  ce_Estimated : bool
}.

Definition fresh_entry (name : string) : ContextEntry := mkContextEntry name 0 f0 0 false.

Definition counted (c : ContextEntry) (e : BlameEntry) : ContextEntry :=
  mkContextEntry (ce_Label c) (ce_Tokens c +! Value (be_Tokens e)) (ce_Share c) (ce_Occurrences c +! Occurrences e)
    (ce_Estimated c || (0 <? Error (be_Tokens e))).

(** The table, in the order its names were first met. *)
Fixpoint add_entry (e : BlameEntry) (name : string) (t : list ContextEntry) : list ContextEntry :=
  match t with
  | [] => [counted (fresh_entry name) e]
  | c :: t => if String.eqb (ce_Label c) name then counted c e :: t else c :: add_entry e name t
  end.

Definition enter_step (t : list ContextEntry) (e : BlameEntry) : list ContextEntry :=
  if String.eqb (be_Label e) RebillLabel then t else add_entry e (toolNameOf (be_Label e)) t.

Definition total_tokens (t : list ContextEntry) : Z := fold_left (fun n c => n +! ce_Tokens c) t 0.

Definition with_share (total : Z) (c : ContextEntry) : ContextEntry :=
  if 0 <? total
  then mkContextEntry (ce_Label c) (ce_Tokens c) (of_int (ce_Tokens c) / of_int total)%float (ce_Occurrences c) (ce_Estimated c)
  else c.

Definition heavier (a b : ContextEntry) : bool := ce_Tokens b <? ce_Tokens a.

Definition EnteredContext (entries : list BlameEntry) : list ContextEntry :=
  let t := fold_left enter_step entries [] in
  SliceStable heavier (List.map (with_share (total_tokens t)) t).

(** ** The gap *)

Record CompactionEvent := mkEvent {
  ev_Trigger : string;
  ev_PreTokens : Z;
  ev_PostTokens : Z;
  FirstPromptAfter : Z
}.

Record ContextGap := mkGap {
  gap_ClearedTokens : Z;
  gap_ContextEdits : Z;
  gap_Compactions : Z;
  InferredCompactions : Z;
  CompactedTokens : Z;
  AttributedTokens : Z;
  LanesTotal : Z;
  LanesReported : Z;
  RequestsOmitted : Z;
  SegmentsTotal : Z;
  SegmentRequestsOmitted : Z;
  CompactionEvents : list CompactionEvent
}.

Definition main_requests (s : Session) : list Request :=
  flat_map (fun l => if Sidechain l then [] else Requests l) (Lanes s).

Definition earlier_after (at_ : time) (best : option Request) (r : Request) : option Request :=
  if After (Timestamp r) at_ && match best with None => true | Some b => Before (Timestamp r) (Timestamp b) end
  then Some r else best.

Definition firstPromptAfter (s : Session) (at_ : time) : Z :=
  if IsZero at_ then 0
  else match fold_left (earlier_after at_) (main_requests s) None with
       | None => 0
       | Some r => PromptTotal (req_Usage r)
       end.

Definition Partial (g : ContextGap) : bool := (LanesReported g <? LanesTotal g) && (0 <? LanesReported g).

Definition Overstated (g : ContextGap) : bool :=
  (0 <? gap_ClearedTokens g) || (0 <? gap_ContextEdits g) || (0 <? gap_Compactions g) || (0 <? CompactedTokens g).

Definition OverstatedShare (g : ContextGap) : float64 :=
  let measured := gap_ClearedTokens g +! CompactedTokens g in
  if (measured <=? 0) || (AttributedTokens g <=? 0) then f0
  else (of_int measured / of_int (AttributedTokens g))%float.

(** The lanes beside the reported one. *)
Definition count_lane (reported : option nat) (acc : Z * Z * Z) (il : nat * Lane) : Z * Z * Z :=
  let '(segments, omitted, segment_omitted) := acc in
  let '(i, l) := il in
  let n := Z.of_nat (length (Requests l)) in
  let segments := if Sidechain l then segments else segments +! 1 in
  if bool_decide (reported = Some i) then (segments, omitted, segment_omitted)
  else (segments, omitted +! n, if Sidechain l then segment_omitted else segment_omitted +! n).

Definition compaction_event (s : Session) (c : Compaction) : CompactionEvent :=
  mkEvent (Trigger c) (PreTokens c) (PostTokens c) (firstPromptAfter s (At c)).

(** Cleared tokens, edits, and prompts that shrank where nothing was recorded. *)
Definition lane_step (recorded : Z) (st : Z * Z * Z * Z) (ir : nat * Request) : Z * Z * Z * Z :=
  let '(cleared, edits, shrunk, prev) := st in
  let '(i, r) := ir in
  let cur := PromptTotal (req_Usage r) in
  (cleared +! ClearedTokens r, edits +! AppliedEdits r,
   if (recorded =? 0) && negb (i =? 0)%nat && (0 <? prev) && (cur <? prev) then shrunk +! 1 else shrunk, cur).

Definition MeasureGap (session : option Session) (lane : option Lane) (reported : option nat) (attributed : Z) : ContextGap :=
  let '(lanes, shown, (segments, omitted, segment_omitted)) :=
    match session, lane with
    | Some s, Some _ => (Z.of_nat (length (Lanes s)), 1, fold_left (count_lane reported) (indexed (Lanes s)) (0, 0, 0))
    | _, _ => (0, 0, (0, 0, 0))
    end in
  let '(recorded, dropped, events) :=
    match session with
    | Some s => (Z.of_nat (length (Compactions s)), fold_left (fun n c => n +! Dropped c) (Compactions s) 0,
                 List.map (compaction_event s) (Compactions s))
    | None => (0, 0, [])
    end in
  let '(cleared, edits, shrunk, _) :=
    match lane with
    | Some l => fold_left (lane_step recorded) (indexed (Requests l)) (0, 0, 0, 0)
    | None => (0, 0, 0, 0)
    end in
  mkGap cleared edits (recorded +! shrunk) shrunk dropped attributed lanes shown omitted segments segment_omitted events.

(** ** What is printed *)

Definition detail_line (n : Z) (ie : nat * CompactionEvent) : string :=
  let '(i, e) := ie in
  (itoa (Z.of_nat i +! 1) ++ " of " ++ itoa n ++
   (if String.eqb (ev_Trigger e) "" then "" else " (" ++ ev_Trigger e ++ ")") ++ ": " ++
   (if (ev_PreTokens e <=? 0)%Z then "the rewrite was recorded without its sizes"
    else if (ev_PreTokens e <? ev_PostTokens e)%Z then
      shortCount (ev_PreTokens e) ++ " tokens before the boundary, " ++ shortCount (ev_PostTokens e) ++
      " after, which is more than before as the client recorded it, so no kept share is derived"
    else
      shortCount (ev_PreTokens e) ++ " tokens before the boundary, " ++ shortCount (ev_PostTokens e) ++ " kept (" ++
      tenthPercent (of_int (ev_PostTokens e) / of_int (ev_PreTokens e))%float ++ ")") ++
   (if (0 <? FirstPromptAfter e)%Z then
      "; the first prompt after it carried " ++ shortCount (FirstPromptAfter e) ++ " tokens" ++
      (if ((0 <? ev_PreTokens e) && (ev_PostTokens e <? FirstPromptAfter e))%Z
       then ", " ++ shortCount (FirstPromptAfter e -! ev_PostTokens e) ++ " of which was not the kept summary (calculated)"
       else "")
    else "; no prompt is recorded after the boundary") ++ ".")%string.

Definition CompactionDetail (g : ContextGap) : list string :=
  match CompactionEvents g with
  | [] => []
  | es => "Compaction, as the client recorded it:" :: List.map (detail_line (Z.of_nat (length es))) (indexed es)
  end.

Definition carrying (n : Z) : string := if 0 <? n then (", carrying " ++ plural n "request")%string else "".

Definition partial_note (g : ContextGap) : string :=
  let segments := SegmentsTotal g -! 1 in
  let subagents := if SegmentsTotal g =? 0 then LanesTotal g -! 1 else LanesTotal g -! SegmentsTotal g in
  ("PARTIAL: " ++
   (if (0 <? segments)%Z then
      "this is one segment of " ++ shortCount (SegmentsTotal g) ++ ": the history was compacted between them, and the other " ++
      plural segments "segment" ++ carrying (SegmentRequestsOmitted g) ++ ", are not counted above."
    else "") ++
   (if (0 <? subagents)%Z then
      (if (0 <? segments)%Z then " " else "this is one lane of " ++ shortCount (LanesTotal g) ++ ". ") ++
      plural subagents "sub-agent lane" ++ carrying (RequestsOmitted g -! SegmentRequestsOmitted g) ++ ", are not counted above."
    else ""))%string.

Definition cleared_note (g : ContextGap) : string :=
  if 0 <? gap_ClearedTokens g then
    (" The provider cleared " ++ shortCount (gap_ClearedTokens g) ++ " tokens over " ++ plural (gap_ContextEdits g) "context edit" ++
     (if fltb f0 (OverstatedShare g) then ", so these figures overstate by at least " ++ percent (OverstatedShare g) else "") ++ ".")%string
  else if 0 <? gap_ContextEdits g then
    (" The provider applied " ++ plural (gap_ContextEdits g) "context edit" ++ " without reporting a size.")%string
  else "".

Definition compacted_note (g : ContextGap) : string :=
  if negb (0 <? gap_Compactions g) then ""
  else if InferredCompactions g =? gap_Compactions g then
    (" The prompt shrank " ++ plural (gap_Compactions g) "time" ++
     ", so the history may have been compacted, rewound or resumed; the client recorded none of it, so neither the cause nor the size is established.")%string
  else
    (" The history was compacted " ++ plural (gap_Compactions g) "time" ++
     (if (0 <? CompactedTokens g)%Z then
        ", dropping " ++ shortCount (CompactedTokens g) ++ " tokens the client recorded" ++
        (let s := OverstatedShare g in
         if fltb f0 s && fltb s (of_int 1) then "; these figures overstate by at least " ++ percent s ++ "."
         else ", which is more than is attributed above: the attribution describes what remains, not everything that passed through.")
      else " without recording a size, so that part of the overstatement cannot be measured."))%string.

Definition complete_note : string :=
  "Complete: nothing was cleared or compacted in this session, so every block counted here is still in the context.".

Definition Note (g : ContextGap) : string :=
  if negb (Overstated g) && negb (Partial g) then complete_note
  else
    ((if Partial g then partial_note g ++ (if Overstated g then " " else "") else "") ++
     (if Overstated g then
        "OVERSTATED: content left this context and the attribution above does not subtract it." ++ cleared_note g ++ compacted_note g
      else ""))%string.

End Gap.

(** ** The largest context seen *)

Module Ceiling.
Import Transcript Print.

#[local] Abbreviation length := List.length.

Inductive ContextCeilingStatus := TooFewRecords | AmbiguousTier | Available.

Definition minContextCeilingRecords : Z := 10.
Definition ambiguousTierRatio : float64 := of_int 2.

Record ContextCeiling := mkContextCeiling { ceil_Status : ContextCeilingStatus; Max_ : Z; ceil_N : Z }.

(** The last request of the main conversation not after the instant. *)
Definition later_until (at_ : time) (acc : time * string) (r : Request) : time * string :=
  if After (Timestamp r) at_ then acc
  else if After (Timestamp r) acc.1 then (Timestamp r, Model r) else acc.

Definition modelNearCompaction (s : Session) (at_ : time) : string :=
  (fold_left (later_until at_) (Gap.main_requests s) (zero_time, "")).2.

Definition note_size (s : Session) (byModel : gmap string (list Z)) (c : Compaction) : gmap string (list Z) :=
  if negb (Sized c) || IsZero (At c) then byModel
  else
    let model := modelNearCompaction s (At c) in
    if String.eqb model "" then byModel else <[model := default [] (byModel !! model) ++ [PreTokens c]]> byModel.

Definition sizes_of (sessions : list Session) : gmap string (list Z) :=
  fold_left (fun m s => fold_left (note_size s) (Compactions s) m) sessions ∅.

Definition ceiling_of (sizes : list Z) : ContextCeiling :=
  let n := Z.of_nat (length sizes) in
  if n <? minContextCeilingRecords then mkContextCeiling TooFewRecords 0 n
  else
    let lo := fold_left Z.min (tail sizes) (List.hd 0 sizes) in
    let hi := fold_left Z.max (tail sizes) (List.hd 0 sizes) in
    if (lo <=? 0) || fltb ambiguousTierRatio (of_int hi / of_int lo)%float then mkContextCeiling AmbiguousTier 0 n
    else mkContextCeiling Available hi n.

Definition BuildContextCeilings (sessions : list Session) : gmap string ContextCeiling := ceiling_of <$> sizes_of sessions.

Definition ContextCeilingLine (model : string) (preTokens : Z) (ceilings : gmap string ContextCeiling) : string :=
  match ceilings !! model with
  | None => ""
  | Some c =>
      match ceil_Status c with
      | TooFewRecords =>
          ("observed ceiling for " ++ model ++ ": withheld, only " ++ plural (ceil_N c) "compaction" ++ " recorded here (need " ++
           itoa minContextCeilingRecords ++ ")")%string
      | AmbiguousTier =>
          ("observed ceiling for " ++ model ++ ": withheld, this model id shows more than one ceiling on this machine across " ++
           itoa (ceil_N c) ++ " compactions")%string
      | Available =>
          ("observed ceiling for " ++ model ++ " on this machine: " ++ formatCount (Max_ c) ++ " (estimated, n=" ++ itoa (ceil_N c) ++
           "); this compaction's pre-compaction size was " ++ formatCount preTokens ++ " (" ++
           FormatFloat 0 (of_int preTokens / of_int (Max_ c) * of_int 100)%float ++ "% of the observed ceiling)")%string
      end
  end.

Definition ContextCeilingDetail (s : Session) (ceilings : gmap string ContextCeiling) : list string :=
  List.map (fun c =>
    if negb (Sized c) || IsZero (At c) then ""
    else
      let model := modelNearCompaction s (At c) in
      if String.eqb model "" then "" else ContextCeilingLine model (PreTokens c) ceilings) (Compactions s).

End Ceiling.

(** What the gap and its note promise: every attributed token is shown once
    under its tool, a session is called complete exactly when nothing left its
    context and no lane was left out, and a ceiling shown was reached. *)

Module GapSpec.
Import Transcript Fit Blame Gap.

#[local] Abbreviation length := List.length.

(** ** What entered the context *)

Definition of_tool (name : string) (e : BlameEntry) : bool :=
  negb (String.eqb (be_Label e) RebillLabel) && String.eqb (toolNameOf (be_Label e)) name.

Definition tokens_of (es : list BlameEntry) : Z := fold_left (fun n e => n +! Value (be_Tokens e)) es 0.

(** The table after some entries: a name once, with its tokens. *)
Definition tabled (es : list BlameEntry) (t : list ContextEntry) : Prop :=
  NoDup (List.map ce_Label t) /\
  (forall c, c ∈ t -> ce_Tokens c = tokens_of (List.filter (of_tool (ce_Label c)) es)) /\
  (forall e, e ∈ es -> be_Label e <> RebillLabel -> toolNameOf (be_Label e) ∈ List.map ce_Label t) /\
  (forall c, c ∈ t -> exists e, e ∈ es /\ of_tool (ce_Label c) e = true).

Lemma tokens_of_snoc es e : tokens_of (es ++ [e]) = tokens_of es +! Value (be_Tokens e).
Proof. unfold tokens_of. by rewrite fold_left_app. Qed.

Lemma add_entry_labels e name t :
  List.map ce_Label (add_entry e name t) = List.map ce_Label t \/
  ((name ∉ List.map ce_Label t) /\ List.map ce_Label (add_entry e name t) = List.map ce_Label t ++ [name]).
Proof.
  induction t as [|c t IH]; cbn; [right; split; [apply not_elem_of_nil | done] |].
  destruct (String.eqb_spec (ce_Label c) name) as [E|E]; [by left |]. cbn.
  destruct IH as [IH|[Hn IH]]; rewrite IH; [by left | right]. split; [| done]. apply not_elem_of_cons. by split.
Qed.

Lemma add_entry_elem e name t c :
  NoDup (List.map ce_Label t) -> c ∈ add_entry e name t ->
  (c ∈ t /\ ce_Label c <> name) \/
  (ce_Label c = name /\ ((exists c0, c0 ∈ t /\ ce_Label c0 = name /\ c = counted c0 e) \/
                         ((name ∉ List.map ce_Label t) /\ c = counted (fresh_entry name) e))).
Proof.
  induction t as [|c0 t IH]; cbn [add_entry List.map].
  { intros _ ->%list_elem_of_singleton. right. split; [done |]. right. split; [apply not_elem_of_nil | done]. }
  intros [Hni Hnd]%NoDup_cons. destruct (String.eqb_spec (ce_Label c0) name) as [E|E].
  - intros [->|Hc]%elem_of_cons.
    + right. split; [done |]. left. exists c0. split; [apply elem_of_cons; by left | done].
    + left. split; [apply elem_of_cons; by right |]. intros E'. apply Hni. rewrite E, <- E'.
      by apply (list_elem_of_fmap_2 ce_Label).
  - intros [->|Hc]%elem_of_cons; [left; split; [apply elem_of_cons; by left | done] |].
    destruct (IH Hnd Hc) as [[H1 H2]|[H1 [(c1 & H2 & H3 & H4)|[H2 H3]]]].
    + left. split; [apply elem_of_cons; by right | done].
    + right. split; [done |]. left. exists c1. split; [apply elem_of_cons; by right | done].
    + right. split; [done |]. right. split; [| done]. apply not_elem_of_cons. by split.
Qed.

Lemma of_tool_self e : be_Label e <> RebillLabel -> of_tool (toolNameOf (be_Label e)) e = true.
Proof. intros H. unfold of_tool. rewrite String.eqb_refl. by destruct (String.eqb_spec (be_Label e) RebillLabel). Qed.

Lemma filter_snoc {A} (p : A -> bool) l x : List.filter p (l ++ [x]) = List.filter p l ++ (if p x then [x] else []).
Proof. by rewrite List.filter_app. Qed.

Lemma list_filter_nil_of {A} (p : A -> bool) l : (forall x, x ∈ l -> p x = false) -> List.filter p l = [].
Proof.
  induction l as [|x l IH]; [done |]. intros H. cbn. rewrite H by (apply elem_of_cons; by left). apply IH.
  intros y Hy. apply H, elem_of_cons. by right.
Qed.

Lemma tabled_nil : tabled [] [].
Proof. split; [constructor |]. repeat split; intros x Hx; by apply not_elem_of_nil in Hx. Qed.

Lemma tabled_step es t e : tabled es t -> tabled (es ++ [e]) (enter_step t e).
Proof.
  intros (Hnd & Htok & Hall & Hfrom). unfold enter_step.
  destruct (String.eqb_spec (be_Label e) RebillLabel) as [Er|Er].
  - assert (forall name, of_tool name e = false) as Hoff by
      (intros name; unfold of_tool; by destruct (String.eqb_spec (be_Label e) RebillLabel)).
    repeat split; [done | | |].
    + intros c Hc. rewrite filter_snoc, Hoff, app_nil_r. by apply Htok.
    + intros e' [He| ->%list_elem_of_singleton]%elem_of_app Hne; [by apply Hall | done].
    + intros c Hc. destruct (Hfrom c Hc) as (e' & He & Hof). exists e'. split; [apply elem_of_app; by left | done].
  - set (name := toolNameOf (be_Label e)) in *.
    assert (of_tool name e = true) as Hself by by apply of_tool_self.
    assert (forall n, n <> name -> of_tool n e = false) as Hoff.
    { intros n Hn. unfold of_tool. fold name. destruct (String.eqb_spec name n); [congruence | by rewrite andb_false_r]. }
    assert (forall l, l ∈ List.map ce_Label t -> l ∈ List.map ce_Label (add_entry e name t)) as Hmono.
    { intros l Hl. destruct (add_entry_labels e name t) as [->|[_ ->]]; [done | apply elem_of_app; by left]. }
    repeat split.
    + destruct (add_entry_labels e name t) as [->|[Hni ->]]; [done |].
      apply NoDup_app. split; [done |]. split; [| apply NoDup_singleton].
      intros x Hx ->%list_elem_of_singleton. by apply Hni.
    + intros c Hc. rewrite filter_snoc. destruct (add_entry_elem e name t c Hnd Hc) as [[Hin Hne]|[Hl H]].
      * rewrite (Hoff _ Hne), app_nil_r. by apply Htok.
      * rewrite Hl, Hself, tokens_of_snoc. destruct H as [(c0 & Hin & Hl0 & ->)|[Hni ->]]; cbn [counted ce_Tokens].
        -- by rewrite (Htok c0 Hin), Hl0.
        -- cbn [fresh_entry ce_Tokens]. f_equal. assert (List.filter (of_tool name) es = []) as ->; [| done].
           apply list_filter_nil_of. intros e' He. destruct (of_tool name e') eqn:Ho; [| done]. exfalso. apply Hni.
           unfold of_tool in Ho. apply andb_true_iff in Ho as [H1%negb_true_iff%String.eqb_neq H2%String.eqb_eq].
           rewrite <- H2. by apply Hall.
    + intros e' [He| ->%list_elem_of_singleton]%elem_of_app Hne; [by apply Hmono, Hall |]. fold name.
      destruct (add_entry_labels e name t) as [Hl|[_ ->]]; [| apply elem_of_app; right; by apply list_elem_of_singleton].
      rewrite Hl. clear -Hl. induction t as [|c t IH]; [done |]. cbn in *.
      destruct (String.eqb_spec (ce_Label c) name) as [->|_]; [apply elem_of_cons; by left |].
      cbn in Hl. injection Hl as Hl. apply elem_of_cons. right. by apply IH.
    + intros c Hc. destruct (add_entry_elem e name t c Hnd Hc) as [[Hin Hne]|[Hl H]].
      * destruct (Hfrom c Hin) as (e' & He & Hof). exists e'. split; [apply elem_of_app; by left | done].
      * exists e. split; [apply elem_of_app; right; by apply list_elem_of_singleton | by rewrite Hl].
Qed.

Lemma tabled_all es : tabled es (fold_left enter_step es []).
Proof.
  induction es as [|e es IH] using rev_ind; [apply tabled_nil |]. rewrite fold_left_app. by apply tabled_step.
Qed.

Lemma with_share_keeps total c : ce_Label (with_share total c) = ce_Label c /\ ce_Tokens (with_share total c) = ce_Tokens c.
Proof. unfold with_share. by destruct (0 <? total). Qed.

Lemma shares_labels total t : List.map ce_Label (List.map (with_share total) t) = List.map ce_Label t.
Proof. rewrite List.map_map. apply List.map_ext. intros c. apply with_share_keeps. Qed.

#[export] Instance heavier_weak : StrictWeak heavier.
Proof.
  split; unfold heavier, in_order; intros x y; [lia |]. intros z. lia.
Qed.

(** What entered the context is the attribution by tool: every tool once,
    the largest first, each with the tokens of all its entries and no other's,
    and no entry left out but the tokens billed again. *)
Lemma every_token_is_shown_once es :
  NoDup (List.map ce_Label (EnteredContext es)) /\
  StronglySorted (in_order heavier) (EnteredContext es) /\
  (forall c, c ∈ EnteredContext es -> ce_Tokens c = tokens_of (List.filter (of_tool (ce_Label c)) es)) /\
  (forall e, e ∈ es -> be_Label e <> RebillLabel -> exists c, c ∈ EnteredContext es /\ of_tool (ce_Label c) e = true).
Proof.
  destruct (tabled_all es) as (Hnd & Htok & Hall & _). unfold EnteredContext.
  set (t := fold_left enter_step es []) in *. set (u := List.map (with_share (total_tokens t)) t).
  pose proof (SliceStable_perm heavier u) as Hp.
  assert (forall c, c ∈ u -> exists c0, c0 ∈ t /\ ce_Label c = ce_Label c0 /\ ce_Tokens c = ce_Tokens c0) as Hu.
  { intros c Hc. apply list_elem_of_fmap in Hc as (c0 & -> & Hc). exists c0. split; [done | apply with_share_keeps]. }
  split; [| split; [apply (SliceStable_StronglySorted heavier) | split]].
  - assert (List.map ce_Label (SliceStable heavier u) ≡ₚ List.map ce_Label u) as -> by by apply Permutation_map.
    unfold u. by rewrite shares_labels.
  - intros c Hc. rewrite Hp in Hc. apply Hu in Hc as (c0 & Hc & -> & ->). by apply Htok.
  - intros e He Hne. pose proof (Hall e He Hne) as Hl. rewrite <- (shares_labels (total_tokens t)) in Hl. fold u in Hl.
    apply list_elem_of_fmap in Hl as (c & Hl & Hc). exists c. split; [by rewrite Hp |].
    rewrite <- Hl. by apply of_tool_self.
Qed.

(** ** The note *)

Definition shrank (prev cur : Request) : bool :=
  (0 <? PromptTotal (req_Usage prev)) && (PromptTotal (req_Usage cur) <? PromptTotal (req_Usage prev)).

Fixpoint shrinks (prev : Request) (rs : list Request) : Z :=
  match rs with
  | [] => 0
  | r :: rs => (if shrank prev r then 1 else 0) + shrinks r rs
  end.

Definition sum (f : Request -> Z) (rs : list Request) : Z := fold_right (fun r n => f r + n) 0 rs.

Lemma shrinks_bound rs : forall prev, 0 <= shrinks prev rs <= Z.of_nat (length rs).
Proof. induction rs as [|r rs IH]; intros prev; cbn; [lia |]. specialize (IH r). destruct (shrank prev r); lia. Qed.

Lemma sum_nonneg f rs : Forall (fun r => 0 <= f r) rs -> 0 <= sum f rs.
Proof. unfold sum. induction 1; cbn; lia. Qed.

(** A lane whose counters stay in range. *)
Record counts_ok (rs : list Request) : Prop := {
  co_cleared : Forall (fun r => 0 <= ClearedTokens r) rs;
  co_edits : Forall (fun r => 0 <= AppliedEdits r) rs;
  co_cleared_sum : sum ClearedTokens rs <= max_int64;
  co_edits_sum : sum AppliedEdits rs <= max_int64;
  co_length : Z.of_nat (length rs) <= max_int64
}.

Lemma lane_steps recorded rs : forall k prev cleared edits shrunk,
  (1 <= k)%nat -> 0 <= cleared -> 0 <= edits -> 0 <= shrunk ->
  Forall (fun r => 0 <= ClearedTokens r) rs -> Forall (fun r => 0 <= AppliedEdits r) rs ->
  cleared + sum ClearedTokens rs <= max_int64 -> edits + sum AppliedEdits rs <= max_int64 ->
  shrunk + Z.of_nat (length rs) <= max_int64 ->
  (fold_left (lane_step recorded) (imap (fun j r => ((k + j)%nat, r)) rs) (cleared, edits, shrunk, PromptTotal (req_Usage prev))).1
  = (cleared + sum ClearedTokens rs, edits + sum AppliedEdits rs, shrunk + (if recorded =? 0 then shrinks prev rs else 0)).
Proof.
  induction rs as [|r rs IH]; intros k prev cleared edits shrunk Hk H1 H2 H3 Hc He Bc Be Bs; cbn [imap fold_left sum shrinks fold_right length] in *.
  { unfold sum. destruct (recorded =? 0); cbn; by rewrite !Z.add_0_r. }
  apply Forall_cons in Hc as [Hc Hcs], He as [He Hes].
  pose proof (sum_nonneg _ _ Hcs). pose proof (sum_nonneg _ _ Hes). unfold sum in *.
  assert (forall A B (f : nat -> A -> B) l, imap (f ∘ S) l = imap (fun j r => f (S j) r) l) as Hs by done.
  unfold lane_step at 2. rewrite Nat.add_0_r. destruct (Nat.eqb_spec k 0) as [?|_]; [lia |]. cbn [negb andb].
  assert (cleared +! ClearedTokens r = cleared + ClearedTokens r) as -> by lia_int.
  assert (edits +! AppliedEdits r = edits + AppliedEdits r) as -> by lia_int.
  rewrite Hs. assert (imap (fun j r0 => ((k + S j)%nat, r0)) rs = imap (fun j r0 => ((S k + j)%nat, r0)) rs) as ->.
  { apply imap_ext. intros; f_equal; lia. }
  replace ((recorded =? 0) && true && (0 <? PromptTotal (req_Usage prev)) && (PromptTotal (req_Usage r) <? PromptTotal (req_Usage prev)))
    with ((recorded =? 0) && shrank prev r) by (unfold shrank; by rewrite andb_true_r, andb_assoc).
  rewrite IH; try lia; try done.
  - unfold sum. rewrite !Z.add_assoc. f_equal.
    destruct (recorded =? 0); cbn [andb]; [| done]. destruct (shrank prev r); [| lia].
    assert (shrunk +! 1 = shrunk + 1) as -> by lia_int. lia.
  - destruct ((recorded =? 0) && shrank prev r); [| done]. assert (shrunk +! 1 = shrunk + 1) as -> by lia_int. lia.
  - destruct ((recorded =? 0) && shrank prev r); [| lia]. assert (shrunk +! 1 = shrunk + 1) as -> by lia_int. lia.
Qed.

Definition shrinks_of (rs : list Request) : Z := match rs with [] => 0 | r :: rs => shrinks r rs end.

Lemma lane_counts recorded rs :
  counts_ok rs ->
  (fold_left (lane_step recorded) (indexed rs) (0, 0, 0, 0)).1
  = (sum ClearedTokens rs, sum AppliedEdits rs, if recorded =? 0 then shrinks_of rs else 0).
Proof.
  intros [Hc He Bc Be Bl]. destruct rs as [|r rs]; [by destruct (recorded =? 0) |].
  apply Forall_cons in Hc as [Hc Hcs], He as [He Hes]. cbn [sum fold_right length] in Bc, Be, Bl.
  pose proof (sum_nonneg _ _ Hcs) as S1. pose proof (sum_nonneg _ _ Hes) as S2. unfold sum in *.
  unfold indexed. cbn [imap fold_left]. unfold lane_step at 2. cbn [Nat.eqb negb]. rewrite andb_false_r. cbn [andb].
  assert (0 +! ClearedTokens r = ClearedTokens r) as -> by lia_int.
  assert (0 +! AppliedEdits r = AppliedEdits r) as -> by lia_int.
  assert (imap (pair ∘ S) rs = imap (fun j r0 => ((1 + j)%nat, r0)) rs) as -> by done.
  rewrite lane_steps; try done; unfold sum; try lia.
Qed.

Lemma shrinks_none rs : forall prev, shrinks prev rs = 0 <->
  forall j a b, (prev :: rs) !! j = Some a -> (prev :: rs) !! S j = Some b -> shrank a b = false.
Proof.
  induction rs as [|r rs IH]; intros prev; cbn [shrinks].
  { split; [intros _ [|j] a b; cbn; done | done]. }
  pose proof (shrinks_bound rs r) as Hb. split.
  - intros H. assert (shrank prev r = false /\ shrinks r rs = 0) as [Hs Hr] by (destruct (shrank prev r); split; (done || lia)).
    intros [|j] a b; cbn; [by intros [= <-] [= <-] |]. rewrite IH in Hr. apply (Hr j).
  - intros H. rewrite (H O prev r eq_refl eq_refl). assert (shrinks r rs = 0) as ->; [| done].
    apply IH. intros j a b Ha Hb'. by apply (H (S j) a b).
Qed.

Lemma shrinks_of_none rs : shrinks_of rs = 0 <->
  forall j a b, rs !! j = Some a -> rs !! S j = Some b -> shrank a b = false.
Proof. destruct rs as [|r rs]; [split; [intros _ j a b H; done | done] | apply shrinks_none]. Qed.

Lemma sum_zero f rs : Forall (fun r => 0 <= f r) rs -> sum f rs <= 0 <-> Forall (fun r => f r = 0) rs.
Proof.
  unfold sum. induction 1 as [|r rs Hr Hrs IH]; cbn; [split; [constructor | lia] |].
  pose proof (sum_nonneg _ _ Hrs) as Hs. unfold sum in Hs. rewrite Forall_cons, <- IH. lia.
Qed.

Lemma Note_complete g : Note g = complete_note <-> Overstated g = false /\ Partial g = false.
Proof.
  unfold Note. split.
  - destruct (Overstated g), (Partial g); cbn [negb andb]; try done; intros H; exfalso;
      unfold partial_note, complete_note in H; cbn [append] in H; discriminate H.
  - by intros [-> ->].
Qed.

(** The note says a session is complete exactly when it is: the reported
    lane is its only one, the client recorded no compaction, and along the lane
    the provider cleared nothing, applied no edit, and no prompt shrank. *)
Lemma complete_means_nothing_left s l i attributed :
  Lanes s !! i = Some l -> counts_ok (Requests l) ->
  Z.of_nat (length (Lanes s)) <= max_int64 ->
  Z.of_nat (length (Compactions s)) + Z.of_nat (length (Requests l)) <= max_int64 ->
  Note (MeasureGap (Some s) (Some l) (Some i) attributed) = complete_note <->
  Lanes s = [l] /\ Compactions s = [] /\
  Forall (fun r => ClearedTokens r = 0 /\ AppliedEdits r = 0) (Requests l) /\
  (forall j a b, Requests l !! j = Some a -> Requests l !! S j = Some b -> shrank a b = false).
Proof.
  intros Hi Hok Hl Hc. rewrite Note_complete. unfold MeasureGap.
  destruct (fold_left (count_lane (Some i)) (indexed (Lanes s)) (0, 0, 0)) as [[segments omitted] segment_omitted].
  pose proof (lane_counts (Z.of_nat (length (Compactions s))) _ Hok) as Hlane.
  destruct (fold_left (lane_step _) (indexed (Requests l)) (0, 0, 0, 0)) as [[[cleared edits] shrunk] prev].
  injection Hlane as -> -> Hsh. destruct Hok as [Hcl Hed _ _ _]. unfold Overstated, Partial.
  cbn [gap_ClearedTokens gap_ContextEdits gap_Compactions CompactedTokens LanesTotal LanesReported].
  rewrite !orb_false_iff, andb_false_iff, !Z.ltb_ge, <- shrinks_of_none.
  rewrite (sum_zero _ _ Hcl), (sum_zero _ _ Hed), Forall_and.
  pose proof (sum_nonneg _ _ Hcl). pose proof (sum_nonneg _ _ Hed).
  assert (0 <= shrinks_of (Requests l) <= Z.of_nat (length (Requests l))) as Hb.
  { destruct (Requests l) as [|r rs]; cbn [shrinks_of length]; [lia |]. pose proof (shrinks_bound rs r). lia. }
  assert (0 <= shrunk <= Z.of_nat (length (Requests l))) as Hb' by (destruct (_ =? 0); lia).
  assert (Z.of_nat (length (Compactions s)) +! shrunk = Z.of_nat (length (Compactions s)) + shrunk) as -> by lia_int.
  split.
  - intros [[[[H1 H2] H3] H4] H5]. assert (Compactions s = []) as Hn by (destruct (Compactions s); [done | cbn in *; lia]).
    rewrite Hn in *. change (shrunk = shrinks_of (Requests l)) in Hsh. change (0 + shrunk <= 0) in H3. split; [| split; [done | split; [done |]]]; [| lia].
    destruct (Lanes s) as [|l0 [|l1 ls]]; [done | | cbn in H5; lia]. destruct i; [by injection Hi as -> | done].
  - intros (Hs & Hn & [H1 H2] & H3). rewrite Hs, Hn in *. change (shrunk = shrinks_of (Requests l)) in Hsh. cbn. subst shrunk. repeat split; try done; lia.
Qed.

Definition one_lane (compactions : list Compaction) : Session :=
  mkSession "s1" "" SourceTranscript [two_turns] 0 0 0 (mkFailures ∅ 0) 0 "" "" compactions.

Lemma two_turns_ok : counts_ok (Requests two_turns).
Proof. split; [repeat constructor; done | repeat constructor; done | | |]; vm_compute; intros H; discriminate H. Qed.

Lemma complete_means_nothing_left_witness :
  Note (MeasureGap (Some (one_lane [])) (Some two_turns) (Some O) 100) = complete_note.
Proof.
  refine (proj2 (complete_means_nothing_left (one_lane []) two_turns 0 100 eq_refl two_turns_ok _ _) _).
  - vm_compute. intros H. discriminate H.
  - vm_compute. intros H. discriminate H.
  - split; [reflexivity |]. split; [reflexivity |]. split; [repeat constructor; done |].
    intros [|[|j]] a b Ha Hb; cbn in Ha, Hb; try discriminate Ha; try discriminate Hb.
    injection Ha as <-. injection Hb as <-. vm_compute. reflexivity.
Defined.

(** ** Ceilings *)

Lemma fold_max l : forall a, let m := fold_left Z.max l a in (m = a \/ m ∈ l) /\ a <= m /\ Forall (fun x => x <= m) l.
Proof.
  induction l as [|x l IH]; intros a; cbn [fold_left]; [split; [by left | split; [lia | constructor]] |].
  destruct (IH (Z.max a x)) as (H1 & H2 & H3). cbv zeta in *. split; [| split; [lia | constructor; [lia | done]]].
  destruct H1 as [H1|H1]; [| right; apply elem_of_cons; by right].
  destruct (Z.max_spec a x) as [[_ E]|[_ E]]; rewrite E in *; [right; apply elem_of_cons; by left | by left].
Qed.

(** A ceiling that is shown was reached, by one of at least ten compactions and
    none larger; one withheld shows no figure. *)
Lemma a_ceiling_shown_was_reached sessions model c :
  Ceiling.BuildContextCeilings sessions !! model = Some c ->
  exists sizes, Ceiling.sizes_of sessions !! model = Some sizes /\ Ceiling.ceil_N c = Z.of_nat (length sizes) /\
    match Ceiling.ceil_Status c with
    | Ceiling.Available => 10 <= Ceiling.ceil_N c /\ Ceiling.Max_ c ∈ sizes /\ Forall (fun n => n <= Ceiling.Max_ c) sizes
    | _ => Ceiling.Max_ c = 0
    end.
Proof.
  unfold Ceiling.BuildContextCeilings. rewrite lookup_fmap. intros (sizes & Hs & ->)%fmap_Some. exists sizes. split; [done |].
  unfold Ceiling.ceiling_of. destruct (_ <? Ceiling.minContextCeilingRecords) eqn:E; [done |].
  destruct (_ || _); [done |]. cbn. split; [done |]. apply Z.ltb_ge in E. unfold Ceiling.minContextCeilingRecords in E.
  destruct sizes as [|x sizes]; [cbn in E; lia |]. cbn [tail List.hd]. destruct (fold_max sizes x) as (H1 & H2 & H3).
  split; [lia |]. split; [| by constructor]. destruct H1 as [-> | H1]; apply elem_of_cons; [by left | by right].
Qed.

End GapSpec.
