(* ===== verification/Breaks.v ===== *)
(** Classifying cache breaks ([src/internal/analysis/diff.go]).

    The evidence sentence of each break ([Detail]) is left out. *)

From S2P Require Import Prelude GoString GoFloat GoTime Transcript CacheRules CachePrices.
From S2P Require Import CacheVerdict Calibrate Fit.
From Stdlib Require Import Ascii String SpecFloat.

Open Scope string_scope.
Open Scope list_scope.
Open Scope Z_scope.

Module Breaks.
Import Transcript CachePrices CacheVerdict Calibrate Fit.

#[local] Abbreviation length := List.length.

Record Break := mkBreak {
  br_Turn : Turn;
  br_Deficit : Z;
  br_Cause : BreakCause;
  MessageIndex : Z;
  br_Label : string
}.

Definition rerenderTolerance : float64 := of_ratio 10 100.

Definition firstLabel (m : Message) : string :=
  match Blocks m with [] => Role m | b :: _ => Label b end.

Definition firstLabelOrEmpty (ctx : list Message) (i : Z) : string :=
  if (i <? 0) || (Z.of_nat (length ctx) <=? i) then ""
  else match ctx !! Z.to_nat i with Some m => firstLabel m | None => "" end.

Definition same_message (a b : Message) : bool :=
  String.eqb (UUID a) (UUID b) && (Message_Bytes a =? Message_Bytes b).

(** The loop over the shared length. *)
Fixpoint first_difference (i : Z) (prev cur : list Message) : option (Z * string) :=
  match prev, cur with
  | p :: prev, c :: cur => if same_message p c then first_difference (i + 1) prev cur else Some (i, firstLabel c)
  | _, _ => None
  end.

Definition firstDivergence (prev cur : list Message) : option (Z * string) :=
  match first_difference 0 prev cur with
  | Some d => Some d
  | None => if (length cur <? length prev)%nat then Some (Z.of_nat (length cur), "history truncated") else None
  end.

(** The walk over the context, [acc] tokens into it at message [i]. *)
Fixpoint walk (fit : TokenFit) (tokens acc i : Z) (ctx : list Message) : option (Z * string) :=
  match ctx with
  | [] => None
  | m :: ctx => let acc := acc +! EstimateTokens fit (Message_Bytes m) in
                if tokens <=? acc then Some (i, firstLabel m) else walk fit tokens acc (i + 1) ctx
  end.

Definition locateByTokens (ctx : list Message) (tokens : Z) (fit : TokenFit) : Z * string :=
  if tokens <=? 0 then (0, firstLabelOrEmpty ctx 0)
  else match walk fit tokens 0 0 ctx with
       | Some r => r
       | None => let n := Z.of_nat (length ctx) - 1 in (n, firstLabelOrEmpty ctx n)
       end.

(** [math.Abs(float64(actual)-unseen) <= unseen*rerenderTolerance] *)
Definition about_the_prefix (fit : TokenFit) (actual : Z) : bool :=
  let unseen := of_int (Total (UnseenPrefix fit)) in
  fltb f0 unseen && fleb (SFabs (of_int actual - unseen)%float) (unseen * rerenderTolerance)%float.

(** [classify]; [None] is the nil dereference of a broken turn without a
    predecessor, which [Calibrate] never produces. *)
Definition classify (t : Turn) (fit : TokenFit) : option Break :=
  prev ← Previous t;
  let cur := turn_Request t in
  let deficit := Expected t -! Actual t in
  let named c := mkBreak t deficit c (-1) "" in
  Some (
    if String.eqb (turn_Correlation t) CorrelationLaneOverlap then named CauseNotMeasured
    else match ClassifyBreakForModel (req_Usage prev) (req_Usage cur) (Model prev) (Model cur) (Gap t) with
    | Some c => named c
    | None =>
        if negb (String.eqb (Effort prev) (Effort cur)) && negb (String.eqb (Effort prev) "")
           && negb (String.eqb (Effort cur) "") then named CauseEffortChange
        else match firstDivergence (Context prev) (Context cur) with
        | Some (i, l) => mkBreak t deficit CauseHistoryEdit i l
        | None =>
            if about_the_prefix fit (Actual t)
            then mkBreak t deficit CauseRerendered 0 (firstLabelOrEmpty (Context cur) 0)
            else let '(i, l) := locateByTokens (Context cur) (Actual t -! Total (UnseenPrefix fit)) fit in
                 mkBreak t deficit CauseUnknown i l
        end
    end).

Definition broken (t : Turn) : bool := bool_decide (Outcome t = ReadBroken).

Definition FindBreaks (cal : Calibration) (fit : TokenFit) : option (list Break) :=
  mapM (fun t => classify t fit) (filter (fun t => broken t = true) (Turns cal)).

(** ** Where two histories part *)

(** The histories agree on the first [n] messages. *)
Definition agree (n : nat) (prev cur : list Message) : Prop :=
  forall i p c, (i < n)%nat -> prev !! i = Some p -> cur !! i = Some c -> same_message p c = true.

Lemma first_difference_some prev : forall cur i j l,
  first_difference i prev cur = Some (j, l) ->
  exists n p c, j = i + Z.of_nat n /\ agree n prev cur /\ prev !! n = Some p /\ cur !! n = Some c /\
    same_message p c = false /\ l = firstLabel c.
Proof.
  induction prev as [|p prev IH]; intros [|c cur] i j l; try done. cbn [first_difference].
  destruct (same_message p c) eqn:E.
  - intros (n & p' & c' & -> & Ha & Hp & Hc & Hne & ->)%IH. exists (S n), p', c'.
    split_and!; [lia | | done | done | done | done].
    intros [|k] a b Hk Ha' Hb'; cbn in *; [congruence |]. eapply Ha; [| done | done]. lia.
  - intros [= <- <-]. exists 0%nat, p, c. split_and!; [lia | | done | done | done | done].
    intros k a b Hk. lia.
Qed.

Lemma first_difference_none prev : forall cur i,
  first_difference i prev cur = None -> agree (length prev) prev cur.
Proof.
  induction prev as [|p prev IH]; intros [|c cur] i; cbn [first_difference]; intros H k a b Hk Ha Hb; try done.
  destruct (same_message p c) eqn:E; [| done]. destruct k as [|k]; cbn in *; [congruence |].
  eapply (IH cur (i + 1) H k); [lia | done | done].
Qed.

(** The position named is the first at which the histories part: a message
    that is another one, or where the new history stops short. *)
Lemma firstDivergence_some prev cur i l :
  firstDivergence prev cur = Some (i, l) ->
  exists n, i = Z.of_nat n /\ agree n prev cur /\ (n <= length cur)%nat /\ (n < length prev)%nat /\
    ((exists p c, prev !! n = Some p /\ cur !! n = Some c /\ same_message p c = false /\ l = firstLabel c) \/
     n = length cur).
Proof.
  unfold firstDivergence. destruct (first_difference 0 prev cur) as [d|] eqn:E.
  - intros [= ->]. apply first_difference_some in E as (n & p & c & -> & Ha & Hp & Hc & Hne & ->).
    exists n. split_and!; [lia | done | | | left; by exists p, c].
    + apply lookup_lt_Some in Hc. lia.
    + by apply lookup_lt_Some in Hp.
  - apply first_difference_none in E. destruct (length cur <? length prev)%nat eqn:Hl; [| done].
    apply Nat.ltb_lt in Hl. intros [= <- <-]. exists (length cur). split_and!; [done | | lia | lia | by right].
    intros k a b Hk. apply E. lia.
Qed.

(** No position is named exactly when the new history extends the old one. *)
Lemma firstDivergence_none prev cur :
  firstDivergence prev cur = None <-> (length prev <= length cur)%nat /\ agree (length prev) prev cur.
Proof.
  unfold firstDivergence. split.
  - destruct (first_difference 0 prev cur) eqn:E; [done |]. apply first_difference_none in E.
    destruct (length cur <? length prev)%nat eqn:Hl; [done |]. apply Nat.ltb_ge in Hl. done.
  - intros [Hl Ha]. destruct (first_difference 0 prev cur) as [[j l]|] eqn:E.
    + apply first_difference_some in E as (n & p & c & _ & _ & Hp & Hc & Hne & _).
      rewrite (Ha n p c) in Hne; [done | by apply lookup_lt_Some in Hp | done | done].
    + assert ((length cur <? length prev)%nat = false) as -> by (apply Nat.ltb_ge; lia). done.
Qed.

Lemma walk_range fit tokens ctx : forall acc i j l,
  walk fit tokens acc i ctx = Some (j, l) -> i <= j < i + Z.of_nat (length ctx).
Proof.
  induction ctx as [|m ctx IH]; intros acc i j l; [done |]. cbn [walk length].
  destruct (tokens <=? _); [intros [= <- <-]; lia |]. intros H%IH. lia.
Qed.

Lemma locateByTokens_range ctx tokens fit :
  ctx <> [] -> 0 <= (locateByTokens ctx tokens fit).1 < Z.of_nat (length ctx).
Proof.
  intros Hne. assert (0 < length ctx)%nat by (destruct ctx; [done | cbn; lia]).
  unfold locateByTokens. destruct (tokens <=? 0); [cbn; lia |].
  destruct (walk fit tokens 0 0 ctx) as [[j l]|] eqn:E; [| cbn; lia].
  apply walk_range in E. cbn. lia.
Qed.

(** ** Every break is explained *)

(** What usage and timing alone can name. *)
Definition usage_cause (c : BreakCause) : bool :=
  match c with
  | CauseTTLExpired | CauseModelChanged | CausePrefixChange | CauseNoRules | CauseBelowMinPrefix => true
  | _ => false
  end.

Lemma ClassifyBreakForModel_usage p c pm m g k :
  ClassifyBreakForModel p c pm m g = Some k -> usage_cause k = true.
Proof.
  unfold ClassifyBreakForModel, ClassifyBreakWith.
  repeat (case_match; try done); by intros [= <-].
Qed.

(** The new history carries every message of the old one, unchanged, first. *)
Definition extends (prev cur : list Message) : Prop :=
  (length prev <= length cur)%nat /\ agree (length prev) prev cur.

(** *** The specification

    What is published of a model's cache: Astra models keep an entry half an
    hour, the others that are known as long as the write that made it asked
    for, an hour or five minutes. *)
Definition published (model : string) : Prop :=
  contains (to_lower model) "gpt-6-astra" = true \/ foreignModel model = false.

Definition lifetime (r : Request) : duration :=
  if contains (to_lower (Model r)) "gpt-6-astra" then 30 * minute else TTLOf (req_Usage r).

Definition expired_before (t : Turn) (prev : Request) : Prop := published (Model prev) /\ lifetime prev < Gap t.

(** What usage, timing and the model's name leave open. *)
Definition silent (t : Turn) (prev : Request) : Prop :=
  turn_Correlation t <> CorrelationLaneOverlap /\ ~ expired_before t prev /\
  Model prev = Model (turn_Request t) /\ CacheRead (req_Usage (turn_Request t)) <> 0.

Definition effort_changed (prev cur : Request) : Prop :=
  Effort prev <> Effort cur /\ Effort prev <> "" /\ Effort cur <> "".

(** What was read is, within a tenth, the part of the prompt no transcript
    shows. *)
Definition reads_the_unseen (fit : TokenFit) (actual : Z) : Prop :=
  let unseen := of_int (Measured (UnseenPrefix fit) +! Estimated (UnseenPrefix fit)) in
  fltb f0 unseen = true /\ fleb (SFabs (of_int actual - unseen)%float) (unseen * of_ratio 10 100)%float = true.

(** When a break is of cause [c] and placed at [i]. *)
Definition explains (fit : TokenFit) (t : Turn) (prev : Request) (c : BreakCause) (i : Z) : Prop :=
  let cur := turn_Request t in
  match c with
  | CauseNotMeasured => turn_Correlation t = CorrelationLaneOverlap /\ i = -1
  | CauseTTLExpired => turn_Correlation t <> CorrelationLaneOverlap /\ expired_before t prev /\ i = -1
  | CauseModelChanged =>
      turn_Correlation t <> CorrelationLaneOverlap /\ ~ expired_before t prev /\ Model prev <> Model cur /\ i = -1
  | CausePrefixChange =>
      turn_Correlation t <> CorrelationLaneOverlap /\ ~ expired_before t prev /\ Model prev = Model cur /\
      CacheRead (req_Usage cur) = 0 /\ published (Model prev) /\ i = -1
  | CauseNoRules =>
      turn_Correlation t <> CorrelationLaneOverlap /\ Model prev = Model cur /\
      CacheRead (req_Usage cur) = 0 /\ ~ published (Model prev) /\ i = -1
  | CauseEffortChange => silent t prev /\ effort_changed prev cur /\ i = -1
  | CauseHistoryEdit =>
      silent t prev /\ ~ effort_changed prev cur /\
      exists n, i = Z.of_nat n /\ agree n (Context prev) (Context cur) /\
        ((exists a b, Context prev !! n = Some a /\ Context cur !! n = Some b /\ same_message a b = false) \/
         (n = length (Context cur) /\ (n < length (Context prev))%nat))
  | CauseRerendered =>
      silent t prev /\ ~ effort_changed prev cur /\ extends (Context prev) (Context cur) /\
      reads_the_unseen fit (Actual t) /\ i = 0
  | CauseUnknown =>
      silent t prev /\ ~ effort_changed prev cur /\ extends (Context prev) (Context cur) /\
      ~ reads_the_unseen fit (Actual t) /\ (Context cur <> [] -> 0 <= i < Z.of_nat (length (Context cur)))
  | CauseToolsChanged | CauseSystemChanged | CauseBelowMinPrefix => False
  end.

Lemma published_spec model : HasRulesForModel model = true <-> published model.
Proof. unfold HasRulesForModel, published. change astraModelSubstring with "gpt-6-astra". rewrite orb_true_iff, negb_true_iff. done. Qed.

Lemma lifetime_spec r : ttlFor (RulesForModel (Model r)) (req_Usage r) = lifetime r.
Proof.
  unfold RulesForModel, lifetime. change astraModelSubstring with "gpt-6-astra".
  by destruct (contains (to_lower (Model r)) "gpt-6-astra").
Qed.

(** The causes usage and timing name, and what is left when they name none. *)
Lemma usage_explains fit t prev :
  turn_Correlation t <> CorrelationLaneOverlap ->
  match ClassifyBreakForModel (req_Usage prev) (req_Usage (turn_Request t)) (Model prev) (Model (turn_Request t)) (Gap t) with
  | Some c => explains fit t prev c (-1) /\ c <> CauseNotMeasured
  | None => silent t prev
  end.
Proof.
  intros Ho. unfold ClassifyBreakForModel, ClassifyBreakWith. rewrite Bool.andb_false_r, lifetime_spec. cbn [andb].
  pose proof (published_spec (Model prev)) as Hpub.
  destruct (HasRulesForModel (Model prev)) eqn:Hr; cbn [negb].
  - assert (published (Model prev)) as Hp by (by apply Hpub).
    destruct (Z.ltb_spec (lifetime prev) (Gap t)); [by split; [| done] |].
    assert (~ expired_before t prev) as Hne by (unfold expired_before; intros [_ ?]; lia).
    destruct (String.eqb_spec (Model prev) (Model (turn_Request t))); cbn [negb]; [| by split; [| done]].
    destruct (Z.eqb_spec (CacheRead (req_Usage (turn_Request t))) 0); [by split; [| done] |]. by split_and!.
  - assert (~ published (Model prev)) as Hp by (intros H; apply Hpub in H; done).
    assert (~ expired_before t prev) as Hne by (by intros [? _]).
    destruct (String.eqb_spec (Model prev) (Model (turn_Request t))); cbn [negb]; [| by split; [| done]].
    destruct (Z.eqb_spec (CacheRead (req_Usage (turn_Request t))) 0); [by split; [| done] |]. by split_and!.
Qed.

Lemma about_the_prefix_spec fit actual : about_the_prefix fit actual = true <-> reads_the_unseen fit actual.
Proof. unfold about_the_prefix, reads_the_unseen. by rewrite andb_true_iff. Qed.

Lemma classify_explains t fit prev :
  Previous t = Some prev ->
  exists b, classify t fit = Some b /\ br_Turn b = t /\ br_Deficit b = Expected t -! Actual t /\
    explains fit t prev (br_Cause b) (MessageIndex b).
Proof.
  intros Hp. unfold classify. rewrite Hp. cbn [mbind option_bind]. eexists. split; [reflexivity |].
  destruct (String.eqb_spec (turn_Correlation t) CorrelationLaneOverlap) as [Ho|Ho]; [done |].
  pose proof (usage_explains fit t prev Ho) as Hu.
  destruct (ClassifyBreakForModel _ _ _ _ _) as [k|] eqn:Ek; [by destruct Hu |].
  destruct (negb (String.eqb (Effort prev) _) && _ && _) eqn:Ee.
  { cbn. do 3 (split; [done |]). split; [| done]. apply andb_true_iff in Ee as [[E1 E2]%andb_true_iff E3].
    apply negb_true_iff in E1, E2, E3. apply String.eqb_neq in E1, E2, E3. by split_and!. }
  assert (~ effort_changed prev (turn_Request t)) as Hne.
  { intros (H1 & H2 & H3). apply String.eqb_neq in H1, H2, H3. by rewrite H1, H2, H3 in Ee. }
  destruct (firstDivergence _ _) as [[i l]|] eqn:Ed.
  { apply firstDivergence_some in Ed as (n & -> & Ha & _ & Hn & Hcase). cbn. split_and!; try done.
    exists n. split_and!; [done | done |].
    destruct Hcase as [(a & b & H1 & H2 & H3 & _) | H]; [left; by exists a, b | by right]. }
  apply firstDivergence_none in Ed. pose proof (about_the_prefix_spec fit (Actual t)) as Hab.
  destruct (about_the_prefix fit (Actual t)); [cbn; split_and!; try done; by apply Hab |].
  assert (~ reads_the_unseen fit (Actual t)) as Hna by (intros H; apply Hab in H; done).
  pose proof (locateByTokens_range (Context (turn_Request t)) (Actual t -! Total (UnseenPrefix fit)) fit) as Hl.
  destruct (locateByTokens _ _ _) as [i l]. by cbn.
Qed.

(** No turn is of two causes: the first that applies is named. *)
Lemma edit_not_extends prev cur n :
  (exists a b, prev !! n = Some a /\ cur !! n = Some b /\ same_message a b = false) \/
  (n = length cur /\ (n < length prev)%nat) -> extends prev cur -> False.
Proof.
  intros [(x & y & Hx & Hy & Hd) | [-> ?]] [Hl He]; [| lia].
  rewrite (He n x y) in Hd; [done | by apply lookup_lt_Some in Hx | done | done].
Qed.

Lemma explains_once fit t prev c c' i i' : explains fit t prev c i -> explains fit t prev c' i' -> c = c'.
Proof.
  unfold explains, silent, expired_before. destruct c, c'; try done; intros H H'; exfalso; try tauto.
  all: first [destruct H as (_ & _ & n & _ & _ & Hc), H' as (_ & _ & He & _); by eapply edit_not_extends
             | destruct H' as (_ & _ & n & _ & _ & Hc), H as (_ & _ & He & _); by eapply edit_not_extends].
Qed.

Lemma next_turn_broken i prev req :
  usage_ok (req_Usage prev) -> usage_ok (req_Usage req) ->
  Outcome (next_turn i prev req) = ReadBroken ->
  Actual (next_turn i prev req) < Expected (next_turn i prev req) /\
  0 < Expected (next_turn i prev req) -! Actual (next_turn i prev req).
Proof.
  intros Hp Hr. unfold next_turn, ClassifyRead. pose proof (ExpectedRead_exact _ Hp) as He.
  destruct Hp, Hr. destruct (CacheRead (req_Usage req) =? _) eqn:E1; [done |].
  destruct (_ <? CacheRead (req_Usage req)) eqn:E2; [done |]. reflect_bool. cbn. intros _.
  split; [lia |]. rewrite He in *. lia_int.
Qed.

(** C36: every cache break is explained.  In a calibrated lane with sane usage
    the breaks are exactly the broken turns, in order, each with a positive
    deficit and the cause that applies to it: none is named where requests of
    the lane overlapped; otherwise, the first of these that holds.  The entry's
    published lifetime had run out before the request; the model is another;
    nothing was read, which for a model with no published rules names no cause;
    the effort is another; the histories part, and the edit is placed where they
    first do, or where the new one stops short of the old; the new history
    extends the old and what was read is, within a tenth, the prefix no
    transcript shows; or else an unknown block, placed at a message of the
    request.  At most one cause applies to a turn. *)
Theorem every_break_is_explained :
  forall lane fit,
    Forall (fun r => usage_ok (req_Usage r)) (Requests lane) ->
    exists bs, FindBreaks (Calibrate lane) fit = Some bs /\
      List.map br_Turn bs = filter (fun t => broken t = true) (Turns (Calibrate lane)) /\
      Forall (fun b => 0 < br_Deficit b /\
        exists prev, Previous (br_Turn b) = Some prev /\
          explains fit (br_Turn b) prev (br_Cause b) (MessageIndex b) /\
          forall c i, explains fit (br_Turn b) prev c i -> c = br_Cause b) bs.
Proof.
  intros lane fit Hu. unfold FindBreaks. destruct (Calibrate_turns lane) as [-> _].
  assert (Forall (fun t => broken t = true /\ exists prev, Previous t = Some prev /\ 0 < Expected t -! Actual t)
            (filter (fun t => broken t = true) (turns_of (Requests lane)))) as Hts.
  { apply Forall_forall. intros t [Hb Ht]%list_elem_of_filter. split; [done |].
    apply list_elem_of_lookup in Ht as [i Hi]. pose proof (turns_of_previous _ _ _ Hi) as [Hp Ho].
    unfold broken in Hb. apply bool_decide_eq_true_1 in Hb.
    destruct i as [|i]; [destruct Ho as [_ Ho]; rewrite (Ho eq_refl) in Hb; done |].
    destruct (Requests lane) as [|r rs] eqn:Er; [done |]. cbn [turns_of] in Hi.
    destruct (next_turns_lookup rs 1 r i t Hi) as (req & Hreq & Hprev & Heq).
    rewrite Hp in Hprev, Heq.
    destruct ((r :: rs) !! i) as [prev|] eqn:Ep;
      [| exfalso; apply lookup_ge_None in Ep; apply lookup_lt_Some in Hreq; cbn in Ep; lia].
    exists prev. split; [by rewrite Hp |]. cbn [default] in Heq. rewrite Forall_lookup in Hu.
    rewrite Heq in Hb |- *. apply next_turn_broken; [by apply (Hu i) | by apply (Hu (S i)) | done]. }
  induction Hts as [|t ts [_ (prev & Hp & Hd)] _ (bs & Hbs & Hmap & Hall)]; [by exists [] |].
  destruct (classify_explains t fit prev Hp) as (b & Hc & Ht & Hdef & Hex). exists (b :: bs).
  cbn [mapM]. rewrite Hc. cbn [mbind option_bind]. rewrite Hbs. split; [done |].
  split; [cbn; by rewrite Ht, Hmap |]. constructor; [| done]. rewrite Ht, Hdef. split; [done |].
  exists prev. split_and!; [done | done |]. intros c i Hci. by eapply explains_once.
Qed.

(** A lane that reads its prefix, then edits a message and reads less of it. *)
Definition edited_lane : Lane :=
  let msg id := mkMessage id "user" 0 [mkBlock KindText "user text" 4000 "" "" "" "" false None] in
  let req at_ read creation ctx :=
    mkRequest "r" false false CorrelationLaneSerial "claude-opus-5" "" "" at_
      (mkUsage 10 creation read 50 0 creation 0 true) ctx None 0 0 [] in
  mkLane "l" false false
    [req second 0 5000 [msg "p"; msg "a"]; req (2 * second) 5000 100 [msg "p"; msg "a"; msg "b"];
     req (3 * second) 2000 3200 [msg "p"; msg "c"; msg "b"]].

Definition default_fit : TokenFit := mkFit DefaultTokensPerByte f0 0 (mkTokens 0 0) (mkTokens 0 0).

Lemma every_break_is_explained_witness :
  (List.map (fun b => (br_Deficit b, br_Cause b, MessageIndex b)) <$>
     FindBreaks (Calibrate edited_lane) default_fit) = Some [(3100, CauseHistoryEdit, 1)] /\
  exists bs, FindBreaks (Calibrate edited_lane) default_fit = Some bs /\ Forall (fun b => 0 < br_Deficit b) bs.
Proof.
  split; [vm_compute; reflexivity |].
  destruct (every_break_is_explained edited_lane default_fit) as (bs & Hbs & _ & Hall).
  - repeat (apply List.Forall_cons; [split; vm_compute; intuition discriminate |]). apply List.Forall_nil.
  - exists bs. split; [exact Hbs |]. eapply List.Forall_impl; [| exact Hall]. intros b [Hb _]. exact Hb.
Defined.

End Breaks.
