(* ===== verification/Reports.v ===== *)
(** The report of a lane ([src/internal/analysis/report.go]): what is computed
    for it, the policies it is scored under, and the notes of its header; what
    a whole session cost ([sessionspend.go]); and how well the rules held up
    model by model, the newest lanes apart ([staleness.go]).

    The tables [WriteReplay] prints are left out. *)

From S2P Require Import Prelude GoString GoFloat GoTime Transcript Tenancy CacheRules CachePrices CacheVerdict.
From S2P Require Import Calibrate Fit Replay Json Labels GoMath Blame Waste Gap Breaks.
From Stdlib Require Import Ascii String.

Open Scope string_scope.
Open Scope list_scope.
Open Scope Z_scope.

Module Reports.
Import CachePrices Transcript Fit Calibrate Replay Blame Waste Print Breaks.

#[local] Abbreviation length := List.length.

(** ** A lane *)

Record LaneReport := mkReport {
  rep_Session : option Session;
  rep_Lane : option Lane;
  rep_Calibration : option Calibration;
  rep_Fit : TokenFit;
  rep_Breaks : list Break;
  rep_Blame : list BlameEntry;
  rep_Errors : list ErrorCost;
  rep_Evidence : ErrorEvidence;
  rep_ReReads : ReReads
}.

Section report.
Context `{PL : Pricing.PriceLayer} (it : iteration).

Definition AnalyzeLane (s : Session) (lane : Lane) : option LaneReport :=
  let cal := Calibrate lane in
  fit ← Fit cal (PrefixVisible (ses_Source s));
  let '(errs, evidence) := ErrorCosts cal fit in
  breaks ← FindBreaks cal fit;
  blame ← Blame it cal fit;
  Some (mkReport (Some s) (Some lane) (Some cal) fit breaks blame errs evidence (CountReReads cal fit)).

Definition AnalyzeEveryLane (s : Session) : option (list LaneReport) := mapM (AnalyzeLane s) (Lanes s).

Definition contextEditTriggerShares : list float64 := [of_ratio 5 10; of_ratio 75 100].
Definition ContextEditKeepLast : Z := 6.

Definition largest_prompt (lane : Lane) : Z := fold_left (fun n r => Z.max n (PromptTotal (req_Usage r))) (Requests lane) 0.

Definition contextEditPolicies (lane : Lane) : list ContextEditPolicy :=
  List.map (fun share => mkEdit ContextEditKeepLast (to_int (of_int (largest_prompt lane) * share)%float)) contextEditTriggerShares.

(** As it ran, and, for a lane that calibrates, under each alternative. *)
Definition Policies (lane : Lane) (cal : Calibration) (fit : TokenFit) : option (list Tally) :=
  if negb (Passes cal) then Some [AsRun lane]
  else
    ttls ← mapM (WithTTL cal) [TTLShort; TTLLong];
    edits ← mapM (fun p => WithContextEdit cal p fit) (contextEditPolicies lane);
    Some (AsRun lane :: ttls ++ edits).

(** ** A session *)

Record SessionSpend := mkSpend {
  sp_Tally : Tally;
  sp_Lanes : Z;
  Duplicated : Z;
  Epochs : list string;
  EpochsMeasured : bool;
  Unidentified : Z
}.

Record spend_state := mkSpendState {
  ss_tally : Tally;
  ss_duplicated : Z;
  ss_unidentified : Z;
  ss_seen : gset string;
  ss_epochs : gset string
}.

Definition spend_step (st : spend_state) (req : Request) : spend_state :=
  if negb (String.eqb (ID req) "") && bool_decide (ID req ∈ ss_seen st)
  then mkSpendState (ss_tally st) (ss_duplicated st +! 1) (ss_unidentified st) (ss_seen st) (ss_epochs st)
  else
    mkSpendState (AddAt (ss_tally st) (req_Usage req) (Model req) (Timestamp req)) (ss_duplicated st)
      (if String.eqb (ID req) "" then ss_unidentified st +! 1 else ss_unidentified st)
      (if String.eqb (ID req) "" then ss_seen st else {[ID req]} ∪ ss_seen st)
      (if String.eqb (Epoch req) "" then ss_epochs st else {[Epoch req]} ∪ ss_epochs st).

Definition no_spend : spend_state := mkSpendState zero_tally 0 0 ∅ ∅.

Definition session_requests (s : Session) : list Request := flat_map Requests (Lanes s).

Definition AsRunSession (s : option Session) : SessionSpend :=
  match s with
  | None => mkSpend zero_tally 0 0 [] false 0
  | Some s =>
      let st := fold_left spend_step (session_requests s) no_spend in
      mkSpend (ss_tally st) (Z.of_nat (length (Lanes s))) (ss_duplicated st)
        (SliceStable String.ltb (elements (ss_epochs st))) (EpochsObservable (ses_Source s)) (ss_unidentified st)
  end.

Definition MixedEpochs (s : SessionSpend) : bool := EpochsMeasured s && (1 <? Z.of_nat (length (Epochs s))).

End report.

(** ** The header's notes *)

Definition formatTokens (n : Z) : string :=
  if 1000000 <=? n then (FormatFloat 2 (of_int n / of_int 1000000)%float ++ "M")%string
  else if 10000 <=? n then (FormatFloat 0 (of_int n / of_int 1000)%float ++ "k")%string
  else if 1000 <=? n then (FormatFloat 1 (of_int n / of_int 1000)%float ++ "k")%string
  else itoa n.

Definition errorBar (f : Figure) : string := if fig_ErrorMeasured f then formatTokens (Error f) else "not measured".

Fixpoint before_dash (s : string) : option string :=
  match s with
  | EmptyString => None
  | String c rest => if Ascii.eqb c "-" then Some "" else option_map (String c) (before_dash rest)
  end.

Definition shortID (id : string) : string :=
  match before_dash id with
  | Some (String _ _ as head) => head
  | _ => if 8 <? len id then substring 0 8 id else id
  end.

Definition schemaMismatch (s : Session) : string :=
  let n := SchemaMismatch s in
  if n =? 0 then ""
  else
    let '(noun, were, they) := if n =? 1 then ("record", "was", "It") else ("records", "were", "They") in
    ("Note: " ++ itoa n ++ " ledger " ++ noun ++ " " ++ were ++ " written under a different schema version and " ++ were ++
     " not read. " ++ they ++ " parsed, so nothing is missing from the file." ++ String (ascii_of_nat 10) "")%string.

(** The codes in order. *)
Definition status_part (kv : Z * Z) : string := (itoa kv.1 ++ " x" ++ itoa kv.2)%string.

Definition by_code (a b : Z * Z) : bool := a.1 <? b.1.

Definition providerFailures (s : Session) : string :=
  let pf := ses_Failures s in
  let byStatus := Failures_Total pf -! NoStatus pf in
  ((if (0 <? byStatus)%Z then
      "Note: " ++ plural byStatus "recorded request" ++ " carried an HTTP status of 400 or above: " ++
      String.concat ", " (List.map status_part (SliceStable by_code (map_to_list (ByStatus pf)))) ++ String (ascii_of_nat 10) ""
    else "") ++
   (if (0 <? NoStatus pf)%Z then
      "Note: " ++ plural (NoStatus pf) "recorded request" ++ " obtained no HTTP status" ++ String (ascii_of_nat 10) ""
    else ""))%string.

Definition omitted_requests (s : Session) (reported : nat) : Z :=
  fold_left (fun n il => if bool_decide (il.1 = reported) then n else n +! Z.of_nat (length (Requests il.2)))
    (indexed (Lanes s)) 0.

Definition laneScope (s : Session) (reported : nat) : string :=
  let total := Z.of_nat (length (Lanes s)) in
  let omitted := omitted_requests s reported in
  if (total <? 2) || (omitted =? 0) then ""
  else ("Scope: 1 of " ++ itoa total ++ " lanes; " ++ itoa omitted ++
        " requests in this session's other lanes are not counted here." ++ String (ascii_of_nat 10) "")%string.

(** ** Staleness *)

Definition StalenessRecentLanes : Z := 5.
Definition StalenessMinLanes : Z := 3.
Definition StalenessMinTurns : Z := 20.

Record MinPrefixFit := mkMinPrefix { mp_Rule : Z; LargestUncached : Z; SmallestCached : Z }.

Definition Conclusive (f : MinPrefixFit) : bool :=
  (0 <? LargestUncached f) && (0 <? SmallestCached f) && (LargestUncached f <? SmallestCached f).

Definition Disagrees (f : MinPrefixFit) : bool :=
  if (0 <? LargestUncached f) && (mp_Rule f <=? LargestUncached f) then true
  else (0 <? SmallestCached f) && (SmallestCached f <? mp_Rule f).

Definition MinPrefix_String (f : MinPrefixFit) : string :=
  if (SmallestCached f =? 0) && (LargestUncached f =? 0) then
    ("minimum cacheable prefix: no evidence (rules say " ++ itoa (mp_Rule f) ++ " tokens)")%string
  else if SmallestCached f =? 0 then
    ("minimum cacheable prefix: above " ++ itoa (LargestUncached f) ++ " tokens, nothing cached yet (rules say " ++ itoa (mp_Rule f) ++ ")")%string
  else if LargestUncached f =? 0 then
    ("minimum cacheable prefix: at most " ++ itoa (SmallestCached f) ++ " tokens, no uncached prompt seen (rules say " ++ itoa (mp_Rule f) ++ ")")%string
  else if negb (Conclusive f) then
    ("minimum cacheable prefix: inconclusive, a " ++ itoa (LargestUncached f) ++ "-token prompt was uncached while a " ++
     itoa (SmallestCached f) ++ "-token prefix was cached (rules say " ++ itoa (mp_Rule f) ++ ")")%string
  else
    ("minimum cacheable prefix: between " ++ itoa (LargestUncached f +! 1) ++ " and " ++ itoa (SmallestCached f) ++
     " tokens (rules say " ++ itoa (mp_Rule f) ++ ")")%string.

Record ModelCalibration := mkModelCal {
  mc_Model : string;
  mc_Sessions : Z;
  mc_Lanes : Z;
  mc_Compared : Z;
  mc_Matched : Z;
  mc_Exact : Z;
  RecentLanes : Z;
  RecentCompared : Z;
  RecentMatched : Z;
  RecentExact : Z;
  RecentFailing : Z;
  Stale : bool;
  mc_Reason : string;
  mc_MinPrefix : MinPrefixFit
}.

Definition rate (matched compared : Z) : float64 :=
  if compared =? 0 then f0 else (of_int matched / of_int compared)%float.

Definition mc_MatchRate (m : ModelCalibration) : float64 := rate (mc_Matched m) (mc_Compared m).
Definition RecentMatchRate (m : ModelCalibration) : float64 := rate (RecentMatched m) (RecentCompared m).
Definition mc_ExactRate (m : ModelCalibration) : float64 := rate (mc_Exact m) (mc_Compared m).
Definition RecentExactRate (m : ModelCalibration) : float64 := rate (RecentExact m) (RecentCompared m).

(** A lane that can be judged: its requests and its calibration. *)
Definition judged : Type := LaneReport * Request * list Request * Calibration.

Definition judged_of (rep : LaneReport) : option judged :=
  lane ← rep_Lane rep; cal ← rep_Calibration rep;
  match Requests lane with
  | [] => None
  | first :: _ => Some (rep, first, Requests lane, cal)
  end.

Definition session_name (j : judged) : string :=
  let '(rep, _, _, _) := j in match rep_Session rep with Some s => ses_ID s | None => "" end.

Definition distinct_step (acc : Z * gset string) (j : judged) : Z * gset string :=
  let '(n, seen) := acc in
  let id := session_name j in
  if String.eqb id "" then (n +! 1, seen)
  else if bool_decide (id ∈ seen) then (n, seen) else (n +! 1, {[id]} ∪ seen).

Definition distinctSessions (js : list judged) : Z := (fold_left distinct_step js (0, ∅)).1.

Definition first_seen (a b : judged) : bool :=
  let '(_, ra, _, _) := a in let '(_, rb, _, _) := b in Before (Timestamp ra) (Timestamp rb).

Definition min_prefix_step (f : MinPrefixFit) (req : Request) : MinPrefixFit :=
  let u := req_Usage req in
  let cached := CacheCreation u +! CacheRead u in
  if cached =? 0 then mkMinPrefix (mp_Rule f) (Z.max (LargestUncached f) (Input u)) (SmallestCached f)
  else if (SmallestCached f =? 0) || (cached <? SmallestCached f) then mkMinPrefix (mp_Rule f) (LargestUncached f) cached
  else f.

Definition judge_step (recentFrom : Z) (m : ModelCalibration) (ij : nat * judged) : ModelCalibration :=
  let '(i, (_, _, reqs, cal)) := ij in
  let matched := Reproduced cal +! Exceeded cal in
  let recent := recentFrom <=? Z.of_nat i in
  let plus (b : bool) (n d : Z) := if b then n +! d else n in
  mkModelCal (mc_Model m) (mc_Sessions m) (mc_Lanes m) (mc_Compared m +! Compared cal) (mc_Matched m +! matched)
    (mc_Exact m +! Reproduced cal) (plus recent (RecentLanes m) 1) (plus recent (RecentCompared m) (Compared cal))
    (plus recent (RecentMatched m) matched) (plus recent (RecentExact m) (Reproduced cal))
    (plus (recent && negb (Passes cal)) (RecentFailing m) 1) (Stale m) (mc_Reason m)
    (fold_left min_prefix_step reqs (mc_MinPrefix m)).

Definition stale_reason (m : ModelCalibration) (earlierRate : float64) : string :=
  ("provider behavior changed: " ++ itoa (RecentFailing m) ++ " of the newest " ++ itoa (RecentLanes m) ++
   " lanes fall below the calibration threshold (" ++ FormatFloat 0 (RecentMatchRate m * of_int 100)%float ++ "% together) after " ++
   FormatFloat 0 (earlierRate * of_int 100)%float ++ "% on the " ++ itoa (mc_Lanes m -! RecentLanes m) ++
   " lanes before them; alternatives are not scored for this model")%string.

(** Enough recent lanes failing each, after lanes that calibrated. *)
Definition with_verdict (m : ModelCalibration) : ModelCalibration :=
  let earlierCompared := mc_Compared m -! RecentCompared m in
  let earlierRate := rate (mc_Matched m -! RecentMatched m) earlierCompared in
  if (StalenessMinLanes <=? RecentFailing m) && (StalenessMinTurns <=? RecentCompared m)
     && (StalenessMinTurns <=? earlierCompared) && fleb CalibrationThreshold earlierRate
  then mkModelCal (mc_Model m) (mc_Sessions m) (mc_Lanes m) (mc_Compared m) (mc_Matched m) (mc_Exact m) (RecentLanes m)
         (RecentCompared m) (RecentMatched m) (RecentExact m) (RecentFailing m) true (stale_reason m earlierRate) (mc_MinPrefix m)
  else m.

Section staleness.
Context (ov : option CacheRules.Rules).

Definition modelCalibration (model : string) (js : list judged) : ModelCalibration :=
  let js := SliceStable first_seen js in
  let n := Z.of_nat (length js) in
  let recentFrom := Z.max 0 (n -! StalenessRecentLanes) in
  with_verdict (fold_left (judge_step recentFrom) (indexed js)
    (mkModelCal model (distinctSessions js) n 0 0 0 0 0 0 0 0 false "" (mkMinPrefix (MinCacheablePrefix ov model) 0 0))).

Definition model_of (j : judged) : string := let '(_, first, _, _) := j in Model first.

Definition group_judged (m : gmap string (list judged)) (j : judged) : gmap string (list judged) :=
  <[model_of j := default [] (m !! model_of j) ++ [j]]> m.

Definition by_model (js : list judged) : gmap string (list judged) := fold_left group_judged js ∅.

Definition by_name (a b : string * list judged) : bool := String.ltb a.1 b.1.

Definition ModelCalibrations (reports : list LaneReport) : list ModelCalibration :=
  List.map (fun kv => modelCalibration kv.1 kv.2) (SliceStable by_name (map_to_list (by_model (omap judged_of reports)))).

End staleness.

Definition StaleModels (cals : list ModelCalibration) : gset string :=
  fold_left (fun out c => if Stale c then {[mc_Model c]} ∪ out else out) cals ∅.

End Reports.

(** A session's cost counts every request once, and a model is called stale
    only on the evidence of its newest lanes. *)

Module ReportsSpec.
Import CachePrices Transcript Fit Calibrate Replay Reports.

#[local] Abbreviation length := List.length.

(** ** Every request once *)

Definition identified (r : Request) : bool := negb (String.eqb (ID r) "").

#[local] Abbreviation named := (List.filter identified).
#[local] Abbreviation nameless := (List.filter (fun r => negb (identified r))).

(** [kept] is [all] without the requests whose id came before. *)
Record once (all kept : list Request) : Prop := {
  on_sublist : kept `sublist_of` all;
  on_nodup : NoDup (List.map ID (named kept));
  on_nameless : nameless kept = nameless all;
  on_ids : forall r, r ∈ all -> identified r = true -> ID r ∈ List.map ID (named kept)
}.

Section spend.
Context `{PL : Pricing.PriceLayer}.

Definition spent_so_far (all kept : list Request) (st : spend_state) : Prop :=
  once all kept /\ ss_tally st = fold_left add_request kept zero_tally /\
  ss_duplicated st = Z.of_nat (length all) - Z.of_nat (length kept) /\
  ss_unidentified st = Z.of_nat (length (nameless all)) /\
  (forall id, id ∈ ss_seen st <-> id ∈ List.map ID (named kept)) /\
  (forall e, e ∈ ss_epochs st <-> e <> "" /\ e ∈ List.map Epoch kept).

Lemma once_drop all kept r :
  once all kept -> identified r = true -> ID r ∈ List.map ID (named kept) -> once (all ++ [r]) kept.
Proof.
  intros [H1 H2 H3 H4] Hr Hin. split; [by apply sublist_inserts_r | done | |].
  - rewrite List.filter_app, H3. cbn. by rewrite Hr, app_nil_r.
  - intros r' [Hr'| ->%list_elem_of_singleton]%elem_of_app Hi; [by apply H4 | done].
Qed.

Lemma once_keep all kept r :
  once all kept -> (identified r = true -> ID r ∉ List.map ID (named kept)) -> once (all ++ [r]) (kept ++ [r]).
Proof.
  intros [H1 H2 H3 H4] Hr. split; [by apply sublist_app | | |].
  - rewrite List.filter_app, List.map_app. cbn. destruct (identified r) eqn:E; cbn; [| by rewrite app_nil_r].
    apply NoDup_app. split; [done |]. split; [| apply NoDup_singleton].
    intros x Hx ->%list_elem_of_singleton. by apply Hr.
  - rewrite !List.filter_app, H3. done.
  - intros r' Hin Hi. rewrite List.filter_app, List.map_app. apply elem_of_app.
    apply elem_of_app in Hin as [Hin| ->%list_elem_of_singleton]; [left; by apply H4 | right].
    cbn. rewrite Hi. by apply list_elem_of_singleton.
Qed.

Lemma spent_step all kept st r :
  Z.of_nat (length all) < max_int64 -> spent_so_far all kept st ->
  exists kept', spent_so_far (all ++ [r]) kept' (spend_step st r).
Proof.
  intros Hl (Ho & Ht & Hd & Hu & Hs & He). unfold spend_step.
  assert (Z.of_nat (length kept) <= Z.of_nat (length all)) as Hk by (apply inj_le, sublist_length, Ho).
  assert (Z.of_nat (length (nameless all)) <= Z.of_nat (length all)) as Hn by (apply inj_le, List.filter_length_le).
  fold (identified r). destruct (identified r && bool_decide (ID r ∈ ss_seen st)) eqn:E.
  - apply andb_true_iff in E as [Hi E%bool_decide_eq_true]. rewrite Hs in E. exists kept.
    split; [by apply once_drop |]. cbn. split; [done |]. rewrite length_app. cbn [List.length].
    rewrite Hd. split; [lia_int |]. split; [| done]. rewrite List.filter_app. cbn. by rewrite Hi, app_nil_r.
  - assert (identified r = true -> ID r ∉ List.map ID (named kept)) as Hni.
    { intros Hi. rewrite Hi in E. cbn in E. apply bool_decide_eq_false in E. by rewrite Hs in E. }
    exists (kept ++ [r]). split; [by apply once_keep |]. cbn [ss_tally ss_duplicated ss_unidentified ss_seen ss_epochs].
    rewrite fold_left_app, <- Ht. split; [done |]. rewrite !length_app. cbn [List.length]. split; [lia |].
    rewrite !List.filter_app, length_app, List.map_app. cbn [List.filter].
    split; [| split].
    + rewrite Hu. unfold identified in *. destruct (String.eqb (ID r) ""); cbn [negb List.length] in *; lia_int.
    + intros id. unfold identified at 2. destruct (String.eqb (ID r) ""); cbn [negb List.map];
        rewrite ?app_nil_r, ?elem_of_union, ?elem_of_singleton, ?elem_of_app, ?list_elem_of_singleton, Hs; tauto.
    + intros e. rewrite List.map_app, elem_of_app. cbn [List.map]. rewrite list_elem_of_singleton.
      destruct (String.eqb_spec (Epoch r) "") as [Ee|Ee]; rewrite ?elem_of_union, ?elem_of_singleton, He;
        [rewrite Ee |]; intuition congruence.
Qed.

Lemma spent_all all : Z.of_nat (length all) <= max_int64 -> exists kept, spent_so_far all kept (fold_left spend_step all no_spend).
Proof.
  induction all as [|r all IH] using rev_ind; intros Hl.
  - exists []. split; [by split; [| constructor | | intros r Hr; apply not_elem_of_nil in Hr] |].
    cbn. repeat split; try done; intros H; set_solver.
  - rewrite length_app in Hl. cbn in Hl. destruct IH as [kept Hk]; [lia |]. rewrite fold_left_app.
    apply (spent_step _ kept); [lia | done].
Qed.

(** What a session cost is the cost of its requests, every lane's, each
    once: of the requests that share an id the first is priced and the others
    are counted as duplicates, a request without an id is always priced, and
    the epochs reported are those the priced requests ran under. *)
Lemma a_session_prices_every_request_once s :
  Z.of_nat (length (session_requests s)) <= max_int64 ->
  exists kept, once (session_requests s) kept /\
    sp_Tally (AsRunSession (Some s)) = fold_left add_request kept zero_tally /\
    Duplicated (AsRunSession (Some s)) = Z.of_nat (length (session_requests s)) - Z.of_nat (length kept) /\
    Unidentified (AsRunSession (Some s)) = Z.of_nat (length (nameless (session_requests s))) /\
    (forall e, e ∈ Epochs (AsRunSession (Some s)) <-> e <> "" /\ e ∈ List.map Epoch kept).
Proof.
  intros Hl. destruct (spent_all _ Hl) as (kept & Ho & Ht & Hd & Hu & _ & He). exists kept.
  split; [done | split; [done | split; [done | split; [done |]]]]. intros e. cbn [Epochs AsRunSession].
  by rewrite SliceStable_perm, elem_of_elements.
Qed.

End spend.

#[local] Instance compiled : Pricing.PriceLayer := Pricing.cachemodel None.

Definition turn_of (id epoch : string) (at_ : time) : Request :=
  mkRequest id true false "" "claude-opus-5" "" epoch at_ (mkUsage 10 5000 0 200 0 5000 0 true) [] None 0 0 [].

(** A lane restarted in a second one: its first request is recorded again. *)
Definition recorded_twice : Session :=
  mkSession "s1" "" SourceLedger
    [mkLane "a" false false [turn_of "r1" "e1" (1 * second); turn_of "" "e1" (2 * second)];
     mkLane "b" false true [turn_of "r1" "e2" (1 * second); turn_of "r2" "e3" (3 * second)]]
    0 0 0 (mkFailures ∅ 0) 0 "" "" [].

Lemma a_session_prices_every_request_once_witness :
  exists kept, once (session_requests recorded_twice) kept /\
    sp_Tally (AsRunSession (Some recorded_twice)) = fold_left add_request kept zero_tally /\
    Duplicated (AsRunSession (Some recorded_twice)) = Z.of_nat (length (session_requests recorded_twice)) - Z.of_nat (length kept) /\
    Unidentified (AsRunSession (Some recorded_twice)) = Z.of_nat (length (nameless (session_requests recorded_twice))) /\
    (forall e, e ∈ Epochs (AsRunSession (Some recorded_twice)) <-> e <> "" /\ e ∈ List.map Epoch kept).
Proof. apply (a_session_prices_every_request_once recorded_twice). vm_compute. discriminate. Defined.

Example one_is_a_duplicate : Duplicated (AsRunSession (Some recorded_twice)) = 1 /\ MixedEpochs (AsRunSession (Some recorded_twice)) = true.
Proof. by vm_compute. Qed.

(** ** What makes a model stale *)

Section staleness.
Context (ov : option CacheRules.Rules).

Definition calibration_of (j : judged) : Calibration := let '(_, _, _, cal) := j in cal.

Definition failing (j : judged) : bool := negb (Passes (calibration_of j)).

Definition compared (js : list judged) : Z := fold_left (fun n j => n +! Compared (calibration_of j)) js 0.
Definition matched (js : list judged) : Z :=
  fold_left (fun n j => n +! (Reproduced (calibration_of j) +! Exceeded (calibration_of j))) js 0.

(** The lanes in the order they began, split where the newest start. *)
Definition in_order (js : list judged) : list judged := SliceStable first_seen js.
Definition older (js : list judged) : list judged := take (length js - 5) (in_order js).
Definition newest (js : list judged) : list judged := drop (length js - 5) (in_order js).

Record counts_of (from : nat) (m : ModelCalibration) (js : list judged) : Prop := {
  co_lanes : RecentLanes m = Z.of_nat (length (drop from js));
  co_failing : RecentFailing m = Z.of_nat (length (List.filter failing (drop from js)));
  co_recent : RecentCompared m = compared (drop from js);
  co_compared : mc_Compared m = compared js;
  co_recent_matched : RecentMatched m = matched (drop from js);
  co_matched : mc_Matched m = matched js;
  co_not_yet : Stale m = false;
  co_no_reason : mc_Reason m = ""
}.

Lemma drop_last {A} n (l : list A) x :
  ((n <= length l)%nat /\ drop n (l ++ [x]) = drop n l ++ [x]) \/ ((length l < n)%nat /\ drop n l = [] /\ drop n (l ++ [x]) = []).
Proof.
  destruct (decide (n <= length l)%nat) as [Hl|Hl]; [left | right].
  - split; [done |]. by apply drop_app_le.
  - rewrite !drop_ge by (rewrite ?length_app; cbn; lia). repeat split; lia.
Qed.

Lemma judge_one from m js j :
  Z.of_nat (length js) < max_int64 -> counts_of from m js ->
  counts_of from (judge_step (Z.of_nat from) m (length js, j)) (js ++ [j]).
Proof.
  intros Hl [H1 H2 H3 H4 H5 H6 H7 H8].
  destruct (drop_last from js j) as [[Hle Happ]|(Hlt & He & Happ)];
    destruct j as [[[rep first] reqs] cal] eqn:Ej; unfold judge_step; rewrite <- Ej in Happ |- *.
  - assert (length (drop from js) <= length js)%nat as Hd by (rewrite length_drop; lia).
    pose proof (List.filter_length_le failing (drop from js)) as Hf.
    replace (Z.of_nat from <=? Z.of_nat (length js)) with true by lia.
    split; cbn; rewrite ?Happ, ?List.filter_app, ?length_app, ?H1, ?H2, ?H3, ?H4, ?H5, ?H6;
      unfold compared, matched; rewrite ?fold_left_app; try (by subst j); cbn [List.length List.filter]; [lia_int |].
    replace (failing j) with (negb (Passes cal)) by by subst j.
    destruct (Passes cal); cbn [negb andb List.length]; lia_int.
  - replace (Z.of_nat from <=? Z.of_nat (length js)) with false by lia. rewrite He in *.
    split; cbn; rewrite ?Happ, ?H1, ?H2, ?H3, ?H4, ?H5, ?H6; cbn; unfold compared, matched; rewrite ?fold_left_app; by subst j.
Qed.

Lemma judge_all from m js :
  Z.of_nat (length js) <= max_int64 -> counts_of from m [] ->
  counts_of from (fold_left (judge_step (Z.of_nat from)) (indexed js) m) js.
Proof.
  intros Hl Hm. induction js as [|j js IH] using rev_ind; [done |].
  rewrite length_app in Hl. cbn in Hl. unfold indexed in *. rewrite imap_app, fold_left_app. cbn.
  rewrite Nat.add_0_r. apply judge_one; [lia |]. apply IH. lia.
Qed.

(** A model is called stale exactly when at least three of its newest five
    lanes fail calibration each, on twenty compared turns of theirs, while the
    lanes before them matched at the calibration threshold on twenty turns; the
    reason is given with the verdict and with it alone. *)
Lemma stale_on_the_newest_lanes model js :
  Z.of_nat (length js) <= max_int64 ->
  let m := modelCalibration ov model js in
  let earlier := compared (in_order js) -! compared (newest js) in
  (Stale m = true <->
   (3 <= length (List.filter failing (newest js)))%nat /\ 20 <= compared (newest js) /\ 20 <= earlier /\
   fleb CalibrationThreshold (rate (matched (in_order js) -! matched (newest js)) earlier) = true) /\
  (mc_Reason m <> "" <-> Stale m = true) /\ (length (newest js) <= 5)%nat.
Proof.
  intros Hl. cbv zeta. unfold modelCalibration, newest, in_order in *.
  pose proof (Permutation_length (SliceStable_perm first_seen js)) as Hn.
  set (js' := SliceStable first_seen js) in *. rewrite <- Hn in *.
  assert (Z.max 0 (Z.of_nat (length js') -! StalenessRecentLanes) = Z.of_nat (length js' - 5)) as ->.
  { unfold StalenessRecentLanes. lia_int. }
  match goal with |- context [fold_left _ _ ?m0] =>
    pose proof (judge_all (length js' - 5) m0 js' Hl) as [H1 H2 H3 H4 H5 H6 H7 H8]; [split; rewrite ?drop_nil; done |] end.
  set (m := fold_left _ _ _) in *. unfold with_verdict. rewrite H2, H3, H4, H5, H6.
  set (fails := length (List.filter failing _)).
  assert (length (drop (length js' - 5) js') <= 5)%nat as H5' by (rewrite length_drop; lia).
  destruct (((StalenessMinLanes <=? Z.of_nat fails) && _ && _) && fleb _ _) eqn:E.
  - rewrite !andb_true_iff, !Z.leb_le in E. unfold StalenessMinLanes, StalenessMinTurns in E.
    cbn [Stale mc_Reason]. split; [split; [intros _; repeat split; lia || tauto | done] |]. split; [| done].
    split; [done |]. intros _. unfold stale_reason. cbn. discriminate.
  - rewrite H7, H8. split; [| split; [split; intros H; discriminate H || by destruct H | done]].
    split; [discriminate |]. intros (F1 & F2 & F3 & F4). exfalso. rewrite F4, andb_true_r in E.
    rewrite !andb_false_iff, !Z.leb_gt in E. unfold StalenessMinLanes, StalenessMinTurns in E. lia.
Qed.

End staleness.

(** Three calibrated lanes, then five of which four no longer match. *)
Definition judged_lane (at_ : time) (reproduced broken : Z) : judged :=
  let first := turn_of "r" "" at_ in
  let lane := mkLane "lane" false false [first] in
  let cal := mkCalibration lane [] reproduced 0 broken in
  (mkReport None (Some lane) (Some cal) (mkFit f0 f0 0 (measured 0) (measured 0)) [] [] []
     (Waste.mkEvidence 0 0) (Waste.mkReReads 0 0 (mkFigure 0 0 false) 0 0 0 0), first, [first], cal).

Definition changed_provider : list judged :=
  [judged_lane (8 * second) 2 8; judged_lane (1 * second) 20 0; judged_lane (2 * second) 10 0; judged_lane (3 * second) 30 1;
   judged_lane (4 * second) 9 1; judged_lane (5 * second) 10 0; judged_lane (6 * second) 1 9; judged_lane (7 * second) 0 10].

Lemma stale_on_the_newest_lanes_witness :
  Stale (modelCalibration None "claude-opus-5" changed_provider) = true.
Proof.
  apply (stale_on_the_newest_lanes None "claude-opus-5" changed_provider); vm_compute; [discriminate |].
  repeat split; try discriminate; lia.
Defined.

End ReportsSpec.
