(* ===== verification/StatsSpec.v ===== *)
(** The live verdicts are the offline ones: as long as no session is evicted,
    the outcome the proxy names for each response of a lane is the one
    calibrating that lane's ledger gives, whatever else it does in between.  And what the session table keeps
    and drops. *)

From S2P Require Import Prelude GoString GoFloat GoTime Transcript Tenancy Breaker CacheRules CachePrices.
From S2P Require Import CacheVerdict Calibrate Fit Replay Ledger Policy PrefixDelta Stats Breaks.
From Stdlib Require Import Ascii String DecimalString.

Open Scope string_scope.
Open Scope list_scope.
Open Scope Z_scope.

Module StatsSpec.
Import Transcript Tenancy CacheVerdict Pricing Calibrate Fit Replay Ledger PrefixDelta Stats.

#[local] Abbreviation length := List.length.

(** ** The session table *)

Lemma make_room_small it fuel bucket : (size bucket < maxSessions)%nat -> make_room it fuel bucket = bucket.
Proof.
  intros H. destruct fuel; cbn [make_room]; [done |].
  by replace (maxSessions <=? size bucket)%nat with false by (symmetry; apply Nat.leb_gt; lia).
Qed.

Lemma make_room_one it fuel bucket :
  size bucket = maxSessions -> (0 < fuel)%nat -> oldest it bucket ∈ dom bucket ->
  make_room it fuel bucket = delete (oldest it bucket) bucket.
Proof.
  intros Hsize Hfuel Hin. destruct fuel as [|fuel]; [lia |]. cbn [make_room].
  replace (maxSessions <=? size bucket)%nat with true by (symmetry; apply Nat.leb_le; lia).
  apply make_room_small. rewrite map_size_delete_Some by (by apply elem_of_dom).
  rewrite Hsize. unfold maxSessions. lia.
Qed.

Lemma make_room_subset it fuel : forall bucket, make_room it fuel bucket ⊆ bucket.
Proof.
  induction fuel as [|fuel IH]; intros bucket; cbn [make_room]; [done |].
  destruct (maxSessions <=? size bucket)%nat; [| done]. etrans; [apply IH | apply delete_subseteq].
Qed.

Lemma find_put s tn sid st tn' sid' :
  find_session (put_session s tn sid st) tn' sid' = if decide (tn' = tn /\ sid' = sid) then Some st else find_session s tn' sid'.
Proof.
  unfold find_session, put_session. cbn [sessions with_sessions]. destruct (decide (tn' = tn)) as [->|Hne].
  - rewrite inner_insert_eq. destruct (decide (sid' = sid)) as [->|Hs].
    + by rewrite lookup_insert_eq, decide_True.
    + rewrite lookup_insert_ne, decide_False; [done | by intros [_ ?] | done].
  - rewrite inner_insert_ne, decide_False; [done | by intros [? _] | done].
Qed.

(** The sessions of a tenant. *)
Definition names (s : t) (tn : string) : gset string := dom (inner (sessions s) tn).

Lemma names_put s tn sid st tn' :
  names (put_session s tn sid st) tn' = if decide (tn' = tn) then {[sid]} ∪ names s tn else names s tn'.
Proof.
  unfold names, put_session. cbn [sessions with_sessions]. destruct (decide (tn' = tn)) as [->|Hne].
  - by rewrite inner_insert_eq, dom_insert_L.
  - by rewrite inner_insert_ne.
Qed.

(** Whatever it evicts, [session] holds the session asked for and leaves the
    other tenants alone. *)
Lemma session_any it now s tn sid :
  exists s' st, session it now s tn sid = (s', st) /\ find_session s' tn sid = Some st /\
    (forall tn', tn' <> tn -> inner (sessions s') tn' = inner (sessions s) tn').
Proof.
  unfold session. destruct (find_session s tn sid) as [st|] eqn:Hf; [by exists s, st |].
  eexists _, _. split; [reflexivity |]. unfold find_session. cbn [sessions].
  rewrite inner_insert_eq, lookup_insert_eq. split; [done |]. intros tn' Hne. by rewrite inner_insert_ne.
Qed.

(** While a tenant has room, [session] adds the session asked for and changes
    no other. *)
Lemma session_room it now s tn sid :
  (size ({[sid]} ∪ names s tn) <= maxSessions)%nat ->
  exists s' st, session it now s tn sid = (s', st) /\
    find_session s' tn sid = Some st /\ st = default st (find_session s tn sid) /\
    (find_session s tn sid = None -> exists seq, st = new_session now seq) /\
    (forall tn' sid', (tn', sid') <> (tn, sid) -> find_session s' tn' sid' = find_session s tn' sid') /\
    (forall tn', names s' tn' = if decide (tn' = tn) then {[sid]} ∪ names s tn else names s tn') /\
    flags s' = flags s /\ count s' = count s /\ money s' = money s.
Proof.
  intros Hsize. unfold session. destruct (find_session s tn sid) as [st|] eqn:Hf.
  - exists s, st. split_and!; try done. intros tn'. destruct (decide (tn' = tn)) as [->|]; [| done].
    unfold names, find_session in *. apply elem_of_dom_2 in Hf. set_solver.
  - assert (sid ∉ names s tn) as Hni by (unfold names, find_session in *; by apply not_elem_of_dom).
    rewrite size_union in Hsize by set_solver. rewrite size_singleton in Hsize.
    unfold names in Hsize. rewrite size_dom in Hsize.
    rewrite make_room_small by (unfold maxSessions in *; lia).
    eexists _, _. split; [reflexivity |]. unfold find_session, names. cbn [sessions flags count money].
    rewrite inner_insert_eq, lookup_insert_eq. split_and!; try done.
    + intros _. by eexists.
    + intros tn' sid' Hne. destruct (decide (tn' = tn)) as [->|HT].
      * rewrite inner_insert_eq, lookup_insert_ne; [done | by intros ->].
      * by rewrite inner_insert_ne.
    + intros tn'. destruct (decide (tn' = tn)) as [->|HT].
      * by rewrite inner_insert_eq, dom_insert_L.
      * by rewrite inner_insert_ne.
Qed.

(** Seen earlier, or at the same instant but created before. *)
Definition not_after (a b : time * Z) : Prop := a.1 < b.1 \/ (a.1 = b.1 /\ a.2 <= b.2).

Definition stamp (st : sessionState) : time * Z := (ss_lastSeen st, admitted st).

Lemma fold_older l : forall acc,
  acc.1.1 <> "" -> Forall (fun kv : string * sessionState => kv.1 <> "") l ->
  let r := fold_left older l acc in
  (r = acc \/ exists st, (r.1.1, st) ∈ l /\ (r.1.2, r.2) = stamp st) /\
  not_after (r.1.2, r.2) (acc.1.2, acc.2) /\
  Forall (fun kv => not_after (r.1.2, r.2) (stamp kv.2)) l.
Proof.
  induction l as [|[k st] l IH]; intros [[o os] oa] Hacc Hall; cbv zeta; cbn [fold_left].
  { split_and!; [by left | right; cbn; lia | constructor]. }
  inversion Hall as [|? ? Hk Hall']; subst. cbn [fst snd] in *.
  assert (exists acc', older (o, os, oa) (k, st) = acc' /\ acc'.1.1 <> "" /\
            (acc' = (o, os, oa) \/ acc' = (k, ss_lastSeen st, admitted st)) /\
            not_after (acc'.1.2, acc'.2) (os, oa) /\ not_after (acc'.1.2, acc'.2) (stamp st))
    as (acc' & -> & Hne & Hcase & Hle1 & Hle2).
  { unfold older, not_after, stamp, Before. pose proof Hacc as E0. apply String.eqb_neq in E0 as ->. cbn [orb].
    destruct ((ss_lastSeen st <? os) || _) eqn:E; eexists; (split; [reflexivity |]); cbn; (split; [done |]).
    - split; [by right |]. apply orb_true_iff in E as [E|E]; reflect_bool; lia.
    - split; [by left |]. apply orb_false_iff in E as [E1 E2].
      apply andb_false_iff in E2 as [E2|E2]; reflect_bool; lia. }
  destruct (IH acc' Hne Hall') as (Hin & Hmin & Hrest). cbv zeta in *.
  set (r := fold_left older l acc') in *.
  assert (forall b, not_after (acc'.1.2, acc'.2) b -> not_after (r.1.2, r.2) b) as Htrans.
  { unfold not_after in *. cbn in *. intros b. lia. }
  split_and!; [| by apply Htrans | constructor; [by apply Htrans | done]].
  destruct Hin as [Hr | (st' & Hin & Hst)].
  - destruct Hcase as [Ha | Ha]; [left; by rewrite Hr | right; rewrite Hr, Ha].
    exists st. split; [by left | done].
  - right. exists st'. split; [by right | done].
Qed.

(** The victim is the session seen least recently, of those seen at that
    instant the first created. *)
Lemma oldest_session_spec it bucket :
  bucket <> ∅ -> bucket !! "" = None ->
  exists st, bucket !! oldest it bucket = Some st /\
    forall k v, bucket !! k = Some v -> not_after (stamp st) (stamp v).
Proof.
  intros Hne Hempty. unfold oldest. destruct (go_range it bucket) as [|[k st] l] eqn:E.
  { by apply go_range_nil in E. }
  assert (Forall (fun kv : string * sessionState => kv.1 <> "") ((k, st) :: l)) as Hall.
  { rewrite <- E. apply Forall_forall. intros [k' v] Hin. apply elem_of_go_range in Hin. cbn. congruence. }
  inversion Hall as [|? ? Hk Hl]; subst. cbn [fst] in Hk. cbn [fold_left].
  change (older ("", zero_time, 0) (k, st)) with (k, ss_lastSeen st, admitted st).
  destruct (fold_older l (k, ss_lastSeen st, admitted st) Hk Hl) as (Hin & Hle & Hmin). cbv zeta in *.
  set (r := fold_left older l _) in *.
  assert (exists v, bucket !! r.1.1 = Some v /\ stamp v = (r.1.2, r.2)) as (v & Hv & Hs).
  { destruct Hin as [-> | (v & Hv & Hs)].
    - exists st. split; [| done]. apply (elem_of_go_range it). rewrite E. by left.
    - exists v. split; [| done]. apply (elem_of_go_range it). rewrite E. by right. }
  exists v. split; [exact Hv |]. intros k' v' Hv'. rewrite Hs. apply (elem_of_go_range it) in Hv'. rewrite E in Hv'.
  apply elem_of_cons in Hv' as [[= -> ->]|Hv']; [exact Hle |].
  rewrite Forall_forall in Hmin. by apply (Hmin (k', v')).
Qed.

(** The session table is bounded and drops the least recently seen.  Asking
    for a session of a full tenant that is not in the table, no session of it
    being nameless, drops exactly one session, one seen no later than any
    other and of those the first created; the tenant keeps the table's bound,
    every other session of it keeps its state, and no other tenant is touched. *)
Lemma session_drops_the_least_recently_seen :
  forall it now s tn sid,
    find_session s tn sid = None -> sid <> "" ->
    size (inner (sessions s) tn) = maxSessions ->
    find_session s tn "" = None ->
    let '(s', st) := session it now s tn sid in
    exists victim v,
      find_session s tn victim = Some v /\
      (forall k w, find_session s tn k = Some w -> not_after (stamp v) (stamp w)) /\
      find_session s' tn sid = Some st /\ st = new_session now (admittedSeq s') /\
      find_session s' tn victim = None /\
      (forall k, k <> victim -> k <> sid -> find_session s' tn k = find_session s tn k) /\
      size (inner (sessions s') tn) = maxSessions /\
      (forall tn' k, tn' <> tn -> find_session s' tn' k = find_session s tn' k).
Proof.
  intros it now s tn sid Hf Hsid Hsize Hempty. unfold session. rewrite Hf. cbn [sessions admittedSeq].
  unfold find_session in *. set (bucket := inner (sessions s) tn) in *.
  assert (bucket <> ∅) as Hne by (intros E; by rewrite E in Hsize).
  destruct (oldest_session_spec it bucket Hne Hempty) as (v & Hv & Hmin).
  assert (size (delete (oldest it bucket) bucket) = pred maxSessions) as Hdel
    by (rewrite map_size_delete_Some by (by eexists); by rewrite Hsize).
  assert (make_room it (size bucket) bucket = delete (oldest it bucket) bucket) as ->.
  { apply make_room_one; [done | rewrite Hsize; unfold maxSessions; lia | by apply elem_of_dom]. }
  exists (oldest it bucket), v. cbn [sessions admittedSeq]. rewrite inner_insert_eq.
  assert (oldest it bucket <> sid) as Hvs by (intros E; rewrite E in Hv; congruence).
  split_and!; try done.
  - by rewrite lookup_insert_eq.
  - by rewrite lookup_insert_ne, lookup_delete_eq by done.
  - intros k Hkv Hks. by rewrite lookup_insert_ne, lookup_delete_ne by done.
  - rewrite map_size_insert_None; [by rewrite Hdel |]. by rewrite lookup_delete_ne.
  - intros tn' k Hne'. by rewrite inner_insert_ne.
Qed.

(** The other order of a map's keys. *)
Definition reverse_order : iteration :=
  {| go_range := fun V (m : gmap string V) => reverse (map_to_list m);
     go_range_perm := fun V m => reverse_Permutation _ |}.

(** A nameless session, as a request that could be neither read nor named
    leaves behind, is lost by the scan once it is the candidate: here it is the
    one seen least recently, and the session seen last is dropped instead. *)
Lemma a_nameless_session_misleads_the_scan :
  let bucket := <["" := new_session 1 1]> (<["c" := new_session 9 2]> ∅) in
  oldest reverse_order bucket = "c" /\ not_after (stamp (new_session 1 1)) (stamp (new_session 9 2)).
Proof. split; [vm_compute; reflexivity | left; cbn; lia]. Qed.

(** ** Everything that touches a lane *)

Inductive op :=
| OpEnter (mine : nat) (tenant id agent : string)
| OpLeave (mine : nat) (tenant id agent : string)
| OpObserve (tenant : string) (r : Entry)
| OpErrors (tenant id agent : string) (tokens : Z)
| OpPin (tenant id : string) (e : option Policy.ContextEdit) (decision : string) (gen : time)
| OpRefused (kind : string).

(** The session an operation may create. *)
Definition creates (o : op) : option (string * string) :=
  match o with
  | OpEnter _ tn sid _ | OpErrors tn sid _ _ | OpPin tn sid _ _ _ => Some (tn, sid)
  | OpObserve tn r => match rec_Usage r with
                     | Some _ => if String.eqb (SessionID r) "" then None else Some (tn, SessionID r)
                     | None => None
                     end
  | _ => None
  end.

Section run.
Context `{PL : PriceLayer}.

Definition step (it : iteration) (now : time) (s : t) (o : op) : t * option CacheOutcome :=
  match o with
  | OpEnter mine tn sid ag => (enterLane it now mine s tn sid ag, None)
  | OpLeave mine tn sid ag => (leaveLane mine s tn sid ag, None)
  | OpObserve tn r => observe it now s tn r
  | OpErrors tn sid ag n => (setLaneErrors it now s tn sid ag n, None)
  | OpPin tn sid e d g => (pin it now s tn sid e d g, None)
  | OpRefused k => (refused s k, None)
  end.

(** A history: what ran, the map order and the clock each met. *)
Definition history : Type := list (iteration * time * op).

Definition run_step (acc : t * list (op * option CacheOutcome)) (e : iteration * time * op)
    : t * list (op * option CacheOutcome) :=
  let '(it, now, o) := e in
  let '(s, out) := step it now acc.1 o in
  (s, acc.2 ++ [(o, out)]).

Definition run (h : history) : t * list (op * option CacheOutcome) := fold_left run_step h (newStats, []).

(** What classification reads of a lane: all of it but who is in flight. *)
Definition lane_view (s : t) (tn sid ag : string) : option laneState :=
  st ← find_session s tn sid;
  ln ← lanes st !! ag;
  if seen ln then Some (with_open ln ∅) else None.

(** A response whose usage is recorded in this lane. *)
Definition in_lane (tn sid ag : string) (o : op) : option (Entry * Usage) :=
  match o with
  | OpObserve tn' r =>
      u ← rec_Usage r;
      if bool_decide (tn' = tn /\ SessionID r = sid /\ AgentID r = ag) then Some (r, u) else None
  | _ => None
  end.

Definition classified (view : option laneState) (r : Entry) (cur : Usage) : option CacheOutcome :=
  match view with
  | None => None
  | Some ln => classify ln r cur (seen ln && negb (String.eqb (rec_PrefixHash r) (prefixHash ln)))
  end.

Lemma classified_lane st ag r cur :
  classified (ln ← lanes st !! ag; if seen ln then Some (with_open ln ∅) else None) r cur =
    classify (lane st ag) r cur (seen (lane st ag) && negb (String.eqb (rec_PrefixHash r) (prefixHash (lane st ag)))).
Proof.
  unfold lane. destruct (lanes st !! ag) as [ln|]; cbn [mbind option_bind default]; [| done].
  destruct (seen ln) eqn:E; cbn [classified]; [done |]. unfold classify. cbn. by rewrite E.
Qed.

Lemma view_found s tn sid ag :
  lane_view s tn sid ag = match find_session s tn sid with
                      | Some st => ln ← lanes st !! ag; if seen ln then Some (with_open ln ∅) else None
                      | None => None
                      end.
Proof. unfold lane_view. by destruct (find_session s tn sid). Qed.

Lemma with_open_open ln o : with_open (with_open ln o) ∅ = with_open ln ∅.
Proof. done. Qed.

(** Replacing a session by one with the same lanes, but for who is in flight
    in one of them, changes no view. *)
Lemma view_put s tn sid st st' tn' sid' ag' :
  find_session s tn sid = Some st ->
  (forall ag, (ln ← lanes st' !! ag; if seen ln then Some (with_open ln ∅) else None) =
             (ln ← lanes st !! ag; if seen ln then Some (with_open ln ∅) else None)) ->
  lane_view (put_session s tn sid st') tn' sid' ag' = lane_view s tn' sid' ag'.
Proof.
  intros Hf Hl. rewrite !view_found, find_put. destruct (decide _) as [[-> ->]|]; [| done].
  by rewrite Hf, Hl.
Qed.

Lemma put_lane_view st ag o ag' :
  (ln ← lanes (put_lane st ag (with_open (lane st ag) o)) !! ag'; if seen ln then Some (with_open ln ∅) else None) =
  (ln ← lanes st !! ag'; if seen ln then Some (with_open ln ∅) else None).
Proof.
  unfold put_lane, lane. cbn [lanes]. destruct (decide (ag' = ag)) as [->|Hne].
  - rewrite lookup_insert_eq. by destruct (lanes st !! ag).
  - by rewrite lookup_insert_ne.
Qed.

(** With room for the session, or for another tenant, [session] changes no
    view. *)
Lemma view_session it now s tn sid s' st tn' sid' ag' :
  (tn = tn' -> (size ({[sid]} ∪ names s tn) <= maxSessions)%nat) ->
  session it now s tn sid = (s', st) -> lane_view s' tn' sid' ag' = lane_view s tn' sid' ag'.
Proof.
  intros Hsize Hs. destruct (decide (tn = tn')) as [<-|Hne].
  - destruct (session_room it now s tn sid (Hsize eq_refl)) as (s1 & st1 & E & Hf & Hd & Hn & Ho & _).
    rewrite Hs in E. injection E as <- <-. rewrite !view_found.
    destruct (decide (sid' = sid)) as [->|Hne]; [| rewrite Ho; [done | congruence]].
    rewrite Hf. destruct (find_session s tn sid) as [st0|] eqn:E0; [by cbn in Hd; subst st0 |].
    destruct (Hn eq_refl) as [seq ->]. done.
  - destruct (session_any it now s tn sid) as (s1 & st1 & E & _ & Ho). rewrite Hs in E. injection E as <- <-.
    unfold lane_view, find_session. by rewrite Ho.
Qed.

(** The room one operation needs for a tenant's sessions to stay. *)
Definition has_room (tn : string) (s : t) (o : op) : Prop :=
  match creates o with
  | Some (tn', sid) => tn' = tn -> (size ({[sid]} ∪ names s tn') <= maxSessions)%nat
  | None => True
  end.

(** One operation: the only view it changes is that of the lane whose
    response it records, and that response is classified against the view. *)
Lemma step_view it now s o s' out tn sid ag :
  has_room tn s o -> sid <> "" -> step it now s o = (s', out) ->
  match in_lane tn sid ag o with
  | Some (r, u) => out = classified (lane_view s tn sid ag) r u /\
                   lane_view s' tn sid ag = Some (with_open (lane_after new_lane r u) ∅)
  | None => lane_view s' tn sid ag = lane_view s tn sid ag
  end.
Proof.
  unfold has_room. destruct o as [mine tn0 sid0 ag0|mine tn0 sid0 ag0|tn0 r|tn0 sid0 ag0 n|tn0 sid0 e d g|k];
    cbn [creates in_lane step]; intros Hroom HS.
  - intros [= <- <-]. unfold enterLane. destruct (session it now s tn0 sid0) as [s1 st] eqn:Es.
    destruct (session_any it now s tn0 sid0) as (? & ? & E & Hf & _). rewrite Es in E. injection E as <- <-.
    rewrite (view_put _ tn0 sid0 st); [exact (view_session _ _ _ _ _ _ _ _ _ _ Hroom Es) | exact Hf |].
    intros ag'. apply put_lane_view.
  - intros [= <- <-]. unfold leaveLane. destruct (find_session s tn0 sid0) as [st|] eqn:Ef; [| done].
    destruct (lanes st !! ag0) as [ln|] eqn:El; [| done].
    apply (view_put _ tn0 sid0 st); [done |]. intros ag'.
    assert (ln = lane st ag0) as -> by (unfold lane; by rewrite El). apply put_lane_view.
  - unfold observe. destruct (rec_Usage r) as [u|] eqn:Eu; cbn [mbind option_bind]; [| by intros [= <- <-]].
    destruct (String.eqb_spec (SessionID r) "") as [He|He].
    + intros [= <- <-]. rewrite bool_decide_false; [done |]. intros (_ & Hs & _). congruence.
    + set (s0 := mkStats _ _ _ (count_response _ _) _ _ _). change (lane_view s) with (lane_view s0).
      change (names s tn0) with (names s0 tn0) in Hroom.
      destruct (session it now s0 tn0 (SessionID r)) as [s1 st] eqn:Es.
      destruct (session_any it now s0 tn0 (SessionID r)) as (? & ? & E & Hf & _). rewrite Es in E. injection E as <- <-.
      intros [= <- <-].
      rewrite <- (view_session _ _ _ _ _ _ _ tn sid ag Hroom Es).
      match goal with |- context [<[SessionID r := ?x]> _] => set (st' := x) end.
      match goal with |- context [lane_view (mkStats ?x ?a ?b ?c ?d ?e ?f) tn sid ag] =>
        change (lane_view (mkStats x a b c d e f) tn sid ag)
          with (lane_view (put_session s1 tn0 (SessionID r) st') tn sid ag) end.
      assert (lane_view (put_session s1 tn0 (SessionID r) st') tn sid ag =
                if bool_decide (tn0 = tn /\ SessionID r = sid /\ AgentID r = ag)
                then Some (with_open (lane_after new_lane r u) ∅) else lane_view s1 tn sid ag) as Hput.
      { rewrite !view_found, find_put. destruct (decide (tn = tn0 /\ sid = SessionID r)) as [[-> ->]|Hne].
        - cbn [lanes st']. destruct (decide (AgentID r = ag)) as [<-|HA].
          + by rewrite lookup_insert_eq, bool_decide_true.
          + rewrite lookup_insert_ne, bool_decide_false by (try done; by intros (_ & _ & ?)). by rewrite Hf.
        - rewrite bool_decide_false; [done |]. intros (-> & <- & _). by apply Hne. }
      destruct (bool_decide (tn0 = tn /\ SessionID r = sid /\ AgentID r = ag)) eqn:Eb; [| exact Hput].
      apply bool_decide_eq_true_1 in Eb as (-> & <- & <-). split; [| exact Hput].
      rewrite view_found, Hf. symmetry. apply classified_lane.
  - intros [= <- <-]. unfold setLaneErrors. destruct (session it now s tn0 sid0) as [s1 st] eqn:Es.
    destruct (session_any it now s tn0 sid0) as (? & ? & E & Hf & _). rewrite Es in E. injection E as <- <-.
    rewrite (view_put _ tn0 sid0 st); [exact (view_session _ _ _ _ _ _ _ _ _ _ Hroom Es) | exact Hf | done].
  - intros [= <- <-]. unfold pin. destruct (session it now s tn0 sid0) as [s1 st] eqn:Es.
    destruct (session_any it now s tn0 sid0) as (? & ? & E & Hf & _). rewrite Es in E. injection E as <- <-.
    destruct (String.eqb _ ""); [| exact (view_session _ _ _ _ _ _ _ _ _ _ Hroom Es)].
    rewrite (view_put _ tn0 sid0 st); [exact (view_session _ _ _ _ _ _ _ _ _ _ Hroom Es) | exact Hf | done].
  - by intros [= <- <-].
Qed.

(** The sessions a tenant has after an operation it had room for. *)
Lemma step_names it now s o s' out tn :
  has_room tn s o -> step it now s o = (s', out) ->
  names s' tn = match creates o with
                | Some (tn', sid) => if decide (tn' = tn) then {[sid]} ∪ names s tn else names s tn
                | None => names s tn
                end.
Proof.
  unfold has_room. intros Hroom.
  assert (forall s0 tn0 sid0 s1 st1, names s0 = names s -> creates o = Some (tn0, sid0) ->
    session it now s0 tn0 sid0 = (s1, st1) ->
    names s1 tn = if decide (tn0 = tn) then {[sid0]} ∪ names s tn else names s tn) as Hsession.
  { intros s0 tn0 sid0 s1 st1 Hs0 Hc E. rewrite Hc in Hroom. rewrite <- Hs0 in *.
    destruct (decide (tn0 = tn)) as [->|Hne].
    - destruct (session_room it now s0 tn sid0 (Hroom eq_refl)) as (? & ? & E' & _ & _ & _ & _ & Hn & _).
      rewrite E in E'. injection E' as <- <-. by rewrite Hn, decide_True.
    - destruct (session_any it now s0 tn0 sid0) as (? & ? & E' & _ & Ho). rewrite E in E'. injection E' as <- <-.
      unfold names. by rewrite Ho by done. }
  assert (forall s1 tn0 sid0 st, sid0 ∈ names s1 tn0 -> names (put_session s1 tn0 sid0 st) tn = names s1 tn) as Hput.
  { intros s1 tn0 sid0 st Hin. rewrite names_put. destruct (decide (tn = tn0)) as [->|]; [set_solver | done]. }
  assert (forall s0 tn0 sid0 s1 st1, session it now s0 tn0 sid0 = (s1, st1) -> sid0 ∈ names s1 tn0) as Hin.
  { intros s0 tn0 sid0 s1 st1 E. destruct (session_any it now s0 tn0 sid0) as (? & ? & E' & Hf & _).
    rewrite E in E'. injection E' as <- <-. unfold names, find_session in *. by apply elem_of_dom_2 in Hf. }
  destruct o as [mine tn0 sid0 ag0|mine tn0 sid0 ag0|tn0 r|tn0 sid0 ag0 n|tn0 sid0 e d g|k];
    cbn [creates step] in *.
  - intros [= <- <-]. unfold enterLane. destruct (session it now s tn0 sid0) as [s1 st] eqn:Es.
    rewrite Hput by (exact (Hin _ _ _ _ _ Es)). by apply (Hsession s tn0 sid0 s1 st).
  - intros [= <- <-]. unfold leaveLane. destruct (find_session s tn0 sid0) as [st|] eqn:Ef; [| done].
    destruct (lanes st !! ag0) as [ln|] eqn:El; [| done]. apply Hput.
    unfold names, find_session in *. by apply elem_of_dom_2 in Ef.
  - unfold observe. destruct (rec_Usage r) as [u|] eqn:Eu; [| by intros [= <- <-]].
    destruct (String.eqb_spec (SessionID r) "") as [He|He]; [by intros [= <- <-] |].
    set (s0 := mkStats _ _ _ (count_response _ _) _ _ _).
    destruct (session it now s0 tn0 (SessionID r)) as [s1 st] eqn:Es. intros [= <- <-].
    match goal with |- context [<[SessionID r := ?x]> _] => set (st' := x) end.
    change (names (put_session s1 tn0 (SessionID r) st') tn =
              if decide (tn0 = tn) then {[SessionID r]} ∪ names s tn else names s tn).
    rewrite Hput by (exact (Hin _ _ _ _ _ Es)). by apply (Hsession s0 tn0 (SessionID r) s1 st).
  - intros [= <- <-]. unfold setLaneErrors. destruct (session it now s tn0 sid0) as [s1 st] eqn:Es.
    rewrite Hput by (exact (Hin _ _ _ _ _ Es)). by apply (Hsession s tn0 sid0 s1 st).
  - intros [= <- <-]. unfold pin. destruct (session it now s tn0 sid0) as [s1 st] eqn:Es.
    destruct (String.eqb _ ""); [rewrite Hput by (exact (Hin _ _ _ _ _ Es)) |];
      by apply (Hsession s tn0 sid0 s1 st).
  - by intros [= <- <-].
Qed.

(** ** A history *)

Definition ops (h : history) : list op := List.map snd h.

(** The sessions of a tenant that a history names. *)
Definition created (tn : string) (l : list op) : gset string :=
  list_to_set (omap (fun o => match creates o with
                              | Some (tn', sid) => if decide (tn' = tn) then Some sid else None
                              | None => None
                              end) l).

Lemma created_snoc tn l o :
  created tn (l ++ [o]) = match creates o with
                          | Some (tn', sid) => if decide (tn' = tn) then {[sid]} ∪ created tn l else created tn l
                          | None => created tn l
                          end.
Proof.
  unfold created. rewrite omap_app, list_to_set_app_L. cbn [omap list_omap].
  destruct (creates o) as [[tn' sid]|]; [| by set_solver]. destruct (decide (tn' = tn)); set_solver.
Qed.

Lemma run_snoc h e : run (h ++ [e]) = run_step (run h) e.
Proof. unfold run. by rewrite fold_left_app. Qed.

Lemma run_log h : List.map fst (run h).2 = ops h.
Proof.
  induction h as [|[[it now] o] h IH] using rev_ind; [done |]. rewrite run_snoc. unfold run_step, ops in *.
  destruct (step it now (run h).1 o) as [s' out]. cbn [snd]. by rewrite !map_app, IH.
Qed.

(** A tenant none of whose sessions had to be evicted has exactly the sessions
    its operations named. *)
Lemma run_names tn h :
  (size (created tn (ops h)) <= maxSessions)%nat -> names (run h).1 tn = created tn (ops h).
Proof.
  induction h as [|[[it now] o] h IH] using rev_ind; intros Hsize; [done |].
  unfold ops in *. rewrite map_app in *. cbn [List.map snd] in *. rewrite created_snoc in *.
  assert (created tn (ops h) ⊆ created tn (List.map snd h ++ [o])) as Hsub.
  { rewrite created_snoc. unfold ops. destruct (creates o) as [[tn' sid]|]; [case_decide |]; set_solver. }
  rewrite created_snoc in Hsub. apply subseteq_size in Hsub as Hle.
  specialize (IH ltac:(unfold ops in Hle; lia)). rewrite run_snoc. unfold run_step.
  destruct (step it now (run h).1 o) as [s' out] eqn:Es. cbn [fst].
  assert (has_room tn (run h).1 o) as Hroom.
  { unfold has_room. destruct (creates o) as [[tn' sid]|]; [| done]. intros ->. rewrite IH.
    by rewrite decide_True in Hsize. }
  rewrite (step_names it now (run h).1 o s' out tn Hroom Es).
  destruct (creates o) as [[tn' sid]|]; [| done]. by destruct (decide (tn' = tn)); rewrite IH.
Qed.

Lemma run_room tn h o :
  (size (created tn (ops h ++ [o])) <= maxSessions)%nat -> has_room tn (run h).1 o.
Proof.
  intros Hsize. rewrite created_snoc in Hsize. unfold has_room.
  destruct (creates o) as [[tn' sid]|] eqn:Ec; [| done]. intros ->. rewrite decide_True in Hsize by done.
  rewrite run_names; [done |]. etrans; [| exact Hsize]. apply subseteq_size. set_solver.
Qed.

(** ** What the ledger holds of the same history *)

(** The records of one session of one tenant, in order. *)
Definition records_of (tn sid : string) (l : list op) : list Entry :=
  omap (fun o => match o with
                 | OpObserve tn' r => if bool_decide (tn' = tn /\ SessionID r = sid) then Some r else None
                 | _ => None
                 end) l.

(** The responses with usage of one lane. *)
Definition lane_records (tn sid ag : string) (l : list op) : list (Entry * Usage) := omap (in_lane tn sid ag) l.

(** The outcomes the proxy named for them. *)
Definition lane_outcomes (tn sid ag : string) (log : list (op * option CacheOutcome)) : list (option CacheOutcome) :=
  omap (fun x => _ ← in_lane tn sid ag x.1; Some x.2) log.

(** A record the reader takes for a request: it names no other kind, it has a
    prompt, and its cache follows the published prefix rule; and the proxy
    took its overlap reading. *)
Record plain (r : Entry) : Prop := {
  pl_kind : rec_Kind r = "";
  pl_prompt : Messages (rec_Prompt r) <> [];
  pl_path : isResponses (Path r) = false;
  pl_hashed : rec_PrefixHash r <> "";
  pl_measured : rec_Correlation r <> CorrelationUnmeasured
}.

Lemma triage_plain r u : plain r -> rec_Usage r = Some u -> triage_of r = Usable u.
Proof.
  intros [Hk Hp _ _ _] Hu. unfold triage_of. rewrite Hk, Hu. cbn. by destruct (Messages (rec_Prompt r)).
Qed.

Lemma triage_no_usage r u : rec_Usage r = None -> triage_of r <> Usable u.
Proof. intros Hu. unfold triage_of. rewrite Hu. by repeat case_match. Qed.

(** What a request carries of its record. *)
Definition prefix_of (q : Request) : string := match Context q with m :: _ => UUID m | [] => "" end.

Record carries (ru : Entry * Usage) (q : Request) : Prop := {
  ca_usage : req_Usage q = ru.2;
  ca_time : Timestamp q = rec_Timestamp ru.1;
  ca_model : Model q = rec_Model ru.1;
  ca_correlation : Correlation q = rec_Correlation ru.1;
  ca_prefix : prefix_of q = prefixUUID ru.1;
  ca_context : Context q <> []
}.

Definition memo_ok (m : memo_map) : Prop := forall id msg, m !! id = Some msg -> UUID msg = id.

Lemma memoized_ok memo id m m' memo' :
  memo_ok memo -> UUID m = id -> memoized memo id m = (m', memo') -> UUID m' = id /\ memo_ok memo'.
Proof.
  unfold memoized. intros Hm Hid. destruct (memo !! id) as [f|] eqn:E.
  - intros [= <- <-]. split; [by apply Hm | done].
  - intros [= <- <-]. split; [done |]. intros id' msg. destruct (decide (id' = id)) as [->|Hne].
    + rewrite lookup_insert_eq. by intros [= <-].
    + rewrite lookup_insert_ne by done. apply Hm.
Qed.

Lemma context_of_ok r memo ctx memo' :
  memo_ok memo -> context_of r memo = (ctx, memo') ->
  memo_ok memo' /\ exists m rest, ctx = m :: rest /\ UUID m = prefixUUID r.
Proof.
  intros Hm. unfold context_of. destruct (memoized memo _ _) as [p m1] eqn:E.
  apply memoized_ok in E as [Hp Hm1]; [| done | done].
  assert (forall l ctx0 m0 ctx1 m1', memo_ok m0 -> ctx0 <> [] ->
    fold_left (context_step r) l (ctx0, m0) = (ctx1, m1') ->
    memo_ok m1' /\ exists rest, ctx1 = ctx0 ++ rest) as Hfold.
  { induction l as [|[i x] l IH]; intros ctx0 m0 ctx1 m1' Hm0 Hne; cbn [fold_left].
    - intros [= <- <-]. split; [done |]. exists []. by rewrite app_nil_r.
    - unfold context_step at 2. destruct (memoized m0 _ _) as [msg m2] eqn:E2.
      apply memoized_ok in E2 as [_ Hm2]; [| done | done].
      intros H. apply IH in H as [Hk (rest & ->)]; [| done | by destruct ctx0].
      split; [done |]. exists (msg :: rest). by rewrite <- app_assoc. }
  intros H. apply Hfold in H as [Hk (rest & ->)]; [| done | done]. split; [done |]. by exists p, rest.
Qed.

Lemma requestFromRecord_carries r u i memo :
  memo_ok memo -> carries (r, u) (requestFromRecord r u i memo).1 /\ memo_ok (requestFromRecord r u i memo).2.
Proof.
  intros Hm. unfold requestFromRecord. destruct (context_of r memo) as [ctx memo'] eqn:E.
  apply context_of_ok in E as [Hm' (m & rest & -> & Hu)]; [| done]. split; [| done]. by split.
Qed.

Lemma Add_memo b r : memo_ok (b_memo b) -> memo_ok (b_memo (Add b r)).
Proof.
  intros Hm. unfold Add. destruct (triage_of r) as [| |st| | |u]; try done.
  pose proof (requestFromRecord_carries r u ((b_added b +! 1) -! 1) (b_memo b) Hm) as [_ H].
  destruct (requestFromRecord _ _ _ _) as [q memo]. by destruct (if negb _ then _ else _).
Qed.

(** The builder gives a lane one request for each of its responses with
    usage, and each request carries its own record. *)
Lemma build_lane tn sid ag path l :
  Forall (fun r => is_Some (rec_Usage r) -> plain r) (records_of tn sid l) ->
  let b := fold_left Add (records_of tn sid l) (NewSessionBuilder sid path) in
  memo_ok (b_memo b) /\ Forall2 carries (lane_records tn sid ag l) (lane_requests ag (b_session b)).
Proof.
  induction l as [|o l IH] using rev_ind; intros Hplain; [split; [by intros ? ? ? | constructor] |].
  unfold records_of, lane_records in *. rewrite !omap_app in *. apply Forall_app in Hplain as [Hpl Ho].
  specialize (IH Hpl). cbv zeta in *. rewrite fold_left_app. destruct IH as [Hmemo IH].
  set (b := fold_left Add _ _) in *. cbn [omap list_omap] in *.
  destruct o as [| |tn' r| | |]; try (split; [done | by rewrite app_nil_r]).
  cbn [in_lane] in *. destruct (bool_decide (tn' = tn /\ SessionID r = sid)) eqn:Eb; cbn [fold_left].
  - apply bool_decide_eq_true_1 in Eb as [-> Hsid]. inversion Ho as [|? ? Hr _]; subst.
    split; [by apply Add_memo |]. rewrite Add_lane.
    destruct (rec_Usage r) as [u|] eqn:Eu; cbn [mbind option_bind].
    + rewrite (triage_plain r u) by (try done; apply Hr; by exists u).
      destruct (String.eqb_spec (AgentID r) ag) as [Ha|Ha].
      * rewrite bool_decide_true by done. apply Forall2_app; [done |]. constructor; [| constructor].
        by apply requestFromRecord_carries.
      * rewrite bool_decide_false, !app_nil_r by (by intros (_ & _ & ?)). done.
    + destruct (triage_of r) as [| |st| | |u'] eqn:Et; try by rewrite !app_nil_r.
      exfalso. by apply (triage_no_usage r u').
  - apply bool_decide_eq_false_1 in Eb. split; [done |].
    assert ((u ← rec_Usage r; if bool_decide (tn' = tn /\ SessionID r = sid /\ AgentID r = ag)
             then Some (r, u) else None) = None) as ->.
    { destruct (rec_Usage r); cbn; [| done]. rewrite bool_decide_false; [done |]. intros (? & ? & _). by apply Eb. }
    by rewrite app_nil_r.
Qed.

(** ** Live is offline *)

Lemma next_turns_snoc l : forall i prev q,
  next_turns i prev (l ++ [q]) = next_turns i prev l ++ [next_turn (i + length l) (default prev (list.last l)) q].
Proof.
  induction l as [|x l IH]; intros i prev q; cbn [next_turns app length].
  - by rewrite Nat.add_0_r.
  - rewrite IH, last_cons, <- plus_n_Sm. cbn [app]. by destruct (list.last l).
Qed.

Lemma turns_of_snoc l q :
  turns_of (l ++ [q]) = turns_of l ++ [match list.last l with
                                       | None => first_turn q
                                       | Some p => next_turn (length l) p q
                                       end].
Proof.
  destruct l as [|x l]; [done |]. cbn [app turns_of length]. rewrite next_turns_snoc, last_cons.
  by destruct (list.last l).
Qed.

(** The cause a live break is given, in terms of the two requests. *)
Definition cause_agrees (prev cur : Request) (t : Turn) (k : BreakCause) : Prop :=
  if String.eqb (turn_Correlation t) CorrelationLaneOverlap then k = CauseNotMeasured
  else if String.eqb (prefix_of prev) (prefix_of cur)
  then k = default CauseUnknown
             (ClassifyBreakForModel (req_Usage prev) (req_Usage cur) (Model prev) (Model cur) (Gap t))
  else k ∈ [CausePrefixChange; CauseToolsChanged; CauseSystemChanged].

(** What the offline diff says of the same turn. *)
Definition diff_agrees (prev cur : Request) (t : Turn) (k : BreakCause) : Prop :=
  forall fit b, Breaks.classify t fit = Some b ->
    (k = CauseNotMeasured <-> Breaks.br_Cause b = CauseNotMeasured) /\
    (prefix_of prev = prefix_of cur -> k = Breaks.br_Cause b \/ k = CauseUnknown) /\
    (prefix_of prev <> prefix_of cur -> Breaks.br_Cause b = CauseHistoryEdit -> Breaks.MessageIndex b = 0).

Lemma elem_of_cause_list k : k ∈ [CausePrefixChange; CauseToolsChanged; CauseSystemChanged] -> k <> CauseNotMeasured.
Proof.
  intros Hk ->. repeat (apply elem_of_cons in Hk as [Hk|Hk]; [done |]). by apply not_elem_of_nil in Hk.
Qed.

Lemma cause_agrees_diff prev cur t k :
  Previous t = Some prev -> turn_Request t = cur -> Context prev <> [] -> Context cur <> [] ->
  cause_agrees prev cur t k -> diff_agrees prev cur t k.
Proof.
  intros Hp <- Hpc Hcc Hk fit b. unfold Breaks.classify. rewrite Hp. cbn [mbind option_bind]. intros [= <-].
  unfold cause_agrees in Hk. destruct (String.eqb (turn_Correlation t) CorrelationLaneOverlap).
  { subst k. cbn. split_and!; [done | by left | done]. }
  destruct (ClassifyBreakForModel _ _ _ _ _) as [c|] eqn:Ec.
  - apply Breaks.ClassifyBreakForModel_usage in Ec as Huse. cbn [default] in Hk.
    destruct (String.eqb_spec (prefix_of prev) (prefix_of (turn_Request t))) as [He|He].
    + subst k. cbn. split_and!; [done | by left | done].
    + cbn. split_and!; [| done | by intros _ ->]. split; [| by intros ->].
      intros ->. by apply elem_of_cause_list in Hk.
  - cbn [default] in Hk.
    destruct (String.eqb_spec (prefix_of prev) (prefix_of (turn_Request t))) as [He|He].
    + subst k. split_and!; [| by right | done]. split; [done |].
      repeat (case_match; cbn; try done).
    + split_and!; [| done |].
      * split.
        -- intros ->. by apply elem_of_cause_list in Hk.
        -- repeat (case_match; cbn; try done).
      * intros _. unfold prefix_of in He.
        destruct (Context prev) as [|p pc] eqn:Ep; [done |].
        destruct (Context (turn_Request t)) as [|c cc] eqn:Ecc; [done |].
        assert (Breaks.firstDivergence (p :: pc) (c :: cc) = Some (0, Breaks.firstLabel c)) as ->.
        { unfold Breaks.firstDivergence. cbn. unfold Breaks.same_message.
          by apply String.eqb_neq in He as ->. }
        destruct (_ && _ && _); [done |]. done.
Qed.

Definition same_verdict (o : option CacheOutcome) (t : Turn) : Prop :=
  match Previous t with
  | None => o = None /\ Outcome t = ReadFirst
  | Some prev =>
      exists oc, o = Some oc /\ oc_Outcome oc = Outcome t /\ oc_Expected oc = Expected t /\
        if decide (Outcome t = ReadBroken)
        then Deficit oc = Expected t -! Actual t /\
             exists k, Cause oc = Some k /\ cause_agrees prev (turn_Request t) t k /\
               diff_agrees prev (turn_Request t) t k
        else Deficit oc = 0 /\ Cause oc = None
  end.

(** The view the last response of a lane leaves behind. *)
Definition view_after (l : list (Entry * Usage)) : option laneState :=
  match list.last l with
  | None => None
  | Some (r, u) => Some (with_open (lane_after new_lane r u) ∅)
  end.

Lemma breakCause_cases ln r u changed :
  let k := (breakCause ln r u changed).1 in
  if String.eqb (rec_Correlation r) CorrelationLaneOverlap then k = CauseNotMeasured
  else if changed then k ∈ [CausePrefixChange; CauseToolsChanged; CauseSystemChanged]
  else k = default CauseUnknown (ClassifyBreakForModel (last ln) u (model ln) (rec_Model r)
             (Sub (rec_Timestamp r) (lastSeen ln))).
Proof.
  cbv zeta. unfold breakCause. destruct (String.eqb _ CorrelationLaneOverlap); [done |]. destruct changed.
  - destruct (negb _ && negb _); [cbn; by left |]. cbn [fst]. unfold cause.
    repeat (case_match; [by repeat constructor |]). by repeat constructor.
  - by destruct (ClassifyBreakForModel _ _ _ _ _).
Qed.

(** One response against the request before it. *)
Lemma classified_next i r' u' r u p q :
  plain r' -> plain r -> carries (r', u') p -> carries (r, u) q ->
  same_verdict (classified (Some (with_open (lane_after new_lane r' u') ∅)) r u) (next_turn i p q).
Proof.
  intros Hpl' Hpl [Hu' Ht' Hm' Hc' Hx' Hcp] [Hu Ht Hm Hc Hx Hcq]. cbn [fst snd] in *.
  unfold same_verdict. destruct (next_turn_previous i p q) as [-> _].
  unfold classified, classify. cbn [seen with_open lane_after]. rewrite (pl_path _ Hpl). cbn [andb negb].
  unfold next_turn. rewrite <- Hu', <- Hu. cbn [last with_open lane_after].
  destruct (ClassifyRead (req_Usage p) (req_Usage q)) as [o e].
  set (t := mkTurn _ _ _ _ _ _ _ _).
  destruct (decide (o = ReadBroken)) as [->|Ho]; cycle 1.
  { eexists. split; [reflexivity |]. cbn. split_and!; try done. by destruct (decide (o = ReadBroken)). }
  match goal with |- context [breakCause ?ln r _ ?c] => pose proof (breakCause_cases ln r (req_Usage q) c) as Hk;
    destruct (breakCause ln r (req_Usage q) c) as [k d] end.
  eexists. split; [reflexivity |]. cbn. rewrite decide_True by done. split_and!; try done.
  exists k. split; [done |].
  assert (cause_agrees p q t k) as Hag; [| split; [exact Hag | by apply (cause_agrees_diff p q)]].
  unfold cause_agrees. cbn [turn_Correlation Gap t] in *.
  assert (correlationOf p q = rec_Correlation r) as ->.
  { unfold correlationOf. rewrite Hc. pose proof (pl_measured _ Hpl) as Hne. by apply String.eqb_neq in Hne as ->. }
  cbn [fst last lastSeen model prefixHash with_open lane_after seen] in Hk. rewrite Hx', Hx, Ht', Ht, Hm', Hm.
  assert (forall x, plain x -> prefixUUID x = rec_PrefixHash x) as Hpre.
  { intros x Hplx. unfold prefixUUID. pose proof (pl_hashed _ Hplx) as Hne. by apply String.eqb_neq in Hne as ->. }
  rewrite !Hpre by done.
  destruct (String.eqb (rec_Correlation r) CorrelationLaneOverlap); [exact Hk |].
  rewrite (String.eqb_sym (rec_PrefixHash r')). cbn [andb] in Hk.
  destruct (String.eqb (rec_PrefixHash r) (rec_PrefixHash r')); cbn [negb] in Hk; exact Hk.
Qed.

Lemma lane_records_plain tn sid ag l :
  Forall (fun r => is_Some (rec_Usage r) -> plain r) (records_of tn sid l) ->
  Forall (fun ru => plain ru.1) (lane_records tn sid ag l).
Proof.
  rewrite !Forall_forall. intros H [r u] Hin. apply list_elem_of_omap in Hin as (o & Ho & Hl). cbn [fst].
  destruct o as [| |tn' r'| | |]; try done. cbn [in_lane] in Hl.
  destruct (rec_Usage r') as [u'|] eqn:Eu; cbn [mbind option_bind] in Hl; [| done].
  destruct (bool_decide _) eqn:Eb; [| done]. injection Hl as -> ->.
  apply bool_decide_eq_true_1 in Eb as (Ht & Hs & _). apply H; [| by exists u].
  apply list_elem_of_omap. exists (OpObserve tn' r). split; [done |]. by rewrite bool_decide_true.
Qed.

(** After every history the lane's view is its last response's, and the
    outcomes named so far are the offline verdicts on any requests that carry
    its records. *)
Lemma live_run tn sid ag h :
  sid <> "" -> (size (created tn (ops h)) <= maxSessions)%nat ->
  Forall (fun ru => plain ru.1) (lane_records tn sid ag (ops h)) ->
  lane_view (run h).1 tn sid ag = view_after (lane_records tn sid ag (ops h)) /\
  forall reqs, Forall2 carries (lane_records tn sid ag (ops h)) reqs ->
    Forall2 same_verdict (lane_outcomes tn sid ag (run h).2) (turns_of reqs).
Proof.
  intros Hsid. induction h as [|[[it now] o] h IH] using rev_ind; intros Hsize Hplain.
  { split; [done |]. intros reqs H. inversion H. constructor. }
  unfold ops in Hsize, Hplain |- *. rewrite map_app in Hsize, Hplain |- *. cbn [List.map snd] in Hsize, Hplain |- *.
  fold (ops h) in Hsize, Hplain |- *.
  pose proof (run_room tn h o Hsize) as Hroom.
  assert (size (created tn (ops h)) <= maxSessions)%nat as Hsize'.
  { etrans; [apply subseteq_size | exact Hsize]. rewrite created_snoc.
    destruct (creates o) as [[tn' sid']|]; [case_decide |]; set_solver. }
  unfold lane_records in *. rewrite omap_app in Hplain |- *. apply Forall_app in Hplain as [Hplain Ho].
  destruct (IH Hsize' Hplain) as [Hview Hrun]. clear IH.
  rewrite run_snoc. unfold run_step. destruct (step it now (run h).1 o) as [s' out] eqn:Es.
  pose proof (step_view it now _ o s' out tn sid ag Hroom Hsid Es) as Hstep. cbn [fst snd].
  unfold lane_outcomes in *. rewrite omap_app. cbn [omap list_omap fst snd] in *.
  destruct (in_lane tn sid ag o) as [[r u]|] eqn:El; cbn [mbind option_bind] in *; cycle 1.
  { rewrite !app_nil_r. split; [by rewrite Hstep | exact Hrun]. }
  destruct Hstep as [-> Hview']. inversion Ho as [|? ? Hr _]; subst. cbn [fst] in Hr. split.
  { rewrite Hview'. unfold view_after. by rewrite last_snoc. }
  intros reqs Hreqs. apply Forall2_app_inv_l in Hreqs as (reqs1 & qs & Hreqs1 & Hq & ->).
  inversion Hq as [|? q ? ? Hcq Hnil]; subst. inversion Hnil; subst.
  rewrite turns_of_snoc. apply Forall2_app; [by apply Hrun |]. constructor; [| constructor].
  rewrite Hview. unfold view_after.
  destruct (list.last (omap (in_lane tn sid ag) (ops h))) as [[r' u']|] eqn:Elast.
  - apply last_Some in Elast as [l' El']. rewrite El' in Hreqs1, Hplain.
    apply Forall2_app_inv_l in Hreqs1 as (qs1 & ps & _ & Hp & ->).
    inversion Hp as [|? p ? ? Hcp Hnil']; subst. inversion Hnil'; subst. rewrite last_snoc.
    apply Forall_app in Hplain as [_ Hr']. inversion Hr'; subst. by apply (classified_next _ r' u').
  - apply last_None in Elast. rewrite Elast in Hreqs1. inversion Hreqs1; subst. done.
Qed.

(** C23: the live verdicts are the offline ones.  Let the proxy run anything on
    any tenants, sessions and lanes, in any order: requests entering and
    leaving lanes, responses recorded, error figures and pins set, refusals.
    Suppose the tenant never had more sessions than the table holds, so that
    none was evicted, and that the records of the session are plain: model
    calls with a prompt, a hashed prefix and a measured overlap, not of the
    Responses API.  Then the outcome named for each response of a lane, the
    moment it arrived, has the outcome, the expectation and the deficit of the
    turn that calibrating the lane of the session built from the ledger's
    records gives it.  Of a break it names the cause too: none where requests
    of the lane overlapped, which is where the diff withholds it; under an
    unchanged prefix the one that usage, models and timing determine, and that
    is the diff's or, where they leave it open, unknown; where the prefix
    changed, the system, the tools or the prefix, whatever the diff names, and
    if the diff finds an edit there it finds it at the first message. *)
Theorem live_verdicts_are_the_offline_ones :
  forall h tn sid ag path,
    sid <> "" ->
    (size (created tn (ops h)) <= maxSessions)%nat ->
    Forall (fun r => is_Some (rec_Usage r) -> plain r) (records_of tn sid (ops h)) ->
    let outcomes := lane_outcomes tn sid ag (run h).2 in
    match lane_of ag (Lanes (build sid path (records_of tn sid (ops h)))) with
    | Some l => Forall2 same_verdict outcomes (Turns (Calibrate l))
    | None => outcomes = []
    end.
Proof.
  intros h tn sid ag path Hsid Hsize Hplain outcomes. subst outcomes.
  destruct (build_lane tn sid ag path (ops h) Hplain) as [_ Hc].
  destruct (live_run tn sid ag h Hsid Hsize (lane_records_plain _ _ ag _ Hplain)) as [_ Hrun].
  specialize (Hrun _ Hc). unfold build, lane_requests in *.
  destruct (lane_of ag _) as [l|].
  - by destruct (Calibrate_turns l) as [-> _].
  - by inversion Hrun.
Qed.

End run.

(** ** A full table *)

Definition nth_session (n : nat) : string := NilEmpty.string_of_uint (Nat.to_uint n).

Definition full_table : t :=
  fold_left (fun s n => (session key_order (Z.of_nat n) s "t" (nth_session n)).1) (seq 1 maxSessions) newStats.

Lemma session_drops_the_least_recently_seen_witness :
  size (inner (sessions full_table) "t") = maxSessions /\
  exists victim v,
    find_session full_table "t" victim = Some v /\
    size (inner (sessions (session key_order 900 full_table "t" "new").1) "t") = maxSessions /\
    find_session (session key_order 900 full_table "t" "new").1 "t" victim = None.
Proof.
  assert (size (inner (sessions full_table) "t") = maxSessions) as Hs by (vm_compute; reflexivity).
  split; [exact Hs |].
  pose proof (session_drops_the_least_recently_seen key_order 900 full_table "t" "new"
                ltac:(vm_compute; reflexivity) ltac:(discriminate) Hs ltac:(vm_compute; reflexivity)) as H.
  destruct (session key_order 900 full_table "t" "new") as [s' st].
  destruct H as (victim & v & Hv & _ & _ & _ & Hgone & _ & Hsize & _).
  exists victim, v. split; [exact Hv |]. split; [exact Hsize | exact Hgone].
Defined.

(** ** A session of two lanes *)

#[local] Instance compiled : PriceLayer := cachemodel None.

Definition reply (at_ : time) (agent prefix : string) (read creation : Z) : Entry :=
  mkEntry 0 at_ "s" "" agent "" CorrelationLaneSerial "/v1/messages" false ""
    (mkSummary "claude-opus-5" "" false (mkPrompt 10 0 0 [] 0 [Breaker.LoopGuard.mkLMessage "user" []] false) prefix "")
    "" 200 "" "" "" "" "" ∅ false ∅ ∅ 0 0 0 ∅
    (mkResponse [] (Some (mkUsage 10 creation read 50 0 creation 0 true)) "" 0 0 false) None.

(** A lane that starts cold, reads its prefix, and breaks when the prefix
    changes, with another lane in between. *)
Definition two_lanes : history :=
  [(key_order, 1, OpEnter 0 "t" "s" ""); (key_order, 2, OpObserve "t" (reply 2 "" "p" 0 5000));
   (key_order, 3, OpObserve "t" (reply 3 "sub" "q" 0 6000)); (key_order, 3, OpLeave 0 "t" "s" "");
   (key_order, 4, OpObserve "t" (reply 4 "" "p" 5000 100)); (key_order, 5, OpRefused "session_cap");
   (key_order, 6, OpObserve "t" (reply 6 "" "p2" 0 5200))].

Lemma live_verdicts_are_the_offline_ones_witness :
  List.map (option_map oc_Outcome) (lane_outcomes "t" "s" "" (run two_lanes).2) =
    [None; Some ReadReproduced; Some ReadBroken] /\
  exists l, lane_of "" (Lanes (build "s" "f" (records_of "t" "s" (ops two_lanes)))) = Some l /\
    Forall2 same_verdict (lane_outcomes "t" "s" "" (run two_lanes).2) (Turns (Calibrate l)).
Proof.
  split; [vm_compute; reflexivity |].
  pose proof (live_verdicts_are_the_offline_ones two_lanes "t" "s" "" "f" ltac:(discriminate)
                ltac:(vm_compute; lia)) as H.
  destruct (lane_of "" (Lanes (build "s" "f" (records_of "t" "s" (ops two_lanes))))) as [l|] eqn:E.
  - exists l. split; [reflexivity |]. apply H.
    repeat (apply List.Forall_cons; [by intros _; split |]). apply List.Forall_nil.
  - vm_compute in E. discriminate E.
Defined.

End StatsSpec.
