(* ===== verification/PolicyPin.v ===== *)
(** Who carries the added request parameter
    ([src/internal/proxy/policyinject.go], [trial.go], and the selection of
    [src/internal/learn]): the decision a session's first request makes, the pin
    that keeps it, the arms of a live trial and its guardrail.

    The decision takes the critical sections of [applyPolicy] one after the
    other: reading the pin in memory, reading the pin on disk, writing it, and
    recording it in memory; they are separate definitions so that two requests
    can be interleaved.  Log lines are left out; the hash of a session id is
    FNV-1a. *)

From S2P Require Import Prelude GoString GoFloat GoTime Transcript Tenancy Guards Breaker CacheRules CachePrices.
From S2P Require Import CacheVerdict Calibrate Fit Replay Json Labels Ledger LedgerStore LedgerStoreSpec.
From S2P Require Import Policy PrefixDelta Stats Blame Waste Breaks StatsSpec.
From Stdlib Require Import Ascii String.

Open Scope string_scope.
Open Scope list_scope.
Open Scope Z_scope.

Module PolicyPin.
Import Transcript Ledger LedgerStore Policy.

#[local] Abbreviation length := List.length.

(** ** The learned selection *)

Record Candidate := mkCandidate { cand_Name : string; Live : string; cand_ContextEdit : option Replay.ContextEditPolicy }.

Record TypeResult := mkTypeResult { tr_Type : string; tr_Selected : option Candidate }.

Record Result := mkResult {
  res_Schema : Z;
  Generated : time;
  res_Rules : string;
  Selected : option Candidate;
  Types : list TypeResult
}.

Definition PolicyFileSchema : Z := 1.

Definition SelectedFor (r : Result) (sessionType : string) : option Candidate :=
  match find_first (fun t => String.eqb (tr_Type t) sessionType && bool_decide (is_Some (tr_Selected t))) (Types r) with
  | Some t => tr_Selected t
  | None => Selected r
  end.

(** [None] where the code returns a note. *)
Definition SelectionFor (rules : string) (r : Result) (sessionType : string) : option Candidate :=
  if negb (res_Schema r =? PolicyFileSchema) then None
  else if negb (String.eqb (res_Rules r) rules) then None
  else if String.eqb sessionType "" then Selected r else SelectedFor r sessionType.

Definition largePrefixTokens : Z := 20000.
Definition modelFamilies : list string := ["fable"; "mythos"; "opus"; "sonnet"; "haiku"].

Definition TypeOf (model : string) (firstPromptTokens : Z) : string :=
  let family := default "other" (find_first (contains (to_lower model)) modelFamilies) in
  (family ++ "/" ++ (if (largePrefixTokens <=? firstPromptTokens)%Z then "large" else "small") ++ "-prefix")%string.

Definition BytesPerTokenEstimate : Z := 4.

Definition TypeFromBytes (model : string) (firstPromptBytes : Z) : string :=
  TypeOf model (Z.quot firstPromptBytes BytesPerTokenEstimate).

Definition promptSize (p : Prompt) : Z :=
  fold_left (fun n m => fold_left (fun n b => n +! Bytes b) (LoopGuard.lm_Blocks m) n) (Messages p)
    (SystemBytes p +! ToolBytes p).

(** [policyFromFile]; the file as read, [None] an error. *)
Definition policyFromFile (rules : string) (file : option Result) (sessionType : string) : option (ContextEdit * time) :=
  res ← file;
  c ← SelectionFor rules res sessionType;
  p ← cand_ContextEdit c;
  let edit := mkEdit (Replay.TriggerTokens p) (Replay.KeepLast p) in
  if Validate edit then Some (edit, Generated res) else None.

(** ** The trial *)

Record TrialSettings := mkTrial { Share : float64; ReReadRate : float64; RevertAfter : Z }.

Definition DefaultTrialShare : float64 := of_int 1.
Definition DefaultRevertAfter : Z := 2.
Definition minGuardrailReads : Z := 5.

Definition normalized (t : TrialSettings) : TrialSettings :=
  mkTrial (if fleb (Share t) f0 then DefaultTrialShare else Share t) (ReReadRate t)
    (if RevertAfter t <=? 0 then DefaultRevertAfter else RevertAfter t).

(** [fnv.New32a] *)
Definition fnv32a (s : string) : Z :=
  fold_left (fun h c => Z.lxor h (Z.of_N (N_of_ascii c)) * 16777619 mod 4294967296) (list_ascii_of_string s) 2166136261.

Definition treated (t : TrialSettings) (sessionID : string) : bool :=
  let t := normalized t in
  if fleb (of_int 1) (Share t) then true
  else fltb (of_int (fnv32a sessionID mod 1000) / of_int 1000)%float (Share t).

Definition breached (t : TrialSettings) (rr : Waste.ReReads) : bool :=
  fltb f0 (ReReadRate t) && (minGuardrailReads <=? Waste.ReadsAfterClear rr) && fleb (ReReadRate t) (Waste.RateAfterClear rr).

(** ** The decision *)

Record Config := mkConfig {
  NoPolicy : bool;
  cfg_ContextEdit : option ContextEdit;
  PolicyFile : bool;
  cfg_Trial : TrialSettings
}.

Definition policyConfigured (c : Config) : bool :=
  negb (NoPolicy c) && (bool_decide (is_Some (cfg_ContextEdit c)) || PolicyFile c).

(** An edit, the decision, and the generation time of the file it came from. *)
Definition decision : Type := option ContextEdit * string * time.

(** [trialPolicy]; the arm comes last. *)
Definition trialPolicy (c : Config) (revert : option Revert) (selected : option (ContextEdit * time))
    (sessionID : string) : decision * string :=
  match selected with
  | None => ((None, NotConfigured, zero_time), "")
  | Some (edit, generated) =>
      if match revert with Some r => negb (After generated (rv_At r)) | None => false end
      then ((None, Reverted, zero_time), "")
      else if negb (treated (cfg_Trial c) sessionID) then ((None, Control, zero_time), TrialControl)
      else ((Some edit, Applied, generated), TrialTreated)
  end.

(** What a request brings to the decision. *)
Record asking := mkAsking {
  beta : string;
  clientSet : bool;
  ask_model : string;
  promptBytes : Z;
  now : time;
  rules : string;
  file : option Result
}.

(** A pin an earlier decision left. *)
Definition from_pin (p : Pin) : decision :=
  if String.eqb (pin_Policy p) Name
  then let edit := mkEdit (pin_Trigger p) (pin_Keep p) in
       if Validate edit then (Some edit, pin_Decision p, zero_time) else (None, NotConfigured, zero_time)
  else (None, pin_Decision p, zero_time).

(** The flag, else the policy file; with the arm and the session type. *)
Definition select (c : Config) (revert : option Revert) (sessionID : string) (a : asking) : decision * string * string :=
  match cfg_ContextEdit c with
  | Some e => ((Some e, NotConfigured, zero_time), "", "")
  | None =>
      if PolicyFile c
      then let sessionType := TypeFromBytes (ask_model a) (promptBytes a) in
           (trialPolicy c revert (policyFromFile (rules a) (file a) sessionType) sessionID, sessionType)
      else ((None, NotConfigured, zero_time), "", "")
  end.

(** A decision made now, and the pin that records it. *)
Definition decide_now (c : Config) (revert : option Revert) (sessionID : string) (a : asking) : decision * Pin :=
  let '((edit, dec, generated), arm, sessionType) := select c revert sessionID a in
  match edit with
  | Some e =>
      let dec := Admissible (beta a) (clientSet a) in
      ((Some e, dec, generated), mkPin sessionID "" Name (TriggerTokens e) (KeepLast e) dec (now a) arm sessionType)
  | None => ((None, dec, generated), mkPin sessionID "" "" 0 0 dec (now a) arm sessionType)
  end.

Section pin.
Context (encode_pin : Pin -> string).

(** [decidePolicy] in one piece; [o] is what its write met. *)
Definition decidePolicy (c : Config) (st : Store) (tenant sessionID : string) (a : asking) (o : write_outcome)
    : Store * decision :=
  match get_pin st tenant sessionID with
  | Some p => (st, from_pin p)
  | None => let '(d, p) := decide_now c (st_revert st) sessionID a in ((SetPin encode_pin st tenant p o).1, d)
  end.

(** The decision [applyPolicy] acts on, with no request of the session between
    its sections. *)
Definition sessionDecision (it : iteration) (c : Config) (s : Stats.t) (st : Store) (tenant sessionID : string)
    (a : asking) (o : write_outcome) : Stats.t * Store * (option ContextEdit * string) :=
  match Stats.pinned s tenant sessionID with
  | Some d => (s, st, d)
  | None =>
      let '(st, (edit, dec, generated)) := decidePolicy c st tenant sessionID a o in
      (Stats.pin it (now a) s tenant sessionID edit dec generated, st, (edit, dec))
  end.

(** What [applyPolicy] does with it: the body to send, and whether the record
    names the policy. *)
Definition act (d : option ContextEdit * string) (a : asking) (summarized : bool) (body : Json.bytes) : Json.bytes * bool :=
  match d with
  | (Some e, dec) =>
      if negb (String.eqb dec Applied) then (body, false)
      else if negb summarized then (body, false)
      else if negb (String.eqb (Admissible (beta a) (clientSet a)) Applied) then (body, false)
      else let '(out, applied) := Apply e body in
           if String.eqb applied Applied then (out, true) else (body, false)
  | (None, _) => (body, false)
  end.

Definition applyPolicy (it : iteration) (c : Config) (s : Stats.t) (st : Store) (tenant sessionID : string)
    (a : asking) (o : write_outcome) (summarized : bool) (body : Json.bytes) : Stats.t * Store * (Json.bytes * bool) :=
  if String.eqb sessionID "" || negb (policyConfigured c) then (s, st, (body, false))
  else let '(s, st, d) := sessionDecision it c s st tenant sessionID a o in (s, st, act d a summarized body).

End pin.

(** ** The guardrail *)

(** [time.RFC3339Nano] in UTC is injective on instants; a policy's key is its
    text and the instant. *)
Definition policyKey (stamp : time -> string) (edit : option ContextEdit) (generated : time) : string :=
  match edit with
  | None => "none"
  | Some e => (edit_string e ++ "@" ++ stamp generated)%string
  end.

Definition with_rail (s : Stats.t) (r : Stats.guardrail) : Stats.t :=
  Stats.mkStats (Stats.sessions s) (Stats.admittedSeq s) (Stats.flags s) (Stats.count s) (Stats.money s) r (Stats.paths s).

Definition set_breached (st : Stats.sessionState) : Stats.sessionState :=
  Stats.mkSessionState (Stats.ss_last st) (Stats.ss_lastSeen st) (Stats.admitted st) (Stats.ss_model st)
    (Stats.ss_prefixHash st) (Stats.lanes st) (Stats.tally st) (Stats.totals st) (Stats.pin_ st)
    (Stats.errorByLane st) true.

(** [noteBreach]; [reason] is the text of the revert, [o] what writing it met. *)
Definition noteBreach (encode_revert : Revert -> string) (stamp : time -> string) (st : Store)
    (settings : TrialSettings) (s : Stats.t) (tenant sessionID : string) (edit : ContextEdit)
    (generated : time) (at_ : time) (reason : Z -> string) (o : write_outcome) : Stats.t * Store :=
  let settings := normalized settings in
  match Stats.find_session s tenant sessionID with
  | None => (s, st)
  | Some ss =>
      if Stats.breached ss then (s, st)
      else
        let key := policyKey stamp (Some edit) generated in
        let rail := Stats.rail s in
        let n := default 0 (Stats.breaches rail !! key) +! 1 in
        let counted := <[key := n]> (Stats.breaches rail) in
        let s := Stats.put_session s tenant sessionID (set_breached ss) in
        let keep := with_rail s (Stats.mkRail counted (Stats.reverted rail) (Stats.revertReason rail)) in
        if (n <? RevertAfter settings) || bool_decide (key ∈ Stats.reverted rail) then (keep, st)
        else
          let r := mkRevert Name (TriggerTokens edit) (KeepLast edit) (reason n) n at_ generated in
          let '(st, ok) := SetRevert encode_revert st r o in
          if ok then (with_rail s (Stats.mkRail counted ({[key]} ∪ Stats.reverted rail) (reason n)), st)
          else (keep, st)
  end.

End PolicyPin.

(** A session decides once: whatever the proxy does in between, evictions and
    restarts included, one decision explains every body it sends for a session.
    And the two requests whose race breaks that. *)

Module PolicyPinSpec.
Import Transcript Tenancy Pricing Ledger LedgerStore LedgerStoreSpec Policy Stats StatsSpec PolicyPin.

#[local] Abbreviation length := List.length.

(** ** The pin in memory *)

(** Nothing but [pin] gives a session a decision; eviction takes it away. *)
Definition kept (tn sid : string) (s s' : Stats.t) : Prop :=
  pinned s' tn sid = pinned s tn sid \/ pinned s' tn sid = None.

#[export] Instance kept_refl tn sid : Reflexive (kept tn sid).
Proof. intros s. by left. Qed.

#[export] Instance kept_trans tn sid : Transitive (kept tn sid).
Proof. intros s1 s2 s3 [H1|H1] [H2|H2]; [left | right | right | right]; congruence. Qed.

Lemma session_kept it now s tn0 sid0 s1 st1 tn sid :
  session it now s tn0 sid0 = (s1, st1) -> kept tn sid s s1.
Proof.
  unfold session, kept, pinned. destruct (find_session s tn0 sid0) as [st|] eqn:Ef.
  { intros [= <- <-]. by left. }
  intros [= <- <-]. unfold find_session in *. cbn [sessions]. destruct (decide (tn = tn0)) as [->|Hne].
  - rewrite inner_insert_eq. destruct (decide (sid = sid0)) as [->|Hs].
    + rewrite lookup_insert_eq. by right.
    + rewrite lookup_insert_ne by done.
      destruct (make_room it (size (inner (sessions s) tn0)) (inner (sessions s) tn0) !! sid) as [st|] eqn:E;
        [| by right].
      eapply lookup_weaken in E; [| apply make_room_subset]. rewrite E. by left.
  - rewrite inner_insert_ne by done. by left.
Qed.

Lemma put_pinned s tn0 sid0 st st' tn sid :
  find_session s tn0 sid0 = Some st -> pin_ st' = pin_ st ->
  pinned (put_session s tn0 sid0 st') tn sid = pinned s tn sid.
Proof.
  intros Hf Hp. unfold pinned. rewrite find_put. destruct (decide _) as [[-> ->]|]; [| done].
  rewrite Hf. cbn [mbind option_bind]. by rewrite Hp.
Qed.

Definition pins (o : op) : bool := match o with OpPin _ _ _ _ _ => true | _ => false end.

Section steps.
Context `{PL : PriceLayer}.

Lemma step_kept it now s o s' out tn sid :
  pins o = false -> step it now s o = (s', out) -> kept tn sid s s'.
Proof.
  destruct o as [mine tn0 sid0 ag0|mine tn0 sid0 ag0|tn0 r|tn0 sid0 ag0 n|tn0 sid0 e d g|k]; cbn [pins step];
    intros Hpin; [| | | | done |].
  - intros [= <- <-]. unfold enterLane. destruct (session it now s tn0 sid0) as [s1 st] eqn:Es.
    destruct (session_any it now s tn0 sid0) as (? & ? & E & Hf & _). rewrite Es in E. injection E as <- <-.
    etrans; [exact (session_kept _ _ _ _ _ _ _ tn sid Es) |]. left. by rewrite (put_pinned _ tn0 sid0 st).
  - intros [= <- <-]. unfold leaveLane. destruct (find_session s tn0 sid0) as [st|] eqn:Ef; [| done].
    destruct (lanes st !! ag0) as [ln|]; [| done]. left. by rewrite (put_pinned _ tn0 sid0 st).
  - unfold observe. destruct (rec_Usage r) as [u|]; [| by intros [= <- <-]; left].
    destruct (String.eqb (SessionID r) ""); [by intros [= <- <-]; left |].
    set (s0 := mkStats _ _ _ (count_response _ _) _ _ _).
    destruct (session it now s0 tn0 (SessionID r)) as [s1 st] eqn:Es.
    destruct (session_any it now s0 tn0 (SessionID r)) as (? & ? & E & Hf & _). rewrite Es in E. injection E as <- <-.
    intros [= <- <-]. etrans; [exact (session_kept _ _ _ _ _ _ _ tn sid Es) |]. left.
    match goal with |- context [<[SessionID r := ?x]> _] => set (st' := x) end.
    change (pinned (put_session s1 tn0 (SessionID r) st') tn sid = pinned s1 tn sid).
    by rewrite (put_pinned _ tn0 (SessionID r) st).
  - intros [= <- <-]. unfold setLaneErrors. destruct (session it now s tn0 sid0) as [s1 st] eqn:Es.
    destruct (session_any it now s tn0 sid0) as (? & ? & E & Hf & _). rewrite Es in E. injection E as <- <-.
    etrans; [exact (session_kept _ _ _ _ _ _ _ tn sid Es) |]. left. by rewrite (put_pinned _ tn0 sid0 st).
  - intros [= <- <-]. by left.
Qed.

End steps.

(** [pin] sets the decision of a session that has none, and no other's. *)
Lemma pin_sets it now s tn0 sid0 e d g :
  pinned s tn0 sid0 = None ->
  pinned (pin it now s tn0 sid0 e d g) tn0 sid0 = if String.eqb d "" then None else Some (e, d).
Proof.
  intros Hn. unfold pin. destruct (session it now s tn0 sid0) as [s1 st] eqn:Es.
  destruct (session_any it now s tn0 sid0) as (? & ? & E & Hf & _). rewrite Es in E. injection E as <- <-.
  assert (pinned s1 tn0 sid0 = None) as Hn1.
  { destruct (session_kept _ _ _ _ _ _ _ tn0 sid0 Es) as [->|]; done. }
  unfold pinned in Hn1. rewrite Hf in Hn1. cbn [mbind option_bind] in Hn1.
  destruct (String.eqb (policy (pin_ st)) ""); [| done]. unfold pinned. rewrite find_put, decide_True by done.
  cbn [mbind option_bind pin_ with_pin policy edit]. done.
Qed.

Lemma pin_kept it now s tn0 sid0 e d g tn sid :
  (tn, sid) <> (tn0, sid0) -> kept tn sid s (pin it now s tn0 sid0 e d g).
Proof.
  intros Hne. unfold pin. destruct (session it now s tn0 sid0) as [s1 st] eqn:Es.
  pose proof (session_kept _ _ _ _ _ _ _ tn sid Es) as Hk.
  destruct (String.eqb (policy (pin_ st)) ""); [| exact Hk]. etrans; [exact Hk |]. left.
  unfold pinned. rewrite find_put, decide_False; [done |]. intros [-> ->]. done.
Qed.

(** ** The pin on disk *)

(** A decision read back from its own pin. *)
Definition pair_of (d : decision) : option ContextEdit * string := d.1.

Definition config_ok (c : Config) : Prop :=
  match cfg_ContextEdit c with Some e => Validate e = true | None => True end.

Lemma policyFromFile_valid rules file ty e g : policyFromFile rules file ty = Some (e, g) -> Validate e = true.
Proof.
  unfold policyFromFile. destruct file as [r|]; [| done]. cbn [mbind option_bind].
  destruct (SelectionFor rules r ty) as [c|]; [| done]. cbn [mbind option_bind].
  destruct (cand_ContextEdit c) as [p|]; [| done]. cbn [mbind option_bind].
  destruct (Validate _) eqn:E; [| done]. by intros [= <- <-].
Qed.

Lemma trialPolicy_edit c revert selected sid e d g arm :
  trialPolicy c revert selected sid = ((Some e, d, g), arm) -> exists g', selected = Some (e, g').
Proof.
  unfold trialPolicy. destruct selected as [[e' g']|]; [| done].
  destruct (match revert with Some r => _ | None => _ end); [done |].
  destruct (negb _); [done |]. intros [= -> _ _]. by eexists.
Qed.

Lemma select_valid c revert sid a :
  config_ok c ->
  forall e d g arm ty, select c revert sid a = (Some e, d, g, arm, ty) -> Validate e = true.
Proof.
  intros Hc e d g arm ty. unfold select, config_ok in *. destruct (cfg_ContextEdit c) as [e'|].
  - by intros [= <- _ _ _ _].
  - destruct (PolicyFile c); [| done]. intros [= Ht _]. apply trialPolicy_edit in Ht as [g' Hg].
    by eapply policyFromFile_valid.
Qed.

Lemma from_pin_decided c revert sid a tn d p :
  config_ok c -> decide_now c revert sid a = (d, p) -> pair_of (from_pin (set_tenant tn p)) = pair_of d /\ pin_SessionID p = sid.
Proof.
  intros Hc. unfold decide_now. pose proof (select_valid c revert sid a Hc) as Hv.
  destruct (select c revert sid a) as [[[[e dd] g] arm] ty]. destruct e as [e|]; intros [= <- <-]; split; try done.
  unfold from_pin, pair_of. cbn [pin_Policy set_tenant pin_Trigger pin_Keep pin_Decision fst].
  rewrite (String.eqb_refl Name). specialize (Hv e _ _ _ _ eq_refl). destruct e as [t k]. cbn in Hv |- *.
  by rewrite Hv.
Qed.

(** ** A proxy over its restarts *)

Record world := mkWorld { w_cfg : Config; w_stats : Stats.t; w_store : Store }.

Inductive event :=
| Other (o : op)
| Ask (tenant sid : string) (a : asking) (o : write_outcome) (summarized : bool) (body : Json.bytes)
| Breach (settings : TrialSettings) (tenant sid : string) (edit : ContextEdit) (generated at_ : time)
    (reason : Z -> string) (o : write_outcome)
| Restart (c : Config).

Section run.
Context `{PL : PriceLayer}.
Context (encode_pin : Pin -> string) (decode_pin : string -> option Pin).
Context (encode_revert : Revert -> string) (decode_revert : string -> option Revert).
Context (stamp : time -> string).
(** The configurations the process is ever started with. *)
Context (configs : list Config).

(** What was sent for a request that asked, under the configuration it met. *)
Record sent := mkSent {
  s_tenant : string;
  s_sid : string;
  s_cfg : Config;
  s_ask : asking;
  s_summarized : bool;
  s_body : Json.bytes;
  s_out : Json.bytes * bool
}.

Definition wstep (it : iteration) (now : time) (w : world) (e : event) : option (world * list sent) :=
  match e with
  | Other o => Some (mkWorld (w_cfg w) (step it now (w_stats w) o).1 (w_store w), [])
  | Ask tn sid a o summarized body =>
      let '(s, st, out) := applyPolicy encode_pin it (w_cfg w) (w_stats w) (w_store w) tn sid a o summarized body in
      Some (mkWorld (w_cfg w) s st, [mkSent tn sid (w_cfg w) a summarized body out])
  | Breach settings tn sid edit generated at_ reason o =>
      let '(s, st) := noteBreach encode_revert stamp (w_store w) settings (w_stats w) tn sid edit generated at_ reason o in
      Some (mkWorld (w_cfg w) s st, [])
  | Restart c =>
      st ← Open decode_pin decode_revert (pins_file (w_store w)) (revert_file (w_store w));
      Some (mkWorld c newStats st, [])
  end.

Fixpoint wrun (w : world) (h : list (iteration * time * event)) : option (world * list sent) :=
  match h with
  | [] => Some (w, [])
  | (it, now, e) :: h =>
      '(w, out) ← wstep it now w e;
      '(w, outs) ← wrun w h;
      Some (w, out ++ outs)
  end.

(** The pin an ask may write is one a restart reads back; a write succeeds, or
    fails before its first byte, which for the session in question it does not. *)
Definition ask_ok (tn sid : string) (e : event) : Prop :=
  match e with
  | Other o => pins o = false
  | Ask tn' sid' a o _ _ =>
      (sid' <> "" -> forall c revert, c ∈ configs -> pin_ok encode_pin decode_pin tn' (decide_now c revert sid' a).2) /\
      (o = Written \/ (o = WriteError 0 /\ (tn', sid') <> (tn, sid)))
  | Breach _ _ _ _ _ _ _ _ => True
  | Restart c => c ∈ configs
  end.

(** The session's decision is on disk, and memory agrees when it remembers. *)
Definition fixed (tn sid : string) (w : world) (d : option ContextEdit * string) : Prop :=
  (exists p, get_pin (w_store w) tn sid = Some p /\ pair_of (from_pin p) = d) /\
  (pinned (w_stats w) tn sid = None \/ pinned (w_stats w) tn sid = Some d).

Definition undecided (tn sid : string) (w : world) : Prop :=
  get_pin (w_store w) tn sid = None /\ pinned (w_stats w) tn sid = None.

Definition world_ok (w : world) : Prop :=
  Forall config_ok configs /\ w_cfg w ∈ configs /\ store_ok decode_pin (w_store w).

(** One decision explains what was sent. *)
Definition explained (d : option ContextEdit * string) (x : sent) : Prop :=
  s_out x = if policyConfigured (s_cfg x) then act d (s_ask x) (s_summarized x) (s_body x) else (s_body x, false).

Lemma noteBreach_pins st settings s tn0 sid0 edit generated at_ reason o s' st' tn sid :
  noteBreach encode_revert stamp st settings s tn0 sid0 edit generated at_ reason o = (s', st') ->
  pinned s' tn sid = pinned s tn sid /\ st_pins st' = st_pins st /\ pins_file st' = pins_file st.
Proof.
  unfold noteBreach. destruct (find_session s tn0 sid0) as [ss|] eqn:Ef; [| by intros [= <- <-]].
  destruct (Stats.breached ss); [by intros [= <- <-] |].
  assert (forall r, pinned (with_rail (put_session s tn0 sid0 (set_breached ss)) r) tn sid = pinned s tn sid) as Hp.
  { intros r. change (pinned (put_session s tn0 sid0 (set_breached ss)) tn sid = pinned s tn sid).
    by apply (put_pinned s tn0 sid0 ss). }
  destruct (_ || _); [intros [= <- <-]; split; [apply Hp | done] |].
  unfold SetRevert. destruct o; intros [= <- <-]; (split; [apply Hp | done]).
Qed.

(** What deciding does to the store. *)
Lemma decidePolicy_store c st tn0 sid0 a o st' d :
  config_ok c -> store_ok decode_pin st ->
  (forall revert, pin_ok encode_pin decode_pin tn0 (decide_now c revert sid0 a).2) ->
  o = Written \/ o = WriteError 0 ->
  decidePolicy encode_pin c st tn0 sid0 a o = (st', d) ->
  store_ok decode_pin st' /\
  (forall tn sid, (tn, sid) <> (tn0, sid0) -> get_pin st' tn sid = get_pin st tn sid) /\
  (o = Written -> exists p, get_pin st' tn0 sid0 = Some p /\ pair_of (from_pin p) = pair_of d) /\
  (forall p, get_pin st tn0 sid0 = Some p -> st' = st /\ d = from_pin p).
Proof using Type.
  intros Hc Hs Hp Ho. unfold decidePolicy. destruct (get_pin st tn0 sid0) as [p|] eqn:Eg.
  { intros [= <- <-]. split_and!; [done | done | by intros _; exists p | by intros p' [= <-]]. }
  specialize (Hp (st_revert st)). destruct (decide_now c (st_revert st) sid0 a) as [d0 p] eqn:Ed. cbn [snd] in Hp.
  destruct (from_pin_decided _ _ _ _ tn0 _ _ Hc Ed) as [Hpair Hsid].
  intros [= <- <-]. split_and!; [by apply SetPin_ok | | | done].
  - intros tn sid Hne. unfold SetPin. destruct o; cbn [fst]; [| done]. unfold get_pin at 1. cbn [st_pins].
    rewrite get_pin_put, decide_False; [done |]. cbn. rewrite Hsid. intros [-> ->]. done.
  - intros ->. unfold SetPin. cbn [fst]. exists (set_tenant tn0 p). split; [| exact Hpair].
    unfold get_pin. cbn [st_pins]. rewrite get_pin_put, decide_True; [done |]. by cbn; rewrite Hsid.
Qed.

(** A request of another session. *)
Lemma ask_other it c s st tn0 sid0 a o summarized body s' st' out tn sid :
  config_ok c -> store_ok decode_pin st -> (tn, sid) <> (tn0, sid0) ->
  (sid0 <> "" -> forall revert, pin_ok encode_pin decode_pin tn0 (decide_now c revert sid0 a).2) ->
  o = Written \/ o = WriteError 0 ->
  applyPolicy encode_pin it c s st tn0 sid0 a o summarized body = (s', st', out) ->
  store_ok decode_pin st' /\ get_pin st' tn sid = get_pin st tn sid /\ kept tn sid s s'.
Proof using Type.
  intros Hc Hs Hne Hp Ho. unfold applyPolicy. destruct (String.eqb_spec sid0 "") as [->|Hsid]; cbn [orb].
  { by intros [= <- <- <-]. }
  destruct (negb (policyConfigured c)); [by intros [= <- <- <-] |].
  unfold sessionDecision. destruct (pinned s tn0 sid0) as [d|]; [by intros [= <- <- <-] |].
  destruct (decidePolicy encode_pin c st tn0 sid0 a o) as [st1 [[e dec] g]] eqn:Ed.
  intros [= <- <- <-]. destruct (decidePolicy_store _ _ _ _ _ _ _ _ Hc Hs (Hp Hsid) Ho Ed) as (Hok & Hg & _).
  split_and!; [exact Hok | by apply Hg | by apply pin_kept].
Qed.

(** A request of the session itself. *)
Lemma ask_own it c s st tn sid a summarized body s' st' out :
  config_ok c -> store_ok decode_pin st ->
  (sid <> "" -> forall revert, pin_ok encode_pin decode_pin tn (decide_now c revert sid a).2) ->
  applyPolicy encode_pin it c s st tn sid a Written summarized body = (s', st', out) ->
  store_ok decode_pin st' /\
  ((s' = s /\ st' = st /\ (policyConfigured c = false \/ sid = "") /\ out = (body, false)) \/
   exists d, policyConfigured c = true /\ out = act d a summarized body /\
     (pinned s' tn sid = None \/ pinned s' tn sid = Some d) /\
     (forall d', pinned s tn sid = Some d' -> d = d' /\ st' = st) /\
     (forall p, pinned s tn sid = None -> get_pin st tn sid = Some p -> d = pair_of (from_pin p) /\ st' = st) /\
     (pinned s tn sid = None -> exists p, get_pin st' tn sid = Some p /\ pair_of (from_pin p) = d)).
Proof using Type.
  intros Hc Hs Hp. unfold applyPolicy. destruct (String.eqb_spec sid "") as [->|Hsid]; cbn [orb].
  { intros [= <- <- <-]. split; [done |]. left. split_and!; try done. by right. }
  destruct (policyConfigured c) eqn:Ec; cbn [negb].
  2: { intros [= <- <- <-]. split; [done |]. left. split_and!; try done. by left. }
  unfold sessionDecision. destruct (pinned s tn sid) as [d|] eqn:Epin.
  { intros [= <- <- <-]. split; [done |]. right. exists d. split_and!; try done; [by right |]. by intros d' [= <-]. }
  destruct (decidePolicy encode_pin c st tn sid a Written) as [st1 [[e dec] g]] eqn:Ed.
  intros [= <- <- <-].
  destruct (decidePolicy_store _ _ _ _ _ _ _ _ Hc Hs (Hp Hsid) (or_introl eq_refl) Ed) as (Hok & _ & Hw & Hold).
  split; [exact Hok |]. right. exists (e, dec). split_and!; try done.
  - rewrite pin_sets by done. case_match; [by left | by right].
  - intros p _ Hg. destruct (Hold p Hg) as [-> Hd]. by rewrite <- Hd.
  - intros _. destruct (Hw eq_refl) as (p & Hg & Hpair). by exists p.
Qed.

Definition own (tn sid : string) (x : sent) : Prop := s_tenant x = tn /\ s_sid x = sid.

#[local] Instance own_dec tn sid x : Decision (own tn sid x).
Proof. unfold own. apply _. Defined.

(** Where the session stands: decided, or not yet. *)
Definition stands (tn sid : string) (w : world) (d : option (option ContextEdit * string)) : Prop :=
  match d with Some d => fixed tn sid w d | None => undecided tn sid w end.

Lemma kept_stands tn sid c s s' st st' c0 d :
  kept tn sid s s' -> get_pin st' tn sid = get_pin st tn sid ->
  stands tn sid (mkWorld c s st) d -> stands tn sid (mkWorld c0 s' st') d.
Proof using Type.
  intros Hk Hg. unfold stands, fixed, undecided. cbn [w_store w_stats]. rewrite Hg. destruct d as [d|].
  - intros [Hp Hm]. split; [done |]. destruct Hk as [-> | ->]; [done | by left].
  - intros [Hp Hm]. split; [done |]. destruct Hk as [-> | ->]; done.
Qed.

(** One event: a session that stands decided stays so and what is sent for it
    is explained by its decision; an undecided one is decided by its first
    request under a policy and by nothing else. *)
Lemma wstep_stands tn sid it now w e d :
  sid <> "" -> world_ok w -> ask_ok tn sid e -> stands tn sid w d ->
  exists w' outs d', wstep it now w e = Some (w', outs) /\ world_ok w' /\ stands tn sid w' d' /\
    (d <> None -> d' = d) /\
    Forall (fun x => own tn sid x -> forall d0, default d0 d' = d0 -> explained d0 x) outs.
Proof using Type.
  intros Hsid (Hcs & Hin & Hs) He Hd. destruct w as [c s st]. cbn [w_cfg w_stats w_store] in *.
  assert (config_ok c) as Hc by (rewrite Forall_forall in Hcs; by apply Hcs).
  destruct e as [o|tn0 sid0 a o summarized body|settings tn0 sid0 edit generated at_ reason o|c0]; cbn [wstep ask_ok w_cfg w_stats w_store] in *.
  - destruct (step it now s o) as [s' out] eqn:Es. pose proof (step_kept _ _ _ _ _ _ tn sid He Es) as Hk.
    eexists _, _, d. split; [reflexivity |]. split; [done |]. split; [by apply (kept_stands tn sid c s s' st st) |]. done.
  - destruct He as [Hp0 Ho]. assert (Hp := fun H revert => Hp0 H c revert Hin). clear Hp0.
    destruct (applyPolicy _ it c s st tn0 sid0 a o summarized body) as [[s' st'] out] eqn:Ea.
    destruct (decide ((tn, sid) = (tn0, sid0))) as [[= <- <-]|Hne].
    + assert (o = Written) as -> by (destruct Ho as [? | [_ ?]]; done).
      destruct (ask_own _ _ _ _ _ _ _ _ _ _ _ _ Hc Hs Hp Ea) as [Hok [(-> & -> & Hcfg & ->) | (d1 & Hcfg & -> & Hm & Hfix & Hold & Hnew)]].
      * exists (mkWorld c s st). eexists _, d. split; [reflexivity |]. split_and!; try done. constructor; [| done].
        intros _ d0 _. unfold explained. cbn [s_out s_cfg s_body]. by destruct Hcfg as [-> | ?].
      * exists (mkWorld c s' st'). eexists _, (Some d1). split; [reflexivity |].
        assert (fixed tn sid (mkWorld c s' st') d1 /\ (d <> None -> Some d1 = d)) as [Hf Hdd].
        { destruct d as [dd|]; cbn [stands] in Hd.
          - destruct Hd as [[p [Hg Hpair]] Hmem]. cbn [w_stats w_store] in *.
            assert (d1 = dd /\ st' = st) as [-> ->].
            { destruct Hmem as [Hmem | Hmem]; [| by apply Hfix]. destruct (Hold p Hmem Hg) as [-> ->]. by split. }
            split; [| done]. split; [by exists p | exact Hm].
          - destruct Hd as [Hg Hmem]. split; [| done]. split; [| exact Hm]. by apply Hnew. }
        split_and!; try done. constructor; [| done]. intros _ d0 <-. unfold explained. cbn.
        by rewrite Hcfg.
    + assert (o = Written \/ o = WriteError 0) as Ho' by (destruct Ho as [? | [? _]]; auto).
      destruct (ask_other _ _ _ _ _ _ _ _ _ _ _ _ _ tn sid Hc Hs Hne Hp Ho' Ea) as (Hok & Hg & Hk).
      eexists _, _, d. split; [reflexivity |]. split; [done |].
      split; [by apply (kept_stands tn sid c s s' st st') |]. split; [done |]. constructor; [| done].
      intros [<- <-]. done.
  - destruct (noteBreach _ _ st settings s tn0 sid0 edit generated at_ reason o) as [s' st'] eqn:En.
    destruct (noteBreach_pins _ _ _ _ _ _ _ _ _ _ _ _ tn sid En) as (Hp & Hpins & Hfile).
    eexists _, _, d. split; [reflexivity |]. split.
    { do 2 (split; [done |]). destruct Hs as [H1 H2 H3]. cbn [w_store]. split; by rewrite ?Hfile, ?Hpins. }
    split; [| done]. apply (kept_stands tn sid c s s' st st'); [by left | unfold get_pin; by rewrite Hpins | done].
  - destruct (Open_pins decode_pin decode_revert st (revert_file st) Hs) as (st' & -> & Hpins & Hok).
    cbn [mbind option_bind]. eexists _, _, d. split; [reflexivity |]. split; [done |]. split; [| done].
    apply (kept_stands tn sid c s newStats st st'); [by right | unfold get_pin; by rewrite Hpins | done].
Qed.

(** C38: a session decides once.  Let the proxy run anything, one call after
    another: requests of any sessions entering, finishing and asking for the
    policy, sessions evicted, the guardrail reverting a policy, the policy file
    rewritten between requests, the process restarted with another flag.  Two
    things are supposed.  The sections of [applyPolicy] are taken by one
    request at a time: first requests that race can split a session, as
    [racing_first_requests_split_a_session] shows.  And each write of the pin
    of this session succeeds; those of other sessions succeed or fail before
    their first byte.  Then the run goes through and a single decision explains
    every body sent for the session: under a configured policy each body is
    what acting on that decision gives, and otherwise it is the client's. *)
Theorem a_session_decides_once :
  forall h w tn sid,
    sid <> "" -> world_ok w -> w_stats w = newStats ->
    Forall (fun e => ask_ok tn sid e.2) h ->
    exists w' outs d, wrun w h = Some (w', outs) /\ Forall (fun x => own tn sid x -> explained d x) outs.
Proof using Type.
  intros h w tn sid Hsid Hw Hstart Hh.
  assert (forall h w d, world_ok w -> stands tn sid w d -> Forall (fun e => ask_ok tn sid e.2) h ->
    exists w' outs d', wrun w h = Some (w', outs) /\ (d <> None -> d' = d) /\
      Forall (fun x => own tn sid x -> forall d0, default d0 d' = d0 -> explained d0 x) outs) as Hrun.
  { clear h w Hw Hstart Hh. induction h as [|[[it now] e] h IH]; intros w d Hw Hd Hh.
    - exists w, [], d. split_and!; done.
    - inversion Hh as [|? ? He Hh']; subst. cbn [snd] in He.
      destruct (wstep_stands tn sid it now w e d Hsid Hw He Hd) as (w1 & o1 & d1 & E1 & Hw1 & Hd1 & Hk1 & Ho1).
      destruct (IH w1 d1 Hw1 Hd1 Hh') as (w2 & o2 & d2 & E2 & Hk2 & Ho2).
      exists w2, (o1 ++ o2), d2. cbn [wrun]. rewrite E1. cbn [mbind option_bind]. rewrite E2. cbn [mbind option_bind].
      split; [done |]. split.
      + intros Hne. rewrite Hk2; [by apply Hk1 | rewrite Hk1; done].
      + apply Forall_app. split; [| exact Ho2]. eapply Forall_impl; [exact Ho1 |]. intros x Hx Hown d0 Hd0.
        apply Hx; [done |]. destruct d1 as [d1|]; [| done]. by rewrite <- Hk2. }
  set (d := pair_of ∘ from_pin <$> get_pin (w_store w) tn sid).
  assert (stands tn sid w d) as Hd.
  { subst d. assert (pinned (w_stats w) tn sid = None) as Hn by (by rewrite Hstart).
    destruct (get_pin (w_store w) tn sid) as [p|] eqn:Eg; cbn [fmap option_fmap option_map stands].
    - split; [by exists p | by left].
    - by split. }
  destruct (Hrun h w d Hw Hd Hh) as (w' & outs & d' & E & _ & Ho).
  exists w', outs, (default (None, NotConfigured) d'). split; [exact E |].
  eapply Forall_impl; [exact Ho |]. intros x Hx Hown. apply Hx; [done |]. by destruct d'.
Qed.

End run.

(** ** Concrete sessions *)

#[local] Instance compiled : PriceLayer := cachemodel None.

Definition trial_all : TrialSettings := mkTrial f0 f0 0.
Definition with_flag : Config := mkConfig false (Some (mkEdit 100000 3)) false trial_all.
Definition with_file : Config := mkConfig false None true trial_all.

Definition asks_with (header : string) : asking := mkAsking header false "claude-opus-5" 4000 7 "rules" None.

(** The pins these requests write, and a codec for them. *)
Definition known_pins : list Pin :=
  [mkPin "s" LocalTenant Name 100000 3 Applied 7 "" ""; mkPin "s" LocalTenant Name 100000 3 SkipNoBeta 7 "" "";
   mkPin "s" LocalTenant "" 0 0 NotConfigured 7 "" "opus/small-prefix"].

Definition toy_encode_pin (p : Pin) : string := (pin_SessionID p ++ "|" ++ pin_Policy p ++ "|" ++ pin_Decision p)%string.

Definition toy_decode_pin (s : string) : option Pin := find_first (fun p => String.eqb (toy_encode_pin p) s) known_pins.

Definition body : Json.bytes := Json.of_string (String Json.quote ("m" ++ String Json.quote ":1")).
Definition object_body : Json.bytes := "{"%char :: body ++ ["}"%char].

Definition first_process : world := mkWorld with_flag newStats (mkStore ∅ "" None None).

(** A first request with the feature, the session evicted with the process by
    a restart under a policy file that selects nothing, and a second request. *)
Definition two_processes : list (iteration * time * event) :=
  [(key_order, 1, Ask LocalTenant "s" (asks_with BetaFeature) Written true object_body);
   (key_order, 2, Other (OpEnter 0 LocalTenant "s" ""));
   (key_order, 3, Restart with_file);
   (key_order, 4, Ask LocalTenant "s" (asks_with BetaFeature) Written true object_body);
   (key_order, 5, Ask LocalTenant "s" (asks_with "") Written true object_body)].

Definition toy_run : option (world * list sent) :=
  wrun toy_encode_pin toy_decode_pin (fun _ => "") (fun _ => None) (fun _ => "") first_process two_processes.

Lemma a_session_decides_once_witness :
  (List.map (fun x => (s_out x).2) <$> (snd <$> toy_run)) = Some [true; true; false] /\
  exists w' outs d, toy_run = Some (w', outs) /\ Forall (fun x => own LocalTenant "s" x -> explained d x) outs.
Proof.
  split; [vm_compute; reflexivity |].
  assert (forall header c (revert : option Revert), header ∈ [BetaFeature; ""] -> c ∈ [with_flag; with_file] ->
    pin_ok toy_encode_pin toy_decode_pin LocalTenant (decide_now c revert "s" (asks_with header)).2) as Hpin.
  { intros header c revert Hh Hc.
    assert (set_tenant LocalTenant (decide_now c revert "s" (asks_with header)).2 ∈ known_pins /\
            pin_SessionID (decide_now c revert "s" (asks_with header)).2 = "s") as [Hin Hs].
    { repeat (apply elem_of_cons in Hh as [-> | Hh]); try (by apply not_elem_of_nil in Hh);
        repeat (apply elem_of_cons in Hc as [-> | Hc]); try (by apply not_elem_of_nil in Hc);
        (split; [| reflexivity]); cbn; repeat (apply elem_of_cons; (left; reflexivity) || right). }
    split; [| | by rewrite Hs | by left];
      repeat (apply elem_of_cons in Hin as [-> | Hin]; [by vm_compute |]); by apply not_elem_of_nil in Hin. }
  apply (a_session_decides_once toy_encode_pin toy_decode_pin (fun _ => "") (fun _ => None) (fun _ => "")
           [with_flag; with_file] two_processes first_process LocalTenant "s").
  - discriminate.
  - split; [repeat constructor |]. split; [by left | apply store_ok_fresh].
  - reflexivity.
  - repeat (apply List.Forall_cons; cbn [snd ask_ok]); try apply List.Forall_nil; try done;
      try (split; [| by left]; intros _ c revert Hc; apply Hpin; [| exact Hc]); repeat (apply elem_of_cons; (left; reflexivity) || right).
Defined.

(** Two first requests of a session, the sections of [applyPolicy] interleaved:
    both find no pin, in memory or on disk; both decide, write their pin and
    record it.  The first carries the parameter and the second does not; the
    process remembers the first's decision and the file keeps the second's, so
    a restart takes the parameter off a session that had it. *)
Lemma racing_first_requests_split_a_session :
  let st := mkStore ∅ "" None None in
  let '((e1, d1, g1), p1) := decide_now with_flag (st_revert st) "s" (asks_with BetaFeature) in
  let '((e2, d2, g2), p2) := decide_now with_flag (st_revert st) "s" (asks_with "") in
  let st := (SetPin toy_encode_pin st LocalTenant p1 Written).1 in
  let st := (SetPin toy_encode_pin st LocalTenant p2 Written).1 in
  let s := Stats.pin key_order 7 newStats LocalTenant "s" e1 d1 g1 in
  let s := Stats.pin key_order 7 s LocalTenant "s" e2 d2 g2 in
  (act (e1, d1) (asks_with BetaFeature) true object_body).2 = true /\
  (act (e2, d2) (asks_with "") true object_body).2 = false /\
  pinned s LocalTenant "s" = Some (Some (mkEdit 100000 3), Applied) /\
  (pair_of ∘ from_pin <$> get_pin st LocalTenant "s") = Some (Some (mkEdit 100000 3), SkipNoBeta).
Proof. vm_compute. repeat split; reflexivity. Qed.

End PolicyPinSpec.
