(* ===== verification/Trim.v ===== *)
(** What capping large tool results would save and break
    ([src/internal/analysis/trim.go]).

    A lane is read only; its requests carry the whole history again, so a
    block is met once in every request that resends it. *)

From S2P Require Import Prelude GoString GoFloat GoTime GoMath Json JsonValue Transcript Tenancy CacheRules CachePrices CacheVerdict.
From S2P Require Import Calibrate Fit Labels Blocks Blame Gap Scope.
From Stdlib Require Import Ascii String.

Open Scope string_scope.
Open Scope list_scope.
Open Scope Z_scope.

Module Trim.
Import CacheRules CachePrices Transcript Fit Blocks Gap.

#[local] Abbreviation length := List.length.

(** ** The plan *)

Definition HarmLaterEdit : string := "later-edit".
Definition HarmReRead : string := "re-read".
Definition HarmQuote : string := "quote".

Record TrimHarm := mkHarm { h_Kind : string; h_Tool : string; Detail : string; Offset : float64 }.

Record ToolSplit := mkSplit { sp_Tool : string; Samples : Z; HeadShare : float64; MiddleShare : float64; TailShare : float64 }.

Record TrimPlan := mkTrimPlan {
  CapBytes : Z;
  tp_Blocks : Z;
  RemovedBytes : Z;
  RemovedPromptTokens : Z;
  SavedUSD : float64;
  SavedInputUSD : float64;
  tp_Estimated : bool;
  Harms : list TrimHarm;
  Splits : list ToolSplit
}.

Definition Overstatement (p : TrimPlan) : float64 :=
  if fleb (SavedUSD p) f0 then f0 else (SavedInputUSD p / SavedUSD p)%float.

(** ** What would be cut *)

Record cut := mkCut { ct_block : Block; ct_removed : string; carried : Z; ct_first : nat }.

Definition cut_key (b : Block) : string := (Label b ++ NUL ++ to_byte (Z.min 64 (len (Text b))) (Text b))%string.

Definition over_cap (capBytes : Z) (b : Block) : bool :=
  String.eqb (Kind b) KindToolResult && negb (String.eqb (Text b) "") && (capBytes <? len (Text b)).

Definition cut_block (capBytes : Z) (i : nat) (st : gmap string cut * list string) (b : Block) : gmap string cut * list string :=
  let '(cuts, order) := st in
  if negb (over_cap capBytes b) then st
  else
    let k := cut_key b in
    match cuts !! k with
    | Some c => (<[k := mkCut (ct_block c) (ct_removed c) (carried c +! 1) (ct_first c)]> cuts, order)
    | None => (<[k := mkCut b (from_byte capBytes (Text b)) 1 i]> cuts, order ++ [k])
    end.

Definition request_blocks (r : Request) : list Block := flat_map Transcript.Blocks (Context r).

Definition cut_request (capBytes : Z) (st : gmap string cut * list string) (ir : nat * Request) : gmap string cut * list string :=
  fold_left (cut_block capBytes ir.1) (request_blocks ir.2) st.

Definition cuts_of (capBytes : Z) (rs : list Request) : gmap string cut * list string :=
  fold_left (cut_request capBytes) (indexed rs) (∅, []).

(** ** The probe *)

Definition offsetOf (text needle : string) : float64 :=
  let i := GoMath.Index text needle in
  if (i <? 0) || (len text =? 0) then of_int 1 else (of_int i / of_int (len text))%float.

(** [""] where the input is not an object with that text. *)
Definition oldString (input : string) : string :=
  default "" (RawJson.into_struct ["old_string"] (fun _ => RawJson.into_string) (Json.of_string input) "").

Definition pathOf (label : string) : string :=
  match Cut ": " label with
  | Some (_, rest) => match Cut " " rest with Some (_, path) => path | None => "" end
  | None => ""
  end.

Definition shortLabel (label : string) : string :=
  let s := safeLabel label in
  if (Z.of_nat MaxContextLabel <? len s)
  then (to_byte (Z.of_nat MaxContextLabel - 1) s ++ Json.to_string Labels.ellipsis)%string
  else s.

Definition removed_line (retained removed : string) (m : gmap string Z) (ln : string) : gmap string Z :=
  let ln := Labels.TrimSpace ln in
  if (24 <=? len ln) && negb (contains retained ln) then <[ln := GoMath.Index removed ln]> m else m.

Definition removedLines (retained removed : string) : gmap string Z :=
  fold_left (removed_line retained removed) (Split1 LF removed) ∅.

Definition add_harm (tool kind detail : string) (off : float64) (st : list TrimHarm * gset string) : list TrimHarm * gset string :=
  let '(harms, seen) := st in
  let k := (kind ++ detail)%string in
  if bool_decide (k ∈ seen) then st else (harms ++ [mkHarm kind tool detail off], {[k]} ∪ seen).

Section probe.
Context (it : iteration).

Definition probe_block (b : Block) (removed retained path : string) (lines : gmap string Z)
    (st : list TrimHarm * gset string) (later : Block) : list TrimHarm * gset string :=
  let tool := toolNameOf (Label b) in
  if String.eqb (Kind later) KindToolUse && String.eqb (ToolName later) "Edit" then
    let old := oldString (Text later) in
    if String.eqb old "" || (len old <? 8) || contains retained old || negb (contains removed old) then st
    else add_harm tool HarmLaterEdit ("a later Edit's old_string sits only in the removed part of " ++ shortLabel (Label b))%string
           (offsetOf (Text b) old) st
  else if String.eqb (Kind later) KindToolResult && negb (String.eqb path "") && String.eqb (ToolName later) (ToolName b)
          && String.eqb (pathOf (Label later)) path && negb (String.eqb (ToolUseID later) (ToolUseID b))
  then add_harm tool HarmReRead (shortLabel (Label b) ++ " was read again after the cap would have trimmed it")%string (of_int (-1)) st
  else if String.eqb (Kind later) KindText then
    match find_first (fun kv => contains (Text later) kv.1) (go_range it lines) with
    | Some (_, off) =>
        add_harm tool HarmQuote ("a later message quotes a line only present in the removed part of " ++ shortLabel (Label b))%string
          (of_int (len (Text b) -! len removed +! off) / of_int (len (Text b)))%float st
    | None => st
    end
  else st.

(** The requests after the one the block was first met in. *)
Definition probeCut (rs : list Request) (c : cut) : list TrimHarm :=
  let b := ct_block c in
  let removed := ct_removed c in
  let retained := to_byte (len (Text b) -! len removed) (Text b) in
  (fold_left (fun st r => fold_left (probe_block b removed retained (pathOf (Label b)) (removedLines retained removed)) (request_blocks r) st)
     (drop (S (ct_first c)) rs) ([], ∅)).1.

(** ** Where in a block the harm lies *)

Definition place_harm (m : gmap string (Z * Z * Z * Z)) (h : TrimHarm) : gmap string (Z * Z * Z * Z) :=
  if String.eqb (h_Tool h) "" || fltb (Offset h) f0 then m
  else
    let '(n, hd, mid, tl) := default (0, 0, 0, 0) (m !! h_Tool h) in
    <[h_Tool h := if fltb (Offset h) (of_ratio 1 3) then (n +! 1, hd + 1, mid, tl)
                  else if fltb (Offset h) (of_ratio 2 3) then (n +! 1, hd, mid + 1, tl)
                  else (n +! 1, hd, mid, tl + 1)]> m.

Definition split_of (m : gmap string (Z * Z * Z * Z)) (tool : string) : ToolSplit :=
  let '(n, hd, mid, tl) := default (0, 0, 0, 0) (m !! tool) in
  mkSplit tool n (of_int hd / of_int n)%float (of_int mid / of_int n)%float (of_int tl / of_int n)%float.

Definition DeriveSplits (harms : list TrimHarm) : list ToolSplit :=
  let m := fold_left place_harm harms ∅ in
  List.map (split_of m) (Strings (List.map fst (map_to_list m))).

(** ** The score *)

Context (ov : option CacheRules.Rules).

Definition empty_plan (capBytes : Z) : TrimPlan := mkTrimPlan capBytes 0 0 0 f0 f0 true [] [].

Definition ScoreTrim (lane : option Lane) (fit : TokenFit) (capBytes : Z) : TrimPlan :=
  match lane with
  | None => empty_plan capBytes
  | Some lane =>
      if capBytes <=? 0 then empty_plan capBytes
      else
        let rs := Requests lane in
        let '(cuts, order) := cuts_of capBytes rs in
        let cs := omap (fun k => cuts !! k) order in
        if bool_decide (cuts = ∅) then empty_plan capBytes
        else
          let first := head rs in
          let model := match first with Some r => if String.eqb (Model r) "" then "claude-opus-5" else Model r | None => "claude-opus-5" end in
          let '(price, priced) := PriceForAt ov model (default zero_time (Timestamp <$> first)) in
          let bytes := fold_left (fun n c => n +! len (ct_removed c)) cs 0 in
          let tokens := fold_left (fun n c => n +! EstimateTokens fit (len (ct_removed c)) *! carried c) cs 0 in
          let mtok := (of_int tokens / of_int 1000000)%float in
          let harms := flat_map (probeCut rs) cs in
          mkTrimPlan capBytes (Z.of_nat (length cs)) bytes tokens
            (if priced then mtok * InputPerMTok price * ReadMult price else f0)%float
            (if priced then mtok * InputPerMTok price else f0)%float true harms (DeriveSplits harms)
  end.

End probe.

(** ** What the probe counts *)

Definition later_edit (retained removed : string) (b : Block) : Prop :=
  Kind b = KindToolUse /\ ToolName b = "Edit" /\ 8 <= len (oldString (Text b)) /\
  contains retained (oldString (Text b)) = false /\ contains removed (oldString (Text b)) = true.

(** A harm of the strongest kind has an edit behind it that only the removed
    part could have been written from. *)
Lemma an_edit_stands_behind_it it b removed retained path lines st later h :
  h ∈ (probe_block it b removed retained path lines st later).1 -> h_Kind h = HarmLaterEdit ->
  h ∈ st.1 \/ later_edit retained removed later.
Proof.
  destruct st as [harms seen]. unfold probe_block.
  assert (forall kind detail off, kind <> HarmLaterEdit -> h ∈ (add_harm (toolNameOf (Label b)) kind detail off (harms, seen)).1 ->
    h_Kind h = HarmLaterEdit -> h ∈ harms) as Hother.
  { intros kind detail off Hk. unfold add_harm. case_bool_decide; [done |]. cbn.
    intros [Hin| ->%list_elem_of_singleton]%elem_of_app Hh; [done |]. by cbn in Hh. }
  destruct (String.eqb (Kind later) KindToolUse && String.eqb (ToolName later) "Edit") eqn:Ek.
  - apply andb_true_iff in Ek as [E1%String.eqb_eq E2%String.eqb_eq].
    destruct (String.eqb (oldString (Text later)) "" || _ || _ || _) eqn:Eo; [by left |]. intros _ _. right.
    rewrite !orb_false_iff, negb_false_iff, Z.ltb_ge in Eo. unfold later_edit. tauto.
  - destruct (_ && _ && _ && _ && _); [intros H1 H2; left; refine (Hother _ _ _ _ H1 H2); discriminate |].
    destruct (String.eqb (Kind later) KindText); [| by left].
    destruct (find_first _ _) as [[ln off]|]; [intros H1 H2; left; refine (Hother _ _ _ _ H1 H2); discriminate | by left].
Qed.

(** ** Concrete lanes *)

Definition line_one : string := "the first line of the file that was read".
Definition line_two : string := "the second line of the file that was read".

Definition read_result : Block :=
  mkBlock KindToolResult "tool result: Read /a.go" 200
    ("head of the file" ++ String LF "" ++ line_one ++ String LF "" ++ line_two)%string "t1" "Read" "" false None.

Definition says (text : string) : Block := mkBlock KindText "user" (len text) text "" "" "" false None.

Definition request_with (at_ : time) (bs : list Block) : Request :=
  mkRequest "r" true false "" "claude-opus-5" "" "" at_ (mkUsage 10 0 9000 200 0 0 0 true) [mkMessage "m" "user" at_ bs] None 0 0 [].

(** A lane resends its whole history, so a text from before the block is met
    again after it: pasted first and read then, it counts as a quotation. *)
Definition pasted_before : list Request :=
  let bs := [says line_one; read_result] in [request_with (1 * second) bs; request_with (2 * second) bs].

Lemma earlier_text_counts_as_a_later_quote :
  List.map h_Kind (Harms (ScoreTrim key_order None (Some (mkLane "l" false false pasted_before)) (mkFit (of_ratio 25 100) f0 10 (measured 0) (measured 0)) 17))
  = [HarmQuote].
Proof. vm_compute. reflexivity. Qed.

(** A text that quotes two lines is placed at whichever the map yields first. *)
Definition reversed : iteration :=
  {| go_range := fun V (m : gmap string V) => rev (map_to_list m);
     go_range_perm := fun V m => symmetry (Permutation_rev (map_to_list m)) |}.

Definition quotes_both : list Request :=
  [request_with (1 * second) [read_result]; request_with (2 * second) [read_result; says (line_one ++ line_two)]].

Definition offsets (it : iteration) : list float64 :=
  List.map Offset (Harms (ScoreTrim it None (Some (mkLane "l" false false quotes_both)) (mkFit (of_ratio 25 100) f0 10 (measured 0) (measured 0)) 17)).

Lemma the_place_of_a_quote_depends_on_map_order :
  (length (offsets key_order) = 1 /\ length (offsets reversed) = 1 /\ offsets key_order <> offsets reversed)%nat.
Proof. vm_compute. repeat split. discriminate. Qed.

End Trim.
