(* ===== verification/Codex.v ===== *)
(** Reading a Codex rollout ([src/internal/transcript/codex.go]): which usage
    records are billed, which are repeats of one already billed and which
    cannot be believed.

    The scanner's lines are modelled with its limit; [ParseFloat] is the
    standard library's. *)

From S2P Require Import Prelude GoString GoFloat GoTime Transcript Json JsonValue Labels GoMath Blame.
From Stdlib Require Import Ascii String.

Open Scope string_scope.
Open Scope list_scope.
Open Scope Z_scope.

Module Codex.
Import Json JsonValue RawJson Transcript.

#[local] Abbreviation length := List.length.

(** ** What the file holds *)

Record codexUsage := mkCodexUsage {
  cx_Input : Z; Cached : Z; CacheWrite : Z; cx_Output : Z; Reasoning : Z; cx_Total : Z
}.

Definition zero_codex_usage : codexUsage := mkCodexUsage 0 0 0 0 0 0.

Definition into_codex_usage : decoded codexUsage :=
  into_struct ["input_tokens"; "cached_input_tokens"; "cache_write_input_tokens"; "output_tokens"; "reasoning_output_tokens"; "total_tokens"]
    (fun tag raw u =>
      let 'mkCodexUsage i c w o r t := u in
      if String.eqb tag "input_tokens" then (fun x => mkCodexUsage x c w o r t) <$> into_int raw i
      else if String.eqb tag "cached_input_tokens" then (fun x => mkCodexUsage i x w o r t) <$> into_int raw c
      else if String.eqb tag "cache_write_input_tokens" then (fun x => mkCodexUsage i c x o r t) <$> into_int raw w
      else if String.eqb tag "output_tokens" then (fun x => mkCodexUsage i c w x r t) <$> into_int raw o
      else if String.eqb tag "reasoning_output_tokens" then (fun x => mkCodexUsage i c w o x t) <$> into_int raw r
      else (fun x => mkCodexUsage i c w o r x) <$> into_int raw t).

Record codexTokenInfo := mkInfo { info_Total : option codexUsage; info_Last : option codexUsage; info_ContextWindow : Z }.

Definition into_info : decoded codexTokenInfo :=
  into_struct ["total_token_usage"; "last_token_usage"; "model_context_window"] (fun tag raw i =>
    let 'mkInfo t l w := i in
    if String.eqb tag "total_token_usage" then (fun x => mkInfo x l w) <$> into_pointer zero_codex_usage into_codex_usage raw t
    else if String.eqb tag "last_token_usage" then (fun x => mkInfo t x w) <$> into_pointer zero_codex_usage into_codex_usage raw l
    else (fun x => mkInfo t l x) <$> into_int raw w).

Record codexCredits := mkCredits { HasCredits : bool; Unlimited : bool; Balance : option float64 }.
Record codexWindow := mkWindow { UsedPercent : float64; WindowMinutes : Z; ResetsAt : Z }.
Record codexRateLimits := mkRateLimits {
  rl_LimitID : string; rl_PlanType : string; Primary : option codexWindow; Secondary : option codexWindow; rl_Credits : option codexCredits
}.

Section decode.
Context (ParseFloat : string -> option float64).

Definition into_float : decoded float64 := fun raw cur =>
  match parse raw with Some (Num n) => ParseFloat (to_string n) | Some Null => Some cur | _ => None end.

Definition into_credits : decoded codexCredits :=
  into_struct ["has_credits"; "unlimited"; "balance"] (fun tag raw c =>
    let 'mkCredits h u b := c in
    if String.eqb tag "has_credits" then (fun x => mkCredits x u b) <$> into_bool raw h
    else if String.eqb tag "unlimited" then (fun x => mkCredits h x b) <$> into_bool raw u
    else (fun x => mkCredits h u x) <$> into_pointer f0 into_float raw b).

Definition into_window : decoded codexWindow :=
  into_struct ["used_percent"; "window_minutes"; "resets_at"] (fun tag raw w =>
    let 'mkWindow u m r := w in
    if String.eqb tag "used_percent" then (fun x => mkWindow x m r) <$> into_float raw u
    else if String.eqb tag "window_minutes" then (fun x => mkWindow u x r) <$> into_int raw m
    else (fun x => mkWindow u m x) <$> into_int raw r).

Definition into_rate_limits : decoded codexRateLimits :=
  into_struct ["limit_id"; "plan_type"; "primary"; "secondary"; "credits"] (fun tag raw l =>
    let 'mkRateLimits i p a b c := l in
    if String.eqb tag "limit_id" then (fun x => mkRateLimits x p a b c) <$> into_string raw i
    else if String.eqb tag "plan_type" then (fun x => mkRateLimits i x a b c) <$> into_string raw p
    else if String.eqb tag "primary" then (fun x => mkRateLimits i p x b c) <$> into_pointer (mkWindow f0 0 0) into_window raw a
    else if String.eqb tag "secondary" then (fun x => mkRateLimits i p a x c) <$> into_pointer (mkWindow f0 0 0) into_window raw b
    else (fun x => mkRateLimits i p a b x) <$> into_pointer (mkCredits false false None) into_credits raw c).

Record codexPayload := mkPayload {
  pl_Type : string; pl_ID : string; CLIVersion : string; pl_Model : string;
  Info : option codexTokenInfo; RateLimits : option codexRateLimits
}.

Definition zero_payload : codexPayload := mkPayload "" "" "" "" None None.

Definition into_payload : decoded codexPayload :=
  into_struct ["type"; "id"; "cli_version"; "model"; "info"; "rate_limits"] (fun tag raw p =>
    let 'mkPayload t i v m n r := p in
    if String.eqb tag "type" then (fun x => mkPayload x i v m n r) <$> into_string raw t
    else if String.eqb tag "id" then (fun x => mkPayload t x v m n r) <$> into_string raw i
    else if String.eqb tag "cli_version" then (fun x => mkPayload t i x m n r) <$> into_string raw v
    else if String.eqb tag "model" then (fun x => mkPayload t i v x n r) <$> into_string raw m
    else if String.eqb tag "info" then (fun x => mkPayload t i v m x r) <$> into_pointer (mkInfo None None 0) into_info raw n
    else (fun x => mkPayload t i v m n x) <$> into_pointer (mkRateLimits "" "" None None None) into_rate_limits raw r).

Record codexLine := mkLine { ln_Timestamp : string; ln_Type : string; ln_Payload : bytes }.

Definition into_line : decoded codexLine :=
  into_struct ["timestamp"; "type"; "payload"] (fun tag raw l =>
    let 'mkLine t y p := l in
    if String.eqb tag "timestamp" then (fun x => mkLine x y p) <$> into_string raw t
    else if String.eqb tag "type" then (fun x => mkLine t x p) <$> into_string raw y
    else (fun x => mkLine t y x) <$> into_raw raw p).

(** ** The session *)

Record CodexQuota := mkQuota {
  LimitID : string; PlanType : string; HasWindow : bool; Credits : option codexCredits;
  q_Primary : codexWindow; q_Secondary : codexWindow
}.

Record CodexBreak := mkCodexBreak { br_Line : Z; BeforeShare : float64; AfterShare : float64; ColdTokens : Z }.

Record CodexSession := mkCodexSession {
  cs_ID : string;
  cs_ClientVersion : string;
  cs_Model : string;
  Billed : Usage;
  Reported : Usage;
  Rebased : bool;
  cs_Compactions : list Compaction;
  cs_Quota : option CodexQuota;
  ContextWindow : Z;
  Breaks : list CodexBreak;
  Turns : Z;
  prevShare : float64;
  prevTotal : option Z;
  line : Z;
  Skipped : Z;
  Unparsable : Z;
  ReEmitted : Z
}.

Definition no_usage : Usage := mkUsage 0 0 0 0 0 0 0 false.

Definition new_codex : CodexSession := mkCodexSession "" "" "" no_usage no_usage false [] None 0 [] 0 f0 None 0 0 0 0.

(** [(u Usage) Total()] *)
Definition Usage_Total (u : Usage) : Z := PromptTotal u +! Output u.

(** [None] where the record cannot be believed. *)
Definition usage (c : option codexUsage) : option Usage :=
  c ← c;
  if (cx_Input c <? 0) || (cx_Output c <? 0) || (Cached c <? 0) || (Reasoning c <? 0) || (CacheWrite c <? 0) then None
  else if (cx_Input c <? Cached c) || (cx_Output c <? Reasoning c) || (cx_Input c <? Cached c +! CacheWrite c) then None
  else if (0 <? cx_Total c) && (cx_Input c +! cx_Output c =? 0) then None
  else Some (mkUsage (cx_Input c -! Cached c -! CacheWrite c) (CacheWrite c) (Cached c) (cx_Output c) (Reasoning c) 0 0 false).

Definition add (u o : Usage) : Usage :=
  mkUsage (Input u +! Input o) (CacheCreation u +! CacheCreation o) (CacheRead u +! CacheRead o) (Output u +! Output o)
    (ThinkingTokens u +! ThinkingTokens o) (Create5m u) (Create1h u) (CreateSplitPresent u).

Definition quota (r : codexRateLimits) : CodexQuota :=
  mkQuota (rl_LimitID r) (rl_PlanType r) (bool_decide (is_Some (Primary r)) || bool_decide (is_Some (Secondary r))) (rl_Credits r)
    (default (mkWindow f0 0 0) (Primary r)) (default (mkWindow f0 0 0) (Secondary r)).

Definition codexWarmShare : float64 := of_ratio 50 100.
Definition codexColdShare : float64 := of_ratio 10 100.
Definition codexMinColdRead : Z := 2000.

Definition observeCache (u : Usage) (s : CodexSession) : CodexSession :=
  let prompt := PromptTotal u in
  if prompt <=? 0 then s
  else
    let share := (of_int (CacheRead u) / of_int prompt)%float in
    let 'mkCodexSession i v m b r rb cm q w br t ps pt ln sk un re := s in
    mkCodexSession i v m b r rb cm q w
      (if fltb codexWarmShare ps && fltb share codexColdShare && (codexMinColdRead <=? prompt)
       then br ++ [mkCodexBreak ln ps share (Input u)] else br)
      t share pt ln sk un re.

(** A record that names the usage of the last response. *)
Definition bill (advanced : bool) (last : option codexUsage) (s : CodexSession) : CodexSession :=
  let 'mkCodexSession i v m b r rb cm q w br t ps pt ln sk un re := s in
  match usage last with
  | Some u =>
      if advanced
      then observeCache u (mkCodexSession i v m (add b u) r rb cm q w br (t +! 1) ps pt ln sk un re)
      else mkCodexSession i v m b r rb cm q w br t ps pt ln sk un (re +! 1)
  | None => if bool_decide (is_Some last) then mkCodexSession i v m b r rb cm q w br t ps pt ln (sk +! 1) un re else s
  end.

Definition advanced (info : codexTokenInfo) (prevTotal : option Z) : bool :=
  match info_Total info, prevTotal with
  | Some t, Some prev => negb (cx_Total t =? prev)
  | _, _ => true
  end.

Definition token_count (info : codexTokenInfo) (s : CodexSession) : CodexSession :=
  let 'mkCodexSession i v m b r rb cm q w br t ps pt ln sk un re := s in
  let w := if 0 <? info_ContextWindow info then info_ContextWindow info else w in
  let pt' := match info_Total info with Some x => Some (cx_Total x) | None => pt end in
  let s := bill (advanced info pt) (info_Last info) (mkCodexSession i v m b r rb cm q w br t ps pt' ln sk un re) in
  match usage (info_Total info) with
  | Some u =>
      let 'mkCodexSession i v m b _ rb cm q w br t ps pt ln sk un re := s in mkCodexSession i v m b u rb cm q w br t ps pt ln sk un re
  | None => s
  end.

Definition event (p : codexPayload) (s : CodexSession) : CodexSession :=
  let 'mkCodexSession i v m b r rb cm q w br t ps pt ln sk un re := s in
  if String.eqb (pl_Type p) "context_compacted" then
    mkCodexSession i v m b r true (cm ++ [mkCompaction "context_compacted" 0 0 0 0 zero_time]) q w br t ps pt ln sk un re
  else if String.eqb (pl_Type p) "token_count" then
    let s := match RateLimits p with
             | Some l => mkCodexSession i v m b r rb cm (Some (quota l)) w br t ps pt ln sk un re
             | None => s
             end in
    match Info p with Some info => token_count info s | None => s end
  else s.

Definition unparsable (s : CodexSession) : CodexSession :=
  let 'mkCodexSession i v m b r rb cm q w br t ps pt ln sk un re := s in
  mkCodexSession i v m b r rb cm q w br t ps pt ln (sk +! 1) (un +! 1) re.

Definition next_line (s : CodexSession) : CodexSession :=
  let 'mkCodexSession i v m b r rb cm q w br t ps pt ln sk un re := s in
  mkCodexSession i v m b r rb cm q w br t ps pt (ln +! 1) sk un re.

Definition on_line (l : codexLine) (p : codexPayload) (s : CodexSession) : CodexSession :=
  let 'mkCodexSession i v m b r rb cm q w br t ps pt ln sk un re := s in
  if String.eqb (ln_Type l) "session_meta" then mkCodexSession (pl_ID p) (CLIVersion p) m b r rb cm q w br t ps pt ln sk un re
  else if String.eqb (ln_Type l) "turn_context" then
    if String.eqb (pl_Model p) "" then s else mkCodexSession i v (pl_Model p) b r rb cm q w br t ps pt ln sk un re
  else if String.eqb (ln_Type l) "event_msg" then event p s
  else s.

(** What a line says, if it can be read. *)
Definition decode_line (text : string) : option (codexLine * codexPayload) :=
  l ← into_line (of_string text) (mkLine "" "" []);
  p ← match ln_Payload l with [] => Some zero_payload | raw => into_payload raw zero_payload end;
  Some (l, p).

Definition codex_step (s : CodexSession) (raw : string) : CodexSession :=
  let text := Labels.TrimSpace raw in
  if String.eqb text "" then s
  else
    let s := next_line s in
    match decode_line text with
    | Some (l, p) => on_line l p s
    | None => unparsable s
    end.

(** [bufio.Scanner]: the lines before the first too long for its buffer, and
    whether there was one. *)
Definition maxLine : Z := 16 * 1024 * 1024.

Fixpoint fitting (max : Z) (lines : list string) : list string * bool :=
  match lines with
  | [] => ([], false)
  | l :: rest => if max <=? len l then ([], true) else let '(ls, e) := fitting max rest in (l :: ls, e)
  end.

Definition ParseCodex (body : string) : CodexSession * bool :=
  let '(lines, err) := fitting maxLine (Split1 LF body) in (fold_left codex_step lines new_codex, err).

End decode.

End Codex.

(** A rollout's bill: every usage record is billed once, or is a repeat of one
    already billed, or is refused, and each is counted as what it was. *)

Module CodexSpec.
Import Json JsonValue RawJson Transcript Codex.

#[local] Abbreviation length := List.length.

(** ** What becomes of a usage record *)

Inductive fate := BilledAs (c : codexUsage) | Repeated | Refused | Silent.

Definition fate_of (prev : option Z) (i : codexTokenInfo) : fate :=
  match info_Last i with
  | None => Silent
  | Some c =>
      match usage (Some c) with
      | Some _ => if advanced i prev then BilledAs c else Repeated
      | None => Refused
      end
  end.

Definition total_after (prev : option Z) (i : codexTokenInfo) : option Z :=
  match info_Total i with Some t => Some (cx_Total t) | None => prev end.

Fixpoint fates (prev : option Z) (infos : list codexTokenInfo) : list fate :=
  match infos with
  | [] => []
  | i :: infos => fate_of prev i :: fates (total_after prev i) infos
  end.

Definition billed_prompt (f : fate) : Z := match f with BilledAs c => cx_Input c | _ => 0 end.
Definition billed_output (f : fate) : Z := match f with BilledAs c => cx_Output c | _ => 0 end.
Definition billed_read (f : fate) : Z := match f with BilledAs c => Cached c | _ => 0 end.
Definition billed_write (f : fate) : Z := match f with BilledAs c => CacheWrite c | _ => 0 end.
Definition billed_reasoning (f : fate) : Z := match f with BilledAs c => Reasoning c | _ => 0 end.
Definition is_billed (f : fate) : Z := match f with BilledAs _ => 1 | _ => 0 end.
Definition is_repeated (f : fate) : Z := match f with Repeated => 1 | _ => 0 end.
Definition is_refused (f : fate) : Z := match f with Refused => 1 | _ => 0 end.

Definition sum_of (m : fate -> Z) (fs : list fate) : Z := foldr (fun f n => m f + n) 0 fs.

Lemma sum_cons m f fs : sum_of m (f :: fs) = m f + sum_of m fs.
Proof. done. Qed.

(** ** One record *)

(** A record that is believed keeps the provider's totals: what it calls the
    prompt is split into what was read, what was written and the rest. *)
Lemma usage_keeps_totals c u :
  usage (Some c) = Some u ->
  PromptTotal u ≡₆₄ cx_Input c /\ Output u = cx_Output c /\ CacheRead u = Cached c /\ CacheCreation u = CacheWrite c /\
  ThinkingTokens u = Reasoning c.
Proof.
  unfold usage. cbn [mbind option_bind]. destruct (_ || _ || _ || _ || _); [done |]. destruct (_ || _ || _); [done |].
  destruct (_ && _); [done |]. intros [= <-]. split; [| done]. unfold PromptTotal. cbn [Input CacheCreation CacheRead].
  rewrite !cong64_iadd, !cong64_isub. apply cong64_iff. exists 0. lia.
Qed.

Lemma add_keeps_totals u o :
  PromptTotal (add u o) ≡₆₄ PromptTotal u + PromptTotal o /\ Output (add u o) ≡₆₄ Output u + Output o.
Proof.
  unfold PromptTotal, add. cbn [Input CacheCreation CacheRead Output]. rewrite !cong64_iadd. split; [| done].
  apply cong64_iff. exists 0. lia.
Qed.

Record moved (s s' : CodexSession) (f : fate) (prev : option Z) : Prop := {
  mv_prompt : PromptTotal (Billed s') ≡₆₄ PromptTotal (Billed s) + billed_prompt f;
  mv_output : Output (Billed s') ≡₆₄ Output (Billed s) + billed_output f;
  mv_read : CacheRead (Billed s') ≡₆₄ CacheRead (Billed s) + billed_read f;
  mv_write : CacheCreation (Billed s') ≡₆₄ CacheCreation (Billed s) + billed_write f;
  mv_reasoning : ThinkingTokens (Billed s') ≡₆₄ ThinkingTokens (Billed s) + billed_reasoning f;
  mv_turns : Turns s' ≡₆₄ Turns s + is_billed f;
  mv_repeated : ReEmitted s' ≡₆₄ ReEmitted s + is_repeated f;
  mv_refused : Skipped s' - Unparsable s' ≡₆₄ Skipped s - Unparsable s + is_refused f;
  mv_prev : prevTotal s' = prev
}.

Record same_bill (s s' : CodexSession) : Prop := {
  sb_billed : Billed s' = Billed s;
  sb_turns : Turns s' = Turns s;
  sb_repeated : ReEmitted s' = ReEmitted s;
  sb_skipped : Skipped s' = Skipped s;
  sb_unparsable : Unparsable s' = Unparsable s;
  sb_prev : prevTotal s' = prevTotal s
}.

Lemma same_bill_moved s s' : same_bill s s' -> moved s s' Silent (prevTotal s).
Proof. intros [H1 H2 H3 H4 H5 H6]. split; rewrite ?H1, ?H2, ?H3, ?H4, ?H5; cbn; rewrite ?Z.add_0_r; done. Qed.

Lemma moved_same s s1 s' f prev : moved s s1 f prev -> same_bill s1 s' -> moved s s' f prev.
Proof. intros [] [H1 H2 H3 H4 H5 H6]. split; rewrite ?H1, ?H2, ?H3, ?H4, ?H5, ?H6; done. Qed.

Lemma observeCache_same u s : same_bill s (observeCache u s).
Proof. destruct s. unfold observeCache. by destruct (PromptTotal u <=? 0). Qed.

Lemma billed_moved adv last s :
  moved s (bill adv last s)
    (match last with
     | None => Silent
     | Some c => match usage (Some c) with Some _ => if adv then BilledAs c else Repeated | None => Refused end
     end) (prevTotal s).
Proof.
  destruct s. unfold bill. destruct last as [c|]; [| by apply same_bill_moved].
  destruct (usage (Some c)) as [u|] eqn:Eu.
  - destruct (usage_keeps_totals c u Eu) as (Hp & Ho & Hrd & Hwr & Hre). destruct adv.
    + eapply moved_same; [| apply observeCache_same].
      destruct (add_keeps_totals Billed0 u) as [Hap Hao].
      split; cbn [Billed Turns ReEmitted Skipped Unparsable prevTotal billed_prompt billed_output billed_read billed_write billed_reasoning is_billed is_repeated is_refused];
        rewrite ?Z.add_0_r; try done;
        [by rewrite Hap, Hp | by rewrite Hao, Ho | rewrite <- Hrd | rewrite <- Hwr | rewrite <- Hre |]; apply cong64_iadd.
    + split; cbn; rewrite ?Z.add_0_r; try done; apply cong64_iadd.
  - split; cbn; rewrite ?Z.add_0_r; try done. rewrite cong64_iadd. apply cong64_iff. exists 0. lia.
Qed.

Lemma token_count_moved i s : moved s (token_count i s) (fate_of (prevTotal s) i) (total_after (prevTotal s) i).
Proof.
  destruct s as [si v m b r rb cm q w br t ps pt ln sk un re]. unfold token_count, fate_of, total_after. cbn [prevTotal].
  set (w' := if 0 <? info_ContextWindow i then info_ContextWindow i else w).
  set (pt' := match info_Total i with Some x => Some (cx_Total x) | None => pt end).
  pose proof (billed_moved (advanced i pt) (info_Last i) (mkCodexSession si v m b r rb cm q w' br t ps pt' ln sk un re)) as H.
  set (s1 := bill _ _ _) in *.
  assert (moved (mkCodexSession si v m b r rb cm q w br t ps pt ln sk un re) s1 (fate_of pt i) pt') as H1 by by destruct H.
  destruct (usage (info_Total i)) as [u|]; [| exact H1]. eapply moved_same; [exact H1 |]. by destruct s1.
Qed.

Section rollout.
Context (ParseFloat : string -> option float64).

(** The usage record a line holds, if it is one. *)
Definition token_info (raw : string) : option codexTokenInfo :=
  let text := Labels.TrimSpace raw in
  if String.eqb text "" then None
  else match decode_line ParseFloat text with
       | Some (l, p) => if String.eqb (ln_Type l) "event_msg" && String.eqb (pl_Type p) "token_count" then Info p else None
       | None => None
       end.

Lemma next_line_same s : same_bill s (next_line s).
Proof. by destruct s. Qed.

Lemma unparsable_moved s : moved s (unparsable s) Silent (prevTotal s).
Proof.
  destruct s. split; cbn; rewrite ?Z.add_0_r; try done. rewrite !cong64_iadd. apply cong64_iff. exists 0. lia.
Qed.

Lemma moved_from s0 s s' f prev : same_bill s0 s -> moved s s' f prev -> moved s0 s' f prev.
Proof. intros [H1 H2 H3 H4 H5 H6] []. split; rewrite <- ?H1, <- ?H2, <- ?H3, <- ?H4, <- ?H5, <- ?H6; done. Qed.

Lemma line_moved s raw :
  moved s (codex_step ParseFloat s raw)
    (match token_info raw with Some i => fate_of (prevTotal s) i | None => Silent end)
    (match token_info raw with Some i => total_after (prevTotal s) i | None => prevTotal s end).
Proof.
  unfold codex_step, token_info. destruct (String.eqb (Labels.TrimSpace raw) ""); [by apply same_bill_moved |].
  apply (moved_from _ (next_line s)); [apply next_line_same |]. pose proof (sb_prev _ _ (next_line_same s)) as Hp.
  rewrite <- Hp. set (s1 := next_line s). clearbody s1.
  destruct (decode_line ParseFloat _) as [[l p]|]; [| apply unparsable_moved].
  destruct s1 as [si v m b r rb cm q w br t ps pt ln sk un re]. unfold on_line.
  destruct (String.eqb_spec (ln_Type l) "session_meta") as [->|_]; [by apply same_bill_moved |].
  destruct (String.eqb_spec (ln_Type l) "turn_context") as [->|_].
  { cbn [String.eqb andb]. destruct (String.eqb (pl_Model p) ""); by apply same_bill_moved. }
  destruct (String.eqb (ln_Type l) "event_msg"); [| by apply same_bill_moved]. cbn [andb]. unfold event.
  destruct (String.eqb_spec (pl_Type p) "context_compacted") as [->|_]; [by apply same_bill_moved |].
  destruct (String.eqb (pl_Type p) "token_count"); [| by apply same_bill_moved].
  destruct (Info p) as [i|].
  - destruct (RateLimits p) as [rl|]; [| apply token_count_moved].
    by destruct (token_count_moved i (mkCodexSession si v m b r rb cm (Some (quota rl)) w br t ps pt ln sk un re)).
  - destruct (RateLimits p); by apply same_bill_moved.
Qed.

Definition usage_records (lines : list string) : list codexTokenInfo := omap token_info lines.

Record accounted (s s' : CodexSession) (fs : list fate) : Prop := {
  ac_prompt : PromptTotal (Billed s') ≡₆₄ PromptTotal (Billed s) + sum_of billed_prompt fs;
  ac_output : Output (Billed s') ≡₆₄ Output (Billed s) + sum_of billed_output fs;
  ac_read : CacheRead (Billed s') ≡₆₄ CacheRead (Billed s) + sum_of billed_read fs;
  ac_write : CacheCreation (Billed s') ≡₆₄ CacheCreation (Billed s) + sum_of billed_write fs;
  ac_reasoning : ThinkingTokens (Billed s') ≡₆₄ ThinkingTokens (Billed s) + sum_of billed_reasoning fs;
  ac_turns : Turns s' ≡₆₄ Turns s + sum_of is_billed fs;
  ac_repeated : ReEmitted s' ≡₆₄ ReEmitted s + sum_of is_repeated fs;
  ac_refused : Skipped s' - Unparsable s' ≡₆₄ Skipped s - Unparsable s + sum_of is_refused fs
}.

Lemma moved_accounted s s1 s' f prev fs : moved s s1 f prev -> accounted s1 s' fs -> accounted s s' (f :: fs).
Proof.
  intros [M1 M2 M3 M4 M5 M6 M7 M8 _] [A1 A2 A3 A4 A5 A6 A7 A8].
  split; rewrite sum_cons, Z.add_assoc;
    [rewrite A1, M1 | rewrite A2, M2 | rewrite A3, M3 | rewrite A4, M4 | rewrite A5, M5 | rewrite A6, M6 | rewrite A7, M7 | rewrite A8, M8]; done.
Qed.

Lemma silent_accounted s s' fs : accounted s s' (Silent :: fs) -> accounted s s' fs.
Proof. by intros [A1 A2 A3 A4 A5 A6 A7 A8]. Qed.

Lemma lines_accounted lines s :
  accounted s (fold_left (codex_step ParseFloat) lines s) (fates (prevTotal s) (usage_records lines)).
Proof.
  revert s. induction lines as [|raw lines IH]; intros s.
  - split; cbn; rewrite Z.add_0_r; done.
  - cbn [fold_left]. pose proof (line_moved s raw) as H. pose proof (mv_prev _ _ _ _ H) as Hp.
    specialize (IH (codex_step ParseFloat s raw)). rewrite Hp in IH.
    pose proof (moved_accounted _ _ _ _ _ _ H IH) as Ha. unfold usage_records in *. cbn [omap list_omap].
    destruct (token_info raw); [exact Ha | by apply silent_accounted].
Qed.

(** ** What has to become of a record

    Said of the records of the file, in order, without the reader: *)

(** A record that can be believed: no count is negative, the shares of the
    prompt and of the output fit in them (their sum is taken in 64 bits), and
    where there is a total there is something it is the total of. *)
Record believable (c : codexUsage) : Prop := {
  bv_counts : 0 <= cx_Input c /\ 0 <= Cached c /\ 0 <= CacheWrite c /\ 0 <= cx_Output c /\ 0 <= Reasoning c;
  bv_cached : Cached c <= cx_Input c;
  bv_shares : wrap64 (Cached c + CacheWrite c) <= cx_Input c;
  bv_reasoning : Reasoning c <= cx_Output c;
  bv_total : 0 < cx_Total c -> wrap64 (cx_Input c + cx_Output c) <> 0
}.

(** The running total last stated before. *)
Inductive last_stated : list codexTokenInfo -> Z -> Prop :=
| stated_here before i t : info_Total i = Some t -> last_stated (before ++ [i]) (cx_Total t)
| stated_before before i n : info_Total i = None -> last_stated before n -> last_stated (before ++ [i]) n.

(** The record states the running total that was stated last. *)
Definition repeats (before : list codexTokenInfo) (i : codexTokenInfo) : Prop :=
  exists t, info_Total i = Some t /\ last_stated before (cx_Total t).

Definition becomes (before : list codexTokenInfo) (i : codexTokenInfo) (f : fate) : Prop :=
  match f with
  | Silent => info_Last i = None
  | Refused => exists c, info_Last i = Some c /\ ~ believable c
  | Repeated => exists c, info_Last i = Some c /\ believable c /\ repeats before i
  | BilledAs c => info_Last i = Some c /\ believable c /\ ~ repeats before i
  end.

Lemma usage_believable c : is_Some (usage (Some c)) <-> believable c.
Proof.
  unfold usage. cbn [mbind option_bind]. unfold iadd. split.
  - repeat case_match; try (by intros [? ?]). intros _. reflect_bool. split; try lia.
  - intros [(H1 & H2 & H3 & H4 & H5) H6 H7 H8 H9].
    rewrite !orb_false_intro by (repeat apply orb_false_intro; by apply Z.ltb_ge).
    destruct (Z.ltb_spec 0 (cx_Total c)) as [Ht|]; [| by eexists]. cbn [andb].
    destruct (Z.eqb_spec (wrap64 (cx_Input c + cx_Output c)) 0) as [Hz|]; [by destruct (H9 Ht) | by eexists].
Qed.

Definition prev_of (before : list codexTokenInfo) : option Z := fold_left total_after before None.

Lemma last_stated_prev before n : last_stated before n <-> prev_of before = Some n.
Proof.
  unfold prev_of. split.
  - induction 1 as [before i t H | before i n H _ IH]; rewrite fold_left_app; cbn [fold_left]; unfold total_after at 1; by rewrite H.
  - revert n. induction before as [|i before IH] using rev_ind; intros n; [done |]. rewrite fold_left_app. cbn [fold_left].
    unfold total_after at 1. destruct (info_Total i) as [t|] eqn:E; [intros [= <-]; by constructor |].
    intros H. constructor; [done | by apply IH].
Qed.

Lemma fate_becomes before i : becomes before i (fate_of (prev_of before) i).
Proof.
  unfold fate_of. destruct (info_Last i) as [c|] eqn:El; [| exact El]. pose proof (usage_believable c) as Hb.
  destruct (usage (Some c)) as [u|] eqn:Eu.
  - assert (believable c) as Hc by (by apply Hb). unfold advanced. cbn.
    destruct (info_Total i) as [t|] eqn:Et.
    + destruct (prev_of before) as [n|] eqn:Ep.
      * destruct (Z.eqb_spec (cx_Total t) n) as [He|Hne]; cbn.
        -- exists c. split_and!; [done | done |]. exists t. split; [done |]. apply last_stated_prev. congruence.
        -- split_and!; [done | done |]. intros (t' & Ht & Hl). rewrite Et in Ht. injection Ht as <-.
           apply last_stated_prev in Hl. congruence.
      * split_and!; [done | done |]. intros (t' & _ & Hl). apply last_stated_prev in Hl. congruence.
    + split_and!; [done | done |]. intros (t' & Ht & _). congruence.
  - exists c. split; [done |]. intros H. by apply Hb in H as [? ?].
Qed.

(** What becomes of a record is determined. *)
Lemma becomes_once before i f f' : becomes before i f -> becomes before i f' -> f = f'.
Proof. destruct f, f'; cbn; naive_solver. Qed.

Lemma fates_become infos : forall before,
  Forall2 (fun '(before, i) f => becomes before i f)
    (zip (List.map (fun n => before ++ take n infos) (seq 0 (length infos))) infos) (fates (prev_of before) infos).
Proof.
  induction infos as [|i infos IH]; intros before; [constructor |]. cbn [length seq List.map zip zip_with fates].
  constructor; [cbn; rewrite app_nil_r; apply fate_becomes |].
  rewrite <- seq_shift, map_map. specialize (IH (before ++ [i])). unfold prev_of in IH. rewrite fold_left_app in IH.
  cbn [fold_left] in IH. fold (prev_of before) in IH.
  erewrite map_ext; [exact IH |]. intros n. cbn [take]. by rewrite <- app_assoc.
Qed.

(** C39: every usage record of a rollout is billed once, or is a repeat, or is
    refused, and is counted as that.  Take the lines up to one too long to be
    scanned.  Of the records among them that state a call's usage, one is
    refused when it cannot be believed; it is a repeat when it can and states
    the running total that was stated last before it; every other is billed.
    The bill is the prompt, read, written, output and reasoning tokens of the
    records billed, modulo 2^64, and no other line of the file adds to it. *)
Theorem every_record_is_billed_repeated_or_refused body :
  let s := (ParseCodex ParseFloat body).1 in
  let infos := usage_records (fitting maxLine (Split1 LF body)).1 in
  exists fs,
    length fs = length infos /\
    (forall n i f, infos !! n = Some i -> fs !! n = Some f -> becomes (take n infos) i f) /\
    PromptTotal (Billed s) ≡₆₄ sum_of billed_prompt fs /\ CacheRead (Billed s) ≡₆₄ sum_of billed_read fs /\
    CacheCreation (Billed s) ≡₆₄ sum_of billed_write fs /\ Output (Billed s) ≡₆₄ sum_of billed_output fs /\
    ThinkingTokens (Billed s) ≡₆₄ sum_of billed_reasoning fs /\
    Turns s ≡₆₄ sum_of is_billed fs /\ ReEmitted s ≡₆₄ sum_of is_repeated fs /\
    Skipped s - Unparsable s ≡₆₄ sum_of is_refused fs.
Proof.
  cbv zeta. unfold ParseCodex. destruct (fitting maxLine (Split1 LF body)) as [lines err]. cbn [fst].
  destruct (lines_accounted lines new_codex) as [A1 A2 A3 A4 A5 A6 A7 A8]. cbn in A1, A2, A3, A4, A5, A6, A7, A8.
  set (infos := usage_records lines) in *. pose proof (fates_become infos []) as F. change (prev_of []) with (@None Z) in F.
  exists (fates None infos). split; [| split; [| by split_and!]].
  - apply Forall2_length in F. rewrite <- F, length_zip_with, length_map, length_seq. lia.
  - intros n i f Hi Hf. apply (Forall2_lookup_r _ _ _ _ _ F) in Hf as ([b i'] & Hz & Hb).
    apply lookup_zip_Some in Hz as [Hb' Hi']. rewrite Hi in Hi'. injection Hi' as <-.
    rewrite list_lookup_fmap in Hb'. apply fmap_Some in Hb' as (m & Hm & ->). apply lookup_seq in Hm as [-> _]. exact Hb.
Qed.

End rollout.

(** ** Concrete rollouts *)

(** JSON written with apostrophes. *)
Definition json (s : string) : string := map_string (fun c => if Ascii.eqb c "'" then "034"%char else c) s.

Definition two_turns_and_a_repeat : string :=
  json (String.concat (String LF "")
    ["{'type':'session_meta','payload':{'id':'s1','cli_version':'0.154.0'}}";
     "{'type':'event_msg','payload':{'type':'token_count','info':{'total_token_usage':{'input_tokens':1000,'output_tokens':10,'total_tokens':1010},'last_token_usage':{'input_tokens':1000,'cached_input_tokens':800,'output_tokens':10}}}}";
     "{'type':'event_msg','payload':{'type':'token_count','info':{'total_token_usage':{'input_tokens':1000,'output_tokens':10,'total_tokens':1010},'last_token_usage':{'input_tokens':1000,'cached_input_tokens':800,'output_tokens':10}}}}";
     "not json";
     "{'type':'event_msg','payload':{'type':'token_count','info':{'total_token_usage':{'input_tokens':3000,'output_tokens':30,'total_tokens':3030},'last_token_usage':{'input_tokens':2000,'cached_input_tokens':2500,'output_tokens':20}}}}"]).

Example a_repeat_is_not_billed_twice :
  let s := (ParseCodex (fun _ => None) two_turns_and_a_repeat).1 in
  (PromptTotal (Billed s), Input (Billed s), Turns s, ReEmitted s, Skipped s, Unparsable s) = (1000, 200, 1, 1, 2, 1).
Proof. vm_compute. reflexivity. Qed.

Lemma every_record_is_billed_repeated_or_refused_witness :
  let s := (ParseCodex (fun _ => None) two_turns_and_a_repeat).1 in
  exists fs, length fs = 3%nat /\ ReEmitted s ≡₆₄ sum_of is_repeated fs /\ ReEmitted s = 1 /\
    PromptTotal (Billed s) ≡₆₄ sum_of billed_prompt fs /\ PromptTotal (Billed s) = 1000.
Proof.
  destruct (every_record_is_billed_repeated_or_refused (fun _ => None) two_turns_and_a_repeat)
    as (fs & Hl & _ & Hp & _ & _ & _ & _ & _ & Hr & _).
  exists fs. split; [rewrite Hl; vm_compute; reflexivity |]. split; [exact Hr |]. split; [vm_compute; reflexivity |].
  split; [exact Hp | vm_compute; reflexivity].
Defined.

(** The sum of the two shares wraps, so a write larger than any prompt passes
    the ceiling that was put there for it, and the rest of the prompt comes out
    negative. *)
Lemma a_huge_cache_write_is_believed :
  exists u, usage (Some (mkCodexUsage 10 1 max_int64 0 0 0)) = Some u /\ Input u < 0 /\ CacheCreation u = max_int64.
Proof. eexists. split; [reflexivity |]. vm_compute. done. Qed.

End CodexSpec.
