(* ===== verification/Redact.v ===== *)
(** A transcript made fit to be shown to others
    ([src/internal/transcript/redact.go]): a text becomes filler of its
    length drawn from a salted digest.  What that covers is a turn whose message
    is an object with its content a text or a list of blocks; a message that is
    a text itself, and texts standing in lists, pass as they are.

    Lines are modelled as decoded values: [json.Marshal] of what comes out is
    left out.  [digest] is the salted SHA-256 in hexadecimal. *)

From S2P Require Import Prelude GoString Transcript Json JsonValue Labels Blocks GoMath.
From Stdlib Require Import Ascii String.

Open Scope string_scope.
Open Scope list_scope.
Open Scope Z_scope.

Module Redact.
Import Json JsonValue Blocks.

#[local] Abbreviation length := List.length.

Definition is_in (l : list string) (k : string) : bool := existsb (String.eqb k) l.

(** ** What is kept *)

Definition keptTop : list string :=
  ["type"; "uuid"; "parentUuid"; "timestamp"; "requestId"; "apiBlockIndex"; "isSidechain"; "effort"; "message"; "version";
   "userType"; "isCompactSummary"; "compactMetadata"].

Definition compactSizes : list string := ["preTokens"; "postTokens"; "cumulativeDroppedTokens"; "durationMs"].

Definition keptMessage : list string := ["role"; "id"; "model"; "usage"; "content"; "stop_reason"; "type"].

Definition structural : list string := ["type"; "id"; "tool_use_id"; "is_error"].

(** [plainTrigger] *)
Definition plain_trigger (s : string) : bool :=
  (1 <=? len s) && (len s <=? 32) && string_forallb (fun c => is_lower c || Ascii.eqb c "_") s.

Definition compaction_field (kv : string * value) : list (string * value) :=
  if is_in compactSizes kv.1 then [kv]
  else if String.eqb kv.1 "trigger" then
    match kv.2 with String_ s => if plain_trigger s then [kv] else [] | _ => [] end
  else [].

(** [None] where the record is not an object. *)
Definition compaction (v : value) : option value :=
  match v with
  | Object m => Some (Object (flat_map compaction_field m))
  | _ => None
  end.

(** ** Texts *)

(** A tool name in two parts, [mcp__(.+?)__(.+)]. *)
Fixpoint lazy_split (taken s : string) : option (string * string) :=
  match s with
  | EmptyString => None
  | String c rest =>
      match (if String.eqb taken "" then None else strip_prefix "__" s) with
      | Some (String _ _ as tool) => Some (taken, tool)
      | _ => lazy_split (taken ++ String c "")%string rest
      end
  end.

Definition one_line (s : string) : bool := string_forallb (fun c => negb (Ascii.eqb c LF)) s.

Definition mcp_parts (name : string) : option (string * string) :=
  rest ← strip_prefix "mcp__" name; if one_line rest then lazy_split "" rest else None.

Section redact.
Context (digest : string -> string).

Fixpoint fill (fuel : nat) (n : Z) (seed acc : string) : string :=
  match fuel with
  | O => acc
  | S fuel => if len acc <? n then fill fuel n seed (acc ++ seed)%string else acc
  end.

Definition filler_of (seed : string) (n : Z) : string :=
  if n =? 0 then "" else to_byte n (fill (Z.to_nat n) n seed "").

Definition filler (s : string) : string := filler_of (digest s) (len s).

(** A label of the same length: a hash, the filler, and the extension of a path. *)
Definition label_of (seed : string) (n : Z) (ext : string) : string :=
  let label := ("r/" ++ to_byte (Z.of_nat HashedLabelBytes) seed)%string in
  let room := n - len ext in
  if room <=? 0 then filler_of seed n
  else if room <? len label then (to_byte room label ++ ext)%string
  else (label ++ to_byte (room - len label) (filler_of seed n) ++ ext)%string.

Definition kept_extension (keepExtension : bool) (s : string) : string :=
  if keepExtension && SafeExtension (path_Ext s) then path_Ext s else "".

Definition hashedLabel (s : string) (keepExtension : bool) : string := label_of (digest s) (len s) (kept_extension keepExtension s).

Definition server_name (seed : string) : string := ("mcp__s_" ++ to_byte (Z.of_nat HashedLabelBytes) seed ++ "__")%string.

Definition toolName (name : string) : string :=
  match mcp_parts name with
  | Some (server, tool) => (server_name (digest server) ++ tool)%string
  | None => name
  end.

(** ** Blocks *)

Fixpoint input (v : value) : value :=
  match v with
  | Object kvs =>
      Object (List.map (fun kv =>
        match kv with
        | (k, String_ s) => (k, if is_in LabelArgs k then String_ (hashedLabel s (is_in PathArgs k)) else String_ (filler s))
        | (k, inner) => (k, input inner)
        end) kvs)
  | Array l => Array (List.map input l)
  | String_ s => String_ (filler s)
  | _ => v
  end.

Inductive place := AsContent | AsItem.

(** [content] and, of an item of its list, [block]. *)
Fixpoint content (p : place) (v : value) : value :=
  match p, v with
  | AsContent, String_ s => String_ (filler s)
  | AsContent, Array l => Array (List.map (content AsItem) l)
  | AsContent, _ => Null
  | AsItem, Object b =>
      Object (flat_map (fun kv =>
        match kv with
        | (k, x) =>
            if is_in structural k then [(k, x)]
            else if String.eqb k "name" then [(k, match x with String_ s => String_ (toolName s) | _ => x end)]
            else if String.eqb k "input" then [(k, input x)]
            else if String.eqb k "content" then [(k, content AsContent x)]
            else match x with String_ s => [(k, String_ (filler s))] | _ => [] end
        end) b)
  | AsItem, _ => v
  end.

(** ** A line *)

Definition lookup (k : string) (m : list (string * value)) : option value := snd <$> find_first (fun kv => String.eqb kv.1 k) m.

Definition set_ (k : string) (x : value) (m : list (string * value)) : list (string * value) :=
  if bool_decide (is_Some (lookup k m)) then List.map (fun kv => if String.eqb kv.1 k then (k, x) else kv) m else m ++ [(k, x)].

Definition delete_ (k : string) (m : list (string * value)) : list (string * value) := List.filter (fun kv => negb (String.eqb kv.1 k)) m.

(** A message's content; what is neither a text nor a list is left. *)
Definition message_content (v : value) : value :=
  match v with
  | String_ s => String_ (filler s)
  | Array l => Array (List.map (content AsItem) l)
  | _ => v
  end.

Definition message (msg : list (string * value)) : list (string * value) :=
  List.map (fun kv => if String.eqb kv.1 "content" then (kv.1, message_content kv.2) else kv)
    (List.filter (fun kv => is_in keptMessage kv.1) msg).

Definition is_turn (m : list (string * value)) : bool :=
  match lookup "type" m with
  | Some (String_ t) => String.eqb t "user" || String.eqb t "assistant"
  | _ => false
  end.

Definition redact_compaction (m : list (string * value)) : list (string * value) :=
  match lookup "compactMetadata" m with
  | Some cm => match compaction cm with Some kept => set_ "compactMetadata" kept m | None => delete_ "compactMetadata" m end
  | None => m
  end.

Definition redact_message (m : list (string * value)) : list (string * value) :=
  if negb (is_turn m) then delete_ "message" m
  else match lookup "message" m with
       | Some (Object msg) => set_ "message" (Object (message msg)) m
       | _ => m
       end.

Definition line (obj : list (string * value)) : list (string * value) :=
  redact_message (redact_compaction
    (set_ "cwd" (String_ "/redacted") (set_ "sessionId" (String_ "redacted") (List.filter (fun kv => is_in keptTop kv.1) obj)))).

(** ** A transcript *)

(** A map decoded from an object keeps the last value given for a key. *)
Fixpoint last_wins (m : list (string * value)) : list (string * value) :=
  match m with
  | [] => []
  | (k, x) :: m => let m' := last_wins m in if bool_decide (is_Some (lookup k m')) then m' else (k, x) :: m'
  end.

Fixpoint as_map (v : value) : value :=
  match v with
  | Object m => Object (last_wins (List.map (fun kv => match kv with (k, x) => (k, as_map x) end) m))
  | Array l => Array (List.map as_map l)
  | _ => v
  end.

Definition redact_line (raw : string) : option (list (string * value)) :=
  let text := Labels.TrimSpace raw in
  if String.eqb text "" then None
  else match as_map <$> parse (of_string text) with
       | Some (Object obj) => if bool_decide (is_Some (lookup "uuid" obj)) then Some (line obj) else None
       | _ => None
       end.

(** The lines written. *)
Definition Redact_ (lines : list string) : list (list (string * value)) := omap redact_line lines.

End redact.

End Redact.

(** What a redacted transcript shows: nothing of a text but its length, whether
    it equals another, and the extension of a path; and every length as it was. *)

Module RedactSpec.
Import Json JsonValue Blocks Redact.

#[local] Abbreviation length := List.length.
#[local] Arguments is_in _ _ : simpl never.

(** ** Induction on values *)

Section induction.
Variable P : value -> Prop.
Hypothesis Hnull : P Null.
Hypothesis Hbool : forall b, P (Bool b).
Hypothesis Hnum : forall raw, P (Num raw).
Hypothesis Hstring : forall s, P (String_ s).
Hypothesis Harray : forall l, Forall P l -> P (Array l).
Hypothesis Hobject : forall l, Forall (fun kv => P kv.2) l -> P (Object l).

Lemma value_nested_ind : forall v, P v.
Proof using Type*.
  fix IH 1. intros [| b | raw | s | l | l]; [apply Hnull | apply Hbool | apply Hnum | apply Hstring | apply Harray | apply Hobject].
  - induction l as [|v l IHl]; constructor; [apply IH | exact IHl].
  - induction l as [|[k v] l IHl]; constructor; [apply IH | exact IHl].
Qed.
End induction.

(** ** What is left of a value

    A text is left as its digest and its length, a label also as its extension,
    the server of a tool as its digest; what is [Kept] is left as it was. *)
Inductive shape :=
| Kept (v : value)
| Text_ (seed : string) (n : Z)
| Label_ (seed : string) (n : Z) (ext : string)
| Tool (seed : string) (tool : string)
| Items (l : list shape)
| Fields (l : list (string * shape)).

Fixpoint draw (s : shape) : value :=
  match s with
  | Kept v => v
  | Text_ seed n => String_ (filler_of seed n)
  | Label_ seed n ext => String_ (label_of seed n ext)
  | Tool seed tool => String_ (server_name seed ++ tool)%string
  | Items l => Array (List.map draw l)
  | Fields l => Object (List.map (fun kv => match kv with (k, x) => (k, draw x) end) l)
  end.

Section shapes.
Context (digest : string -> string).

Definition text (s : string) : shape := Text_ (digest s) (len s).

Fixpoint shape_input (v : value) : shape :=
  match v with
  | Object kvs =>
      Fields (List.map (fun kv =>
        match kv with
        | (k, String_ s) => (k, if is_in LabelArgs k then Label_ (digest s) (len s) (kept_extension (is_in PathArgs k) s) else text s)
        | (k, inner) => (k, shape_input inner)
        end) kvs)
  | Array l => Items (List.map shape_input l)
  | String_ s => text s
  | Null | Bool _ | Num _ => Kept v
  end.

Definition shape_name (v : value) : shape :=
  match v with
  | String_ s => match mcp_parts s with Some (server, tool) => Tool (digest server) tool | None => Kept v end
  | _ => Kept v
  end.

Fixpoint shape_content (p : place) (v : value) : shape :=
  match p, v with
  | AsContent, String_ s => text s
  | AsContent, Array l => Items (List.map (shape_content AsItem) l)
  | AsContent, _ => Kept Null
  | AsItem, Object b =>
      Fields (flat_map (fun kv =>
        match kv with
        | (k, x) =>
            if is_in structural k then [(k, Kept x)]
            else if String.eqb k "name" then [(k, shape_name x)]
            else if String.eqb k "input" then [(k, shape_input x)]
            else if String.eqb k "content" then [(k, shape_content AsContent x)]
            else match x with String_ s => [(k, text s)] | _ => [] end
        end) b)
  | AsItem, _ => Kept v
  end.

Definition shape_message (msg : list (string * value)) : shape :=
  Fields (List.map (fun kv =>
    if String.eqb kv.1 "content" then
      (kv.1, match kv.2 with
             | String_ s => text s
             | Array l => Items (List.map (shape_content AsItem) l)
             | v => Kept v
             end)
    else (kv.1, Kept kv.2)) (List.filter (fun kv => is_in keptMessage kv.1) msg)).

(** The fields of a line that are kept, a message by its shape. *)
Definition shape_line (obj : list (string * value)) : list (string * shape) :=
  let m := redact_compaction (set_ "cwd" (String_ "/redacted") (set_ "sessionId" (String_ "redacted")
             (List.filter (fun kv => is_in keptTop kv.1) obj))) in
  if negb (is_turn m) then List.map (fun kv => (kv.1, Kept kv.2)) (delete_ "message" m)
  else List.map (fun kv =>
         (kv.1, if String.eqb kv.1 "message" then
                  match lookup "message" m with Some (Object msg) => shape_message msg | _ => Kept kv.2 end
                else Kept kv.2)) m.

(** ** The shape is all that shows *)

Lemma draw_input v : draw (shape_input v) = input digest v.
Proof.
  induction v as [| | | |l IH|l IH] using value_nested_ind; try done.
  - cbn [draw shape_input input]. f_equal. rewrite map_map. apply map_ext_Forall. exact IH.
  - cbn [draw shape_input input]. f_equal. rewrite map_map. apply map_ext_Forall. eapply Forall_impl; [exact IH |].
    intros [k x] Hx. cbn [snd] in Hx. destruct x; try (exact (f_equal (pair k) Hx)). destruct (is_in LabelArgs k) eqn:E; cbn [fst snd]; by rewrite ?E.
Qed.

Lemma draw_name x : draw (shape_name x) = match x with String_ s => String_ (toolName digest s) | _ => x end.
Proof. destruct x; try done. unfold shape_name, toolName. by destruct (mcp_parts s) as [[server tool]|]. Qed.

Lemma draw_content v : draw (shape_content AsContent v) = content digest AsContent v /\ draw (shape_content AsItem v) = content digest AsItem v.
Proof.
  induction v as [| | | |l IH|l IH] using value_nested_ind; try done.
  - split; [| done]. cbn. f_equal. rewrite map_map. apply map_ext_Forall. eapply Forall_impl; [exact IH |]. by intros x [_ Hx].
  - split; [done |]. cbn. f_equal. induction IH as [|[k x] l [Hx _] IH IHl]; [done |]. cbn [flat_map]. cbn in Hx.
    rewrite map_app, IHl. f_equal. destruct (is_in structural k); [done |].
    destruct (String.eqb k "name"); [cbn; by rewrite draw_name |]. destruct (String.eqb k "input"); [cbn; by rewrite draw_input |].
    destruct (String.eqb k "content"); [cbn; by rewrite Hx | by destruct x].
Qed.

Lemma draw_message msg : draw (shape_message msg) = Object (message digest msg).
Proof.
  unfold shape_message, message. cbn [draw]. f_equal. rewrite map_map. apply map_ext. intros [k x]. cbn.
  destruct (String.eqb k "content"); [| done]. f_equal. destruct x; try done. cbn. f_equal. rewrite map_map. apply map_ext.
  intros v. apply draw_content.
Qed.

Lemma draw_line obj : line digest obj = List.map (fun kv => (kv.1, draw kv.2)) (shape_line obj).
Proof.
  unfold line, redact_message, shape_line. set (m := redact_compaction _). destruct (is_turn m); cbn [negb].
  - rewrite map_map. cbn [fst snd].
    destruct (lookup "message" m) as [x|] eqn:El.
    + destruct x; try (rewrite (map_ext _ (fun kv => kv)); [by rewrite map_id | intros [k x]; cbn; by destruct (String.eqb k "message")]).
      unfold set_. rewrite El. cbn. apply map_ext. intros [k x]. cbn.
      destruct (String.eqb_spec k "message") as [->|_]; [by rewrite draw_message | done].
    + rewrite (map_ext _ (fun kv => kv)); [by rewrite map_id | intros [k x]; cbn; by destruct (String.eqb k "message")].
  - rewrite map_map. cbn [fst snd draw]. rewrite (map_ext _ (fun kv => kv)); [by rewrite map_id | by intros []].
Qed.

Lemma same_shape_same_line o1 o2 : shape_line o1 = shape_line o2 -> line digest o1 = line digest o2.
Proof. intros H. by rewrite !draw_line, H. Qed.

(** ** What a reader is shown *)

(** Every text in a value, at any depth; the keys of objects are not texts. *)
Fixpoint texts (v : value) : list string :=
  match v with
  | String_ s => [s]
  | Array l => flat_map texts l
  | Object m => flat_map (fun kv => match kv with (k, x) => texts x end) m
  | _ => []
  end.

(** The texts of a content or of a block of it, beside the fields that name the
    block and the tool. *)
Fixpoint shown (p : place) (v : value) : list string :=
  match p, v with
  | AsContent, Array l => flat_map (shown AsItem) l
  | AsItem, Object b =>
      flat_map (fun kv => match kv with
                          | (k, x) => if is_in structural k || String.eqb k "name" then []
                                      else if String.eqb k "content" then shown AsContent x else texts x
                          end) b
  | _, _ => texts v
  end.

(** The form transcripts have: a list holds blocks, which are objects. *)
Fixpoint plain (p : place) (v : value) : bool :=
  match p, v with
  | AsContent, Array l => forallb (plain AsItem) l
  | AsContent, _ => true
  | AsItem, Object b => forallb (fun kv => match kv with
                                           | (k, x) => if String.eqb k "content" then plain AsContent x else true
                                           end) b
  | AsItem, _ => false
  end.

Definition plain_content (v : value) : bool := match v with String_ _ => true | Array l => forallb (plain AsItem) l | _ => false end.

(** A text that tells of another only its digest and its length, and of a path
    its short extension. *)
Definition drawn (s : string) : Prop :=
  exists t, s = filler_of (digest t) (len t) \/
    exists ext, s = label_of (digest t) (len t) ext /\ (ext = "" \/ ext = path_Ext t /\ SafeExtension ext = true).

Lemma kept_extension_safe keep s :
  kept_extension keep s = "" \/ kept_extension keep s = path_Ext s /\ SafeExtension (kept_extension keep s) = true.
Proof. unfold kept_extension. destruct (keep && SafeExtension (path_Ext s)) eqn:E; [right | by left]. by apply andb_true_iff in E as [_ ->]. Qed.

Lemma drawn_filler s : drawn (filler digest s).
Proof. exists s. by left. Qed.

Lemma drawn_label s keep : drawn (hashedLabel digest s keep).
Proof. exists s. right. eexists. split; [reflexivity | apply kept_extension_safe]. Qed.

Lemma flat_map_forall {A B} (P : B -> Prop) (f : A -> list B) l :
  Forall (fun x => Forall P (f x)) l -> Forall P (flat_map f l).
Proof. induction 1; cbn; [constructor | by apply Forall_app]. Qed.

Lemma input_drawn v : Forall drawn (texts (input digest v)).
Proof.
  induction v as [| | | s |l IH|l IH] using value_nested_ind; cbn [input texts]; try constructor; try constructor;
    [apply drawn_filler | |]; apply flat_map_forall, List.Forall_map; [exact IH |].
  eapply Forall_impl; [exact IH |]. intros [k x] Hx. cbn [snd] in Hx.
  destruct x; try exact Hx. destruct (is_in LabelArgs k); cbn; (constructor; [| constructor]);
    [apply drawn_label | apply drawn_filler].
Qed.

Lemma content_drawn v :
  (plain AsContent v = true -> Forall drawn (shown AsContent (content digest AsContent v))) /\
  (plain AsItem v = true -> Forall drawn (shown AsItem (content digest AsItem v))).
Proof.
  induction v as [| | | s |l IH|l IH] using value_nested_ind; (split; intros Hp; try done; try (by constructor)).
  - cbn. constructor; [apply drawn_filler | constructor].
  - cbn in Hp |- *. apply flat_map_forall, List.Forall_map. rewrite Forall_forall in IH |- *. intros x Hx.
    apply (IH x Hx). rewrite forallb_forall in Hp. apply Hp. by apply list_elem_of_In.
  - cbn in Hp |- *. induction IH as [|[k x] l [Hx _] IH IHl]; [constructor |].
    cbn [forallb snd] in Hp, Hx. apply andb_true_iff in Hp as [Hk Hp]. cbn [flat_map]. rewrite flat_map_app. apply Forall_app.
    split; [| by apply IHl]. destruct (is_in structural k) eqn:Es; [cbn; rewrite Es; constructor |].
    destruct (String.eqb_spec k "name") as [->|Hn]; [cbn; rewrite orb_true_r; constructor |].
    assert (String.eqb k "name" = false) as Hn' by (by apply String.eqb_neq).
    destruct (String.eqb_spec k "input") as [->|Hi].
    { cbn. rewrite Es. cbn. rewrite app_nil_r. apply input_drawn. }
    destruct (String.eqb k "content") eqn:Ec.
    { cbn. rewrite Es, Hn', Ec. cbn. rewrite app_nil_r. by apply Hx. }
    destruct x; try constructor. cbn. rewrite Es, Hn', Ec. cbn. constructor; [apply drawn_filler | constructor].
Qed.

(** *** Fields *)

Lemma lookup_filter f k m : f k = true -> lookup k (List.filter (fun kv => f kv.1) m) = lookup k m.
Proof.
  intros Hf. unfold lookup. f_equal. induction m as [|[k' x] m IH]; [done |]. cbn [List.filter fst].
  destruct (String.eqb_spec k' k) as [->|Hne].
  - rewrite Hf. cbn. by rewrite String.eqb_refl.
  - destruct (f k'); cbn; rewrite ?(proj2 (String.eqb_neq k' k)) by done; exact IH.
Qed.

Lemma lookup_set k x k' m : lookup k' (set_ k x m) = if String.eqb k k' then Some x else lookup k' m.
Proof.
  unfold set_. case_bool_decide as Hin.
  - unfold lookup in *. destruct (String.eqb_spec k k') as [<-|Hne].
    + induction m as [|[k0 y] m IH]; [by destruct Hin |]. cbn in Hin |- *.
      destruct (String.eqb_spec k0 k) as [->|H0]; cbn; [by rewrite String.eqb_refl |].
      rewrite (proj2 (String.eqb_neq _ _) H0). by apply IH.
    + clear Hin. induction m as [|[k0 y] m IH]; [done |]. cbn.
      destruct (String.eqb_spec k0 k) as [->|H0]; cbn; [| by destruct (String.eqb k0 k')].
      by rewrite (proj2 (String.eqb_neq _ _) Hne).
  - apply eq_None_not_Some in Hin. unfold lookup in *. destruct (String.eqb_spec k k') as [<-|Hne].
    + induction m as [|[k0 y] m IH]; cbn in Hin |- *; [by rewrite String.eqb_refl |].
      destruct (String.eqb k0 k); [done | by apply IH].
    + clear Hin. induction m as [|[k0 y] m IH]; cbn; [by rewrite (proj2 (String.eqb_neq _ _) Hne) |]. by destruct (String.eqb k0 k').
Qed.

Lemma lookup_delete k k' m : k' <> k -> lookup k' (delete_ k m) = lookup k' m.
Proof. intros Hne. apply (lookup_filter (fun x => negb (String.eqb x k))). by rewrite (proj2 (String.eqb_neq _ _) Hne). Qed.

Definition replaced : list string := ["cwd"; "sessionId"; "compactMetadata"].

(** A kept field that is not replaced is as it was. *)
Lemma lookup_before_message k obj :
  is_in keptTop k = true -> is_in replaced k = false ->
  lookup k (redact_compaction (set_ "cwd" (String_ "/redacted") (set_ "sessionId" (String_ "redacted")
             (List.filter (fun kv => is_in keptTop kv.1) obj)))) = lookup k obj.
Proof.
  intros Hk Hr. unfold replaced, is_in in Hr. cbn [existsb] in Hr. apply orb_false_iff in Hr as [H1 Hr].
  apply orb_false_iff in Hr as [H2 Hr]. apply orb_false_iff in Hr as [H3 _]. rewrite String.eqb_sym in H1, H2, H3.
  rewrite <- (lookup_filter (is_in keptTop) k obj Hk). set (m0 := List.filter _ obj).
  assert (lookup k (set_ "cwd" (String_ "/redacted") (set_ "sessionId" (String_ "redacted") m0)) = lookup k m0) as <-
    by (by rewrite !lookup_set, H1, H2).
  unfold redact_compaction. destruct (lookup "compactMetadata" _); [| done].
  destruct (compaction v); [by rewrite lookup_set, H3 |]. apply lookup_delete. intros ->. by rewrite String.eqb_refl in H3.
Qed.

(** C24: a redacted turn shows nothing of a text.  Of a turn whose message is an
    object with its content a text or a list of blocks, only the listed fields
    of the message are left, and every text in its content, at any depth of it
    and of the tools' inputs, is filler drawn from the salted digest and the
    length of a text, or a label drawn from these and the short extension of a
    path; fields that identify a block or name a tool, and the keys of a tool's
    input, stand as they are.  The working directory and the session are
    replaced.  Any line that differs from it only behind those digests, lengths
    and extensions comes out the same. *)
Theorem a_redacted_turn_shows_no_text obj msg :
  is_turn obj = true -> lookup "message" obj = Some (Object msg) ->
  (forall x, ("content", x) ∈ msg -> plain_content x = true) ->
  (exists msg', lookup "message" (line digest obj) = Some (Object msg') /\
     forall k x, (k, x) ∈ msg' -> is_in keptMessage k = true /\ (k = "content" -> Forall drawn (shown AsContent x))) /\
  lookup "cwd" (line digest obj) = Some (String_ "/redacted") /\
  lookup "sessionId" (line digest obj) = Some (String_ "redacted") /\
  (forall other, shape_line other = shape_line obj -> line digest other = line digest obj).
Proof.
  intros Ht Hm Hp. unfold line at 1 2 3, redact_message. set (m := redact_compaction _).
  assert (lookup "message" m = Some (Object msg)) as Hmm by (unfold m; by rewrite lookup_before_message).
  assert (is_turn m = true) as -> by (unfold is_turn, m; rewrite lookup_before_message by done; exact Ht).
  assert (lookup "cwd" m = Some (String_ "/redacted") /\ lookup "sessionId" m = Some (String_ "redacted")) as [Hc Hs].
  { unfold m, redact_compaction. split; (destruct (lookup "compactMetadata" _); [destruct (compaction v) |]);
      rewrite ?lookup_delete by done; by rewrite !lookup_set. }
  cbn [negb]. rewrite Hmm, !lookup_set. cbn [String.eqb Ascii.eqb Bool.eqb]. split; [| split; [exact Hc | split; [exact Hs |]]].
  2: intros other; apply same_shape_same_line.
  exists (message digest msg). split; [reflexivity |]. intros k x Hx. unfold message in Hx.
  apply list_elem_of_In, in_map_iff in Hx as ([k0 x0] & E & Hx). apply filter_In in Hx as [Hx Hk]. cbn [fst snd] in E, Hk.
  destruct (String.eqb_spec k0 "content") as [->|Hne]; injection E as <- <-; (split; [exact Hk |]); [intros _ | done].
  apply list_elem_of_In, Hp in Hx. destruct x0; try done; cbn in Hx |- *.
  - constructor; [apply drawn_filler | constructor].
  - apply flat_map_forall, List.Forall_map, Forall_forall. intros v Hv. rewrite forallb_forall in Hx.
    apply content_drawn, Hx. by apply list_elem_of_In.
Qed.

End shapes.

(** ** Lengths *)

Lemma len_append a b : len (a ++ b)%string = len a + len b.
Proof. unfold len. rewrite (ltac:(induction a as [|c a IH]; cbn; [done | by rewrite IH]) : String.length (a ++ b) = (String.length a + String.length b)%nat). lia. Qed.

Lemma len_to_byte n s : 0 <= n <= len s -> len (to_byte n s) = n.
Proof.
  unfold len, to_byte. intros H.
  assert (forall m t, (m <= String.length t)%nat -> String.length (substring 0 m t) = m) as Hs.
  { intros m. induction m as [|m IH]; intros [|c t] Hm; cbn in *; try lia. rewrite IH by lia. done. }
  rewrite Hs by lia. lia.
Qed.

Lemma fill_enough fuel n seed acc :
  0 < len seed -> n <= len acc + Z.of_nat fuel -> n <= len (fill fuel n seed acc).
Proof.
  intros Hs. revert acc. induction fuel as [|fuel IH]; intros acc Hn; cbn [fill]; [lia |].
  destruct (Z.ltb_spec (len acc) n); [| lia]. apply IH. rewrite len_append. lia.
Qed.

Section lengths.
Context (digest : string -> string).
Hypothesis digest_length : forall s, len (digest s) = 64.

Lemma filler_length n seed : 0 <= n -> len seed = 64 -> len (filler_of seed n) = n.
Proof.
  intros Hn Hs. unfold filler_of. destruct (Z.eqb_spec n 0) as [->|]; [done |].
  apply len_to_byte. split; [done |]. apply fill_enough; [lia |]. change (len "") with 0. lia.
Qed.

Lemma label_length n seed ext : 0 <= n -> len seed = 64 -> len (label_of seed n ext) = n.
Proof.
  intros Hn Hs. unfold label_of. set (label := ("r/" ++ _)%string).
  assert (len label = 14) as Hlabel.
  { subst label. rewrite len_append, len_to_byte; [done | unfold HashedLabelBytes; lia]. }
  destruct (Z.leb_spec (n - len ext) 0); [by apply filler_length |].
  assert (0 <= len ext) as He by (unfold len; lia).
  destruct (Z.ltb_spec (n - len ext) (len label)).
  - rewrite len_append, len_to_byte by lia. lia.
  - rewrite !len_append, len_to_byte; [lia |]. rewrite filler_length by done. lia.
Qed.

(** A value with every text replaced by its length. *)
Fixpoint lengths (v : value) : value :=
  match v with
  | Object m => Object (List.map (fun kv => match kv with (k, x) => (k, lengths x) end) m)
  | Array l => Array (List.map lengths l)
  | String_ s => Num (of_string (itoa (len s)))
  | _ => v
  end.

(** A redacted tool input has the structure and the lengths it had: every
    text, label or path comes out with as many bytes as it went in with, every
    key, number and list where it was. *)
Lemma an_input_keeps_its_lengths v : lengths (input digest v) = lengths v.
Proof using digest_length.
  assert (forall s, 0 <= len s) as Hpos by (intros s; unfold len; lia).
  induction v as [| | | s |l IH|l IH] using value_nested_ind; try done.
  - cbn [input lengths]. unfold filler. by rewrite filler_length.
  - cbn [input lengths]. f_equal. rewrite map_map. apply map_ext_Forall. exact IH.
  - cbn [input lengths]. f_equal. rewrite map_map. apply map_ext_Forall. eapply Forall_impl; [exact IH |].
    intros [k x] Hx. cbn [snd] in Hx. destruct x; try (exact (f_equal (pair k) Hx)).
    destruct (is_in LabelArgs k); cbn [lengths]; unfold hashedLabel, filler; by rewrite ?label_length, ?filler_length.
Qed.

End lengths.

(** ** Concrete lines *)

Definition zeros (_ : string) : string := string_of_list_ascii (repeat "0"%char 64).

Definition user_line (msg : value) : list (string * value) :=
  [("type", String_ "user"); ("uuid", String_ "u1"); ("gitBranch", String_ "secret-branch"); ("message", msg)].

Definition says (text : string) : list (string * value) :=
  user_line (Object [("role", String_ "user");
    ("content", Array [Object [("type", String_ "text"); ("text", String_ text)];
                       Object [("type", String_ "tool_use"); ("name", String_ "mcp__acme__search");
                               ("input", Object [("file_path", String_ "/home/a/b.go"); ("limit", Num (of_string "3"))])]])]).

Lemma a_redacted_turn_shows_no_text_witness :
  line zeros (says "my secret") = line zeros (says "a picture") /\
  exists msg', lookup "message" (line zeros (says "my secret")) = Some (Object msg') /\
    forall x, ("content", x) ∈ msg' -> Forall (drawn zeros) (shown AsContent x).
Proof.
  destruct (a_redacted_turn_shows_no_text zeros (says "my secret")
    [("role", String_ "user");
     ("content", Array [Object [("type", String_ "text"); ("text", String_ "my secret")];
                        Object [("type", String_ "tool_use"); ("name", String_ "mcp__acme__search");
                                ("input", Object [("file_path", String_ "/home/a/b.go"); ("limit", Num (of_string "3"))])]])])
    as ((msg' & Hl & Hm) & _ & _ & Hsame); [reflexivity | reflexivity | |].
  - intros x Hx. apply list_elem_of_In in Hx as [E | [E | []]]; [discriminate E | injection E as <-; reflexivity].
  - split; [symmetry; apply Hsame; vm_compute; reflexivity |]. exists msg'. split; [exact Hl |].
    intros x Hx. by apply (Hm "content" x Hx).
Defined.

Lemma an_input_keeps_its_lengths_witness :
  lengths (input zeros (Object [("file_path", String_ "/home/a/b.go"); ("note", String_ "hello")])) =
  Object [("file_path", Num (of_string "12")); ("note", Num (of_string "5"))].
Proof. rewrite (an_input_keeps_its_lengths zeros (fun _ => eq_refl)). vm_compute. reflexivity. Defined.

Example what_comes_out :
  line zeros (says "my secret") =
  [("type", String_ "user"); ("uuid", String_ "u1");
   ("message", Object [("role", String_ "user");
     ("content", Array [Object [("type", String_ "text"); ("text", String_ "000000000")];
                        Object [("type", String_ "tool_use"); ("name", String_ "mcp__s_000000000000__search");
                                ("input", Object [("file_path", String_ "r/0000000.go"); ("limit", Num (of_string "3"))])]])]);
   ("sessionId", String_ "redacted"); ("cwd", String_ "/redacted")].
Proof. vm_compute. reflexivity. Qed.

(** ** What the shape keeps

    A text where the reader expects an object, or an object where it expects a
    text, is passed on as it is. *)

Lemma a_message_that_is_a_text_is_kept s :
  lookup "message" (line zeros (user_line (String_ s))) = Some (String_ s).
Proof. reflexivity. Qed.

Lemma a_content_that_is_an_object_is_kept m :
  lookup "message" (line zeros (user_line (Object [("content", Object m)]))) = Some (Object [("content", Object m)]).
Proof. reflexivity. Qed.

Lemma a_text_in_the_list_is_kept s :
  lookup "message" (line zeros (user_line (Object [("content", Array [String_ s])]))) = Some (Object [("content", Array [String_ s])]).
Proof. reflexivity. Qed.

(** The keys of a tool's input are kept, whoever wrote them. *)
Lemma the_keys_of_an_input_are_kept k s :
  is_in LabelArgs k = false -> input zeros (Object [(k, String_ s)]) = Object [(k, String_ (filler zeros s))].
Proof. intros H. cbn [input List.map]. by rewrite H. Qed.

End RedactSpec.
