(* ===== verification/Learn.v ===== *)
(** What the recorded sessions teach ([src/internal/learn/learn.go]): each
    session scored under every candidate, each candidate judged on the training
    sessions and again on the held-out ones, one selected; and the trial of it
    in real sessions ([graduate.go]).

    A verdict is a pointer into the result's list where the source picks the
    best: here the place in the list beside what stands there. *)

From S2P Require Import Prelude GoString GoFloat GoTime Transcript Tenancy CacheRules CachePrices CacheVerdict.
From S2P Require Import Calibrate Fit Replay Json Labels Ledger LedgerStore GoMath Policy Blame Waste Gap.
From S2P Require Import Breaks Reports PolicyPin.
From Stdlib Require Import Ascii String SpecFloat.

Open Scope string_scope.
Open Scope list_scope.
Open Scope Z_scope.

Module Learn.
Import CachePrices Transcript Fit Calibrate Replay Waste Print Reports.

#[local] Abbreviation length := List.length.

(** ** Candidates *)

Definition DefaultMinSessions : Z := 5.
Definition holdoutShare : float64 := of_ratio 3 10.
Definition intervalWidth : float64 := of_int 2.
Definition contextEditTriggers : list Z := [50000; 100000; 200000; 400000].

Definition FamilyAsRun : string := "as-run".
Definition FamilyTTL : string := "ttl".
Definition FamilyContextEdit : string := "context-edit".

Record Candidate := mkCandidate {
  cd_Name : string;
  Family : string;
  cd_Live : string;
  cd_ContextEdit : option ContextEditPolicy;
  TTL : duration
}.

Definition edit_candidate (trigger : Z) : Candidate :=
  mkCandidate
    ("context-edit(keep=" ++ itoa ContextEditKeepLast ++ ",trigger=" ++ itoa trigger ++ ")")%string FamilyContextEdit
    ("replay serve --context-edit-trigger " ++ itoa trigger ++ " --context-edit-keep " ++ itoa ContextEditKeepLast)%string
    (Some (mkEdit ContextEditKeepLast trigger)) 0.

Definition Catalog : list Candidate :=
  [mkCandidate "ttl-5m" FamilyTTL "client setting promptCacheTtl=5m" None TTLShort;
   mkCandidate "ttl-1h" FamilyTTL "client setting promptCacheTtl=1h" None TTLLong]
  ++ List.map edit_candidate contextEditTriggers.

(** ** Scores *)

Record SessionScore := mkScore {
  SessionID : string;
  sc_Type : string;
  Holdout : bool;
  Arm : string;
  CostPerNewToken : float64;
  ErrorShare : float64;
  ErrorUnresolved : Z;
  ErrorLegacy : Z;
  sc_ReadsAfterClear : Z;
  sc_AsRun : Tally;
  Saving : gmap string float64;
  Cached : gmap string float64;
  Estimated : gmap string bool
}.

Definition Type_ (s : Session) : string :=
  match MainLane s with
  | Some lane =>
      match Requests lane with
      | first :: _ => PolicyPin.TypeOf (Model first) (PromptTotal (req_Usage first))
      | [] => ""
      end
  | None => ""
  end.

Definition isHoldout (id : string) : bool :=
  fltb (of_int (PolicyPin.fnv32a id mod 1000) / of_int 1000)%float holdoutShare.

Definition share_of (tokens : float64) (total : Z) : float64 := if 0 <? total then (tokens / of_int total)%float else f0.

Section score.
Context `{PL : Pricing.PriceLayer} (it : iteration).

(** One candidate of a session; [None] where replaying it would panic. *)
Definition score_candidate (lane : Lane) (cal : Calibration) (fit : TokenFit) (asRun : Tally)
    (acc : option (gmap string float64 * gmap string float64 * gmap string bool)) (c : Candidate) :=
  acc ← acc;
  let '(saving, cached, estimated) := acc in
  if String.eqb (Family c) FamilyTTL && Sidechain lane then Some acc
  else
    r ← match cd_ContextEdit c with
        | Some p => WithContextEdit cal p fit
        | None => WithTTL cal (TTL c)
        end;
    Some (<[cd_Name c := ((t_EffectiveTokens asRun - t_EffectiveTokens r) / t_EffectiveTokens asRun)%float]> saving,
          <[cd_Name c := Tally_CachedShare r]> cached,
          <[cd_Name c := bool_decide (is_Some (cd_ContextEdit c))]> estimated).

(** [Some None] is a session that is not scored. *)
Definition Score (s : Session) (candidates : list Candidate) : option (option SessionScore) :=
  match MainLane s with
  | None => Some None
  | Some lane =>
      rep ← AnalyzeLane it s lane;
      cal ← rep_Calibration rep;
      if negb (Passes cal) then Some None
      else
        let asRun := AsRun lane in
        if fleb (t_EffectiveTokens asRun) f0 then Some None
        else
          let newTokens := fold_left (fun n r => n +! (Input (req_Usage r) +! Output (req_Usage r))) (Requests lane) 0 in
          let errTokens := fold_left (fun t e => (t + of_int (Value (ec_PromptTokens e)))%float) (rep_Errors rep) f0 in
          scored ← fold_left (score_candidate lane cal (rep_Fit rep) asRun) candidates (Some (∅, ∅, ∅));
          let '(saving, cached, estimated) := scored in
          Some (Some (mkScore (ses_ID s) (Type_ s) (isHoldout (ses_ID s)) (Trial s)
            (if 0 <? newTokens then (t_EffectiveTokens asRun / of_int newTokens)%float else f0)
            (share_of errTokens (PromptTokens asRun)) (Unresolved (rep_Evidence rep)) (Legacy (rep_Evidence rep))
            (RepeatedAfterClear (rep_ReReads rep)) asRun saving cached estimated))
  end.

End score.

(** ** Means and their bands *)

Definition sum_of (xs : list float64) : float64 := fold_left fadd xs f0.

Definition meanInterval (xs : list float64) : float64 * (float64 * float64) :=
  let n := of_int (Z.of_nat (length xs)) in
  if feqb n f0 then (f0, (f0, f0))
  else
    let mean := (sum_of xs / n)%float in
    if fltb n (of_int 2) then (mean, (S754_infinity true, S754_infinity false))
    else
      let ss := fold_left (fun ss x => (ss + (x - mean) * (x - mean))%float) xs f0 in
      let se := (fsqrt (ss / (n - of_int 1)) / fsqrt n)%float in
      (mean, ((mean - intervalWidth * se)%float, (mean + intervalWidth * se)%float)).

(** ** One candidate *)

Record Verdict := mkVerdict {
  v_Candidate : Candidate;
  Sessions : Z;
  HoldoutSessions : Z;
  Mean : float64;
  Interval : float64 * float64;
  HoldoutMean : float64;
  CachedShareDelta : float64;
  v_Estimated : bool;
  Decision_ : string
}.

Definition v_Name (v : Verdict) : string := cd_Name (v_Candidate v).

Definition decided (v : Verdict) (d : string) : Verdict :=
  mkVerdict (v_Candidate v) (Sessions v) (HoldoutSessions v) (Mean v) (Interval v) (HoldoutMean v) (CachedShareDelta v) (v_Estimated v) d.

Definition rejectTooFew (min n : Z) : string :=
  ("rejected: fewer than " ++ itoa min ++ " sessions with evidence (" ++ itoa n ++ ")")%string.
Definition rejectNoMargin : string := "rejected: saving not above noise (interval includes zero)".
Definition rejectNoRepeat : string := "rejected: did not repeat on held-out sessions".
Definition rejectNoHoldout : string := "rejected: no held-out session carried evidence".
Definition rejectSimpler : string := "rejected: a simpler candidate saves the same within noise".
Definition rejectBeaten : string := "rejected: another candidate saves more".
Definition selected : string := "selected".

Definition is_selected (v : Verdict) : bool := String.eqb (Decision_ v) selected.

Definition minMeaningfulShare : float64 := of_ratio 1 1000000.

(** A saving of a session that is evidence about the candidate. *)
Definition evidence_of (name : string) (s : SessionScore) : option float64 :=
  saving ← Saving s !! name;
  if fltb (fabs saving) minMeaningfulShare then None else Some saving.

Definition judge_session (name : string) (acc : list float64 * list float64 * float64 * bool) (s : SessionScore) :=
  let '(train, holdout, delta, estimated) := acc in
  match evidence_of name s with
  | None => acc
  | Some saving =>
      let delta := (delta + (default f0 (Cached s !! name) - Tally_CachedShare (sc_AsRun s)))%float in
      let estimated := estimated || default false (Estimated s !! name) in
      if Holdout s then (train, holdout ++ [saving], delta, estimated) else (train ++ [saving], holdout, delta, estimated)
  end.

Definition judge (c : Candidate) (scores : list SessionScore) (minSessions : Z) : Verdict :=
  let '(train, holdout, delta, estimated) := fold_left (judge_session (cd_Name c)) scores ([], [], f0, false) in
  let n := Z.of_nat (length train) +! Z.of_nat (length holdout) in
  let '(mean, interval) := meanInterval train in
  let holdoutMean := if 0 <? Z.of_nat (length holdout) then (meanInterval holdout).1 else f0 in
  mkVerdict c n (Z.of_nat (length holdout)) mean interval holdoutMean
    (if 0 <? n then (delta / of_int n)%float else f0) estimated
    (if n <? minSessions then rejectTooFew minSessions n
     else if (Z.of_nat (length train) <? 2) || fleb interval.1 f0 then rejectNoMargin
     else if Z.of_nat (length holdout) =? 0 then rejectNoHoldout
     else if fleb holdoutMean f0 then rejectNoRepeat
     else selected).

Definition absent_is_zero (s : SessionScore) (name : string) : float64 := default f0 (Saving s !! name).

Definition paired_diff (a b : string) (s : SessionScore) : list float64 :=
  if Holdout s || feqb (absent_is_zero s a) f0 || feqb (absent_is_zero s b) f0 then []
  else [(absent_is_zero s a - absent_is_zero s b)%float].

Definition pairedTie (a b : string) (scores : list SessionScore) : bool :=
  let diffs := flat_map (paired_diff a b) scores in
  (length diffs <? 2)%nat || fleb (meanInterval diffs).2.1 f0.

Definition rank (family : string) : Z :=
  if String.eqb family FamilyTTL then 1 else if String.eqb family FamilyContextEdit then 2 else 0.

Definition simpler (a b : Candidate) : bool := rank (Family a) <? rank (Family b).

(** ** The one selected *)

Definition better (best : option (nat * Verdict)) (iv : nat * Verdict) : option (nat * Verdict) :=
  if negb (is_selected iv.2) then best
  else match best with
       | None => Some iv
       | Some (_, b) => if fltb (Mean b) (Mean iv.2) then Some iv else best
       end.

(** A simpler candidate that ties takes the place of the best so far. *)
Definition prefer_simpler (scores : list SessionScore) (st : list Verdict * nat) (i : nat) : list Verdict * nat :=
  let '(vs, b) := st in
  match vs !! i, vs !! b with
  | Some v, Some best =>
      if negb (is_selected v) || bool_decide (i = b) then st
      else if simpler (v_Candidate v) (v_Candidate best) && pairedTie (v_Name best) (v_Name v) scores
           then (<[b := decided best rejectSimpler]> vs, i)
           else st
  | _, _ => st
  end.

Definition beat_others (b : nat) (iv : nat * Verdict) : Verdict :=
  if is_selected iv.2 && negb (bool_decide (iv.1 = b)) then decided iv.2 rejectBeaten else iv.2.

Definition noSelection : string := "no candidate met the evidence, margin, and repeat rules".

(** The verdicts, the candidate selected and the reason there is none. *)
Definition pick (vs : list Verdict) (scores : list SessionScore) : list Verdict * option Candidate * string :=
  match fold_left better (indexed vs) None with
  | None => (vs, None, noSelection)
  | Some (b, _) =>
      let '(vs, b) := fold_left (prefer_simpler scores) (seq 0 (length vs)) (vs, b) in
      (List.map (beat_others b) (indexed vs), v_Candidate <$> vs !! b, "")
  end.

Record TypeResult := mkTypeResult { ty_Type : string; ty_Sessions : Z; ty_Selected : option Candidate; ty_Reason : string }.

(** ** A trial *)

Definition DefaultTrialMinSessions : Z := 5.
Definition graduationTolerance : float64 := of_ratio 5 10.
Definition outcomeTolerance : float64 := of_ratio 120 100.

Record ArmCost := mkArmCost {
  ac_Arm : string;
  ac_CostPerNewToken : float64;
  ac_ErrorShare : float64;
  ac_ReadsAfterClear : Z
}.

Definition armCostsOf (scores : list SessionScore) : list ArmCost :=
  List.map (fun s => mkArmCost (Arm s) (CostPerNewToken s) (ErrorShare s) (sc_ReadsAfterClear s)) scores.

Record TrialReport := mkTrialReport {
  tr_Policy : string;
  Treated : Z;
  Control : Z;
  TreatedCost : float64;
  TreatedInterval : float64 * float64;
  ControlCost : float64;
  ControlInterval : float64 * float64;
  Realized : float64;
  Predicted : float64;
  Graduated : bool;
  tr_Reason : string;
  OutcomeObserved : bool;
  TreatedErrorShare : float64;
  ControlErrorShare : float64;
  TreatedRereads : float64;
  ControlRereads : float64
}.

Definition arm (name : string) (costs : list ArmCost) : list ArmCost := List.filter (fun c => String.eqb (ac_Arm c) name) costs.

Definition separated (treated control : list float64) : bool :=
  let '(mt, (lt, ht)) := meanInterval treated in
  let '(mc, (lc, hc)) := meanInterval control in
  match lt, lc with
  | S754_infinity _, _ | _, S754_infinity _ => false
  | _, _ =>
      let seT := ((ht - lt) / (of_int 2 * intervalWidth))%float in
      let seC := ((hc - lc) / (of_int 2 * intervalWidth))%float in
      fltb (intervalWidth * fsqrt (seT * seT + seC * seC))%float (mc - mt)%float
  end.

Definition worse (treated control : float64) : bool := fltb f0 control && fltb (control * outcomeTolerance)%float treated.

Definition pct (f : float64) : string := (FormatFloat 0 (f * of_int 100)%float ++ "%")%string.

Definition Graduate (policy : string) (costs : list ArmCost) (predicted : float64) (minSessions : Z) : option TrialReport :=
  let minSessions := if minSessions <=? 0 then DefaultTrialMinSessions else minSessions in
  let treated := arm "treated" costs in
  let control := arm "control" costs in
  match treated, control with
  | [], [] => None
  | _, _ =>
      let seen := existsb (fun c => fltb f0 (ac_ErrorShare c) || (0 <? ac_ReadsAfterClear c)) costs in
      let '(tc, ti) := meanInterval (List.map ac_CostPerNewToken treated) in
      let '(cc, ci) := meanInterval (List.map ac_CostPerNewToken control) in
      let realized := if fltb f0 cc then (of_int 1 - tc / cc)%float else f0 in
      let mean_of f l := (meanInterval (List.map f l)).1 in
      let te := mean_of ac_ErrorShare treated in
      let ce := mean_of ac_ErrorShare control in
      let tr := mean_of (fun c => of_int (ac_ReadsAfterClear c)) treated in
      let cr := mean_of (fun c => of_int (ac_ReadsAfterClear c)) control in
      let nt := Z.of_nat (length treated) in
      let nc := Z.of_nat (length control) in
      let '(graduated, reason) :=
        if (nt <? minSessions) || (nc <? minSessions) then
          (false, "not judged: fewer than " ++ itoa minSessions ++ " sessions in an arm (" ++ itoa nt ++ " treated, " ++ itoa nc ++ " control)")%string
        else if negb (separated (List.map ac_CostPerNewToken treated) (List.map ac_CostPerNewToken control)) then
          (false, "not graduated: the arms are not separated above noise")
        else if seen && worse te ce then
          (false, "not graduated: the treated arm saved " ++ pct realized ++ " and its error share rose from " ++ FormatFloat 3 ce ++ " to " ++
                  FormatFloat 3 te ++ ". Cheaper is not better if the work got worse")%string
        else if seen && worse tr cr then
          (false, "not graduated: the treated arm saved " ++ pct realized ++ " and re-read cleared content " ++ FormatFloat 1 tr ++
                  " times against " ++ FormatFloat 1 cr ++ ", which is the agent failing to use what it was given")%string
        else if fltb realized (graduationTolerance * predicted)%float then
          (false, "not graduated: realized saving " ++ pct realized ++ " is under half of the predicted " ++ pct predicted)%string
        else
          (true, "graduated: realized saving " ++ pct realized ++ " against a predicted " ++ pct predicted ++
                 (if seen then "" else "; no outcome signal was observed in either arm, so this is a cost result only"))%string in
      Some (mkTrialReport policy nt nc tc ti cc ci realized predicted graduated reason seen te ce tr cr)
  end.

(** ** The result *)

Record Result := mkResult {
  res_Schema : Z;
  Generated : time;
  res_Rules : string;
  Found : Z;
  Calibrated : Z;
  res_Holdout : Z;
  Verdicts : list Verdict;
  Selected : option Candidate;
  res_Reason : string;
  Types : list TypeResult;
  res_Trial : option TrialReport
}.

Section select.
Context (ov : option CacheRules.Rules).

Definition selectFrom (candidates : list Candidate) (scores : list SessionScore) (found minSessions : Z) (now : time) : Result :=
  let minSessions := if minSessions <=? 0 then DefaultMinSessions else minSessions in
  let '(verdicts, chosen, reason) := pick (List.map (fun c => judge c scores minSessions) candidates) scores in
  mkResult PolicyPin.PolicyFileSchema now (CacheRules.RulesVersionInEffect ov) found (Z.of_nat (length scores))
    (Z.of_nat (length (List.filter Holdout scores))) verdicts chosen reason [] None.

(** The candidate on trial: the selected edit, or the best of the edits up to it. *)
Fixpoint on_trial (chosen : option Candidate) (vs : list Verdict) (acc : string * float64) : string * float64 :=
  match vs with
  | [] => acc
  | v :: vs =>
      if negb (String.eqb (Family (v_Candidate v)) FamilyContextEdit) then on_trial chosen vs acc
      else match chosen with
           | Some c => if String.eqb (v_Name v) (cd_Name c) then (v_Name v, Mean v)
                       else on_trial chosen vs (if fltb acc.2 (Mean v) then (v_Name v, Mean v) else acc)
           | None => on_trial chosen vs (if fltb acc.2 (Mean v) then (v_Name v, Mean v) else acc)
           end
  end.

Definition trialReport (res : Result) (scores : list SessionScore) (minSessions : Z) : option TrialReport :=
  match armCostsOf (List.filter (fun s => negb (String.eqb (Arm s) "")) scores) with
  | [] => None
  | costs =>
      let '(policy, predicted) := on_trial (Selected res) (Verdicts res) ("", f0) in
      Graduate policy costs predicted minSessions
  end.

Definition group_score (m : gmap string (list SessionScore)) (s : SessionScore) : gmap string (list SessionScore) :=
  if String.eqb (sc_Type s) "" then m else <[sc_Type s := default [] (m !! sc_Type s) ++ [s]]> m.

Definition by_type (a b : string * list SessionScore) : bool := String.ltb a.1 b.1.

Definition select_type (candidates : list Candidate) (minSessions : Z) (now : time) (ts : string * list SessionScore) : TypeResult :=
  let n := Z.of_nat (length ts.2) in
  let sub := selectFrom candidates ts.2 n minSessions now in
  mkTypeResult ts.1 n (Selected sub) (res_Reason sub).

Definition Select (candidates : list Candidate) (scores : list SessionScore) (found minSessions : Z) (now : time) : Result :=
  let res := selectFrom candidates scores found minSessions now in
  let types := SliceStable by_type (map_to_list (fold_left group_score scores ∅)) in
  mkResult (res_Schema res) (Generated res) (res_Rules res) (Found res) (Calibrated res) (res_Holdout res) (Verdicts res)
    (Selected res) (res_Reason res) (List.map (select_type candidates minSessions now) types) (trialReport res scores minSessions).

End select.

Definition SortVerdicts : list Verdict -> list Verdict :=
  SliceStable (fun a b => if Bool.eqb (is_selected a) (is_selected b) then fltb (Mean b) (Mean a) else is_selected a).

End Learn.

(** What selecting and trying a candidate promise: the one selected earned it,
    the others say why they were not, and a trial graduates on both arms. *)

Module LearnSpec.
Import Learn.

#[local] Abbreviation length := List.length.

(** ** Judging one candidate *)

(** The savings that are evidence, apart for the two kinds of session. *)
Definition training (name : string) (scores : list SessionScore) : list float64 :=
  omap (evidence_of name) (List.filter (fun s => negb (Holdout s)) scores).
Definition held_out (name : string) (scores : list SessionScore) : list float64 :=
  omap (evidence_of name) (List.filter Holdout scores).

Lemma judged_lists name scores t h d e :
  exists d' e', fold_left (judge_session name) scores (t, h, d, e) = (t ++ training name scores, h ++ held_out name scores, d', e').
Proof.
  revert t h d e. induction scores as [|s scores IH]; intros t h d e.
  - cbn. rewrite !app_nil_r. by do 2 eexists.
  - cbn [fold_left judge_session]. unfold training, held_out. cbn [List.filter].
    destruct (evidence_of name s) as [x|] eqn:Ex.
    + destruct (Holdout s); cbn [negb omap list_omap]; rewrite ?Ex;
        destruct (IH (t ++ [x]) h (d + (default f0 (Cached s !! name) - Replay.Tally_CachedShare (sc_AsRun s)))%float
                    (e || default false (Estimated s !! name))) as (d1 & e1 & H1);
        destruct (IH t (h ++ [x]) (d + (default f0 (Cached s !! name) - Replay.Tally_CachedShare (sc_AsRun s)))%float
                    (e || default false (Estimated s !! name))) as (d2 & e2 & H2);
        rewrite <- ?app_assoc in *; eauto.
    + destruct (IH t h d e) as (d1 & e1 & H1). destruct (Holdout s); cbn [negb omap list_omap]; rewrite ?Ex; eauto.
Qed.

Lemma evidence_bound name scores :
  (length (training name scores) + length (held_out name scores) <= length scores)%nat.
Proof.
  induction scores as [|s scores IH]; [done |]. unfold training, held_out in *. cbn [List.filter].
  destruct (Holdout s); cbn [negb omap list_omap length]; destruct (evidence_of name s); cbn [length]; lia.
Qed.

(** What a candidate has to show. *)
Record earned (minSessions : Z) (scores : list SessionScore) (c : Candidate) : Prop := {
  er_enough : minSessions <= Z.of_nat (length (training (cd_Name c) scores) + length (held_out (cd_Name c) scores));
  er_trained : (2 <= length (training (cd_Name c) scores))%nat;
  er_margin : fleb (meanInterval (training (cd_Name c) scores)).2.1 f0 = false;
  er_held_out : held_out (cd_Name c) scores <> [];
  er_repeats : fleb (meanInterval (held_out (cd_Name c) scores)).1 f0 = false
}.

Lemma judge_selected c scores minSessions :
  Z.of_nat (length scores) <= max_int64 ->
  is_selected (judge c scores minSessions) = true <-> earned minSessions scores c.
Proof.
  intros Hl. unfold judge. destruct (judged_lists (cd_Name c) scores [] [] f0 false) as (d & e & ->). cbn [app].
  pose proof (evidence_bound (cd_Name c) scores) as Hb.
  set (t := training _ _) in *. set (h := held_out _ _) in *.
  destruct (meanInterval t) as [mean [lo hi]] eqn:Em. unfold is_selected. cbn [Decision_].
  assert (Z.of_nat (length t) +! Z.of_nat (length h) = Z.of_nat (length t + length h)) as -> by lia_int.
  destruct (Z.ltb_spec (Z.of_nat (length t + length h)) minSessions) as [H1|H1].
  { split; [done |]. intros [H _ _ _ _]. fold t h in H. lia. }
  destruct (Z.ltb_spec (Z.of_nat (length t)) 2) as [H2|H2]; cbn [orb].
  { split; [done |]. intros [_ H _ _ _]. fold t in H. lia. }
  destruct (fleb (lo, hi).1 f0) eqn:H3.
  { split; [done |]. intros [_ _ H _ _]. fold t in H. rewrite Em in H. cbn in H, H3. congruence. }
  destruct (Z.eqb_spec (Z.of_nat (length h)) 0) as [H4|H4].
  { split; [done |]. intros [_ _ _ H _]. fold h in H. by destruct h. }
  replace (0 <? Z.of_nat (length h)) with true by lia.
  destruct (fleb (meanInterval h).1 f0) eqn:H5.
  { split; [done |]. intros [_ _ _ _ H]. fold h in H. congruence. }
  split; [| done]. intros _. split; fold t h; rewrite ?Em; [done | lia | done | by intros -> | done].
Qed.

(** ** The best of them *)

Definition judged_at (vs : list Verdict) (i : nat) (v : Verdict) : Prop := vs !! i = Some v /\ is_selected v = true.

Definition saves_most (vs : list Verdict) (v : Verdict) : Prop :=
  forall j w, judged_at vs j w -> fltb (Mean v) (Mean w) = false.

Lemma fltb_trans a b c : fltb a b = true -> fltb b c = true -> fltb a c = true.
Proof.
  intros H1 H2. destruct (fltb_not_nan _ _ H1) as [Ha Hb]. destruct (fltb_not_nan _ _ H2) as [_ Hc].
  rewrite (fltb_fleb a c) by done. destruct (fleb c a) eqn:E; [| done].
  pose proof (fleb_trans _ _ _ (fltb_le _ _ H2) E) as H. rewrite (fltb_fleb a b), H in H1 by done. done.
Qed.

Lemma best_found vs :
  match fold_left better (indexed vs) None with
  | None => forall i v, vs !! i = Some v -> is_selected v = false
  | Some (b, v) => judged_at vs b v /\ saves_most vs v
  end.
Proof.
  induction vs as [|v vs IH] using rev_ind; [done |].
  unfold indexed in *. rewrite imap_app, fold_left_app. cbn [imap fold_left].
  assert (forall i w, (vs ++ [v]) !! i = Some w -> vs !! i = Some w \/ (i = length vs /\ w = v)) as Hlast.
  { intros i w [Hi|[Hi Hw]]%lookup_app_Some; [by left | right].
    apply list_lookup_singleton_Some in Hw as [Hi' ->]. split; [lia | done]. }
  unfold better at 1. cbn [snd]. destruct (is_selected v) eqn:Ev; cbn [negb].
  - destruct (fold_left better (imap pair vs) None) as [[b best]|].
    + destruct IH as [[Hb Hs] Hm]. destruct (fltb (Mean best) (Mean v)) eqn:E.
      * split; [split; [by rewrite Nat.add_0_r, lookup_app_r, Nat.sub_diag by lia | done] |].
        intros j w [Hj Hw]. apply Hlast in Hj as [Hj|[_ ->]]; [| apply fltb_irrefl].
        destruct (fltb (Mean v) (Mean w)) eqn:E'; [| done].
        rewrite <- (Hm j w (conj Hj Hw)). by rewrite (fltb_trans _ _ _ E E').
      * split; [split; [by apply lookup_app_l_Some | done] |].
        intros j w [Hj Hw]. apply Hlast in Hj as [Hj|[_ ->]]; [by apply (Hm j) | done].
    + split; [split; [by rewrite Nat.add_0_r, lookup_app_r, Nat.sub_diag by lia | done] |].
      intros j w [Hj Hw]. apply Hlast in Hj as [Hj|[_ ->]]; [| apply fltb_irrefl]. by rewrite (IH j w Hj) in Hw.
  - destruct (fold_left better (imap pair vs) None) as [[b best]|].
    + destruct IH as [[Hb Hs] Hm]. split; [split; [by apply lookup_app_l_Some | done] |].
      intros j w [Hj Hw]. apply Hlast in Hj as [Hj|[_ ->]]; [by apply (Hm j) | congruence].
    + intros i w Hw. apply Hlast in Hw as [Hw|[_ ->]]; [by apply (IH i) | done].
Qed.

(** ** The simpler one in its place *)

(** [v] took its place from a verdict that was selected: it is simpler and no
    worse above noise. *)
Definition displaces (scores : list SessionScore) (vs : list Verdict) (v : Verdict) : Prop :=
  exists j u, judged_at vs j u /\ simpler (v_Candidate v) (v_Candidate u) = true /\
    pairedTie (v_Name u) (v_Name v) scores = true.

Record chosen (scores : list SessionScore) (vs : list Verdict) (most : nat) (vs' : list Verdict) (b : nat) : Prop := {
  ch_length : length vs' = length vs;
  ch_each : forall k w, vs !! k = Some w -> vs' !! k = Some w \/ vs' !! k = Some (decided w rejectSimpler);
  ch_best : exists v, judged_at vs b v /\ vs' !! b = Some v /\ (b = most \/ displaces scores vs v)
}.

Lemma prefer_keeps scores vs most vs' b i :
  chosen scores vs most vs' b -> let '(vs'', b') := prefer_simpler scores (vs', b) i in chosen scores vs most vs'' b'.
Proof.
  intros [Hl He (best & [Hb Hs] & Hb' & Hd)]. unfold prefer_simpler. rewrite Hb'.
  destruct (vs' !! i) as [v|] eqn:Ei; [| by split; [| | exists best]].
  destruct (negb (is_selected v) || bool_decide (i = b)) eqn:E; [by split; [| | exists best] |].
  apply orb_false_iff in E as [Ev%negb_false_iff Ene%bool_decide_eq_false].
  destruct (simpler (v_Candidate v) (v_Candidate best) && pairedTie (v_Name best) (v_Name v) scores) eqn:Et;
    [| by split; [| | exists best]].
  apply andb_true_iff in Et as [Hsim Htie].
  assert (vs !! i = Some v) as Hi.
  { destruct (vs !! i) as [w|] eqn:Ew.
    - destruct (He i w Ew) as [H|H]; rewrite Ei in H; injection H as ->; [done |].
      change (is_selected (decided w rejectSimpler)) with false in Ev. done.
    - apply lookup_ge_None in Ew. apply lookup_lt_Some in Ei. lia. }
  split.
  - by rewrite length_insert.
  - intros k w Hk. destruct (decide (k = b)) as [->|Hne].
    + right. rewrite list_lookup_insert_eq by (apply lookup_lt_Some in Hb'; lia). congruence.
    + rewrite list_lookup_insert_ne by done. by apply He.
  - exists v. split; [done |]. split; [by rewrite list_lookup_insert_ne |]. right. by exists b, best.
Qed.

Lemma prefer_all scores vs most ks vs' b :
  chosen scores vs most vs' b ->
  let '(vs'', b') := fold_left (prefer_simpler scores) ks (vs', b) in chosen scores vs most vs'' b'.
Proof.
  revert vs' b. induction ks as [|i ks IH]; intros vs' b H; [done |]. cbn [fold_left].
  pose proof (prefer_keeps _ _ _ _ _ i H) as Hi. destruct (prefer_simpler scores (vs', b) i) as [vs1 b1]. by apply IH.
Qed.

Lemma beat_lookup b vs k : List.map (beat_others b) (indexed vs) !! k = (fun v => beat_others b (k, v)) <$> vs !! k.
Proof.
  unfold indexed. change (List.map (beat_others b) (imap pair vs)) with (beat_others b <$> imap pair vs).
  rewrite list_lookup_fmap, list_lookup_imap. by destruct (vs !! k).
Qed.

Lemma judge_candidate c scores minSessions : v_Candidate (judge c scores minSessions) = c.
Proof.
  unfold judge. destruct (fold_left _ scores _) as [[[t h] d] e]. by destruct (meanInterval t).
Qed.

Lemma beaten_candidates vs vs' b :
  length vs' = length vs ->
  (forall k w, vs !! k = Some w -> vs' !! k = Some w \/ vs' !! k = Some (decided w rejectSimpler)) ->
  List.map v_Candidate (List.map (beat_others b) (indexed vs')) = List.map v_Candidate vs.
Proof.
  intros Hl He. apply list_eq. intros k.
  change (List.map v_Candidate (List.map (beat_others b) (indexed vs')) !! k) with ((v_Candidate <$> List.map (beat_others b) (indexed vs')) !! k).
  change (List.map v_Candidate vs !! k) with ((v_Candidate <$> vs) !! k).
  rewrite list_lookup_fmap, beat_lookup, list_lookup_fmap. destruct (vs !! k) as [w|] eqn:Ew.
  - destruct (He k w Ew) as [-> | ->]; cbn; unfold beat_others; cbn; (try case_match); done.
  - apply lookup_ge_None in Ew. replace (vs' !! k) with (@None Verdict); [done |]. symmetry. apply lookup_ge_None. lia.
Qed.

(** Of the candidates that showed a saving above noise, on enough sessions
    and again on the held-out ones, one is selected: the one that saves most, or
    a simpler one that a candidate ahead of it does not beat above noise. It alone is
    marked selected, every candidate keeps its place, and none is selected
    exactly when none earned it. *)
Lemma the_selected_candidate_earned_it ov candidates scores found minSessions now :
  Z.of_nat (length scores) <= max_int64 -> 0 < minSessions ->
  let res := selectFrom ov candidates scores found minSessions now in
  let judged := List.map (fun c => judge c scores minSessions) candidates in
  List.map v_Candidate (Verdicts res) = candidates /\
  (Selected res = None <-> Forall (fun c => ~ earned minSessions scores c) candidates) /\
  forall c, Selected res = Some c ->
    earned minSessions scores c /\
    exists i v, v_Candidate v = c /\ judged_at judged i v /\ (saves_most judged v \/ displaces scores judged v) /\
      forall k w, Verdicts res !! k = Some w -> is_selected w = bool_decide (k = i).
Proof.
  intros Hl Hm. cbv zeta. unfold selectFrom. destruct (Z.leb_spec minSessions 0) as [Hc|_]; [lia |].
  set (vs := List.map (fun c => judge c scores minSessions) candidates).
  assert (List.map v_Candidate vs = candidates) as Hcands.
  { unfold vs. rewrite map_map. transitivity (List.map (fun c => c) candidates); [| by rewrite map_id].
    apply map_ext. intros c. apply judge_candidate. }
  assert (forall i v, judged_at vs i v -> earned minSessions scores (v_Candidate v)) as Hearned.
  { intros i v [Hi Hs]. apply list_lookup_fmap_Some in Hi as (c & -> & _). rewrite judge_candidate. by apply judge_selected. }
  unfold pick. pose proof (best_found vs) as Hb. destruct (fold_left better (indexed vs) None) as [[b best]|].
  - destruct Hb as [Hb Hmost].
    pose proof (prefer_all scores vs b (seq 0 (length vs)) vs b) as Hp.
    destruct (fold_left (prefer_simpler scores) (seq 0 (length vs)) (vs, b)) as [vs' b'].
    destruct Hp as [Hlen Heach (v & Hv & Hv' & Hd)]; [split; [done | by left | by exists best; split; [| split; [apply Hb | left]]] |].
    cbn [Verdicts Selected]. rewrite Hv'. cbn [fmap option_fmap option_map]. split; [| split].
    + rewrite <- Hcands. by apply beaten_candidates.
    + split; [discriminate |]. intros Hno. exfalso. destruct (Hearned _ _ Hv) as [].
      rewrite List.Forall_forall in Hno. apply (Hno (v_Candidate v)); [| by apply (Hearned b')].
      rewrite <- Hcands. apply in_map. apply list_elem_of_In. by apply (list_elem_of_lookup_2 vs b' v), Hv.
    + intros c [= <-]. split; [by apply (Hearned b') |]. exists b', v. split; [done |]. split; [done |].
      split.
      * destruct Hd as [->|Hd]; [left | by right]. destruct Hv as [Hv _], Hb as [Hb _].
        rewrite Hb in Hv. by injection Hv as <-.
      * intros k w Hw. rewrite beat_lookup in Hw. destruct (vs' !! k) as [u|] eqn:Hu; [| done]. injection Hw as <-.
        unfold beat_others. cbn [fst snd]. destruct (bool_decide_reflect (k = b')) as [->|Hne].
        -- rewrite andb_false_r. rewrite Hv' in Hu. injection Hu as <-. apply Hv.
        -- rewrite andb_true_r. by destruct (is_selected u) eqn:Eu.
  - cbn [Verdicts Selected]. split; [done |]. split; [| done]. split; [| done]. intros _.
    apply List.Forall_forall. intros c Hc He. apply judge_selected in He; [| done].
    apply list_elem_of_In, list_elem_of_lookup_1 in Hc as [i Hi].
    rewrite (Hb i (judge c scores minSessions)) in He; [done |]. unfold vs. by apply list_lookup_fmap_Some; exists c.
Qed.

(** ** A corpus *)

Definition scored (id : string) (holdout : bool) (short edit : float64) : SessionScore :=
  mkScore id "opus/large-prefix" holdout "" f0 f0 0 0 0 Replay.zero_tally
    (<["ttl-1h" := short]> {["context-edit(keep=6,trigger=100000)" := edit]}) ∅ ∅.

(** Six sessions in which editing saves a little more than the longer TTL, but
    not in each. *)
Definition corpus : list SessionScore :=
  [scored "a" false (of_ratio 20 100) (of_ratio 24 100); scored "b" false (of_ratio 22 100) (of_ratio 30 100);
   scored "c" false (of_ratio 21 100) (of_ratio 18 100); scored "d" false (of_ratio 19 100) (of_ratio 17 100);
   scored "e" true (of_ratio 20 100) (of_ratio 25 100); scored "f" true (of_ratio 18 100) (of_ratio 20 100)].

Definition longer_ttl : Candidate := mkCandidate "ttl-1h" FamilyTTL "client setting promptCacheTtl=1h" None CachePrices.TTLLong.

Lemma the_selected_candidate_earned_it_witness :
  exists c, Selected (selectFrom None Catalog corpus 6 5 0) = Some c /\ earned 5 corpus c.
Proof.
  exists longer_ttl.
  assert (Selected (selectFrom None Catalog corpus 6 5 0) = Some longer_ttl) as Hs by (vm_compute; reflexivity).
  split; [exact Hs |].
  refine (proj1 (proj2 (proj2 (the_selected_candidate_earned_it None Catalog corpus 6 5 0 _ _)) _ Hs)); vm_compute; done.
Defined.

(** Of two simpler candidates that tie with the best, the first of the catalog
    is taken, even where the second saves more than it in every session; the
    second is told that another candidate saves more. *)
Definition three_ways (id : string) (holdout : bool) (edit : float64) : SessionScore :=
  mkScore id "opus/large-prefix" holdout "" f0 f0 0 0 0 Replay.zero_tally
    (<["ttl-5m" := of_ratio 30 100]> (<["ttl-1h" := of_ratio 40 100]> {["context-edit(keep=6,trigger=100000)" := edit]})) ∅ ∅.

Definition noisy_edit : list SessionScore :=
  [three_ways "a" false (of_ratio 30 100); three_ways "b" false (of_ratio 90 100); three_ways "c" false (of_ratio 25 100);
   three_ways "d" false (of_ratio 80 100); three_ways "e" true (of_ratio 40 100)].

Lemma the_first_simpler_candidate_is_taken :
  let res := selectFrom None Catalog noisy_edit 5 5 0 in
  option_map cd_Name (Selected res) = Some "ttl-5m" /\
  List.map (fun v => (v_Name v, Decision_ v)) (take 2 (Verdicts res)) = [("ttl-5m", selected); ("ttl-1h", rejectBeaten)] /\
  Forall (fun s => fltb (absent_is_zero s "ttl-5m") (absent_is_zero s "ttl-1h") = true) noisy_edit.
Proof. split; [vm_compute; reflexivity | split; [vm_compute; reflexivity |]]. repeat constructor. Qed.

(** ** Trials *)

Definition session_cost (name : string) (cost errors : float64) (rereads : Z) : ArmCost := mkArmCost name cost errors rereads.

(** The outcome guard compares with the control arm and is off when that arm
    has none: five treated sessions in which every token went to errors. *)
Definition errors_from_none : list ArmCost :=
  repeat (session_cost "treated" (of_int 1) (of_int 1) 0) 5 ++ repeat (session_cost "control" (of_int 2) f0 0) 5.

Lemma errors_where_there_were_none_graduate : Graduated <$> Graduate "p" errors_from_none (of_ratio 5 10) 5 = Some true.
Proof. by vm_compute. Qed.

(** A control session is one the policy was not injected into, so nothing was
    cleared from it and it read nothing again. *)
Definition rereads_from_none : list ArmCost :=
  repeat (session_cost "treated" (of_int 1) f0 1000) 5 ++ repeat (session_cost "control" (of_int 2) f0 0) 5.

Lemma rereads_where_there_were_none_graduate : Graduated <$> Graduate "p" rereads_from_none (of_ratio 5 10) 5 = Some true.
Proof. by vm_compute. Qed.

End LearnSpec.
