(* ===== verification/Advisor.v ===== *)
(** Advice drawn from calibrated sessions ([src/internal/advisor/advisor.go]):
    what one session shows, the suggestions over all of them, and where a
    suggestion stands once the reader said it was applied.

    [sha256hex] is the standard library's digest in hexadecimal. *)

From S2P Require Import Prelude GoString GoFloat GoTime Transcript Tenancy CacheRules CachePrices CacheVerdict.
From S2P Require Import Calibrate Fit Replay Json Labels Blocks GoMath Blame Waste Gap Breaks Reports.
From Stdlib Require Import Ascii String.

Open Scope string_scope.
Open Scope list_scope.
Open Scope Z_scope.

Module Advisor.
Import CacheRules CachePrices Transcript Fit Calibrate Blocks Blame Waste Print Reports.

#[local] Abbreviation length := List.length.

(** ** Kinds and thresholds *)

Definition KindToolInputs : string := "tool-inputs".
Definition KindLargeResults : string := "large-results".
Definition KindHotFile : string := "hot-file".
Definition KindFirstTurn : string := "first-turn-content".
Definition KindUnusedTools : string := "unused-tools".
Definition KindCacheBreaks : string := "cache-breaks".

Definition MinShare : float64 := of_ratio 10 100.
Definition trimShare : float64 := of_ratio 5 10.
Definition minInjectedTokens : Z := 10000.
Definition minReads : Z := 3.
Definition recentSessions : nat := 2.
Definition appliedDrop : float64 := of_ratio 2 10.
(** [1-appliedDrop], exact before it is rounded. *)
Definition kept_after_drop : float64 := of_ratio 8 10.
Definition verifyShare : float64 := of_ratio 5 10.

Inductive Status := Pending | Applied | Verified | NotVerified | AdviceOnly | Dismissed.

#[export] Instance Status_eq_dec : EqDecision Status.
Proof. solve_decision. Defined.

Inductive Decision := DecisionApplied | DecisionDismissed.

(** ** One session *)

Record evidence := mkEvidence {
  ev_at : time;
  ev_share : float64;
  ev_tokens : Z;
  ev_estimated : bool;
  ev_priced : bool;
  errorMeasured : bool;
  ev_reads : Z;
  ev_usd : float64
}.

Definition no_evidence : evidence := mkEvidence zero_time f0 0 false false false 0 f0.

Record Observation := mkObservation {
  ob_at : time;
  ob_prompt : Z;
  ob_model : string;
  targets : gmap string evidence;
  titles : gmap string (string * string * string);
  overAttributed : bool
}.

Definition setAside (ob : Observation) : Observation :=
  mkObservation (ob_at ob) (ob_prompt ob) (ob_model ob) ∅ (titles ob) true.

Definition record_ (ob : Observation) (k : string) (ev : evidence) : Observation :=
  mkObservation (ob_at ob) (ob_prompt ob) (ob_model ob) (<[k := ev]> (targets ob)) (titles ob) (overAttributed ob).

Definition SetAside (obs : list Observation) : Z :=
  fold_left (fun n ob => if overAttributed ob then n +! 1 else n) obs 0.

Definition key (kind target : string) : string := (kind ++ NUL ++ target)%string.

Definition fileTarget (label : string) : string :=
  match Cut " " label with
  | Some (tool, p) => (tool ++ " " ++ path_Base p)%string
  | None => (label ++ " " ++ path_Base "")%string
  end.

Definition builtinTools : string := "built-in".

Definition serverOf (tool : string) : string :=
  match strip_prefix "mcp__" tool with
  | None => builtinTools
  | Some rest => let i := GoMath.Index rest "__" in if i <=? 0 then builtinTools else to_byte i rest
  end.

Section observe.
Context (ov : option CacheRules.Rules) (it : iteration).

Definition cacheTrafficUSD (kind : string) (tokens : Z) (model : string) (at_ : time) : float64 * bool :=
  if tokens <=? 0 then (f0, true)
  else
    let '(p, ok) := PriceForAt ov model at_ in
    if negb ok then (f0, false)
    else
      let mtok := (of_int tokens / of_int 1000000)%float in
      if String.eqb kind KindCacheBreaks then ((mtok * InputPerMTok p)%float, true)
      else ((mtok * InputPerMTok p * ReadMult p)%float, true).

Definition note (kind target : string) (tokens : Figure) (estimated : bool) (ob : Observation) : Observation :=
  let share := (of_int (Value tokens) / of_int (ob_prompt ob))%float in
  if fltb (of_int 1) share then setAside ob
  else if negb (String.eqb kind KindCacheBreaks) && negb (String.eqb kind KindFirstTurn) && fltb share MinShare then ob
  else if Value tokens <=? 0 then ob
  else
    let '(usd, priced) := cacheTrafficUSD kind (Value tokens) (ob_model ob) (ob_at ob) in
    record_ ob (key kind target)
      (mkEvidence (ob_at ob) share (Value tokens) estimated priced (fig_ErrorMeasured tokens) 0 usd).

Definition noteReads (name : string) (e : BlameEntry) (ob : Observation) : Observation :=
  let k := key KindHotFile name in
  let ev := default no_evidence (targets ob !! k) in
  let tokens := ev_tokens ev +! Value (be_PromptTokens e) in
  let share := (of_int tokens / of_int (ob_prompt ob))%float in
  if fltb (of_int 1) share then setAside ob
  else
    let '(usd, priced) := cacheTrafficUSD KindHotFile tokens (ob_model ob) (ob_at ob) in
    record_ ob k (mkEvidence (ob_at ob) share tokens true priced (errorMeasured ev) (ev_reads ev +! Occurrences e) usd).

Definition by_tool : Type := gmap string (Figure * bool).

Definition inaccurate (f : Figure) : bool := 0 <? Fit.Error f.

Definition add_result (byTool : by_tool) (tool : string) (f : Figure) : by_tool :=
  let '(g, estimated) := default (mkFigure 0 0 false, false) (byTool !! tool) in
  <[tool := (mkFigure (Value g +! Value f) (Fit.Error g +! Fit.Error f) (fig_ErrorMeasured g), estimated || inaccurate f)]> byTool.

Definition observe_entry (st : Observation * by_tool) (e : BlameEntry) : Observation * by_tool :=
  let '(ob, byTool) := st in
  match strip_prefix LabelToolCallPrefix (be_Label e) with
  | Some name => (note KindToolInputs name (be_PromptTokens e) (inaccurate (be_PromptTokens e)) ob, byTool)
  | None =>
      match strip_prefix LabelToolResultPrefix (be_Label e) with
      | Some name =>
          (if IsFileRead name then noteReads (fileTarget name) e ob else ob,
           add_result byTool (match Cut " " name with Some (tool, _) => tool | None => name end) (be_PromptTokens e))
      | None =>
          if String.eqb (be_Label e) InjectedLabel && (minInjectedTokens <=? Value (be_Tokens e))
          then (note KindFirstTurn "first turn" (be_PromptTokens e) true ob, byTool)
          else if String.eqb (be_Label e) RebillLabel
          then (note KindCacheBreaks "cache breaks" (be_PromptTokens e) false ob, byTool)
          else (ob, byTool)
      end
  end.

(** The tools a request's history shows a call of. *)
Definition called (rs : list Request) : gset string :=
  list_to_set (flat_map (fun r => flat_map (fun m =>
    List.map ToolName (List.filter (fun b => String.eqb (Kind b) KindToolUse) (Blocks m))) (Context r)) rs).

Definition bucket : Type := Z * list string.

Definition add_tool (used : gset string) (bs : gmap string bucket) (t : ToolDef) : gmap string bucket :=
  if bool_decide (td_Name t ∈ used) then bs
  else
    let g := serverOf (td_Name t) in
    let '(bytes, names) := default (0, []) (bs !! g) in
    <[g := (bytes +! td_Bytes t, names ++ [td_Name t])]> bs.

Definition title_tools (ob : Observation) (target : string) (names : list string) : Observation :=
  mkObservation (ob_at ob) (ob_prompt ob) (ob_model ob) (targets ob)
    (<[key KindUnusedTools target := (itoa (Z.of_nat (length names)), String.concat ", " names, target)]> (titles ob))
    (overAttributed ob).

Definition note_bucket (fit : TokenFit) (requests : Z) (ob : Observation) (kv : string * bucket) : Observation :=
  let '(target, (bytes, names)) := kv in
  if bytes =? 0 then ob
  else
    let est := EstimateOutsideFit fit bytes in
    let est := mkFigure (Value est *! requests) (Fit.Error est) (fig_ErrorMeasured est) in
    title_tools (note KindUnusedTools target est true ob) target (Strings names).

Definition unusedTools (rs : list Request) (fit : TokenFit) (ob : Observation) : Observation :=
  match rs with
  | [] => ob
  | first :: _ =>
      if bool_decide (Tools first = []) then ob
      else fold_left (note_bucket fit (Z.of_nat (length rs))) (go_range it (fold_left (add_tool (called rs)) (Tools first) ∅)) ob
  end.

Definition note_results (ob : Observation) (kv : string * (Figure * bool)) : Observation :=
  let '(tool, (f, estimated)) := kv in note KindLargeResults tool f estimated ob.

Definition observed (first : Request) (rs : list Request) (blame : list BlameEntry) (fit : TokenFit) : option Observation :=
  let prompt := fold_left (fun n r => n +! PromptTotal (req_Usage r)) rs 0 in
  if prompt =? 0 then None
  else
    let ob := mkObservation (Timestamp first) prompt (Model first) ∅ ∅ false in
    let '(ob, byTool) := fold_left observe_entry blame (ob, ∅) in
    Some (unusedTools rs fit (fold_left note_results (go_range it byTool) ob)).

(** [Some None] is a session that shows nothing; [None] a panic of the analysis. *)
Definition Observe (s : Session) : option (option Observation) :=
  match MainLane s with
  | None => Some None
  | Some lane =>
      match Requests lane with
      | [] => Some None
      | first :: _ =>
          rep ← AnalyzeLane it s lane;
          cal ← rep_Calibration rep;
          if negb (Passes cal) then Some None
          else Some (observed first (Requests lane) (rep_Blame rep) (rep_Fit rep))
      end
  end.

End observe.

(** ** Over all sessions *)

Record sample := mkSample { smp_share : float64; seen : bool }.

Record agg := mkAgg {
  ag_kind : string;
  ag_target : string;
  ag_evidence : list evidence;
  ag_titles : string * string * string;
  ag_estimated : bool;
  ag_tokens : Z;
  ag_reads : Z;
  writeReadUSD : float64;
  unpricedSessions : Z
}.

Definition new_agg (k : string) : agg :=
  let '(kind, target) := default (k, "") (Cut NUL k) in
  mkAgg kind target [] ("", "", "") false 0 0 f0 0.

Definition add_evidence (ob : Observation) (aggs : gmap string agg) (kv : string * evidence) : gmap string agg :=
  let '(k, ev) := kv in
  let a := default (new_agg k) (aggs !! k) in
  <[k := mkAgg (ag_kind a) (ag_target a) (ag_evidence a ++ [ev]) (default (ag_titles a) (titles ob !! k))
           (ag_estimated a || ev_estimated ev) (ag_tokens a +! ev_tokens ev) (ag_reads a +! ev_reads ev)
           (writeReadUSD a + ev_usd ev)%float (if ev_priced ev then unpricedSessions a else unpricedSessions a +! 1)]> aggs.

Definition add_observation (it : iteration) (aggs : gmap string agg) (ob : Observation) : gmap string agg :=
  if overAttributed ob then aggs else fold_left (add_evidence ob) (go_range it (targets ob)) aggs.

Definition aggregates (it : iteration) (obs : list Observation) : gmap string agg := fold_left (add_observation it) obs ∅.

Definition sample_of (k : string) (ob : Observation) : sample :=
  match targets ob !! k with
  | Some ev => mkSample (ev_share ev) true
  | None => mkSample f0 false
  end.

Definition shares_of (obs : list Observation) (k : string) : list sample :=
  List.map (sample_of k) (List.filter (fun ob => negb (overAttributed ob)) obs).

Definition meanSeen (xs : list sample) : float64 * Z :=
  let '(sum, n) := fold_left (fun st x => if seen x then ((st.1 + smp_share x)%float, st.2 +! 1) else st) xs (f0, 0) in
  if n =? 0 then (f0, 0) else ((sum / of_int n)%float, n).

Definition track (kind : string) (shares : list sample) (predicted : float64) (applied : bool) : Status * float64 :=
  if String.eqb kind KindHotFile || String.eqb kind KindCacheBreaks then (AdviceOnly, f0)
  else if negb applied then (Pending, f0)
  else if (length shares <=? recentSessions)%nat then (Pending, f0)
  else
    let '(before, nBefore) := meanSeen (take (length shares - recentSessions) shares) in
    let '(after, nAfter) := meanSeen (drop (length shares - recentSessions) shares) in
    if (nBefore =? 0) || (nAfter =? 0) then (Pending, f0)
    else if feqb before f0 || fltb (before * kept_after_drop)%float after then (Pending, f0)
    else
      let realized := (before - after)%float in
      if fleb (verifyShare * predicted)%float realized then (Verified, realized) else (NotVerified, realized).

Record Suggestion := mkSuggestion {
  sg_ID : string;
  sg_Kind : string;
  sg_Target : string;
  sg_Title : string;
  sg_Action : string;
  sg_Sessions : Z;
  sg_Share : float64;
  sg_PromptTokens : Z;
  PredictedShare : float64;
  PredictedTokens : Z;
  WriteReadUSD : float64;
  UnpricedSessions : Z;
  PredictedUSD : float64;
  sg_Estimated : bool;
  sg_Status : Status;
  RealizedShare : float64;
  FirstSeen : time;
  LastSeen : time
}.

Definition describe (a : agg) (share : float64) : string * string :=
  let pct := (FormatFloat 0 (share * of_int 100)%float ++ "%")%string in
  let '(count, names, _) := ag_titles a in
  if String.eqb (ag_kind a) KindToolInputs then
    ((ag_target a ++ " inputs are " ++ pct ++ " of prompt tokens")%string,
     "keep tool inputs short: run scripts from files instead of inline heredocs, and pass paths instead of contents")
  else if String.eqb (ag_kind a) KindLargeResults then
    ((ag_target a ++ " results are " ++ pct ++ " of prompt tokens")%string,
     "truncate outputs before they enter the conversation: head, tail, grep with limits, or a summarizing wrapper")
  else if String.eqb (ag_kind a) KindHotFile then
    ((ag_target a ++ " read " ++ itoa (ag_reads a) ++ " times across " ++ itoa (Z.of_nat (length (ag_evidence a))) ++
      " sessions, repeats are " ++ pct ++ " of prompt tokens")%string,
     "put a summary header at the top of the file and read only the lines needed; a stable summary caches, a full re-read does not")
  else if String.eqb (ag_kind a) KindFirstTurn then
    (("first-turn instructions and attachments are " ++ pct ++ " of prompt tokens")%string,
     "split instruction files: keep what every turn needs, move the rest to on-demand files or skills the agent loads when relevant")
  else if String.eqb (ag_kind a) KindUnusedTools then
    if negb (String.eqb (ag_target a) builtinTools) then
      ((count ++ " tool definitions from " ++ ag_target a ++ " never called are " ++ pct ++ " of prompt tokens (" ++ names ++ ")")%string,
       ("disable this server if the work does not need it: its " ++ count ++ " definitions are re-sent on every request, called or not")%string)
    else
      ((count ++ " built-in tool definitions never called are " ++ pct ++ " of prompt tokens (" ++ names ++ ")")%string,
       "defer-load tools the session does not use (Claude Code tool search) or trim their descriptions")
  else if String.eqb (ag_kind a) KindCacheBreaks then
    (("cache breaks re-billed " ++ pct ++ " of prompt tokens")%string,
     "run replay diff on the session to see the cause of each break; most are a changed prefix or an edited turn")
  else (ag_kind a, "").

Definition mean_share (a : agg) : float64 :=
  (fold_left (fun t ev => (t + ev_share ev)%float) (ag_evidence a) f0 / of_int (Z.of_nat (length (ag_evidence a))))%float.

(** The share, and what the suggestion predicts of it, of the tokens and of the dollars. *)
Definition predict (a : agg) : float64 * float64 * Z * float64 :=
  let share := mean_share a in
  if String.eqb (ag_kind a) KindHotFile then
    let repeats := (of_int (ag_reads a -! 1) / of_int (ag_reads a))%float in
    let share := (share * repeats)%float in
    (share, share, Z.quot (ag_tokens a *! (ag_reads a -! 1)) (ag_reads a),
     (writeReadUSD a * of_int (ag_reads a -! 1) / of_int (ag_reads a))%float)
  else if String.eqb (ag_kind a) KindCacheBreaks then (share, share, ag_tokens a, writeReadUSD a)
  else (share, (trimShare * share)%float, to_int (trimShare * of_int (ag_tokens a))%float, (trimShare * writeReadUSD a)%float).

Section suggest.
Context (it : iteration) (sha256hex : string -> string).

Definition id (kind target : string) : string := substring 0 12 (sha256hex (key kind target)).

Definition suggestion (applied : gmap string bool) (k : string) (a : agg) (shares : list sample) : Suggestion :=
  let sid := id (ag_kind a) (ag_target a) in
  let '(share, predictedShare, predictedTokens, predictedUSD) := predict a in
  let '(title, action) := describe a share in
  let '(status, realized) := track (ag_kind a) shares predictedShare (default false (applied !! sid)) in
  mkSuggestion sid (ag_kind a) (ag_target a) title action (Z.of_nat (length (ag_evidence a))) share (ag_tokens a)
    predictedShare predictedTokens (writeReadUSD a) (unpricedSessions a) predictedUSD (ag_estimated a) status realized
    (default zero_time (ev_at <$> head (ag_evidence a))) (default zero_time (ev_at <$> last (ag_evidence a))).

Definition suggested (a : agg) : bool := negb (String.eqb (ag_kind a) KindHotFile && (ag_reads a <? minReads)).

Definition earlier (a b : Observation) : bool := Before (ob_at a) (ob_at b).

Definition worth_more (a b : Suggestion) : bool :=
  if negb (feqb (PredictedUSD a) (PredictedUSD b)) then fltb (PredictedUSD b) (PredictedUSD a)
  else PredictedTokens b <? PredictedTokens a.

Definition Suggest (obs : list Observation) (applied : gmap string bool) : list Suggestion :=
  let obs := SliceStable earlier obs in
  let aggs := aggregates it obs in
  let order := Strings (List.map fst (map_to_list aggs)) in
  SliceStable worth_more
    (omap (fun k => a ← aggs !! k; if suggested a then Some (suggestion applied k a (shares_of obs k)) else None) order).

End suggest.

(** ** What the reader said *)

Definition with_status (s : Suggestion) (st : Status) : Suggestion :=
  mkSuggestion (sg_ID s) (sg_Kind s) (sg_Target s) (sg_Title s) (sg_Action s) (sg_Sessions s) (sg_Share s) (sg_PromptTokens s)
    (PredictedShare s) (PredictedTokens s) (WriteReadUSD s) (UnpricedSessions s) (PredictedUSD s) (sg_Estimated s) st
    (RealizedShare s) (FirstSeen s) (LastSeen s).

Definition apply_decision (decisions : gmap string Decision) (s : Suggestion) : Suggestion :=
  if negb (bool_decide (sg_Status s = Pending)) then s
  else match decisions !! sg_ID s with
       | Some DecisionApplied => with_status s Applied
       | Some DecisionDismissed => with_status s Dismissed
       | None => s
       end.

Definition ApplyDecisions (sgs : list Suggestion) (decisions : gmap string Decision) : list Suggestion :=
  List.map (apply_decision decisions) sgs.

End Advisor.

(** What advice promises: a session shows no more of a target than it was
    billed, every target is counted once whatever the order the maps are walked
    in, and a status has its ground in a measurement or in what the reader said. *)

Module AdvisorSpec.
Import Transcript Fit Blocks Blame Waste Advisor.

#[local] Abbreviation length := List.length.

(** ** One session *)

(** Of a session that was not set aside. *)
Record within (ob : Observation) (k : string) (ev : evidence) : Prop := {
  wi_share : ev_share ev = (of_int (ev_tokens ev) / of_int (ob_prompt ob))%float;
  wi_bill : fltb (of_int 1) (ev_share ev) = false;
  wi_at : ev_at ev = ob_at ob;
  wi_unpriced : ev_priced ev = false -> ev_usd ev = f0
}.

Definition sound (first : Request) (prompt : Z) (ob : Observation) : Prop :=
  ob_at ob = Timestamp first /\ ob_prompt ob = prompt /\ ob_model ob = Model first /\
  (overAttributed ob = false -> forall k ev, targets ob !! k = Some ev -> within ob k ev).

Lemma unpriced_is_free ov kind tokens model at_ :
  (cacheTrafficUSD ov kind tokens model at_).2 = false -> (cacheTrafficUSD ov kind tokens model at_).1 = f0.
Proof.
  unfold cacheTrafficUSD. destruct (tokens <=? 0); [done |]. destruct (CachePrices.PriceForAt ov model at_) as [p []]; [| done].
  by destruct (String.eqb kind KindCacheBreaks).
Qed.

Lemma setAside_sound first prompt ob : sound first prompt ob -> sound first prompt (setAside ob).
Proof. by intros (H1 & H2 & H3 & _). Qed.

Lemma record_sound first prompt ob k ev :
  sound first prompt ob -> within ob k ev -> sound first prompt (record_ ob k ev).
Proof.
  intros (H1 & H2 & H3 & H4) Hw. repeat split; try done; cbn in *;
    (destruct (decide (k0 = k)) as [->|Hne]; [rewrite lookup_insert_eq in H0; injection H0 as <- | rewrite lookup_insert_ne in H0 by done]);
    by (apply Hw || apply H4 with k0).
Qed.

Lemma titles_sound first prompt ob target names : sound first prompt ob -> sound first prompt (title_tools ob target names).
Proof.
  intros (H1 & H2 & H3 & H4). split; [done |]. split; [done |]. split; [done |].
  intros Ho k ev Hk. by destruct (H4 Ho k ev Hk).
Qed.

Lemma note_sound ov first prompt kind target f estimated ob :
  sound first prompt ob -> sound first prompt (note ov kind target f estimated ob).
Proof.
  intros H. unfold note. destruct (fltb (of_int 1) _) eqn:Es; [by apply setAside_sound |].
  destruct (_ && _); [done |]. destruct (Value f <=? 0); [done |].
  pose proof (unpriced_is_free ov kind (Value f) (ob_model ob) (ob_at ob)) as Hu.
  destruct (cacheTrafficUSD ov kind (Value f) (ob_model ob) (ob_at ob)) as [usd priced]. by apply record_sound.
Qed.

Lemma noteReads_sound ov first prompt name e ob :
  sound first prompt ob -> sound first prompt (noteReads ov name e ob).
Proof.
  intros H. unfold noteReads. destruct (fltb (of_int 1) _) eqn:Es; [by apply setAside_sound |].
  match goal with |- context [cacheTrafficUSD ?a ?b ?c ?d ?e] =>
    pose proof (unpriced_is_free a b c d e) as Hu; destruct (cacheTrafficUSD a b c d e) as [usd priced] end.
  by apply record_sound.
Qed.

Lemma observe_entry_sound ov first prompt e ob byTool :
  sound first prompt ob -> sound first prompt (observe_entry ov (ob, byTool) e).1.
Proof.
  intros H. unfold observe_entry. destruct (strip_prefix LabelToolCallPrefix _); [by apply note_sound |].
  destruct (strip_prefix LabelToolResultPrefix _) as [name|].
  - cbn [fst]. destruct (Waste.IsFileRead name); [by apply noteReads_sound | done].
  - destruct (_ && _); [by apply note_sound |]. destruct (String.eqb _ RebillLabel); [by apply note_sound | done].
Qed.

(** What a session shows of a target is never more than it was billed: each
    target carries its tokens' share of the session's prompt tokens, at most all
    of them, priced at the session's model and time or at nothing and said to be
    unpriced, or the whole session is set aside and shows nothing. *)
Lemma a_session_shows_no_more_than_its_bill ov it first rs blame fit ob :
  observed ov it first rs blame fit = Some ob ->
  ob_prompt ob = fold_left (fun n r => n +! PromptTotal (req_Usage r)) rs 0 /\ ob_prompt ob <> 0 /\
  (overAttributed ob = false -> forall k ev, targets ob !! k = Some ev -> within ob k ev) /\
  (forall aggs, overAttributed ob = true -> add_observation it aggs ob = aggs).
Proof.
  unfold observed. set (prompt := fold_left _ rs 0). destruct (Z.eqb_spec prompt 0) as [|Hp]; [done |].
  set (ob0 := mkObservation _ _ _ _ _ _). intros H.
  assert (sound first prompt ob) as Hs.
  { assert (sound first prompt (fold_left (observe_entry ov) blame (ob0, ∅)).1) as H1.
    { apply (fold_left_preserves (fun st => sound first prompt st.1)); [intros [o b] e; apply observe_entry_sound |].
      repeat split; try done; by intros k ev; rewrite lookup_empty. }
    destruct (fold_left (observe_entry ov) blame (ob0, ∅)) as [ob1 byTool]. injection H as <-. cbn [fst] in H1.
    assert (sound first prompt (fold_left (note_results ov) (go_range it byTool) ob1)) as H2.
    { apply (fold_left_preserves (sound first prompt)); [| exact H1]. intros o [tool [f e]] Ho. by apply note_sound. }
    unfold unusedTools. destruct rs as [|r rs']; [done |]. case_bool_decide; [done |].
    apply (fold_left_preserves (sound first prompt)); [| done]. intros o [target [bytes names]] Ho. unfold note_bucket.
    destruct (bytes =? 0); [done |]. apply titles_sound. by apply note_sound. }
  destruct Hs as (H1 & H2 & H3 & H4). rewrite H2. split; [done |]. split; [done |]. split; [exact H4 |]. intros aggs Ho. unfold add_observation. by rewrite Ho.
Qed.

(** ** Over all sessions *)

Definition usable (obs : list Observation) : list Observation := List.filter (fun ob => negb (overAttributed ob)) obs.

(** What the sessions show of one target, in the order they began. *)
Definition evidence_for (obs : list Observation) (k : string) : list evidence := omap (fun ob => targets ob !! k) (usable obs).

Definition titled (t : string * string * string) (k : string) (ob : Observation) : string * string * string :=
  match targets ob !! k with Some _ => default t (titles ob !! k) | None => t end.

Definition gathered (obs : list Observation) (k : string) : option agg :=
  match evidence_for obs k with
  | [] => None
  | evs =>
      let '(kind, target) := default (k, "") (Cut NUL k) in
      Some (mkAgg kind target evs (fold_left (fun t ob => titled t k ob) (usable obs) ("", "", ""))
        (existsb ev_estimated evs) (fold_left (fun n ev => n +! ev_tokens ev) evs 0) (fold_left (fun n ev => n +! ev_reads ev) evs 0)
        (fold_left (fun t ev => (t + ev_usd ev)%float) evs f0)
        (fold_left (fun n ev => if ev_priced ev then n else n +! 1) evs 0))
  end.

Lemma usable_snoc obs ob : usable (obs ++ [ob]) = usable obs ++ (if overAttributed ob then [] else [ob]).
Proof. unfold usable. rewrite List.filter_app. cbn. by destruct (overAttributed ob). Qed.

Lemma evidence_snoc obs ob k :
  evidence_for (obs ++ [ob]) k =
  evidence_for obs k ++ (if overAttributed ob then [] else match targets ob !! k with Some ev => [ev] | None => [] end).
Proof.
  unfold evidence_for. rewrite usable_snoc, omap_app. destruct (overAttributed ob); [done |]. cbn.
  by destruct (targets ob !! k).
Qed.

Lemma untitled obs k : evidence_for obs k = [] -> fold_left (fun t ob => titled t k ob) (usable obs) ("", "", "") = ("", "", "").
Proof.
  unfold evidence_for. generalize (usable obs) as l. induction l as [|ob l IH]; [done |]. cbn. unfold titled at 2.
  destruct (targets ob !! k); [done | apply IH].
Qed.

Lemma gathered_snoc obs ob k :
  gathered (obs ++ [ob]) k =
  if overAttributed ob then gathered obs k
  else match targets ob !! k with
       | None => gathered obs k
       | Some ev =>
           let a := default (new_agg k) (gathered obs k) in
           Some (mkAgg (ag_kind a) (ag_target a) (ag_evidence a ++ [ev]) (default (ag_titles a) (titles ob !! k))
             (ag_estimated a || ev_estimated ev) (ag_tokens a +! ev_tokens ev) (ag_reads a +! ev_reads ev)
             (writeReadUSD a + ev_usd ev)%float (if ev_priced ev then unpricedSessions a else unpricedSessions a +! 1))
       end.
Proof.
  unfold gathered. rewrite evidence_snoc, usable_snoc. destruct (overAttributed ob); [by rewrite !app_nil_r |].
  rewrite fold_left_app. cbn [fold_left]. unfold titled at 1.
  destruct (targets ob !! k) as [ev|]; [| by rewrite app_nil_r].
  pose proof (untitled obs k) as Ht. unfold new_agg.
  destruct (evidence_for obs k) as [|ev0 evs]; destruct (default (k, "") (Cut NUL k)) as [kind target].
  - rewrite (Ht eq_refl). cbn. by rewrite orb_false_r.
  - cbn [app default ag_kind ag_target ag_evidence ag_titles ag_estimated ag_tokens ag_reads writeReadUSD unpricedSessions].
    change (ev0 :: evs ++ [ev]) with ((ev0 :: evs) ++ [ev]).
    rewrite !fold_left_app, existsb_app. cbn [fold_left existsb]. by rewrite orb_false_r.
Qed.

(** A loop over a map touches each of its keys once. *)
Lemma touched_once ob kvs aggs k :
  NoDup (List.map fst kvs) ->
  fold_left (add_evidence ob) kvs aggs !! k =
  match (list_to_map kvs : gmap string evidence) !! k with Some ev => add_evidence ob aggs (k, ev) !! k | None => aggs !! k end.
Proof.
  revert aggs. induction kvs as [|[k0 ev0] kvs IH]; intros aggs Hn; [by cbn; rewrite ?lookup_empty |].
  cbn [List.map] in Hn. apply NoDup_cons in Hn as [Hk0 Hn]. cbn [fold_left list_to_map foldr]. rewrite IH by done.
  destruct (decide (k = k0)) as [->|Hne].
  - assert ((list_to_map kvs : gmap string evidence) !! k0 = None) as -> by by apply not_elem_of_list_to_map_1.
    by rewrite lookup_insert_eq.
  - rewrite lookup_insert_ne by done.
    assert (forall a, add_evidence ob a (k0, ev0) !! k = a !! k) as Ha by (intros a; cbn; by rewrite lookup_insert_ne).
    destruct ((list_to_map kvs : gmap string evidence) !! k) as [ev|]; [| apply Ha].
    unfold add_evidence. rewrite !lookup_insert_eq. by rewrite lookup_insert_ne.
Qed.

Lemma range_to_map (it : iteration) (m : gmap string evidence) : list_to_map (go_range it m) = m.
Proof.
  rewrite (list_to_map_proper _ (map_to_list m)); [apply list_to_map_to_list | | apply go_range_perm].
  rewrite go_range_perm. apply NoDup_fst_map_to_list.
Qed.

Lemma aggregates_gathered (it : iteration) obs k : aggregates it obs !! k = gathered obs k.
Proof.
  induction obs as [|ob obs IH] using rev_ind; [done |].
  unfold aggregates in *. rewrite fold_left_app, gathered_snoc. cbn [fold_left].
  set (before := fold_left (add_observation it) obs ∅) in *. unfold add_observation.
  destruct (overAttributed ob); [done |]. rewrite touched_once, range_to_map.
  - destruct (targets ob !! k) as [ev|]; [| done]. unfold add_evidence. rewrite lookup_insert_eq.
    by rewrite IH.
  - assert (List.map fst (go_range it (targets ob)) ≡ₚ (map_to_list (targets ob)).*1) as ->
      by (apply Permutation_map, go_range_perm).
    apply NoDup_fst_map_to_list.
Qed.

Definition in_time (obs : list Observation) : list Observation := SliceStable earlier obs.

Lemma map_one_key (it it' : iteration) obs : aggregates it obs = aggregates it' obs.
Proof. apply map_eq. intros k. by rewrite !aggregates_gathered. Qed.

(** What is suggested of the target [k]. *)
Definition suggested_for (sha256hex : string -> string) (applied : gmap string bool) (obs : list Observation) (k : string) : option Suggestion :=
  a ← gathered obs k; if suggested a then Some (suggestion sha256hex applied k a (shares_of obs k)) else None.

Lemma Suggest_of it sha256hex obs applied :
  Suggest it sha256hex obs applied =
  SliceStable worth_more (omap (suggested_for sha256hex applied (in_time obs))
    (Strings (List.map fst (map_to_list (aggregates it (in_time obs)))))).
Proof.
  unfold Suggest. f_equal. fold (in_time obs). apply list_omap_ext. apply Forall2_same_length_lookup_2; [done |].
  intros i k k' Hk Hk'. rewrite Hk in Hk'. injection Hk' as <-. unfold suggested_for. by rewrite aggregates_gathered.
Qed.

(** Every target is suggested once, from all its evidence and no other's:
    the sessions set aside apart, each session's evidence in the order the
    sessions began, its tokens, reads and dollars added up, whatever the order
    the maps are walked in; and a file is hot only from the third read on. *)
Lemma every_target_is_suggested_once (it it' : iteration) sha256hex obs applied :
  Suggest it sha256hex obs applied = Suggest it' sha256hex obs applied /\
  exists ks, NoDup ks /\ (forall k, k ∈ ks <-> evidence_for (in_time obs) k <> []) /\
    Suggest it sha256hex obs applied ≡ₚ omap (suggested_for sha256hex applied (in_time obs)) ks.
Proof.
  split; [by rewrite !Suggest_of, (map_one_key it it') |].
  exists (List.map fst (map_to_list (aggregates it (in_time obs)))). split; [apply NoDup_fst_map_to_list |]. split.
  - intros k. assert (k ∈ List.map fst (map_to_list (aggregates it (in_time obs))) <-> is_Some (aggregates it (in_time obs) !! k)) as ->.
    { change (List.map fst (map_to_list (aggregates it (in_time obs)))) with ((map_to_list (aggregates it (in_time obs))).*1).
      rewrite list_elem_of_fmap. split.
      - intros ([k' a] & -> & Ha). exists a. by apply elem_of_map_to_list.
      - intros [a Ha]. exists (k, a). split; [done |]. by apply elem_of_map_to_list. }
    rewrite aggregates_gathered. unfold gathered.
    destruct (evidence_for (in_time obs) k); [by split; [intros [] |] |]. destruct (default _ _). by split; [| eexists].
  - rewrite Suggest_of, SliceStable_perm. apply omap_Permutation. apply SliceStable_perm.
Qed.

(** ** Where a suggestion stands *)

Definition measured_in (xs : list sample) : Prop := exists x, x ∈ xs /\ seen x = true.

Lemma counted_was_seen xs : (meanSeen xs).2 <> 0 -> measured_in xs.
Proof.
  unfold meanSeen.
  assert (forall st, (fold_left (fun st x => if seen x then ((st.1 + smp_share x)%float, st.2 +! 1) else st) xs st).2 <> st.2 -> measured_in xs) as H.
  { induction xs as [|x xs IH]; intros st Hn; [done |]. cbn [fold_left] in Hn. destruct (seen x) eqn:Ex.
    - exists x. split; [by apply list_elem_of_here | done].
    - destruct (IH st Hn) as (y & Hy & Hs). exists y. split; [by apply list_elem_of_further | done]. }
  specialize (H (f0, 0)). destruct (fold_left _ xs (f0, 0)) as [sum n]. cbn [snd] in H.
  destruct (Z.eqb_spec n 0) as [->|Hn]; [done |]. intros _. by apply H.
Qed.

Definition only_advice (kind : string) : Prop := kind = KindHotFile \/ kind = KindCacheBreaks.

Definition grounded (kind : string) (shares : list sample) (applied : bool) (st : Status) (realized : float64) : Prop :=
  match st with
  | Verified | NotVerified =>
      ~ only_advice kind /\ applied = true /\
      measured_in (take (length shares - 2) shares) /\ measured_in (drop (length shares - 2) shares)
  | AdviceOnly => only_advice kind /\ realized = f0
  | Pending => ~ only_advice kind /\ realized = f0
  | Applied | Dismissed => False
  end.

Lemma track_grounded kind shares predicted applied :
  grounded kind shares applied (track kind shares predicted applied).1 (track kind shares predicted applied).2.
Proof.
  unfold track.
  assert (String.eqb kind KindHotFile || String.eqb kind KindCacheBreaks = true <-> only_advice kind) as Hk.
  { rewrite orb_true_iff, !String.eqb_eq. done. }
  destruct (String.eqb kind KindHotFile || String.eqb kind KindCacheBreaks); [split; [by apply Hk | done] |].
  assert (~ only_advice kind) as Hno by (intros H; by apply Hk in H).
  destruct applied; [| done]. cbn [negb]. destruct (length shares <=? recentSessions)%nat; [done |].
  pose proof (counted_was_seen (take (length shares - recentSessions) shares)) as Hb.
  pose proof (counted_was_seen (drop (length shares - recentSessions) shares)) as Ha.
  destruct (meanSeen (take _ shares)) as [before nBefore]. destruct (meanSeen (drop _ shares)) as [after nAfter].
  cbn [snd] in Ha, Hb. destruct (Z.eqb_spec nBefore 0) as [|Hnb]; [done |]. destruct (Z.eqb_spec nAfter 0) as [|Hna]; [done |].
  cbn [orb]. destruct (_ || _); [done |].
  destruct (fleb _ _); (split; [done |]; split; [done |]; split; [by apply Hb | by apply Ha]).
Qed.

Lemma suggestion_grounded sha256hex applied k a shares :
  grounded (sg_Kind (suggestion sha256hex applied k a shares)) shares
    (default false (applied !! sg_ID (suggestion sha256hex applied k a shares)))
    (sg_Status (suggestion sha256hex applied k a shares)) (RealizedShare (suggestion sha256hex applied k a shares)).
Proof.
  unfold suggestion. destruct (predict a) as [[[share predicted] tokens] usd]. destruct (describe a share) as [title action].
  pose proof (track_grounded (ag_kind a) shares predicted (default false (applied !! id sha256hex (ag_kind a) (ag_target a)))) as H.
  by destruct (track _ _ _ _) as [status realized].
Qed.

(** A status has its ground. A saving is called verified or not verified
    only where the reader said the suggestion was applied and the target was
    measured both before and in the last two usable sessions; advice that cannot
    be measured is called that; and the reader's own word stands only where no
    measurement does, and changes nothing but the status. *)
Lemma a_status_has_its_ground it sha256hex obs applied decisions i s :
  ApplyDecisions (Suggest it sha256hex obs applied) decisions !! i = Some s ->
  exists s0 k, Suggest it sha256hex obs applied !! i = Some s0 /\ s = with_status s0 (sg_Status s) /\
    grounded (sg_Kind s0) (shares_of (in_time obs) k) (default false (applied !! sg_ID s0)) (sg_Status s0) (RealizedShare s0) /\
    match sg_Status s with
    | Applied => sg_Status s0 = Pending /\ decisions !! sg_ID s = Some DecisionApplied
    | Dismissed => sg_Status s0 = Pending /\ decisions !! sg_ID s = Some DecisionDismissed
    | st => sg_Status s0 = st
    end.
Proof.
  unfold ApplyDecisions. intros Hs. change (List.map ?f ?l !! i) with ((f <$> l) !! i) in Hs.
  apply list_lookup_fmap_Some in Hs as (s0 & -> & Hs0). exists s0.
  assert (exists k a, s0 = suggestion sha256hex applied k a (shares_of (in_time obs) k)) as (k & a & Hka).
  { apply list_elem_of_lookup_2 in Hs0. rewrite Suggest_of, SliceStable_perm in Hs0.
    apply list_elem_of_omap in Hs0 as (k & _ & Hk). unfold suggested_for in Hk.
    destruct (gathered (in_time obs) k) as [a|]; [| done]. cbn in Hk. destruct (suggested a); [| done].
    injection Hk as <-. by exists k, a. }
  exists k. split; [done |].
  assert (grounded (sg_Kind s0) (shares_of (in_time obs) k) (default false (applied !! sg_ID s0)) (sg_Status s0) (RealizedShare s0)) as Hg
    by (subst s0; apply suggestion_grounded).
  unfold apply_decision. destruct (bool_decide_reflect (sg_Status s0 = Pending)) as [Ep|Ep]; cbn [negb].
  - destruct (decisions !! sg_ID s0) as [[]|] eqn:Ed; (split; [by destruct s0 | split; [done |]]); cbn; rewrite ?Ed, ?Ep; done.
  - split; [by destruct s0 |]. split; [done |]. destruct (sg_Status s0); done.
Qed.

(** ** Concrete sessions *)

Definition calls (name : string) : Block := mkBlock KindToolUse (LabelToolCallPrefix ++ name) 10 "" "t1" name "k" false None.

Definition turn_at (at_ : time) (output : option Message) : Request :=
  mkRequest "r" true false "" "claude-opus-5" "" "" at_ (mkUsage 1000 0 9000 200 0 0 0 true) [] output 0 0
    [mkToolDef "Bash" 8000; mkToolDef "mcp__files__read" 12000].

Definition quarter_fit : TokenFit := mkFit (of_ratio 25 100) f0 10 (measured 0) (measured 0).

(** One session of ten thousand prompt tokens, so many of them Bash's inputs. *)
Definition session_of (at_ : time) (tokens : Z) : Observation :=
  default (mkObservation 0 0 "" ∅ ∅ false)
    (observed None key_order (turn_at at_ None) [turn_at at_ None]
       [mkBlame (LabelToolCallPrefix ++ "Bash")%string (mkFigure tokens 0 true) 1 (mkFigure tokens 0 true) 0] quarter_fit).

Lemma a_session_shows_no_more_than_its_bill_witness :
  overAttributed (session_of (1 * second) 1200) = false /\ ob_prompt (session_of (1 * second) 1200) = 10000.
Proof.
  destruct (a_session_shows_no_more_than_its_bill None key_order (turn_at (1 * second) None) [turn_at (1 * second) None]
    [mkBlame (LabelToolCallPrefix ++ "Bash")%string (mkFigure 1200 0 true) 1 (mkFigure 1200 0 true) 0] quarter_fit
    (session_of (1 * second) 1200)) as [Hp _]; [vm_compute; reflexivity |].
  split; [vm_compute; reflexivity |]. rewrite Hp. vm_compute. reflexivity.
Defined.

Definition unhashed (s : string) : string := s.

Definition bash_inputs : string := id unhashed KindToolInputs "Bash".

Definition halved : list Observation :=
  [session_of (1 * second) 4000; session_of (2 * second) 4000; session_of (3 * second) 1900; session_of (4 * second) 1800].

Definition reader_applied : gmap string bool := {[bash_inputs := true]}.
Definition no_decisions : gmap string Decision := ∅.
Definition after_halving : list Suggestion := ApplyDecisions (Suggest key_order unhashed halved reader_applied) no_decisions.

Lemma a_status_has_its_ground_witness :
  exists s s0, after_halving !! 1%nat = Some s /\ sg_Status s = Verified /\
    Suggest key_order unhashed halved reader_applied !! 1%nat = Some s0 /\ s = with_status s0 Verified.
Proof.
  assert (sg_Status <$> after_halving !! 1%nat = Some Verified) as Hv by (vm_compute; reflexivity).
  destruct (after_halving !! 1%nat) as [s|] eqn:Es; [| discriminate Hv]. injection Hv as Hv.
  destruct (a_status_has_its_ground key_order unhashed halved reader_applied no_decisions 1%nat s Es) as (s0 & k & H1 & H2 & _).
  rewrite Hv in H2. exact (ex_intro _ s (ex_intro _ s0 (conj eq_refl (conj Hv (conj H1 H2))))).
Defined.

(** A saving that brings the target under [MinShare] leaves no reading, so the
    suggestion that worked best stays pending. *)
Definition almost_gone : list Observation :=
  [session_of (1 * second) 4000; session_of (2 * second) 4000; session_of (3 * second) 900; session_of (4 * second) 500].

Lemma the_best_saving_is_never_verified :
  List.map (fun s => (sg_Target s, sg_Status s)) (Suggest key_order unhashed almost_gone reader_applied) =
  [("files", Pending); ("Bash", Pending); ("built-in", Pending)].
Proof. vm_compute. reflexivity. Qed.

(** A tool first called in the last answer is in no context, so its definition
    is reported as never called. *)
Definition answered_with_bash : Request := turn_at (1 * second) (Some (mkMessage "m" "assistant" (1 * second) [calls "Bash"])).

Lemma a_tool_called_last_is_never_called :
  (ob ← observed None key_order answered_with_bash [answered_with_bash] [] quarter_fit;
   titles ob !! key KindUnusedTools builtinTools) = Some ("1", "Bash", builtinTools).
Proof. vm_compute. reflexivity. Qed.

End AdvisorSpec.
