(* ===== verification/Probe.v ===== *)
(** The paid search for a model's minimum cacheable prefix
    ([src/internal/probe]): which size to ask for next, what an answer does to
    the bracket, and the run that sends the requests
    ([probe.go], [run.go]); what the readings of several runs say
    ([reading.go], [trend.go]) and the checks on one response
    ([openai.go], [vary.go]).

    Sending a request is an oracle of the model: what comes back for the
    [i]-th request of a given size, or an error. *)

From S2P Require Import Prelude GoString GoFloat GoTime GoMath Json JsonValue.
From Stdlib Require Import Ascii String.

Open Scope string_scope.
Open Scope list_scope.
Open Scope Z_scope.

Module Probe.
Import Json JsonValue RawJson.

#[local] Abbreviation length := List.length.

(** ** The search *)

Record Config := mkConfig {
  Min : Z; Max : Z;
  Resolution : Z;
  RelativeResolution : float64;
  MaxProbes : Z;
  Candidates : list Z;
  Prior : Z;
  Confirm : Z
}.

Record Result := mkResult { PrefixTokens : Z; Wrote : bool; Read : bool; CachedTokens : Z }.

Record Anomaly := mkAnomaly { an_Kind : string; an_Size : Z; an_Wrote : Z; DidNotWrite : Z }.

Record Search := mkSearch {
  cfg : Config;
  priorDone : bool;
  priorBelow : bool;
  lo : Z; hi : Z;
  probes : Z;
  pending : Z;
  stoppedEarly : bool;
  contradicted : bool;
  answers : gmap Z (list bool);
  writes : list Z;
  nonDeterministic : bool;
  stalled : bool;
  cachedAt : gset Z;
  anomalies : list Anomaly;
  inconclusive : Z
}.

Definition New (c : Config) : Search :=
  let c := mkConfig (Min c) (Max c)
             (if (Resolution c <? 1) && fleb (RelativeResolution c) f0 then 1 else Resolution c)
             (RelativeResolution c) (MaxProbes c) (Candidates c) (Prior c)
             (if Confirm c <? 1 then 1 else Confirm c) in
  mkSearch c false false (Min c) (Max c) 0 0 false false ∅ [] false false ∅ [] 0.

Definition with_pending (s : Search) (n : Z) : Search :=
  let 'mkSearch c d b l h p _ e x a w nd st ca an i := s in mkSearch c d b l h p n e x a w nd st ca an i.

Definition stop_early (s : Search) : Search :=
  let 'mkSearch c d b l h p n _ x a w nd st ca an i := s in mkSearch c d b l h p n true x a w nd st ca an i.

Definition usableRange (s : Search) : bool := (0 <=? Min (cfg s)) && (Min (cfg s) <? Max (cfg s)).

Definition answers_at (s : Search) (n : Z) : list bool := default [] (answers s !! n).

Definition confirmed (s : Search) (n : Z) : bool := Confirm (cfg s) <=? Z.of_nat (length (answers_at s n)).

(** [gcd]; the sizes are positive, and a remainder is smaller than what it
    divides. *)
Fixpoint gcd_loop (fuel : nat) (a b : Z) : Z :=
  match fuel with
  | O => a
  | S fuel => if b =? 0 then a else gcd_loop fuel b (Z.rem a b)
  end.

Definition gcd (a b : Z) : Z := gcd_loop (S (Z.abs_nat b)) a b.

Definition Granularity (s : Search) : Z :=
  if (size (list_to_set (writes s) : gset Z) <? 3)%nat then 0
  else match writes s with
       | [] => 0
       | w :: ws => fold_left gcd ws w
       end.

Definition stopWidth (s : Search) : Z :=
  let w := if fltb f0 (RelativeResolution (cfg s))
           then to_int (fmul (of_int (hi s)) (RelativeResolution (cfg s))) else Resolution (cfg s) in
  let g := Granularity s in
  let w := if w <? g then g else w in
  if w <? 1 then 1 else w.

Definition midpoint (s : Search) : Z := lo s +! Z.quot (hi s -! lo s) 2.

Definition abs2 (n : Z) : Z := if n <? 0 then 0 -! n else n.

Definition nextCandidate (s : Search) : Z :=
  fst (fold_left (fun '(best, bestGap) c =>
         if (c <=? lo s) || (hi s <=? c) then (best, bestGap)
         else let gap := abs2 (c -! midpoint s) in
              if gap <? bestGap then (c, gap) else (best, bestGap))
       (Candidates (cfg s)) (0, Z.shiftl 1 30)).

Definition smallestCachingCandidate (s : Search) : Z :=
  fold_left (fun best c =>
      if (0 <? c) && bool_decide (c ∈ cachedAt s) && ((best =? 0) || (c <? best)) then c else best)
    (Candidates (cfg s) ++ [Prior (cfg s)]) 0.

Definition inside (s : Search) (n : Z) : bool := (lo s <? n) && (n <? hi s).

(** The documented size, before it has an answer. *)
Definition prior_size (s : Search) : option Z :=
  let p := Prior (cfg s) in
  if negb (priorDone s) && (0 <? p) && inside s p && negb (confirmed s p) then Some p else None.

(** Just below the smallest known size that caches, when no other is left in
    the bracket. *)
Definition fence_size (s : Search) : option Z :=
  let c := smallestCachingCandidate s in
  let below := c -! stopWidth s in
  if (0 <? c) && (nextCandidate s =? 0) && inside s below && negb (confirmed s below) then Some below else None.

(** Just below the documented size, once that has an answer. *)
Definition below_prior_size (s : Search) : option Z :=
  let below := Prior (cfg s) -! stopWidth s in
  if negb (priorBelow s) && priorDone s && (0 <? Prior (cfg s)) && inside s below then Some below else None.

Definition candidate_size (s : Search) : option Z :=
  let c := nextCandidate s in
  if (0 <? c) && negb (confirmed s c) then Some c else None.

Definition ditherOffsets : list Z := [3; -5; 7; -3; 11; -7; 5; -11].

(** The midpoint off the round numbers; [None] where the index is negative,
    and the program panics. *)
Definition dithered (s : Search) : option Z :=
  let mid := midpoint s in
  if 8 <? hi s -! lo s then
    let i := Z.rem (lo s +! hi s) 8 in
    if i <? 0 then None
    else d ← ditherOffsets !! Z.to_nat i; Some (if inside s (mid +! d) then mid +! d else mid)
  else Some mid.

(** Away from sizes already confirmed, 64 steps at most. *)
Fixpoint nudge (i : nat) (s : Search) (mid : Z) : option Z :=
  match i with
  | O => Some mid
  | S i =>
      if confirmed s mid then
        if mid +! 1 <? hi s then nudge i s (mid +! 1)
        else if lo s <? mid -! 1 then nudge i s (mid -! 1)
        else None
      else Some mid
  end.

Inductive next := Ask (n : Z) | Stop | Panics.

(** The sizes [Next] looks at before it bisects, in its order. *)
Definition hypothesis (s : Search) : option Z :=
  match prior_size s, fence_size s, below_prior_size s, candidate_size s with
  | Some n, _, _, _ => Some n
  | _, Some n, _, _ => Some n
  | _, _, Some n, _ => Some n
  | _, _, _, c => c
  end.

Definition bisection (s : Search) : next :=
  match dithered s with
  | None => Panics
  | Some mid => match nudge 64 s mid with Some n => Ask n | None => Stop end
  end.

Definition Next (s : Search) : Search * next :=
  if contradicted s || nonDeterministic s || stalled s || negb (usableRange s) then (s, Stop)
  else if (0 <? MaxProbes (cfg s)) && (MaxProbes (cfg s) <=? probes s) then (stop_early s, Stop)
  else if hi s -! lo s <=? stopWidth s then (s, Stop)
  else
    let step := match hypothesis s with Some n => Ask n | None => bisection s end in
    (match step with Ask n => with_pending s n | _ => s end, step).

(** ** An answer *)

Definition anomaly (kind : string) (n : Z) (got : list bool) : Anomaly :=
  mkAnomaly kind n (Z.of_nat (length (List.filter id got))) (Z.of_nat (length (List.filter negb got))).

Definition read_an_entry (s : Search) : Search :=
  let 'mkSearch c d b l h p n e x a w nd st ca an i := s in mkSearch c d b l h p n e x a w nd st ca an (i +! 1).

Definition noted (s : Search) (r : Result) : Search :=
  let 'mkSearch c d b l h p n e x a w nd st ca an i := s in
  mkSearch c d b l h (p +! 1) n e x (<[PrefixTokens r := answers_at s (PrefixTokens r) ++ [Wrote r]]> a)
    (if Wrote r && (0 <? CachedTokens r) then w ++ [CachedTokens r] else w) nd st ca an i.

Definition disagree (got : list bool) : bool :=
  match got with [] => false | g :: rest => existsb (fun a => negb (Bool.eqb a g)) rest end.

Definition not_deterministic (s : Search) (a : Anomaly) : Search :=
  let 'mkSearch c d b l h p n e x an0 w _ st ca an i := s in mkSearch c d b l h p n e x an0 w true st ca (an ++ [a]) i.

(** What a confirmed answer at a size settles: which hypotheses it answers and
    which side of the bracket moves. *)
Definition decided (s : Search) (r : Result) : Search :=
  let n := PrefixTokens r in
  let 'mkSearch c d b l h p pe e x a w nd st ca an i := s in
  let bound := if CachedTokens r <=? 0 then n else CachedTokens r in
  mkSearch c
    (if n =? Prior c then true else d)
    (if negb (n =? Prior c) && d && (n <? Prior c) then true else b)
    (if negb (Wrote r) && (l <? n) then n else l)
    (if Wrote r && (bound <? h) then bound else h)
    p pe e x a w nd st
    (if Wrote r then {[n]} ∪ ca else ca) an i.

Definition contradiction (s : Search) (a : Anomaly) : Search :=
  let 'mkSearch c d b l h p n e _ a0 w nd st ca an i := s in mkSearch c d b l h p n e true a0 w nd st ca (an ++ [a]) i.

Definition stall (s : Search) : Search :=
  let 'mkSearch c d b l h p n e x a w nd _ ca an i := s in mkSearch c d b l h p n e x a w nd true ca an i.

Definition Record_ (s : Search) (r : Result) : Search :=
  if Read r then read_an_entry s
  else
    let s := noted s r in
    let got := answers_at s (PrefixTokens r) in
    if disagree got then not_deterministic s (anomaly "non-deterministic" (PrefixTokens r) got)
    else if Z.of_nat (length got) <? Confirm (cfg s) then s
    else
      let s' := decided s r in
      if hi s' <=? lo s' then contradiction s' (anomaly "contradicted" (PrefixTokens r) got)
      else if (lo s' =? lo s) && (hi s' =? hi s) then stall s' else s'.

(** ** The run *)

(** What the [i]-th request comes back with when a prefix of [n] tokens was
    asked for.  It stands for sizing the prompt and for sending it: the size
    that went out is the result's own [PrefixTokens], and need not be [n]. *)
Definition oracle : Type := nat -> Z -> option Result.

Inductive ending := Done | Failed | Panicked.

Record run := mkRun { found : Search; asked : list Z; ended : ending }.

Fixpoint Run_loop (fuel : nat) (reply : oracle) (s : Search) (asked : list Z) : option run :=
  match fuel with
  | O => None
  | S fuel =>
      match Next s with
      | (s, Stop) => Some (mkRun s asked Done)
      | (s, Panics) => Some (mkRun s asked Panicked)
      | (s, Ask n) =>
          if (0 <? MaxProbes (cfg s)) && (MaxProbes (cfg s) <=? Z.of_nat (length asked))
          then Some (mkRun (stop_early s) asked Done)
          else match reply (length asked) n with
               | None => Some (mkRun s (asked ++ [n]) Failed)
               | Some r => Run_loop fuel reply (Record_ s r) (asked ++ [n])
               end
      end
  end.

Definition Run (fuel : nat) (reply : oracle) (c : Config) : option run := Run_loop fuel reply (New c) [].

(** ** What answered *)

Record sightings := mkSightings { seenModel : gset string; seenTier : gset string; seenGeo : gset string }.

Definition note (seen : gset string) (v : string) : gset string := if String.eqb v "" then seen else {[v]} ∪ seen.

(** The values seen, joined when there are several. *)
Definition soleValue (seen : gset string) : string := String.concat ", " (GoMath.Strings (base.elements seen)).

Record Provenance := mkProvenance { ResolvedModel : string; pv_ServiceTier : string; pv_Geo : string; Mixed : bool }.

Definition Provenance_of (r : sightings) : Provenance :=
  mkProvenance (soleValue (seenModel r)) (soleValue (seenTier r)) (soleValue (seenGeo r))
    ((1 <? size (seenModel r))%nat || (1 <? size (seenTier r))%nat || (1 <? size (seenGeo r))%nat).

(** The usage a response to a probe carries. *)
Record probe_usage := mkProbeUsage {
  pu_Tier : string; pu_Geo : string; pu_Input : Z; pu_Creation : Z; pu_Read : Z; Ephemeral5m : Z; Ephemeral1h : Z
}.

Definition into_split : decoded (Z * Z) :=
  into_struct ["ephemeral_5m_input_tokens"; "ephemeral_1h_input_tokens"] (fun tag raw '(a, b) =>
    if String.eqb tag "ephemeral_5m_input_tokens" then (fun x => (x, b)) <$> into_int raw a
    else (fun x => (a, x)) <$> into_int raw b).

Definition into_probe_usage : decoded probe_usage :=
  into_struct ["service_tier"; "inference_geo"; "input_tokens"; "cache_creation_input_tokens"; "cache_read_input_tokens"; "cache_creation"]
    (fun tag raw u =>
      let 'mkProbeUsage t g i c r a b := u in
      if String.eqb tag "service_tier" then (fun x => mkProbeUsage x g i c r a b) <$> into_string raw t
      else if String.eqb tag "inference_geo" then (fun x => mkProbeUsage t x i c r a b) <$> into_string raw g
      else if String.eqb tag "input_tokens" then (fun x => mkProbeUsage t g x c r a b) <$> into_int raw i
      else if String.eqb tag "cache_creation_input_tokens" then (fun x => mkProbeUsage t g i x r a b) <$> into_int raw c
      else if String.eqb tag "cache_read_input_tokens" then (fun x => mkProbeUsage t g i c x a b) <$> into_int raw r
      else (fun x => mkProbeUsage t g i c r x.1 x.2) <$> into_split raw (a, b)).

Definition into_probe_reply : decoded (string * option probe_usage) :=
  into_struct ["model"; "usage"] (fun tag raw '(m, u) =>
    if String.eqb tag "model" then (fun x => (x, u)) <$> into_string raw m
    else (fun x => (m, x)) <$> into_pointer (mkProbeUsage "" "" 0 0 0 0 0) into_probe_usage raw u).

(** What a successful response says of a prefix that counted [actual] tokens;
    no usage, or no input, says nothing. *)
Definition read_reply (seen : sightings) (actual : Z) (raw : bytes) : option (sightings * Result) :=
  '(model, usage) ← into_probe_reply raw ("", None);
  u ← usage;
  if pu_Input u <=? 0 then None
  else
    let split := Ephemeral5m u +! Ephemeral1h u in
    let created := if pu_Creation u <? split then split else pu_Creation u in
    Some (mkSightings (note (seenModel seen) model) (note (seenTier seen) (pu_Tier u)) (note (seenGeo seen) (pu_Geo u)),
          mkResult actual (0 <? created) (0 <? pu_Read u) created).

(** ** A prefix of a given size *)

Definition tokensPerProbeChar : Z := 4.
Definition runeBytes : Z := 3.
Definition fillerPrefixBytes : Z := 46.

(** How many runes [fillerOfChars] writes to reach [chars] bytes: the fixed
    beginning, then runes of three bytes while there are too few. *)
Definition fillerOfChars (chars : Z) : Z :=
  fillerPrefixBytes + (if chars <=? fillerPrefixBytes then 0 else (chars - fillerPrefixBytes + 2) / runeBytes).

(** The length to try after a text of [runes] runes counted [got] tokens. *)
Definition next_length (target chars got : Z) (tokensPerRune : float64) : Z :=
  let chars :=
    if fltb f0 tokensPerRune then
      let step := imul (to_int (fdiv (of_int (target -! got)) tokensPerRune)) runeBytes in
      chars +! (if step =? 0 then (if target <? got then - runeBytes else runeBytes) else step)
    else if (got <? target -! 8) || (target +! 8 <? got) then Z.quot (imul chars target) got
    else if got <? target then chars +! 3 else chars -! 3 in
  let chars := if chars <? 1 then 1 else chars in
  Z.min chars (imul (imul target tokensPerProbeChar) 64).

Record sizing := mkSizing { best : option (Z * Z) (* runes, tokens *); bestGap : Z; per_rune : float64 }.

(** [count i runes] is what the provider counts for the [i]-th text. *)
Fixpoint size_loop (tries : nat) (count : nat -> Z -> option Z) (overhead target : Z) (i : nat) (chars : Z) (z : sizing)
    : option (option (Z * Z) * float64) :=
  match tries with
  | O => Some (best z, per_rune z)
  | S tries =>
      let runes := fillerOfChars chars in
      total ← count i runes;
      let got := total -! overhead in
      if got <=? 0 then None
      else
        let rate := fdiv (of_int got) (of_int runes) in
        let gap := abs2 (got -! target) in
        let z := if gap <? bestGap z then mkSizing (Some (runes, got)) gap rate else mkSizing (best z) (bestGap z) rate in
        if got =? target then Some (Some (runes, got), rate)
        else size_loop tries count overhead target (S i) (next_length target chars got rate) z
  end.

Definition sizedFiller (count : nat -> Z -> option Z) (overhead : Z) (rate : float64) (target : Z) : option (Z * Z * float64) :=
  let chars := if fltb f0 rate
               then imul (to_int (fdiv (of_int target) rate)) runeBytes +! fillerPrefixBytes
               else imul target tokensPerProbeChar in
  '(found, rate) ← size_loop 40 count overhead target 0 chars (mkSizing None (Z.shiftl 1 30) rate);
  '(runes, tokens) ← found;
  Some (runes, tokens, rate).

(** ** Before the run *)

Definition AffordableDecisions (s : Search) : Z :=
  if MaxProbes (cfg s) <=? 0 then 0 else Z.quot (MaxProbes (cfg s)) (Confirm (cfg s)).

Fixpoint halvings (fuel : nat) (target w : Z) : Z :=
  match fuel with
  | O => 0
  | S fuel => if target <? w then 1 + halvings fuel target (Z.quot w 2) else 0
  end.

Definition BudgetTooSmall (s : Search) : bool :=
  if (MaxProbes (cfg s) <=? 0) || negb (usableRange s) then false
  else
    let span := Max (cfg s) -! Min (cfg s) in
    let target := if fltb f0 (RelativeResolution (cfg s))
                  then to_int (fmul (of_int (Max (cfg s))) (RelativeResolution (cfg s))) else Resolution (cfg s) in
    let target := if target <? 1 then 1 else target in
    AffordableDecisions s <? halvings 64 target span.

(** ** Readings *)

Record Reading := mkReading {
  TakenAt : string; Method : string; Model : string; AnsweredBy : string; ServiceTier : string; Geo : string;
  Above : Z; AtMost : Z; Documented : Z; Outcome : string; Anomalies : list Anomaly; Inconclusive : Z;
  Probes : Z; rd_Confirm : Z
}.

Definition MethodVersion : string := "2026-09-06.1".

Definition ReadingFrom (model : string) (documented : Z) (s : Search) (p : Provenance) (confirm : Z) : Reading :=
  mkReading "" "" model (ResolvedModel p) (pv_ServiceTier p) (pv_Geo p) (lo s) (hi s) documented
    (if Mixed p then "mixed-provenance"
     else if nonDeterministic s then "non-deterministic"
     else if contradicted s then "contradicted"
     else if stoppedEarly s then "budget-exhausted"
     else if stalled s then "stalled" else "")
    (anomalies s) (inconclusive s) (probes s) confirm.

Definition comparable (r : Reading) : bool := String.eqb (Outcome r) "" && (0 <? AtMost r).

Definition disjoint (a b : Reading) : bool := (AtMost a <=? Above b) || (AtMost b <=? Above a).

Record Change := mkChange {
  ch_Model : string; ch_At : string; FromAbove : Z; FromAtMost : Z; ToAbove : Z; ToAtMost : Z
}.

Record MethodBreak := mkMethodBreak { mb_Model : string; mb_At : string; mb_From : string; mb_To : string }.

Definition byModel (rs : list Reading) : gmap string (list Reading) :=
  SliceStable (fun a b => String.ltb (TakenAt a) (TakenAt b)) <$>
  fold_left (fun g r => <[Model r := default [] (g !! Model r) ++ [r]]> g) rs ∅.

(** One model's readings, oldest first, against the last comparable one. *)
Fixpoint changes_of (last : option Reading) (group : list Reading) : list Change :=
  match group with
  | [] => []
  | r :: group =>
      if comparable r then
        match last with
        | Some p =>
            (if String.eqb (Method p) (Method r) && disjoint p r
             then [mkChange (Model r) (TakenAt r) (Above p) (AtMost p) (Above r) (AtMost r)] else [])
            ++ changes_of (Some r) group
        | None => changes_of (Some r) group
        end
      else changes_of last group
  end.

Fixpoint method_breaks_of (prev : option Reading) (group : list Reading) : list MethodBreak :=
  match group with
  | [] => []
  | r :: group =>
      if comparable r then
        match prev with
        | Some p =>
            (if String.eqb (Method p) (Method r) then [] else [mkMethodBreak (Model r) (TakenAt r) (Method p) (Method r)])
            ++ method_breaks_of (Some r) group
        | None => method_breaks_of (Some r) group
        end
      else method_breaks_of prev group
  end.

Definition Changes (it : iteration) (rs : list Reading) : list Change :=
  List.concat (List.map (fun kv => changes_of None kv.2) (go_range it (byModel rs))).

Definition MethodBreaks (it : iteration) (rs : list Reading) : list MethodBreak :=
  List.concat (List.map (fun kv => method_breaks_of None kv.2) (go_range it (byModel rs))).

(** [RecentReading] on the readings of the file; [parse_time] is
    [time.Parse] with its RFC 3339 layout. *)
Definition RecentReading (parse_time : string -> option time) (now : time) (maxAge : duration) (model : string)
    (rs : list Reading) : option Reading :=
  fold_left (fun best r =>
    if String.eqb (Model r) model && String.eqb (Method r) MethodVersion && comparable r then
      match parse_time (TakenAt r) with
      | Some t =>
          if Before t (now - maxAge) then best
          else match best with
               | Some b => if String.ltb (TakenAt b) (TakenAt r) then Some r else best
               | None => Some r
               end
      | None => best
      end
    else best) rs None.

(** ** Two responses *)

Record usageSplit := mkUsageSplit { CacheCreation : Z; CacheRead : Z }.

Record VaryResult := mkVaryResult {
  BaselineRead : Z; VariantRead : Z; ControlRead : Z; BaselineWrite : Z; VariantWrite : Z; Moved : bool; vr_Inconclusive : bool
}.

(** What three responses say of one part of the prefix: the baseline, the
    variant and the baseline again. *)
Definition vary (base vari ctrl : usageSplit) : VaryResult :=
  let lost := CacheRead ctrl =? 0 in
  mkVaryResult (CacheRead base) (CacheRead vari) (CacheRead ctrl) (CacheCreation base) (CacheCreation vari)
    (negb lost && (0 <? CacheCreation base) && (CacheRead vari =? 0)) lost.

Record openAIUsage := mkOpenAIUsage { oa_Model : string; oa_Input : Z; oa_Cached : Z; CacheWriteTokens : Z; WriteObserved : bool }.

Definition writeFromPair (first second : openAIUsage) : bool * bool :=
  if (oa_Input first <=? 0) || (oa_Input second <=? 0) then (false, false)
  else if negb (oa_Input first =? oa_Input second) then (false, false)
  else (0 <? oa_Cached second, true).

(** ** What a change is *)

(** A change reported between two readings is between brackets that cannot
    both hold, measured by the same method on comparable runs. *)
Lemma a_change_is_between_disjoint_brackets ch : forall group last,
  ch ∈ changes_of last group ->
  exists p r, r ∈ group /\ (p ∈ group \/ last = Some p) /\ comparable r = true /\ Method p = Method r /\
    disjoint p r = true /\ ch = mkChange (Model r) (TakenAt r) (Above p) (AtMost p) (Above r) (AtMost r).
Proof.
  induction group as [|r group IH]; intros last H; [by apply elem_of_nil in H|]. cbn [changes_of] in H.
  assert (G : forall last', (last' = last \/ last' = Some r) -> ch ∈ changes_of last' group ->
    exists p r', r' ∈ r :: group /\ (p ∈ r :: group \/ last = Some p) /\ comparable r' = true /\ Method p = Method r' /\
      disjoint p r' = true /\ ch = mkChange (Model r') (TakenAt r') (Above p) (AtMost p) (Above r') (AtMost r')).
  { intros last' L C. apply IH in C as (p & r' & Hr & Hp & X). exists p, r'. split; [by right|]. split; [|done].
    destruct Hp as [Hp|Hp]; [left; by right|]. destruct L as [->|L]; [by right|]. left. rewrite L in Hp. simplify_eq. by left. }
  destruct (comparable r) eqn:C; [|by apply (G last); [left|]].
  destruct last as [p|]; [|by apply (G (Some r)); [right|]].
  apply elem_of_app in H as [H|H]; [|by apply (G (Some r)); [right|]].
  destruct (_ && _) eqn:B; [|by apply elem_of_nil in H]. apply list_elem_of_singleton in H.
  apply andb_true_iff in B as [B D]. apply String.eqb_eq in B.
  exists p, r. split_and!; [by left | by right | done..].
Qed.

(** ** The next size is inside the bracket *)

Lemma stopWidth_pos s : 1 <= stopWidth s.
Proof. unfold stopWidth. repeat case_match; lia. Qed.

Lemma inside_iff s n : inside s n = true <-> lo s < n < hi s.
Proof. unfold inside. lia. Qed.

Lemma nextCandidate_inside s : nextCandidate s = 0 \/ lo s < nextCandidate s < hi s.
Proof.
  unfold nextCandidate. generalize (Candidates (cfg s)) as l, (Z.shiftl 1 30) as gap.
  assert (G : forall l best gap, best = 0 \/ lo s < best < hi s ->
    let b := fst (fold_left (fun '(best, bestGap) c =>
         if (c <=? lo s) || (hi s <=? c) then (best, bestGap)
         else let gap := abs2 (c -! midpoint s) in
              if gap <? bestGap then (c, gap) else (best, bestGap)) l (best, gap)) in
    b = 0 \/ lo s < b < hi s).
  { induction l as [|c l IH]; intros best gap H; [done|]. cbn [fold_left]. cbn zeta.
    destruct (orb _ _) eqn:E; [by apply IH|]. case_match; apply IH; [right; lia | done]. }
  intros l gap. apply G. by left.
Qed.

Lemma hypothesis_inside s n : hypothesis s = Some n -> lo s < n < hi s.
Proof.
  unfold hypothesis, prior_size, fence_size, below_prior_size, candidate_size, inside.
  pose proof (nextCandidate_inside s). repeat case_match; intros; simplify_eq; lia.
Qed.

(** The bracket is one: it lies in the configured range, in machine integers. *)
Definition bracket (s : Search) : Prop :=
  0 <= Min (cfg s) /\ Min (cfg s) <= lo s /\ lo s < hi s /\ hi s <= Max (cfg s) /\ Max (cfg s) <= 2 ^ 62.

#[local] Instance bracket_dec s : Decision (bracket s).
Proof. apply _. Defined.

Lemma width s : bracket s -> hi s -! lo s = hi s - lo s.
Proof. intros H. apply wrap64_small. unfold bracket in H. unfold_int. lia. Qed.

Lemma midpoint_eq s : bracket s -> midpoint s = lo s + (hi s - lo s) / 2.
Proof.
  intros H. unfold midpoint. rewrite (width s H). unfold bracket in H. rewrite Z.quot_div_nonneg by lia.
  apply wrap64_small. pose proof (Z.div_le_upper_bound (hi s - lo s) 2 (hi s - lo s)). 
  pose proof (Z.div_pos (hi s - lo s) 2). unfold_int. lia.
Qed.

Lemma dithered_inside s : bracket s -> 1 < hi s - lo s -> exists mid, dithered s = Some mid /\ lo s < mid < hi s.
Proof.
  intros H W.
  assert (M : lo s < midpoint s < hi s).
  { rewrite (midpoint_eq s H). unfold bracket in H. pose proof (Z.div_mod (hi s - lo s) 2). pose proof (Z.mod_pos_bound (hi s - lo s) 2). lia. }
  unfold dithered. rewrite (width s H). case_match; [|by eexists].
  assert (S : lo s +! hi s = lo s + hi s) by (apply wrap64_small; unfold bracket in H; unfold_int; lia).
  rewrite S. unfold bracket in H. pose proof (Z.rem_bound_pos (lo s + hi s) 8).
  case_match; [lia|].
  destruct (lookup_lt_is_Some_2 ditherOffsets (Z.to_nat (Z.rem (lo s + hi s) 8))) as [d D]; [cbn; lia|].
  rewrite D. cbn. eexists. split; [done|]. case_match; [by apply inside_iff|done].
Qed.

Lemma neighbours s mid : bracket s -> lo s < mid < hi s -> mid +! 1 = mid + 1 /\ mid -! 1 = mid - 1.
Proof. unfold bracket. intros B H. split; apply wrap64_small; unfold_int; lia. Qed.

Lemma nudge_inside s i : forall mid n, bracket s -> lo s < mid < hi s -> nudge i s mid = Some n -> lo s < n < hi s.
Proof.
  induction i as [|i IH]; cbn [nudge]; intros mid n B H E; [by simplify_eq|].
  destruct (neighbours s mid B H) as [P M]. rewrite P, M in E.
  repeat case_match; simplify_eq; try done; (eapply IH; [done | | done]; lia).
Qed.

Lemma nudge_unconfirmed s i mid : confirmed s mid = false -> nudge i s mid = Some mid.
Proof. intros H. destruct i; cbn [nudge]; by rewrite ?H. Qed.

(** What [Next] does on a bracket: it stops, or asks for a size strictly
    inside and changes only what is pending. *)
Lemma Next_cases s :
  bracket s ->
  match Next s with
  | (s', Ask n) => lo s < n < hi s /\ s' = with_pending s n
  | (s', Stop) => s' = s \/ s' = stop_early s
  | (s', Panics) => False
  end.
Proof.
  intros B. unfold Next. destruct (_ || negb (usableRange s)); [by left|].
  destruct (_ && (MaxProbes (cfg s) <=? probes s)); [by right|].
  destruct (hi s -! lo s <=? stopWidth s) eqn:W; [by left|].
  rewrite (width s B) in W. pose proof (stopWidth_pos s).
  destruct (hypothesis s) as [n|] eqn:E; [split; [by apply hypothesis_inside|done]|].
  unfold bisection. destruct (dithered_inside s B) as (mid & -> & M); [lia|].
  destruct (nudge 64 s mid) as [n|] eqn:N; [|by left]. split; [by eapply nudge_inside|done].
Qed.

(** ** What an answer leaves alone *)

Lemma with_pending_bracket s n : bracket s -> bracket (with_pending s n).
Proof. by destruct s. Qed.

Lemma Record_bracket s r : bracket s -> contradicted (Record_ s r) = true \/ bracket (Record_ s r).
Proof.
  intros B. destruct s as [c d b l h p pe e x a w nd st ca an i]. unfold bracket in *. cbn in B.
  unfold Record_. destruct (Read r); [by right|]. cbn -[disagree anomaly answers_at noted].
  destruct (disagree _); [by right|]. case_match; [by right|].
  unfold noted, decided. cbn.
  repeat case_match; cbn in *; (by left) || (right; lia).
Qed.

Lemma Record_cfg s r : cfg (Record_ s r) = cfg s.
Proof. destruct s. unfold Record_. repeat case_match; done. Qed.

(** ** A run stays within its budget *)

(** A state from which every request is inside the configured range. *)
Definition searching (c : Config) (s : Search) : Prop :=
  cfg s = cfg (New c) /\ (usableRange s = false \/ contradicted s = true \/ bracket s).

Lemma New_searching c : Max c <= 2 ^ 62 -> searching c (New c).
Proof.
  intros H. split; [done|]. destruct (usableRange (New c)) eqn:U; [|by left]. right. right.
  unfold usableRange, bracket in *. cbn in *. lia.
Qed.

Lemma Record_searching c s r : searching c s -> searching c (Record_ s r).
Proof.
  unfold searching, usableRange. rewrite Record_cfg. intros [E [H|[H|B]]]; (split; [done|]).
  - by left.
  - right. left. destruct s. cbn in H. subst. unfold Record_. repeat case_match; done.
  - right. by apply Record_bracket.
Qed.

Lemma Next_searching c s :
  searching c s ->
  match Next s with
  | (s', Ask n) => searching c s' /\ Min c < n < Max c /\ s' = with_pending s n /\ bracket s
  | (_, Stop) => True
  | (_, Panics) => False
  end.
Proof.
  intros [E H]. destruct (decide (bracket s)) as [B|B].
  - pose proof (Next_cases s B) as N. destruct (Next s) as [s' [n| |]]; [|done..]. destruct N as [N ->].
    split_and!; [|unfold bracket in B; rewrite E in B; cbn in B; lia..|done|done].
    split; [by destruct s|]. right. right. by apply with_pending_bracket.
  - unfold Next. destruct H as [H|[H|H]]; [| |done]; rewrite H.
    + by rewrite orb_true_r.
    + done.
Qed.

Lemma Run_loop_budget c reply fuel : forall s sent,
  0 < MaxProbes c -> searching c s -> Z.of_nat (length sent) <= MaxProbes c ->
  MaxProbes c < Z.of_nat fuel + Z.of_nat (length sent) -> Forall (fun n => Min c < n < Max c) sent ->
  exists r, Run_loop fuel reply s sent = Some r /\ ended r <> Panicked /\
    Z.of_nat (length (asked r)) <= MaxProbes c /\ Forall (fun n => Min c < n < Max c) (asked r).
Proof.
  induction fuel as [|fuel IH]; intros s sent M S L F A; [lia|]. cbn [Run_loop].
  pose proof (Next_searching c s S) as N. destruct (Next s) as [s' [n| |]]; [| by eexists | done].
  destruct N as (S' & In & _). destruct S' as [E U]. rewrite E. cbn [MaxProbes cfg New].
  destruct (_ && _) eqn:B; [by eexists|]. apply andb_false_iff in B.
  assert (L' : Z.of_nat (length (sent ++ [n])) = Z.of_nat (length sent) + 1) by (rewrite length_app; cbn; lia).
  assert (A' : Forall (fun n => Min c < n < Max c) (sent ++ [n])) by (apply Forall_app; auto).
  destruct (reply _ _) as [r|].
  - apply IH; [done | by apply Record_searching | lia | lia | done].
  - eexists. split_and!; [done | done | cbn [asked]; lia | done].
Qed.

(** C26: a run never sends more requests than it was allowed, whatever comes
    back, errors, readings of an old cache entry and sizes other than the one
    asked for included; every size it pays for is strictly inside the
    configured range, and it always ends. *)
Theorem a_run_keeps_to_its_budget c reply :
  0 < MaxProbes c -> Max c <= 2 ^ 62 ->
  exists r, Run (S (Z.to_nat (MaxProbes c))) reply c = Some r /\ ended r <> Panicked /\
    Z.of_nat (length (asked r)) <= MaxProbes c /\ Forall (fun n => Min c < n < Max c) (asked r).
Proof. intros M L. apply Run_loop_budget; [done | by apply New_searching | cbn; lia | cbn; lia | done]. Qed.

(** ** Against a provider with a floor *)

(** What a provider whose minimum is [F] says of a prefix: it writes exactly
    when the prefix reaches [F], and what it writes reaches [F] too.  A reply
    that read an older entry says nothing. *)
Definition honest (F : Z) (r : Result) : Prop :=
  Read r = true \/
  (Wrote r = (F <=? PrefixTokens r) /\ (Wrote r = true -> CachedTokens r <= 0 \/ F <= CachedTokens r)).

Record faithful (F : Z) (s : Search) : Prop := {
  floor_inside : lo s < F <= hi s;
  never_contradicted : contradicted s = false;
  always_deterministic : nonDeterministic s = false;
  answers_agree : forall n, Forall (eq (F <=? n)) (answers_at s n)
}.

Lemma noted_answers s r n :
  answers_at (noted s r) n = if decide (n = PrefixTokens r) then answers_at s n ++ [Wrote r] else answers_at s n.
Proof.
  destruct s. unfold answers_at, noted. cbn. case_decide as E.
  - subst. by rewrite lookup_insert_eq.
  - by rewrite lookup_insert_ne by congruence.
Qed.

Lemma decided_answers s r n : answers_at (decided s r) n = answers_at s n.
Proof. by destruct s. Qed.

Lemma agree_disagree b got : Forall (eq b) got -> disagree got = false.
Proof.
  destruct got as [|g got]; [done|]. intros H. apply Forall_cons in H as [<- H]. cbn.
  induction H as [|x got <- H IH]; [done|]. cbn. by rewrite Bool.eqb_reflx.
Qed.

Lemma noted_agree F s r :
  (forall n, Forall (eq (F <=? n)) (answers_at s n)) -> Wrote r = (F <=? PrefixTokens r) ->
  forall n, Forall (eq (F <=? n)) (answers_at (noted s r) n).
Proof.
  intros A W n. rewrite noted_answers. case_decide as E; [|done]. subst. apply Forall_app. by rewrite W; auto.
Qed.

(** The bracket after a confirmed answer still holds the floor. *)
Lemma decided_floor F s r :
  lo s < F <= hi s -> Wrote r = (F <=? PrefixTokens r) -> (Wrote r = true -> CachedTokens r <= 0 \/ F <= CachedTokens r) ->
  lo (decided s r) < F <= hi (decided s r).
Proof.
  destruct s. cbn. intros H W K. destruct (Wrote r) eqn:E; cbn; [specialize (K eq_refl)|]; repeat case_match; lia.
Qed.

Lemma stall_faithful F s : faithful F s -> faithful F (stall s).
Proof. by destruct s; intros []; split. Qed.

Lemma Record_faithful F s r : honest F r -> faithful F s -> faithful F (Record_ s r).
Proof.
  intros H [B C D A]. unfold Record_. destruct (Read r) eqn:Rd; [by destruct s; split|].
  destruct H as [H|[W K]]; [congruence|].
  pose proof (noted_agree F s r A W) as N. rewrite (agree_disagree _ _ (N _)).
  assert (B' : lo (noted s r) < F <= hi (noted s r)) by (by destruct s).
  assert (C' : contradicted (noted s r) = false) by (by destruct s).
  assert (D' : nonDeterministic (noted s r) = false) by (by destruct s).
  case_match; [by split|].
  pose proof (decided_floor F (noted s r) r B' W K) as B2.
  destruct (hi (decided _ _) <=? lo (decided _ _)) eqn:X; [lia|].
  assert (G : faithful F (decided (noted s r) r)).
  { split; [done | by destruct s | by destruct s | intros n; rewrite decided_answers; apply N]. }
  case_match; [by apply stall_faithful|done].
Qed.

(** Whatever is asked and whatever sizes come back, the answers of an honest
    provider keep its minimum in the bracket. *)
Lemma the_floor_stays_in_the_bracket F c rs :
  Min c < F <= Max c -> Forall (honest F) rs -> faithful F (fold_left Record_ rs (New c)).
Proof.
  intros B H. assert (G : faithful F (New c)) by (split; done). revert G. generalize (New c).
  induction H as [|r rs Hr H IH]; intros s G; [done|]. apply IH. by apply Record_faithful.
Qed.

(** ** The search ends at the floor *)

(** A provider with minimum [F] that is asked for exact sizes, writes at most
    what it was sent and never reads an older entry. *)
Definition exact (F : Z) (reply : oracle) : Prop :=
  forall i n, exists k, reply i n = Some (mkResult n (F <=? n) false k) /\ (F <= n -> k <= 0 \/ F <= k <= n).

Record settled (s : Search) : Prop := {
  confirmed_outside : forall n, confirmed s n = true -> ~ lo s < n < hi s;
  not_stalled : stalled s = false;
  nothing_odd : anomalies s = [];
  not_cut : stoppedEarly s = false
}.

(** How many answers are still to come at most. *)
Definition wanting (s : Search) (n : Z) : nat :=
  if inside s n then Z.to_nat (Confirm (cfg s)) - length (answers_at s n) else 0.

Definition to_come (s : Search) : nat :=
  sum_list_with (wanting s) (seqZ (Min (cfg s) + 1) (Max (cfg s) - Min (cfg s) - 1)).

Lemma sum_list_less {A} (f g : A -> nat) l x :
  (forall y, f y <= g y)%nat -> x ∈ l -> (f x < g x)%nat -> (sum_list_with f l < sum_list_with g l)%nat.
Proof.
  intros L H X. apply list_elem_of_split in H as (l1 & l2 & ->). rewrite !sum_list_with_app. cbn.
  assert (G : forall l, (sum_list_with f l <= sum_list_with g l)%nat)
    by (intros l; induction l as [|y l IH]; cbn; [lia | specialize (L y); lia]).
  pose proof (G l1). pose proof (G l2). lia.
Qed.

Lemma less_to_come s s' n :
  cfg s' = cfg s -> bracket s -> lo s < n < hi s -> confirmed s n = false ->
  (forall x, inside s' x = true -> inside s x = true) -> (forall x, length (answers_at s x) <= length (answers_at s' x))%nat ->
  inside s' n = false \/ (length (answers_at s n) < length (answers_at s' n))%nat ->
  (to_come s' < to_come s)%nat.
Proof.
  intros E B N U I A X. unfold to_come. rewrite E.
  assert (L : forall x, (wanting s' x <= wanting s x)%nat).
  { intros x. unfold wanting. rewrite E. specialize (I x). specialize (A x). destruct (inside s' x); [rewrite I by done|]; lia. }
  apply (sum_list_less _ _ _ n); [done | unfold bracket in B; apply elem_of_seqZ; lia |].
  unfold wanting. rewrite E. assert (Is : inside s n = true) by (by apply inside_iff). rewrite Is.
  unfold confirmed in U. destruct X as [->|X]; [lia|]. case_match; lia.
Qed.

Lemma exact_honest F n k : (F <= n -> k <= 0 \/ F <= k <= n) -> honest F (mkResult n (F <=? n) false k).
Proof. intros K. right. split; [done|]. cbn. intros H. destruct K; lia. Qed.

(** One answer of a provider with a floor, at the size asked for: not yet
    enough of them, or the bracket gets smaller. *)
Lemma Record_exact F s n k :
  faithful F s -> lo s < n < hi s -> (F <= n -> k <= 0 \/ F <= k <= n) ->
  let r := mkResult n (F <=? n) false k in
  Record_ s r = if confirmed (noted s r) n then decided (noted s r) r else noted s r.
Proof.
  intros [B C D A] N K r. unfold Record_. cbn [Read r].
  pose proof (noted_agree F s r A eq_refl) as G. rewrite (agree_disagree _ _ (G _)).
  unfold confirmed. cbn [PrefixTokens r].
  rewrite (Z.ltb_antisym _ (Z.of_nat (length (answers_at (noted s r) n)))). destruct (Confirm _ <=? _); [|done]. cbn [negb].
  assert (B' : lo (noted s r) < F <= hi (noted s r) /\ lo (noted s r) < n < hi (noted s r)) by (by destruct s).
  subst r. generalize dependent (noted s (mkResult n (F <=? n) false k)). intros s' _ B'.
  destruct s' as [c d b l h p pe e x a w nd st ca an i]. cbn in B' |- *.
  destruct (F <=? n) eqn:E; cbn; repeat case_match; try done; lia.
Qed.

Lemma noted_bracket s r : lo (noted s r) = lo s /\ hi (noted s r) = hi s /\ cfg (noted s r) = cfg s.
Proof. by destruct s. Qed.

Lemma noted_answers_length s r x : (length (answers_at s x) <= length (answers_at (noted s r) x))%nat.
Proof. rewrite noted_answers. case_decide; [rewrite length_app|]; lia. Qed.

Lemma confirmed_noted s r n : confirmed (noted s r) n = true -> n <> PrefixTokens r -> confirmed s n = true.
Proof.
  unfold confirmed. rewrite noted_answers. destruct (noted_bracket s r) as (_ & _ & ->). by case_decide.
Qed.

Lemma decided_bracket s r :
  lo s <= lo (decided s r) /\ hi (decided s r) <= hi s /\ cfg (decided s r) = cfg s.
Proof. destruct s. cbn. split_and!; [case_match; lia.. | done]. Qed.

(** The confirmed size is not inside the bracket any more. *)
Lemma decided_excludes F s n k :
  lo s < n < hi s -> (F <= n -> k <= 0 \/ F <= k <= n) -> ~ lo (decided s (mkResult n (F <=? n) false k)) < n < hi (decided s (mkResult n (F <=? n) false k)).
Proof. destruct s. cbn. intros H K. destruct (Z.leb_spec F n) as [L|L]; [specialize (K L)|]; cbn; repeat case_match; lia. Qed.

Lemma exact_step F s n k :
  bracket s -> faithful F s -> settled s -> lo s < n < hi s -> confirmed s n = false -> (F <= n -> k <= 0 \/ F <= k <= n) ->
  let s' := Record_ s (mkResult n (F <=? n) false k) in settled s' /\ (to_come s' < to_come s)%nat.
Proof.
  intros B Fa [Q St An Cut] N U K s'. set (r := mkResult n (F <=? n) false k) in *.
  assert (E : s' = _) by apply (Record_exact F s n k Fa N K). fold r in E.
  destruct (noted_bracket s r) as (El & Eh & Ec).
  destruct (decided_bracket (noted s r) r) as (Dl & Dh & Dc).
  assert (X : ~ lo (decided (noted s r) r) < n < hi (decided (noted s r) r)).
  { apply decided_excludes; [by rewrite El, Eh | done]. }
  destruct (confirmed (noted s r) n) eqn:Cn; rewrite E.
  - split; [split|].
    + intros x. unfold confirmed. rewrite decided_answers, Dc. fold (confirmed (noted s r) x). intros Cx.
      destruct (decide (x = n)) as [->|Ne]; [done|]. apply confirmed_noted in Cx; [|done]. apply Q in Cx. lia.
    + by destruct s.
    + by destruct s.
    + by destruct s.
    + apply (less_to_come _ _ n); [congruence | done | done | done | | |].
      * intros x. rewrite !inside_iff. lia.
      * intros x. rewrite decided_answers. apply noted_answers_length.
      * left. apply not_true_iff_false. by rewrite inside_iff.
  - split; [split|].
    + intros x Cx. rewrite El, Eh. destruct (decide (x = n)) as [->|Ne]; [congruence|]. apply Q. by apply confirmed_noted in Cx.
    + by destruct s.
    + by destruct s.
    + by destruct s.
    + apply (less_to_come _ _ n); [done | done | done | done | | |].
      * intros x. rewrite !inside_iff. lia.
      * intros x. apply noted_answers_length.
      * right. rewrite noted_answers. rewrite decide_True by done. rewrite length_app. cbn. lia.
Qed.

(** A settled search asks for a size it has no answer for, and stops only when
    its bracket is narrow enough. *)
Lemma Next_settled F s :
  bracket s -> faithful F s -> settled s -> MaxProbes (cfg s) <= 0 \/ probes s < MaxProbes (cfg s) ->
  match Next s with
  | (s', Ask n) => s' = with_pending s n /\ lo s < n < hi s /\ confirmed s n = false
  | (s', Stop) => s' = s /\ hi s - lo s <= stopWidth s
  | (_, Panics) => False
  end.
Proof.
  intros B Fa [Q St _ _] M. pose proof (Next_cases s B) as N. destruct (Next s) as [s' [n| |]] eqn:E; [| |done].
  - destruct N as [N ->]. split_and!; [done|lia|lia|]. apply not_true_iff_false. intros Cn. by apply Q in Cn.
  - revert E. unfold Next. rewrite (never_contradicted F s Fa), (always_deterministic F s Fa), St.
    assert (U : usableRange s = true) by (unfold usableRange; unfold bracket in B; lia). rewrite U. cbn [orb negb].
    destruct (_ && _) eqn:Bd; [lia|]. rewrite (width s B). destruct (hi s - lo s <=? _) eqn:W; [intros E; simplify_eq; split; [done|lia]|].
    destruct (hypothesis s); [intros; simplify_eq|]. unfold bisection.
    destruct (dithered_inside s B) as (mid & -> & Mid); [pose proof (stopWidth_pos s); lia|].
    rewrite nudge_unconfirmed; [intros; simplify_eq|]. apply not_true_is_false. intros Cn. by apply (Q mid Cn).
Qed.

Lemma Record_probes F s n k :
  faithful F s -> lo s < n < hi s -> (F <= n -> k <= 0 \/ F <= k <= n) ->
  probes (Record_ s (mkResult n (F <=? n) false k)) = probes s +! 1.
Proof. intros Fa N K. rewrite (Record_exact F s n k Fa N K). destruct s. by case_match. Qed.

Lemma with_pending_faithful F s n : faithful F s -> faithful F (with_pending s n).
Proof. by destruct s; intros []; split. Qed.

Lemma with_pending_settled s n : settled s -> settled (with_pending s n).
Proof. by destruct s; intros []; split. Qed.

Lemma with_pending_same s n :
  cfg (with_pending s n) = cfg s /\ lo (with_pending s n) = lo s /\ hi (with_pending s n) = hi s /\
  to_come (with_pending s n) = to_come s /\ probes (with_pending s n) = probes s /\
  confirmed (with_pending s n) n = confirmed s n.
Proof. by destruct s. Qed.

Lemma Run_loop_finds F c reply fuel : exact F reply -> forall s sent,
  cfg s = cfg (New c) -> bracket s -> faithful F s -> settled s ->
  (MaxProbes c <= 0 \/ (probes s = Z.of_nat (length sent) /\ Z.of_nat (length sent + to_come s) < MaxProbes c <= max_int64)) ->
  (to_come s < fuel)%nat ->
  exists r, Run_loop fuel reply s sent = Some r /\ ended r = Done /\
    bracket (found r) /\ faithful F (found r) /\ settled (found r) /\ hi (found r) - lo (found r) <= stopWidth (found r).
Proof.
  intros X. induction fuel as [|fuel IH]; intros s sent E B Fa S M L; [lia|]. cbn [Run_loop].
  assert (M' : MaxProbes (cfg s) <= 0 \/ probes s < MaxProbes (cfg s)) by (rewrite E; cbn; lia).
  pose proof (Next_settled F s B Fa S M') as N. destruct (Next s) as [s' [n| |]]; [| |done].
  - destruct N as (-> & In & Un). destruct (with_pending_same s n) as (Ec & El & Eh & Et & Ep & En).
    rewrite Ec, E. cbn [MaxProbes cfg New]. destruct (_ && _) eqn:Bd; [lia|].
    destruct (X (length sent) n) as (k & -> & K).
    rewrite <- El, <- Eh in In. rewrite <- En in Un.
    apply (with_pending_bracket s n) in B. apply (with_pending_faithful F s n) in Fa. apply (with_pending_settled s n) in S.
    pose proof (exact_step F _ n k B Fa S In Un K) as [S2 L2].
    pose proof (Record_faithful F _ _ (exact_honest F n k K) Fa) as F2.
    pose proof (Record_probes F _ n k Fa In K) as P2.
    apply IH; [by rewrite Record_cfg, Ec | | done | done | | lia].
    + destruct (Record_bracket _ (mkResult n (F <=? n) false k) B) as [C|]; [|done].
      by rewrite (never_contradicted F _ F2) in C.
    + rewrite length_app. cbn [length]. rewrite P2, Ep. destruct M as [M|[P M]]; [by left|right].
      assert (W : probes s +! 1 = probes s + 1) by (apply wrap64_small; unfold_int; lia). lia.
  - destruct N as [-> N]. by eexists.
Qed.

Lemma to_come_New c : Z.of_nat (to_come (New c)) <= Z.max 0 (Max c - Min c - 1) * Z.max 1 (Confirm c).
Proof.
  unfold to_come. cbn [cfg New Min Max]. generalize (Max c - Min c - 1) as w, (Min c + 1) as m. intros w m.
  assert (G : forall l, Z.of_nat (sum_list_with (wanting (New c)) l) <= Z.of_nat (length l) * Z.max 1 (Confirm c)).
  { intros l. induction l as [|x l IH]; [cbn; lia|]. cbn [sum_list_with length].
    assert (Z.of_nat (wanting (New c) x) <= Z.max 1 (Confirm c))
      by (unfold wanting; destruct (inside _ _); [|lia]; cbn [cfg New Confirm]; destruct (Confirm c <? 1) eqn:?; lia). lia. }
  etransitivity; [apply G|]. rewrite length_seqZ. nia.
Qed.

(** C25: the paid search ends at the floor.  Take a provider that has a floor
    [F] above [Min] and up to [Max] and behaves: what is sent is exactly the
    size asked for, it is written to the cache when it reaches the floor, no
    more tokens being written than were sent and no fewer than the floor, and
    no older entry is read.  With no budget, or one of a confirmed answer for
    each size, the search always ends; the floor is then in its bracket, the
    bracket is no wider than the width the search stops at, which is the one
    asked for or the step the sizes come in when that is wider; and nothing was
    called contradicted, non-deterministic, stalled or cut short. *)
Theorem the_search_finds_the_floor F c reply :
  exact F reply -> 0 <= Min c -> Min c < F <= Max c -> Max c <= 2 ^ 62 ->
  MaxProbes c <= 0 \/ (Max c - Min c) * Z.max 1 (Confirm c) <= MaxProbes c <= max_int64 ->
  exists r, Run (S (to_come (New c))) reply c = Some r /\ ended r = Done /\
    lo (found r) < F <= hi (found r) /\ hi (found r) - lo (found r) <= stopWidth (found r) /\
    anomalies (found r) = [] /\ stalled (found r) = false /\ stoppedEarly (found r) = false.
Proof.
  intros X Mn Fl Mx M.
  destruct (Run_loop_finds F c reply (S (to_come (New c))) X (New c) []) as (r & Rn & D & B & Fa & S & W).
  - done.
  - unfold bracket. cbn. lia.
  - by split.
  - split; [|done..]. intros n. unfold confirmed, answers_at. cbn [cfg answers New Confirm]. rewrite lookup_empty. change (Z.of_nat _) with 0. destruct (Confirm c <? 1) eqn:?; lia.
  - pose proof (to_come_New c) as T. rewrite Z.max_r in T by lia. destruct M as [M|M]; [by left|]. right.
    assert (E : (Max c - Min c) * Z.max 1 (Confirm c) = (Max c - Min c - 1) * Z.max 1 (Confirm c) + Z.max 1 (Confirm c)) by ring.
    cbn [length probes New]. split; [done|lia].
  - lia.
  - exists r. split_and!; [done|done|apply Fa|apply Fa|done|apply S|apply S|apply S].
Qed.

(** ** Examples *)

(** A documented 512 to test, to 64 tokens, with two
    agreeing answers each. *)
Definition around_512 : Config := mkConfig 0 2048 64 f0 0 [] 512 2.

Definition provider (F : Z) : oracle := fun _ n => Some (mkResult n (F <=? n) false (if F <=? n then n else 0)).

Lemma provider_exact F : exact F (provider F).
Proof. intros i n. eexists. split; [done|]. cbn. intros H. rewrite (proj2 (Z.leb_le F n)) by done. lia. Qed.

Example the_documented_floor_takes_four_requests :
  (fun r => (asked r, lo (found r), hi (found r))) <$> Run 10 (provider 512) around_512 = Some ([512; 512; 448; 448], 448, 512).
Proof. vm_compute. reflexivity. Qed.

Example a_wrong_document_costs_a_search :
  (fun r => (asked r, lo (found r), hi (found r))) <$> Run 30 (provider 1024) around_512
  = Some ([512; 512; 1283; 1283; 894; 894; 1083; 1083; 983; 983; 1040; 1040], 983, 1040).
Proof. vm_compute. reflexivity. Qed.

Lemma the_search_finds_the_floor_witness :
  exists r, Run (S (to_come (New around_512))) (provider 1024) around_512 = Some r /\ ended r = Done /\
    lo (found r) < 1024 <= hi (found r) /\ hi (found r) - lo (found r) <= stopWidth (found r) /\
    anomalies (found r) = [] /\ stalled (found r) = false /\ stoppedEarly (found r) = false.
Proof. apply (the_search_finds_the_floor 1024 around_512 (provider 1024) (provider_exact 1024)); cbn; lia. Defined.

(** A provider that always answers from an older entry. *)
Definition only_reads : oracle := fun _ n => Some (mkResult n false true 0).

Lemma a_run_keeps_to_its_budget_witness :
  exists r, Run (S (Z.to_nat 7)) only_reads (mkConfig 0 2048 64 f0 7 [] 512 2) = Some r /\ ended r <> Panicked /\
    Z.of_nat (length (asked r)) <= 7 /\ Forall (fun n => 0 < n < 2048) (asked r).
Proof. apply (a_run_keeps_to_its_budget (mkConfig 0 2048 64 f0 7 [] 512 2) only_reads); cbn; lia. Defined.

End Probe.
