(* ===== verification/Contributions.v ===== *)
(** What leaves the machine, and what is made of it: the recorded consent
    ([src/internal/consent/consent.go]), the observation, the corpus, the
    calibration and the watch record that may be written
    ([src/internal/observation]) and the pool that adds up corpora of several
    machines ([pool.go], and the loop over its files in
    [src/cmd/replay/pool.go]).

    Digests, [time.Parse], [strconv.ParseFloat] and [json.Marshal] are
    arguments; of a file the model has what the checks look at. *)

From S2P Require Import Prelude GoString GoFloat GoTime GoMath Json JsonValue Labels Codex Probe.
From Stdlib Require Import Ascii String.

Open Scope string_scope.
Open Scope list_scope.
Open Scope Z_scope.

(** ** Consent *)

Module Consent.

Inductive State := Unset | Granted | Declined.
#[export] Instance State_eq_dec : EqDecision State.
Proof. solve_decision. Defined.

Record Decision_ := mkDecision { d_State : State; d_Path : string; OwnershipChecked : bool }.

Definition Allowed (d : Decision_) : bool := bool_decide (d_State d = Granted).
Definition ShouldAsk (d : Decision_) : bool := bool_decide (d_State d = Unset).

(** The file, as [Lstat], its mode and [ReadFile] show it. *)
Inductive on_disk :=
| Missing
| Unreadable
| Symlink
| Regular (writable_by_others : bool) (body : option string).

(** One decision, said as often as one likes and never contradicted. *)
Fixpoint read_lines (key : string) (found : option State) (lines : list string) : option (option State) :=
  match lines with
  | [] => Some found
  | line :: lines =>
      let line := Labels.TrimSpace line in
      if String.eqb line "" || has_prefix "#" line then read_lines key found lines
      else
        want ← (if String.eqb line (key ++ " = true") then Some Granted
                else if String.eqb line (key ++ " = false") then Some Declined else None);
        match found with
        | Some w => if decide (w = want) then read_lines key (Some want) lines else None
        | None => read_lines key (Some want) lines
        end
  end.

(** The decision and whether it could be read. *)
Definition readDecision (path key : string) (file : on_disk) : Decision_ * bool :=
  match file with
  | Missing => (mkDecision Unset path false, true)
  | Unreadable | Symlink => (mkDecision Unset path false, false)
  | Regular true _ => (mkDecision Unset path false, false)
  | Regular false None => (mkDecision Unset path true, false)
  | Regular false (Some body) =>
      match read_lines key None (Split1 LF body) with
      | Some (Some st) => (mkDecision st path true, true)
      | _ => (mkDecision Unset path true, false)
      end
  end.

(** The lines that say something. *)
Definition said (body : string) : list string :=
  List.filter (fun l => negb (String.eqb l "" || has_prefix "#" l)) (List.map Labels.TrimSpace (Split1 LF body)).

End Consent.

(** ** Observations *)

Module Observation.
Import Consent.

Definition Schema : string := "replay.observation.v1".
Definition BasisAccount : string := "account".
Definition BasisLocal : string := "local".

Definition ValidBasis (b : string) : bool := String.eqb b BasisAccount || String.eqb b BasisLocal.

Record Observation := mkObservation {
  o_Schema : string; o_Campaign : string; o_Method : string; o_TakenAt : string;
  o_Model : string; o_AnsweredBy : string; o_ServiceTier : string; o_Geo : string;
  o_Above : Z; o_AtMost : Z; o_Documented : Z; o_Outcome : string;
  o_Anomalies : list Probe.Anomaly; o_Inconclusive : Z; o_Probes : Z; o_Confirm : Z;
  o_SourceTag : string; o_TagBasis : string
}.

Record Tag := mkTag { Value : string; Basis : string }.

Definition safe_rune (r : N) : bool :=
  let c := ascii_of_N r in (r <? 128)%N && (is_alnum c || Ascii.eqb c "-" || Ascii.eqb c ".").

Definition safe_runes (s : string) : string :=
  let l := Json.of_string s in
  Json.to_string (Labels.map_runes (fun r => if safe_rune r then r else 95%N) (List.length l) l).

Definition safe (s : string) : string :=
  let out := to_byte 64 (safe_runes s) in
  if String.eqb out "" then "unnamed" else out.

Definition observationFileName (o : Observation) : string :=
  "replay-observation-" ++ safe (o_Campaign o) ++ "-" ++ safe (o_SourceTag o) ++ ".json".

Definition rfc3339_hour (t : time) : string :=
  format_date t ++ "T" ++ pad 2 ((t mod day_ns) / hour) ++ ":00:00Z".

Section build.
Context (hmachex : string -> string -> string) (parse_time : string -> option time) (now : time).

Definition derive (campaign identity : string) : option string :=
  if String.eqb campaign "" || String.eqb identity "" then None
  else Some (to_byte 16 (hmachex campaign identity)).

Definition AccountTag (campaign account : string) : option Tag := (fun v => mkTag v BasisAccount) <$> derive campaign account.
Definition LocalTag (campaign secret : string) : option Tag := (fun v => mkTag v BasisLocal) <$> derive campaign secret.

Definition truncateToHour (ts : string) : option string :=
  if String.eqb ts "" then Some (rfc3339_hour now) else rfc3339_hour <$> parse_time ts.

Definition Build (campaign : string) (d : Decision_) (tag : Tag) (r : Probe.Reading) : option Observation :=
  if negb (Allowed d) then None
  else if String.eqb campaign "" then None
  else if String.eqb (Value tag) "" then None
  else if negb (ValidBasis (Basis tag)) then None
  else
    taken ← truncateToHour (Probe.TakenAt r);
    Some (mkObservation Schema campaign (Probe.Method r) taken (Probe.Model r) (Probe.AnsweredBy r)
            (Probe.ServiceTier r) (Probe.Geo r) (Probe.Above r) (Probe.AtMost r) (Probe.Documented r)
            (Probe.Outcome r) (Probe.Anomalies r) (Probe.Inconclusive r) (Probe.Probes r) (Probe.rd_Confirm r)
            (Value tag) (Basis tag)).

End build.

End Observation.

(** ** Corpora *)

Module Corpus.
Import Json JsonValue RawJson Observation.

#[local] Abbreviation length := List.length.

Definition CorpusSchema : string := "replay.corpus.v2".

Record Corpus := mkCorpus {
  c_Schema : string; c_TakenAt : string; c_Tasks : Z; c_TotalUSD : float64; c_RebilledUSD : float64;
  c_RebilledShare : float64; c_MedianTaskUSD : float64; c_PricedAt : string; c_RulesVersion : string; c_Unpriced : Z;
  c_CacheBreaks : option Z; c_ReReads : option Z; c_ErrorShare : option float64;
  c_SourceTag : string; c_TagBasis : string;
  c_BinaryVersion : string; c_Commit : string; c_PricingDigest : string; c_Digest : string
}.

Definition zero_corpus : Corpus := mkCorpus "" "" 0 f0 f0 f0 f0 "" "" 0 None None None "" "" "" "" "" "".

Definition with_digest (c : Corpus) (d : string) : Corpus :=
  let 'mkCorpus s t n a b e m p r u x y z g k v w h _ := c in mkCorpus s t n a b e m p r u x y z g k v w h d.

Definition renamedCorpusFields : list string := ["avoidableShare"; "avoidableTokens"; "avoidableUsd"].

Definition corpusKeys : list string :=
  ["schema"; "takenAt"; "tasks"; "totalUsd"; "rebilledUsd"; "rebilledShare"; "medianTaskUsd"; "pricedAt"; "rulesVersion";
   "unpriced"; "cacheBreaks"; "reReads"; "errorShare"; "sourceTag"; "tagBasis"; "binaryVersion"; "commit"; "pricingDigest";
   "digest"].

Definition named_in (names : list string) (k : string) : bool := existsb (String.eqb k) names.

(** The keys of a document, decoded as [map[string]json.RawMessage]. *)
Definition keys_of (raw : bytes) : list string :=
  match parse raw with Some (Object _) => List.map fst (members raw) | _ => [] end.

Definition unknownKeys (keys allowed : list string) : list string := List.filter (fun k => negb (named_in allowed k)) keys.

Section decode.
Context (ParseFloat : string -> option float64).

Definition into_float : decoded float64 := Codex.into_float ParseFloat.

Definition set_corpus (tag : string) : decoded Corpus := fun raw c =>
  let 'mkCorpus s t n a b e m p r u x y z g k v w h d := c in
  if String.eqb tag "schema" then (fun o => mkCorpus o t n a b e m p r u x y z g k v w h d) <$> into_string raw s
  else if String.eqb tag "takenAt" then (fun o => mkCorpus s o n a b e m p r u x y z g k v w h d) <$> into_string raw t
  else if String.eqb tag "tasks" then (fun o => mkCorpus s t o a b e m p r u x y z g k v w h d) <$> into_int raw n
  else if String.eqb tag "totalUsd" then (fun o => mkCorpus s t n o b e m p r u x y z g k v w h d) <$> into_float raw a
  else if String.eqb tag "rebilledUsd" then (fun o => mkCorpus s t n a o e m p r u x y z g k v w h d) <$> into_float raw b
  else if String.eqb tag "rebilledShare" then (fun o => mkCorpus s t n a b o m p r u x y z g k v w h d) <$> into_float raw e
  else if String.eqb tag "medianTaskUsd" then (fun o => mkCorpus s t n a b e o p r u x y z g k v w h d) <$> into_float raw m
  else if String.eqb tag "pricedAt" then (fun o => mkCorpus s t n a b e m o r u x y z g k v w h d) <$> into_string raw p
  else if String.eqb tag "rulesVersion" then (fun o => mkCorpus s t n a b e m p o u x y z g k v w h d) <$> into_string raw r
  else if String.eqb tag "unpriced" then (fun o => mkCorpus s t n a b e m p r o x y z g k v w h d) <$> into_int raw u
  else if String.eqb tag "cacheBreaks" then (fun o => mkCorpus s t n a b e m p r u o y z g k v w h d) <$> into_pointer 0 into_int raw x
  else if String.eqb tag "reReads" then (fun o => mkCorpus s t n a b e m p r u x o z g k v w h d) <$> into_pointer 0 into_int raw y
  else if String.eqb tag "errorShare" then (fun o => mkCorpus s t n a b e m p r u x y o g k v w h d) <$> into_pointer f0 into_float raw z
  else if String.eqb tag "sourceTag" then (fun o => mkCorpus s t n a b e m p r u x y z o k v w h d) <$> into_string raw g
  else if String.eqb tag "tagBasis" then (fun o => mkCorpus s t n a b e m p r u x y z g o v w h d) <$> into_string raw k
  else if String.eqb tag "binaryVersion" then (fun o => mkCorpus s t n a b e m p r u x y z g k o w h d) <$> into_string raw v
  else if String.eqb tag "commit" then (fun o => mkCorpus s t n a b e m p r u x y z g k v o h d) <$> into_string raw w
  else if String.eqb tag "pricingDigest" then (fun o => mkCorpus s t n a b e m p r u x y z g k v w o d) <$> into_string raw h
  else (fun o => mkCorpus s t n a b e m p r u x y z g k v w h o) <$> into_string raw d.

Definition into_plain_corpus : decoded Corpus := into_struct corpusKeys set_corpus.

(** [Corpus.UnmarshalJSON]: no retired name, every measured figure present, no
    key the type does not have. *)
Definition UnmarshalCorpus (raw : bytes) : option Corpus :=
  let keys := keys_of raw in
  if existsb (fun old => named_in keys old) renamedCorpusFields then None
  else if negb (forallb (fun need => named_in keys need) ["rebilledUsd"; "rebilledShare"; "tasks"; "totalUsd"; "medianTaskUsd"]) then None
  else match unknownKeys keys corpusKeys with
       | [] => into_plain_corpus raw zero_corpus
       | _ => None
       end.

End decode.

(** ** What may be pooled *)

Inductive invalid := OldSchema | NoDigest | NoTasks | NoSpend | NoTable | NoTag | BadBasis.

Definition Validate (c : Corpus) : option invalid :=
  if negb (String.eqb (c_Schema c) CorpusSchema) then Some OldSchema
  else if String.eqb (c_Digest c) "" then Some NoDigest
  else if c_Tasks c <=? 0 then Some NoTasks
  else if fleb (c_TotalUSD c) f0 then Some NoSpend
  else if String.eqb (c_PricedAt c) "" || String.eqb (c_RulesVersion c) "" then Some NoTable
  else if String.eqb (c_SourceTag c) "" || String.eqb (c_TagBasis c) "" then Some NoTag
  else if ValidBasis (c_TagBasis c) then None else Some BadBasis.

Definition corpusFileName (c : Corpus) : string :=
  "replay-corpus-" ++ safe (c_SourceTag c) ++ "-" ++ safe (to_byte 12 (c_Digest c)) ++ ".json".

(** The files of a directory that hold earlier submissions of a tag. *)
Definition EarlierSubmissions (names : list (string * bool)) (tag exclude : string) : list string :=
  let p := ("replay-corpus-" ++ safe tag ++ "-")%string in
  List.map fst (List.filter (fun '(name, is_dir) =>
    negb is_dir && negb (String.eqb name (path_Base exclude)) && has_prefix p name &&
    negb (String.eqb (TrimSuffix name ".json") name)) names).

(** What stands at the path a submission would be written to. *)
Inductive at_path := Free | Link | Taken | NoAccess.

Definition WriteCorpus (at_ : string -> at_path) (c : Corpus) : option string :=
  match Validate c with
  | Some _ => None
  | None => match at_ (corpusFileName c) with Free => Some (corpusFileName c) | _ => None end
  end.

Section digest.
Context (sha256hex : string -> string) (marshal : Corpus -> string).

Definition Digested (c : Corpus) : Corpus := with_digest c (sha256hex (marshal (with_digest c ""))).

End digest.

End Corpus.

(** ** The pool *)

Module Pool.
Import Json JsonValue RawJson Observation Corpus.

#[local] Abbreviation length := List.length.

Definition PoolSchema : string := "replay.pool.v2".

Record PoolEntry := mkEntry {
  SourceTag : string; TagBasis : string; Digest : string; File : string; TakenAt : string;
  Tasks : Z; TotalUSD : float64; RebilledUSD : float64; RebilledShare : float64; MedianTaskUSD : float64;
  PricedAt : string; RulesVersion : string; Unpriced : Z;
  CacheBreaks : option Z; ReReads : option Z; BinaryVersion : string; PricingDigest : string
}.

Record Pool := mkPool { p_Schema : string; PooledAt : string; Roster : list PoolEntry; Superseded : list PoolEntry }.

Definition NewPool (pooledAt : string) : Pool := mkPool PoolSchema pooledAt [] [].

Inductive refusal := Invalid (i : invalid) | ChangedSince | AlreadyCounted | OtherRules | SameTime.

Definition incoming (c : Corpus) (file : string) : PoolEntry :=
  mkEntry (c_SourceTag c) (c_TagBasis c) (c_Digest c) file (c_TakenAt c) (c_Tasks c) (c_TotalUSD c) (c_RebilledUSD c)
    (c_RebilledShare c) (c_MedianTaskUSD c) (c_PricedAt c) (c_RulesVersion c) (c_Unpriced c) (c_CacheBreaks c) (c_ReReads c)
    (c_BinaryVersion c) (c_PricingDigest c).

(** The row of a tag, with the rows before and after it. *)
Fixpoint row_of (tag : string) (before roster : list PoolEntry) : option (list PoolEntry * PoolEntry * list PoolEntry) :=
  match roster with
  | [] => None
  | e :: roster => if String.eqb (SourceTag e) tag then Some (before, e, roster) else row_of tag (before ++ [e]) roster
  end.

(** A submission finds the row of its tag taken, replaces an older one or is
    itself the older one. *)
Definition place (p : Pool) (x : PoolEntry) : Pool + refusal :=
  let 'mkPool s at_ roster old := p in
  match row_of (SourceTag x) [] roster with
  | Some (before, e, after) =>
      if String.eqb (TakenAt e) (TakenAt x) then inr SameTime
      else if String.ltb (TakenAt x) (TakenAt e) then inl (mkPool s at_ roster (old ++ [x]))
      else inl (mkPool s at_ (before ++ x :: after) (old ++ [e]))
  | None => inl (mkPool s at_ (roster ++ [x]) old)
  end.

Definition other_rules (p : Pool) (c : Corpus) : bool :=
  match Roster p with e :: _ => negb (String.eqb (RulesVersion e) (c_RulesVersion c)) | [] => false end.

Section add.
Context (sha256hex : string -> string) (marshal : Corpus -> string).

Definition Add (p : Pool) (c : Corpus) (file : string) : Pool + refusal :=
  match Validate c with
  | Some i => inr (Invalid i)
  | None =>
      if negb (String.eqb (c_Digest (Digested sha256hex marshal c)) (c_Digest c)) then inr ChangedSince
      else if existsb (fun e => String.eqb (Digest e) (c_Digest c)) (Roster p) then inr AlreadyCounted
      else if other_rules p c then inr OtherRules
      else place p (incoming c (if String.eqb file "" then corpusFileName c else file))
  end.

(** The files of [replay pool], in the order they are given: a refused one is
    reported and left out. *)
Definition add_file (p : Pool) (s : Corpus * string) : Pool :=
  match Add p s.1 s.2 with inl p' => p' | inr _ => p end.

Definition add_files (p : Pool) (subs : list (Corpus * string)) : Pool := fold_left add_file subs p.

End add.

(** ** The totals *)

Record PoolTotals := mkTotals {
  t_Submissions : Z; DistinctTags : Z; SupersededSubmissions : Z;
  t_Tasks : Z; t_TotalUSD : float64; t_RebilledUSD : float64; t_RebilledShare : float64; t_Unpriced : Z;
  MedianLow : float64; MedianHigh : float64; t_RulesVersion : string;
  t_CacheBreaks : option Z; t_ReReads : option Z; BreaksReportedBy : Z; BreaksTasks : Z;
  PricedAtLow : string; PricedAtHigh : string; PricedAtDistinct : Z
}.

Definition plus (t x : option Z) : option Z :=
  match x with Some n => Some (default 0 t +! n) | None => t end.

Definition total_step (t : PoolTotals) (e : PoolEntry) : PoolTotals :=
  let 'mkTotals n dt sn tk us rb sh un lo hi rv cb rr by_ bt pl ph pd := t in
  let reported := bool_decide (is_Some (CacheBreaks e)) || bool_decide (is_Some (ReReads e)) in
  mkTotals n dt sn (tk +! Tasks e) (fadd us (TotalUSD e)) (fadd rb (RebilledUSD e)) sh (un +! Unpriced e)
    (if fltb (MedianTaskUSD e) lo then MedianTaskUSD e else lo) (if fltb hi (MedianTaskUSD e) then MedianTaskUSD e else hi) rv
    (plus cb (CacheBreaks e)) (plus rr (ReReads e))
    (if reported then by_ +! 1 else by_) (if reported then bt +! Tasks e else bt)
    (if String.ltb (PricedAt e) pl then PricedAt e else pl) (if String.ltb ph (PricedAt e) then PricedAt e else ph) pd.

Definition distinct (l : list string) : Z := Z.of_nat (size (list_to_set l : gset string)).

Definition Totals (p : Pool) : option PoolTotals :=
  match Roster p with
  | [] => None
  | first :: _ =>
      let t0 := mkTotals (Z.of_nat (length (Roster p))) 0 (Z.of_nat (length (Superseded p))) 0 f0 f0 f0 0
                  (MedianTaskUSD first) (MedianTaskUSD first) (RulesVersion first) None None 0 0
                  (PricedAt first) (PricedAt first) 0 in
      let 'mkTotals n _ sn tk us rb sh un lo hi rv cb rr by_ bt pl ph _ := fold_left total_step (Roster p) t0 in
      Some (mkTotals n (distinct (List.map SourceTag (Roster p))) sn tk us rb (if fltb f0 us then fdiv rb us else sh) un
              lo hi rv cb rr by_ bt pl ph (distinct (List.map PricedAt (Roster p))))
  end.

(** ** Reading a pool back *)

Definition poolEntryKeys : list string :=
  ["sourceTag"; "tagBasis"; "digest"; "file"; "takenAt"; "tasks"; "totalUsd"; "rebilledUsd"; "rebilledShare"; "medianTaskUsd";
   "pricedAt"; "rulesVersion"; "unpriced"; "cacheBreaks"; "reReads"; "binaryVersion"; "pricingDigest"].

Section decode.
Context (ParseFloat : string -> option float64).

Definition set_entry (tag : string) : decoded PoolEntry := fun raw e =>
  let 'mkEntry g k d f t n a b s m p r u x y v h := e in
  let float := Corpus.into_float ParseFloat in
  if String.eqb tag "sourceTag" then (fun o => mkEntry o k d f t n a b s m p r u x y v h) <$> into_string raw g
  else if String.eqb tag "tagBasis" then (fun o => mkEntry g o d f t n a b s m p r u x y v h) <$> into_string raw k
  else if String.eqb tag "digest" then (fun o => mkEntry g k o f t n a b s m p r u x y v h) <$> into_string raw d
  else if String.eqb tag "file" then (fun o => mkEntry g k d o t n a b s m p r u x y v h) <$> into_string raw f
  else if String.eqb tag "takenAt" then (fun o => mkEntry g k d f o n a b s m p r u x y v h) <$> into_string raw t
  else if String.eqb tag "tasks" then (fun o => mkEntry g k d f t o a b s m p r u x y v h) <$> into_int raw n
  else if String.eqb tag "totalUsd" then (fun o => mkEntry g k d f t n o b s m p r u x y v h) <$> float raw a
  else if String.eqb tag "rebilledUsd" then (fun o => mkEntry g k d f t n a o s m p r u x y v h) <$> float raw b
  else if String.eqb tag "rebilledShare" then (fun o => mkEntry g k d f t n a b o m p r u x y v h) <$> float raw s
  else if String.eqb tag "medianTaskUsd" then (fun o => mkEntry g k d f t n a b s o p r u x y v h) <$> float raw m
  else if String.eqb tag "pricedAt" then (fun o => mkEntry g k d f t n a b s m o r u x y v h) <$> into_string raw p
  else if String.eqb tag "rulesVersion" then (fun o => mkEntry g k d f t n a b s m p o u x y v h) <$> into_string raw r
  else if String.eqb tag "unpriced" then (fun o => mkEntry g k d f t n a b s m p r o x y v h) <$> into_int raw u
  else if String.eqb tag "cacheBreaks" then (fun o => mkEntry g k d f t n a b s m p r u o y v h) <$> into_pointer 0 into_int raw x
  else if String.eqb tag "reReads" then (fun o => mkEntry g k d f t n a b s m p r u x o v h) <$> into_pointer 0 into_int raw y
  else if String.eqb tag "binaryVersion" then (fun o => mkEntry g k d f t n a b s m p r u x y o h) <$> into_string raw v
  else (fun o => mkEntry g k d f t n a b s m p r u x y v o) <$> into_string raw h.

Definition zero_entry : PoolEntry := mkEntry "" "" "" "" "" 0 f0 f0 f0 f0 "" "" 0 None None "" "".

(** [PoolEntry.UnmarshalJSON] *)
Definition into_entry : decoded PoolEntry := fun raw _ =>
  let keys := keys_of raw in
  match unknownKeys keys poolEntryKeys with
  | [] =>
      if existsb (fun old => named_in keys old) renamedCorpusFields then None
      else if negb (forallb (fun need => named_in keys need) ["rebilledUsd"; "rebilledShare"; "tasks"; "totalUsd"]) then None
      else into_struct poolEntryKeys set_entry raw zero_entry
  | _ => None
  end.

(** [Pool.UnmarshalJSON] *)
Definition UnmarshalPool (raw : bytes) : option Pool :=
  p ← into_struct ["schema"; "pooledAt"; "roster"; "superseded"] (fun tag raw p =>
        let 'mkPool s a r o := p in
        if String.eqb tag "schema" then (fun x => mkPool x a r o) <$> into_string raw s
        else if String.eqb tag "pooledAt" then (fun x => mkPool s x r o) <$> into_string raw a
        else if String.eqb tag "roster" then (fun x => mkPool s a x o) <$> into_list zero_entry into_entry raw r
        else (fun x => mkPool s a r x) <$> into_list zero_entry into_entry raw o)
      raw (mkPool "" "" [] []);
  if String.eqb (p_Schema p) PoolSchema then Some p else None.

End decode.

End Pool.

(** ** Calibrations *)

Module Calibration_.
Import Observation.

Definition CalibrationSchema : string := "replay.calibration.v1".

Record ModelCalibrationRow := mkRow {
  Model : string; Sessions : Z; Compared : Z; Matched : Z; Exact : Z;
  RuleMinPrefix : Z; LargestUncached : Z; SmallestCached : Z; Stale : bool;
  FitTokensPerByte : option float64; FitErrorPct : option float64
}.

Record Calibration := mkCalibration {
  cal_Schema : string; cal_TakenAt : string; cal_RulesVersion : string; ClientVersions : list string;
  Models : list ModelCalibrationRow; BreakCauses : gmap string Z;
  cal_SourceTag : string; cal_TagBasis : string; cal_Digest : string
}.

(** A row that describes something a run can have shown. *)
Definition row_ok (m : ModelCalibrationRow) : bool :=
  negb (String.eqb (Model m) "")
  && negb ((Compared m <? 0) || (Matched m <? 0) || (Sessions m <? 0) || (Exact m <? 0))
  && (Matched m <=? Compared m) && (Exact m <=? Matched m).

Definition ValidateCalibration (c : Calibration) : bool :=
  String.eqb (cal_Schema c) CalibrationSchema
  && negb (String.eqb (cal_Digest c) "") && negb (String.eqb (cal_RulesVersion c) "")
  && negb (String.eqb (cal_SourceTag c) "" || String.eqb (cal_TagBasis c) "")
  && negb (List.length (Models c) =? 0)%nat && ValidBasis (cal_TagBasis c)
  && forallb row_ok (Models c)
  && negb (fold_left (fun n m => n +! Compared m) (Models c) 0 =? 0).

End Calibration_.

(** ** Watch records *)

Module Watch.
Import Consent.

Definition WatchSchema : string := "replay.watch.v1".
Definition watchCauses : list string := ["rerender"; "ttlExpiry"; "toolChange"; "systemChange"; "modelSwitch"; "unknown"].

Record Watch := mkWatch {
  w_Schema : string; Repo : string; SessionTag : string; StartedAt : string; EndedAt : string;
  Provider : string; w_Model : string; Lanes : Z; Turns : Z; w_TotalUSD : float64; w_RebilledUSD : float64;
  RebilledTokens : Z; BreaksByCause : gmap string Z; IdleGapsOverTTL : Z; w_Compactions : Z;
  w_BinaryVersion : string; w_Commit : string; w_PricingDigest : string; w_RulesVersion : string; w_Digest : string
}.

Definition with_name (w : Watch) (d : string) : Watch :=
  let 'mkWatch s r t a b p m l n u v k c i q x y z o _ := w in mkWatch s r t a b p m l n u v k c i q x y z o d.

(** The rune tests are on bytes: a rune outside ASCII passes none of them. *)
Definition isRepoKeyRune (c : ascii) : bool :=
  is_lower c || is_digit c || Ascii.eqb c "." || Ascii.eqb c "-" || Ascii.eqb c "_".

Definition isVersionSuffixRune (c : ascii) : bool :=
  is_digit c || is_lower c || is_upper c || Ascii.eqb c "." || Ascii.eqb c "-".

Definition valid_segment (seg : string) : bool :=
  negb (String.eqb seg "" || (64 <? len seg) || String.eqb seg "." || String.eqb seg "..") && string_forallb isRepoKeyRune seg.

Definition validWatchRepo (s : string) : bool :=
  let segs := Split1 "/" s in
  (List.length segs <=? 2)%nat && forallb valid_segment segs.

Definition isLowerHex (s : string) (atLeast atMost : Z) : bool :=
  (atLeast <=? len s) && (len s <=? atMost) && string_forallb (fun c => is_digit c || char_between "a" "f" c) s.

Definition valid_number (part : string) : bool :=
  negb (String.eqb part "" || (10 <? len part)) && string_forallb is_digit part.

Definition validBinaryVersion (s : string) : bool :=
  let s := TrimPrefix s "v" in
  let '(core, suffix) := match Cut "-" s with Some (a, b) => (a, Some b) | None => (s, None) end in
  match suffix with Some x => negb (String.eqb x "") && string_forallb isVersionSuffixRune x | None => true end
  && (List.length (Split1 "." core) =? 3)%nat && forallb valid_number (Split1 "." core).

Definition validPricingDigest (s : string) : bool :=
  has_prefix "p" s && isLowerHex (from_byte 1 s) 12 12.

Definition has_suffix (s suffix : string) : bool := negb (String.eqb (TrimSuffix s suffix) s).

Definition on_the_hour (ts : string) : bool := negb (String.eqb ts "") && has_suffix ts ":00:00Z".

Definition ValidateWatch (w : Watch) : bool :=
  String.eqb (w_Schema w) WatchSchema && negb (String.eqb (Repo w) "") && validWatchRepo (Repo w)
  && forallb (fun kv => Corpus.named_in watchCauses kv.1) (map_to_list (BreaksByCause w))
  && negb (String.eqb (SessionTag w) "") && negb (Turns w =? 0)
  && on_the_hour (StartedAt w) && on_the_hour (EndedAt w)
  && negb (String.eqb (w_BinaryVersion w) "") && negb (String.eqb (w_PricingDigest w) "") && negb (String.eqb (w_RulesVersion w) "")
  && validBinaryVersion (w_BinaryVersion w) && isLowerHex (w_Commit w) 7 40 && validPricingDigest (w_PricingDigest w)
  && negb (String.eqb (w_Digest w) "").

Section build.
Context (sha256hex : string -> string) (hmachex : string -> string -> string) (marshal : Watch -> string).

Definition WatchSessionTag (repoKey sessionID : string) : string :=
  to_byte 16 (hmachex ("replay.watch.sessiontag.v1" ++ NUL ++ repoKey)%string sessionID).

Definition DigestedWatch (w : Watch) : Watch := with_name w (sha256hex (marshal (with_name w ""))).

Definition BuildWatch (d : Decision_) (w : Watch) : option Watch :=
  if negb (Allowed d) then None
  else let out := DigestedWatch w in if ValidateWatch out then Some out else None.

End build.

End Watch.

(** ** What a pool counts *)

Module PoolSpec.
Import Corpus Pool.

#[local] Abbreviation length := List.length.

Definition earlier (x e : PoolEntry) : Prop := String.ltb (TakenAt x) (TakenAt e) = true.

Lemma earlier_irrefl e : ~ earlier e e.
Proof. unfold earlier. intros H. pose proof (string_ltb_asym _ _ H). congruence. Qed.

Lemma earlier_trans x y z : earlier x y -> earlier y z -> earlier x z.
Proof. apply string_ltb_trans. Qed.

Lemma row_of_some tag : forall roster before b e a,
  row_of tag before roster = Some (b, e, a) -> before ++ roster = b ++ e :: a /\ SourceTag e = tag.
Proof.
  induction roster as [|x roster IH]; intros before b e a; cbn [row_of]; [done|].
  destruct (String.eqb_spec (SourceTag x) tag) as [E|E]; [by intros; simplify_eq|].
  intros H. apply IH in H. by rewrite <- app_assoc in H.
Qed.

Lemma row_of_none tag : forall roster before,
  row_of tag before roster = None -> forall e, e ∈ roster -> SourceTag e <> tag.
Proof.
  induction roster as [|x roster IH]; intros before; cbn [row_of]; [by intros _ e H%elem_of_nil|].
  destruct (String.eqb_spec (SourceTag x) tag) as [E|E]; [done|].
  intros H e [->|He]%elem_of_cons; [done|]. by eapply IH.
Qed.

Lemma total_steps roster : forall t,
  t_Submissions (fold_left total_step roster t) = t_Submissions t.
Proof. induction roster as [|e roster IH]; intros t; [done|]. cbn [fold_left]. rewrite IH. by destruct t. Qed.

Lemma total_submissions p t : Totals p = Some t -> t_Submissions t = Z.of_nat (length (Roster p)).
Proof.
  unfold Totals. destruct (Roster p) as [|e r] eqn:E; [done|].
  match goal with |- context [fold_left total_step ?l ?t0] => pose proof (total_steps l t0) as S; destruct (fold_left total_step l t0) end.
  intros; simplify_eq. exact S.
Qed.

Lemma total_tags p t : Totals p = Some t -> DistinctTags t = distinct (List.map SourceTag (Roster p)).
Proof.
  unfold Totals. destruct (Roster p) as [|e r] eqn:E; [done|]. destruct (fold_left total_step _ _). intros; by simplify_eq.
Qed.

(** What holds of a pool that took these rows in. *)
Record pool_ok (p : Pool) (taken : list PoolEntry) : Prop := {
  nothing_lost : Roster p ++ Superseded p ≡ₚ taken;
  one_row_each : NoDup (List.map SourceTag (Roster p));
  one_digest_each : NoDup (List.map Digest (Roster p));
  later_exists : forall x, x ∈ Superseded p -> exists e, e ∈ Roster p /\ SourceTag e = SourceTag x /\ earlier x e;
  one_table : forall x y, x ∈ taken -> y ∈ taken -> RulesVersion x = RulesVersion y
}.

Lemma rows_taken p taken e : pool_ok p taken -> e ∈ Roster p -> e ∈ taken.
Proof. intros O H. rewrite <- (nothing_lost p taken O). apply elem_of_app. by left. Qed.

(** A pool with rows has rows on its roster. *)
Lemma roster_first p taken x :
  pool_ok p taken -> x ∈ taken -> exists e roster, Roster p = e :: roster /\ RulesVersion e = RulesVersion x.
Proof.
  intros O H. destruct (Roster p) as [|e roster] eqn:E.
  - rewrite <- (nothing_lost p taken O), E in H. apply (later_exists p taken O) in H as (e & He & _).
    rewrite E in He. by apply elem_of_nil in He.
  - exists e, roster. split; [done|]. apply (one_table p taken O); [|done]. apply (rows_taken p taken e O). rewrite E. by left.
Qed.

Lemma NoDup_replace {A B} (f : A -> B) b e x a :
  NoDup (List.map f (b ++ e :: a)) -> (f x = f e \/ f x ∉ List.map f (b ++ e :: a)) -> NoDup (List.map f (b ++ x :: a)).
Proof.
  rewrite !map_app. cbn [List.map]. rewrite !NoDup_app, !NoDup_cons. intros (Nb & D & Ne & Na) H.
  rewrite elem_of_app, elem_of_cons in H.
  split_and!; [done | | | done].
  - intros y Hy [->|Hy']%elem_of_cons; [|by apply (D y); [|right]].
    destruct H as [H|H]; [|by apply H; left]. rewrite H in Hy. apply (D _ Hy). by left.
  - intros Hy. destruct H as [H|H]; [by rewrite H in Hy|]. apply H. right. by right.
Qed.

Lemma place_ok p taken x p' :
  pool_ok p taken -> Digest x ∉ List.map Digest (Roster p) ->
  (match Roster p with e :: _ => RulesVersion e = RulesVersion x | [] => True end) ->
  place p x = inl p' -> pool_ok p' (taken ++ [x]).
Proof.
  intros O Dx Rx P. destruct p as [s at_ roster old]. unfold place in P. cbn [Roster] in *.
  assert (T : forall y z, y ∈ taken ++ [x] -> z ∈ taken ++ [x] -> RulesVersion y = RulesVersion z).
  { assert (G : forall y, y ∈ taken ++ [x] -> RulesVersion y = RulesVersion x).
    { intros y [Hy|Hy%list_elem_of_singleton]%elem_of_app; [|by subst].
      destruct (roster_first _ _ _ O Hy) as (e & r & E & <-). cbn in E. by subst. }
    intros y z Hy Hz. by rewrite (G y Hy), (G z Hz). }
  destruct O as [L N D E _]. cbn [Roster Superseded] in *.
  destruct (row_of (SourceTag x) [] roster) as [[[b e] a]|] eqn:R.
  - apply row_of_some in R as [Er Re]. cbn [app] in Er. subst roster.
    destruct (String.eqb_spec (TakenAt e) (TakenAt x)) as [|Ne]; [done|].
    destruct (String.ltb (TakenAt x) (TakenAt e)) eqn:Lt; simplify_eq; split; cbn [Roster Superseded]; try done.
    + by rewrite app_assoc, L.
    + intros y [Hy|Hy%list_elem_of_singleton]%elem_of_app; [by apply E|]. subst y. exists e.
      split_and!; [apply elem_of_app; right; by left | done | done].
    + rewrite <- L. solve_Permutation.
    + apply (NoDup_replace SourceTag b e x a N). by left.
    + apply (NoDup_replace Digest b e x a D). by right.
    + assert (Later : earlier e x).
      { unfold earlier. destruct (String.ltb (TakenAt e) (TakenAt x)) eqn:Gt; [done|]. by destruct Ne; apply string_ltb_tie. }
      intros y [Hy|Hy%list_elem_of_singleton]%elem_of_app.
      * apply E in Hy as (e' & He' & Te & Le). destruct (decide (SourceTag e' = SourceTag e)) as [Same|Other].
        -- exists x. split_and!; [apply elem_of_app; right; by left | congruence |].
           assert (e' = e) as ->; [|by eapply earlier_trans].
           clear -N He' Same. apply list_elem_of_lookup in He' as [i Hi].
           assert (Hj : (b ++ e :: a) !! length b = Some e) by (by rewrite list_lookup_middle).
           assert (i = length b) as ->; [|congruence].
           eapply (NoDup_lookup (List.map SourceTag (b ++ e :: a))); [done| |];
             change (List.map SourceTag) with (fmap (M := list) SourceTag); rewrite list_lookup_fmap; [by rewrite Hi|].
           rewrite Hj. cbn. by rewrite Same.
        -- exists e'. split; [|done]. apply elem_of_app in He' as [He'|[->|He']%elem_of_cons]; [|done|];
             apply elem_of_app; [by left | right; by right].
      * subst y. exists x. split_and!; [apply elem_of_app; right; by left | done | done].
  - simplify_eq. pose proof (row_of_none _ _ _ R) as No. split; cbn [Roster Superseded]; try done.
    + rewrite <- L. solve_Permutation.
    + rewrite map_app. apply NoDup_app. split_and!; [done | | apply NoDup_singleton].
      intros t Ht ->%list_elem_of_singleton. apply list_elem_of_fmap in Ht as (e & He & Hin). by apply (No e Hin).
    + rewrite map_app. apply NoDup_app. split_and!; [done | | apply NoDup_singleton].
      by intros t Ht ->%list_elem_of_singleton.
    + intros y Hy. apply E in Hy as (e & He & X). exists e. split; [|done]. apply elem_of_app. by left.
Qed.

Section pool.
Context (sha256hex : string -> string) (marshal : Corpus -> string).

#[local] Abbreviation Add := (Add sha256hex marshal).
#[local] Abbreviation add_files := (add_files sha256hex marshal).

(** The row a submission is offered as. *)
Definition offered (s : Corpus * string) : PoolEntry :=
  incoming s.1 (if String.eqb s.2 "" then corpusFileName s.1 else s.2).

(** The rows of the files that were not refused, in the order given. *)
Fixpoint accepted (p : Pool) (subs : list (Corpus * string)) : list PoolEntry :=
  match subs with
  | [] => []
  | s :: subs => match Add p s.1 s.2 with inl p' => offered s :: accepted p' subs | inr _ => accepted p subs end
  end.

Lemma Add_pool_ok p taken s p' : pool_ok p taken -> Add p s.1 s.2 = inl p' -> pool_ok p' (taken ++ [offered s]).
Proof.
  intros O. unfold Pool.Add. destruct (Validate s.1); [done|]. destruct (negb _); [done|].
  destruct (existsb _ _) eqn:X; [done|]. destruct (other_rules p s.1) eqn:R; [done|].
  apply (place_ok p taken (offered s) p' O).
  - intros Hin. apply list_elem_of_fmap in Hin as (e & He & Hin). apply not_true_iff_false in X. apply X.
    apply existsb_exists. exists e. split; [by apply list_elem_of_In|]. by apply String.eqb_eq.
  - unfold other_rules in R. destruct (Roster p) as [|e r]; [done|]. apply negb_false_iff, String.eqb_eq in R. done.
Qed.

Lemma add_files_ok : forall subs p taken, pool_ok p taken -> pool_ok (add_files p subs) (taken ++ accepted p subs).
Proof.
  induction subs as [|s subs IH]; intros p taken O; [by rewrite app_nil_r|]. cbn [accepted].
  unfold Pool.add_files. cbn [fold_left]. unfold add_file at 2. destruct (Add p s.1 s.2) as [p'|] eqn:A.
  - rewrite cons_middle, app_assoc. apply IH. by eapply Add_pool_ok.
  - by apply IH.
Qed.

Lemma NewPool_ok at_ : pool_ok (NewPool at_) [].
Proof. split; cbn; [done | constructor | constructor | by intros ? ?%elem_of_nil | by intros ? ? ?%elem_of_nil]. Qed.

(** The rows counted, without the pool: of each tag the one taken last. *)
Definition latest (taken : list PoolEntry) (e : PoolEntry) : Prop :=
  e ∈ taken /\ forall x, x ∈ taken -> SourceTag x = SourceTag e -> x = e \/ earlier x e.

Lemma roster_latest p taken : pool_ok p taken -> forall e, e ∈ Roster p <-> latest taken e.
Proof.
  intros O e. split.
  - intros He. split; [by eapply rows_taken|]. intros x Hx T.
    rewrite <- (nothing_lost p taken O) in Hx. apply elem_of_app in Hx.
    assert (Uniq : forall y, y ∈ Roster p -> SourceTag y = SourceTag e -> y = e).
    { intros y Hy Ty. apply list_elem_of_lookup in Hy as [i Hi]. apply list_elem_of_lookup in He as [j Hj].
      assert (i = j) as ->; [|congruence]. eapply (NoDup_lookup _ _ _ _ (one_row_each p taken O));
        change (List.map SourceTag) with (fmap (M := list) SourceTag); rewrite list_lookup_fmap; [by rewrite Hi|].
      rewrite Hj. cbn. by rewrite Ty. }
    destruct Hx as [Hx|Hx]; [left; by apply Uniq|]. right.
    apply (later_exists p taken O) in Hx as (y & Hy & Ty & L). by rewrite <- (Uniq y Hy (eq_trans Ty T)).
  - intros [He M]. rewrite <- (nothing_lost p taken O) in He. apply elem_of_app in He as [He|He]; [done|].
    apply (later_exists p taken O) in He as (y & Hy & Ty & L).
    destruct (M y (rows_taken p taken y O Hy) Ty) as [->|L']; [done|].
    exfalso. apply (earlier_irrefl e). by eapply earlier_trans.
Qed.

(** C27: a pool counts each machine once. Of the files that were not refused
    none is lost; the rows that count are, of each tag, the one whose time
    stands last, times being compared as the texts they are, one row a tag and
    no content in two rows, all scored under one table. The rest are kept as
    superseded, an older file as often as it is given. So the order the files
    are given in changes nothing of what counts, and the number of submissions
    a total states is the number of its tags. *)
Theorem a_pool_counts_each_machine_once at_ subs :
  let p := add_files (NewPool at_) subs in
  let taken := accepted (NewPool at_) subs in
  Roster p ++ Superseded p ≡ₚ taken /\
  (forall e, e ∈ Roster p <-> latest taken e) /\
  NoDup (List.map SourceTag (Roster p)) /\ NoDup (List.map Digest (Roster p)) /\
  (forall x y, x ∈ taken -> y ∈ taken -> RulesVersion x = RulesVersion y) /\
  (forall subs', accepted (NewPool at_) subs' ≡ₚ taken -> Roster (add_files (NewPool at_) subs') ≡ₚ Roster p) /\
  (forall t, Totals p = Some t -> t_Submissions t = DistinctTags t).
Proof.
  intros p taken.
  assert (O : forall subs', pool_ok (add_files (NewPool at_) subs') (accepted (NewPool at_) subs'))
    by (intros subs'; exact (add_files_ok subs' _ _ (NewPool_ok at_))).
  split_and!; [apply (O subs) | apply (roster_latest _ _ (O subs)) | apply (O subs) | apply (O subs) | apply (O subs) | |].
  - intros subs' P. apply NoDup_Permutation;
      [apply (NoDup_fmap_1 SourceTag), (O subs') | apply (NoDup_fmap_1 SourceTag), (O subs) |].
    intros e. rewrite (roster_latest _ _ (O subs') e). rewrite (roster_latest p taken (O subs) e). unfold latest.
    by setoid_rewrite P.
  - intros t T. rewrite (total_submissions p t T), (total_tags p t T). unfold distinct.
    rewrite size_list_to_set by apply (O subs). by rewrite length_map.
Qed.

End pool.

End PoolSpec.

(** ** What consent is *)

Module ConsentSpec.
Import Consent.

Definition says (key : string) (w : State) : string :=
  match w with Granted => (key ++ " = true")%string | _ => (key ++ " = false")%string end.

Definition silent (l : string) : bool := String.eqb l "" || has_prefix "#" l.

Lemma said_cons l ls :
  List.filter (fun l => negb (silent l)) (List.map Labels.TrimSpace (l :: ls)) =
  if silent (Labels.TrimSpace l) then List.filter (fun l => negb (silent l)) (List.map Labels.TrimSpace ls)
  else Labels.TrimSpace l :: List.filter (fun l => negb (silent l)) (List.map Labels.TrimSpace ls).
Proof. cbn. by destruct (silent _). Qed.

(** A decision read is what every line that says something says. *)
Lemma read_lines_says key : forall ls found w,
  read_lines key found ls = Some (Some w) ->
  Forall (eq (says key w)) (List.filter (fun l => negb (silent l)) (List.map Labels.TrimSpace ls)) /\
  (found = Some w \/ (found = None /\ List.filter (fun l => negb (silent l)) (List.map Labels.TrimSpace ls) <> [])).
Proof.
  induction ls as [|l ls IH]; intros found w H; [cbn in H; simplify_eq; split; [done|by left]|].
  rewrite said_cons. cbn [read_lines] in H. fold (silent (Labels.TrimSpace l)) in H.
  destruct (silent (Labels.TrimSpace l)); [by apply IH|].
  assert (G : forall want, Labels.TrimSpace l = says key want ->
    match found with Some w0 => if decide (w0 = want) then read_lines key (Some want) ls else None
                   | None => read_lines key (Some want) ls end = Some (Some w) ->
    want = w /\ (found = Some w \/ found = None) /\
    Forall (eq (says key w)) (List.filter (fun l => negb (silent l)) (List.map Labels.TrimSpace ls))).
  { intros want E R. destruct found as [w0|]; [case_decide; [subst w0|done]|];
      apply IH in R as [F [R|[R _]]]; simplify_eq; auto. }
  destruct (String.eqb_spec (Labels.TrimSpace l) (key ++ " = true")%string) as [E|E]; cbn in H.
  - apply (G Granted E) in H as (<- & F & A). split; [by apply Forall_cons|]. destruct F; auto.
  - destruct (String.eqb_spec (Labels.TrimSpace l) (key ++ " = false")%string) as [E'|E']; cbn in H; [|done].
    apply (G Declined E') in H as (<- & F & A). split; [by apply Forall_cons|]. destruct F; auto.
Qed.

Lemma allowed_says path key file :
  Allowed (readDecision path key file).1 = true ->
  exists body, file = Regular false (Some body) /\ said body <> [] /\ Forall (eq (key ++ " = true")%string) (said body).
Proof.
  destruct file as [| | |[] [body|]]; try done. cbn [readDecision].
  destruct (read_lines _ _ _) as [[w|]|] eqn:R; try done. cbn. intros E%bool_decide_eq_true_1. cbn in E. subst w.
  apply read_lines_says in R as [F [R|[_ N]]]; [done|]. by exists body.
Qed.

Lemma same_hour t u : u / hour = t / hour -> Observation.rfc3339_hour u = Observation.rfc3339_hour t.
Proof.
  intros H. unfold Observation.rfc3339_hour.
  assert (D : forall x, x / day_ns = x / hour / 24) by (intros x; unfold day_ns; rewrite Z.div_div by done; f_equal; lia).
  assert (M : forall x, (x mod day_ns) / hour = (x / hour) mod 24).
  { intros x. unfold day_ns. rewrite (Z.mul_comm 24), Z.rem_mul_r by done.
    rewrite (Z.mul_comm hour), Z.div_add by done. rewrite (Z.div_small (x mod hour)); [done|]. by apply Z.mod_pos_bound. }
  rewrite !M, H. rewrite (format_date_same_day u t); [done|]. unfold utc_days. by rewrite !D, H.
Qed.

Lemma list_ascii_app (a b : string) : list_ascii_of_string (a ++ b)%string = (list_ascii_of_string a ++ list_ascii_of_string b)%list.
Proof. induction a as [|c a IH]; cbn; [done|by rewrite IH]. Qed.

Lemma has_suffix_spec s suffix : Watch.has_suffix s suffix = true -> exists d, s = (d ++ suffix)%string.
Proof.
  unfold Watch.has_suffix, TrimSuffix. destruct (strip_prefix _ _) as [r|] eqn:E; [|by rewrite String.eqb_refl]. intros _.
  exists (string_of_list_ascii (rev (list_ascii_of_string r))). apply strip_prefix_spec in E.
  apply (f_equal list_ascii_of_string) in E. rewrite list_ascii_of_string_of_list_ascii, list_ascii_app, list_ascii_of_string_of_list_ascii in E.
  apply (f_equal (@rev _)) in E. rewrite rev_involutive, rev_app_distr, rev_involutive in E.
  rewrite <- (string_of_list_ascii_of_string s), E. rewrite <- (string_of_list_ascii_of_string suffix) at 2.
  generalize (rev (list_ascii_of_string r)) (list_ascii_of_string suffix). intros l k. induction l as [|c l IH]; cbn; [done|by rewrite IH].
Qed.

(** What the checks of a watch record come to. *)
Lemma valid_watch w :
  Watch.ValidateWatch w = true ->
  (exists d, Watch.StartedAt w = (d ++ ":00:00Z")%string) /\ (exists d, Watch.EndedAt w = (d ++ ":00:00Z")%string) /\
  (forall k, is_Some (Watch.BreaksByCause w !! k) -> k ∈ Watch.watchCauses) /\
  (List.length (Split1 "/" (Watch.Repo w)) <= 2)%nat /\
  Forall (fun seg => seg <> "" /\ len seg <= 64 /\ seg <> "." /\ seg <> ".." /\ string_forallb Watch.isRepoKeyRune seg = true)
    (Split1 "/" (Watch.Repo w)) /\
  7 <= len (Watch.w_Commit w) <= 40 /\
  string_forallb (fun c => is_digit c || char_between "a" "f" c) (Watch.w_Commit w) = true.
Proof.
  unfold Watch.ValidateWatch. intros V. repeat (apply andb_true_iff in V as [V ?]).
  unfold Watch.on_the_hour, Watch.validWatchRepo, Watch.isLowerHex in *.
  repeat match goal with H : _ && _ = true |- _ => apply andb_true_iff in H as [? ?] end.
  split; [by apply has_suffix_spec|]. split; [by apply has_suffix_spec|]. split_and!.
  - intros k [n Hn]. match goal with H : forallb _ (map_to_list _) = true |- _ => rewrite forallb_forall in H; specialize (H (k, n)) end.
    match goal with H : In _ _ -> _ |- _ => rewrite <- list_elem_of_In, elem_of_map_to_list in H; specialize (H Hn) end.
    unfold Corpus.named_in in *. match goal with H : existsb _ _ = true |- _ => apply existsb_exists in H as (x & Hx & E) end.
    apply String.eqb_eq in E. cbn in E. subst x. by apply list_elem_of_In.
  - by apply Nat.leb_le.
  - apply Forall_forall. intros seg Hseg. match goal with H : forallb Watch.valid_segment _ = true |- _ => rewrite forallb_forall in H; specialize (H seg) end.
    match goal with H : In _ _ -> _ |- _ => rewrite <- list_elem_of_In in H; specialize (H Hseg); rename H into S end.
    unfold Watch.valid_segment in S. apply andb_true_iff in S as [S S']. apply negb_true_iff in S.
    repeat (apply orb_false_iff in S as [S ?]). reflect_bool. split_and!; try done; by apply String.eqb_neq.
  - by apply Z.leb_le.
  - by apply Z.leb_le.
  - done.
Qed.

(** C28: nothing leaves without a recorded yes. An observation or a watch
    record is built only where the consent file is a regular file no one else
    may write, holds at least one line that says something, and every such
    line is the yes in full. An observation holds of when it was taken the hour
    and nothing finer. A watch record is the one given with its digest put in;
    of its two times only the end is looked at, which has to be that of an
    hour, [:00:00Z]; it names a repository in short plain segments, causes of
    the vocabulary, and a commit in 7 to 40 hexadecimal digits. *)
Theorem a_contribution_needs_recorded_consent parse_time now sha256hex marshal path file :
  (forall campaign tag r o,
     Observation.Build parse_time now campaign (readDecision path "corpus_opt_in" file).1 tag r = Some o ->
     (exists body, file = Regular false (Some body) /\ said body <> [] /\ Forall (eq "corpus_opt_in = true") (said body)) /\
     exists t, Observation.o_TakenAt o = Observation.rfc3339_hour t /\
               forall u, u / hour = t / hour -> Observation.rfc3339_hour u = Observation.o_TakenAt o) /\
  (forall w w', Watch.BuildWatch sha256hex marshal (readDecision path "watch_opt_in" file).1 w = Some w' ->
     (exists body, file = Regular false (Some body) /\ said body <> [] /\ Forall (eq "watch_opt_in = true") (said body)) /\
     w' = Watch.with_name w (sha256hex (marshal (Watch.with_name w ""))) /\
     (exists d, Watch.StartedAt w' = (d ++ ":00:00Z")%string) /\ (exists d, Watch.EndedAt w' = (d ++ ":00:00Z")%string) /\
     (forall k, is_Some (Watch.BreaksByCause w' !! k) -> k ∈ Watch.watchCauses) /\
     (List.length (Split1 "/" (Watch.Repo w')) <= 2)%nat /\
     Forall (fun seg => seg <> "" /\ len seg <= 64 /\ seg <> "." /\ seg <> ".." /\ string_forallb Watch.isRepoKeyRune seg = true)
       (Split1 "/" (Watch.Repo w')) /\
     7 <= len (Watch.w_Commit w') <= 40 /\
     string_forallb (fun c => is_digit c || char_between "a" "f" c) (Watch.w_Commit w') = true).
Proof.
  split.
  - intros campaign tag r o. unfold Observation.Build. destruct (Allowed _) eqn:A; [|done]. cbn [negb].
    repeat (case_match; [done|]). cbn. destruct (Observation.truncateToHour _ _ _) as [taken|] eqn:T; [|done].
    cbn. intros; simplify_eq. split; [by apply allowed_says in A|]. cbn [Observation.o_TakenAt].
    assert (exists t, taken = Observation.rfc3339_hour t) as [t ->].
    { unfold Observation.truncateToHour in T. case_match; [simplify_eq; by eexists|].
      destruct (parse_time _); cbn in T; simplify_eq. by eexists. }
    exists t. split; [done|]. intros u. apply same_hour.
  - intros w w'. unfold Watch.BuildWatch. destruct (Allowed _) eqn:A; [|done]. cbn [negb].
    destruct (Watch.ValidateWatch _) eqn:V; [|done]. intros; simplify_eq. split; [by apply allowed_says in A|].
    split; [done|]. by apply valid_watch.
Qed.

End ConsentSpec.

(** ** Examples *)

Module ContributionExamples.
Import Consent Corpus Pool PoolSpec.

(** A digest that is its text, over the parts the examples tell apart. *)
Definition shown (c : Corpus) : string := c_SourceTag c ++ " " ++ c_TakenAt c ++ " " ++ c_Digest c.

Definition submission (tag taken : string) (tasks : Z) : Corpus * string :=
  let c := mkCorpus CorpusSchema taken tasks (of_int tasks) f0 f0 (of_int 1) "2026-09-01" "r1" 0 None None None tag "local" "" "" "" "" in
  (with_digest c (shown c), (tag ++ ".json")%string).

Definition pooled (subs : list (Corpus * string)) : Pool := add_files (fun s => s) shown (NewPool "2026-09-14") subs.

Definition rows (l : list PoolEntry) : list (string * string) := List.map (fun e => (SourceTag e, TakenAt e)) l.

Definition monday : Corpus * string := submission "a" "2026-09-14T10:00:00Z" 3.
Definition tuesday : Corpus * string := submission "a" "2026-09-15T10:00:00Z" 5.
Definition other : Corpus * string := submission "b" "2026-09-14T10:00:00Z" 7.

Example tuesday_replaces_monday :
  let p := pooled [monday; other; tuesday] in
  rows (Roster p) = [("a", "2026-09-15T10:00:00Z"); ("b", "2026-09-14T10:00:00Z")] /\
  rows (Superseded p) = [("a", "2026-09-14T10:00:00Z")] /\ t_Tasks <$> Totals p = Some 12.
Proof. vm_compute. done. Qed.

(** The digests of the superseded are not looked at: the older file given
    again is named twice. *)
Example a_superseded_file_is_named_twice :
  rows (Superseded (pooled [monday; tuesday; monday])) = [("a", "2026-09-14T10:00:00Z"); ("a", "2026-09-14T10:00:00Z")] /\
  t_Submissions <$> Totals (pooled [monday; tuesday; monday]) = Some 1 /\
  SupersededSubmissions <$> Totals (pooled [monday; tuesday; monday]) = Some 2.
Proof. vm_compute. done. Qed.

(** Times are compared as texts and not read: eleven at night in UTC stands
    before half past ten at night five hours west of it, which is later. *)
Example an_offset_hides_the_later_corpus :
  rows (Roster (pooled [submission "a" "2026-09-13T23:00:00Z" 3; submission "a" "2026-09-13T22:30:00-05:00" 5]))
  = [("a", "2026-09-13T23:00:00Z")].
Proof. vm_compute. done. Qed.

(** Of a watch record's time only its end is looked at. *)
Example a_time_is_any_text_that_ends_on_the_hour : Watch.on_the_hour "/home/me/project:00:00Z" = true.
Proof. done. Qed.

Lemma a_pool_counts_each_machine_once_witness :
  NoDup (List.map SourceTag (Roster (pooled [monday; other; tuesday]))) /\
  Roster (pooled [tuesday; other; monday]) ≡ₚ Roster (pooled [monday; other; tuesday]).
Proof.
  pose proof (a_pool_counts_each_machine_once (fun s => s) shown "2026-09-14" [monday; other; tuesday]) as (_ & _ & N & _ & _ & P & _).
  split; [exact N|]. apply P. vm_compute. solve_Permutation.
Defined.

Definition yes : on_disk := Regular false (Some ("# I agree" ++ String LF "watch_opt_in = true")%string).

Definition record : Watch.Watch :=
  Watch.mkWatch Watch.WatchSchema "acme/app" "tag" "2026-09-13T10:00:00Z" "2026-09-13T11:00:00Z" "anthropic" "m" 1 4 f0 f0 0 ∅ 0 0
    "v1.2.3" "0123abc" "p0123456789ab" "r1" "".

Lemma a_contribution_needs_recorded_consent_witness :
  7 <= len (Watch.w_Commit (Watch.with_name record "d")) <= 40 /\
  Watch.BuildWatch (fun _ => "d") (fun _ => "") (readDecision "" "watch_opt_in" yes).1 record = Some (Watch.with_name record "d").
Proof.
  assert (B : Watch.BuildWatch (fun _ => "d") (fun _ => "") (readDecision "" "watch_opt_in" yes).1 record
              = Some (Watch.with_name record "d")) by (vm_compute; reflexivity).
  split; [|exact B].
  destruct (proj2 (ConsentSpec.a_contribution_needs_recorded_consent (fun _ => None) 0 (fun _ => "d") (fun _ => "") "" yes) _ _ B)
    as (_ & _ & _ & _ & _ & _ & _ & H & _).
  exact H.
Defined.

End ContributionExamples.
