(* ===== verification/Outcome.v ===== *)
(** Whether an agent's run is a pass ([src/internal/outcome/outcome.go]): the
    git identity of the files it left, the answer those files have, the
    evidence the run must bring, and whether two arms may be compared
    ([src/cmd/replay/outcome_compare.go]); the leading number of a reply is
    [src/internal/outputdiscipline/derive.go]'s.

    [sha1], [sha256hex] and [path.Match] are arguments.  A directory is the
    list [os.ReadDir] gives, a file its mode bit and its bytes, or neither where
    it cannot be read; a directory that cannot be read is left out, and so is
    Windows, where no identity is taken. *)

From S2P Require Import Prelude GoString GoFloat GoTime GoMath Json JsonValue Labels Codex.
From Stdlib Require Import Ascii String.

Open Scope string_scope.
Open Scope list_scope.
Open Scope Z_scope.

Module Outcome.
Import Json JsonValue RawJson.

#[local] Abbreviation length := List.length.

(** ** The pinned task *)

Definition ManifestSchema : string := "replay.outcome.manifest.v1".
Definition RunSchema : string := "replay.outcome.run.v1".

Record Manifest := mkManifest {
  m_Schema : string; TaskID : string; Prompt : string; SubstrateCommit : string; SubstrateTree : string;
  Glob : string; ExpectedAnswer : Z; AnswerRule : string; RequiredEvidence : list string; m_Source : string
}.

Definition is_lower_hex (c : ascii) : bool := is_digit c || char_between "a" "f" c.

Definition hex40 (s : string) : bool := (String.length s =? 40)%nat && string_forallb is_lower_hex s.

(** The checks of [ParseManifest] on what was decoded. *)
Definition manifest_ok (m : Manifest) : bool :=
  String.eqb (m_Schema m) ManifestSchema
  && negb (String.eqb (TaskID m) "" || String.eqb (Prompt m) "" || String.eqb (Glob m) "")
  && hex40 (SubstrateCommit m) && hex40 (SubstrateTree m) && String.eqb (AnswerRule m) "leading_integer".

(** ** The files of a run *)

Inductive node :=
| File (executable : bool) (body : string)
| Link (target : string)
| Dir (entries : list (string * node))
| Special
| Unreadable.

Definition NULc : ascii := "000"%char.

Definition hex_digit (n : N) : ascii := ascii_of_N (if (n <? 10)%N then n + 48 else n + 87)%N.

(** [hex.EncodeToString] *)
Fixpoint hex (s : string) : string :=
  match s with
  | EmptyString => EmptyString
  | String c s => String (hex_digit (N_of_ascii c / 16)) (String (hex_digit (N_of_ascii c mod 16)) (hex s))
  end.

(** What [gitObject] hashes. *)
Definition preimage (kind body : string) : string := (kind ++ " " ++ itoa (len body) ++ String NULc body)%string.

Section git.
Context (sha1 : string -> string).

Definition gitObject (kind body : string) : string := sha1 (preimage kind body).

(** An entry of a tree: its name, its mode and the bytes of its identity. *)
Definition entry : Type := string * string * string.

Definition sortKey (e : entry) : string :=
  let '(name, mode, _) := e in if String.eqb mode "40000" then (name ++ "/")%string else name.

Definition enc (e : entry) : string := let '(name, mode, id) := e in (mode ++ String " " (name ++ String NULc id))%string.

Fixpoint encs (es : list entry) : string :=
  match es with [] => "" | e :: es => (enc e ++ encs es)%string end.

Definition by_key : list entry -> list entry := SliceStable (fun a b => String.ltb (sortKey a) (sortKey b)).

(** [treeOf]: no identity for what git does not track, an empty directory
    included; no answer where something cannot be read, is of no kind git
    has, or is a repository inside the tree. *)
Fixpoint object_of (n : node) : option (option (string * string)) :=
  match n with
  | Link t => Some (Some ("120000", gitObject "blob" t))
  | File x b => Some (Some (if x then "100755" else "100644", gitObject "blob" b))
  | Dir l =>
      es ← (fix go (l : list (string * node)) : option (list entry) :=
              match l with
              | [] => Some []
              | (name, n) :: l =>
                  if String.eqb name ".git" then None
                  else o ← object_of n; rest ← go l;
                       Some (match o with Some (m, id) => (name, m, id) :: rest | None => rest end)
              end) l;
      Some (match es with [] => None | _ => Some ("40000", gitObject "tree" (encs (by_key es))) end)
  | Special | Unreadable => None
  end.

(** The working copy's own repository is not part of it. *)
Definition without_git (l : list (string * node)) : list (string * node) :=
  List.filter (fun e => negb (String.eqb e.1 ".git")) l.

Definition TreeID (l : list (string * node)) : option string :=
  o ← object_of (Dir (without_git l));
  Some (hex (match o with Some (_, id) => id | None => gitObject "tree" "" end)).

End git.

(** ** The answer the files have *)

Definition count_tests (body : string) : option Z :=
  let '(lines, too_long) := Codex.fitting Codex.maxLine (Split1 LF body) in
  if too_long then None else Some (Z.of_nat (length (List.filter (has_prefix "func Test") lines))).

Section answer.
Context (path_match : string -> string -> option bool).

(** One file the walk visits: whether it counts, and for how much. *)
Definition visit (glob rel : string) (n : node) : option Z :=
  ok ← path_match glob rel;
  match n with
  | File _ body => if (ok : bool) then count_tests body else Some 0
  | Unreadable => if (ok : bool) then None else Some 0
  | _ => Some 0
  end.

(** [WalkDir]: the node, then what it holds. *)
Fixpoint walk (glob rel : string) (n : node) : option Z :=
  here ← visit glob rel n;
  match n with
  | Dir l =>
      rest ← (fix go (l : list (string * node)) : option Z :=
                match l with
                | [] => Some 0
                | (name, n) :: l =>
                    a ← walk glob (if String.eqb rel "." then name else (rel ++ "/" ++ name)%string) n;
                    b ← go l; Some (a + b)
                end) l;
      Some (here + rest)
  | _ => Some here
  end.

Definition DeriveAnswer (l : list (string * node)) (glob : string) : option Z := walk glob "." (Dir l).

End answer.

(** [outputdiscipline.Run.Answer]: the digits a reply starts with, after white
    space, where they make a machine integer. *)
Definition regexp_space (c : ascii) : bool :=
  Ascii.eqb c " " || Ascii.eqb c "009" || Ascii.eqb c "010" || Ascii.eqb c "012" || Ascii.eqb c "013".

Fixpoint skip_spaces (s : string) : string :=
  match s with String c s' => if regexp_space c then skip_spaces s' else s | EmptyString => s end.

Fixpoint leading_digits (s : string) : string :=
  match s with String c s' => if is_digit c then String c (leading_digits s') else "" | EmptyString => "" end.

Definition Answer (reply : string) : option Z :=
  let digits := leading_digits (skip_spaces reply) in
  if String.eqb digits "" then None
  else n ← digits_value 0 digits; if n <=? max_int64 then Some n else None.

(** ** The record of a run *)

Record Usage := mkUsage { InputTokens : option Z; OutputTokens : option Z }.

Record Run := mkRun {
  r_Schema : string; r_TaskID : string; ManifestSHA256 : string; r_SubstrateCommit : string; Arm : string;
  Reply : option string; ExitCode : option Z; r_Usage : option Usage
}.

(** [DisallowUnknownFields] *)
Definition strict {A} (tags : list string) (into : decoded A) : decoded A := fun raw cur =>
  match parse raw with
  | Some (Object _) =>
      if forallb (fun kv => bool_decide (is_Some (field_of tags kv.1))) (members raw) then into raw cur else None
  | _ => into raw cur
  end.

Definition into_usage : decoded Usage :=
  strict ["input_tokens"; "output_tokens"] (into_struct ["input_tokens"; "output_tokens"] (fun tag raw u =>
    let 'mkUsage i o := u in
    if String.eqb tag "input_tokens" then (fun x => mkUsage x o) <$> into_pointer 0 into_int raw i
    else (fun x => mkUsage i x) <$> into_pointer 0 into_int raw o)).

Definition run_tags : list string :=
  ["schema"; "task_id"; "manifest_sha256"; "substrate_commit"; "arm"; "reply"; "exit_code"; "usage"].

Definition into_run : decoded Run :=
  strict run_tags (into_struct run_tags (fun tag raw r =>
    let 'mkRun s t m c a p x u := r in
    if String.eqb tag "schema" then (fun o => mkRun o t m c a p x u) <$> into_string raw s
    else if String.eqb tag "task_id" then (fun o => mkRun s o m c a p x u) <$> into_string raw t
    else if String.eqb tag "manifest_sha256" then (fun o => mkRun s t o c a p x u) <$> into_string raw m
    else if String.eqb tag "substrate_commit" then (fun o => mkRun s t m o a p x u) <$> into_string raw c
    else if String.eqb tag "arm" then (fun o => mkRun s t m c o p x u) <$> into_string raw a
    else if String.eqb tag "reply" then (fun o => mkRun s t m c a o x u) <$> into_pointer "" into_string raw p
    else if String.eqb tag "exit_code" then (fun o => mkRun s t m c a p o u) <$> into_pointer 0 into_int raw x
    else (fun o => mkRun s t m c a p x o) <$> into_pointer (mkUsage None None) into_usage raw u)).

Definition zero_run : Run := mkRun "" "" "" "" "" None None None.

(** The two things a run leaves: its record, as the first value the decoder
    reads from it, and its tree. *)
Inductive record_file := RecordMissing | RecordSymlink | RecordIs (value : bytes).
Inductive tree_dir := TreeSymlink | TreeMissing | TreeIs (l : list (string * node)).

Record run_dir := mkRunDir { d_record : record_file; d_tree : tree_dir }.

(** ** The verdict *)

Inductive Verdict := Pass | Fail | Unavailable.
#[export] Instance Verdict_eq_dec : EqDecision Verdict.
Proof. solve_decision. Defined.

Record Result := mkResult {
  v : Verdict; Reasons : list string; res_Arm : string; res_Answer : option Z; Truth : option Z; res_TreeID : string
}.

Section score.
Context (sha1 sha256hex : string -> string) (path_match : string -> string -> option bool).

(** What the evidence of a run lacks, before its files are looked at. *)
Definition lacks (m : Manifest) (manifest : string) (run : Run) (tree : tree_dir) : list string :=
  (if String.eqb (r_Schema run) RunSchema then [] else ["run_schema_unsupported"])
  ++ (if String.eqb (r_TaskID run) (TaskID m) then [] else ["provenance_task_mismatch"])
  ++ (if String.eqb (ManifestSHA256 run) (sha256hex manifest) then [] else ["provenance_manifest_mismatch"])
  ++ (if String.eqb (r_SubstrateCommit run) (SubstrateCommit m) then [] else ["provenance_substrate_mismatch"])
  ++ match ExitCode run with None => ["exit_code_missing"] | Some x => if x =? 0 then [] else ["execution_failed"] end
  ++ match r_Usage run with
     | Some (mkUsage (Some i) (Some o)) => if (i <? 0) || (o <? 0) then ["usage_invalid"] else []
     | _ => ["usage_missing"]
     end
  ++ match Reply run with
     | Some t => if String.eqb (Labels.TrimSpace t) "" then ["answer_missing"] else []
     | None => ["answer_missing"]
     end
  ++ match tree with TreeSymlink => ["result_tree_symlink"] | TreeMissing => ["result_tree_missing"] | TreeIs _ => [] end.

Definition unavailable (arm : string) (truth : option Z) (id : string) (codes : list string) : Result :=
  mkResult Unavailable codes arm None truth id.

Definition Score (m : Manifest) (manifest : string) (d : run_dir) : Result :=
  match d_record d with
  | RecordSymlink => unavailable "" None "" ["run_record_symlink"]
  | RecordMissing => unavailable "" None "" ["run_record_missing"]
  | RecordIs raw =>
      match into_run raw zero_run with
      | None => unavailable "" None "" ["run_record_invalid"]
      | Some run =>
          match lacks m manifest run (d_tree d), d_tree d with
          | [], TreeIs l =>
              match TreeID sha1 l with
              | None => unavailable (Arm run) None "" ["result_tree_unverifiable"]
              | Some id =>
                  if negb (String.eqb id (SubstrateTree m))
                  then mkResult Fail ["result_tree_modified"] (Arm run) None None id
                  else match DeriveAnswer path_match l (Glob m) with
                       | None => unavailable (Arm run) None id ["truth_underivable"]
                       | Some truth =>
                           if negb (truth =? ExpectedAnswer m)
                           then unavailable (Arm run) (Some truth) id ["manifest_truth_mismatch"]
                           else match Answer (default "" (Reply run)) with
                                | None => mkResult Fail ["answer_not_a_number"] (Arm run) None (Some truth) id
                                | Some a =>
                                    if negb (a =? truth)
                                    then mkResult Fail ["wrong_answer"] (Arm run) (Some a) (Some truth) id
                                    else mkResult Pass [] (Arm run) (Some a) (Some truth) id
                                end
                       end
              end
          | codes, _ => unavailable (Arm run) None "" codes
          end
      end
  end.

End score.

(** ** Two arms *)

Inductive ComparisonStatus := Comparable | RefusedCeiling | Insufficient.

Definition MinEligiblePerArm : Z := 5.

Record ArmCount := mkCount { ac_Pass : Z; N_ : Z; ac_Unavailable : Z }.

Definition count_step (a : ArmCount) (r : Result) : ArmCount :=
  match v r with
  | Pass => mkCount (ac_Pass a +! 1) (N_ a +! 1) (ac_Unavailable a)
  | Fail => mkCount (ac_Pass a) (N_ a +! 1) (ac_Unavailable a)
  | Unavailable => mkCount (ac_Pass a) (N_ a) (ac_Unavailable a +! 1)
  end.

Definition count (rs : list Result) : ArmCount := fold_left count_step rs (mkCount 0 0 0).

Definition Compare (control treatment : list Result) : ComparisonStatus * ArmCount * ArmCount :=
  let c := count control in
  let t := count treatment in
  (if (N_ c <? MinEligiblePerArm) || (N_ t <? MinEligiblePerArm) then Insufficient
   else if (ac_Pass c =? 0) || (ac_Pass c =? N_ c) then RefusedCeiling
   else Comparable, c, t).

(** [replay outcome-compare]: the runs whose record names one of the arms. *)
Definition compare_runs (control treatment : string) (rs : list Result) : ComparisonStatus * ArmCount * ArmCount :=
  Compare (List.filter (fun r => String.eqb (res_Arm r) control) rs)
          (List.filter (fun r => negb (String.eqb (res_Arm r) control) && String.eqb (res_Arm r) treatment) rs).

End Outcome.

(** The identity of a tree says what its files are, and a pass what a run
    brought. *)

Module OutcomeSpec.
Import Outcome.

#[local] Abbreviation length := List.length.

(** ** What git tracks of a tree *)

Inductive kind := Plain | Exec | Symlink.
Inductive shape := SFile (k : kind) (body : string) | STree (l : list (string * shape)).

Section shape_ind.
Context (P : shape -> Prop) (Hfile : forall k b, P (SFile k b)) (Htree : forall l, Forall (fun e => P e.2) l -> P (STree l)).

Fixpoint shape_ind' (s : shape) : P s :=
  match s with
  | SFile k b => Hfile k b
  | STree l =>
      Htree l ((fix go (l : list (string * shape)) : Forall (fun e => P e.2) l :=
                  match l with [] => Forall_nil_2 _ | e :: l => Forall_cons_2 _ _ _ (shape_ind' e.2) (go l) end) l)
  end.
End shape_ind.

Section node_ind.
Context (P : node -> Prop) (Hdir : forall l, Forall (fun e => P e.2) l -> P (Dir l)).
Context (Hfile : forall x b, P (File x b)) (Hlink : forall t, P (Link t)) (Hspecial : P Special) (Hun : P Unreadable).

Fixpoint node_ind' (n : node) : P n :=
  match n with
  | File x b => Hfile x b
  | Link t => Hlink t
  | Dir l =>
      Hdir l ((fix go (l : list (string * node)) : Forall (fun e => P e.2) l :=
                 match l with [] => Forall_nil_2 _ | e :: l => Forall_cons_2 _ _ _ (node_ind' e.2) (go l) end) l)
  | Special => Hspecial
  | Unreadable => Hun
  end.
End node_ind.

Definition mode (k : kind) : string := match k with Plain => "100644" | Exec => "100755" | Symlink => "120000" end.

Definition shape_key (e : string * shape) : string :=
  match e.2 with STree _ => (e.1 ++ "/")%string | SFile _ _ => e.1 end.

Definition sorted_shapes : list (string * shape) -> list (string * shape) :=
  SliceStable (fun a b => String.ltb (shape_key a) (shape_key b)).

Fixpoint norm (n : node) : option shape :=
  match n with
  | Link t => Some (SFile Symlink t)
  | File x b => Some (SFile (if x then Exec else Plain) b)
  | Dir l =>
      match (fix go (l : list (string * node)) : list (string * shape) :=
               match l with
               | [] => []
               | (name, n) :: l => match norm n with Some s => (name, s) :: go l | None => go l end
               end) l with
      | [] => None
      | es => Some (STree (sorted_shapes es))
      end
  | Special | Unreadable => None
  end.

(** What of a run's tree git tracks. *)
Definition tracked (l : list (string * node)) : option shape := norm (Dir (without_git l)).

(** No name has a NUL in it; the operating system allows none. *)
Fixpoint clean (s : shape) : bool :=
  match s with
  | SFile _ _ => true
  | STree l => (fix go (l : list (string * shape)) : bool :=
                  match l with
                  | [] => true
                  | (name, s) :: l => string_forallb (fun c => negb (Ascii.eqb c NULc)) name && clean s && go l
                  end) l
  end.

Lemma clean_tree l :
  clean (STree l) = true <-> Forall (fun e => string_forallb (fun c => negb (Ascii.eqb c NULc)) e.1 = true /\ clean e.2 = true) l.
Proof.
  cbn. induction l as [|[name s] l IH]; [done|]. rewrite Forall_cons, !andb_true_iff, IH. cbn. tauto.
Qed.

Section git.
Context (sha1 : string -> string).

#[local] Abbreviation gitObject := (gitObject sha1).
#[local] Abbreviation object_of := (object_of sha1).

Fixpoint shape_object (s : shape) : string * string :=
  match s with
  | SFile k b => (mode k, gitObject "blob" b)
  | STree l => ("40000", gitObject "tree" (encs (List.map (fun '(n, s) => let '(m, id) := shape_object s in (n, m, id)) l)))
  end.

Definition shape_entry (e : string * shape) : entry := let '(m, id) := shape_object e.2 in (e.1, m, id).

Lemma shape_object_tree l : shape_object (STree l) = ("40000", gitObject "tree" (encs (List.map shape_entry l))).
Proof. cbn. do 3 f_equal. apply map_ext. by intros [n s]. Qed.

Lemma mode_not_tree k : String.eqb (mode k) "40000" = false.
Proof. by destruct k. Qed.

Lemma shape_entry_key e : sortKey (shape_entry e) = shape_key e.
Proof.
  destruct e as [n [k b|l]]; unfold shape_entry, shape_key; cbn [fst snd].
  - cbn. by rewrite mode_not_tree.
  - rewrite shape_object_tree. done.
Qed.

Lemma SliceStable_map {A B} (f : A -> B) (lessA : A -> A -> bool) (lessB : B -> B -> bool) l :
  (forall x y, lessB (f x) (f y) = lessA x y) -> SliceStable lessB (List.map f l) = List.map f (SliceStable lessA l).
Proof.
  intros H. induction l as [|x l IH]; [done|]. cbn [List.map SliceStable foldr]. unfold SliceStable in IH. rewrite IH.
  generalize (foldr (insert_stable lessA) [] l) as k. induction k as [|y k IHk]; [done|].
  cbn [List.map insert_stable]. rewrite H. case_match; [cbn; by rewrite IHk | done].
Qed.

Lemma by_key_shapes es : by_key (List.map shape_entry es) = List.map shape_entry (sorted_shapes es).
Proof. apply SliceStable_map. intros x y. by rewrite !shape_entry_key. Qed.

(** Where an identity is taken, it is that of what git tracks. *)
Lemma object_norm n : forall o, object_of n = Some o -> o = shape_object <$> norm n.
Proof.
  induction n as [l IH|x b|t| |] using node_ind'; intros o H; cbn [Outcome.object_of] in H; try done.
  - cbn [norm].
    match type of H with (?a ≫= _) = _ => destruct a as [es|] eqn:E; [|done] end. cbn in H. injection H as <-.
    match goal with |- _ = _ <$> match ?b with _ => _ end => set (ns := b) end.
    assert (G : es = List.map shape_entry ns).
    { subst ns. revert es E. induction IH as [|[name n] l Hn Hl IHl]; intros es E; [by simplify_eq|].
      destruct (String.eqb name ".git"); [done|]. cbn in Hn.
      destruct (object_of n) as [o|] eqn:On; [|done]. cbn in E.
      match type of E with (?a ≫= _) = _ => destruct a as [rest|] eqn:Er; [|done] end. cbn in E. injection E as <-.
      rewrite (Hn o eq_refl). specialize (IHl rest eq_refl). destruct (norm n) as [s|]; cbn; [|done].
      unfold shape_entry at 1. cbn. rewrite <- IHl. by destruct (shape_object s). }
    rewrite G. destruct ns as [|e ns]; [done|]. cbn [fmap option_fmap option_map].
    rewrite shape_object_tree, <- by_key_shapes. done.
  - injection H as <-. by destruct x.
  - by injection H as <-.
Qed.

(** ** The same identity *)

Hypothesis sha1_length : forall x, String.length (sha1 x) = 20%nat.

Lemma itoa_len_digits b : string_forallb is_digit (itoa (len b)) = true.
Proof.
  unfold itoa, len. destruct (Z.of_nat _) eqn:E; [apply itoa_N_digits.. | lia].
Qed.

Lemma preimage_body k b c : preimage k b = preimage k c -> b = c.
Proof.
  unfold preimage. intros H. apply string_app_inv_head in H. cbn in H. injection H as H.
  apply (split_at_separator is_digit) in H as [_ H]; [done | done | apply itoa_len_digits..].
Qed.

Lemma preimage_kind b c : preimage "blob" b <> preimage "tree" c.
Proof. done. Qed.

Definition mode_char (c : ascii) : bool := negb (Ascii.eqb c " ").
Definition name_char (c : ascii) : bool := negb (Ascii.eqb c NULc).

(** An entry that [enc] can be read back from. *)
Definition readable (e : entry) : Prop :=
  string_forallb mode_char e.1.2 = true /\ string_forallb name_char e.1.1 = true /\ String.length e.2 = 20%nat.

Lemma encs_inj : forall es fs, Forall readable es -> Forall readable fs -> encs es = encs fs -> es = fs.
Proof.
  induction es as [|[[n m] i] es IH]; intros [|[[n' m'] i'] fs] He Hf H; [done | | |].
  - apply (f_equal String.length) in H. cbn in H. rewrite !string_length_app in H. cbn in H. lia.
  - apply (f_equal String.length) in H. cbn in H. rewrite !string_length_app in H. cbn in H. lia.
  - apply Forall_cons in He as [(M & N & I) He]. apply Forall_cons in Hf as [(M' & N' & I') Hf]. cbn in M, N, I, M', N', I'.
    cbn in H. rewrite !string_app_assoc in H. cbn in H. rewrite !string_app_assoc in H. cbn in H.
    apply (split_at_separator mode_char) in H as [-> H]; [|done..].
    apply (split_at_separator name_char) in H as [-> H]; [|done..].
    apply string_app_inv_length in H as [-> H]; [|congruence]. by rewrite (IH fs He Hf H).
Qed.

(** What is hashed for the objects of a tree. *)
Fixpoint objects (s : shape) : list string :=
  match s with
  | SFile _ b => [preimage "blob" b]
  | STree l => preimage "tree" (encs (List.map shape_entry l)) ::
               (fix go (l : list (string * shape)) : list string :=
                  match l with [] => [] | e :: l => objects e.2 ++ go l end) l
  end.

Definition collision (xs ys : list string) : Prop := exists x y, x ∈ xs /\ y ∈ ys /\ x <> y /\ sha1 x = sha1 y.

Lemma objects_tree l x :
  x ∈ objects (STree l) <-> x = preimage "tree" (encs (List.map shape_entry l)) \/ exists e, e ∈ l /\ x ∈ objects e.2.
Proof.
  cbn [objects]. rewrite elem_of_cons. apply or_iff_compat_l. induction l as [|e l IH].
  - split; [by intros ?%elem_of_nil | by intros (e & ?%elem_of_nil & _)].
  - rewrite elem_of_app, IH. split.
    + intros [H|(f & Hf & H)]; [exists e | exists f]; (split; [|done]); [by left | by right].
    + intros (f & [->|Hf]%elem_of_cons & H); [by left|]. right. by exists f.
Qed.

Lemma collision_in xs ys xs' ys' : collision xs ys -> (forall x, x ∈ xs -> x ∈ xs') -> (forall y, y ∈ ys -> y ∈ ys') -> collision xs' ys'.
Proof. intros (x & y & X & Y & N & E) Hx Hy. exists x, y. auto. Qed.

Lemma same_hash k b k' c xs ys :
  preimage k b ∈ xs -> preimage k' c ∈ ys -> gitObject k b = gitObject k' c ->
  preimage k b = preimage k' c \/ collision xs ys.
Proof.
  intros X Y H. destruct (String.eqb_spec (preimage k b) (preimage k' c)) as [E|E]; [by left|].
  right. by exists (preimage k b), (preimage k' c).
Qed.

Lemma shape_entry_readable e :
  string_forallb name_char e.1 = true -> readable (shape_entry e).
Proof using Type*.
  intros N. destruct e as [n [k b|l]]; unfold shape_entry.
  - cbn. split_and!; [by destruct k | done | apply sha1_length].
  - cbn [fst snd]. rewrite shape_object_tree. split_and!; [done | done | apply sha1_length].
Qed.

Lemma clean_readable l : clean (STree l) = true -> Forall readable (List.map shape_entry l).
Proof using Type*.
  rewrite clean_tree, Forall_map. intros H. eapply Forall_impl; [exact H|]. intros e [N _]. by apply shape_entry_readable.
Qed.

Lemma shape_entry_inj e f : shape_entry e = shape_entry f -> e.1 = f.1 /\ shape_object e.2 = shape_object f.2.
Proof. unfold shape_entry. destruct (shape_object e.2), (shape_object f.2). intros H. by simplify_eq. Qed.

(** Two shapes with one identity are one shape, or two of the objects hashed
    for them collide. *)
Lemma shape_object_inj s : forall t,
  clean s = true -> clean t = true -> shape_object s = shape_object t -> s = t \/ collision (objects s) (objects t).
Proof using Type*.
  induction s as [k b|l IH] using shape_ind'; intros [k' c|l'] Cs Ct H.
  - cbn in H. injection H as M H.
    destruct (same_hash "blob" b "blob" c (objects (SFile k b)) (objects (SFile k' c))) as [E|E]; [by left | by left | done | | by right].
    left. apply preimage_body in E as ->. by destruct k, k'.
  - rewrite shape_object_tree in H. cbn in H. injection H as M _. by destruct k.
  - rewrite shape_object_tree in H. cbn in H. injection H as M _. by destruct k'.
  - rewrite !shape_object_tree in H. injection H as H.
    destruct (same_hash "tree" _ "tree" _ (objects (STree l)) (objects (STree l')) ltac:(apply objects_tree; by left) ltac:(apply objects_tree; by left) H)
      as [E|E]; [|by right].
    apply preimage_body in E. apply encs_inj in E; [|by apply clean_readable..].
    apply clean_tree in Cs. apply clean_tree in Ct.
    assert (G : l = l' \/ collision (List.concat (List.map (fun e => objects e.2) l)) (List.concat (List.map (fun e => objects e.2) l'))).
    { clear H. revert l' Ct E. induction IH as [|[n s] l Hs Hl IHl]; intros [|[n' t] l'] Ct E; [by left | done | done |].
      apply Forall_cons in Cs as [[_ Cs] Cs']. apply Forall_cons in Ct as [[_ Ct] Ct'].
      cbn [List.map] in E. apply (f_equal (fun k => (head k, tail k))) in E. cbn [head tail] in E.
      assert (E1 : shape_entry (n, s) = shape_entry (n', t)) by congruence.
      assert (E2 : List.map shape_entry l = List.map shape_entry l') by congruence.
      apply shape_entry_inj in E1 as [En Est]. cbn in En, Est, Hs, Cs, Ct. subst n'.
      destruct (Hs t Cs Ct Est) as [->|K].
      - destruct (IHl Cs' l' Ct' E2) as [->|K]; [by left|]. right. cbn.
        eapply collision_in; [exact K | |]; intros x Hx; apply elem_of_app; by right.
      - right. cbn. eapply collision_in; [exact K | |]; intros x Hx; apply elem_of_app; by left. }
    destruct G as [->|K]; [by left|]. right. eapply collision_in; [exact K | |]; intros x Hx; apply objects_tree; right;
      (apply list_elem_of_In, in_concat in Hx as (y & Hy & Hx); apply in_map_iff in Hy as (e & <- & He);
       exists e; split; by apply list_elem_of_In).
Qed.

Definition tracked_objects (o : option shape) : list string :=
  match o with Some s => objects s | None => [preimage "tree" ""] end.

Definition tracked_clean (o : option shape) : bool := match o with Some s => clean s | None => true end.

Definition tracked_object (o : option shape) : string * string :=
  match o with Some s => shape_object s | None => ("40000", gitObject "tree" "") end.

Lemma hex_inj : forall a b, hex a = hex b -> a = b.
Proof.
  assert (D : forall c d : ascii, hex_digit (N_of_ascii c / 16) = hex_digit (N_of_ascii d / 16) ->
    hex_digit (N_of_ascii c mod 16) = hex_digit (N_of_ascii d mod 16) -> c = d).
  { assert (U : forall m n, (m < 16)%N -> (n < 16)%N -> hex_digit m = hex_digit n -> m = n).
    { assert (B : forall n, (n < 16)%N -> N_of_ascii (hex_digit n) = (if (n <? 10)%N then n + 48 else n + 87)%N).
      { intros n Hn. unfold hex_digit. apply N_ascii_embedding. destruct (n <? 10)%N; lia. }
      intros m n Hm Hn H. apply (f_equal N_of_ascii) in H. rewrite (B m Hm), (B n Hn) in H.
      destruct (N.ltb_spec m 10), (N.ltb_spec n 10); lia. }
    intros c d H1 H2. pose proof (N_ascii_bounded c). pose proof (N_ascii_bounded d).
    apply U in H1; [|apply N.Div0.div_lt_upper_bound; lia..]. apply U in H2; [|apply N.mod_lt; lia..].
    rewrite <- (ascii_N_embedding c), <- (ascii_N_embedding d). f_equal.
    rewrite (N.Div0.div_mod (N_of_ascii c) 16), (N.Div0.div_mod (N_of_ascii d) 16). by rewrite H1, H2. }
  induction a as [|c a IH]; intros [|d b] H; [done | done | done |]. cbn in H. injection H as H1 H2 H.
  rewrite (D c d H1 H2). by rewrite (IH b H).
Qed.

Lemma TreeID_tracked l id : TreeID sha1 l = Some id -> id = hex (tracked_object (tracked l)).2.
Proof.
  unfold TreeID, tracked. destruct (object_of _) as [o|] eqn:E; [|done]. apply object_norm in E. rewrite E. clear E.
  destruct (norm (Dir (without_git l))) as [s|]; cbn; [destruct (shape_object s)|]; by intros [= <-].
Qed.

(** What is tracked of a directory is a tree with something in it. *)
Lemma tracked_tree l s : tracked l = Some s -> exists es, s = STree es /\ es <> [].
Proof.
  unfold tracked. cbn [norm].
  match goal with |- match ?b with _ => _ end = _ -> _ => destruct b as [|e es] end; [done|]. intros [= <-].
  eexists. split; [done|]. intros H.
  assert (P : sorted_shapes (e :: es) ≡ₚ e :: es) by apply SliceStable_perm.
  change (sorted_shapes (e :: es) = []) in H. rewrite H in P. by apply Permutation_nil_cons in P.
Qed.

(** A tree with something in it is not the empty one. *)
Lemma not_the_empty_tree es :
  es <> [] -> clean (STree es) = true -> (shape_object (STree es)).2 = gitObject "tree" "" ->
  collision (objects (STree es)) [preimage "tree" ""].
Proof using Type*.
  intros N C H. rewrite shape_object_tree in H.
  destruct (same_hash "tree" _ "tree" _ (objects (STree es)) [preimage "tree" ""] ltac:(apply objects_tree; by left) ltac:(by left) H)
    as [E|E]; [|done].
  apply preimage_body in E. apply (encs_inj _ []) in E; [by destruct es | by apply clean_readable | done].
Qed.

(** C30: the identity of a tree is git's, and two trees that have the same one
    hold the same files, names, modes and links, whatever else lies beside
    them: everything git tracks is equal, or the proof names two different
    objects of these trees with the same SHA-1. *)
Theorem the_same_identity_is_the_same_tree l1 l2 id :
  TreeID sha1 l1 = Some id -> TreeID sha1 l2 = Some id -> tracked_clean (tracked l1) = true -> tracked_clean (tracked l2) = true ->
  tracked l1 = tracked l2 \/ collision (tracked_objects (tracked l1)) (tracked_objects (tracked l2)).
Proof using Type*.
  intros T1 T2 C1 C2. apply TreeID_tracked in T1. apply TreeID_tracked in T2. rewrite T1 in T2. apply hex_inj in T2. clear T1.
  destruct (tracked l1) as [s|] eqn:E1; [apply tracked_tree in E1 as (es & -> & N1)|];
    (destruct (tracked l2) as [t|] eqn:E2; [apply tracked_tree in E2 as (fs & -> & N2)|]); cbn [tracked_object tracked_clean tracked_objects] in *.
  - assert (H : shape_object (STree es) = shape_object (STree fs)) by (rewrite !shape_object_tree in *; cbn in T2; by rewrite T2).
    destruct (shape_object_inj _ _ C1 C2 H) as [->|K]; [by left | by right].
  - right. by apply not_the_empty_tree.
  - right. destruct (not_the_empty_tree fs N2 C2 (eq_sym T2)) as (x & y & X & Y & N & E). by exists y, x.
  - by left.
Qed.

End git.

(** ** A pass *)

Section score.
Context (sha1 sha256hex : string -> string) (path_match : string -> string -> option bool).

(** The evidence a run must bring. *)
Record complete (m : Manifest) (manifest : string) (run : Run) : Prop := {
  right_schema : r_Schema run = RunSchema;
  right_task : r_TaskID run = TaskID m;
  right_manifest : ManifestSHA256 run = sha256hex manifest;
  right_commit : r_SubstrateCommit run = SubstrateCommit m;
  ran : ExitCode run = Some 0;
  usage_known : exists i o, r_Usage run = Some (mkUsage (Some i) (Some o)) /\ 0 <= i /\ 0 <= o;
  replied : exists t, Reply run = Some t /\ Labels.TrimSpace t <> ""
}.

Lemma unless (b : bool) {A} (x : A) l : (if b then [] else [x]) ++ l = [] <-> b = true /\ l = [].
Proof. destruct b; cbn; split; intros H; try done; by destruct H. Qed.

Lemma lacks_nothing m manifest run tree :
  lacks sha256hex m manifest run tree = [] <-> complete m manifest run /\ exists l, tree = TreeIs l.
Proof.
  unfold lacks. rewrite !unless, !String.eqb_eq. split.
  - intros (A & B & C & D & E). apply app_eq_nil in E as [X E]. apply app_eq_nil in E as [U E]. apply app_eq_nil in E as [R T].
    split; [split; try done|].
    + destruct (ExitCode run) as [x|]; [|done]. destruct (Z.eqb_spec x 0); [by subst|done].
    + destruct (r_Usage run) as [[[i|] [o|]]|]; try done. exists i, o. split; [done|]. destruct (_ || _) eqn:Neg; [done|lia].
    + destruct (Reply run) as [t|]; [|done]. exists t. split; [done|]. by destruct (String.eqb_spec (Labels.TrimSpace t) "").
    + destruct tree; [done|done|by eexists].
  - intros [[A B C D X (i & o & U & Hi & Ho) (t & R & Ht)] [l ->]]. rewrite X, U, R. cbn.
    destruct (String.eqb_spec (Labels.TrimSpace t) ""); [done|]. destruct (_ || _) eqn:Neg; [lia|done].
Qed.

#[local] Abbreviation Score := (Score sha1 sha256hex path_match).

(** What a scored run brought: a record, complete, and files with an identity. *)
Definition brought (m : Manifest) (manifest : string) (d : run_dir) (run : Run) (l : list (string * node)) (id : string) : Prop :=
  exists raw, d_record d = RecordIs raw /\ into_run raw zero_run = Some run /\ complete m manifest run /\
              d_tree d = TreeIs l /\ TreeID sha1 l = Some id.

Lemma Score_brought m manifest d :
  v (Score m manifest d) <> Unavailable -> exists run l id, brought m manifest d run l id.
Proof.
  unfold Outcome.Score. destruct (d_record d) as [| |raw] eqn:Rec; try done.
  destruct (into_run raw zero_run) as [run|] eqn:Dec; [|done].
  destruct (lacks _ _ _ _ _) as [|code codes] eqn:L; [|done].
  pose proof L as L'. apply lacks_nothing in L as [C [l Tr]]. rewrite Tr in *.
  destruct (TreeID sha1 l) as [id|] eqn:T; [|done]. intros _. exists run, l, id, raw. done.
Qed.

Lemma brought_Score m manifest d run l id :
  brought m manifest d run l id ->
  v (Score m manifest d) =
    if String.eqb id (SubstrateTree m) then
      match DeriveAnswer path_match l (Glob m) with
      | Some truth =>
          if truth =? ExpectedAnswer m then
            match Answer (default "" (Reply run)) with Some a => if a =? truth then Pass else Fail | None => Fail end
          else Unavailable
      | None => Unavailable
      end
    else Fail.
Proof.
  intros (raw & R & D & C & Tr & T). unfold Outcome.Score. rewrite R, D.
  assert (L : lacks sha256hex m manifest run (d_tree d) = []) by (apply lacks_nothing; split; [done|by eexists]).
  rewrite L, Tr, T. destruct (String.eqb _ _); [|done]. cbn [negb].
  destruct (DeriveAnswer _ _ _) as [truth|]; [|done]. destruct (truth =? _); [|done]. cbn [negb].
  destruct (Answer _) as [a|]; [|done]. by destruct (a =? truth).
Qed.

(** C29: a pass is earned. A run passes exactly when its record is complete and
    names this task, its files are the pinned ones, those files have the
    expected answer and the reply begins with it; it fails only on complete
    evidence, for files that changed or an answer that is not the files' own.
    Everything else is no result. *)
Theorem a_pass_is_earned m manifest d :
  (v (Score m manifest d) = Pass <->
   exists run l, brought m manifest d run l (SubstrateTree m) /\
     DeriveAnswer path_match l (Glob m) = Some (ExpectedAnswer m) /\
     Answer (default "" (Reply run)) = Some (ExpectedAnswer m)) /\
  (v (Score m manifest d) = Fail <->
   exists run l id, brought m manifest d run l id /\
     (id <> SubstrateTree m \/
      (DeriveAnswer path_match l (Glob m) = Some (ExpectedAnswer m) /\
       Answer (default "" (Reply run)) <> Some (ExpectedAnswer m)))).
Proof.
  split; split.
  - intros P. destruct (Score_brought m manifest d) as (run & l & id & B); [by rewrite P|].
    rewrite (brought_Score _ _ _ _ _ _ B) in P. destruct (String.eqb_spec id (SubstrateTree m)) as [E|]; [|done]. rewrite E in B.
    exists run, l. split; [done|]. destruct (DeriveAnswer _ _ _) as [truth|]; [|done].
    destruct (truth =? ExpectedAnswer m) eqn:T; [|done]. apply Z.eqb_eq in T. subst truth. split; [done|].
    destruct (Answer _) as [a|]; [|done]. destruct (a =? ExpectedAnswer m) eqn:A; [|done]. apply Z.eqb_eq in A. by subst a.
  - intros (run & l & B & D & A). rewrite (brought_Score _ _ _ _ _ _ B), String.eqb_refl, D, Z.eqb_refl, A.
    by rewrite Z.eqb_refl.
  - intros P. destruct (Score_brought m manifest d) as (run & l & id & B); [by rewrite P|].
    rewrite (brought_Score _ _ _ _ _ _ B) in P. exists run, l, id. split; [done|].
    destruct (String.eqb_spec id (SubstrateTree m)) as [E|]; [|by left]. right. clear E.
    destruct (DeriveAnswer _ _ _) as [truth|]; [|done].
    destruct (truth =? ExpectedAnswer m) eqn:T; [|done]. apply Z.eqb_eq in T. subst truth. split; [done|].
    destruct (Answer _) as [a|]; [|done]. destruct (a =? ExpectedAnswer m) eqn:A; [done|]. apply Z.eqb_neq in A. congruence.
  - intros (run & l & id & B & [N|[D A]]); rewrite (brought_Score _ _ _ _ _ _ B).
    + by destruct (String.eqb_spec id (SubstrateTree m)).
    + rewrite D, Z.eqb_refl. destruct (String.eqb _ _); [|done]. destruct (Answer _) as [a|]; [|done].
      destruct (Z.eqb_spec a (ExpectedAnswer m)); [congruence|done].
Qed.

End score.

(** ** A comparison *)

Definition of_verdict (x : Verdict) (rs : list Result) : Z := Z.of_nat (length (List.filter (fun r => bool_decide (v r = x)) rs)).

Lemma count_counts rs : forall a,
  ac_Pass (fold_left count_step rs a) ≡₆₄ ac_Pass a + of_verdict Pass rs /\
  N_ (fold_left count_step rs a) ≡₆₄ N_ a + of_verdict Pass rs + of_verdict Fail rs.
Proof.
  induction rs as [|r rs IH]; intros a; unfold of_verdict; cbn [fold_left List.filter].
  - change (Z.of_nat (length [])) with 0. split; apply cong64_iff; exists 0; lia.
  - destruct (IH (count_step a r)) as [P N]. rewrite P, N. unfold count_step, of_verdict. destruct (v r); cbn [ac_Pass N_ bool_decide].
    all: repeat case_bool_decide; try done; cbn [length].
    all: rewrite ?cong64_iadd; split; apply cong64_iff; exists 0; lia.
Qed.

(** Arms are compared only where each has five eligible runs and the control
    neither always passes nor always fails. *)
Lemma Compare_comparable control treatment :
  (Compare control treatment).1.1 = Comparable <->
  5 <= N_ (count control) /\ 5 <= N_ (count treatment) /\
  ac_Pass (count control) <> 0 /\ ac_Pass (count control) <> N_ (count control).
Proof.
  unfold Compare, MinEligiblePerArm. cbn [fst]. destruct (_ || _) eqn:A; [split; [done|lia]|].
  destruct (_ || _) eqn:B in |- *; split; try done; lia.
Qed.

(** ** Examples *)

(** A digest of twenty bytes that tells short texts apart: enough for an
    example, and no more than that. *)
Fixpoint fill (n : nat) (s : string) : string :=
  match n with
  | O => ""
  | S n => match s with String c s => String c (fill n s) | EmptyString => String "." (fill n "") end
  end.

Definition last20 (s : string) : string := fill 20 (substring (String.length s - 20) 20 s).

Lemma fill_length n : forall s, String.length (fill n s) = n.
Proof. induction n as [|n IH]; intros s; [done|]. destruct s; cbn; by rewrite IH. Qed.

Definition one_test : string := ("func TestA(t *testing.T) {}" ++ String LF "")%string.
Definition work : list (string * node) := [(".git", Dir []); ("a_test.go", File false one_test); ("empty", Dir [])].
Definition bare : list (string * node) := [("a_test.go", File false one_test)].

Definition any_go (glob rel : string) : option bool := Some (has_prefix "a" rel).

Definition pinned : Manifest :=
  mkManifest ManifestSchema "t" "how many" "" (default "" (TreeID last20 bare)) "*" 1 "leading_integer" [] "".

Definition quoted (s : string) : string := (String Json.quote s ++ String Json.quote "")%string.
Definition member (k v : string) : string := (quoted k ++ ":" ++ v)%string.

Definition run_record (reply : string) : string :=
  ("{" ++ member "schema" (quoted RunSchema) ++ "," ++ member "task_id" (quoted "t") ++ "," ++ member "manifest_sha256" (quoted "m") ++ ","
      ++ member "substrate_commit" (quoted "") ++ "," ++ member "arm" (quoted "control") ++ "," ++ member "reply" (quoted reply) ++ ","
      ++ member "exit_code" "0" ++ "," ++ member "usage" ("{" ++ member "input_tokens" "3" ++ "," ++ member "output_tokens" "1" ++ "}") ++ "}")%string.

Definition ran_with (reply : string) (l : list (string * node)) : run_dir := mkRunDir (RecordIs (Json.of_string (run_record reply))) (TreeIs l).

Definition scored (d : run_dir) : Verdict * list string :=
  let r := Score last20 (fun _ => "m") any_go pinned "" d in (v r, Reasons r).

Example the_right_answer_passes : scored (ran_with "1 test" work) = (Pass, []).
Proof. vm_compute. done. Qed.

Example a_wrong_answer_fails : scored (ran_with "2" work) = (Fail, ["wrong_answer"]).
Proof. vm_compute. done. Qed.

Example a_changed_file_fails :
  scored (ran_with "1" [("a_test.go", File false (one_test ++ "x")%string)]) = (Fail, ["result_tree_modified"]).
Proof. vm_compute. done. Qed.

Lemma the_same_identity_is_the_same_tree_witness : tracked work = tracked bare \/ collision last20 (tracked_objects last20 (tracked work)) (tracked_objects last20 (tracked bare)).
Proof.
  apply (the_same_identity_is_the_same_tree last20 (fun x => fill_length 20 _) work bare (default "" (TreeID last20 bare)));
    vm_compute; reflexivity.
Defined.

Lemma a_pass_is_earned_witness : exists run l, Answer (default "" (Reply run)) = Some 1 /\ DeriveAnswer any_go l "*" = Some 1.
Proof.
  destruct (proj1 (proj1 (a_pass_is_earned last20 (fun _ => "m") any_go pinned "" (ran_with "1 test" work)))) as (run & l & _ & D & A).
  - vm_compute. reflexivity.
  - exists run, l. split; [exact A | exact D].
Defined.

End OutcomeSpec.
