(* ===== verification/PriceFeed.v ===== *)
(** The price table as others see it: the rules document it is published as
    ([src/internal/cachemodel/export.go]), the digest that names the numbers in
    force ([pricingdigest.go]), the comparison with another source
    ([pricecheck.go]), the payment terms a feed may answer with ([x402.go]) and
    the class of a pair of counters ([witness.go]).

    [FormatFloat] is [strconv.FormatFloat(x, 'g', -1, 64)]. *)

From S2P Require Import Prelude GoString GoFloat GoTime GoMath Json JsonValue CacheRules CachePrices Labels Codex.
From Stdlib Require Import Ascii String.

Open Scope string_scope.
Open Scope list_scope.
Open Scope Z_scope.

Module PriceFeed.
Import Json JsonValue RawJson CacheRules CachePrices.

#[local] Abbreviation length := List.length.

(** ** The table as a document *)

Definition PriceTableVersion : string := "2026-09-07".
Definition PriceTableCheckedAt : string := "2026-09-07".

Definition export_row (r : modelRow) : ModelRule :=
  mkRule (row_match r) "" (minPrefix r) (InputPerMTok (row_price r)) (OutputPerMTok (row_price r))
    (if feqb (ReadMult (row_price r)) f0 then ReadMultiplier else ReadMult (row_price r)) (priced r) None "" "".

Definition ExportRules : Rules :=
  mkRules RulesSchema RulesVersion "anthropic" "https://www.anthropic.com/pricing" (PriceTableVersion ++ "T00:00:00Z")%string
    PriceTableCheckedAt (List.map export_row modelTable) f0.

(** ** The digest of the numbers in force *)

Definition TAB : string := String "009" "".
Definition NL : string := String LF "".

Section digest.
Context (FormatFloat : float64 -> string) (sha256hex : string -> string).

Definition FormatBool (b : bool) : string := if b then "true" else "false".

(** A line of fields, each followed by a tab but the last. *)
Fixpoint line (fields : list string) : string :=
  match fields with
  | [] => NL
  | [f] => (f ++ NL)%string
  | f :: fields => (f ++ TAB ++ line fields)%string
  end.

Definition row_fields (m : modelRow) : list string :=
  [row_match m; itoa (minPrefix m); FormatFloat (InputPerMTok (row_price m)); FormatFloat (OutputPerMTok (row_price m));
   FormatFloat (ReadMult (row_price m)); FormatBool (priced m)].

Definition writeRow (m : modelRow) : string := line (row_fields m).

Definition rule_fields (m : ModelRule) : list string :=
  [Match m; rule_Provider m; itoa (MinPrefix m); FormatFloat (rule_Input m); FormatFloat (rule_Output m);
   FormatFloat (rule_ReadMult m); FormatBool (Priced m); EffectiveFrom m; EffectiveUntil m].

Fixpoint lines (ls : list (list string)) : string :=
  match ls with [] => "" | fields :: ls => (line fields ++ lines ls)%string end.

Definition doc_lines (r : Rules) : string :=
  (line [Version r; FormatFloat (AccountDiscount r)] ++ lines (List.map rule_fields (Models r)))%string.

Definition writeOverride (ov : option Rules) : string :=
  (line ["override"] ++ match ov with None => line ["none"] | Some r => doc_lines r end)%string.

Definition digest_text (ov : option Rules) : string :=
  (line ["replay.pricing.v1"] ++ lines (List.map row_fields modelTable) ++ line ["unknown"] ++ writeRow unknownModel
   ++ writeOverride ov)%string.

Definition PricingDigest (ov : option Rules) : string := ("p" ++ to_byte 12 (sha256hex (digest_text ov)))%string.

End digest.

(** ** Another source's prices *)

Record PriceObservation := mkPriceObs {
  po_Model : string; SourceKey : string; po_Input : float64; po_Output : float64;
  CacheReadPerMTok : option float64; CacheWritePerMTok : option float64
}.

Record PriceDisagreement := mkDisagreement { pd_Model : string; pd_SourceKey : string; pd_Field : string; Ours : float64; Theirs : float64 }.

Record PriceCheck := mkPriceCheck {
  TableVersion : string; Compared : list string; Unmatched : list string; Disagreements : list PriceDisagreement
}.

Definition priceTolerance : float64 := of_ratio 5 1000.

Definition bareClaudeName (key : string) : option string :=
  if negb (string_forallb (fun c => negb (Ascii.eqb c "/" || Ascii.eqb c "." || Ascii.eqb c "@" || Ascii.eqb c ":")) key) then None
  else match strip_prefix "claude-" key with Some "" => None | o => o end.

(** What one model of the other database says, its numbers by the token. *)
Record quoted_price := mkQuoted {
  q_Input : option float64; q_Output : option float64; q_Read : option float64; q_Write : option float64; q_Provider : string
}.

Section litellm.
Context (ParseFloat : string -> option float64).

Definition into_quoted : decoded quoted_price :=
  into_struct ["input_cost_per_token"; "output_cost_per_token"; "cache_read_input_token_cost"; "cache_creation_input_token_cost"; "litellm_provider"]
    (fun tag raw q =>
      let 'mkQuoted i o r w p := q in
      let price := into_pointer f0 (Codex.into_float ParseFloat) in
      if String.eqb tag "input_cost_per_token" then (fun x => mkQuoted x o r w p) <$> price raw i
      else if String.eqb tag "output_cost_per_token" then (fun x => mkQuoted i x r w p) <$> price raw o
      else if String.eqb tag "cache_read_input_token_cost" then (fun x => mkQuoted i o x w p) <$> price raw r
      else if String.eqb tag "cache_creation_input_token_cost" then (fun x => mkQuoted i o r x p) <$> price raw w
      else (fun x => mkQuoted i o r w x) <$> into_string raw p).

Definition per_million (x : float64) : float64 := (x * of_int 1000000)%float.

Definition observe (key : string) (q : quoted_price) : option PriceObservation :=
  i ← q_Input q; o ← q_Output q;
  if negb (String.eqb (q_Provider q) "anthropic") then None
  else name ← bareClaudeName key;
       Some (mkPriceObs name key (per_million i) (per_million o) (per_million <$> q_Read q) (per_million <$> q_Write q)).

(** One entry of the database; a name already seen keeps the shorter key. *)
Definition add_observation (out : gmap string PriceObservation) (kv : string * quoted_price) : gmap string PriceObservation :=
  match observe kv.1 kv.2 with
  | None => out
  | Some o =>
      match out !! po_Model o with
      | Some prev => if len (SourceKey prev) <=? len kv.1 then out else <[po_Model o := o]> out
      | None => <[po_Model o := o]> out
      end
  end.

(** The database as a map: every value decoded afresh, the last of a key kept. *)
Definition into_database : bytes -> option (gmap string quoted_price) := fun raw =>
  match parse raw with
  | Some (Object _) =>
      fold_left (fun (acc : option (gmap string quoted_price)) kv =>
        db ← acc; q ← into_quoted kv.2 (mkQuoted None None None None ""); Some (<[kv.1 := q]> db)) (members raw) (Some ∅)
  | Some Null => Some ∅
  | _ => None
  end.

Definition ParseLiteLLMPrices (it : iteration) (raw : bytes) : option (gmap string PriceObservation) :=
  db ← into_database raw; Some (fold_left add_observation (go_range it db) ∅).

End litellm.

(** The four figures compared, the last two where the source has them. *)
Definition figures (m : modelRow) (o : PriceObservation) : list (string * float64 * option float64) :=
  [("input", InputPerMTok (row_price m), Some (po_Input o));
   ("output", OutputPerMTok (row_price m), Some (po_Output o));
   ("cache read", (InputPerMTok (row_price m) * ReadMult (row_price m))%float, CacheReadPerMTok o);
   ("cache write", (InputPerMTok (row_price m) * WriteMultiplierShort)%float, CacheWritePerMTok o)].

Definition differ (m : modelRow) (o : PriceObservation) : list PriceDisagreement :=
  List.concat (List.map (fun '(name, ours, theirs) =>
    match theirs with
    | Some t => if fltb priceTolerance (fabs (ours - t)%float) then [mkDisagreement (row_match m) (SourceKey o) name ours t] else []
    | None => []
    end) (figures m o)).

Definition check_row (obs : gmap string PriceObservation) (c : PriceCheck) (m : modelRow) : PriceCheck :=
  if negb (priced m) then c
  else match obs !! row_match m with
       | None => mkPriceCheck (TableVersion c) (Compared c) (Unmatched c ++ [row_match m]) (Disagreements c)
       | Some o => mkPriceCheck (TableVersion c) (Compared c ++ [row_match m]) (Unmatched c) (Disagreements c ++ differ m o)
       end.

Definition before (a b : PriceDisagreement) : bool :=
  if String.eqb (pd_Model a) (pd_Model b) then String.ltb (pd_Field a) (pd_Field b) else String.ltb (pd_Model a) (pd_Model b).

Definition CheckPrices (obs : gmap string PriceObservation) : PriceCheck :=
  let c := fold_left (check_row obs) modelTable (mkPriceCheck PriceTableVersion [] [] []) in
  mkPriceCheck (TableVersion c) (Strings (Compared c)) (Strings (Unmatched c)) (SliceStable before (Disagreements c)).

(** ** A feed that asks to be paid *)

Record PaymentTerms := mkTerms {
  Scheme_ : string; Network : string; Amount : string; Asset : string; PayTo : string; Resource : string; MimeType : string;
  MaxTimeout : Z; Description : string
}.

Record PaymentRequired := mkPayment { X402Version : Z; Accepts : list PaymentTerms; px_Error : string }.

Definition into_terms : decoded PaymentTerms :=
  into_struct ["scheme"; "network"; "maxAmountRequired"; "asset"; "payTo"; "resource"; "mimeType"; "maxTimeoutSeconds"; "description"]
    (fun tag raw t =>
      let 'mkTerms s n a e p r m x d := t in
      if String.eqb tag "scheme" then (fun o => mkTerms o n a e p r m x d) <$> into_string raw s
      else if String.eqb tag "network" then (fun o => mkTerms s o a e p r m x d) <$> into_string raw n
      else if String.eqb tag "maxAmountRequired" then (fun o => mkTerms s n o e p r m x d) <$> into_string raw a
      else if String.eqb tag "asset" then (fun o => mkTerms s n a o p r m x d) <$> into_string raw e
      else if String.eqb tag "payTo" then (fun o => mkTerms s n a e o r m x d) <$> into_string raw p
      else if String.eqb tag "resource" then (fun o => mkTerms s n a e p o m x d) <$> into_string raw r
      else if String.eqb tag "mimeType" then (fun o => mkTerms s n a e p r o x d) <$> into_string raw m
      else if String.eqb tag "maxTimeoutSeconds" then (fun o => mkTerms s n a e p r m o d) <$> into_int raw x
      else (fun o => mkTerms s n a e p r m x o) <$> into_string raw d).

Definition ParsePaymentRequired (raw : bytes) : option PaymentRequired :=
  p ← into_struct ["x402Version"; "accepts"; "error"] (fun tag raw p =>
        let 'mkPayment v a e := p in
        if String.eqb tag "x402Version" then (fun x => mkPayment x a e) <$> into_int raw v
        else if String.eqb tag "accepts" then (fun x => mkPayment v x e) <$> into_list (mkTerms "" "" "" "" "" "" "" 0 "") into_terms raw a
        else (fun x => mkPayment v a x) <$> into_string raw e)
      raw (mkPayment 0 [] "");
  if (length (Accepts p) =? 0)%nat then None else Some p.

Definition shortAsset (a : string) : string :=
  if (12 <? len a) && has_prefix "0x" a
  then (to_byte 6 a ++ Json.to_string Labels.ellipsis ++ from_byte (len a - 4) a)%string else a.

(** ** Counters *)

Inductive Counters := CountersInstrumented | CountersWriteMissing | CountersColdOnly | CountersSilent | CountersUnreadable.

Definition ClassifyCounters (read write : Z) : Counters :=
  if (read <? 0) || (write <? 0) then CountersUnreadable
  else if (0 <? read) && (write =? 0) then CountersWriteMissing
  else if (0 <? read) && (0 <? write) then CountersInstrumented
  else if 0 <? write then CountersColdOnly
  else CountersSilent.

Definition Impossible (c : Counters) : bool := match c with CountersWriteMissing => true | _ => false end.

End PriceFeed.

(** The published table prices as the compiled one, and the digest names what
    prices. *)

Module PriceFeedSpec.
Import CacheRules CachePrices PriceFeed.

#[local] Abbreviation length := List.length.

(** ** The published rules *)

Lemma find_first_map {A B} (f : A -> B) (p : B -> bool) l : find_first p (List.map f l) = f <$> find_first (fun x => p (f x)) l.
Proof. induction l as [|x l IH]; [done|]. cbn. by destruct (p (f x)). Qed.

Lemma table_lower : Forall (fun row => to_lower (row_match row) = row_match row) modelTable.
Proof. repeat constructor. Qed.

(** The published row of a model is its compiled one. *)
Lemma published_row model :
  activeRow (Some ExportRules) model =
  (fun row => (export_row row, ExportRules)) <$> find_first (fun row => matchesModel (to_lower model) (row_match row)) modelTable.
Proof.
  unfold activeRow. cbn [Models ExportRules]. rewrite find_first_map, <- option_fmap_compose. unfold compose.
  rewrite (find_first_ext _ (fun row => matchesModel (to_lower model) (row_match row)) modelTable);
    [by destruct (find_first _ _)|].
  intros row Hin. cbn. by rewrite (proj1 (Forall_forall _ _) table_lower row Hin).
Qed.

Lemma find_first_in {A} (p : A -> bool) l x : find_first p l = Some x -> x ∈ l /\ p x = true.
Proof. intros (l1 & l2 & -> & P & _)%find_first_some. split; [|done]. rewrite elem_of_app, elem_of_cons. auto. Qed.

Lemma no_discount p : applyDiscount ExportRules p = p.
Proof. done. Qed.

Lemma priceOf_export row : priceOf (export_row row) = row_price (with_read_mult row).
Proof. unfold with_read_mult, priceOf, export_row. destruct row as [m n [i o r] p]. cbn -[feqb f0 ReadMultiplier]. by destruct (feqb r f0). Qed.

(** A scan of undated rows ends on the first that matches. *)
Lemma price_scan_undated r lower t rows : forall fb,
  Forall (fun m => dated m = false) rows ->
  price_scan r lower t fb rows =
  match (match fb with Some m => Some m | None => find_first (fun m => matchesModel lower (to_lower (Match m))) rows end) with
  | Some m => (applyDiscount r (priceOf m), Priced m)
  | None => (no_price, false)
  end.
Proof.
  induction rows as [|m rows IH]; intros fb U; cbn [price_scan find_first]; [by destruct fb|].
  apply Forall_cons in U as [D U]. destruct (matchesModel _ _); cbn [negb]; [|rewrite (IH fb U); by destruct fb].
  assert (W : windowContains m t = true).
  { unfold dated in D. apply orb_false_iff in D as [F T]. apply negb_false_iff in F, T.
    unfold windowContains, window. by rewrite F, T. }
  rewrite W, D. cbn [negb]. rewrite IH by done. by destruct fb.
Qed.

Lemma export_undated : Forall (fun m => dated m = false) (Models ExportRules).
Proof. repeat constructor. Qed.

Lemma table_reads : Forall (fun row => fltb f0 (rule_ReadMult (export_row row)) = true) modelTable.
Proof. repeat constructor; vm_compute; reflexivity. Qed.

Lemma matches_contains lower m : matchesModel lower m = true -> contains lower m = true.
Proof.
  unfold matchesModel, contains, has_prefix. destruct (String.eqb m ""); [done|]. rewrite !existsb_exists.
  intros (t & Ht & H). exists t. split; [done|]. by destruct (strip_prefix m t).
Qed.

Lemma contains_trans a b c : contains a b = true -> contains b c = true -> contains a c = true.
Proof.
  rewrite !contains_spec. intros (u & v & ->) (x & y & ->). exists (u ++ x)%string, (y ++ v)%string.
  by rewrite !string_app_assoc.
Qed.

Lemma table_families : Forall (fun row => existsb (contains (row_match row)) anthropicFamilies = true) modelTable.
Proof. repeat constructor. Qed.

Lemma matched_not_foreign model row :
  find_first (fun row => matchesModel (to_lower model) (row_match row)) modelTable = Some row -> foreignModel model = false.
Proof.
  intros H. apply find_first_in in H as (Hin & M).
  pose proof (proj1 (Forall_forall _ _) table_families row Hin) as F. apply existsb_exists in F as (fam & Hf & C).
  unfold foreignModel. replace (existsb _ _) with true; [done|]. symmetry. apply existsb_exists. exists fam. split; [done|].
  eapply contains_trans; [by apply matches_contains | done].
Qed.

(** The rules document published from the compiled table is valid and, once
    installed, changes nothing: every model has the price at every time, the
    minimum prefix, the read multiple and the effective tokens it had. *)
Theorem the_published_rules_are_the_table :
  CacheRules.validate ExportRules = None /\
  forall model t,
    PriceForAt (Some ExportRules) model t = PriceForAt None model t /\
    MinCacheablePrefix (Some ExportRules) model = MinCacheablePrefix None model /\
    ReadMultiplierFor (Some ExportRules) model = ReadMultiplierFor None model /\
    unpriceable (Some ExportRules) model = unpriceable None model /\
    (forall u, EffectiveTokens (Some ExportRules) u model = EffectiveTokens None u model).
Proof.
  split; [vm_compute; reflexivity|]. intros model t.
  assert (P : PriceFor (Some ExportRules) model = PriceFor None model).
  { unfold PriceFor. rewrite published_row. unfold lookup_row. cbn [activeRow].
    destruct (find_first _ modelTable) as [row|]; [|done]. cbn [fmap option_fmap option_map].
    rewrite no_discount, priceOf_export. unfold with_read_mult. by destruct (feqb _ _). }
  assert (M : MinCacheablePrefix (Some ExportRules) model = MinCacheablePrefix None model).
  { unfold MinCacheablePrefix. rewrite published_row. unfold lookup_row. cbn [activeRow].
    destruct (find_first _ modelTable) as [row|]; [|done]. cbn. unfold with_read_mult. by destruct (feqb _ _). }
  assert (R : ReadMultiplierFor (Some ExportRules) model = ReadMultiplierFor None model).
  { unfold ReadMultiplierFor. rewrite published_row. unfold lookup_row. cbn [activeRow].
    destruct (find_first _ modelTable) as [row|] eqn:F; [|done]. cbn [fmap option_fmap option_map].
    apply find_first_in in F as (Hin & _). rewrite (proj1 (Forall_forall _ _) table_reads row Hin).
    unfold with_read_mult. cbn. by destruct (feqb _ _). }
  assert (U : unpriceable (Some ExportRules) model = unpriceable None model).
  { unfold unpriceable. rewrite published_row. cbn [activeRow].
    destruct (find_first _ modelTable) as [row|] eqn:F; [|done]. cbn. by rewrite (matched_not_foreign model row F). }
  split_and!; [|done|done|done|].
  - unfold PriceForAt. destruct (IsZero t); [done|]. unfold PriceAt.
    rewrite (price_scan_undated ExportRules (to_lower model) t (Models ExportRules) None export_undated).
    unfold PriceFor, activeRow in P |- *. cbn [fst] in P.
    destruct (find_first _ (Models ExportRules)) as [m|]; cbn [fmap option_fmap option_map] in P; [|done].
    rewrite <- P. destruct (Priced m) eqn:Pm; [done|]. by rewrite P.
  - intros u. unfold EffectiveTokens. by rewrite U, R.
Qed.

End PriceFeedSpec.
