(* ===== verification/EvidenceVerify.v ===== *)
(** The check of a claim against the bytes of a transcript
    ([src/internal/evidenceverify]): a strict JSON scanner that keeps the place
    of every member, and the verdict on one of them; then the register of claims
    ([src/internal/stateledger]) and the standing evidence gives a claim
    ([src/internal/evidenceclaim]).

    Strings of the source are bytes.  The wording of a failure ([Detail]) is
    left out; every reason is kept.  A frame is shared by pointer in the
    source: [close_frame] fills in its end where the object ends.  The digest is
    a parameter. *)

From S2P Require Import Prelude GoString Json Wire WireSpec.
From Stdlib Require Import Ascii String.

Open Scope string_scope.
Open Scope list_scope.
Open Scope Z_scope.

Module EvidenceVerify.
Import Json Wire.

#[local] Abbreviation length := List.length.

(** ** Verdicts, claims and limits *)

Inductive Verdict := Unverified | Refuted | Ambiguous | Confirmed.

Inductive Reason :=
| TranscriptHashMismatch | LocatorMalformed | LocatorOutOfRange | FragmentHashMismatch | FragmentSpanMismatch
| LocatorNotValue | LocatorKeyMismatch | MalformedJSON | InvalidUTF8 | ResourceLimit | UnsupportedPredicate
| DuplicateConflict | LiteralMismatch | LiteralMatch.

Record Span := mkSpan { Start : Z; End_ : Z }.

Record Result := mkResult {
  verdict : Verdict; reason : Reason; ObjectOffset : Z; KeySpan : Span; ValueSpan : Span; MatchingOccurrences : Z
}.

Record Locator := mkLocator { TranscriptSHA256 : bytes; ValueOffset : Z; FragmentLength : Z; FragmentSHA256 : bytes }.

(** [InvalidLiteral] is a [Literal] of any kind that is not a scalar's. *)
Inductive Literal :=
| InvalidLiteral | BoolLiteral (b : bool) | StringLiteral (s : bytes) | NumberLiteral (lex : bytes) | NullLiteral.

Definition valid (l : Literal) : bool := match l with InvalidLiteral => false | _ => true end.

Record Predicate := mkPredicate { Key : bytes; Expect : Literal }.

Record Limits := mkLimits { MaxTranscriptBytes : Z; MaxDepth : Z; MaxMembers : Z; MaxMatches : Z }.

Definition DefaultLimits : Limits := mkLimits (Z.shiftl 64 20) 256 (Z.shiftl 16 20) (Z.shiftl 1 16).

Definition normalized (l : Limits) : Limits :=
  let or_default (x d : Z) := if x <=? 0 then d else x in
  mkLimits (or_default (MaxTranscriptBytes l) (MaxTranscriptBytes DefaultLimits))
    (or_default (MaxDepth l) (MaxDepth DefaultLimits)) (or_default (MaxMembers l) (MaxMembers DefaultLimits))
    (or_default (MaxMatches l) (MaxMatches DefaultLimits)).

(** ** Values *)

Inductive value := VBool (b : bool) | VString (s : bytes) | VNumber (lex : bytes) | VNull | VObject (raw : bytes) | VArray (raw : bytes).

#[export] Instance value_eq_dec : EqDecision value.
Proof. solve_decision. Defined.

Definition equal (v o : value) : bool :=
  match v, o with
  | VBool a, VBool b => Bool.eqb a b
  | VString a, VString b | VNumber a, VNumber b | VObject a, VObject b | VArray a, VArray b => bool_decide (a = b)
  | VNull, VNull => true
  | _, _ => false
  end.

Definition hasConflict (vals : list value) : bool :=
  match vals with [] => false | v0 :: vs => existsb (fun v => negb (equal v v0)) vs end.

Definition literalMatches (v : value) (want : Literal) : bool :=
  match want, v with
  | BoolLiteral b, VBool a => Bool.eqb a b
  | StringLiteral s, VString a | NumberLiteral s, VNumber a => bool_decide (a = s)
  | NullLiteral, VNull => true
  | _, _ => false
  end.

(** ** The scanner *)

Inductive scanned (A : Type) := Done (a : A) | Failed (r : Reason) | OutOfFuel.
Arguments Done {A} a.
Arguments Failed {A} r.
Arguments OutOfFuel {A}.

#[export] Instance scanned_bind : MBind scanned := fun A B f x =>
  match x with Done a => f a | Failed r => Failed r | OutOfFuel => OutOfFuel end.

Record occurrence := mkOcc {
  frame_start : nat; frame_end : nat; occ_key : bytes; keyStart : nat; keyEnd : nat;
  valueStart : nat; valueEnd : nat; occ_value : value
}.

(** [rest] is what lies at [pos] and after. *)
Record scanner := mkScan { rest : bytes; pos : nat; found : option occurrence; members : Z; depth : Z }.

Definition goto (l : bytes) (s : scanner) : scanner :=
  mkScan l (pos s + (length (rest s) - length l))%nat (found s) (members s) (depth s).

Fixpoint skip (l : bytes) : bytes :=
  match l with c :: l' => if is_json_space c then skip l' else l | [] => [] end.

Definition skipSpace (s : scanner) : scanner := goto (skip (rest s)) s.

(** The end of a frame, written into the occurrence that points to it. *)
Definition set_end (start fin : nat) (o : occurrence) : occurrence :=
  if (frame_start o =? start)%nat
  then mkOcc start fin (occ_key o) (keyStart o) (keyEnd o) (valueStart o) (valueEnd o) (occ_value o) else o.

Definition close_frame (start fin : nat) (s : scanner) : scanner :=
  mkScan (rest s) (pos s) (set_end start fin <$> found s) (members s) (depth s).

(** *** Strings *)

Definition short_escape (e : ascii) : option ascii :=
  if Ascii.eqb e quote then Some quote else if Ascii.eqb e backslash then Some backslash
  else if Ascii.eqb e "/" then Some "/"%char else if Ascii.eqb e "b" then Some (byte 8)
  else if Ascii.eqb e "f" then Some (byte 12) else if Ascii.eqb e "n" then Some (byte 10)
  else if Ascii.eqb e "r" then Some (byte 13) else if Ascii.eqb e "t" then Some (byte 9) else None.

Definition of_option {A} (o : option A) : scanned A := match o with Some a => Done a | None => Failed MalformedJSON end.

(** An escape after its [\u]: what it writes and what follows it. *)
Definition escape_u (l : bytes) : scanned (bytes * bytes) :=
  '(r1, next) ← of_option (readHex4 l);
  if is_surrogate r1 then
    match next with
    | b :: u :: next2 =>
        if Ascii.eqb b backslash && Ascii.eqb u "u" then
          '(r2, after) ← of_option (readHex4 next2);
          dec ← of_option (decode_surrogates r1 r2); Done (encode_rune dec, after)
        else Failed MalformedJSON
    | _ => Failed MalformedJSON
    end
  else Done (encode_rune r1, next).

Definition decode_byte (l : bytes) : N * nat :=
  match l with c :: _ => if (N_of_ascii c <? 128)%N then (N_of_ascii c, 1%nat) else decode_rune l | [] => decode_rune l end.

(** The loop of [scanString], after the opening quote; every turn consumes. *)
Fixpoint string_body (fuel : nat) (l : bytes) : scanned (bytes * bytes) :=
  match fuel, l with
  | _, [] => Failed MalformedJSON
  | O, _ => OutOfFuel
  | S fuel, c :: l' =>
      let go out next := '(sb, after) ← string_body fuel next; Done (out ++ sb, after) in
      if Ascii.eqb c quote then Done ([], l')
      else if Ascii.eqb c backslash then
        match l' with
        | [] => Failed MalformedJSON
        | e :: l'' =>
            match short_escape e with
            | Some x => go [x] l''
            | None => if Ascii.eqb e "u" then '(out, next) ← escape_u l''; go out next else Failed MalformedJSON
            end
        end
      else if (N_of_ascii c <? 32)%N then Failed MalformedJSON
      else let '(r, size) := decode_byte l in
           if ((r =? ReplacementChar)%N && (size =? 1)%nat) then Failed InvalidUTF8
           else go (encode_rune r) (drop size l)
  end.

Definition scanString (l : bytes) : scanned (bytes * bytes) := string_body (length l) l.

(** *** Numbers and keywords *)

Fixpoint skip_digits (l : bytes) : bytes :=
  match l with c :: l' => if is_digit c then skip_digits l' else l | [] => [] end.

Definition need_digits (l : bytes) : scanned bytes :=
  match l with c :: l' => if is_digit c then Done (skip_digits l') else Failed MalformedJSON | [] => Failed MalformedJSON end.

Definition skip_sign (l : bytes) : bytes :=
  match l with c :: l' => if Ascii.eqb c "+" || Ascii.eqb c "-" then l' else l | [] => [] end.

Definition integer_part (l : bytes) : scanned bytes :=
  match l with
  | [] => Failed MalformedJSON
  | c :: l' =>
      if Ascii.eqb c "0" then
        match l' with d :: _ => if is_digit d then Failed MalformedJSON else Done l' | [] => Done l' end
      else if is_digit c then Done (skip_digits l') else Failed MalformedJSON
  end.

Definition fraction (l : bytes) : scanned bytes :=
  match l with c :: l' => if Ascii.eqb c "." then need_digits l' else Done l | [] => Done l end.

Definition exponent (l : bytes) : scanned bytes :=
  match l with c :: l' => if Ascii.eqb c "e" || Ascii.eqb c "E" then need_digits (skip_sign l') else Done l | [] => Done l end.

Definition minus (l : bytes) : bytes := match l with c :: l' => if Ascii.eqb c "-" then l' else l | [] => [] end.

Definition scanNumber (l : bytes) : scanned bytes := l ← integer_part (minus l); l ← fraction l; exponent l.

Definition expectKeyword (word l : bytes) : scanned bytes :=
  if is_prefix word l then Done (drop (length word) l) else Failed MalformedJSON.

(** *** Values, objects and arrays *)

Section scan.
Context (lim : Limits) (target : Z).

Definition enter (s : scanner) : scanned scanner :=
  if MaxDepth lim <? depth s + 1 then Failed ResourceLimit
  else Done (mkScan (rest s) (pos s) (found s) (members s) (depth s + 1)).

Definition leave (s : scanner) : scanner := mkScan (rest s) (pos s) (found s) (members s) (depth s - 1).

Definition count_member (s : scanner) : scanned scanner :=
  if MaxMembers lim <? members s + 1 then Failed ResourceLimit
  else Done (mkScan (rest s) (pos s) (found s) (members s + 1) (depth s)).

(** The occurrence pinned, once. *)
Definition note (o : occurrence) (s : scanner) : scanner :=
  match found s with
  | None => if Z.of_nat (valueStart o) =? target then mkScan (rest s) (pos s) (Some o) (members s) (depth s) else s
  | Some _ => s
  end.

Definition lex_as {A} (r : scanned bytes) (mk : bytes -> A) (s : scanner) : scanned (A * nat * scanner) :=
  l ← r; let s' := goto l s in Done (mk (take (length (rest s) - length l) (rest s)), pos s', s').

(** The value that starts here, its end and the scanner behind it; the loops
    read one member or element each turn.  [start] is where the object is. *)
Fixpoint scanValue (fuel : nat) (s : scanner) : scanned (value * nat * scanner) :=
  match fuel with
  | O => OutOfFuel
  | S fuel =>
      let s := skipSpace s in
      match rest s with
      | [] => Failed MalformedJSON
      | c :: l =>
          if Ascii.eqb c "{" then
            let start := pos s in
            inside ← enter s;
            let inside := skipSpace (goto l inside) in
            '(fin, s') ←
              match rest inside with
              | c :: l' => if Ascii.eqb c "}" then let s' := goto l' inside in Done (pos s', close_frame start (pos s') s')
                           else object_loop fuel start inside
              | [] => object_loop fuel start inside
              end;
            Done (VObject (take (fin - start) (rest s)), fin, leave s')
          else if Ascii.eqb c "[" then
            let start := pos s in
            inside ← enter s;
            let inside := skipSpace (goto l inside) in
            '(fin, s') ←
              match rest inside with
              | c :: l' => if Ascii.eqb c "]" then let s' := goto l' inside in Done (pos s', s') else array_loop fuel inside
              | [] => array_loop fuel inside
              end;
            Done (VArray (take (fin - start) (rest s)), fin, leave s')
          else if Ascii.eqb c quote then
            '(str, l) ← scanString l; let s' := goto l s in Done (VString str, pos s', s')
          else if Ascii.eqb c "t" then lex_as (expectKeyword (of_string "true") (rest s)) (fun _ => VBool true) s
          else if Ascii.eqb c "f" then lex_as (expectKeyword (of_string "false") (rest s)) (fun _ => VBool false) s
          else if Ascii.eqb c "n" then lex_as (expectKeyword (of_string "null") (rest s)) (fun _ => VNull) s
          else if Ascii.eqb c "-" || is_digit c then lex_as (scanNumber (rest s)) VNumber s
          else Failed MalformedJSON
      end
  end
with object_loop (fuel : nat) (start : nat) (s : scanner) : scanned (nat * scanner) :=
  match fuel with
  | O => OutOfFuel
  | S fuel =>
      let s := skipSpace s in
      let kstart := pos s in
      match rest s with
      | q :: l =>
          if Ascii.eqb q quote then
            '(key, l) ← scanString l;
            let s := goto l s in
            let kend := pos s in
            let s := skipSpace s in
            match rest s with
            | c :: l =>
                if Ascii.eqb c ":" then
                  let s := skipSpace (goto l s) in
                  let vstart := pos s in
                  '(v, vend, s) ← scanValue fuel s;
                  s ← count_member s;
                  let s := skipSpace (note (mkOcc start 0 key kstart kend vstart vend v) s) in
                  match rest s with
                  | c :: l =>
                      if Ascii.eqb c "," then object_loop fuel start (goto l s)
                      else if Ascii.eqb c "}" then let s := goto l s in Done (pos s, close_frame start (pos s) s)
                      else Failed MalformedJSON
                  | [] => Failed MalformedJSON
                  end
                else Failed MalformedJSON
            | [] => Failed MalformedJSON
            end
          else Failed MalformedJSON
      | [] => Failed MalformedJSON
      end
  end
with array_loop (fuel : nat) (s : scanner) : scanned (nat * scanner) :=
  match fuel with
  | O => OutOfFuel
  | S fuel =>
      '(_, _, s) ← scanValue fuel (skipSpace s);
      s ← count_member s;
      let s := skipSpace s in
      match rest s with
      | c :: l =>
          if Ascii.eqb c "," then array_loop fuel (goto l s)
          else if Ascii.eqb c "]" then let s := goto l s in Done (pos s, s)
          else Failed MalformedJSON
      | [] => Failed MalformedJSON
      end
  end.

End scan.

(** Each level and each turn of a loop takes at most two. *)
Definition fuel_for (b : bytes) : nat := (2 * length b + 2)%nat.

Definition start_of (b : bytes) : scanner := mkScan b 0 None 0 0.

Definition scanWhole (b : bytes) (target : Z) (lim : Limits) : scanned (option occurrence) :=
  let s := skipSpace (start_of b) in
  match rest s with
  | [] => Failed MalformedJSON
  | _ => '(_, _, s) ← scanValue lim target (fuel_for b) s;
         match rest (skipSpace s) with [] => Done (found s) | _ => Failed MalformedJSON end
  end.

(** The loop of [scanScope]: the values of [wantKey] so far and their number. *)
Fixpoint scope_loop (lim : Limits) (wantKey : bytes) (fuel : nat) (vals : list value) (count : Z) (s : scanner)
  : scanned (list value * Z) :=
  match fuel with
  | O => OutOfFuel
  | S fuel =>
      let s := skipSpace s in
      match rest s with
      | q :: l =>
          if Ascii.eqb q quote then
            '(key, l) ← scanString l;
            let s := skipSpace (goto l s) in
            match rest s with
            | c :: l =>
                if Ascii.eqb c ":" then
                  '(v, _, s) ← scanValue lim (-1) fuel (skipSpace (goto l s));
                  s ← count_member lim s;
                  let wanted := bool_decide (key = wantKey) in
                  let count := if wanted then count + 1 else count in
                  if wanted && (MaxMatches lim <? count) then Failed ResourceLimit
                  else
                    let vals := if wanted then vals ++ [v] else vals in
                    let s := skipSpace s in
                    match rest s with
                    | c :: l =>
                        if Ascii.eqb c "," then scope_loop lim wantKey fuel vals count (goto l s)
                        else if Ascii.eqb c "}" then Done (vals, count)
                        else Failed MalformedJSON
                    | [] => Failed MalformedJSON
                    end
                else Failed MalformedJSON
            | [] => Failed MalformedJSON
            end
          else Failed MalformedJSON
      | [] => Failed MalformedJSON
      end
  end.

Definition scanScope (b : bytes) (objStart objEnd : nat) (wantKey : bytes) (lim : Limits) : scanned (list value * Z) :=
  let b := take (objEnd - objStart) (drop objStart b) in
  match b with
  | c :: l =>
      if Ascii.eqb c "{" then
        let s := skipSpace (goto l (start_of b)) in
        match rest s with
        | c :: _ => if Ascii.eqb c "}" then Done ([], 0) else scope_loop lim wantKey (fuel_for b) [] 0 s
        | [] => scope_loop lim wantKey (fuel_for b) [] 0 s
        end
      else Failed MalformedJSON
  | [] => Failed MalformedJSON
  end.

(** ** The verdict *)

Definition no_span : Span := mkSpan 0 0.

Definition unverified (r : Reason) (offset : Z) : Result := mkResult Unverified r offset no_span no_span 0.

Section verify.
Context (sha256 : bytes -> bytes).

(** [None] would be a scan that does not end. *)
Definition VerifyWithLimits (transcript : bytes) (loc : Locator) (pred : Predicate) (lim : Limits) : option Result :=
  let lim := normalized lim in
  let n := Z.of_nat (length transcript) in
  if bool_decide (Key pred = []) || negb (valid (Expect pred)) then Some (unverified UnsupportedPredicate (-1))
  else if MaxTranscriptBytes lim <? n then Some (unverified ResourceLimit (-1))
  else if negb (bool_decide (sha256 transcript = TranscriptSHA256 loc)) then Some (unverified TranscriptHashMismatch (-1))
  else if (ValueOffset loc <? 0) || (FragmentLength loc <=? 0) then Some (unverified LocatorMalformed (-1))
  else if (n <? ValueOffset loc) || (n - ValueOffset loc <? FragmentLength loc) then Some (unverified LocatorOutOfRange (-1))
  else
    let fragment := take (Z.to_nat (FragmentLength loc)) (drop (Z.to_nat (ValueOffset loc)) transcript) in
    if negb (bool_decide (sha256 fragment = FragmentSHA256 loc)) then Some (unverified FragmentHashMismatch (-1))
    else
      match scanWhole transcript (ValueOffset loc) lim with
      | OutOfFuel => None
      | Failed r => Some (unverified r (-1))
      | Done None => Some (unverified LocatorNotValue (-1))
      | Done (Some occ) =>
          let object := Z.of_nat (frame_start occ) in
          if negb (bool_decide (occ_key occ = Key pred)) then Some (unverified LocatorKeyMismatch object)
          else if negb (Z.of_nat (valueEnd occ) - Z.of_nat (valueStart occ) =? FragmentLength loc)
          then Some (unverified FragmentSpanMismatch object)
          else
            match scanScope transcript (frame_start occ) (frame_end occ) (Key pred) lim with
            | OutOfFuel => None
            | Failed r => Some (unverified r object)
            | Done (vals, count) =>
                let established v r := Some (mkResult v r object
                  (mkSpan (Z.of_nat (keyStart occ)) (Z.of_nat (keyEnd occ)))
                  (mkSpan (Z.of_nat (valueStart occ)) (Z.of_nat (valueEnd occ))) count) in
                if hasConflict vals then established Ambiguous DuplicateConflict
                else if literalMatches (occ_value occ) (Expect pred) then established Confirmed LiteralMatch
                else established Refuted LiteralMismatch
            end
      end.

Definition Verify (transcript : bytes) (loc : Locator) (pred : Predicate) : option Result :=
  VerifyWithLimits transcript loc pred DefaultLimits.

(** [LocateValue]: the locator of the value that starts at a byte. *)
Definition LocateValue (transcript : bytes) (valueOffset : Z) : option Locator :=
  if (valueOffset <? 0) || (Z.of_nat (length transcript) <=? valueOffset) then None
  else match scanWhole transcript valueOffset DefaultLimits with
       | Done (Some occ) =>
           let fragment := take (valueEnd occ - valueStart occ) (drop (valueStart occ) transcript) in
           Some (mkLocator (sha256 transcript) valueOffset (Z.of_nat (valueEnd occ) - Z.of_nat (valueStart occ)) (sha256 fragment))
       | _ => None
       end.

(** [VerifyIsErrorOccurrence] of [internal/transcript/occurrenceverify.go]. *)
Definition VerifyIsErrorOccurrence (raw : bytes) (loc : Locator) (expect : bool) : option Result :=
  Verify raw loc (mkPredicate (of_string "is_error") (BoolLiteral expect)).

End verify.

End EvidenceVerify.

(** The register of claims ([src/internal/stateledger/ledger.go]): what was
    asserted, what was run, and how each standing came to be.  [Render] is left
    out, and so is the time of a check, which nothing sets. *)

Module StateLedger.

#[local] Abbreviation length := List.length.

Inductive Standing := Asserted | Supported | Contradicted | Superseded | Unresolved.
Inductive Kind := Locates | Executable | Dispositive.
Inductive Outcome := Supports | Contradicts | Inconclusive | NotRun.

#[export] Instance standing_eq_dec : EqDecision Standing.
Proof. solve_decision. Defined.
#[export] Instance kind_eq_dec : EqDecision Kind.
Proof. solve_decision. Defined.

Definition OriginUnknown : string := "origin not recorded".

Record Entry := mkEntry { entry_Standing : Standing; Because : string }.

Record ClaimRow := mkClaim {
  claim_ID : string; claim_Text : string; Origin : string; claim_Standing : Standing; Replacement : option string; claim_History : list Entry
}.

Record CheckRow := mkCheck {
  check_ID : string; ClaimID : string; check_Kind : Kind; Action : string; check_Result : string; check_Outcome : Outcome
}.

Record Ledger := mkLedger { Session : string; claims : list ClaimRow; checks : list CheckRow; open : gmap string (list string) }.

Definition New (session : string) : Ledger := mkLedger session [] [] ∅.

Definition numbered (prefix : string) (n : nat) : string := (prefix ++ itoa (Z.of_nat n + 1))%string.

Definition Claim (l : Ledger) (txt origin : string) : string * Ledger :=
  let origin := if String.eqb (trim_space origin) "" then OriginUnknown else origin in
  let id := numbered "c" (length (claims l)) in
  (id, mkLedger (Session l) (claims l ++ [mkClaim id txt origin Asserted None [mkEntry Asserted ""]]) (checks l) (open l)).

Definition Check_ (l : Ledger) (claimID : string) (k : Kind) (action result : string) (o : Outcome) : string * Ledger :=
  let id := numbered "k" (length (checks l)) in
  (id, mkLedger (Session l) (claims l) (checks l ++ [mkCheck id claimID k action result o]) (open l)).

Definition checkByID (l : Ledger) (id : string) : option CheckRow := find_first (fun c => String.eqb (check_ID c) id) (checks l).
Definition ClaimByID (l : Ledger) (id : string) : option ClaimRow := find_first (fun c => String.eqb (claim_ID c) id) (claims l).
Definition History (l : Ledger) (id : string) : list Entry := match ClaimByID l id with Some c => claim_History c | None => [] end.

Inductive settled := NoSuchCheck | NotDispositive (k : Kind) | CanSettle.

Definition Settle (l : Ledger) (claimID checkID : string) : settled :=
  match checkByID l checkID with
  | None => NoSuchCheck
  | Some c => if decide (check_Kind c = Dispositive) then CanSettle else NotDispositive (check_Kind c)
  end.

Definition Open (l : Ledger) (claimID question : string) : Ledger :=
  mkLedger (Session l) (claims l) (checks l) (<[claimID := default [] (open l !! claimID) ++ [question]]> (open l)).

Definition HasOpenQuestion (l : Ledger) (claimID : string) : bool := match default [] (open l !! claimID) with [] => false | _ => true end.

(** The first row of an id is the one the source points to. *)
Fixpoint revised (id : string) (f : ClaimRow -> ClaimRow) (rows : list ClaimRow) : list ClaimRow :=
  match rows with
  | [] => []
  | c :: rows => if String.eqb (claim_ID c) id then f c :: rows else c :: revised id f rows
  end.

Definition standing_text (s : Standing) : string :=
  match s with
  | Asserted => "ASSERTED" | Supported => "SUPPORTED" | Contradicted => "CONTRADICTED" | Superseded => "SUPERSEDED" | Unresolved => "UNRESOLVED"
  end.

Definition revise (to : Standing) (checkID : string) (replacement : option string) (c : ClaimRow) : ClaimRow :=
  mkClaim (claim_ID c) (claim_Text c) (Origin c) to replacement (claim_History c ++ [mkEntry to checkID]).

Definition Revise (l : Ledger) (claimID checkID : string) (to : Standing) (replacement : option string) : Ledger :=
  match ClaimByID l claimID with
  | None => Open l claimID ("revision to " ++ standing_text to ++ " by check " ++ checkID ++ " names no claim")%string
  | Some _ =>
      let l := mkLedger (Session l) (revised claimID (revise to checkID replacement) (claims l)) (checks l) (open l) in
      match to, replacement with
      | Contradicted, None => Open l claimID "replacement unresolved"
      | _, _ => l
      end
  end.

End StateLedger.

(** A claim with the evidence brought for it ([src/internal/evidenceclaim]);
    the explanation and its rendering are left out. *)

Module EvidenceClaim.
Import Json EvidenceVerify.

(** [CoverageUnknown] is any other code. *)
Inductive Coverage := CoverageFull | CoveragePartial | CoverageNone | CoverageUnsupported | CoverageUnknown.

Record ClaimResult := mkResult {
  ClaimText : string; SourceID : string; cr_Coverage : Coverage; Standing_ : StateLedger.Standing; Outcome_ : StateLedger.Outcome;
  cr_Verdict : Verdict; cr_Reason : option Reason; ArtifactSHA256 : option bytes; cr_ValueSpan : Span
}.

Definition verdictToOutcome (v : Verdict) : StateLedger.Outcome :=
  match v with
  | Confirmed => StateLedger.Supports | Refuted => StateLedger.Contradicts
  | Ambiguous => StateLedger.Inconclusive | Unverified => StateLedger.NotRun
  end.

Definition verdictToStanding (v : Verdict) : StateLedger.Standing :=
  match v with
  | Confirmed => StateLedger.Supported | Refuted => StateLedger.Contradicted
  | Ambiguous => StateLedger.Unresolved | Unverified => StateLedger.Unresolved
  end.

Definition Evaluate (sha256 : bytes -> bytes) (claimText sourceID : string) (raw : bytes) (loc : Locator) (pred : Predicate)
  (coverage : Coverage) : option ClaimResult :=
  let unevaluated := Some (mkResult claimText sourceID coverage StateLedger.Unresolved StateLedger.NotRun Unverified None None no_span) in
  match coverage with
  | CoverageUnknown | CoverageNone | CoverageUnsupported => unevaluated
  | CoverageFull | CoveragePartial =>
      vr ← Verify sha256 raw loc pred;
      let bound := match verdict vr with Unverified => false | _ => true end in
      Some (mkResult claimText sourceID coverage (verdictToStanding (verdict vr)) (verdictToOutcome (verdict vr)) (verdict vr) (Some (reason vr))
             (if bound then Some (TranscriptSHA256 loc) else None) (if bound then ValueSpan vr else no_span))
  end.

End EvidenceClaim.
