(* ===== verification/EvidenceText.v ===== *)
(** What a JSON document is, written down without a scanner: a tree with the
    blanks its text has, its bytes, and the members it holds where they stand
    ([text], [wf], [occs]); then the scanner's strings and numbers against it
    ([src/internal/evidenceverify/verify.go], [scanString] and [scanNumber]). *)

From S2P Require Import Prelude GoString Json Wire WireSpec EvidenceVerify.
From Stdlib Require Import Ascii String.

Open Scope string_scope.
Open Scope list_scope.
Open Scope Z_scope.

Module EvidenceText.
Import Json Wire EvidenceVerify.

#[local] Abbreviation length := List.length.

#[local] Arguments backslash : simpl never.
#[local] Arguments quote : simpl never.
#[local] Arguments is_json_space c : simpl never.
#[local] Arguments is_digit c : simpl never.

(** ** Documents *)

(** A character as it stands, a short escape, [\uXXXX], or a surrogate pair. *)
Inductive piece := Plain (p : bytes) | Short (e : ascii) | Unicode (h : bytes) | Pair (h1 h2 : bytes).

Definition piece_text (p : piece) : bytes :=
  match p with
  | Plain p => p
  | Short e => [backslash; e]
  | Unicode h => backslash :: "u"%char :: h
  | Pair h1 h2 => backslash :: "u"%char :: h1 ++ backslash :: "u"%char :: h2
  end.

Definition plain (p : bytes) : bool :=
  match p with
  | [c] => ((32 <=? N_of_ascii c) && (N_of_ascii c <? 128))%N && negb (Ascii.eqb c quote) && negb (Ascii.eqb c backslash)
  | _ => (2 <=? length p)%nat && ((decode_rune p).2 =? length p)%nat
  end.

Definition code_of (h : bytes) : option N := match readHex4 h with Some (r, []) => Some r | _ => None end.

(** The bytes a piece stands for; [None] when it may not stand in a string. *)
Definition piece_means (p : piece) : option bytes :=
  match p with
  | Plain p => if plain p then Some p else None
  | Short e => (fun x => [x]) <$> short_escape e
  | Unicode h => r ← code_of h; if is_surrogate r then None else Some (encode_rune r)
  | Pair h1 h2 => r1 ← code_of h1; r2 ← code_of h2; encode_rune <$> decode_surrogates r1 r2
  end.

Fixpoint means (ps : list piece) : option bytes :=
  match ps with [] => Some [] | p :: ps => a ← piece_means p; b ← means ps; Some (a ++ b) end.

Definition said (ps : list piece) : bytes := default [] (means ps).

Definition inner_text (ps : list piece) : bytes := List.concat (List.map piece_text ps).

Definition string_text (ps : list piece) : bytes := quote :: inner_text ps ++ [quote].

Record number := mkNumber { negative : bool; int_part : bytes; frac_part : option bytes; exp_part : option (bytes * bytes) }.

Definition number_text (n : number) : bytes :=
  (if negative n then ["-"%char] else []) ++ int_part n
  ++ match frac_part n with Some d => "."%char :: d | None => [] end
  ++ match exp_part n with Some (m, d) => m ++ d | None => [] end.

Definition all_digits (l : bytes) : Prop := l <> [] /\ forallb is_digit l = true.

Definition exp_mark (m : bytes) : Prop := m ∈ List.map of_string ["e"; "E"; "e+"; "e-"; "E+"; "E-"].

Definition number_ok (n : number) : Prop :=
  (int_part n = ["0"%char] \/ (all_digits (int_part n) /\ head (int_part n) <> Some "0"%char)) /\
  (forall d, frac_part n = Some d -> all_digits d) /\
  (forall m d, exp_part n = Some (m, d) -> exp_mark m /\ all_digits d).

(** The key of a member with the blanks around its colon. *)
Record label := mkLabel { key_text : list piece; before_colon : bytes; after_colon : bytes }.

(** [Items true] is an object and its items have labels; [Items false] is an
    array and they have none. *)
Inductive doc :=
| Boolean (b : bool)
| Nothing
| Number (n : number)
| Text (ps : list piece)
| Empty (object : bool) (blank : bytes)
| Items (object : bool) (ms : items)
with items := Item (before : bytes) (k : option label) (d : doc) (after : bytes) (m : more)
with more := End | Comma (ms : items).

Scheme doc_ind' := Induction for doc Sort Prop
  with items_ind' := Induction for items Sort Prop
  with more_ind' := Induction for more Sort Prop.
Combined Scheme doc_items_ind from doc_ind', items_ind', more_ind'.

Definition opening (object : bool) : ascii := if object then "{"%char else "["%char.
Definition closing (object : bool) : ascii := if object then "}"%char else "]"%char.

Definition label_text (k : option label) : bytes :=
  match k with
  | Some l => string_text (key_text l) ++ before_colon l ++ ":"%char :: after_colon l
  | None => []
  end.

Fixpoint text (d : doc) : bytes :=
  match d with
  | Boolean b => of_string (if b then "true" else "false")
  | Nothing => of_string "null"
  | Number n => number_text n
  | Text ps => string_text ps
  | Empty object w => opening object :: w ++ [closing object]
  | Items object ms => opening object :: items_text object ms
  end
with items_text (object : bool) (ms : items) : bytes :=
  match ms with Item w k d w' m => w ++ label_text k ++ text d ++ w' ++ more_text object m end
with more_text (object : bool) (m : more) : bytes :=
  match m with End => [closing object] | Comma ms => ","%char :: items_text object ms end.

Definition blank (w : bytes) : Prop := forallb is_json_space w = true.

Definition label_ok (object : bool) (k : option label) : Prop :=
  match k with
  | Some l => object = true /\ is_Some (means (key_text l)) /\ blank (before_colon l) /\ blank (after_colon l)
  | None => object = false
  end.

Fixpoint wf (d : doc) : Prop :=
  match d with
  | Number n => number_ok n
  | Text ps => is_Some (means ps)
  | Empty _ w => blank w
  | Items object ms => items_wf object ms
  | _ => True
  end
with items_wf (object : bool) (ms : items) : Prop :=
  match ms with Item w k d w' m => blank w /\ label_ok object k /\ wf d /\ blank w' /\ more_wf object m end
with more_wf (object : bool) (m : more) : Prop :=
  match m with End => True | Comma ms => items_wf object ms end.

(** The members and elements in it, at every level. *)
Fixpoint size (d : doc) : Z :=
  match d with Items _ ms => items_size ms | _ => 0 end
with items_size (ms : items) : Z :=
  match ms with Item _ _ d _ m => size d + 1 + more_size m end
with more_size (m : more) : Z :=
  match m with End => 0 | Comma ms => items_size ms end.

(** How many objects and arrays are around the innermost. *)
Fixpoint height (d : doc) : Z :=
  match d with Empty _ _ => 1 | Items _ ms => 1 + items_height ms | _ => 0 end
with items_height (ms : items) : Z :=
  match ms with Item _ _ d _ m => Z.max (height d) (more_height m) end
with more_height (m : more) : Z :=
  match m with End => 0 | Comma ms => items_height ms end.

Definition value_of (d : doc) : value :=
  match d with
  | Boolean b => VBool b
  | Nothing => VNull
  | Number n => VNumber (number_text n)
  | Text ps => VString (said ps)
  | Empty true _ | Items true _ => VObject (text d)
  | Empty false _ | Items false _ => VArray (text d)
  end.

(** The member an item is, and the members below [d] written at [base]. *)
Definition own (frame fin at_ : nat) (k : option label) (d : doc) : list occurrence :=
  match k with
  | Some l =>
      let vs := (at_ + length (label_text k))%nat in
      [mkOcc frame fin (said (key_text l)) at_ (at_ + length (string_text (key_text l))) vs (vs + length (text d)) (value_of d)]
  | None => []
  end.

Fixpoint occs (base : nat) (d : doc) : list occurrence :=
  match d with Items object ms => items_occs base (base + length (text d)) (S base) ms | _ => [] end
with items_occs (frame fin at_ : nat) (ms : items) : list occurrence :=
  match ms with
  | Item w k d w' m =>
      let at_ := (at_ + length w)%nat in
      let vs := (at_ + length (label_text k))%nat in
      occs vs d ++ own frame fin at_ k d ++ more_occs frame fin (vs + length (text d) + length w') m
  end
with more_occs (frame fin at_ : nat) (m : more) : list occurrence :=
  match m with End => [] | Comma ms => items_occs frame fin (S at_) ms end.

(** ** Characters and strings *)

Ltac Zify.zify_post_hook ::= Z.to_euclidean_division_equations.

Lemma byte_of c n : N_of_ascii c = n -> byte n = c.
Proof. intros <-. apply ascii_N_embedding. Qed.

Lemma encode_2 a b : (194 <= N_of_ascii a <= 223)%N -> (128 <= N_of_ascii b <= 191)%N ->
  encode_rune (N_of_ascii a mod 32 * 64 + N_of_ascii b mod 64) = [a; b].
Proof.
  intros A B. pose proof (WireSpec.rune_bounds_2 _ _ A B) as R. unfold encode_rune.
  rewrite (proj2 (N.ltb_ge _ 128)), (proj2 (N.ltb_lt _ 2048)) by lia.
  rewrite (byte_of a), (byte_of b) by lia. done.
Qed.

Lemma encode_3 a b c : (224 <= N_of_ascii a <= 239)%N ->
  ((if N_of_ascii a =? 224 then 160 else 128) <= N_of_ascii b <= if N_of_ascii a =? 237 then 159 else 191)%N ->
  (128 <= N_of_ascii c <= 191)%N ->
  encode_rune (N_of_ascii a mod 16 * 4096 + N_of_ascii b mod 64 * 64 + N_of_ascii c mod 64) = [a; b; c].
Proof.
  intros A B C. pose proof (WireSpec.rune_bounds_3 _ _ _ A B C) as [R S]. unfold encode_rune.
  rewrite (proj2 (N.ltb_ge _ 128)), (proj2 (N.ltb_ge _ 2048)) by lia.
  pose proof (WireSpec.not_surrogate _ S) as NS. unfold is_surrogate in NS. rewrite NS, (proj2 (N.ltb_ge 1114111 _)) by lia.
  rewrite (proj2 (N.ltb_lt _ 65536)) by lia. cbn [orb]. clear R S NS.
  assert (128 <= N_of_ascii b <= 191)%N by (repeat case_match; lia). clear B.
  rewrite (byte_of a), (byte_of b), (byte_of c) by lia. done.
Qed.

Lemma encode_4 a b c d : (240 <= N_of_ascii a <= 244)%N ->
  ((if N_of_ascii a =? 240 then 144 else 128) <= N_of_ascii b <= if N_of_ascii a =? 244 then 143 else 191)%N ->
  (128 <= N_of_ascii c <= 191)%N -> (128 <= N_of_ascii d <= 191)%N ->
  encode_rune (N_of_ascii a mod 8 * 262144 + N_of_ascii b mod 64 * 4096 + N_of_ascii c mod 64 * 64 + N_of_ascii d mod 64) = [a; b; c; d].
Proof.
  intros A B C D. pose proof (WireSpec.rune_bounds_4 _ _ _ _ A B C D) as R. unfold encode_rune.
  rewrite (proj2 (N.ltb_ge _ 128)), (proj2 (N.ltb_ge _ 2048)) by lia.
  pose proof (WireSpec.not_surrogate _ (or_intror (N.lt_le_trans 57343 65536 _ ltac:(done) (proj1 R)))) as NS.
  unfold is_surrogate in NS. rewrite NS, (proj2 (N.ltb_ge 1114111 _)) by lia.
  rewrite (proj2 (N.ltb_ge _ 65536)) by lia. cbn [orb]. clear R NS.
  assert (128 <= N_of_ascii b <= 191)%N by (repeat case_match; lia). clear B.
  rewrite (byte_of a), (byte_of b), (byte_of c), (byte_of d) by lia. done.
Qed.

(** What the decoder accepts is written back as it was. *)
Lemma decode_rune_encodes l : decode_rune l = (ReplacementChar, 1%nat) \/
  exists p q, l = p ++ q /\ (2 <= length p)%nat /\ decode_rune l = (fst (decode_rune l), length p) /\ encode_rune (decode_rune l).1 = p.
Proof.
  unfold decode_rune, is_cont. destruct l as [|c0 l]; [by left|].
  destruct (in_range 194 223 (N_of_ascii c0)) eqn:E2.
  - destruct l as [|c1 l]; [by left|]. destruct (in_range 128 191 (N_of_ascii c1)) eqn:E; [|by left].
    apply WireSpec.in_range_spec in E2, E. right. exists [c0; c1], l. cbn [fst]. split_and!; [done|cbn;lia|done|by apply encode_2].
  - destruct (in_range 224 239 (N_of_ascii c0)) eqn:E3.
    + destruct l as [|c1 [|c2 l]]; [by left..|].
      destruct (in_range _ _ (N_of_ascii c1)) eqn:E; [|by left]. destruct (in_range 128 191 (N_of_ascii c2)) eqn:F; [|by left].
      apply WireSpec.in_range_spec in E3, E, F. right. exists [c0; c1; c2], l. cbn [fst andb].
      split_and!; [done|cbn;lia|done|by apply encode_3].
    + destruct (in_range 240 244 (N_of_ascii c0)) eqn:E4; [|by left]. destruct l as [|c1 [|c2 [|c3 l]]]; [by left..|].
      destruct (in_range _ _ (N_of_ascii c1)) eqn:E; [|by left]. destruct (in_range 128 191 (N_of_ascii c2)) eqn:F; [|by left].
      destruct (in_range 128 191 (N_of_ascii c3)) eqn:G; [|by left].
      apply WireSpec.in_range_spec in E4, E, F, G. right. exists [c0; c1; c2; c3], l. cbn [fst andb].
      split_and!; [done|cbn;lia|done|by apply encode_4].
Qed.

Ltac Zify.zify_post_hook ::= idtac.

Lemma byte_range c : (N_of_ascii c < 256)%N.
Proof. by destruct c as [[] [] [] [] [] [] [] []]. Qed.

(** A plain character, wherever it stands: what is read and written back. *)
Lemma plain_read p q : plain p = true ->
  exists c l, p = c :: l /\ Ascii.eqb c quote = false /\ Ascii.eqb c backslash = false /\ (N_of_ascii c <? 32)%N = false /\
    exists r, decode_byte (p ++ q) = (r, length p) /\ ((r =? ReplacementChar)%N && (length p =? 1)%nat) = false /\ encode_rune r = p.
Proof.
  destruct p as [|c [|c' p]]; [done| |]; unfold plain.
  - intros H. rewrite !andb_true_iff, !negb_true_iff, N.leb_le, N.ltb_lt in H. destruct H as (((L & U) & Q) & B).
    exists c, []. split_and!; try done; [by apply N.ltb_ge|]. exists (N_of_ascii c). cbn [decode_byte app].
    rewrite (proj2 (N.ltb_lt _ _) U). split_and!; [done| |].
    + apply andb_false_iff. left. apply N.eqb_neq. unfold ReplacementChar. lia.
    + unfold encode_rune. rewrite (proj2 (N.ltb_lt _ _) U). f_equal. by apply byte_of.
  - rewrite andb_true_iff, Nat.eqb_eq. intros [_ H].
    destruct (WireSpec.decode_rune_sound (c :: c' :: p)) as [E|S]; [rewrite E in H; cbn in H; lia|].
    destruct (decode_rune_encodes (c :: c' :: p)) as [E|(p' & q' & Hp & L & D & R)]; [rewrite E in H; cbn in H; lia|].
    destruct S as (_ & _ & _ & p1 & q1 & Hp1 & L1 & Hi & D1). rewrite H in L1.
    assert (p1 = c :: c' :: p) as -> by (apply (f_equal (take (length (c :: c' :: p)))) in Hp1;
      rewrite take_ge, <- L1, take_app_length in Hp1; [done|lia]).
    rewrite D in H. cbn [snd] in H.
    assert (p' = c :: c' :: p) as -> by (apply (f_equal (take (length (c :: c' :: p)))) in Hp;
      rewrite take_ge, <- H, take_app_length in Hp; [done|lia]).
    exists c, (c' :: p). cbn [forallb] in Hi. apply andb_true_iff in Hi as [Hi _]. unfold WireSpec.high in Hi.
    assert (128 <= N_of_ascii c)%N by (destruct (N.leb_spec 128 (N_of_ascii c)); [lia|done]).
    assert (forall x, (N_of_ascii x < 128)%N -> Ascii.eqb c x = false) as Hne.
    { intros x Hx. apply Ascii.eqb_neq. intros ->. lia. }
    split_and!; [done|by apply Hne|by apply Hne|apply N.ltb_ge; lia|].
    exists (decode_rune (c :: c' :: p)).1. split_and!; [|by rewrite andb_false_r|done].
    unfold decode_byte. cbn [app]. rewrite (proj2 (N.ltb_ge _ _)) by lia.
    change (c :: c' :: p ++ q) with ((c :: c' :: p) ++ q). rewrite D1. by rewrite D in D1 |- *.
Qed.

Lemma short_not_u e x : short_escape e = Some x -> Ascii.eqb e "u" = false.
Proof. by destruct e as [[] [] [] [] [] [] [] []]. Qed.

Lemma readHex4_app h r t : code_of h = Some r -> readHex4 (h ++ t) = Some (r, t).
Proof.
  unfold code_of, readHex4. destruct h as [|a [|b [|c [|d h]]]]; try done. cbn [app].
  destruct (forallb is_hex [a; b; c; d]); [|done]. destruct h; [|done]. by intros [= <-].
Qed.

Lemma readHex4_code l r t : readHex4 l = Some (r, t) -> exists h, l = h ++ t /\ code_of h = Some r.
Proof.
  unfold code_of, readHex4. destruct l as [|a [|b [|c [|d l]]]]; try done.
  destruct (forallb is_hex [a; b; c; d]) eqn:E; [|done]. intros [= <- <-]. exists [a; b; c; d]. by rewrite E.
Qed.

Lemma surrogates_first r1 r2 dec : decode_surrogates r1 r2 = Some dec -> is_surrogate r1 = true.
Proof.
  unfold decode_surrogates, is_surrogate. destruct (in_range 55296 56319 r1) eqn:E; [|done]. intros _.
  apply WireSpec.in_range_spec in E. apply WireSpec.in_range_spec. lia.
Qed.

(** The escapes of [scanString] are the pieces [Unicode] and [Pair]. *)
Lemma escape_u_reads p out t : (exists h, p = Unicode h) \/ (exists h1 h2, p = Pair h1 h2) ->
  piece_means p = Some out ->
  exists l, piece_text p = backslash :: "u"%char :: l /\ escape_u (l ++ t) = Done (out, t).
Proof.
  intros [(h & ->)|(h1 & h2 & ->)]; cbn [piece_means piece_text].
  - destruct (code_of h) as [r|] eqn:C; [|done]. cbn. destruct (is_surrogate r) eqn:S; [done|]. intros [= <-].
    exists h. split; [done|]. unfold escape_u. rewrite (readHex4_app _ _ t C). cbn. by rewrite S.
  - destruct (code_of h1) as [r1|] eqn:C1; [|done]. cbn. destruct (code_of h2) as [r2|] eqn:C2; [|done]. cbn.
    destruct (decode_surrogates r1 r2) as [dec|] eqn:D; [|done]. intros [= <-].
    eexists. split; [done|]. unfold escape_u. rewrite <- app_assoc, (readHex4_app _ _ _ C1). cbn.
    rewrite (surrogates_first _ _ _ D), (readHex4_app _ _ _ C2). cbn. by rewrite D.
Qed.

Lemma escape_u_means l out t : escape_u l = Done (out, t) ->
  exists p, piece_means p = Some out /\ backslash :: "u"%char :: l = piece_text p ++ t.
Proof.
  unfold escape_u. destruct (readHex4 l) as [[r1 n1]|] eqn:H1; [|done]. cbn. apply readHex4_code in H1 as (h1 & -> & C1).
  destruct (is_surrogate r1) eqn:S.
  - destruct n1 as [|b [|u n2]]; [done..|]. destruct (Ascii.eqb_spec b backslash) as [->|]; [|by cbn].
    destruct (Ascii.eqb_spec u "u") as [->|]; [|by cbn]. cbn.
    destruct (readHex4 n2) as [[r2 n3]|] eqn:H2; [|done]. cbn. apply readHex4_code in H2 as (h2 & -> & C2).
    destruct (decode_surrogates r1 r2) as [dec|] eqn:D; [|done]. intros [= <- <-].
    exists (Pair h1 h2). cbn. rewrite C1. cbn. rewrite C2. cbn. rewrite D. split; [done|]. by rewrite <- app_assoc.
  - intros [= <- <-]. exists (Unicode h1). cbn. rewrite C1. cbn. by rewrite S.
Qed.

(** [scanString] reads what a string's text means, and only such texts. *)
Lemma string_body_reads ps : forall f v t, means ps = Some v -> (length (inner_text ps) < f)%nat ->
  string_body f (inner_text ps ++ quote :: t) = Done (v, t).
Proof.
  unfold inner_text. induction ps as [|p ps IH]; intros [|f] v t M L; try (cbn in L; lia).
  { injection M as <-. done. }
  cbn [means] in M. destruct (piece_means p) as [a|] eqn:P; [|done]. cbn in M.
  destruct (means ps) as [b|] eqn:M'; [|done]. injection M as <-.
  cbn [List.map List.concat] in L |- *. rewrite length_app in L. rewrite <- app_assoc.
  assert (forall g, (length (List.concat (List.map piece_text ps)) < g)%nat ->
    string_body g (List.concat (List.map piece_text ps) ++ quote :: t) = Done (b, t)) as IH' by (intros; by apply IH).
  set (l := List.concat (List.map piece_text ps) ++ quote :: t) in *.
  destruct p as [q|e|h|h1 h2].
  - cbn [piece_means piece_text] in P, L |- *. destruct (plain q) eqn:Q; [|done]. injection P as <-.
    destruct (plain_read q l Q) as (c & q' & Hq & C1 & C2 & C3 & r & D & N & E).
    rewrite Hq in L |- *. cbn [length app string_body] in L |- *. rewrite C1, C2, C3.
    change (c :: q' ++ l) with ((c :: q') ++ l). rewrite <- Hq, D, N, E, drop_app_length, IH' by (cbn in L; lia). cbn. by rewrite Hq.
  - cbn [piece_means piece_text] in P, L |- *. destruct (short_escape e) as [x|] eqn:S; [|done]. injection P as <-.
    cbn [length app string_body] in L |- *. rewrite S, IH' by lia. done.
  - destruct (escape_u_reads (Unicode h) a l (or_introl (ex_intro _ h eq_refl)) P) as (k & Hk & E).
    rewrite Hk in L |- *. cbn [length app string_body] in L |- *. rewrite E. cbn. rewrite IH' by lia. done.
  - destruct (escape_u_reads (Pair h1 h2) a l (or_intror (ex_intro _ h1 (ex_intro _ h2 eq_refl))) P) as (k & Hk & E).
    rewrite Hk in L |- *. cbn [length app string_body] in L |- *. rewrite E. cbn. rewrite IH' by lia. done.
Qed.

Lemma plain_means c l : Ascii.eqb c quote = false -> Ascii.eqb c backslash = false -> (N_of_ascii c <? 32)%N = false ->
  let '(r, size) := decode_byte (c :: l) in
  ((r =? ReplacementChar)%N && (size =? 1)%nat) = false ->
  exists p, plain p = true /\ encode_rune r = p /\ c :: l = p ++ drop size (c :: l).
Proof.
  intros Q B C. cbn [decode_byte]. destruct (N.ltb_spec (N_of_ascii c) 128) as [U|U].
  - intros _. exists [c]. cbn [plain]. rewrite Q, B. apply N.ltb_ge in C. rewrite (proj2 (N.leb_le _ _) C), (proj2 (N.ltb_lt _ _) U).
    split_and!; [done| |done]. unfold encode_rune. rewrite (proj2 (N.ltb_lt _ _) U). f_equal. by apply byte_of.
  - destruct (decode_rune (c :: l)) as [r w] eqn:D. intros N.
    destruct (WireSpec.decode_rune_sound (c :: l)) as [E|S]; [rewrite E in D; injection D as <- <-; done|].
    destruct (decode_rune_encodes (c :: l)) as [E|(p & q & Hl & L & D' & R)]; [rewrite E in D; injection D as <- <-; done|].
    rewrite D in D', R, S. cbn [fst snd] in D', R, S. injection D' as ->.
    exists p. split_and!; [|done|by rewrite Hl, drop_app_length].
    destruct S as (_ & _ & _ & p1 & q1 & Hp & L1 & _ & D1).
    assert (p1 = p) as -> by (rewrite Hl in Hp; apply (f_equal (take (length p))) in Hp; rewrite take_app_length in Hp;
      rewrite Hp, <- L1, take_app_length; done).
    specialize (D1 []). rewrite app_nil_r in D1. destruct p as [|c' [|c'' p]]; [cbn in L; lia..|].
    unfold plain. by rewrite D1, Nat.eqb_refl.
Qed.

Lemma string_body_means f : forall l v t, string_body f l = Done (v, t) ->
  exists ps, means ps = Some v /\ l = inner_text ps ++ quote :: t.
Proof.
  assert (forall p a ps b l t t', piece_means p = Some a -> means ps = Some b -> l = piece_text p ++ t ->
    t = inner_text ps ++ quote :: t' -> exists qs, means qs = Some (a ++ b) /\ l = inner_text qs ++ quote :: t') as Step.
  { intros p a ps b l t t' P M -> ->. exists (p :: ps). cbn. rewrite P. cbn. rewrite M.
    split; [done|]. unfold inner_text. cbn. by rewrite <- app_assoc. }
  induction f as [|f IH]; intros [|c l] v t; [done..|]. cbn [string_body].
  destruct (Ascii.eqb_spec c quote) as [->|Hq]; [intros [= <- <-]; by exists []|].
  destruct (Ascii.eqb_spec c backslash) as [->|Hb].
  - destruct l as [|e l]; [done|]. destruct (short_escape e) as [x|] eqn:S.
    + destruct (string_body f l) as [[sb t']| |] eqn:E; try done. intros [= <- <-].
      apply IH in E as (ps & M & ->). apply (Step (Short e) [x] ps sb _ (inner_text ps ++ quote :: t')); try done. cbn. by rewrite S.
    + destruct (Ascii.eqb_spec e "u") as [->|]; [|done]. destruct (escape_u l) as [[out n]| |] eqn:U; try done. cbn.
      destruct (string_body f n) as [[sb t']| |] eqn:E; try done. intros [= <- <-].
      apply escape_u_means in U as (p & P & HU). apply IH in E as (ps & M & ->). by apply (Step p out ps sb _ _ t' P M HU).
  - destruct (N_of_ascii c <? 32)%N eqn:C; [done|].
    pose proof (plain_means c l (proj2 (Ascii.eqb_neq _ _) Hq) (proj2 (Ascii.eqb_neq _ _) Hb) C) as PM.
    destruct (decode_byte (c :: l)) as [r size]. destruct (_ && _) eqn:N; [done|].
    destruct (PM eq_refl) as (p & P & R & Hl).
    destruct (string_body f (drop size (c :: l))) as [[sb t']| |] eqn:E; try done. intros [= <- <-].
    apply IH in E as (ps & M & E). rewrite R. apply (Step (Plain p) p ps sb (c :: l) (drop size (c :: l)) t'); try done. cbn. by rewrite P.
Qed.

Lemma scanString_reads ps v t : means ps = Some v -> scanString (inner_text ps ++ quote :: t) = Done (v, t).
Proof. intros M. apply string_body_reads; [done|]. rewrite length_app. cbn. lia. Qed.

Lemma scanString_means l v t : scanString l = Done (v, t) -> exists ps, means ps = Some v /\ l = inner_text ps ++ quote :: t.
Proof. apply string_body_means. Qed.

Lemma escape_u_shorter l out t : escape_u l = Done (out, t) -> (length t <= length l)%nat.
Proof.
  unfold escape_u. destruct (readHex4 l) as [[r1 n1]|] eqn:H1; [|done]. cbn. apply readHex4_code in H1 as (h1 & -> & _).
  rewrite length_app. destruct (is_surrogate r1).
  - destruct n1 as [|b [|u n2]]; [done..|]. destruct (_ && _); [|done].
    destruct (readHex4 n2) as [[r2 n3]|] eqn:H2; [|done]. cbn. apply readHex4_code in H2 as (h2 & -> & _).
    destruct (decode_surrogates r1 r2); [|done]. intros [= _ <-]. cbn. rewrite length_app. lia.
  - intros [= _ <-]. lia.
Qed.

Lemma decode_byte_size c l : (1 <= (decode_byte (c :: l)).2)%nat.
Proof.
  unfold decode_byte. case_match; [done|]. destruct (WireSpec.decode_rune_sound (c :: l)) as [->|(Hw & _)]; [done|lia].
Qed.

(** The loop consumes, so its fuel is enough, and what is left is shorter. *)
Lemma string_body_ends f : forall l, (length l <= f)%nat -> string_body f l <> OutOfFuel.
Proof.
  induction f as [|f IH]; intros [|c l] L; cbn [string_body length] in *; try done; [lia|].
  assert (forall n (out : bytes), (length n <= length l)%nat -> ('(sb, after) ← string_body f n; Done (out ++ sb, after)) <> OutOfFuel) as Go.
  { intros n out Ln. specialize (IH n ltac:(lia)). by destruct (string_body f n) as [[]| |]. }
  destruct (Ascii.eqb c quote); [done|]. destruct (Ascii.eqb c backslash).
  - destruct l as [|e l]; [done|]. cbn [length] in *. destruct (short_escape e); [apply Go; lia|].
    destruct (Ascii.eqb e "u"); [|done]. destruct (escape_u l) as [[out n]| |] eqn:U; [|done|].
    + cbn. apply Go. apply escape_u_shorter in U. lia.
    + unfold escape_u, of_option in U. by repeat (case_match || cbn in U).
  - destruct (N_of_ascii c <? 32)%N; [done|]. pose proof (decode_byte_size c l) as D.
    destruct (decode_byte (c :: l)) as [r size]. destruct (_ && _); [done|]. apply Go.
    rewrite length_drop. cbn [length snd] in *. lia.
Qed.

Lemma string_body_shorter f l v t : string_body f l = Done (v, t) -> (length t < length l)%nat.
Proof. intros (ps & _ & ->)%string_body_means. rewrite length_app. cbn. lia. Qed.

(** ** Blanks and numbers *)

Lemma blank_app a b : blank (a ++ b) <-> blank a /\ blank b.
Proof. unfold blank. by rewrite forallb_app, andb_true_iff. Qed.

Lemma skip_blank w l : blank w -> skip (w ++ l) = skip l.
Proof. unfold blank. induction w as [|c w IH]; [done|]. cbn. intros [-> H]%andb_true_iff. by apply IH. Qed.

Lemma skip_splits l : exists w, blank w /\ l = w ++ skip l.
Proof.
  induction l as [|c l (w & B & E)]; [by exists []|]. cbn. destruct (is_json_space c) eqn:S; [|by exists []].
  exists (c :: w). unfold blank in *. cbn. rewrite S. split; [done|]. by f_equal.
Qed.

Lemma skip_shorter l : (length (skip l) <= length l)%nat.
Proof. induction l as [|c l IH]; [done|]. cbn. case_match; cbn; lia. Qed.

(** Where a value ends: nothing that could go on a number. *)
Definition stops (r : bytes) : Prop :=
  match r with [] => True | c :: _ => is_json_space c = true \/ c ∈ [","; "]"; "}"]%char end.

Definition not_digit (r : bytes) : Prop := match r with [] => True | c :: _ => is_digit c = false end.

Lemma stops_spec c r : stops (c :: r) ->
  is_digit c = false /\ Ascii.eqb c "." = false /\ Ascii.eqb c "e" || Ascii.eqb c "E" = false.
Proof.
  intros [H|H]; [|repeat (apply elem_of_cons in H as [->|H]; [done|]); by apply elem_of_nil in H].
  revert H. by destruct c as [[] [] [] [] [] [] [] []].
Qed.

Lemma stops_not_digit r : stops r -> not_digit r.
Proof. destruct r; [done|]. intros H. by apply stops_spec in H as (H & _). Qed.

Lemma skip_digits_reads d r : forallb is_digit d = true -> not_digit r -> skip_digits (d ++ r) = r.
Proof.
  induction d as [|c d IH]; cbn.
  - intros _ N. destruct r; [done|]. cbn in N |- *. by rewrite N.
  - intros [-> H]%andb_true_iff N. by apply IH.
Qed.

Lemma skip_digits_splits l : exists d, forallb is_digit d = true /\ l = d ++ skip_digits l.
Proof.
  induction l as [|c l (d & D & E)]; [by exists []|]. cbn. destruct (is_digit c) eqn:S; [|by exists []].
  exists (c :: d). cbn. rewrite S. split; [done|]. by f_equal.
Qed.

Lemma need_digits_reads d r : all_digits d -> not_digit r -> need_digits (d ++ r) = Done r.
Proof.
  intros [N D] R. destruct d as [|c d]; [done|]. cbn in D |- *. apply andb_true_iff in D as [-> D].
  by rewrite skip_digits_reads.
Qed.

Lemma need_digits_means l r : need_digits l = Done r -> exists d, all_digits d /\ l = d ++ r.
Proof.
  destruct l as [|c l]; [done|]. cbn. destruct (is_digit c) eqn:C; [|done]. intros [= <-].
  destruct (skip_digits_splits l) as (d & D & E). exists (c :: d). unfold all_digits. cbn. rewrite C.
  split; [done|]. by f_equal.
Qed.

Definition int_ok (i : bytes) : Prop := i = ["0"%char] \/ (all_digits i /\ head i <> Some "0"%char).

Lemma integer_part_reads i r : int_ok i -> not_digit r -> integer_part (i ++ r) = Done r.
Proof.
  intros [->|[[N D] H]] R.
  - cbn. destruct r as [|c r]; [done|]. cbn in R. by rewrite R.
  - destruct i as [|c i]; [done|]. cbn in D, H |- *. apply andb_true_iff in D as [-> D].
    rewrite (proj2 (Ascii.eqb_neq _ _)) by congruence. by rewrite skip_digits_reads.
Qed.

Lemma integer_part_means l r : integer_part l = Done r -> exists i, int_ok i /\ l = i ++ r.
Proof.
  destruct l as [|c l]; [done|]. cbn. destruct (Ascii.eqb_spec c "0") as [->|Hc].
  - intros H. exists ["0"%char]. split; [by left|]. destruct l as [|d l]; [by injection H as <-|].
    destruct (is_digit d); [done|]. by injection H as <-.
  - destruct (is_digit c) eqn:C; [|done]. intros [= <-]. destruct (skip_digits_splits l) as (d & D & E).
    exists (c :: d). split; [right; unfold all_digits; cbn; rewrite C; split_and!; [done|done|congruence]|]. cbn. by f_equal.
Qed.

Lemma int_head i : int_ok i -> exists c l, i = c :: l /\ is_digit c = true.
Proof.
  intros [->|[[N D] _]]; [by eexists _, _|]. destruct i as [|c i]; [done|]. cbn in D. apply andb_true_iff in D as [D _]. by eexists _, _.
Qed.

Definition exp_text (x : option (bytes * bytes)) : bytes := match x with Some (m, d) => m ++ d | None => [] end.

Definition exp_ok (x : option (bytes * bytes)) : Prop := forall m d, x = Some (m, d) -> exp_mark m /\ all_digits d.

Lemma digit_no_sign c : is_digit c = true -> Ascii.eqb c "+" || Ascii.eqb c "-" = false /\ Ascii.eqb c "-" = false.
Proof. by destruct c as [[] [] [] [] [] [] [] []]. Qed.

Lemma exponent_reads x r : exp_ok x -> stops r -> exponent (exp_text x ++ r) = Done r.
Proof.
  intros X R. destruct x as [[m d]|]; cbn [exp_text].
  - destruct (X m d eq_refl) as [M D]. pose proof (need_digits_reads d r D (stops_not_digit r R)) as ND.
    destruct D as [N D]. destruct d as [|c d]; [done|]. cbn in D. apply andb_true_iff in D as [Dc D].
    apply digit_no_sign in Dc as [Dc _].
    unfold exp_mark in M. cbn in M.
    repeat (apply elem_of_cons in M as [->|M]; [cbn -[need_digits]; rewrite ?Dc; exact ND|]). by apply elem_of_nil in M.
  - destruct r as [|c r]; [done|]. apply stops_spec in R as (_ & _ & E). cbn. by rewrite E.
Qed.

Lemma exponent_means l r : exponent l = Done r -> exists x, exp_ok x /\ l = exp_text x ++ r.
Proof.
  assert (forall m d, exp_mark m -> all_digits d -> exp_ok (Some (m, d))) as OK by (intros m d ?? m' d' [= <- <-]; done).
  destruct l as [|c l]; [intros [= <-]; by exists None|]. cbn.
  destruct (Ascii.eqb c "e" || Ascii.eqb c "E") eqn:E; [|intros [= <-]; by exists None].
  assert (c = "e"%char \/ c = "E"%char) as Hc.
  { apply orb_true_iff in E as [E|E]; apply Ascii.eqb_eq in E; auto. }
  intros H. apply need_digits_means in H as (d & D & H). destruct l as [|c' l]; [destruct d; destruct D; done|].
  cbn in H. destruct (Ascii.eqb c' "+" || Ascii.eqb c' "-") eqn:S.
  - exists (Some ([c; c'], d)). split; [|cbn; by rewrite H]. apply OK; [|done]. unfold exp_mark. cbn.
    apply orb_true_iff in S as [S|S]; apply Ascii.eqb_eq in S as ->; destruct Hc as [->| ->]; set_solver.
  - exists (Some ([c], d)). split; [|cbn; by rewrite H]. apply OK; [|done]. unfold exp_mark. cbn. destruct Hc as [->| ->]; set_solver.
Qed.

Lemma scanNumber_reads n r : number_ok n -> stops r -> scanNumber (number_text n ++ r) = Done r.
Proof.
  destruct n as [neg i fr x]. intros (I & F & X) R. unfold scanNumber, number_text. cbn [negative int_part frac_part exp_part] in *.
  fold (exp_text x). change (exp_ok x) in X. rewrite <- !app_assoc.
  assert (stops r -> not_digit (exp_text x ++ r) /\ (forall c l, exp_text x ++ r = c :: l -> Ascii.eqb c "." = false)) as X0.
  { intros _. destruct x as [[m d]|]; cbn.
    - destruct (X m d eq_refl) as [M _]. unfold exp_mark in M. cbn in M.
      repeat (apply elem_of_cons in M as [->|M]; [split; [done|intros c l Hcl; by injection Hcl as <-]|]). by apply elem_of_nil in M.
    - split; [by apply stops_not_digit|]. intros c l ->. by apply stops_spec in R as (_ & E & _). }
  destruct (X0 R) as [X1 X2]. clear X0.
  set (tl := match fr with Some d => "."%char :: d | None => [] end) in *.
  assert (not_digit (tl ++ exp_text x ++ r) /\ fraction (tl ++ exp_text x ++ r) = Done (exp_text x ++ r)) as [F1 F2].
  { subst tl. destruct fr as [d|]; cbn.
    - split; [done|]. apply need_digits_reads; [by apply F|done].
    - split; [done|]. unfold fraction. destruct (exp_text x ++ r) as [|c l] eqn:E; [done|]. by rewrite (X2 c l eq_refl). }
  assert (minus ((if neg then ["-"%char] else []) ++ i ++ tl ++ exp_text x ++ r) = i ++ tl ++ exp_text x ++ r) as ->.
  { destruct neg; [done|]. destruct (int_head i I) as (c & l & -> & D). cbn. by rewrite (proj2 (digit_no_sign c D)). }
  rewrite integer_part_reads by done. cbn. rewrite F2. cbn. by apply exponent_reads.
Qed.

Lemma scanNumber_means l r : scanNumber l = Done r -> exists n, number_ok n /\ l = number_text n ++ r.
Proof.
  unfold scanNumber. destruct (integer_part (minus l)) as [l1| |] eqn:E1; try done. cbn.
  destruct (fraction l1) as [l2| |] eqn:E2; try done. cbn. intros E3.
  apply integer_part_means in E1 as (i & I & E1). apply exponent_means in E3 as (x & X & ->).
  assert (exists fr, (forall d, fr = Some d -> all_digits d) /\
    l1 = match fr with Some d => "."%char :: d | None => [] end ++ exp_text x ++ r) as (fr & F & ->).
  { destruct l1 as [|c l1]; [injection E2 as H; by exists None|]. cbn in E2. destruct (Ascii.eqb_spec c ".") as [->|].
    - apply need_digits_means in E2 as (d & D & ->). exists (Some d). by split; [intros ? [= <-]|].
    - injection E2 as H. by exists None. }
  exists (mkNumber (match l with c :: _ => Ascii.eqb c "-" | [] => false end) i fr x). split; [by split_and!|].
  unfold number_text. cbn [negative int_part frac_part exp_part]. fold (exp_text x). rewrite <- !app_assoc, <- E1.
  destruct l as [|c l]; [done|]. cbn. by destruct (Ascii.eqb_spec c "-") as [->|].
Qed.

Lemma scanNumber_ends l : scanNumber l <> OutOfFuel.
Proof. unfold scanNumber, exponent, fraction, need_digits, integer_part. by repeat (case_match || cbn). Qed.

Lemma number_starts n : number_ok n -> exists c l, number_text n = c :: l /\ Ascii.eqb c "-" || is_digit c = true.
Proof.
  destruct n as [neg i fr x]. intros (I & _). unfold number_text. cbn [negative int_part frac_part exp_part] in *. destruct neg; [by eexists _, _|].
  destruct (int_head i I) as (c & l & -> & D). cbn. eexists _, _. split; [done|]. by rewrite D, orb_true_r.
Qed.

End EvidenceText.
