(* ===== verification/EvidenceVerifySpec.v ===== *)
(** The verdict on a claim is read off the document: the scanner reads every
    document within its limits and nothing else, it ends, and the check says of
    the member pinned what the tree of [EvidenceText] holds. *)

From S2P Require Import Prelude GoString Json Wire WireSpec EvidenceVerify EvidenceText.
From Stdlib Require Import Ascii String.

Open Scope string_scope.
Open Scope list_scope.
Open Scope Z_scope.

Module EvidenceSpec.
Import Json Wire EvidenceVerify EvidenceText.

#[local] Abbreviation length := List.length.

#[local] Arguments backslash : simpl never.
#[local] Arguments quote : simpl never.
#[local] Arguments is_json_space c : simpl never.
#[local] Arguments is_digit c : simpl never.

(** ** Where the members stand *)

(** A value's text starts with a byte that is neither blank nor a bracket that
    closes. *)
Lemma text_starts d : wf d -> exists c l, text d = c :: l /\ is_json_space c = false /\ Ascii.eqb c "}" = false /\ Ascii.eqb c "]" = false.
Proof.
  destruct d as [[]| |n|ps|[]|[]]; cbn [text wf]; intros W; try by eexists _, _.
  destruct (number_starts n W) as (c & l & E & D). exists c, l. split; [done|]. clear E. revert D.
  by destruct c as [[] [] [] [] [] [] [] []].
Qed.

Lemma skip_text d r : wf d -> skip (text d ++ r) = text d ++ r.
Proof. intros (c & l & -> & S & _)%text_starts. cbn. by rewrite S. Qed.

Lemma skip_label object k d r : label_ok object k -> wf d ->
  skip (label_text k ++ text d ++ r) = label_text k ++ text d ++ r.
Proof. intros L W. destruct k as [l|]; [done|]. by apply skip_text. Qed.

Lemma sizes_nonneg : (forall d, 0 <= size d /\ 0 <= height d) /\ (forall ms, 0 < items_size ms /\ 0 <= items_height ms) /\
  (forall m, 0 <= more_size m /\ 0 <= more_height m).
Proof. apply doc_items_ind; cbn; intros; lia. Qed.

(** Every member below a value starts its object inside the value's text. *)
Lemma occs_bounds :
  (forall d base o, o ∈ occs base d -> (base <= frame_start o < base + length (text d))%nat) /\
  (forall ms object frame fin at_ o, o ∈ items_occs frame fin at_ ms ->
     (frame_start o = frame /\ frame_end o = fin) \/ (at_ <= frame_start o < at_ + length (items_text object ms))%nat) /\
  (forall m object frame fin at_ o, o ∈ more_occs frame fin at_ m ->
     (frame_start o = frame /\ frame_end o = fin) \/ (at_ <= frame_start o < at_ + length (more_text object m))%nat).
Proof.
  apply doc_items_ind; cbn; intros.
  1-5: by apply elem_of_nil in H.
  - apply (H object) in H0 as [[-> _]|H0]; lia.
  - rewrite !elem_of_app in H1. rewrite !length_app. destruct H1 as [H1|[H1|H1]].
    + apply H in H1. lia.
    + destruct k as [l|]; [|by apply elem_of_nil in H1]. apply list_elem_of_singleton in H1 as ->. by left.
    + apply (H0 object) in H1 as [H1|H1]; [by left|lia].
  - by apply elem_of_nil in H.
  - apply (H object) in H0 as [H0|H0]; [by left|lia].
Qed.

Section pin.
Context (target : Z).

(** The occurrence noted: the one there was, or the first at the target. *)
Definition pin (os : list occurrence) (fo : option occurrence) : option occurrence :=
  match fo with Some o => Some o | None => find_first (fun o => Z.of_nat (valueStart o) =? target) os end.

Lemma pin_app a b fo : pin (a ++ b) fo = pin b (pin a fo).
Proof. destruct fo; [done|]. cbn. induction a as [|o a IH]; [done|]. cbn. by destruct (_ =? target). Qed.

Lemma pin_elem os o : pin os None = Some o -> o ∈ os.
Proof. cbn. intros (l1 & l2 & -> & _)%find_first_some. rewrite elem_of_app, elem_of_cons. auto. Qed.

Lemma note_pin o s : note target o s = mkScan (rest s) (pos s) (pin [o] (found s)) (members s) (depth s).
Proof. destruct s as [r p [o'|] m d]; [done|]. cbn. by destruct (_ =? target). Qed.

End pin.

Lemma set_end_frame o frame fin : frame_start o <> frame \/ frame_end o = fin -> set_end frame fin o = o.
Proof.
  unfold set_end. destruct (Nat.eqb_spec (frame_start o) frame) as [E|E]; [|done]. intros [H|H]; [done|].
  destruct o. cbn in *. by subst.
Qed.

(** ** The scanner reads every document *)

(** Bytes that are known are compared by computing. *)
Ltac bytes :=
  repeat match goal with
  | |- context [Ascii.eqb ?a ?b] =>
      let v := eval vm_compute in (Ascii.eqb a b) in
      first [constr_eq v true; change (Ascii.eqb a b) with true | constr_eq v false; change (Ascii.eqb a b) with false]
  end; cbn [orb andb negb]; cbv iota.

Section reads.
Context (lim : Limits) (target : Z).

#[local] Abbreviation pin := (pin target).

Lemma goto_app p r pos fo m dp : goto r (mkScan (p ++ r) pos fo m dp) = mkScan r (pos + length p) fo m dp.
Proof. unfold goto. cbn [rest EvidenceVerify.pos found members depth]. rewrite length_app. f_equal. lia. Qed.

Lemma goto_cons c r pos fo m dp : goto r (mkScan (c :: r) pos fo m dp) = mkScan r (S pos) fo m dp.
Proof. rewrite (goto_app [c] r). f_equal. cbn. lia. Qed.

Lemma skipSpace_blank w l pos fo m dp : blank w -> skip l = l ->
  skipSpace (mkScan (w ++ l) pos fo m dp) = mkScan l (pos + length w) fo m dp.
Proof. intros W L. unfold skipSpace. cbn [rest]. by rewrite skip_blank, L, goto_app. Qed.

Lemma skipSpace_solid l pos fo m dp : skip l = l -> skipSpace (mkScan l pos fo m dp) = mkScan l pos fo m dp.
Proof. intros L. rewrite (skipSpace_blank [] l) by done. f_equal. cbn. lia. Qed.

Lemma count_member_room r pos fo m dp : m + 1 <= MaxMembers lim ->
  count_member lim (mkScan r pos fo m dp) = Done (mkScan r pos fo (m + 1) dp).
Proof. intros H. unfold count_member. cbn. by rewrite (proj2 (Z.ltb_ge _ _)) by lia. Qed.

Lemma enter_room r pos fo m dp : dp + 1 <= MaxDepth lim ->
  enter lim (mkScan r pos fo m dp) = Done (mkScan r pos fo m (dp + 1)).
Proof. intros H. unfold enter. cbn. by rewrite (proj2 (Z.ltb_ge _ _)) by lia. Qed.

Definition reads (d : doc) : Prop := forall f r p fo m dp,
  wf d -> stops r -> (2 * length (text d ++ r) + 1 <= f)%nat ->
  m + size d <= MaxMembers lim -> dp + height d <= MaxDepth lim -> (forall o, fo = Some o -> frame_start o < p)%nat ->
  scanValue lim target f (mkScan (text d ++ r) p fo m dp) =
  Done (value_of d, (p + length (text d))%nat, mkScan r (p + length (text d)) (pin (occs p d) fo) (m + size d) dp).

Definition object_reads (ms : items) : Prop := forall f r frame p fo m dp,
  items_wf true ms -> (2 * length (items_text true ms ++ r) + 2 <= f)%nat ->
  m + items_size ms <= MaxMembers lim -> dp + items_height ms <= MaxDepth lim ->
  (forall o, fo = Some o -> frame_start o < p)%nat -> (frame < p)%nat ->
  let fin := (p + length (items_text true ms))%nat in
  object_loop lim target f frame (mkScan (items_text true ms ++ r) p fo m dp) =
  Done (fin, mkScan r fin (set_end frame fin <$> pin (items_occs frame fin p ms) fo) (m + items_size ms) dp).

Definition array_reads (ms : items) : Prop := forall f r frame e p fo m dp,
  items_wf false ms -> (2 * length (items_text false ms ++ r) + 2 <= f)%nat ->
  m + items_size ms <= MaxMembers lim -> dp + items_height ms <= MaxDepth lim ->
  (forall o, fo = Some o -> frame_start o < p)%nat ->
  let fin := (p + length (items_text false ms))%nat in
  array_loop lim target f (mkScan (items_text false ms ++ r) p fo m dp) =
  Done (fin, mkScan r fin (pin (items_occs frame e p ms) fo) (m + items_size ms) dp).

Definition items_read (ms : items) : Prop := object_reads ms /\ array_reads ms.

Definition more_read (m : more) : Prop := match m with End => True | Comma ms => items_read ms end.

(** *** Scalars *)

Lemma lex_as_app {A} p r (mk : bytes -> A) pos fo m dp res : res = Done r ->
  lex_as res mk (mkScan (p ++ r) pos fo m dp) = Done (mk p, (pos + length p)%nat, mkScan r (pos + length p) fo m dp).
Proof.
  intros ->. unfold lex_as. cbn [mbind scanned_bind]. rewrite goto_app. cbn [rest EvidenceVerify.pos].
  rewrite length_app. replace (length p + length r - length r)%nat with (length p) by lia. by rewrite take_app_length.
Qed.

Lemma scanValue_at c l p fo m dp : is_json_space c = false ->
  skipSpace (mkScan (c :: l) p fo m dp) = mkScan (c :: l) p fo m dp.
Proof. intros S. apply skipSpace_solid. cbn. by rewrite S. Qed.

Lemma pin_nil fo : pin [] fo = fo.
Proof. by destruct fo. Qed.

Lemma keyword_reads (w : string) r : expectKeyword (of_string w) (of_string w ++ r) = Done r.
Proof.
  unfold expectKeyword. rewrite (proj2 (is_prefix_spec _ _)) by eauto. by rewrite drop_app_length.
Qed.

Lemma number_head c : Ascii.eqb c "-" || is_digit c = true ->
  is_json_space c = false /\ Ascii.eqb c "{" = false /\ Ascii.eqb c "[" = false /\ Ascii.eqb c quote = false /\
  Ascii.eqb c "t" = false /\ Ascii.eqb c "f" = false /\ Ascii.eqb c "n" = false.
Proof. by destruct c as [[] [] [] [] [] [] [] []]. Qed.

Lemma scalar_reads d : match d with Empty _ _ | Items _ _ => False | _ => True end -> reads d.
Proof.
  intros Sc [|f] r p fo m dp W St F M H Fo; [lia|]. destruct d as [b| |n|ps| |]; try done; cbn [scanValue text size occs value_of] in *.
  - rewrite pin_nil, Z.add_0_r. destruct b.
    + cbn [of_string list_ascii_of_string app]. rewrite scanValue_at by done. cbn [rest]. bytes. by apply (lex_as_app (of_string "true")), (keyword_reads "true").
    + cbn [of_string list_ascii_of_string app]. rewrite scanValue_at by done. cbn [rest]. bytes. by apply (lex_as_app (of_string "false")), (keyword_reads "false").
  - rewrite pin_nil, Z.add_0_r. cbn [of_string list_ascii_of_string app]. rewrite scanValue_at by done. cbn [rest]. bytes. by apply (lex_as_app (of_string "null")), (keyword_reads "null").
  - destruct (number_starts n W) as (c & l & E & D). destruct (number_head c D) as (S & E1 & E2 & E3 & E4 & E5 & E6).
    rewrite pin_nil, Z.add_0_r, skipSpace_solid by (by apply (skip_text (Number n))). cbn [rest].
    rewrite E at 1. cbn [app]. rewrite E1, E2, E3, E4, E5, E6, D. by apply lex_as_app, scanNumber_reads.
  - destruct W as [v V]. rewrite pin_nil, Z.add_0_r. unfold string_text. cbn [app]. rewrite scanValue_at by done. cbn [rest].
    bytes. rewrite <- app_assoc. cbn [app]. rewrite (scanString_reads ps v r V). cbn [mbind scanned_bind].
    change (quote :: inner_text ps ++ quote :: r) with ([quote] ++ inner_text ps ++ [quote] ++ r).
    rewrite !app_assoc, goto_app. cbn [EvidenceVerify.pos]. unfold said. by rewrite V.
Qed.

Lemma empty_reads object w : reads (Empty object w).
Proof.
  intros [|f] r p fo m dp W St F M H Fo; [lia|]. cbn [scanValue text size height occs value_of app] in *.
  rewrite pin_nil, Z.add_0_r, scanValue_at by (by destruct object). cbn [rest].
  rewrite enter_room by lia. cbn [mbind scanned_bind EvidenceVerify.pos].
  set (l := (w ++ [closing object]) ++ r). set (fin := (p + length (opening object :: w ++ [closing object]))%nat).
  assert (skipSpace (goto l (mkScan (opening object :: l) p fo m (dp + 1)))
    = mkScan (closing object :: r) (S p + length w) fo m (dp + 1)) as ->.
  { rewrite goto_cons. subst l. rewrite <- app_assoc. apply skipSpace_blank; [done|]. by destruct object. }
  assert (take (fin - p) (opening object :: l) = opening object :: w ++ [closing object]) as T.
  { subst l fin. change (opening object :: (w ++ [closing object]) ++ r) with ((opening object :: w ++ [closing object]) ++ r).
    replace (_ - p)%nat with (length (opening object :: w ++ [closing object])) by lia. by rewrite take_app_length. }
  assert (S (S p + length w) = fin) as Hf by (subst fin; cbn; rewrite length_app; cbn; lia).
  destruct object; cbn [opening closing] in *; bytes; cbn [rest]; bytes;
    rewrite goto_cons; cbn [EvidenceVerify.pos mbind scanned_bind leave close_frame rest found members depth];
    rewrite Hf, T; unfold leave, close_frame; cbn [EvidenceVerify.pos rest found members depth];
    replace (dp + 1 - 1) with dp by lia; [|done].
  destruct fo as [o|]; [|done]. cbn. rewrite set_end_frame; [done|]. left. specialize (Fo o eq_refl). lia.
Qed.

(** *** Objects and arrays *)

Lemma skipSpace_idem s : skipSpace (skipSpace s) = skipSpace s.
Proof.
  destruct s as [r p fo m dp]. destruct (skip_splits r) as (w & B & E).
  assert (skip (skip r) = skip r) as S by (clear; induction r as [|c r IH]; [done|]; cbn; destruct (is_json_space c) eqn:C; [done|]; cbn; by rewrite C).
  rewrite E at 1 2. rewrite skipSpace_blank by done. by rewrite skipSpace_solid.
Qed.

Lemma object_loop_skip f start s : object_loop lim target f start (skipSpace s) = object_loop lim target f start s.
Proof. destruct f as [|f]; [done|]. cbn [object_loop]. by rewrite skipSpace_idem. Qed.

Lemma array_loop_skip f s : array_loop lim target f (skipSpace s) = array_loop lim target f s.
Proof. destruct f as [|f]; [done|]. cbn [array_loop]. by rewrite skipSpace_idem. Qed.

(** Behind a value come blanks and then a comma or the closing bracket. *)
Lemma more_starts object m : exists c l, more_text object m = c :: l /\ is_json_space c = false /\ stops (c :: l).
Proof. destruct m; cbn; eexists _, _; (split; [done|]); (split; [by destruct object|]); right; destruct object; set_solver. Qed.

Lemma skip_more object m r : skip (more_text object m ++ r) = more_text object m ++ r.
Proof. destruct (more_starts object m) as (c & l & -> & S & _). cbn. by rewrite S. Qed.

Lemma stops_after object w m r : blank w -> stops (w ++ more_text object m ++ r).
Proof.
  intros W. destruct w as [|c w]; cbn.
  - destruct (more_starts object m) as (c & l & -> & _ & S). exact S.
  - left. unfold blank in W. cbn in W. by apply andb_true_iff in W as [W _].
Qed.

(** After its items, an object's frame is closed in what was pinned. *)
Lemma frame_closed frame fin ms fo : (forall o, fo = Some o -> frame_start o < frame)%nat ->
  set_end frame fin <$> pin (items_occs frame fin (S frame) ms) fo = pin (items_occs frame fin (S frame) ms) fo.
Proof.
  intros Fo. destruct (pin _ fo) as [o|] eqn:P; [|done]. cbn. rewrite set_end_frame; [done|].
  destruct fo as [o'|]; [injection P as ->; left; specialize (Fo o eq_refl); lia|].
  apply pin_elem in P. apply (proj1 (proj2 occs_bounds) ms true) in P as [[_ P]|P]; [by right|left; lia].
Qed.

Lemma container_reads object ms : items_read ms -> reads (Items object ms).
Proof.
  intros [OR AR] [|f] r p fo m dp W St F M H Fo; [lia|]. cbn [scanValue text size height occs value_of app wf] in *.
  pose proof (proj1 (proj2 sizes_nonneg) ms) as [_ Hn].
  rewrite (scanValue_at (opening object)) by (by destruct object). cbn [rest].
  rewrite enter_room by lia. cbn [mbind scanned_bind EvidenceVerify.pos].
  set (l := items_text object ms ++ r) in *. rewrite goto_cons. cbn [length] in F |- *.
  set (fin := (p + S (length (items_text object ms)))%nat).
  assert (take (fin - p) (opening object :: l) = opening object :: items_text object ms) as T.
  { subst l fin. change (opening object :: items_text object ms ++ r) with ((opening object :: items_text object ms) ++ r).
    replace (_ - p)%nat with (length (opening object :: items_text object ms)) by (cbn; lia). by rewrite take_app_length. }
  set (s := mkScan l (S p) fo m (dp + 1)).
  assert (exists c l', rest (skipSpace s) = c :: l' /\ Ascii.eqb c "}" = false /\ Ascii.eqb c "]" = false) as (c & l' & Hr & N1 & N2).
  { destruct ms as [w k d w' mo]. destruct W as (B & L & Wd & B' & Wm). subst s l. cbn [items_text]. rewrite <- !app_assoc.
    rewrite skipSpace_blank by (done || by eapply skip_label). cbn [rest].
    destruct k as [k|]; [by eexists _, _|]. destruct (text_starts d Wd) as (c & l' & -> & _ & N). by eexists _, _. }
  destruct object; cbn [opening] in *; bytes; rewrite Hr, ?N1, ?N2.
  - rewrite object_loop_skip. subst s l.
    rewrite OR by (done || lia || (intros o Ho; specialize (Fo o Ho); lia)). cbn [mbind scanned_bind].
    replace (S p + length (items_text true ms))%nat with fin by (subst fin; lia). rewrite T.
    unfold leave. cbn [EvidenceVerify.pos rest found members depth].
    rewrite (frame_closed p fin ms fo Fo). repeat f_equal; lia.
  - rewrite array_loop_skip. subst s l.
    rewrite (AR f r p fin) by (done || lia || (intros o Ho; specialize (Fo o Ho); lia)). cbn [mbind scanned_bind].
    replace (S p + length (items_text false ms))%nat with fin by (subst fin; lia). rewrite T.
    unfold leave. cbn [EvidenceVerify.pos rest found members depth]. repeat f_equal; lia.
Qed.

(** One turn of the object loop, up to what follows the member. *)
Lemma member_reads f frame w k d w' t p fo m dp :
  reads d -> blank w -> label_ok true (Some k) -> wf d -> blank w' -> skip t = t -> stops (w' ++ t) ->
  (2 * length (text d ++ w' ++ t) + 1 <= f)%nat ->
  m + size d + 1 <= MaxMembers lim -> dp + height d <= MaxDepth lim -> (forall o, fo = Some o -> frame_start o < p)%nat ->
  let at_ := (p + length w)%nat in
  let vs := (at_ + length (label_text (Some k)))%nat in
  let s := mkScan t (vs + length (text d) + length w') (pin (own frame 0 at_ (Some k) d) (pin (occs vs d) fo)) (m + size d + 1) dp in
  object_loop lim target (S f) frame (mkScan (w ++ label_text (Some k) ++ text d ++ w' ++ t) p fo m dp) =
  match t with
  | c :: l => if Ascii.eqb c "," then object_loop lim target f frame (goto l s)
              else if Ascii.eqb c "}" then Done (pos (goto l s), close_frame frame (pos (goto l s)) (goto l s)) else Failed MalformedJSON
  | [] => Failed MalformedJSON
  end.
Proof.
  intros Rd W (_ & [v V] & Bb & Ba) Wd W' T St F M H Fo at_ vs s. destruct k as [ps bc ac]. cbn [key_text before_colon after_colon] in *.
  cbn [object_loop label_text key_text before_colon after_colon].
  assert (exists t1, string_text ps ++ bc ++ ":"%char :: ac ++ text d ++ w' ++ t = quote :: t1) as [t1 Ht1] by (unfold string_text; by eexists).
  set (tail := bc ++ ":"%char :: ac ++ text d ++ w' ++ t) in *.
  replace ((string_text ps ++ bc ++ ":"%char :: ac) ++ text d ++ w' ++ t) with (string_text ps ++ tail)
    by (subst tail; by rewrite <- !app_assoc).
  rewrite (skipSpace_blank w) by (done || by rewrite Ht1). cbn [rest EvidenceVerify.pos]. fold at_.
  rewrite Ht1 at 1. bytes.
  assert (scanString t1 = Done (v, tail)) as ->.
  { assert (t1 = inner_text ps ++ quote :: tail) as -> by (unfold string_text in Ht1; cbn [app] in Ht1; rewrite <- app_assoc in Ht1; by injection Ht1).
    by apply scanString_reads. }
  cbn [mbind scanned_bind]. rewrite goto_app. subst tail. rewrite skipSpace_blank by done. cbn [rest EvidenceVerify.pos].
  bytes. rewrite goto_cons. rewrite skipSpace_blank by (done || by apply skip_text). cbn [EvidenceVerify.pos].
  assert (S (at_ + length (string_text ps) + length bc) + length ac = vs)%nat as ->.
  { subst vs. cbn [label_text key_text before_colon after_colon]. rewrite !length_app. cbn [length]. lia. }
  rewrite Rd by (done || lia || (intros o Ho; specialize (Fo o Ho); subst vs at_; lia)). cbn [mbind scanned_bind].
  rewrite count_member_room by lia. cbn [mbind scanned_bind]. rewrite note_pin. cbn [EvidenceVerify.pos rest found members depth].
  rewrite skipSpace_blank by done. assert (said ps = v) as Sd by (unfold said; by rewrite V).
  subst s. unfold own. cbn [key_text]. rewrite Sd. fold vs. cbn [rest]. by destruct t.
Qed.

Lemma pin_own frame fin at_ k d os fo :
  set_end frame fin <$> pin os (pin (own frame 0 at_ k d) fo) = set_end frame fin <$> pin os (pin (own frame fin at_ k d) fo).
Proof.
  destruct k as [k|]; [|done]. destruct fo as [o|]; [done|]. cbn. destruct (_ =? target); [|done]. cbn.
  unfold set_end. cbn. by rewrite Nat.eqb_refl.
Qed.

Lemma pinned_before frame at_ k d vs fo o : (forall o, fo = Some o -> frame_start o < at_)%nat -> (frame < at_)%nat -> (at_ <= vs)%nat ->
  pin (own frame 0 at_ k d) (pin (occs vs d) fo) = Some o -> (frame_start o < vs + length (text d))%nat \/ o ∈ own frame 0 at_ k d.
Proof.
  intros Fo Fr V. rewrite <- pin_app. destruct fo as [o'|].
  - intros [= ->]. left. specialize (Fo o eq_refl). lia.
  - intros P%pin_elem. apply elem_of_app in P as [P|P]; [|by right]. apply (proj1 occs_bounds) in P. left. lia.
Qed.

Lemma own_frame frame fin at_ k d o : o ∈ own frame fin at_ k d -> frame_start o = frame /\ frame_end o = fin.
Proof. destruct k; [|by intros ?%elem_of_nil]. by intros ->%list_elem_of_singleton. Qed.

Lemma object_item_reads w k d w' mo : reads d -> more_read mo -> object_reads (Item w k d w' mo).
Proof.
  intros Rd Rm [|f] r frame p fo m dp (W & L & Wd & W' & Wm) F M H Fo Fr fin; [lia|].
  destruct k as [k|]; [|done]. cbn [items_text items_size items_height] in *.
  pose proof (proj1 sizes_nonneg d) as [Sd Hd]. pose proof (proj2 (proj2 sizes_nonneg) mo) as [Sm Hm].
  rewrite <- !app_assoc. rewrite <- !app_assoc in F. rewrite !length_app in F.
  rewrite member_reads; try done; [|by apply skip_more|by apply stops_after|rewrite !length_app; lia|lia|lia].
  set (at_ := (p + length w)%nat). set (vs := (at_ + length (label_text (Some k)))%nat).
  assert (vs + length (text d) + length w' + length (more_text true mo) = fin)%nat as Hfin.
  { subst fin vs at_. rewrite !length_app. lia. }
  assert (forall o, pin (own frame 0 at_ (Some k) d) (pin (occs vs d) fo) = Some o -> frame_start o < vs + length (text d) + length w')%nat as Fo'.
  { intros o Ho. apply pinned_before in Ho as [Ho|Ho]; [lia| |intros o' Ho'; specialize (Fo o' Ho'); lia|lia|subst vs; lia].
    apply own_frame in Ho as [-> _]. subst vs at_. lia. }
  cbn [items_occs]. fold at_ vs. rewrite !pin_app. destruct mo as [|ms]; cbn [more_text app more_occs more_size more_height] in *.
  - bytes. rewrite goto_cons. cbn [EvidenceVerify.pos]. cbn [length] in Hfin.
    replace (S (vs + length (text d) + length w')) with fin by lia. unfold close_frame. cbn [rest EvidenceVerify.pos found members depth].
    rewrite <- (pin_own frame fin at_ (Some k) d []), pin_nil. by rewrite Z.add_0_r, Z.add_assoc.
  - bytes. rewrite goto_cons. destruct Rm as [Rm _]. cbn [length] in Hfin, F.
    rewrite Rm by (done || (rewrite ?length_app; lia) || (intros o Ho; specialize (Fo' o Ho); lia) || (subst vs at_; lia)).
    replace (S (vs + length (text d) + length w') + length (items_text true ms))%nat with fin by lia.
    rewrite pin_own. by rewrite !Z.add_assoc.
Qed.

Lemma array_item_reads w k d w' mo : reads d -> more_read mo -> array_reads (Item w k d w' mo).
Proof.
  intros Rd Rm [|f] r frame e p fo m dp (W & L & Wd & W' & Wm) F M H Fo fin; [lia|].
  destruct k as [k|]; [by destruct L|]. cbn [items_text items_size items_height label_text app] in *.
  pose proof (proj1 sizes_nonneg d) as [Sd Hd]. pose proof (proj2 (proj2 sizes_nonneg) mo) as [Sm Hm].
  rewrite <- !app_assoc. rewrite <- !app_assoc in F. rewrite !length_app in F. cbn [array_loop].
  rewrite skipSpace_blank by (done || by apply skip_text).
  rewrite Rd; try done; [|by apply stops_after|rewrite !length_app; lia|lia|lia|intros o Ho; specialize (Fo o Ho); lia].
  cbn [mbind scanned_bind]. rewrite count_member_room by lia. cbn [mbind scanned_bind].
  rewrite skipSpace_blank by (done || by apply skip_more). cbn [rest items_occs own label_text length].
  set (vs := (p + length w)%nat) in *. replace (vs + 0)%nat with vs by lia. rewrite !pin_app, pin_nil.
  assert (vs + length (text d) + length w' + length (more_text false mo) = fin)%nat as Hfin.
  { subst fin vs. rewrite !length_app. lia. }
  destruct mo as [|ms]; cbn [more_text app more_occs more_size more_height] in *.
  - bytes. rewrite goto_cons. cbn [EvidenceVerify.pos]. cbn [length] in Hfin.
    replace (S (vs + length (text d) + length w')) with fin by lia. rewrite pin_nil. by rewrite Z.add_0_r, Z.add_assoc.
  - bytes. rewrite goto_cons. destruct Rm as [_ Rm]. cbn [length] in Hfin, F.
    rewrite (Rm _ _ frame e); try done; try (rewrite ?length_app; lia).
    + replace (S (vs + length (text d) + length w') + length (items_text false ms))%nat with fin by lia. by rewrite !Z.add_assoc.
    + intros o Ho. destruct fo as [o'|]; [injection Ho as ->; specialize (Fo o eq_refl); lia|].
      apply pin_elem, (proj1 occs_bounds) in Ho. lia.
Qed.

Lemma scanValue_reads d : reads d.
Proof.
  revert d. apply (doc_ind' reads items_read more_read); try done; try (intros; by apply scalar_reads).
  - intros. apply empty_reads.
  - intros. by apply container_reads.
  - intros. split; [by apply object_item_reads|by apply array_item_reads].
Qed.

End reads.

(** ** The scanner reads nothing else *)

Section means.
Context (lim : Limits) (target : Z).

(** What the scanner has passed: its text, the members in it, its depth. *)
Definition took (s s' : scanner) (t : bytes) (n h : Z) : Prop :=
  rest s = t ++ rest s' /\ members s' = members s + n /\ depth s' = depth s /\
  members s' <= MaxMembers lim /\ depth s + h <= MaxDepth lim.

Definition room (s : scanner) : Prop := members s <= MaxMembers lim /\ depth s <= MaxDepth lim.

Lemma goto_same l s : rest (goto l s) = l /\ members (goto l s) = members s /\ depth (goto l s) = depth s.
Proof. done. Qed.

Lemma skipSpace_same s : exists w, blank w /\ rest s = w ++ rest (skipSpace s) /\
  members (skipSpace s) = members s /\ depth (skipSpace s) = depth s.
Proof. destruct (skip_splits (rest s)) as (w & B & E). by exists w. Qed.

Lemma note_same o s : rest (note target o s) = rest s /\ members (note target o s) = members s /\ depth (note target o s) = depth s.
Proof. by rewrite note_pin. Qed.

Lemma enter_means s s' : enter lim s = Done s' -> rest s' = rest s /\ members s' = members s /\ depth s' = depth s + 1 /\ depth s + 1 <= MaxDepth lim.
Proof. unfold enter. destruct (Z.ltb_spec (MaxDepth lim) (depth s + 1)); [done|]. by intros [= <-]. Qed.

Lemma count_means s s' : count_member lim s = Done s' ->
  rest s' = rest s /\ members s' = members s + 1 /\ depth s' = depth s /\ members s + 1 <= MaxMembers lim.
Proof. unfold count_member. destruct (Z.ltb_spec (MaxMembers lim) (members s + 1)); [done|]. by intros [= <-]. Qed.

Definition pad (w : bytes) (ms : items) : items := match ms with Item w0 k d w' m => Item (w ++ w0) k d w' m end.

Lemma pad_ok w ms object : blank w -> items_wf object ms ->
  items_wf object (pad w ms) /\ items_text object (pad w ms) = w ++ items_text object ms /\
  items_size (pad w ms) = items_size ms /\ items_height (pad w ms) = items_height ms.
Proof.
  destruct ms as [w0 k d w' m]. cbn. intros B (B0 & H1 & H2 & H3 & H4). split_and!; try done; [by apply blank_app|by rewrite <- app_assoc].
Qed.

Definition value_means (f : nat) : Prop := forall s v fin s', scanValue lim target f s = Done (v, fin, s') -> room s ->
  exists w d, blank w /\ wf d /\ took s s' (w ++ text d) (size d) (height d).

Definition object_means (f : nat) : Prop := forall start s fin s', object_loop lim target f start s = Done (fin, s') -> room s ->
  exists ms, items_wf true ms /\ took s s' (items_text true ms) (items_size ms) (items_height ms).

Definition array_means (f : nat) : Prop := forall s fin s', array_loop lim target f s = Done (fin, s') -> room s ->
  exists ms, items_wf false ms /\ took s s' (items_text false ms) (items_size ms) (items_height ms).

Lemma lex_as_means {A} (r : scanned bytes) (mk : bytes -> A) s v fin s' : lex_as r mk s = Done (v, fin, s') ->
  exists l, r = Done l /\ rest s' = l /\ members s' = members s /\ depth s' = depth s.
Proof. unfold lex_as. destruct r as [l| |]; try done. cbn. intros [= _ _ <-]. by exists l. Qed.

Lemma keyword_means w l l' : expectKeyword w l = Done l' -> l = w ++ l'.
Proof.
  unfold expectKeyword. destruct (is_prefix w l) eqn:P; [|done]. intros [= <-]. apply is_prefix_spec in P as (t & ->).
  by rewrite drop_app_length.
Qed.

(** A scalar where the scanner stands. *)
Lemma scalar_took d s s' : match d with Empty _ _ | Items _ _ => False | _ => True end -> room s ->
  rest s = text d ++ rest s' -> members s' = members s -> depth s' = depth s -> took s s' (text d) (size d) (height d).
Proof. intros Sc [M D] R E1 E2. destruct d; try done; split_and!; cbn; rewrite ?E1, ?E2; try done; lia. Qed.

Lemma scalar_means f c l s v fin s' : rest s = c :: l -> skip (c :: l) = c :: l -> Ascii.eqb c "{" = false -> Ascii.eqb c "[" = false ->
  scanValue lim target (S f) s = Done (v, fin, s') -> room s ->
  exists d, wf d /\ took s s' (text d) (size d) (height d).
Proof.
  intros R Sk N1 N2 H Rm. assert (skipSpace s = s) as E by (destruct s as [r p fo m dp]; cbn in R; subst r; by apply skipSpace_solid).
  cbn [scanValue] in H. rewrite E, R, N1, N2 in H. destruct (Ascii.eqb_spec c quote) as [->|].
  { destruct (scanString l) as [[str l']| |] eqn:Q; try done. cbn in H. injection H as _ _ <-.
    apply scanString_means in Q as (ps & M & ->). exists (Text ps). split; [by eexists|].
    apply scalar_took; try done. cbn [text rest goto]. rewrite R. unfold string_text. cbn. by rewrite <- app_assoc. }
  destruct (Ascii.eqb c "t"); [|destruct (Ascii.eqb c "f"); [|destruct (Ascii.eqb c "n")]].
  1-3: apply lex_as_means in H as (l' & K & Hr & Hm & Hd); apply keyword_means in K; rewrite <- R in K; subst l'.
  - exists (Boolean true). split; [done|]. by apply scalar_took.
  - exists (Boolean false). split; [done|]. by apply scalar_took.
  - exists Nothing. split; [done|]. by apply scalar_took.
  - destruct (_ || _); [|done]. apply lex_as_means in H as (l' & K & Hr & Hm & Hd).
    apply scanNumber_means in K as (num & N & K). rewrite <- R in K. subst l'. exists (Number num). split; [done|]. by apply scalar_took.
Qed.

(** An object or array, from its opening bracket. *)
Lemma container_means f object c l s v fin s' : object_means f -> array_means f ->
  rest s = c :: l -> c = opening object -> skip (c :: l) = c :: l ->
  scanValue lim target (S f) s = Done (v, fin, s') -> room s ->
  exists d, wf d /\ took s s' (text d) (size d) (height d).
Proof.
  intros OM AM R -> Sk H [Rm Rd].
  assert (skipSpace s = s) as E by (destruct s as [r p fo m dp]; cbn in R; subst r; by apply skipSpace_solid).
  cbn [scanValue object_loop array_loop] in H. rewrite E, R in H.
  destruct (enter lim s) as [s1| |] eqn:En; [|by destruct object..]. apply enter_means in En as (R1 & M1 & D1 & Dm).
  cbn [mbind scanned_bind] in H.
  destruct (skipSpace_same (goto l s1)) as (w & B & R2 & M2 & D2). set (s2 := skipSpace (goto l s1)) in *.
  destruct (goto_same l s1) as (G1 & G2 & G3). rewrite G1 in R2. rewrite G2, M1 in M2. rewrite G3, D1 in D2.
  assert (room s2) as Rm2 by (split; lia).
  assert (exists s3, s' = leave s3 /\
    ((exists l', rest s2 = closing object :: l' /\ rest s3 = l' /\ members s3 = members s2 /\ depth s3 = depth s2) \/
     (exists ms, items_wf object ms /\ took s2 s3 (items_text object ms) (items_size ms) (items_height ms)))) as (s3 & -> & H3).
  { destruct object; cbn [opening] in H; revert H; bytes.
    - destruct (rest s2) as [|c l'] eqn:R3.
      + match goal with |- mbind _ ?X = _ -> _ => destruct X as [[fin' s3]| |] eqn:L end; try done. cbn [mbind scanned_bind]. intros [= _ _ <-].
        exists s3. split; [done|]. right. by apply (OM _ _ _ _ L).
      + destruct (Ascii.eqb_spec c "}") as [->|].
        * cbn [mbind scanned_bind]. intros [= _ _ <-]. eexists. split; [done|]. left. by exists l'.
        * match goal with |- mbind _ ?X = _ -> _ => destruct X as [[fin' s3]| |] eqn:L end; try done. cbn [mbind scanned_bind]. intros [= _ _ <-].
          exists s3. split; [done|]. right. by apply (OM _ _ _ _ L).
    - destruct (rest s2) as [|c l'] eqn:R3.
      + match goal with |- mbind _ ?X = _ -> _ => destruct X as [[fin' s3]| |] eqn:L end; try done. cbn [mbind scanned_bind]. intros [= _ _ <-].
        exists s3. split; [done|]. right. by apply (AM _ _ _ L).
      + destruct (Ascii.eqb_spec c "]") as [->|].
        * cbn [mbind scanned_bind]. intros [= _ _ <-]. eexists. split; [done|]. left. by exists l'.
        * match goal with |- mbind _ ?X = _ -> _ => destruct X as [[fin' s3]| |] eqn:L end; try done. cbn [mbind scanned_bind]. intros [= _ _ <-].
          exists s3. split; [done|]. right. by apply (AM _ _ _ L). }
  unfold took, leave. cbn [rest members depth].
  destruct H3 as [(l' & R3 & R4 & M4 & D4)|(ms & W & T1 & T2 & T3 & T4 & T5)].
  - exists (Empty object w). cbn [wf text size height]. split; [done|]. rewrite R, R2, R3, R4. cbn. rewrite <- app_assoc.
    split_and!; try done; lia.
  - destruct (pad_ok w ms object B W) as (P1 & P2 & P3 & P4). exists (Items object (pad w ms)).
    cbn [wf text size height]. rewrite P2, P3, P4. split; [done|]. rewrite R, R2, T1. cbn. rewrite <- app_assoc.
    split_and!; try done; lia.
Qed.

Lemma value_step f : object_means f -> array_means f -> value_means (S f).
Proof.
  intros OM AM s v fin s' H Rm. destruct (skipSpace_same s) as (w & B & R & M & D). set (s1 := skipSpace s) in *.
  assert (scanValue lim target (S f) s = scanValue lim target (S f) s1) as E1.
  { cbn [scanValue]. subst s1. by rewrite skipSpace_idem. }
  rewrite E1 in H. assert (room s1) as Rm1 by (split; destruct Rm; lia).
  assert (exists d, wf d /\ took s1 s' (text d) (size d) (height d)) as (d & W & T1 & T2 & T3 & T4 & T5).
  { destruct (rest s1) as [|c l] eqn:R1; [cbn [scanValue] in H; subst s1; rewrite skipSpace_idem, R1 in H; done|].
    assert (skip (c :: l) = c :: l) as Sk.
    { rewrite <- R1. subst s1. pose proof (f_equal rest (skipSpace_idem s)) as I. exact I. }
    destruct (Ascii.eqb_spec c "{") as [E|N1]; [by apply (container_means f true c l s1 v fin)|].
    destruct (Ascii.eqb_spec c "[") as [E|N2]; [by apply (container_means f false c l s1 v fin)|].
    apply (scalar_means f c l s1 v fin); try done; by apply Ascii.eqb_neq. }
  exists w, d. split; [done|]. split; [done|]. split_and!; try lia. rewrite R, T1. by rewrite <- app_assoc.
Qed.

Lemma object_step f : value_means f -> object_means f -> object_means (S f).
Proof.
  intros VM OM start s fin s' H [Rm Rd]. cbn [object_loop] in H.
  destruct (skipSpace_same s) as (w1 & B1 & R1 & M1 & D1). set (s1 := skipSpace s) in *.
  destruct (rest s1) as [|q l] eqn:E1; [done|]. destruct (Ascii.eqb_spec q quote) as [->|]; [|done].
  destruct (scanString l) as [[key l1]| |] eqn:Q; try done. cbn [mbind scanned_bind] in H. apply scanString_means in Q as (ps & Mn & ->).
  destruct (skipSpace_same (goto l1 s1)) as (w2 & B2 & R2 & M2 & D2). set (s2 := skipSpace (goto l1 s1)) in *.
  cbn [rest goto members depth] in R2, M2, D2.
  destruct (rest s2) as [|c l2] eqn:E2; [done|]. destruct (Ascii.eqb_spec c ":") as [->|]; [|done].
  destruct (skipSpace_same (goto l2 s2)) as (w3 & B3 & R3 & M3 & D3). set (s3 := skipSpace (goto l2 s2)) in *.
  cbn [rest goto members depth] in R3, M3, D3.
  match type of H with mbind _ ?X = _ => destruct X as [[[v vend] s4]| |] eqn:V end; try done. cbn [mbind scanned_bind] in H.
  destruct (VM _ _ _ _ V) as (w4 & d & B4 & W & T1 & T2 & T3 & T4 & T5); [split; lia|].
  destruct (count_member lim s4) as [s5| |] eqn:C; try done. cbn [mbind scanned_bind] in H. apply count_means in C as (C1 & C2 & C3 & C4).
  set (s6 := note target (mkOcc start 0 key (pos s1) (pos (goto l1 s1)) (pos s3) vend v) s5) in *.
  destruct (note_same (mkOcc start 0 key (pos s1) (pos (goto l1 s1)) (pos s3) vend v) s5) as (N1 & N2 & N3). fold s6 in N1, N2, N3.
  destruct (skipSpace_same s6) as (w5 & B5 & R5 & M5 & D5). set (s7 := skipSpace s6) in *.
  assert (forall mo s', more_wf true mo -> took s7 s' (more_text true mo) (more_size mo) (more_height mo) ->
    exists ms, items_wf true ms /\ took s s' (items_text true ms) (items_size ms) (items_height ms)) as Fin.
  { intros mo s'' Wm (U1 & U2 & U3 & U4 & U5). exists (Item w1 (Some (mkLabel ps w2 (w3 ++ w4))) d w5 mo).
    cbn [items_wf items_text items_size items_height label_ok label_text key_text before_colon after_colon].
    split; [split_and!; try done; by apply blank_app|]. split_and!; try lia.
    rewrite R1, R2, R3, T1, <- C1, <- N1, R5, U1. unfold string_text.
    rewrite <- !app_assoc. cbn [app]. by rewrite <- !app_assoc. }
  destruct (rest s7) as [|c l3] eqn:E7; [done|].
  destruct (Ascii.eqb_spec c ",") as [->|]; [|destruct (Ascii.eqb_spec c "}") as [->|]; [|done]].
  - destruct (OM _ _ _ _ H) as (ms & Wms & U1 & U2 & U3 & U4 & U5); [split; cbn [members depth goto]; lia|].
    cbn [members depth goto rest] in U1, U2, U3, U5. apply (Fin (Comma ms)); [done|]. split_and!; [by rewrite E7, U1|cbn [more_size more_height]; lia..].
  - injection H as _ <-. apply (Fin End); [done|]. split_and!; [by rewrite E7|cbn [more_size more_height rest goto close_frame members depth]; lia..].
Qed.

Lemma array_step f : value_means f -> array_means f -> array_means (S f).
Proof.
  intros VM AM s fin s' H [Rm Rd]. cbn [array_loop] in H.
  destruct (skipSpace_same s) as (w1 & B1 & R1 & M1 & D1). set (s1 := skipSpace s) in *.
  match type of H with mbind _ ?X = _ => destruct X as [[[v vend] s4]| |] eqn:V end; try done. cbn [mbind scanned_bind] in H.
  destruct (VM _ _ _ _ V) as (w4 & d & B4 & W & T1 & T2 & T3 & T4 & T5); [split; lia|].
  destruct (count_member lim s4) as [s5| |] eqn:C; try done. cbn [mbind scanned_bind] in H. apply count_means in C as (C1 & C2 & C3 & C4).
  destruct (skipSpace_same s5) as (w5 & B5 & R5 & M5 & D5). set (s7 := skipSpace s5) in *.
  assert (forall mo s', more_wf false mo -> took s7 s' (more_text false mo) (more_size mo) (more_height mo) ->
    exists ms, items_wf false ms /\ took s s' (items_text false ms) (items_size ms) (items_height ms)) as Fin.
  { intros mo s'' Wm (U1 & U2 & U3 & U4 & U5). exists (Item (w1 ++ w4) None d w5 mo).
    cbn [items_wf items_text items_size items_height label_ok label_text].
    split; [split_and!; try done; by apply blank_app|]. split_and!; try lia.
    rewrite R1, T1, <- C1, R5, U1. by rewrite <- !app_assoc. }
  destruct (rest s7) as [|c l3] eqn:E7; [done|].
  destruct (Ascii.eqb_spec c ",") as [->|]; [|destruct (Ascii.eqb_spec c "]") as [->|]; [|done]].
  - destruct (AM _ _ _ H) as (ms & Wms & U1 & U2 & U3 & U4 & U5); [split; cbn [members depth goto]; lia|].
    cbn [members depth goto rest] in U1, U2, U3, U5. apply (Fin (Comma ms)); [done|]. split_and!; [by rewrite E7, U1|cbn [more_size more_height]; lia..].
  - injection H as _ <-. apply (Fin End); [done|]. split_and!; [by rewrite E7|cbn [more_size more_height rest goto close_frame members depth]; lia..].
Qed.

Lemma scan_means f : value_means f /\ object_means f /\ array_means f.
Proof.
  induction f as [|f (V & O & A)]; [by split_and!|].
  split_and!; [by apply value_step|by apply object_step|by apply array_step].
Qed.

(** ** The scanner ends *)

Lemma bind_ends {A B} (x : scanned A) (k : A -> scanned B) :
  x <> OutOfFuel -> (forall a, x = Done a -> k a <> OutOfFuel) -> x ≫= k <> OutOfFuel.
Proof. intros X K. destruct x; [by apply K|done|done]. Qed.

Lemma lex_as_ends {A} r (mk : bytes -> A) s : r <> OutOfFuel -> lex_as r mk s <> OutOfFuel.
Proof. intros R. apply bind_ends; [done|]. intros. done. Qed.

Lemma skipSpace_shorter s : (length (rest (skipSpace s)) <= length (rest s))%nat.
Proof. apply skip_shorter. Qed.

Lemma took_shorter s s' w d n h : wf d -> took s s' (w ++ text d) n h -> (length (rest s') < length (rest s))%nat.
Proof.
  intros (c & l & E & _)%text_starts (-> & _). rewrite !length_app, E. cbn. lia.
Qed.

Lemma room_goto l s : room s -> room (goto l s).
Proof. done. Qed.

Lemma room_skip s : room s -> room (skipSpace s).
Proof. done. Qed.

Lemma took_room s s' w d n : took s s' (w ++ text d) n (height d) -> room s'.
Proof.
  intros (_ & _ & D & M & H). pose proof (proj1 sizes_nonneg d). split; lia.
Qed.

Definition value_ends (f : nat) : Prop := forall s, room s -> (2 * length (rest s) + 1 <= f)%nat -> scanValue lim target f s <> OutOfFuel.
Definition object_ends (f : nat) : Prop := forall start s, room s -> (2 * length (rest s) + 2 <= f)%nat -> object_loop lim target f start s <> OutOfFuel.
Definition array_ends (f : nat) : Prop := forall s, room s -> (2 * length (rest s) + 2 <= f)%nat -> array_loop lim target f s <> OutOfFuel.

Lemma value_ends_step f : object_ends f -> array_ends f -> value_ends (S f).
Proof.
  intros OE AE s Rm L. cbn [scanValue]. pose proof (skipSpace_shorter s) as L1. apply room_skip in Rm.
  set (s1 := skipSpace s) in *. destruct (rest s1) as [|c l] eqn:R1; [done|]. cbn [length] in L1.
  assert (forall s2, enter lim s1 = Done s2 -> room (skipSpace (goto l s2)) /\ (2 * length (rest (skipSpace (goto l s2))) + 2 <= f)%nat) as En.
  { intros s2 (E1 & E2 & E3 & E4)%enter_means. pose proof (skipSpace_shorter (goto l s2)) as L2. cbn [rest goto] in L2.
    split; [|lia]. destruct Rm. split; cbn [members depth skipSpace goto]; lia. }
  destruct (Ascii.eqb c "{"); [|destruct (Ascii.eqb c "[")].
  1,2: apply bind_ends; [unfold enter; by destruct (_ <? _)|]; intros s2 E; destruct (En s2 E) as [R2 L2];
    (apply bind_ends; [|by intros [] _]); destruct (rest (skipSpace (goto l s2))) as [|c' l'] eqn:E2;
    [|destruct (Ascii.eqb c' _); [done|]]; (apply OE || apply AE); rewrite ?E2; done.
  destruct (Ascii.eqb c quote).
  { apply bind_ends; [|by intros [] _]. apply string_body_ends. lia. }
  repeat (destruct (Ascii.eqb c _); [apply lex_as_ends; unfold expectKeyword; by destruct (is_prefix _ _)|]).
  destruct (_ || _); [|done]. apply lex_as_ends, scanNumber_ends.
Qed.

(** After a value: counted, and the loop goes on with less. *)
Lemma member_ends f s (k : scanner -> scanned (nat * scanner)) : value_ends f -> room s -> (2 * length (rest s) + 1 <= f)%nat ->
  (forall s', room s' -> (length (rest s') < length (rest s))%nat -> k s' <> OutOfFuel) ->
  forall (g : value -> nat -> scanner -> scanner), (forall v n s', rest (g v n s') = rest s' /\ members (g v n s') = members s' /\ depth (g v n s') = depth s') ->
  ('(v, n, s') ← scanValue lim target f s; s' ← count_member lim s'; k (g v n s')) <> OutOfFuel.
Proof.
  intros VE Rm L K g G. apply bind_ends; [by apply VE|]. intros [[v n] s'] E.
  apply bind_ends; [unfold count_member; by destruct (_ <? _)|]. intros s'' (C1 & C2 & C3 & C4)%count_means.
  destruct (scan_means f) as [VM _]. destruct (VM _ _ _ _ E Rm) as (w & d & B & W & T).
  destruct (G v n s'') as (G1 & G2 & G3). pose proof (took_shorter _ _ _ _ _ _ W T). pose proof (took_room _ _ _ _ _ T) as [R1 R2].
  apply K; [split; lia|]. rewrite G1, C1. done.
Qed.

Lemma array_ends_step f : value_ends f -> array_ends f -> array_ends (S f).
Proof.
  intros VE AE s Rm L. cbn [array_loop]. pose proof (skipSpace_shorter s) as L1.
  apply (member_ends f (skipSpace s) (fun s =>
    let s := skipSpace s in
    match rest s with
    | c :: l => if Ascii.eqb c "," then array_loop lim target f (goto l s)
                else if Ascii.eqb c "]" then let s := goto l s in Done (pos s, s) else Failed MalformedJSON
    | [] => Failed MalformedJSON
    end) VE) with (g := fun _ _ s => s); [done|lia| |done].
  intros s' Rm' L'. cbv zeta. pose proof (skipSpace_shorter s') as L2. destruct (rest (skipSpace s')) as [|c l] eqn:E; [done|].
  destruct (Ascii.eqb c ","); [|by destruct (Ascii.eqb c _)]. apply AE; [done|]. cbn [rest goto length] in *. lia.
Qed.

Lemma object_ends_step f : value_ends f -> object_ends f -> object_ends (S f).
Proof.
  intros VE OE start s Rm L. cbn [object_loop]. pose proof (skipSpace_shorter s) as L1. apply room_skip in Rm.
  set (s1 := skipSpace s) in *. destruct (rest s1) as [|q l] eqn:R1; [done|]. cbn [length] in L1.
  destruct (Ascii.eqb q quote); [|done]. apply bind_ends; [by apply string_body_ends|]. intros [key l1] Q.
  apply string_body_shorter in Q. pose proof (skipSpace_shorter (goto l1 s1)) as L2. cbn [rest goto] in L2.
  set (s2 := skipSpace (goto l1 s1)) in *. destruct (rest s2) as [|c l2] eqn:R2; [done|]. cbn [length] in L2.
  destruct (Ascii.eqb c ":"); [|done]. pose proof (skipSpace_shorter (goto l2 s2)) as L3. cbn [rest goto] in L3.
  apply (member_ends f (skipSpace (goto l2 s2)) (fun s =>
    let s := skipSpace s in
    match rest s with
    | c :: l => if Ascii.eqb c "," then object_loop lim target f start (goto l s)
                else if Ascii.eqb c "}" then let s := goto l s in Done (pos s, close_frame start (pos s) s) else Failed MalformedJSON
    | [] => Failed MalformedJSON
    end) VE) with (g := fun v vend s => note target (mkOcc start 0 key (pos s1) (pos (goto l1 s1)) (pos (skipSpace (goto l2 s2))) vend v) s);
    [done|lia| |intros; apply note_same].
  intros s' Rm' L'. cbv zeta. pose proof (skipSpace_shorter s') as L4. destruct (rest (skipSpace s')) as [|c' l'] eqn:E; [done|].
  destruct (Ascii.eqb c' ","); [|by destruct (Ascii.eqb c' _)]. apply OE; [done|]. cbn [rest goto length] in *. lia.
Qed.

Lemma scan_ends f : value_ends f /\ object_ends f /\ array_ends f.
Proof.
  induction f as [|f (V & O & A)]; [split_and!; intros; intro; lia|].
  split_and!; [by apply value_ends_step|by apply object_ends_step|by apply array_ends_step].
Qed.

End means.

(** ** Whole documents *)

Definition document (b lead : bytes) (d : doc) (trail : bytes) : Prop :=
  b = lead ++ text d ++ trail /\ blank lead /\ blank trail /\ wf d.

Definition within (lim : Limits) (d : doc) : Prop := size d <= MaxMembers lim /\ height d <= MaxDepth lim.

Definition positive (lim : Limits) : Prop := 0 < MaxDepth lim /\ 0 < MaxMembers lim /\ 0 < MaxMatches lim.

Lemma normalized_positive lim : positive (normalized lim).
Proof. unfold positive, normalized. cbn. repeat (case_match; try lia); split_and!; try lia; done. Qed.

Lemma blank_stops w : blank w -> stops w.
Proof. destruct w as [|c w]; [done|]. unfold blank. cbn. intros [H _]%andb_true_iff. by left. Qed.

Lemma skip_all w : blank w -> skip w = [].
Proof. intros B. rewrite <- (app_nil_r w). by rewrite skip_blank. Qed.

Lemma scanWhole_reads b lead d trail target lim : document b lead d trail -> within lim d ->
  scanWhole b target lim = Done (pin target (occs (length lead) d) None).
Proof.
  intros (-> & Bl & Bt & W) [M H]. unfold scanWhole, start_of.
  rewrite skipSpace_blank by (done || by apply skip_text). cbn [rest].
  destruct (text_starts d W) as (c & l & E & _). rewrite E at 1. cbn [app]. cbv iota.
  rewrite scanValue_reads; try done; [|by apply blank_stops|unfold fuel_for; rewrite !length_app; lia].
  cbn [mbind scanned_bind]. unfold skipSpace, goto. cbn [rest]. by rewrite skip_all.
Qed.

Lemma scanWhole_means b target lim fo : positive lim -> scanWhole b target lim = Done fo ->
  exists lead d trail, document b lead d trail /\ within lim d /\ fo = pin target (occs (length lead) d) None.
Proof.
  intros (PD & PM & _) H. assert (exists lead d trail, document b lead d trail /\ within lim d) as (lead & d & trail & D & L).
  { unfold scanWhole in H. destruct (skipSpace_same (start_of b)) as (w & B & R & M & Dp). set (s := skipSpace (start_of b)) in *.
    destruct (rest s) as [|c l] eqn:E; [done|].
    destruct (scanValue lim target (fuel_for b) s) as [[[v n] s']| |] eqn:V; try done. cbn [mbind scanned_bind] in H.
    destruct (rest (skipSpace s')) as [|] eqn:T; [|done].
    destruct (skipSpace_same s') as (w' & B' & R' & _ & _). rewrite T, app_nil_r in R'.
    destruct (scan_means lim target (fuel_for b)) as [VM _].
    apply VM in V as (w2 & d & B2 & W & R2 & M2 & D2 & M3 & H3); [split; cbn in *; lia|].
    exists (w ++ w2), d, (rest s'). split; [split_and!; try done|].
    - cbn [rest start_of] in R. rewrite R, <- E, R2. by rewrite <- !app_assoc.
    - by apply blank_app.
    - by rewrite R'.
    - cbn [members depth start_of] in M, Dp. split; lia. }
  exists lead, d, trail. split_and!; [done|done|]. rewrite (scanWhole_reads b lead d trail target lim D L) in H. by injection H.
Qed.

Lemma scanWhole_ends b target lim : positive lim -> scanWhole b target lim <> OutOfFuel.
Proof.
  intros (PD & PM & _). unfold scanWhole. pose proof (skipSpace_shorter (start_of b)) as L. cbn [rest start_of] in L.
  assert (room lim (skipSpace (start_of b))) as Rm by (split; cbn; lia).
  set (s := skipSpace (start_of b)) in *. destruct (rest s) eqn:E; [done|]. rewrite <- E in L. clear E.
  apply bind_ends; [|intros [[v k] s'] _; by destruct (rest (skipSpace s'))]. apply (scan_ends lim target); [done|]. unfold fuel_for. lia.
Qed.

(** ** One object's members of a key *)

Definition key_of (k : option label) : bytes := match k with Some l => said (key_text l) | None => [] end.

Fixpoint direct (K : bytes) (ms : items) : list value :=
  match ms with Item _ k d _ m => (if bool_decide (key_of k = K) then [value_of d] else []) ++ more_direct K m end
with more_direct (K : bytes) (m : more) : list value :=
  match m with End => [] | Comma ms => direct K ms end.

Lemma pin_never os fo : pin (-1) os fo = fo.
Proof.
  destruct fo as [o|]; [done|]. cbn. apply find_first_none. apply Forall_forall. intros o _. apply Z.eqb_neq. lia.
Qed.

(** One turn of the scope's loop. *)
Lemma scope_turn lim K f vals n w k d w' t p m :
  blank w -> label_ok true (Some k) -> wf d -> blank w' -> skip t = t -> stops (w' ++ t) ->
  (2 * length (text d ++ w' ++ t) + 1 <= f)%nat -> m + size d + 1 <= MaxMembers lim -> height d <= MaxDepth lim ->
  let p' := S (p + length w + length (label_text (Some k)) + length (text d) + length w') in
  scope_loop lim K (S f) vals n (mkScan (w ++ label_text (Some k) ++ text d ++ w' ++ t) p None m 0) =
  let hit := bool_decide (key_of (Some k) = K) in
  let n' := if hit then n + 1 else n in
  if hit && (MaxMatches lim <? n') then Failed ResourceLimit
  else match t with
       | c :: l => if Ascii.eqb c "," then scope_loop lim K f (vals ++ (if hit then [value_of d] else [])) n' (mkScan l p' None (m + size d + 1) 0)
                   else if Ascii.eqb c "}" then Done (vals ++ (if hit then [value_of d] else []), n') else Failed MalformedJSON
       | [] => Failed MalformedJSON
       end.
Proof.
  intros W (_ & [v V] & Bb & Ba) Wd W' T St F M H p'. destruct k as [ps bc ac]. cbn [key_text before_colon after_colon key_of] in *.
  cbn [scope_loop label_text key_text before_colon after_colon].
  set (tail := bc ++ ":"%char :: ac ++ text d ++ w' ++ t).
  assert (exists t1, string_text ps ++ tail = quote :: t1 /\ scanString t1 = Done (v, tail)) as (t1 & Ht1 & Hs).
  { exists (inner_text ps ++ quote :: tail). split; [unfold string_text; cbn [app]; by rewrite <- app_assoc|by apply scanString_reads]. }
  replace ((string_text ps ++ bc ++ ":"%char :: ac) ++ text d ++ w' ++ t) with (string_text ps ++ tail)
    by (subst tail; by rewrite <- !app_assoc).
  rewrite (skipSpace_blank w) by (done || by rewrite Ht1). cbn [rest].
  rewrite Ht1 at 1. bytes. rewrite Hs. cbn [mbind scanned_bind]. rewrite goto_app. subst tail.
  rewrite skipSpace_blank by done. cbn [rest]. bytes. rewrite goto_cons, skipSpace_blank by (done || by apply skip_text).
  rewrite scanValue_reads by (done || lia). cbn [mbind scanned_bind]. rewrite count_member_room by lia. cbn [mbind scanned_bind].
  rewrite pin_never, skipSpace_blank by done. cbn [rest].
  replace (said ps) with v by (unfold said; by rewrite V).
  destruct t as [|c l]; [done|]. rewrite goto_cons.
  assert (S (S (p + length w + length (string_text ps) + length bc) + length ac + length (text d) + length w') = p') as ->
    by (subst p'; cbn [label_text key_text before_colon after_colon]; rewrite !length_app; cbn [length]; lia).
  by case_bool_decide; rewrite ?app_nil_r.
Qed.

Lemma items_list_ind (P : items -> Prop) :
  (forall w k d w' m, match m with End => True | Comma ms => P ms end -> P (Item w k d w' m)) -> forall ms, P ms.
Proof.
  intros H. apply (items_ind' (fun _ => True) P (fun m => match m with End => True | Comma ms => P ms end)); try done.
  intros. by apply H.
Qed.

Lemma scope_loop_reads lim K ms : forall f r vals n p m,
  items_wf true ms -> (2 * length (items_text true ms ++ r) + 2 <= f)%nat ->
  m + items_size ms <= MaxMembers lim -> items_height ms <= MaxDepth lim -> n <= MaxMatches lim ->
  let count := n + Z.of_nat (length (direct K ms)) in
  scope_loop lim K f vals n (mkScan (items_text true ms ++ r) p None m 0) =
  if MaxMatches lim <? count then Failed ResourceLimit else Done (vals ++ direct K ms, count).
Proof.
  induction ms as [w k d w' mo IH] using items_list_ind. intros [|f] r vals n p m (W & L & Wd & W' & Wm) F M H N count; [lia|].
  destruct k as [k|]; [|done]. subst count. cbn [items_text items_size items_height direct] in *.
  pose proof (proj1 sizes_nonneg d) as [Sd Hd]. pose proof (proj2 (proj2 sizes_nonneg) mo) as [Sm Hm].
  rewrite <- !app_assoc. rewrite <- !app_assoc in F. rewrite !length_app in F.
  rewrite scope_turn; try done; [|by apply skip_more|by apply stops_after|rewrite !length_app; lia|lia|lia].
  cbv zeta. rewrite length_app. set (hit := bool_decide (key_of (Some k) = K)).
  set (n' := if hit then n + 1 else n). set (mine := if hit then [value_of d] else []).
  assert (n + Z.of_nat (length mine + length (more_direct K mo)) = n' + Z.of_nat (length (more_direct K mo))) as ->.
  { subst mine n'. destruct hit; cbn [length]; lia. }
  destruct (hit && (MaxMatches lim <? n')) eqn:E.
  { apply andb_true_iff in E as [_ E%Z.ltb_lt]. by rewrite (proj2 (Z.ltb_lt _ _)) by lia. }
  assert (n' <= MaxMatches lim) as N'.
  { subst n'. destruct hit; [|done]. cbn [andb] in E. by apply Z.ltb_ge in E. }
  destruct mo as [|ms]; cbn [more_text app more_direct length more_size more_height] in *; bytes.
  - rewrite Z.add_0_r, app_nil_r. by rewrite (proj2 (Z.ltb_ge _ _)) by lia.
  - rewrite IH by (done || (rewrite ?length_app; lia)). by rewrite <- app_assoc.
Qed.

(** [scanScope] on an object within the limits. *)
Lemma scanScope_reads lim K ms pre post : positive lim -> wf (Items true ms) -> within lim (Items true ms) ->
  let b := pre ++ text (Items true ms) ++ post in
  let fin := (length pre + length (text (Items true ms)))%nat in
  scanScope b (length pre) fin K lim =
  if MaxMatches lim <? Z.of_nat (length (direct K ms)) then Failed ResourceLimit
  else Done (direct K ms, Z.of_nat (length (direct K ms))).
Proof.
  intros (PD & PM & PX) W [M H] b fin. unfold scanScope. subst b fin.
  replace (length pre + length (text (Items true ms)) - length pre)%nat with (length (text (Items true ms))) by lia.
  rewrite drop_app_length, take_app_length. cbn [text opening wf size height] in *. bytes. unfold start_of. rewrite goto_cons.
  destruct ms as [w k d w' mo]. pose proof W as (Wb & L & Wd & Wb' & Wm). destruct k as [k|]; [|done].
  set (ms := Item w (Some k) d w' mo) in *. set (s := mkScan (items_text true ms) 1 None 0 0).
  assert (exists c l, rest (skipSpace s) = c :: l /\ Ascii.eqb c "}" = false) as (c & l & Hr & N).
  { subst s ms. cbn [items_text]. rewrite skipSpace_blank by (done || by eapply skip_label). by eexists _, _. }
  rewrite Hr, N. clear Hr N.
  assert (forall f, scope_loop lim K f [] 0 (skipSpace s) = scope_loop lim K f [] 0 s) as ->.
  { intros [|f]; [done|]. cbn [scope_loop]. by rewrite skipSpace_idem. }
  subst s. pose proof (scope_loop_reads lim K ms (fuel_for ("{"%char :: items_text true ms)) [] [] 0 1 0 W) as SR.
  rewrite app_nil_r in SR. rewrite SR by (unfold fuel_for; cbn [length]; lia). done.
Qed.

(** ** The object of an occurrence *)

Definition alike (fs : nat) (K : bytes) (os : list occurrence) : list occurrence :=
  List.filter (fun o => (frame_start o =? fs)%nat && bool_decide (occ_key o = K)) os.

Lemma alike_app fs K a b : alike fs K (a ++ b) = alike fs K a ++ alike fs K b.
Proof. apply List.filter_app. Qed.

Lemma alike_none fs K os : (forall o, o ∈ os -> frame_start o <> fs) -> alike fs K os = [].
Proof.
  induction os as [|o os IH]; intros H; [done|]. unfold alike. cbn. rewrite (proj2 (Nat.eqb_neq _ _)) by (apply H; left).
  apply IH. intros o' Ho. apply H. by right.
Qed.

Lemma elem_of_alike fs K os o : o ∈ alike fs K os <-> o ∈ os /\ frame_start o = fs /\ occ_key o = K.
Proof.
  unfold alike. rewrite !list_elem_of_In, filter_In, andb_true_iff, Nat.eqb_eq. by rewrite bool_decide_eq_true.
Qed.

(** The members of an object are its own items. *)
Lemma alike_own K frame fin ms : forall at_, items_wf true ms -> (frame < at_)%nat ->
  List.map occ_value (alike frame K (items_occs frame fin at_ ms)) = direct K ms.
Proof.
  induction ms as [w k d w' mo IH] using items_list_ind. intros at_ (W & L & Wd & W' & Wm) Fr.
  destruct k as [k|]; [|done]. cbn [items_occs direct]. rewrite !alike_app.
  rewrite (alike_none frame K (occs _ d)) by (intros o Ho; apply (proj1 occs_bounds) in Ho; lia).
  cbn [app]. rewrite map_app. f_equal.
  - unfold own, alike. cbn [List.filter frame_start occ_key key_of]. rewrite Nat.eqb_refl. cbn [andb]. by case_bool_decide.
  - destruct mo as [|ms]; [done|]. cbn [more_occs more_direct]. apply IH; [done|lia].
Qed.

(** Every occurrence is one of an object somewhere in the text. *)
Definition in_object (t : bytes) (base : nat) (os : list occurrence) (n h : Z) (o : occurrence) : Prop :=
  exists pre ms post, t = pre ++ text (Items true ms) ++ post /\ frame_start o = (base + length pre)%nat /\
    frame_end o = (frame_start o + length (text (Items true ms)))%nat /\ wf (Items true ms) /\
    size (Items true ms) <= n /\ height (Items true ms) <= h /\
    forall K, List.map occ_value (alike (frame_start o) K os) = direct K ms.

Lemma in_object_weaken t base os n h o t1 t2 os1 os2 n' h' :
  in_object t base os n h o -> n <= n' -> h <= h' ->
  (forall o', o' ∈ os1 ++ os2 -> frame_start o' <> frame_start o) -> (length t1 <= base)%nat ->
  in_object (t1 ++ t ++ t2) (base - length t1) (os1 ++ os ++ os2) n' h' o.
Proof.
  intros (pre & ms & post & -> & S & E & W & Sz & H & A) Hn Hh Ne L. exists (t1 ++ pre), ms, (post ++ t2).
  split_and!; try done; try lia; [by rewrite <- !app_assoc|rewrite length_app; lia|].
  intros K. rewrite !alike_app, (alike_none _ _ os1), (alike_none _ _ os2), app_nil_r by (intros o' Ho; apply Ne; set_solver). apply A.
Qed.

(** An array has no members of its own. *)
Lemma array_owns_none frame fin ms o : forall at_, items_wf false ms -> (frame < at_)%nat ->
  o ∈ items_occs frame fin at_ ms -> frame_start o <> frame.
Proof.
  induction ms as [w k d w' mo IH] using items_list_ind. intros at_ (_ & L & _ & _ & Wm) Fr. destruct k; [by destruct L|].
  cbn [items_occs own app]. intros [H|H]%elem_of_app; [apply (proj1 occs_bounds) in H; lia|].
  destruct mo as [|ms]; [by apply elem_of_nil in H|]. cbn [more_occs] in H. apply IH in H; [done|done|lia].
Qed.

Lemma container_in_object object ms base o : items_wf object ms -> o ∈ occs base (Items object ms) ->
  (frame_start o <> base -> in_object (items_text object ms) (S base) (occs base (Items object ms)) (items_size ms) (items_height ms) o) ->
  in_object (text (Items object ms)) base (occs base (Items object ms)) (items_size ms) (1 + items_height ms) o.
Proof.
  intros W Ho IH. destruct (decide (frame_start o = base)) as [E|N].
  - cbn [occs] in Ho |- *. set (fin := (base + length (text (Items object ms)))%nat) in *.
    destruct object; [|exfalso; revert E; eapply array_owns_none; [exact W| |exact Ho]; lia].
    pose proof Ho as B. apply (proj1 (proj2 occs_bounds) ms true) in B as [[_ B]|B]; [|lia].
    exists [], ms, []. cbn [app length size height]. rewrite app_nil_r. split_and!; try done; try lia.
    intros K. rewrite E. apply alike_own; [done|lia].
  - apply IH in N. apply (in_object_weaken _ _ _ _ _ _ [opening object] [] [] [] (items_size ms) (1 + items_height ms)) in N; try lia.
    + cbn [length app] in N. rewrite !app_nil_r, Nat.sub_succ, Nat.sub_0_r in N. exact N.
    + by intros o' H%elem_of_nil.
    + cbn. lia.
Qed.

Definition more_in_object (m : more) : Prop := forall object frame fin at_ o, more_wf object m -> (frame < at_)%nat ->
  frame_start o <> frame -> o ∈ more_occs frame fin at_ m ->
  in_object (more_text object m) at_ (more_occs frame fin at_ m) (more_size m) (more_height m) o.

Lemma item_in_object w k d w' m object frame fin at_ o :
  (forall base o, wf d -> o ∈ occs base d -> in_object (text d) base (occs base d) (size d) (height d) o) -> more_in_object m ->
  items_wf object (Item w k d w' m) -> (frame < at_)%nat -> frame_start o <> frame -> o ∈ items_occs frame fin at_ (Item w k d w' m) ->
  in_object (items_text object (Item w k d w' m)) at_ (items_occs frame fin at_ (Item w k d w' m)) (items_size (Item w k d w' m)) (items_height (Item w k d w' m)) o.
Proof.
  intros Hd Hm (_ & L & Wd & _ & Wm) Fr N Ho. cbn [items_text items_occs items_size items_height] in *.
  pose proof (proj1 sizes_nonneg d) as [Sd Hgd]. pose proof (proj2 (proj2 sizes_nonneg) m) as [Sm Hgm].
  set (vs := (at_ + length w + length (label_text k))%nat) in *. set (e := (vs + length (text d) + length w')%nat) in *.
  rewrite !elem_of_app in Ho. destruct Ho as [Ho|[Ho|Ho]].
  - pose proof (proj1 occs_bounds _ _ _ Ho) as Bd. apply (Hd vs o Wd) in Ho.
    apply (in_object_weaken _ _ _ _ _ _ (w ++ label_text k) (w' ++ more_text object m) [] (own frame fin (at_ + length w) k d ++ more_occs frame fin e m)
      (size d + 1 + more_size m) (Z.max (height d) (more_height m))) in Ho; try lia.
    + rewrite <- !app_assoc, length_app in Ho. replace (vs - (length w + length (label_text k)))%nat with at_ in Ho by lia. exact Ho.
    + intros o'. cbn [app]. intros [Ho'|Ho']%elem_of_app; [apply own_frame in Ho' as [-> _]; done|].
      apply (proj2 (proj2 occs_bounds) m object) in Ho' as [[-> _]|Ho']; [done|lia].
    + rewrite length_app. lia.
  - by apply own_frame in Ho as [Ho _].
  - pose proof (proj2 (proj2 occs_bounds) m object _ _ _ _ Ho) as Bm. apply (Hm object) in Ho; try done; [|lia].
    apply (in_object_weaken _ _ _ _ _ _ (w ++ label_text k ++ text d ++ w') [] (occs vs d ++ own frame fin (at_ + length w) k d) []
      (size d + 1 + more_size m) (Z.max (height d) (more_height m))) in Ho; try lia.
    + rewrite !app_nil_r, <- !app_assoc, !length_app in Ho.
      replace (e - (length w + (length (label_text k) + (length (text d) + length w'))))%nat with at_ in Ho by lia. exact Ho.
    + intros o'. rewrite app_nil_r. intros [Ho'|Ho']%elem_of_app; [|apply own_frame in Ho' as [-> _]; done].
      apply (proj1 occs_bounds) in Ho'. destruct Bm as [[Bm _]|Bm]; [done|lia].
    + rewrite !length_app. lia.
Qed.

Lemma occs_in_object d : forall base o, wf d -> o ∈ occs base d -> in_object (text d) base (occs base d) (size d) (height d) o.
Proof.
  revert d. apply (doc_ind' (fun d => forall base o, wf d -> o ∈ occs base d -> in_object (text d) base (occs base d) (size d) (height d) o)
    (fun ms => forall object frame fin at_ o, items_wf object ms -> (frame < at_)%nat -> frame_start o <> frame -> o ∈ items_occs frame fin at_ ms ->
       in_object (items_text object ms) at_ (items_occs frame fin at_ ms) (items_size ms) (items_height ms) o) more_in_object);
    try by (intros; cbn in *; match goal with H : _ ∈ [] |- _ => by apply elem_of_nil in H end).
  - intros object ms IH base o W Ho. apply container_in_object; [done|done|]. intros N. apply IH; [done|lia|done|done].
  - intros. by apply item_in_object.
  - intros object frame fin at_ o W Fr N Ho. by apply elem_of_nil in Ho.
  - intros ms IH object frame fin at_ o W Fr N Ho. cbn [more_text more_occs more_size more_height] in *.
    apply (IH object) in Ho; [|done|lia|done].
    apply (in_object_weaken _ _ _ _ _ _ [","%char] [] [] [] (items_size ms) (items_height ms)) in Ho; try lia.
    + cbn [length app] in Ho. rewrite !app_nil_r, Nat.sub_succ, Nat.sub_0_r in Ho. exact Ho.
    + by intros o' H%elem_of_nil.
    + cbn. lia.
Qed.

(** ** A value is pinned by where it starts *)

Definition spans (lo hi : nat) (o : occurrence) : Prop := (lo <= valueStart o /\ valueStart o < valueEnd o <= hi)%nat.

Lemma text_length d : wf d -> (1 <= length (text d))%nat.
Proof. intros (c & l & -> & _)%text_starts. cbn. lia. Qed.

Lemma own_spans frame fin at_ k d o : wf d -> o ∈ own frame fin at_ k d ->
  valueStart o = (at_ + length (label_text k))%nat /\ valueEnd o = (at_ + length (label_text k) + length (text d))%nat /\ occ_value o = value_of d.
Proof. intros W H. destruct k as [k|]; [|by apply elem_of_nil in H]. by apply list_elem_of_singleton in H as ->. Qed.

Lemma occs_spans :
  (forall d base o, wf d -> o ∈ occs base d -> spans (S base) (base + length (text d)) o) /\
  (forall ms object frame fin at_ o, items_wf object ms -> o ∈ items_occs frame fin at_ ms -> spans at_ (at_ + length (items_text object ms)) o) /\
  (forall m object frame fin at_ o, more_wf object m -> o ∈ more_occs frame fin at_ m -> spans at_ (at_ + length (more_text object m)) o).
Proof.
  unfold spans. apply doc_items_ind; try by (intros; match goal with H : _ ∈ _ |- _ => by apply elem_of_nil in H end).
  - intros object ms IH base o W Ho. apply (IH object) in Ho; [|done]. cbn [text length]. lia.
  - intros w k d IHd w' m IHm object frame fin at_ o (_ & _ & W & _ & Wm) Ho. cbn [items_text items_occs] in *.
    rewrite !length_app. rewrite !elem_of_app in Ho. destruct Ho as [Ho|[Ho|Ho]].
    + apply IHd in Ho; [|done]. lia.
    + pose proof (text_length d W). apply own_spans in Ho as (-> & -> & _); [lia|done].
    + apply (IHm object) in Ho; [|done]. lia.
  - intros ms IH object frame fin at_ o W Ho. apply (IH object) in Ho; [|done]. cbn [more_text length]. lia.
Qed.

Lemma occs_pinned :
  (forall d base o o', wf d -> o ∈ occs base d -> o' ∈ occs base d -> valueStart o = valueStart o' -> o = o') /\
  (forall ms object frame fin at_ o o', items_wf object ms -> o ∈ items_occs frame fin at_ ms -> o' ∈ items_occs frame fin at_ ms ->
     valueStart o = valueStart o' -> o = o') /\
  (forall m object frame fin at_ o o', more_wf object m -> o ∈ more_occs frame fin at_ m -> o' ∈ more_occs frame fin at_ m ->
     valueStart o = valueStart o' -> o = o').
Proof.
  apply doc_items_ind; try by (intros; match goal with H : _ ∈ _ |- _ => by apply elem_of_nil in H end).
  - intros object ms IH base o o' W. by apply (IH object).
  - intros w k d IHd w' m IHm object frame fin at_ o o' (_ & _ & W & _ & Wm). cbn [items_occs].
    set (a := (at_ + length w)%nat). set (vs := (a + length (label_text k))%nat). rewrite !elem_of_app.
    pose proof (text_length d W) as T.
    assert (forall o, o ∈ occs vs d -> (vs < valueStart o < vs + length (text d))%nat) as B1.
    { intros x Hx. apply (proj1 occs_spans) in Hx as (? & ?); [|done]. lia. }
    assert (forall o, o ∈ own frame fin a k d -> valueStart o = vs) as B2 by (intros x Hx; by apply own_spans in Hx as (-> & _)).
    assert (forall o, o ∈ more_occs frame fin (vs + length (text d) + length w') m -> (vs + length (text d) <= valueStart o)%nat) as B3.
    { intros x Hx. apply (proj2 (proj2 occs_spans) m object) in Hx as (? & ?); [|done]. lia. }
    intros [H|[H|H]] [H'|[H'|H']] E; [by apply (IHd vs)|apply B1 in H; apply B2 in H'; lia|apply B1 in H; apply B3 in H'; lia
      |apply B2 in H; apply B1 in H'; lia| |apply B2 in H; apply B3 in H'; lia|apply B3 in H; apply B1 in H'; lia
      |apply B3 in H; apply B2 in H'; lia|by apply (IHm object frame fin (vs + length (text d) + length w')%nat)].
    destruct k as [k|]; [|by apply elem_of_nil in H]. apply list_elem_of_singleton in H as ->. by apply list_elem_of_singleton in H' as ->.
  - intros ms IH object frame fin at_ o o' W. by apply (IH object).
Qed.

Lemma pin_at (lead : bytes) d o : wf d -> o ∈ occs (length lead) d -> pin (Z.of_nat (valueStart o)) (occs (length lead) d) None = Some o.
Proof.
  intros W Ho. destruct (pin _ _ None) as [o'|] eqn:P.
  - f_equal. apply (proj1 occs_pinned d (length lead)); [done|by eapply pin_elem|done|].
    cbn in P. apply find_first_some in P as (l1 & l2 & _ & E & _). apply Z.eqb_eq in E. lia.
  - exfalso. cbn in P. apply find_first_none in P. rewrite Forall_forall in P. specialize (P o Ho). by rewrite Z.eqb_refl in P.
Qed.

(** ** The verdict *)

Definition literal_value (l : Literal) : option value :=
  match l with
  | BoolLiteral b => Some (VBool b) | StringLiteral s => Some (VString s) | NumberLiteral x => Some (VNumber x)
  | NullLiteral => Some VNull | InvalidLiteral => None
  end.

Lemma equal_spec v o : equal v o = true <-> v = o.
Proof.
  destruct v, o; cbn; try (by split; [done|intros [=]]); rewrite ?bool_decide_eq_true, ?eqb_true_iff; try done;
    (split; [by intros ->|by intros [= ->]]).
Qed.

Lemma literalMatches_spec v l : literalMatches v l = true <-> literal_value l = Some v.
Proof.
  destruct l, v; cbn; try (by split; [done|intros [=]]); rewrite ?bool_decide_eq_true, ?eqb_true_iff; try done;
    (split; [by intros ->|by intros [= ->]]).
Qed.

Lemma hasConflict_spec v vs : v ∈ vs -> (hasConflict vs = false <-> forall u, u ∈ vs -> u = v).
Proof.
  destruct vs as [|v0 vs]; [by intros ?%elem_of_nil|]. intros Hv. cbn [hasConflict].
  assert (existsb (fun u => negb (equal u v0)) vs = false <-> forall u, u ∈ vs -> u = v0) as ->.
  { clear Hv. induction vs as [|u vs IH]; cbn; [split; [intros _ u ?%elem_of_nil|]; done|].
    rewrite orb_false_iff, negb_false_iff, equal_spec, IH. split.
    - intros [-> H] x [->|Hx]%elem_of_cons; [done|by apply H].
    - intros H. split; [apply H; left|intros x Hx; apply H; by right]. }
  split; intros H.
  - assert (v = v0) as -> by (apply elem_of_cons in Hv as [->|Hv]; [done|by apply H]).
    intros u [->|Hu]%elem_of_cons; [done|by apply H].
  - assert (v0 = v) as <- by (apply H; left). intros u Hu. apply H. by right.
Qed.

Section verdict.
Context (sha256 : bytes -> bytes) (transcript : bytes) (loc : Locator) (pred : Predicate) (lim : Limits).

(** What the locator and the predicate ask of an occurrence. *)
Definition pinned (o : occurrence) : Prop :=
  Key pred <> [] /\ valid (Expect pred) = true /\ Z.of_nat (length transcript) <= MaxTranscriptBytes lim /\
  sha256 transcript = TranscriptSHA256 loc /\ ValueOffset loc = Z.of_nat (valueStart o) /\
  FragmentLength loc = Z.of_nat (valueEnd o - valueStart o) /\
  sha256 (take (valueEnd o - valueStart o) (drop (valueStart o) transcript)) = FragmentSHA256 loc /\ occ_key o = Key pred.

(** The transcript is a document, [o] is a member in it, and [vs] are the
    values of its key in its object. *)
Definition recorded (o : occurrence) (vs : list value) : Prop :=
  exists lead d trail, document transcript lead d trail /\ within lim d /\ o ∈ occs (length lead) d /\
    vs = List.map occ_value (alike (frame_start o) (Key pred) (occs (length lead) d)) /\ Z.of_nat (length vs) <= MaxMatches lim.

Definition judge (o : occurrence) (vs : list value) : Result :=
  let '(v, r) := if hasConflict vs then (Ambiguous, DuplicateConflict)
                 else if literalMatches (occ_value o) (Expect pred) then (Confirmed, LiteralMatch) else (Refuted, LiteralMismatch) in
  mkResult v r (Z.of_nat (frame_start o)) (mkSpan (Z.of_nat (keyStart o)) (Z.of_nat (keyEnd o)))
    (mkSpan (Z.of_nat (valueStart o)) (Z.of_nat (valueEnd o))) (Z.of_nat (length vs)).

Lemma scope_of lead d trail o : positive lim -> document transcript lead d trail -> within lim d -> o ∈ occs (length lead) d ->
  let vs := List.map occ_value (alike (frame_start o) (Key pred) (occs (length lead) d)) in
  scanScope transcript (frame_start o) (frame_end o) (Key pred) lim =
  if MaxMatches lim <? Z.of_nat (length vs) then Failed ResourceLimit else Done (vs, Z.of_nat (length vs)).
Proof.
  intros P (E & Bl & Bt & W) [M H] Ho vs. destruct (occs_in_object d (length lead) o W Ho) as (pre & ms & post & T & S & F & Wm & Sz & Hg & A).
  subst vs. rewrite A. rewrite F, S.
  pose proof (scanScope_reads lim (Key pred) ms (lead ++ pre) (post ++ trail) P Wm ltac:(split; lia)) as R. cbv zeta in R.
  rewrite length_app in R. rewrite <- R. f_equal. by rewrite E, T, <- !app_assoc.
Qed.

(** What the occurrence of a document gives the check. *)
Lemma occ_facts lead d trail o : document transcript lead d trail -> o ∈ occs (length lead) d ->
  (valueStart o < valueEnd o <= length transcript)%nat.
Proof.
  intros (-> & _ & _ & W) Ho. apply (proj1 occs_spans) in Ho as (_ & ?); [|done]. rewrite !length_app. lia.
Qed.

Lemma recorded_own o vs : pinned o -> recorded o vs -> occ_value o ∈ vs.
Proof.
  intros (_ & _ & _ & _ & _ & _ & _ & K) (lead & d & trail & _ & _ & Ho & -> & _). apply list_elem_of_fmap.
  exists o. split; [done|]. by apply elem_of_alike.
Qed.

End verdict.

(** A member recorded and pinned is judged. *)
Lemma recorded_judged sha256 transcript loc pred lim0 o vs :
  let lim := normalized lim0 in
  pinned sha256 transcript loc pred lim o -> recorded transcript pred lim o vs ->
  VerifyWithLimits sha256 transcript loc pred lim0 = Some (judge pred o vs).
Proof.
  intros lim (K & V & N & S & VO & FL & FS & OK) (lead & d & trail & D & L & Ho & -> & MM).
  pose proof (occ_facts _ _ _ _ _ D Ho) as F. unfold VerifyWithLimits. fold lim.
  rewrite (bool_decide_eq_false_2 _ K), V, (proj2 (Z.ltb_ge _ _) N), (bool_decide_eq_true_2 _ S), VO, FL. cbn [negb orb].
  rewrite (proj2 (Z.ltb_ge (Z.of_nat (valueStart o)) 0)), (proj2 (Z.leb_gt (Z.of_nat (valueEnd o - valueStart o)) 0)) by lia. cbn [orb].
  rewrite (proj2 (Z.ltb_ge _ (Z.of_nat (valueStart o)))), (proj2 (Z.ltb_ge _ (Z.of_nat (valueEnd o - valueStart o)))) by lia. cbn [orb].
  rewrite !Nat2Z.id, (bool_decide_eq_true_2 _ FS). cbn [negb].
  rewrite (scanWhole_reads _ _ _ _ _ _ D L), pin_at by (done || by destruct D as (_ & _ & _ & W)).
  rewrite (bool_decide_eq_true_2 _ OK). cbn [negb]. rewrite (proj2 (Z.eqb_eq _ _)) by lia. cbn [negb].
  rewrite (scope_of _ _ _ _ _ _ _ (normalized_positive lim0) D L Ho). fold lim. rewrite (proj2 (Z.ltb_ge _ _) MM).
  unfold judge. by destruct (hasConflict _), (literalMatches (occ_value o) (Expect pred)).
Qed.

(** Every check ends, and without such a member nothing is verified. *)
Lemma judged_recorded sha256 transcript loc pred lim0 :
  let lim := normalized lim0 in
  exists r, VerifyWithLimits sha256 transcript loc pred lim0 = Some r /\
    (verdict r = Unverified \/ exists o vs, pinned sha256 transcript loc pred lim o /\ recorded transcript pred lim o vs).
Proof.
  intros lim. unfold VerifyWithLimits. fold lim. set (n := Z.of_nat (length transcript)).
  assert (forall r z, exists r0, Some (unverified r z) = Some r0 /\
    (verdict r0 = Unverified \/ exists o vs, pinned sha256 transcript loc pred lim o /\ recorded transcript pred lim o vs)) as U.
  { intros. eexists. split; [done|by left]. }
  case_bool_decide as K; [apply U|]. destruct (valid (Expect pred)) eqn:V; [|apply U]. cbn [negb orb].
  destruct (Z.ltb_spec (MaxTranscriptBytes lim) n) as [|N]; [apply U|]. case_bool_decide as S; [|apply U]. cbn [negb].
  destruct (Z.ltb_spec (ValueOffset loc) 0) as [|V0]; [apply U|]. destruct (Z.leb_spec (FragmentLength loc) 0) as [|F0]; [apply U|]. cbn [orb].
  destruct (Z.ltb_spec n (ValueOffset loc)) as [|V1]; [apply U|].
  destruct (Z.ltb_spec (n - ValueOffset loc) (FragmentLength loc)) as [|F1]; [apply U|]. cbn [orb].
  case_bool_decide as FS; [|apply U]. cbn [negb].
  destruct (scanWhole transcript (ValueOffset loc) lim) as [[o|]|r|] eqn:SW; try apply U;
    [|by apply scanWhole_ends in SW; [|apply normalized_positive]].
  apply scanWhole_means in SW as (lead & d & trail & D & L & P); [|apply normalized_positive].
  pose proof (pin_elem _ _ _ (eq_sym P)) as Ho. pose proof (occ_facts _ _ _ _ _ D Ho) as F.
  assert (ValueOffset loc = Z.of_nat (valueStart o)) as VO.
  { symmetry in P. cbn in P. apply find_first_some in P as (l1 & l2 & _ & E & _). apply Z.eqb_eq in E. lia. }
  case_bool_decide as OK; [|apply U]. cbn [negb].
  destruct (Z.eqb_spec (Z.of_nat (valueEnd o) - Z.of_nat (valueStart o)) (FragmentLength loc)) as [FL|]; [|apply U]. cbn [negb].
  rewrite (scope_of _ _ _ _ _ _ _ (normalized_positive lim0) D L Ho). fold lim.
  destruct (Z.ltb_spec (MaxMatches lim) (Z.of_nat (length (List.map occ_value (alike (frame_start o) (Key pred) (occs (length lead) d)))))) as [|MM]; [apply U|].
  assert (FragmentLength loc = Z.of_nat (valueEnd o - valueStart o)) as FL' by lia.
  assert (pinned sha256 transcript loc pred lim o) as Pn.
  { split_and!; try done. rewrite <- FS, VO, FL', !Nat2Z.id. done. }
  destruct (hasConflict _); [|destruct (literalMatches (occ_value o) (Expect pred))]; (eexists; split; [done|]; right;
    eexists o, _; split; [done|]; by exists lead, d, trail).
Qed.

(** C31: the check always comes to a verdict, and it is what the bytes record:
    when the transcript is a JSON document within the limits, in which the value
    pinned, of the digests asked, is that of a member of the key asked, it is
    ambiguous when the members of that key in that object differ, confirmed when
    they all are the literal claimed, refuted when they agree on another value;
    otherwise the claim is unverified. *)
Theorem a_verdict_is_what_the_bytes_record sha256 transcript loc pred lim0 :
  let lim := normalized lim0 in
  let found o vs := pinned sha256 transcript loc pred lim o /\ recorded transcript pred lim o vs in
  exists r, VerifyWithLimits sha256 transcript loc pred lim0 = Some r /\
    (verdict r = Confirmed <-> exists o vs, found o vs /\ forall v, v ∈ vs -> literal_value (Expect pred) = Some v) /\
    (verdict r = Refuted <-> exists o vs, found o vs /\ (forall v, v ∈ vs -> v = occ_value o) /\
                                          literal_value (Expect pred) <> Some (occ_value o)) /\
    (verdict r = Ambiguous <-> exists o vs, found o vs /\ exists v, v ∈ vs /\ v <> occ_value o) /\
    (verdict r <> Unverified -> exists o vs, found o vs /\ ObjectOffset r = Z.of_nat (frame_start o) /\
       KeySpan r = mkSpan (Z.of_nat (keyStart o)) (Z.of_nat (keyEnd o)) /\
       ValueSpan r = mkSpan (Z.of_nat (valueStart o)) (Z.of_nat (valueEnd o)) /\ MatchingOccurrences r = Z.of_nat (length vs)).
Proof.
  intros lim found. destruct (judged_recorded sha256 transcript loc pred lim0) as (r & R & J). fold lim in J. exists r. split; [done|].
  assert (forall o vs, found o vs -> r = judge pred o vs /\ occ_value o ∈ vs) as Jd.
  { intros o vs [P Rc]. split; [|by eapply recorded_own]. pose proof (recorded_judged _ _ _ _ _ _ _ P Rc) as E. congruence. }
  assert (forall o vs, found o vs -> verdict r = if hasConflict vs then Ambiguous else if literalMatches (occ_value o) (Expect pred) then Confirmed else Refuted) as Jv.
  { intros o vs F. destruct (Jd o vs F) as [-> _]. unfold judge. by destruct (hasConflict vs), (literalMatches (occ_value o) (Expect pred)). }
  assert (verdict r <> Unverified -> exists o vs, found o vs) as Jx.
  { intros N. destruct J as [J|J]; [done|exact J]. }
  split_and!; try split.
  - intros C. destruct Jx as (o & vs & F); [by rewrite C|]. exists o, vs. split; [done|]. destruct (Jd o vs F) as [_ Ho].
    rewrite (Jv o vs F) in C. destruct (hasConflict vs) eqn:HC; [done|]. destruct (literalMatches (occ_value o) (Expect pred)) eqn:LM; [|done].
    apply literalMatches_spec in LM. intros v Hv. rewrite LM. f_equal. symmetry. by apply (hasConflict_spec (occ_value o) vs Ho).
  - intros (o & vs & F & All). destruct (Jd o vs F) as [_ Ho]. rewrite (Jv o vs F).
    rewrite (proj2 (hasConflict_spec (occ_value o) vs Ho)); [|intros u Hu; specialize (All u Hu) as A1; specialize (All _ Ho); congruence].
    by rewrite (proj2 (literalMatches_spec _ _) (All _ Ho)).
  - intros C. destruct Jx as (o & vs & F); [by rewrite C|]. exists o, vs. split; [done|]. destruct (Jd o vs F) as [_ Ho].
    rewrite (Jv o vs F) in C. destruct (hasConflict vs) eqn:HC; [done|]. destruct (literalMatches (occ_value o) (Expect pred)) eqn:LM; [done|].
    split; [by apply hasConflict_spec|]. intros E%literalMatches_spec. congruence.
  - intros (o & vs & F & All & Ne). destruct (Jd o vs F) as [_ Ho]. rewrite (Jv o vs F), (proj2 (hasConflict_spec (occ_value o) vs Ho) All).
    destruct (literalMatches (occ_value o) (Expect pred)) eqn:LM; [|done]. by apply literalMatches_spec in LM.
  - intros C. destruct Jx as (o & vs & F); [by rewrite C|]. exists o, vs. split; [done|]. destruct (Jd o vs F) as [_ Ho].
    rewrite (Jv o vs F) in C. destruct (hasConflict vs) eqn:HC; [|by destruct (literalMatches (occ_value o) (Expect pred))].
    destruct (decide (Forall (fun u => u = occ_value o) vs)) as [A|A].
    { rewrite Forall_forall in A. by rewrite (proj2 (hasConflict_spec (occ_value o) vs Ho) A) in HC. }
    apply (not_Forall_Exists _) in A. by apply Exists_exists in A as (v & Hv & Ne); exists v.
  - intros (o & vs & F & v & Hv & Ne). destruct (Jd o vs F) as [_ Ho]. rewrite (Jv o vs F).
    destruct (hasConflict vs) eqn:HC; [done|]. by apply (proj1 (hasConflict_spec (occ_value o) vs Ho) HC) in Hv.
  - intros N. destruct (Jx N) as (o & vs & F). exists o, vs. split; [done|]. destruct (Jd o vs F) as [-> _]. unfold judge.
    by destruct (hasConflict vs), (literalMatches (occ_value o) (Expect pred)).
Qed.

(** ** Locating a value, and the claim on it *)

(** A value located is found again: the check judges it under its own key. *)
Lemma a_located_value_is_judged sha256 transcript lead d trail o want :
  let pred := mkPredicate (occ_key o) want in
  let vs := List.map occ_value (alike (frame_start o) (occ_key o) (occs (length lead) d)) in
  document transcript lead d trail -> within DefaultLimits d -> o ∈ occs (length lead) d ->
  Z.of_nat (length transcript) <= MaxTranscriptBytes DefaultLimits -> Z.of_nat (length vs) <= MaxMatches DefaultLimits ->
  occ_key o <> [] -> valid want = true ->
  exists loc, LocateValue sha256 transcript (Z.of_nat (valueStart o)) = Some loc /\
    Verify sha256 transcript loc pred = Some (judge pred o vs).
Proof.
  intros pr vs D L Ho N MM K V. pose proof (occ_facts _ _ _ _ _ D Ho) as F. unfold LocateValue.
  rewrite (proj2 (Z.ltb_ge _ 0)), (proj2 (Z.leb_gt (Z.of_nat (length transcript)) _)) by lia. cbn [orb].
  rewrite (scanWhole_reads _ _ _ _ _ _ D L), pin_at by (done || by destruct D as (_ & _ & _ & W)).
  eexists. split; [done|]. apply recorded_judged.
  - split_and!; try done. cbn [FragmentLength]. lia.
  - exists lead, d, trail. by split_and!.
Qed.

Import EvidenceClaim.

(** A claim's standing is the verdict's, and only where there is a basis; the
    digest and the span are shown only with a verdict. *)
Lemma Evaluate_standing sha256 txt src raw loc pred coverage :
  exists r vr, Verify sha256 raw loc pred = Some vr /\ Evaluate sha256 txt src raw loc pred coverage = Some r /\
    let basis := match coverage with CoverageFull | CoveragePartial => true | _ => false end in
    (Standing_ r = StateLedger.Supported <-> basis = true /\ verdict vr = Confirmed) /\
    (Standing_ r = StateLedger.Contradicted <-> basis = true /\ verdict vr = Refuted) /\
    (Standing_ r <> StateLedger.Supported -> Standing_ r <> StateLedger.Contradicted -> Standing_ r = StateLedger.Unresolved) /\
    (is_Some (ArtifactSHA256 r) <-> basis = true /\ verdict vr <> Unverified).
Proof.
  destruct (judged_recorded sha256 raw loc pred DefaultLimits) as (vr & E & _). change (Verify sha256 raw loc pred = Some vr) in E.
  unfold Evaluate. rewrite E. destruct coverage; cbn; eexists _, vr; (split; [done|]); (split; [done|]); cbn.
  3-5: unfold is_Some; naive_solver.
  all: destruct (verdict vr); cbn; unfold is_Some; naive_solver.
Qed.

(** ** On a line of a transcript *)

Section example.

Definition field (k v : string) : bytes := of_string (String quote k ++ String quote ":" ++ v)%string.
Definition line : bytes :=
  of_string "{"  ++ field "ok" "true" ++ of_string ", " ++ field "in" "{" ++ field "ok" "1.50" ++ of_string "}, " ++ field "n" "7" ++ of_string "}".
Definition twice : bytes := of_string "{" ++ field "ok" "true" ++ of_string "," ++ field "ok" "false" ++ of_string "}".

(** The digest that keeps its bytes. *)
Definition kept (b : bytes) : bytes := b.

Definition at_byte (doc : bytes) (offset len_ : nat) : Locator :=
  mkLocator doc (Z.of_nat offset) (Z.of_nat len_) (take len_ (drop offset doc)).

Definition checked (doc : bytes) (offset len_ : nat) (want : Literal) : option (Verdict * Reason) :=
  (fun r => (verdict r, reason r)) <$> Verify kept doc (at_byte doc offset len_) (mkPredicate (of_string "ok") want).

Example the_outer_member_is_true : checked line 6 4 (BoolLiteral true) = Some (Confirmed, LiteralMatch).
Proof. vm_compute. reflexivity. Qed.

(** The member of the same name in the object inside is another one, and a
    number is compared as it is written. *)
Example the_inner_member_is_a_number :
  checked line 23 4 (NumberLiteral (of_string "1.50")) = Some (Confirmed, LiteralMatch) /\
  checked line 23 4 (NumberLiteral (of_string "1.5")) = Some (Refuted, LiteralMismatch).
Proof. split; vm_compute; reflexivity. Qed.

Example a_key_said_twice_is_ambiguous : checked twice 6 4 (BoolLiteral true) = Some (Ambiguous, DuplicateConflict).
Proof. vm_compute. reflexivity. Qed.

Example half_a_value_is_not_one : checked line 23 3 (NumberLiteral (of_string "1.5")) = Some (Unverified, FragmentSpanMismatch).
Proof. vm_compute. reflexivity. Qed.

End example.

End EvidenceSpec.

(** The register of claims keeps what it was told. *)

Module StateLedgerSpec.
Import StateLedger.

#[local] Abbreviation length := List.length.

Inductive op :=
| OClaim (txt origin : string) | OCheck (claimID : string) (k : Kind) (action result : string) (o : Outcome)
| OOpen (claimID question : string) | ORevise (claimID checkID : string) (to : Standing) (replacement : option string).

Definition step (l : Ledger) (x : op) : Ledger :=
  match x with
  | OClaim txt origin => (Claim l txt origin).2
  | OCheck id k a r o => (Check_ l id k a r o).2
  | OOpen id q => Open l id q
  | ORevise id k to rep => Revise l id k to rep
  end.

(** A row is the one its place numbers; its standing is its last entry, and one
    contradicted with nothing to replace it has an open question. *)
Definition row_ok (l : Ledger) (i : nat) (c : ClaimRow) : Prop :=
  claim_ID c = numbered "c" i /\
  (exists h because, claim_History c = h ++ [mkEntry (claim_Standing c) because]) /\
  head (claim_History c) = Some (mkEntry Asserted "") /\
  (claim_Standing c = Contradicted -> Replacement c = None -> HasOpenQuestion l (claim_ID c) = true).

Definition ledger_ok (l : Ledger) : Prop := forall i c, claims l !! i = Some c -> row_ok l i c.

Lemma numbered_inj m n : numbered "c" m = numbered "c" n -> m = n.
Proof.
  assert (forall k, itoa (Z.of_nat k + 1) = itoa_N (N.of_nat (S k))) as E.
  { intros k. by replace (Z.of_nat k + 1) with (Z.of_nat (S k)) by lia. }
  unfold numbered. intros H. injection H as H. rewrite !E in H. apply itoa_N_inj in H. lia.
Qed.

Lemma Open_keeps l id q id' : HasOpenQuestion l id' = true -> HasOpenQuestion (Open l id q) id' = true.
Proof.
  unfold HasOpenQuestion, Open. cbn. destruct (decide (id = id')) as [->|N].
  - rewrite lookup_insert_eq. cbn. by destruct (default [] _).
  - by rewrite lookup_insert_ne.
Qed.

Lemma Open_opens l id q : HasOpenQuestion (Open l id q) id = true.
Proof. unfold HasOpenQuestion, Open. cbn. rewrite lookup_insert_eq. cbn. by destruct (default [] _). Qed.

Lemma revised_lookup id f rows i : (forall c, claim_ID (f c) = claim_ID c) ->
  (forall i j c d, rows !! i = Some c -> rows !! j = Some d -> claim_ID c = claim_ID d -> i = j) ->
  revised id f rows !! i = (fun c => if String.eqb (claim_ID c) id then f c else c) <$> rows !! i.
Proof.
  intros Hf. revert i. induction rows as [|c rows IH]; intros i U; [done|]. cbn.
  destruct (String.eqb_spec (claim_ID c) id) as [E|E].
  - destruct i as [|i]; cbn; [by rewrite E, String.eqb_refl|]. destruct (rows !! i) as [d|] eqn:L; [|done]. cbn.
    destruct (String.eqb_spec (claim_ID d) id) as [E'|]; [|done]. exfalso.
    by specialize (U 0%nat (S i) c d eq_refl L ltac:(congruence)).
  - destruct i as [|i]; cbn; [by rewrite (proj2 (String.eqb_neq _ _) E)|]. apply IH.
    intros j k c' d' Hj Hk E'. by specialize (U (S j) (S k) c' d' Hj Hk E') as [= ->].
Qed.

Lemma ledger_unique l : ledger_ok l -> forall i j c d, claims l !! i = Some c -> claims l !! j = Some d -> claim_ID c = claim_ID d -> i = j.
Proof. intros OK i j c d Hi Hj E. apply OK in Hi as (I & _). apply OK in Hj as (J & _). apply numbered_inj. congruence. Qed.

Lemma step_claims l x i c : ledger_ok l -> claims l !! i = Some c ->
  exists c', claims (step l x) !! i = Some c' /\ claim_Text c' = claim_Text c /\ claim_ID c' = claim_ID c /\
    claim_History c `prefix_of` claim_History c'.
Proof.
  intros OK Hi. destruct x as [txt origin|id k a r o|id q|id k to rep]; cbn.
  - exists c. rewrite lookup_app_l by by eapply lookup_lt_Some. done.
  - by exists c.
  - by exists c.
  - unfold Revise. destruct (ClaimByID l id) as [d|]; [|by exists c].
    assert (claims (mkLedger (Session l) (revised id (revise to k rep) (claims l)) (checks l) (open l)) !! i
      = Some (if String.eqb (claim_ID c) id then revise to k rep c else c)) as E.
    { cbn [claims]. rewrite revised_lookup, Hi by (done || by apply ledger_unique). done. }
    exists (if String.eqb (claim_ID c) id then revise to k rep c else c).
    split; [destruct to, rep; exact E|]. destruct (String.eqb _ _); [|done]. cbn. split_and!; try done. by eexists.
Qed.

Lemma revise_ok l id k to rep : ledger_ok l -> ledger_ok (Revise l id k to rep).
Proof.
  intros OK. unfold Revise. destruct (ClaimByID l id) as [d|] eqn:D.
  2: { intros i c Hi. destruct (OK i c Hi) as (I & H & A & Q). split_and!; try done. intros E R. by apply Open_keeps, Q. }
  set (l' := mkLedger (Session l) (revised id (revise to k rep) (claims l)) (checks l) (open l)).
  assert (forall m, claims m = claims l' -> (forall id', HasOpenQuestion l id' = true -> HasOpenQuestion m id' = true) ->
    (to = Contradicted -> rep = None -> HasOpenQuestion m id = true) -> ledger_ok m) as Fin.
  { intros m Cm Km Om i c Hi. rewrite Cm in Hi. cbn [claims l'] in Hi. rewrite revised_lookup in Hi by (done || by apply ledger_unique).
    destruct (claims l !! i) as [c0|] eqn:L; [|done]. injection Hi as <-. destruct (OK i c0 L) as (I & H & A & Q).
    destruct (String.eqb_spec (claim_ID c0) id) as [E|E].
    - split_and!; cbn; [done|by eexists _, _| |].
      + destruct H as (h & b & H). rewrite H in A |- *. by destruct h.
      + intros -> ->. rewrite E. by apply Om.
    - split_and!; try done. intros S R. by apply Km, Q. }
  destruct to, rep; try (apply Fin; done). apply Fin; [done| |intros; apply Open_opens]. intros id' H. by apply (Open_keeps l').
Qed.

(** Whatever is recorded, asserted, opened or revised: every claim keeps its
    number, its text and its whole history, its standing is the last entry, and
    none is contradicted in silence. *)
Lemma the_register_forgets_nothing session ops1 ops2 :
  let l := fold_left step ops1 (New session) in
  let l' := fold_left step ops2 l in
  ledger_ok l' /\ forall i c, claims l !! i = Some c ->
    exists c', claims l' !! i = Some c' /\ claim_Text c' = claim_Text c /\ claim_ID c' = claim_ID c /\ claim_History c `prefix_of` claim_History c'.
Proof.
  assert (forall l x, ledger_ok l -> ledger_ok (step l x)) as Step.
  { intros l [txt origin|id k a r o|id q|id k to rep] OK; cbn; [| | |by apply revise_ok].
    - intros i c Hi. cbn in Hi. apply lookup_app_Some in Hi as [Hi|[L Hi]]; [by apply OK|].
      apply list_lookup_singleton_Some in Hi as [E <-]. replace i with (length (claims l)) by lia. split_and!; cbn; try done. by exists [], "".
    - exact OK.
    - intros i c Hi. destruct (OK i c Hi) as (I & H & A & Q). split_and!; try done. intros E R. by apply Open_keeps, Q. }
  assert (forall ops l, ledger_ok l -> ledger_ok (fold_left step ops l)) as Run.
  { induction ops as [|x ops IH]; intros l OK; [done|]. by apply IH, Step. }
  intros l l'. assert (ledger_ok l) as OK by (by apply Run). split; [by apply Run|].
  subst l'. revert OK. generalize l. clear l. induction ops2 as [|x ops IH]; intros l OK i c Hi; [by exists c|].
  destruct (step_claims l x i c OK Hi) as (c1 & H1 & T1 & I1 & P1). cbn [fold_left].
  destruct (IH (step l x) (Step _ _ OK) i c1 H1) as (c2 & H2 & T2 & I2 & P2). exists c2. split_and!; [done|congruence|congruence|by transitivity (claim_History c1)].
Qed.

(** Only a dispositive check settles, whatever it was run against: the claim
    named is not looked at. *)
Lemma a_check_of_another_claim_settles l claimID other checkID c :
  checkByID l checkID = Some c -> ClaimID c = other -> Settle l claimID checkID = Settle l other checkID.
Proof. done. Qed.

End StateLedgerSpec.
