(* ===== verification/Handle.v ===== *)
(** One request through the proxy ([handle], [guard] of
    [src/internal/proxy/passthrough.go], [mask] and [modify] of [masking.go],
    [refusal.go], [applyPolicy] of [policyinject.go]): the order of operations,
    as a program whose operations are the critical sections it takes on the
    state all requests share.

    A request meets what its [exchange] says: its own headers and body, the
    provider's answer, what each write did.  [it] is the order of any map it
    ranges over.  Left out are the log lines, the scoring of [rescore], whose
    result the exchange holds, and the text of a refusal ([refusal_text]).

    [sha256hex] and [hmachex] are the standard library's digests in
    hexadecimal, [inflate] its gzip reader, [log2] its logarithm, [encode],
    [encode_pin] and [encode_revert] its JSON of the three records. *)

From S2P Require Import Prelude GoString GoFloat GoTime Json Wire Transcript Tenancy Guards Breaker CacheRules CachePrices.
From S2P Require Import CacheVerdict Masking Vault Scope Rehydrate Stream Siblings Ledger LedgerStore Policy PrefixDelta.
From S2P Require Import Stats Waste PolicyPin Summary MessageReader ChatReader ResponsesReader Tap HostGuard Rewrites Prog.
From Stdlib Require Import Ascii String.

Open Scope string_scope.
Open Scope list_scope.
Open Scope Z_scope.

Module Handle.
Import Json Tenancy Ledger LedgerStore Summary ResponsesReader ChatReader Tap Rewrites Prog.

#[local] Abbreviation length := List.length.

(** ** Paths *)

Definition messagesPath : string := "/v1/messages".
Definition chatCompletionsPath : string := "/v1/chat/completions".

Definition isMessages (path : string) : bool := Stats.has_suffix path messagesPath.
Definition isChatCompletions (path : string) : bool := Stats.has_suffix path chatCompletionsPath.
Definition maskable (path : string) : bool := isMessages path || Stats.isResponses path.
Definition readable (path : string) : bool := isMessages path || isChatCompletions path || Stats.isResponses path.

Definition MaxRequestBytes : Z := 67108864.

(** ** Refusals *)

Inductive refusal := CircuitOpen | SpendCap | Loop | ErrorBudget | PreFlightDeficit | TenantUnresolved.

Definition refusal_status (k : refusal) : Z := match k with CircuitOpen => 503 | _ => 400 end.

Definition refusal_counter (k : refusal) : string :=
  match k with
  | CircuitOpen => "circuit_open" | SpendCap => "spend_cap" | Loop => "loop" | ErrorBudget => "error_budget"
  | PreFlightDeficit => "preflight_deficit" | TenantUnresolved => "tenant_unresolved"
  end.

(** ** What a request meets *)

(** The provider's answer.  [NoResponse] is a round trip that ended in an error,
    whatever the error was; [Vanished] is a handler that unwound before any
    response. *)
Inductive upstream :=
| NoResponse (retries : Z)
| Responded (status : Z) (contentType contentEncoding : string) (headers : PreFlight.header)
    (chunks : list bytes) (broke_off : bool) (retries : Z)
| Vanished.

(** How a wait at the sibling gate ended: its leader began, or the deadline or
    the request's own cancellation came first. *)
Inductive wake := Woken | GaveUp.

Record exchange := mkExchange {
  x_method : string;
  x_path : string;
  x_session : string;
  x_agent : string;
  x_tenant : string;
  x_override : string;
  x_beta : string;
  x_origin : string;
  x_fetchMode : string;
  x_overTCP : bool;
  x_host : string;
  x_token : string;
  x_body : option bytes;
  x_rules : string;
  x_policyFile : option PolicyPin.Result;
  x_upstream : upstream;
  x_wakes : list wake;
  x_it : iteration;
  x_lookup : bytes -> option (bytes * string);
  x_refusal_write : write_outcome;
  x_append_write : write_outcome;
  x_pin_write : write_outcome;
  x_revert_write : write_outcome;
  x_scored : Z * Waste.ReReads
}.

Record Config := mkConfig {
  Token : string;
  Loops : LoopGuard.LoopLimits;
  cfg_ErrorBudget : float64;
  cfg_PreFlight : PreFlight.PolicyState;
  cfg_Masker : option Masking.Masker;
  cfg_Rehydrator : bool;
  FreezePrefix : bool;
  Holding : bool;
  cfg_Policy : PolicyPin.Config
}.

Definition NoPolicy (c : Config) : bool := PolicyPin.NoPolicy (cfg_Policy c).

(** What is known of the request before its response. *)
Record draft := mkDraft {
  d_start : time;
  d_session : string;
  d_summary : RequestSummary;
  d_summarized : bool;
  d_before : string;
  d_after : string;
  d_masked : gmap string Z;
  d_degraded : bool;
  d_frozen : bool;
  d_epoch : string;
  d_policy : string;
  d_held : duration
}.

Definition with_held (d : draft) (waited : duration) : draft :=
  mkDraft (d_start d) (d_session d) (d_summary d) (d_summarized d) (d_before d) (d_after d) (d_masked d)
    (d_degraded d) (d_frozen d) (d_epoch d) (d_policy d) waited.

(** How it ended: answered here, refused, or sent on, with what was sent and
    the record of it. *)
Inductive outcome :=
| Answered (status : Z)
| Refused (k : refusal)
| Forwarded (sent : bytes) (rec : Entry).

Section proxy.
Context (sha256hex : string -> string) (hmachex : string -> string -> string).
Context (log2 : float64 -> float64) (inflate : bytes -> bytes * bool).
Context (eval_symlinks : string -> option string) (scopes : Scope.Scopes).
Context (encode : Entry -> string) (encode_pin : Pin -> string) (encode_revert : Revert -> string).
Context (stamp : time -> string) (refusal_text : refusal -> string) (revert_reason : Z -> string).
Context (ov : option CacheRules.Rules) (key : string).
Context {Va : Type} `{PS : Masking.PlaceholderStore Va}.

#[local] Instance prices : Pricing.PriceLayer := Pricing.cachemodel ov.

(** ** The shared state and its operations *)

Record server := mkServer {
  breaker : Breaker.t;
  spending : SpendGuard.t;
  live : Stats.t;
  gate : Siblings.gate;
  vault : Va;
  pins : LedgerStore.Store;
  files : directory;
  clock : time
}.

Definition with_breaker (s : server) (b : Breaker.t) : server :=
  mkServer b (spending s) (live s) (gate s) (vault s) (pins s) (files s) (clock s).
Definition with_spending (s : server) (g : SpendGuard.t) : server :=
  mkServer (breaker s) g (live s) (gate s) (vault s) (pins s) (files s) (clock s).
Definition with_live (s : server) (l : Stats.t) : server :=
  mkServer (breaker s) (spending s) l (gate s) (vault s) (pins s) (files s) (clock s).
Definition with_gate (s : server) (g : Siblings.gate) : server :=
  mkServer (breaker s) (spending s) (live s) g (vault s) (pins s) (files s) (clock s).
Definition with_vault (s : server) (v : Va) : server :=
  mkServer (breaker s) (spending s) (live s) (gate s) v (pins s) (files s) (clock s).
Definition with_pins (s : server) (p : LedgerStore.Store) : server :=
  mkServer (breaker s) (spending s) (live s) (gate s) (vault s) p (files s) (clock s).
Definition with_files (s : server) (d : directory) : server :=
  mkServer (breaker s) (spending s) (live s) (gate s) (vault s) (pins s) d (clock s).

(** Each is one critical section, or one reading of the clock. *)
Inductive op : Type -> Type :=
| Now : op time
| NoteUnparsed (path : string) : op bool
| NoteUnmasked (path : string) : op bool
| NoteDisclosed (path : string) : op bool
| Allow : op Breaker.permission
| Release : op unit
| Observe (retryable : bool) : op unit
| MaskBody (m : Masking.Masker) (body : bytes) : op (Masking.mask_result (St := Va))
| CheckSpend (it : iteration) (tenant session : string) : op (option SpendGuard.refusal)
| ErrorTokens (tenant session : string) : op (Z * Z)
| LaneSnapshot (tenant session agent : string) : op (option string)
| CountRefused (k : refusal) : op unit
| Append (rec : Entry) (o : write_outcome) : op bool
| Pinned (tenant session : string) : op (option (option Policy.ContextEdit * string))
| GetPin (tenant session : string) : op (option Pin)
| GetRevert : op (option Revert)
| SetPin (tenant : string) (p : Pin) (o : write_outcome) : op bool
| PinSession (it : iteration) (tenant session : string) (d : PolicyPin.decision) : op unit
| EnterLane (it : iteration) (mine : nat) (tenant session agent : string) : op unit
| LeaveLane (mine : nat) (tenant session agent : string) : op unit
| Correlation (mine : nat) : op string
| GateEnter (prefix : string) : op Siblings.request
| GateAwait (f : nat) : op unit
| GateBegan (it : iteration) (prefix : string) : op (option nat)
| GateFinish (prefix : string) (f : nat) : op unit
| GateClose (f : nat) : op unit
| RecordSpend (it : iteration) (tenant session : string) (n : Z) (usd : float64) (bound : bool) : op unit
| NoteNoUsage : op unit
| NoteUnparsedBody : op unit
| ObserveStats (it : iteration) (tenant : string) (rec : Entry) : op (option CacheOutcome)
| SetLaneErrors (it : iteration) (tenant session agent : string) (n : Z) : op unit
| TrialSession (tenant session : string) : op (option (Policy.ContextEdit * time))
| NoteBreach (settings : PolicyPin.TrialSettings) (tenant session : string) (edit : Policy.ContextEdit)
    (generated : time) (o : write_outcome) : op unit.

(** Waiting for a sibling is the one operation that blocks. *)
Definition ready (A : Type) (e : op A) (s : server) : bool :=
  match e with
  | GateAwait f => bool_decide (f ∈ Siblings.closed (gate s))
  | _ => true
  end.

Definition hmac16 (k message : string) : string := substring 0 16 (hmachex k message).

Definition perform (A : Type) (e : op A) (s : server) : server * A :=
  match e with
  | Now => (s, clock s)
  | NoteUnparsed path => let '(l, b) := Stats.noteUnparsed (live s) path in (with_live s l, b)
  | NoteUnmasked path => let '(l, b) := Stats.noteUnmasked (live s) path in (with_live s l, b)
  | NoteDisclosed path => let '(l, b) := Stats.noteDisclosed (live s) path in (with_live s l, b)
  | Allow => let '(b, p) := Breaker.Allow (clock s) (breaker s) in (with_breaker s b, p)
  | Release => (with_breaker s (Breaker.Release (breaker s)), tt)
  | Observe retryable => (with_breaker s (Breaker.Observe (clock s) retryable (breaker s)), tt)
  | MaskBody m body => let '(r, v) := Masking.Mask log2 m (vault s) body in (with_vault s v, r)
  | CheckSpend it tenant session =>
      let '(g, r) := SpendGuard.Check_ it (clock s) (spending s) tenant session in (with_spending s g, r)
  | ErrorTokens tenant session => (s, Stats.errorTokens (live s) tenant session)
  | LaneSnapshot tenant session agent => (s, Stats.laneSnapshot (live s) tenant session agent)
  | CountRefused k => (with_live s (Stats.refused (live s) (refusal_counter k)), tt)
  | Append rec o => let '(d, b) := LedgerStore.Append sha256hex hmac16 encode key (files s) rec o in (with_files s d, b)
  | Pinned tenant session => (s, Stats.pinned (live s) tenant session)
  | GetPin tenant session => (s, get_pin (pins s) tenant session)
  | GetRevert => (s, st_revert (pins s))
  | SetPin tenant p o => let '(st, b) := LedgerStore.SetPin encode_pin (pins s) tenant p o in (with_pins s st, b)
  | PinSession it tenant session (edit, dec, generated) =>
      (with_live s (Stats.pin it (clock s) (live s) tenant session edit dec generated), tt)
  | EnterLane it mine tenant session agent =>
      (with_live s (Stats.enterLane it (clock s) mine (live s) tenant session agent), tt)
  | LeaveLane mine tenant session agent => (with_live s (Stats.leaveLane mine (live s) tenant session agent), tt)
  | Correlation mine => (s, Stats.correlation (live s) mine)
  | GateEnter prefix => let '(g, q) := Siblings.enter_locked (gate s) prefix in (with_gate s g, q)
  | GateAwait _ => (s, tt)
  | GateBegan it prefix =>
      (with_gate s (default (gate s) (Siblings.began_locked it (Siblings.now (gate s)) (gate s) prefix)),
       Siblings.flights (gate s) !! prefix)
  | GateFinish prefix f => (with_gate s (Siblings.finish_locked (gate s) prefix f), tt)
  | GateClose f => (with_gate s (Siblings.close_flight (gate s) f), tt)
  | RecordSpend it tenant session n usd bound =>
      (with_spending s (SpendGuard.Record_ it (clock s) (clock s) (spending s) tenant session n usd bound), tt)
  | NoteNoUsage => (with_live s (Stats.noteNoUsage (live s)), tt)
  | NoteUnparsedBody => (with_live s (Stats.noteUnparsedBody (live s)), tt)
  | ObserveStats it tenant rec => let '(l, o) := Stats.observe it (clock s) (live s) tenant rec in (with_live s l, o)
  | SetLaneErrors it tenant session agent n =>
      (with_live s (Stats.setLaneErrors it (clock s) (live s) tenant session agent n), tt)
  | TrialSession tenant session => (s, Stats.trialSession (live s) tenant session)
  | NoteBreach settings tenant session edit generated o =>
      let '(l, st) := PolicyPin.noteBreach encode_revert stamp (pins s) settings (live s) tenant session edit generated
                        (clock s) revert_reason o in
      (with_pins (with_live s l) st, tt)
  end.

(** A half-open probe is let through. *)
Definition may (A : Type) (e : op A) : A -> Prop :=
  match e with
  | Allow => fun p => Breaker.probe p = true -> Breaker.ok p = true
  | _ => fun _ => True
  end.

Lemma perform_may A (e : op A) s s' a : perform A e s = (s', a) -> may A e a.
Proof.
  destruct e; cbn; try done. unfold Breaker.Allow.
  repeat case_match; simplify_eq/=; intros [= <- <-]; done.
Qed.

Lemma may_answer A (e : op A) : exists a, may A e a.
Proof.
  destruct e; cbn; try by (exists inhabitant).
  - by exists (Breaker.mkPerm true false 0).
  - by exists (Masking.Unread []).
  - by exists (Siblings.Passed "").
Qed.

Abbreviation prog := (Prog.prog op outcome).

Lemma may_end (p : prog) : exists tr o, traces may p tr o.
Proof. apply has_trace, may_answer. Qed.

(** ** Answering here *)

(** [recordRefusal]'s record. *)
Definition refusal_record (at_ : time) (tenant session model : string) (k : refusal) : Entry :=
  mkEntry SchemaVersion at_ session "" "" "" "" "" false ""
    (mkSummary model "" false empty_prompt "" "") "" (refusal_status k) (refusal_counter k) (refusal_text k)
    (TenantIDOf tenant) "" "" ∅ false ∅ ∅ 0 0 0 ∅ empty_response None.

(** [refuseSession]: the record, then the counter; the breaker is not told. *)
Definition refuseSession (x : exchange) (tenant session model : string) (k : refusal) (p : prog) : prog :=
  at_ <~ Now;
  Append (refusal_record at_ tenant session model k) (x_refusal_write x) ;;
  CountRefused k ;; p.

(** The deferred return of a half-open probe. *)
Definition giveBack (probe : bool) (o : outcome) : prog := if probe then Release ;; Done o else Done o.

(** The three disclosures, each once for a path. *)
Definition disclose (x : exchange) (p : prog) : prog :=
  let post := String.eqb (x_method x) "POST" in
  let path := x_path x in
  let p := if Stats.isResponses path && post then NoteDisclosed path ;; p else p in
  let p := if isChatCompletions path && post then NoteUnmasked path ;; p else p in
  if negb (readable path) && post then NoteUnparsed path ;; p else p.

(** ** The body on its way out *)

Definition some_body (body : bytes) : bool := negb (length body =? 0)%nat.

Definition bodyHash (body : bytes) : string := substring 0 16 (sha256hex (to_string body)).

(** [mask]: a body that cannot be read as JSON comes back as it was, with an
    error. *)
Definition mask (c : Config) (x : exchange) (body : bytes) (k : bytes -> gmap string Z -> bool -> prog) : prog :=
  match cfg_Masker c with
  | Some m =>
      if maskable (x_path x) && some_body body && negb (NoPolicy c) then
        r <~ MaskBody m body;
        match r with
        | Masking.Unread body => k body ∅ true
        | Masking.Masked body report err => k body report (match err with Some _ => true | None => false end)
        end
      else k body ∅ false
  | None => k body ∅ false
  end.

(** The frozen version and the epoch. *)
Definition freeze (c : Config) (x : exchange) (body : bytes) : bytes * bool * string :=
  if isMessages (x_path x) && some_body body && FreezePrefix c && negb (NoPolicy c) then
    let '(out, frozen) := freezeBillingHeader body in (out, frozen, toolsWireHash sha256hex out)
  else (body, false, "").

Definition summarize (x : exchange) (body : bytes) : option RequestSummary :=
  if Stats.isResponses (x_path x) then SummarizeResponsesRequest sha256hex hmachex body (Some key)
  else if isChatCompletions (x_path x) then SummarizeOpenAIRequest sha256hex body
  else SummarizeRequest sha256hex hmachex body key.

(** ** The guards *)

(** [guard]: the first that refuses answers, unless the client overrides. *)
Definition guard (c : Config) (x : exchange) (tenant : string) (d : draft) (refuse : refusal -> prog) (pass : prog) : prog :=
  let override := negb (String.eqb (x_override x) "") in
  let p := sum_Prompt (d_summary d) in
  over <~ CheckSpend (x_it x) tenant (d_session d);
  if bool_decide (is_Some over) && negb override then refuse SpendCap
  else
    errors <~ ErrorTokens tenant (d_session d);
    if bool_decide (is_Some (LoopGuard.Budget_Check (cfg_ErrorBudget c) errors.1 errors.2)) && negb override then refuse ErrorBudget
    else if LoopGuard.v_Block (LoopGuard.DetectLoop (Ledger.Messages p) (Loops c)) && negb override then refuse Loop
    else if String.eqb (PrefixHash (d_summary d)) "" then pass
    else
      prior <~ LaneSnapshot tenant (d_session d) (x_agent x);
      match PreFlight.preFlight (cfg_PreFlight c) prior (PrefixHash (d_summary d)) (SystemBytes p) (ToolBytes p) (x_override x) with
      | PreFlight.RefusePreFlight => refuse PreFlightDeficit
      | _ => pass
      end.

(** ** The policy *)

(** [promptSize] *)
Definition promptSize (p : Prompt) : Z :=
  fold_left (fun n m => fold_left (fun n b => n +! Transcript.Bytes b) (LoopGuard.lm_Blocks m) n) (Ledger.Messages p)
    (SystemBytes p +! ToolBytes p).

Definition asking (x : exchange) (d : draft) (now : time) : PolicyPin.asking :=
  PolicyPin.mkAsking (x_beta x) (Ledger.ContextEdits (sum_Prompt (d_summary d))) (sum_Model (d_summary d))
    (promptSize (sum_Prompt (d_summary d))) now (x_rules x) (x_policyFile x).

(** [applyPolicy], its critical sections apart: the body to send, and whether
    the record names the policy. *)
Definition applyPolicy (c : Config) (x : exchange) (tenant : string) (d : draft) (body : bytes)
    (k : bytes -> bool -> prog) : prog :=
  let session := d_session d in
  let acted dec a := let '(out, applied) := PolicyPin.act dec a (d_summarized d) body in k out applied in
  if String.eqb session "" || negb (PolicyPin.policyConfigured (cfg_Policy c)) then k body false
  else
    now <~ Now;
    let a := asking x d now in
    found <~ Pinned tenant session;
    match found with
    | Some dec => acted dec a
    | None =>
        earlier <~ GetPin tenant session;
        match earlier with
        | Some p => let dec := PolicyPin.from_pin p in PinSession (x_it x) tenant session dec ;; acted dec.1 a
        | None =>
            reverted <~ GetRevert;
            let '(dec, p) := PolicyPin.decide_now (cfg_Policy c) reverted session a in
            SetPin tenant p (x_pin_write x) ;;
            PinSession (x_it x) tenant session dec ;; acted dec.1 a
        end
    end.

(** ** The response *)

(** [modify]: what the client is sent of a response whose placeholders are
    restored.  A body read whole is sent whole. *)
Definition modify (x : exchange) (contentType contentEncoding : string) (chunks : list bytes) (broke_off : bool)
    : list bytes * Rehydrate.RehydrationReport :=
  if negb (String.eqb contentEncoding "") then (chunks, Rehydrate.no_report)
  else if MessageReader.IsEventStream contentType then
    let '(out, st) := fold_left (fun (acc : list bytes * Stream.stream) p =>
        let '(o, st) := Stream.Transform (x_lookup x) eval_symlinks scopes acc.2 p in (acc.1 ++ [o], st))
        chunks ([], Stream.NewStream) in
    let '(o, st) := Stream.Flush st in (out ++ [o], Stream.s_rep st)
  else if has_prefix "application/json" (to_lower contentType) && negb broke_off
          && (Wire.size_of (List.concat chunks) <=? MaxResponseBytes) then
    match Rehydrate.Body (x_lookup x) eval_symlinks scopes (List.concat chunks) with
    | Rehydrate.Kept body rep | Rehydrate.Rewritten body rep | Rehydrate.BodyError body rep _ => ([body], rep)
    end
  else (chunks, Rehydrate.no_report).

(** What the bookkeeping finds when the response is over. *)
Record answer := mkAnswer {
  a_tap : responseTap;
  a_headers : PreFlight.header;
  a_retries : Z;
  a_report : Rehydrate.RehydrationReport
}.

(** The client's page for a round trip that failed; not JSON. *)
Definition error_page : bytes := of_string "replay: upstream request failed".

Definition set_failed (t : responseTap) : responseTap :=
  mkTap (t_family t) true (t_status t) (t_contentType t) (t_stream t) (t_buffer t) (t_gz t) (t_dropped t).

Definition answer_of (c : Config) (x : exchange) : answer :=
  let t := NewTap (isChatCompletions (x_path x)) (Stats.isResponses (x_path x)) in
  match x_upstream x with
  | Vanished => mkAnswer t ∅ 0 Rehydrate.no_report
  | NoResponse retries =>
      mkAnswer (respond sha256hex 502 "text/plain; charset=utf-8" "" [error_page] (set_failed t)) ∅ retries Rehydrate.no_report
  | Responded status ct ce headers chunks broke retries =>
      let '(chunks, rep) := if isMessages (x_path x) && cfg_Rehydrator c && negb (NoPolicy c)
                            then modify x ct ce chunks broke else (chunks, Rehydrate.no_report) in
      mkAnswer (respond sha256hex status ct ce chunks t) headers retries rep
  end.

(** ** The sibling gate around it *)

(** [enter], for as many waits as there are wakes: the flight led, if any. *)
Fixpoint hold (prefix : string) (wakes : list wake) (k : option nat -> prog) : prog :=
  q <~ GateEnter prefix;
  match q with
  | Siblings.Leads _ f _ => k (Some f)
  | Siblings.Waiting _ f =>
      match wakes with
      | Woken :: wakes => GateAwait f ;; hold prefix wakes k
      | _ => k None
      end
  | _ => k None
  end.

Definition release (prefix : string) (led : option nat) (p : prog) : prog :=
  match led with
  | Some f => GateFinish prefix f ;; GateClose f ;; p
  | None => p
  end.

(** [onHeaders], when a response begins. *)
Definition headers_seen (x : exchange) (prefix : string) (led : option nat) (status : Z) (p : prog) : prog :=
  if status <? 300 then
    flight <~ GateBegan (x_it x) prefix;
    match flight with Some f => GateClose f ;; p | None => p end
  else release prefix led p.

(** ** Bookkeeping *)

Definition milliseconds (d : duration) : Z := Z.quot d 1000000.

Definition listCost (u : Transcript.Usage) (model : string) : float64 * bool :=
  match CachePrices.PriceFor ov model with
  | (price, true) => (CachePrices.CostUSD u price, false)
  | (_, false) =>
      match CachePrices.DearestPrice with
      | Some dearest => (CachePrices.CostUSD u dearest, true)
      | None => (f0, true)
      end
  end.

Definition spent (u : Transcript.Usage) : Z :=
  Transcript.Input u +! Transcript.CacheCreation u +! Transcript.CacheRead u +! Transcript.Output u.

(** The record as [observe] is given it; the outcome comes after. *)
Definition entry_of (x : exchange) (d : draft) (a : answer) (resp : Response) (correlation : string) (now : time)
    (cache : option CacheOutcome) : Entry :=
  mkEntry 0 (d_start d) (d_session d) "" (x_agent x) (PreFlight.providerRequestID (a_headers a)) correlation
    (x_path x) (d_frozen d) (d_epoch d) (d_summary d) (d_policy d) (t_status (a_tap a)) "" "" "" (d_before d) (d_after d)
    (d_masked d) (d_degraded d) (Rehydrate.Restored (a_report a)) (Rehydrate.Denied (a_report a)) (a_retries a)
    (milliseconds (d_held d)) (milliseconds (Sub now (d_start d))) (PreFlight.quotaFrom (x_it x) (a_headers a)) resp cache.

(** The charge, or the note of a response that did not say what it cost. *)
Definition account (x : exchange) (tenant : string) (d : draft) (resp : Response) (status : Z) (p : prog) : prog :=
  if negb (readable (x_path x)) then p
  else match resp_Usage resp with
       | Some u => let '(usd, bound) := listCost u (sum_Model (d_summary d)) in
                   RecordSpend (x_it x) tenant (d_session d) (spent u) usd bound ;; p
       | None => if (200 <=? status) && (status <? 300)
                 then (if Unparsed resp then NoteUnparsedBody ;; p else NoteNoUsage ;; p) else p
       end.

(** [rescore]'s result, and the guardrail it may trip. *)
Definition rescore (c : Config) (x : exchange) (tenant : string) (d : draft) (p : prog) : prog :=
  SetLaneErrors (x_it x) tenant (d_session d) (x_agent x) (x_scored x).1 ;;
  trial <~ TrialSession tenant (d_session d);
  match trial with
  | Some (edit, generated) =>
      if PolicyPin.breached (PolicyPin.cfg_Trial (cfg_Policy c)) (x_scored x).2
      then NoteBreach (PolicyPin.cfg_Trial (cfg_Policy c)) tenant (d_session d) edit generated (x_revert_write x) ;; p
      else p
  | None => p
  end.

(** What is deferred behind the bookkeeping: the gate, the lane again, the
    probe when no outcome was observed. *)
Definition unwind (mine : nat) (x : exchange) (tenant : string) (d : draft) (led : option nat) (probe : bool)
    (o : outcome) : prog :=
  release (PrefixHash (d_summary d)) led (LeaveLane mine tenant (d_session d) (x_agent x) ;; giveBack probe o).

(** Whether the breaker is told: a client that left before any response is no
    observation of the provider. *)
Definition seen (c : Config) (x : exchange) : bool :=
  let t := a_tap (answer_of c x) in negb (t_status t =? 0) || upstreamFailed t.

(** The record a request leaves. *)
Definition left (c : Config) (x : exchange) (d : draft) (correlation : string) (now : time) (cache : option CacheOutcome) : Entry :=
  let a := answer_of c x in
  entry_of x d a (if readable (x_path x) then tap_result sha256hex inflate (a_tap a) else empty_response) correlation now cache.

(** The bookkeeping from the record on. *)
Definition settle (c : Config) (mine : nat) (x : exchange) (tenant : string) (d : draft) (led : option nat) (probe : bool)
    (sent : bytes) : prog :=
  now <~ Now;
  correlation <~ Correlation mine;
  let rec0 := left c x d correlation now None in
  account x tenant d (rec_Response rec0) (Status rec0) (
    cache <~ ObserveStats (x_it x) tenant rec0;
    LeaveLane mine tenant (d_session d) (x_agent x) ;;
    let rec := left c x d correlation now cache in
    let ends := unwind mine x tenant d led (probe && negb (seen c x)) (Forwarded sent rec) in
    if readable (x_path x) && negb (String.eqb (d_session d) "") then
      Append rec (x_append_write x) ;;
      (if bool_decide (is_Some (rec_Usage rec)) then rescore c x tenant d ends else ends)
    else ends).

(** The deferred bookkeeping. *)
Definition finish (c : Config) (mine : nat) (x : exchange) (tenant : string) (d : draft) (led : option nat) (probe : bool)
    (sent : bytes) : prog :=
  let t := a_tap (answer_of c x) in
  let p := settle c mine x tenant d led probe sent in
  if seen c x then Observe (upstreamFailed t || Breaker.IsRetryableStatus (t_status t)) ;; p else p.

(** ** The handler *)

(** From the lane to the end. *)
Definition forward (c : Config) (mine : nat) (x : exchange) (tenant : string) (d : draft) (probe : bool) (body : bytes) : prog :=
  EnterLane (x_it x) mine tenant (d_session d) (x_agent x) ;;
  let prefix := PrefixHash (d_summary d) in
  let status := t_status (a_tap (answer_of c x)) in
  let go d led := finish c mine x tenant d led probe body in
  if readable (x_path x) && d_summarized d then
    let begin led waited :=
      let d := with_held d waited in
      if status =? 0 then go d led else headers_seen x prefix led status (go d led) in
    if Holding c && negb (String.eqb prefix "") then
      begun <~ Now;
      hold prefix (x_wakes x) (fun led => over <~ Now; begin led (Sub over begun))
    else begin None 0
  else go d None.

(** Usage asked for on a chat-completions stream. *)
Definition askUsage (c : Config) (x : exchange) (body : bytes) (policy : string) (k : bytes -> string -> prog) : prog :=
  if isChatCompletions (x_path x) && negb (NoPolicy c) then
    let '(out, changed) := withUsageReporting body in
    if changed then k out "openai-include-usage" else k body policy
  else k body policy.

(** From the masked body to the lane: the freeze, the summary, the guards, the
    policy. *)
Definition prepare (c : Config) (mine : nat) (x : exchange) (tenant : string) (start : time) (probe : bool) (before : string)
    (body : bytes) (masked : gmap string Z) (degraded : bool) : prog :=
  let '(body, frozen, epoch) := freeze c x body in
  if readable (x_path x) && some_body body then
    let summary := summarize x body in
    let sum := default empty_summary summary in
    let session := if String.eqb (x_session x) "" then SessionHash sum else x_session x in
    let d policy after :=
      mkDraft start session sum (bool_decide (is_Some summary)) before after masked degraded frozen epoch policy 0 in
    let go body policy := forward c mine x tenant (d policy (if some_body body then bodyHash body else "")) probe body in
    guard c x tenant (d "" "")
      (fun k => refuseSession x tenant session (sum_Model sum) k (giveBack probe (Refused k)))
      (if isMessages (x_path x)
       then applyPolicy c x tenant (d "" "") body (fun body applied => askUsage c x body (if applied then Policy.Name else "") go)
       else askUsage c x body "" go)
  else
    forward c mine x tenant (mkDraft start (x_session x) empty_summary false before "" masked degraded frozen epoch "" 0) probe body.

(** From the body on. *)
Definition admitted (c : Config) (mine : nat) (x : exchange) (tenant : string) (start : time) (probe : bool) (body : bytes) : prog :=
  let before := if readable (x_path x) && some_body body then bodyHash body else "" in
  mask c x body (prepare c mine x tenant start probe before).

(** [handle]; [mine] numbers the request. *)
Definition handle (c : Config) (mine : nat) (x : exchange) : prog :=
  if HostGuard.notLocal (x_origin x) (x_fetchMode x) (x_overTCP x) (x_host x) then Done (Answered 403)
  else if negb (String.eqb (Token c) "") && negb (String.eqb (x_token x) (Token c)) then Done (Answered 401)
  else
    start <~ Now;
    disclose x (
      match ResolveTenant (x_tenant x) with
      | (_, Some _) => refuseSession x TenantUnknown (x_session x) "" TenantUnresolved (Done (Refused TenantUnresolved))
      | (tenant, None) =>
          p <~ Allow;
          if negb (Breaker.ok p) then refuseSession x tenant (x_session x) "" CircuitOpen (Done (Refused CircuitOpen))
          else match x_body x with
               | None => giveBack (Breaker.probe p) (Answered 400)
               | Some body =>
                   if MaxRequestBytes <? Wire.size_of body then giveBack (Breaker.probe p) (Answered 413)
                   else admitted c mine x tenant start (Breaker.probe p) body
               end
      end).

(** ** The proxy as a system *)

(** Any request may arrive. *)
Definition starts (c : Config) (r : nat) (p : prog) : Prop := exists x, p = handle c r x.

(** Time passes. *)
Definition tick (s s' : server) : Prop :=
  exists t, clock s <= t /\
    s' = mkServer (breaker s) (spending s) (live s)
           (Siblings.mkGate (Siblings.flights (gate s)) (Siblings.warm (gate s)) (Siblings.closed (gate s))
              (Siblings.closing (gate s)) (Siblings.next (gate s)) t)
           (vault s) (pins s) (files s) t.

Definition running (c : Config) : server -> Prog.system op outcome server -> Prop :=
  Prog.reachable ready perform (starts c) tick.

End proxy.

End Handle.
