(* ===== verification/HandleScene.v ===== *)
(** One proxy and one request, concrete, on which the theorems about the
    handler are applied: the digests are stand-ins that keep their text. *)

From S2P Require Import Prelude GoString GoFloat GoTime Transcript Tenancy Guards Breaker CacheRules CachePrices.
From S2P Require Import CacheVerdict Json Wire Vault Masking MaskingSpec Scope Rehydrate Stream Siblings.
From S2P Require Import Ledger LedgerStore Summary MessageReader ChatReader HostGuard Rewrites Prog.
From S2P Require Import ResponsesReader Tap Policy PrefixDelta Stats Waste PolicyPin Handle.
From Stdlib Require Import Ascii String.

Open Scope string_scope.
Open Scope list_scope.
Open Scope Z_scope.

Module HandleScene.
Import Json Prog Handle.

#[export] Instance store : Masking.PlaceholderStore MaskingSpec.vault_world := MaskingSpec.test_store.

Definition digest (s : string) : string := s.
Definition keyed (k s : string) : string := (k ++ s)%string.
Definition logarithm (x : float64) : float64 := x.
Definition expand (b : bytes) : bytes * bool := (b, true).
Definition resolve (p : string) : option string := Some p.
Definition everywhere : Scope.Scopes := Scope.mkScopes "/work" Scope.DefaultScope ∅.
Definition line (e : Ledger.Entry) : string := Ledger.SessionID e.
Definition pin_text (p : LedgerStore.Pin) : string := "pin".
Definition revert_text (r : LedgerStore.Revert) : string := "revert".
Definition date (t : time) : string := "2026-09-01".
Definition explain (k : refusal) : string := refusal_counter k.
Definition because (n : Z) : string := "re-reads".

Definition config : Config :=
  mkConfig "" (LoopGuard.mkLoop 0 0) f0 (PreFlight.mkPolicy 0 false) None false false false
    (PolicyPin.mkConfig false None false (PolicyPin.mkTrial f0 f0 0)).

(** A server whose breaker opened at time 1 and has cooled down since. *)
Definition cooled : server :=
  mkServer (Breaker.mkBreaker (Breaker.mkSettings 3 60) 3 1 false)
    (SpendGuard.NewSpendGuard (SpendGuard.mkLimits 0 0 f0 f0)) Stats.newStats (Siblings.newSiblingGate 1000)
    MaskingSpec.test_world (LedgerStore.mkStore ∅ "" None None) ∅ 1000.

Definition request : bytes := MaskingSpec.json "{'model':'m','messages':[{'role':'user','content':'hello'}]}".
Definition reply : bytes :=
  MaskingSpec.json "{'id':'m1','type':'message','content':[{'type':'text','text':'hi'}],'usage':{'input_tokens':5,'output_tokens':7}}".

Definition exchange_of (session : string) (up : upstream) : exchange :=
  mkExchange "POST" "/v1/messages" session "agent" "" "" "" "" "" true "127.0.0.1" "" (Some request) "" None up []
    key_order (fun _ => None) LedgerStore.Written LedgerStore.Written LedgerStore.Written LedgerStore.Written
    (0, Waste.no_rereads).

Definition plain : exchange :=
  exchange_of "s1" (Responded 200 "application/json" "" ∅ [reply] false 0).

(** With the masker on, and the word it looks for in the body. *)
Definition masking : Config :=
  mkConfig "" (LoopGuard.mkLoop 0 0) f0 (PreFlight.mkPolicy 0 false) (Some MaskingSpec.test_masker) false false false
    (PolicyPin.mkConfig false None false (PolicyPin.mkTrial f0 f0 0)).

Definition secret_request : bytes :=
  MaskingSpec.json "{'model':'m','messages':[{'role':'user','content':'key cafebabe.'}]}".
Definition safe_request : bytes :=
  MaskingSpec.json "{'model':'m','messages':[{'role':'user','content':'key REPLAY_SECRET_cafebabe00000000.'}]}".

Definition secret : exchange :=
  mkExchange "POST" "/v1/messages" "s1" "agent" "" "" "" "" "" true "127.0.0.1" "" (Some secret_request) "" None
    (Responded 200 "application/json" "" ∅ [reply] false 0) []
    key_order (fun _ => None) LedgerStore.Written LedgerStore.Written LedgerStore.Written LedgerStore.Written
    (0, Waste.no_rereads).

Definition serve (c : Config) : nat -> exchange -> Prog.prog (op (Va := MaskingSpec.vault_world)) outcome :=
  handle digest keyed expand resolve everywhere explain None "k" c.

Definition act (A : Type) (e : op A) (s : server) : server * A :=
  perform digest keyed logarithm line pin_text revert_text date because None "k" A e s.

Definition system_of (c : Config) : server -> Prog.system op outcome server -> Prop :=
  running digest keyed logarithm expand resolve everywhere line pin_text revert_text date explain because None "k" c.

(** A request served with nothing beside it: what it did, and how it ended. *)
Definition served (c : Config) (x : exchange) : list (event op) * outcome :=
  let '(_, tr, o) := exec act (serve c 1 x) cooled in (tr, o).

Lemma served_traces c x : traces may (serve c 1 x) (served c x).1 (served c x).2.
Proof.
  unfold served. destruct (exec act (serve c 1 x) cooled) as [[s tr] o] eqn:E. cbn.
  eapply exec_traces; [| exact E]. intros A e st st' a. apply perform_may.
Qed.

Lemma serve_arrives c s0 r x n p s :
  alone ready act n (serve c r x) s0 = Some (p, s) -> system_of c s0 (mkSystem s {[r := p]}).
Proof. apply arrives. by exists x. Qed.

End HandleScene.

(** What a request does to the state it shares, whatever the other requests in
    flight do in between. *)

#[local] Set Default Proof Using "Type".

Module HandleSpec.
Import Json Tenancy Ledger LedgerStore Summary Tap Rewrites Prog Handle.

#[local] Abbreviation length := List.length.

Section proxy.
Context (sha256hex : string -> string) (hmachex : string -> string -> string).
Context (log2 : float64 -> float64) (inflate : bytes -> bytes * bool).
Context (eval_symlinks : string -> option string) (scopes : Scope.Scopes).
Context (encode : Entry -> string) (encode_pin : Pin -> string) (encode_revert : Revert -> string).
Context (stamp : time -> string) (refusal_text : refusal -> string) (revert_reason : Z -> string).
Context (ov : option CacheRules.Rules) (key : string).
Context {Va : Type} `{PS : Masking.PlaceholderStore Va}.

#[local] Abbreviation op := (Handle.op (Va := Va)).
#[local] Abbreviation prog := (Prog.prog op outcome).
#[local] Abbreviation handle := (Handle.handle sha256hex hmachex inflate eval_symlinks scopes refusal_text ov key).
#[local] Abbreviation admitted := (Handle.admitted sha256hex hmachex inflate eval_symlinks scopes refusal_text ov key).
#[local] Abbreviation forward := (Handle.forward sha256hex inflate eval_symlinks scopes ov).
#[local] Abbreviation finish := (Handle.finish sha256hex inflate eval_symlinks scopes ov).
#[local] Abbreviation settle := (Handle.settle sha256hex inflate eval_symlinks scopes ov).
#[local] Abbreviation left := (Handle.left sha256hex inflate eval_symlinks scopes).
#[local] Abbreviation seen := (Handle.seen sha256hex eval_symlinks scopes).
#[local] Abbreviation refuseSession := (Handle.refuseSession refusal_text).

(** ** Stages under a monitor *)

Section monitor.
Context {G : Type} (ok : forall A, op A -> G -> Prop) (δ : forall A, op A -> A -> G -> G) (Q : G -> outcome -> Prop).

#[local] Abbreviation watched := (monitored may ok δ Q).

(** An operation the monitor lets pass and does not see. *)
Definition quiet {A} (e : op A) : Prop := (forall g, ok A e g) /\ forall a g, δ A e a g = g.

Lemma quiet_op {A} (e : op A) k g : quiet e -> (forall a, watched g (k a)) -> watched g (Do e k).
Proof. intros [H1 H2] Hk. split; [apply H1 |]. intros a _. rewrite H2. apply Hk. Qed.

Lemma refuseSession_watched x tenant session model k p g :
  (forall rec o, quiet (Append rec o)) -> quiet Now -> (forall k, quiet (CountRefused k)) ->
  watched g p -> watched g (refuseSession x tenant session model k p).
Proof.
  intros Ha Hn Hc Hp. apply quiet_op; [done |]. intros at_. apply quiet_op; [apply Ha |]. intros _.
  by apply quiet_op; [apply Hc |].
Qed.

(** The operations that prepare a request. *)
Inductive preparing : forall A, op A -> Prop :=
| p_now : preparing _ Now
| p_unparsed path : preparing _ (NoteUnparsed path)
| p_unmasked path : preparing _ (NoteUnmasked path)
| p_disclosed path : preparing _ (NoteDisclosed path)
| p_snapshot t s a : preparing _ (LaneSnapshot t s a)
| p_pinned t s : preparing _ (Pinned t s)
| p_get t s : preparing _ (GetPin t s)
| p_revert : preparing _ GetRevert
| p_set t p o : preparing _ (SetPin t p o)
| p_pin it t s d : preparing _ (PinSession it t s d).

(** The operations of the sibling gate. *)
Inductive gating : forall A, op A -> Prop :=
| g_enter p : gating _ (GateEnter p)
| g_await f : gating _ (GateAwait f)
| g_began it p : gating _ (GateBegan it p)
| g_finish p f : gating _ (GateFinish p f)
| g_close f : gating _ (GateClose f)
| g_now : gating _ Now.

(** What preparing a request makes of it: what is sent, from what the masker
    let through, and what the record will say. *)
Record prepared (c : Config) (x : exchange) (start : time) (received passed : bytes) (d : draft) (sent : bytes) : Prop := {
  pr_start : d_start d = start;
  pr_same : d_frozen d = false -> d_policy d = "" -> sent = passed;
  pr_off : NoPolicy c = true -> d_frozen d = false /\ d_policy d = "";
  pr_empty : readable (x_path x) = true -> passed = [] -> sent = [];
  pr_before : readable (x_path x) = true -> received <> [] -> d_before d = bodyHash sha256hex received;
  pr_after : readable (x_path x) = true -> sent <> [] -> d_after d = bodyHash sha256hex sent
}.

Lemma disclose_watched x p g : (forall A (e : op A), preparing A e -> quiet e) -> watched g p -> watched g (disclose x p).
Proof.
  intros Hq Hp. unfold disclose.
  assert (forall b (e : op bool) p, preparing _ e -> watched g p -> watched g (if b : bool then e ;; p else p)) as H.
  { intros [] e q He Hw; [| done]. apply quiet_op; [by apply Hq | done]. }
  apply H; [constructor |]. apply H; [constructor |]. by apply H; [constructor |].
Qed.

Lemma guard_watched c x tenant d refuse pass g :
  (forall A (e : op A), preparing A e -> quiet e) ->
  (forall it t s, quiet (CheckSpend it t s)) -> (forall t s, quiet (ErrorTokens t s)) ->
  (forall k, watched g (refuse k)) -> watched g pass -> watched g (guard c x tenant d refuse pass).
Proof.
  intros Hq Hc He Hr Hp. unfold guard. apply quiet_op; [apply Hc |]. intros over.
  destruct (bool_decide (is_Some over) && negb _); [apply Hr |].
  apply quiet_op; [apply He |]. intros errors.
  destruct (bool_decide (is_Some (LoopGuard.Budget_Check _ _ _)) && negb _); [apply Hr |].
  destruct (LoopGuard.v_Block _ && negb _); [apply Hr |]. destruct (String.eqb (PrefixHash _) ""); [done |].
  apply quiet_op; [apply Hq; constructor |]. intros prior. by destruct (PreFlight.preFlight _ _ _ _ _ _).
Qed.

(** What the policy hands on: the body as it was, or another and the name. *)
Lemma applyPolicy_watched c x tenant d body k g :
  (forall A (e : op A), preparing A e -> quiet e) ->
  (forall out applied, (applied = false -> out = body) -> (NoPolicy c = true -> applied = false) -> watched g (k out applied)) ->
  watched g (applyPolicy c x tenant d body k).
Proof.
  intros Hq Hk. unfold applyPolicy.
  destruct (String.eqb (d_session d) "" || negb (PolicyPin.policyConfigured (cfg_Policy c))) eqn:Hc; [by apply Hk |].
  apply orb_false_iff in Hc as [_ Hc]. apply negb_false_iff in Hc.
  assert (NoPolicy c = true -> False) as Hn.
  { unfold NoPolicy. intros Hn. unfold PolicyPin.policyConfigured in Hc. by rewrite Hn in Hc. }
  apply quiet_op; [apply Hq; constructor |]. intros now.
  assert (forall dec, watched g (let '(out, applied) := PolicyPin.act dec (asking x d now) (d_summarized d) body in k out applied)) as Ha.
  { intros dec. destruct (PolicyPin.act dec _ _ _) as [out applied] eqn:E. apply Hk; [| by intros ?%Hn].
    unfold PolicyPin.act in E. repeat case_match; simplify_eq; done. }
  apply quiet_op; [apply Hq; constructor |]. intros [dec|]; [apply Ha |].
  apply quiet_op; [apply Hq; constructor |]. intros [p|].
  { apply quiet_op; [apply Hq; constructor |]. intros _. apply Ha. }
  apply quiet_op; [apply Hq; constructor |]. intros reverted. destruct (PolicyPin.decide_now _ _ _ _) as [dec p].
  apply quiet_op; [apply Hq; constructor |]. intros _. apply quiet_op; [apply Hq; constructor |]. intros _. apply Ha.
Qed.

Lemma some_body_spec body : some_body body = true <-> body <> [].
Proof. unfold some_body. by destruct body. Qed.

Lemma freeze_prepared c x body out frozen epoch :
  Handle.freeze sha256hex c x body = (out, frozen, epoch) ->
  (frozen = false -> out = body) /\ (NoPolicy c = true -> frozen = false) /\ (out = [] <-> body = []).
Proof.
  unfold Handle.freeze. destruct (isMessages (x_path x) && some_body body && FreezePrefix c && negb (NoPolicy c)) eqn:Hc.
  - pose proof Hc as [_ Hn]%andb_true_iff. apply negb_true_iff in Hn.
    unfold freezeBillingHeader. destruct (find_version body) as [[i n]|]; [destruct (n <? _)%nat |];
      intros [= <- <- <-]; (split; [congruence | split; [congruence |]]); [done | | done].
    apply andb_true_iff in Hc as [[[_ Hb]%andb_true_iff _]%andb_true_iff _].
    split; [intros [_ H]%app_eq_nil; discriminate H | intros ->; discriminate Hb].
  - by intros [= <- <- <-].
Qed.

Lemma askUsage_watched c x body policy k g :
  (forall out policy', (policy' = "" -> policy = "" /\ out = body) -> (NoPolicy c = true -> policy' = policy) -> watched g (k out policy')) ->
  watched g (askUsage c x body policy k).
Proof.
  intros Hk. unfold askUsage. destruct (isChatCompletions (x_path x) && negb (NoPolicy c)) eqn:Hc; [| by apply Hk].
  apply andb_true_iff in Hc as [_ Hn]. apply negb_true_iff in Hn.
  destruct (withUsageReporting body) as [out []]; apply Hk; try done; congruence.
Qed.

(** [R] is what the ghost may be once the guards have passed a request with
    this session and summary, [K] what it may be where they refuse one. *)
Lemma prepare_watched (R : string -> RequestSummary -> G -> Prop) (K : G -> Prop) c mine x tenant start probe received body masked degraded g :
  (forall A (e : op A), preparing A e -> quiet e) ->
  (forall d refuse pass, (forall k g', K g' -> watched g' (refuse k)) ->
     (forall g', R (d_session d) (d_summary d) g' -> watched g' pass) -> watched g (guard c x tenant d refuse pass)) ->
  (forall d sent g', prepared c x start received body d sent ->
     (g' = g /\ (readable (x_path x) = false \/ body = []) \/ R (d_session d) (d_summary d) g') ->
     watched g' (forward c mine x tenant d probe sent)) ->
  (forall session model k g', K g' -> watched g' (refuseSession x tenant session model k (giveBack probe (Refused k)))) ->
  watched g (Handle.prepare sha256hex hmachex inflate eval_symlinks scopes refusal_text ov key c mine x tenant start probe
               (if readable (x_path x) && some_body received then bodyHash sha256hex received else "") body masked degraded).
Proof.
  intros Hq Hguard Hf Hr. unfold Handle.prepare. destruct (Handle.freeze sha256hex c x body) as [[out frozen] epoch] eqn:Ef.
  apply freeze_prepared in Ef as [Hsame [Hoff Hne]].
  assert (forall sent session sum summarized policy after,
    (readable (x_path x) = true -> body = [] -> sent = []) -> (frozen = false -> policy = "" -> sent = body) -> (NoPolicy c = true -> policy = "") ->
    (readable (x_path x) = true -> sent <> [] -> after = bodyHash sha256hex sent) ->
    prepared c x start received body (mkDraft start session sum summarized
      (if readable (x_path x) && some_body received then bodyHash sha256hex received else "") after masked degraded frozen
      epoch policy 0) sent) as Hp.
  { intros sent session sum summarized policy after H0 H1 H2 H3. split; cbn; auto.
    intros Hrd Hnn%some_body_spec. by rewrite Hrd, Hnn. }
  destruct (readable (x_path x) && some_body out) eqn:Hrb.
  - apply Hguard; [intros; by apply Hr |]. cbn [d_session d_summary]. intros g' HR.
    assert (forall policy sent k, (policy = "" -> sent = out) -> (NoPolicy c = true -> policy = "") ->
      (forall sent policy, (policy = "" -> sent = out) -> (NoPolicy c = true -> policy = "") -> watched g' (k sent policy)) ->
      watched g' (askUsage c x sent policy k)) as Ha.
    { intros policy sent k H1 H2 Hk. apply askUsage_watched. intros out' policy' H3 H4. apply Hk.
      - intros [-> ->]%H3. by apply H1.
      - intros Hn. rewrite H4 by done. by apply H2. }
    destruct (isMessages (x_path x)); [apply applyPolicy_watched; [done |]; intros out' applied H1 H2 |];
      (apply Ha; [try (by destruct applied; auto) | try (by intros Hn; rewrite H2) |]);
      try done; intros sent policy H3 H4; (apply Hf; [apply Hp; [| | done |] | by right]);
      solve [by intros _ E; apply Hne in E; subst out; rewrite andb_false_r in Hrb |
intros Hfr Hpo; rewrite H3 by done; by apply Hsame | by intros _ Hnn%some_body_spec; rewrite Hnn].
  - apply Hf.
    + apply Hp; [by intros _ E; apply Hne | auto | done |]. intros Hrd. rewrite Hrd in Hrb. cbn in Hrb. intros Hnn%some_body_spec. congruence.
    + left. split; [done |]. apply andb_false_iff in Hrb as [?|Hb]; [by left | right].
      apply Hne. unfold some_body in Hb. by destruct out.
Qed.

(** The operations of the bookkeeping that only this request's record and the
    figures shown see. *)
Inductive keeping : forall A, op A -> Prop :=
| k_now : keeping _ Now
| k_correlation mine : keeping _ (Correlation mine)
| k_nousage : keeping _ NoteNoUsage
| k_unparsed : keeping _ NoteUnparsedBody
| k_observe it t r : keeping _ (ObserveStats it t r)
| k_errors it t s a n : keeping _ (SetLaneErrors it t s a n)
| k_trial t s : keeping _ (TrialSession t s)
| k_breach st t s e g o : keeping _ (NoteBreach st t s e g o).

(** The bookkeeping without those: what it charges, the lane it leaves, what it
    writes. *)
Definition core (c : Config) (mine : nat) (x : exchange) (tenant : string) (d : draft) (probe : bool) (sent : bytes)
    (rec : Entry) : prog :=
  let leave (p : prog) : prog := LeaveLane mine tenant (d_session d) (x_agent x) ;; p in
  let ends := leave (giveBack (probe && negb (seen c x)) (Forwarded sent rec)) in
  let written := leave (if readable (x_path x) && negb (String.eqb (d_session d) "") then Append rec (x_append_write x) ;; ends else ends) in
  match (if readable (x_path x) then rec_Usage rec else None) with
  | Some u => let '(usd, bound) := listCost ov u (sum_Model (d_summary d)) in
              RecordSpend (x_it x) tenant (d_session d) (spent u) usd bound ;; written
  | None => written
  end.

Lemma core_watched c mine x tenant d probe sent rec g :
  (forall it t s n usd bound, quiet (RecordSpend it t s n usd bound)) -> (forall t s a, quiet (LeaveLane mine t s a)) ->
  (forall o, quiet (Append rec o)) -> watched g (giveBack (probe && negb (seen c x)) (Forwarded sent rec)) ->
  watched g (core c mine x tenant d probe sent rec).
Proof.
  intros Hs Hl Ha Hg. unfold core. set (p := giveBack _ _) in *.
  destruct (if readable (x_path x) then rec_Usage rec else None) as [u|];
    [destruct (listCost ov u _); apply quiet_op; [apply Hs |]; intros _ |];
    (apply quiet_op; [apply Hl |]; intros _; destruct (readable (x_path x) && _); [apply quiet_op; [apply Ha |]; intros _ |]; try done;
     by apply quiet_op).
Qed.

Hypothesis Hprepare : forall A (e : op A), preparing A e -> quiet e.
Hypothesis Hgate : forall A (e : op A), gating A e -> quiet e.
Hypothesis Hkeep : forall A (e : op A), keeping A e -> quiet e.

Lemma release_watched prefix led p g : watched g p -> watched g (Handle.release prefix led p).
Proof using Hgate.
  intros Hp. destruct led as [f|]; [| done]. cbn [Handle.release].
  do 2 (apply quiet_op; [apply Hgate; constructor |]; intros _). done.
Qed.

Lemma headers_seen_watched x prefix led status p g : watched g p -> watched g (headers_seen x prefix led status p).
Proof using Hgate.
  intros Hp. unfold headers_seen. destruct (status <? 300); [| by apply release_watched].
  apply quiet_op; [apply Hgate; constructor |]. intros [f|]; [| done].
  by apply quiet_op; [apply Hgate; constructor |].
Qed.

Lemma hold_watched prefix wakes k g : (forall led, watched g (k led)) -> watched g (hold prefix wakes k).
Proof using Hgate.
  intros Hk. induction wakes as [|w wakes IH]; cbn [hold]; (apply quiet_op; [apply Hgate; constructor |]); intros [| |? f ?|]; auto.
  destruct w; [| done]. by apply quiet_op; [apply Hgate; constructor |].
Qed.

Lemma rescore_watched c x tenant d p g : watched g p -> watched g (rescore c x tenant d p).
Proof using Hkeep.
  intros Hp. unfold rescore. apply quiet_op; [apply Hkeep; constructor |]. intros _.
  apply quiet_op; [apply Hkeep; constructor |]. intros [[edit generated]|]; [| done].
  destruct (PolicyPin.breached _ _); [| done]. by apply quiet_op; [apply Hkeep; constructor |].
Qed.

Lemma settle_watched c mine x tenant d led probe sent g :
  (forall correlation now cache, watched g (core c mine x tenant d probe sent (left c x d correlation now cache))) ->
  watched g (settle c mine x tenant d led probe sent).
Proof using Hgate Hkeep.
  unfold core, Handle.settle, account. intros H.
  apply quiet_op; [apply Hkeep; constructor |]. intros now. apply quiet_op; [apply Hkeep; constructor |]. intros correlation.
  specialize (H correlation now). set (rec := left c x d correlation now) in *.
  assert (forall g', (forall cache, watched g' (LeaveLane mine tenant (d_session d) (x_agent x) ;;
      (if readable (x_path x) && negb (String.eqb (d_session d) "")
       then Append (rec cache) (x_append_write x) ;; LeaveLane mine tenant (d_session d) (x_agent x) ;;
            giveBack (probe && negb (seen c x)) (Forwarded sent (rec cache))
       else LeaveLane mine tenant (d_session d) (x_agent x) ;; giveBack (probe && negb (seen c x)) (Forwarded sent (rec cache))))) ->
    watched g' (cache <~ ObserveStats (x_it x) tenant (rec None);
      LeaveLane mine tenant (d_session d) (x_agent x) ;;
      (if readable (x_path x) && negb (String.eqb (d_session d) "")
       then Append (rec cache) (x_append_write x) ;;
         (if bool_decide (is_Some (rec_Usage (rec cache)))
          then rescore c x tenant d (unwind mine x tenant d led (probe && negb (seen c x)) (Forwarded sent (rec cache)))
          else unwind mine x tenant d led (probe && negb (seen c x)) (Forwarded sent (rec cache)))
       else unwind mine x tenant d led (probe && negb (seen c x)) (Forwarded sent (rec cache))))) as Hend.
  { clear H. intros g' H. apply quiet_op; [apply Hkeep; constructor |]. intros cache. specialize (H cache).
    destruct H as [Hok H]. split; [done |]. intros [] Ha. specialize (H tt Ha).
    destruct (readable (x_path x) && negb (String.eqb (d_session d) "")); [| by apply release_watched].
    destruct H as [Hok' H]. split; [done |]. intros b Hb. specialize (H b Hb).
    case_bool_decide; [apply rescore_watched |]; by apply release_watched. }
  assert (forall cache, rec_Response (rec cache) = rec_Response (rec None)) as Hr by done.
  destruct (readable (x_path x)) eqn:Hrd; cbn [negb] in *; [| by apply Hend].
  unfold rec_Usage in H. destruct (resp_Usage (rec_Response (rec None))) as [u|] eqn:Hu.
  - assert (forall cache, watched g (let '(usd, bound) := listCost ov u (sum_Model (d_summary d)) in
        RecordSpend (x_it x) tenant (d_session d) (spent u) usd bound ;; _)) as H' by
      (intros cache; specialize (H cache); rewrite Hr, Hu in H; exact H).
    destruct (listCost ov u _) as [usd bound]. split; [apply (H' None) |]. intros [] Ha. apply Hend. intros cache.
    by apply (H' cache).
  - assert (forall p, watched g p -> watched g (if (200 <=? Status (rec None)) && (Status (rec None) <? 300)
      then (if Unparsed (rec_Response (rec None)) then NoteUnparsedBody ;; p else NoteNoUsage ;; p) else p)) as Hn.
    { intros p Hp. destruct ((200 <=? _) && _); [| done].
      destruct (Unparsed _); by apply quiet_op; [apply Hkeep; constructor |]. }
    apply Hn, Hend. intros cache. specialize (H cache). by rewrite Hr, Hu in H.
Qed.

(** The ghost once the breaker was told, if it was. *)
Definition told (c : Config) (x : exchange) (g : G) : G :=
  let a := a_tap (answer_of sha256hex eval_symlinks scopes c x) in
  if seen c x then δ _ (Observe (upstreamFailed a || Breaker.IsRetryableStatus (t_status a))) tt g else g.

Hypothesis Hobserve : forall b g, ok _ (Observe b) g.

Lemma finish_watched c mine x tenant d led probe sent g :
  (forall correlation now cache, watched (told c x g) (core c mine x tenant d probe sent (left c x d correlation now cache))) ->
  watched g (finish c mine x tenant d led probe sent).
Proof using Hgate Hkeep Hobserve.
  unfold told, Handle.finish. intros H. destruct (seen c x); [| by apply settle_watched].
  split; [apply Hobserve |]. intros [] _. by apply settle_watched.
Qed.

Lemma forward_watched c mine x tenant d probe sent g :
  let entered := EnterLane (x_it x) mine tenant (d_session d) (x_agent x) in
  ok _ entered g ->
  (forall waited correlation now cache,
     watched (told c x (δ _ entered tt g)) (core c mine x tenant d probe sent (left c x (with_held d waited) correlation now cache))) ->
  watched g (forward c mine x tenant d probe sent).
Proof using Hgate Hkeep Hobserve.
  intros entered Hok H. unfold Handle.forward. split; [done |]. intros [] _. fold entered.
  assert (forall waited led, watched (δ _ entered tt g) (finish c mine x tenant (with_held d waited) led probe sent)) as Hf.
  { intros waited led. apply finish_watched. apply H. }
  destruct (readable (x_path x) && d_summarized d).
  2: { replace d with (with_held d (d_held d)) by by destruct d. apply Hf. }
  assert (forall led waited, watched (δ _ entered tt g)
    (if t_status (a_tap (answer_of sha256hex eval_symlinks scopes c x)) =? 0
     then finish c mine x tenant (with_held d waited) led probe sent
     else headers_seen x (PrefixHash (d_summary d)) led (t_status (a_tap (answer_of sha256hex eval_symlinks scopes c x)))
            (finish c mine x tenant (with_held d waited) led probe sent))) as Hb.
  { intros led waited. case_match; [apply Hf |]. by apply headers_seen_watched. }
  destruct (Holding c && _); [| apply Hb].
  apply quiet_op; [apply Hgate; constructor |]. intros begun. apply hold_watched. intros led.
  apply quiet_op; [apply Hgate; constructor |]. intros over. apply Hb.
Qed.

(** The masker's turn: the body it lets through, and what it may have told the
    ghost. *)
Lemma mask_watched c x body k g :
  (forall report degraded, (cfg_Masker c = None \/ maskable (x_path x) && some_body body && negb (NoPolicy c) = false) ->
     watched g (k body report degraded)) ->
  (forall m, cfg_Masker c = Some m -> maskable (x_path x) && some_body body && negb (NoPolicy c) = true ->
     ok _ (MaskBody m body) g /\
     forall r, watched (δ _ (MaskBody m body) r g)
       (match r with
        | Masking.Unread body => k body ∅ true
        | Masking.Masked body report err => k body report (match err with Some _ => true | None => false end)
        end)) ->
  watched g (Handle.mask c x body k).
Proof.
  intros Hoff Hon. unfold Handle.mask. destruct (cfg_Masker c) as [m|] eqn:Hm; [| apply Hoff; by left].
  destruct (maskable (x_path x) && some_body body && negb (NoPolicy c)) eqn:Hc; [| apply Hoff; by right].
  destruct (Hon m eq_refl eq_refl) as [Hok Hk]. split; [done |]. intros r _. apply Hk.
Qed.

Lemma handle_watched c mine x g :
  (forall status, Q g (Answered status)) ->
  (forall tenant session, watched g (refuseSession x tenant session "" TenantUnresolved (Done (Refused TenantUnresolved)))) ->
  ok _ Allow g ->
  (forall p, Breaker.ok p = false -> Breaker.probe p = false -> forall tenant session,
     watched (δ _ Allow p g) (refuseSession x tenant session "" CircuitOpen (Done (Refused CircuitOpen)))) ->
  (forall p, Breaker.ok p = true -> forall status, watched (δ _ Allow p g) (giveBack (Breaker.probe p) (Answered status))) ->
  (forall p, Breaker.ok p = true -> forall tenant start body, ResolveTenant (x_tenant x) = (tenant, None) -> x_body x = Some body ->
     watched (δ _ Allow p g) (admitted c mine x tenant start (Breaker.probe p) body)) ->
  watched g (handle c mine x).
Proof using Hprepare.
  intros Hans Hten Hok Hopen Hback Hin. unfold Handle.handle.
  destruct (HostGuard.notLocal _ _ _ _); [apply Hans |]. destruct (negb _ && negb _); [apply Hans |].
  apply quiet_op; [apply Hprepare; constructor |]. intros start. apply disclose_watched; [done |].
  destruct (ResolveTenant (x_tenant x)) as [tenant [e|]] eqn:Ht; [apply Hten |].
  split; [done |]. intros p Hp. destruct (Breaker.ok p) eqn:Ho; cbn [negb].
  - destruct (x_body x) as [body|] eqn:Hb; [| by apply Hback]. destruct (MaxRequestBytes <? _); [by apply Hback |]. by apply Hin.
  - apply Hopen; [done |]. destruct (Breaker.probe p) eqn:Hpr; [| done]. cbn in Hp. rewrite Hpr in Hp. by rewrite Hp in Ho.
Qed.

End monitor.

End proxy.

#[global] Arguments prepare_watched {_ _ _ _ _ _ _ _ _ _ _ _ _ _ R K}.

End HandleSpec.
