(* ===== verification/HandleProbe.v ===== *)
(** The half-open probe of the breaker, among all the requests in flight. *)

From S2P Require Import Prelude GoString GoFloat GoTime Json Wire Transcript Tenancy Guards Breaker CacheRules CachePrices.
From S2P Require Import CacheVerdict Masking MaskingSpec Vault Scope Rehydrate Stream Siblings Ledger LedgerStore Policy PrefixDelta.
From S2P Require Import Stats Waste PolicyPin Summary MessageReader ChatReader ResponsesReader Tap HostGuard Rewrites.
From S2P Require Import Prog Handle HandleScene.
From Stdlib Require Import Ascii String.

Open Scope string_scope.
Open Scope list_scope.
Open Scope Z_scope.

#[local] Set Default Proof Using "Type".

Module HandleProbe.
Import Json Tenancy Ledger LedgerStore Summary Tap Rewrites Prog Handle HandleSpec.

Section proxy.
Context (sha256hex : string -> string) (hmachex : string -> string -> string).
Context (log2 : float64 -> float64) (inflate : bytes -> bytes * bool).
Context (eval_symlinks : string -> option string) (scopes : Scope.Scopes).
Context (encode : Entry -> string) (encode_pin : Pin -> string) (encode_revert : Revert -> string).
Context (stamp : time -> string) (refusal_text : refusal -> string) (revert_reason : Z -> string).
Context (ov : option CacheRules.Rules) (key : string).
Context {Va : Type} `{PS : Masking.PlaceholderStore Va}.

#[local] Abbreviation op := (Handle.op (Va := Va)).
#[local] Abbreviation prog := (Prog.prog op outcome).
#[local] Abbreviation server := (Handle.server (Va := Va)).
#[local] Abbreviation handle := (Handle.handle sha256hex hmachex inflate eval_symlinks scopes refusal_text ov key).

(** Whether a request holds the half-open probe. *)
Definition holds (A : Type) (e : op A) : A -> bool -> bool :=
  match e with
  | Allow => fun p g => g || Breaker.probe p
  | Release | Observe _ => fun _ _ => false
  | _ => fun _ g => g
  end.

Definition any (A : Type) (e : op A) (g : bool) : Prop := True.
Definition let_go (g : bool) (o : outcome) : Prop := g = false.

#[local] Abbreviation watched := (monitored may any holds let_go).

Lemma giveBack_lets_go probe o : watched probe (giveBack probe o).
Proof. by destruct probe. Qed.

Lemma refuseSession_lets_go x tenant session model k p g :
  watched g p -> watched g (refuseSession refusal_text x tenant session model k p).
Proof. by apply refuseSession_watched. Qed.

Lemma core_lets_go c mine x tenant d probe sent rec :
  watched (told sha256hex eval_symlinks scopes holds c x probe)
    (core sha256hex eval_symlinks scopes ov c mine x tenant d probe sent rec).
Proof.
  apply core_watched; try done. unfold told.
  destruct (seen _ _ _ c x); [by rewrite andb_false_r | rewrite andb_true_r; apply giveBack_lets_go].
Qed.

Lemma handle_lets_go c mine x : watched false (handle c mine x).
Proof.
  apply handle_watched.
  - intros A e []; by split.
  - done.
  - intros. by apply refuseSession_lets_go.
  - done.
  - intros p _ Hp tenant session. apply refuseSession_lets_go. cbn. by rewrite Hp.
  - intros p _ status. apply giveBack_lets_go.
  - intros p _ tenant start body _ _. cbn [holds orb]. generalize (Breaker.probe p). clear p. intros probe.
    unfold admitted.
    assert (forall body' masked degraded, watched probe (prepare sha256hex hmachex inflate eval_symlinks scopes refusal_text ov key
      c mine x tenant start probe (if readable (x_path x) && some_body body then bodyHash sha256hex body else "") body' masked degraded)) as Hp.
    { intros body' masked degraded. apply (prepare_watched (R := fun _ _ g => g = probe) (K := eq probe)).
      - intros A e []; by split.
      - intros d refuse pass Hr Hpass. apply guard_watched; [intros A e []; by split | done | done | |]; auto.
      - intros d sent g' _ Hg. assert (g' = probe) as -> by (destruct Hg as [[? _]|]; congruence).
        apply forward_watched; try done; [intros A e []; by split | intros A e []; by split |].
        intros. apply core_lets_go.
      - intros session model k g' <-. apply refuseSession_lets_go, giveBack_lets_go. }
    apply mask_watched; [intros; apply Hp |]. intros m _ _. split; [done |]. intros []; apply Hp.
Qed.

(** ** In the system *)

#[local] Abbreviation perform := (Handle.perform sha256hex hmachex log2 encode encode_pin encode_revert stamp revert_reason ov key).
#[local] Abbreviation running := (Handle.running sha256hex hmachex log2 inflate eval_symlinks scopes encode encode_pin encode_revert
  stamp refusal_text revert_reason ov key).

(** The breaker's flag is some request's. *)
Definition accounted (b : Breaker.t) (gs : gmap nat bool) : Prop :=
  (Breaker.Enabled b = false -> Breaker.probing b = false) /\
  (Breaker.probing b = true -> exists r, gs !! r = Some true).

Lemma accounted_free b gs : Breaker.probing b = false -> accounted b gs.
Proof. intros E. split; congruence. Qed.

Lemma accounted_allow b b' p now gs r g :
  gs !! r = Some g -> accounted b gs -> Breaker.Allow now b = (b', p) -> accounted b' (<[r := g || Breaker.probe p]> gs).
Proof.
  intros Hr Hb. assert (accounted b (<[r := g || false]> gs)) as H by by rewrite orb_false_r, insert_id.
  unfold Breaker.Allow. destruct (Breaker.Enabled b) eqn:E1; cbn [negb]; [| by intros [= <- <-]].
  destruct (IsZero _); [by intros [= <- <-] |]. destruct (_ <? _); [by intros [= <- <-] |].
  destruct (Breaker.probing b) eqn:E2; intros [= <- <-]; [done |].
  split; [unfold Breaker.Enabled in *; cbn; congruence |]. intros _. exists r. by rewrite orb_true_r, lookup_insert_eq.
Qed.

Lemma release_free b : (Breaker.Enabled b = false -> Breaker.probing b = false) -> Breaker.probing (Breaker.Release b) = false.
Proof. unfold Breaker.Release. destruct (Breaker.Enabled b); cbn; auto. Qed.

Lemma observe_free now b retryable :
  (Breaker.Enabled b = false -> Breaker.probing b = false) -> Breaker.probing (Breaker.Observe now retryable b) = false.
Proof. unfold Breaker.Observe. destruct (Breaker.Enabled b), retryable; cbn; auto. Qed.

Definition about_breaker {A} (e : op A) : bool := match e with Allow | Release | Observe _ => true | _ => false end.

Lemma perform_breaker A (e : op A) s : about_breaker e = false -> breaker (perform A e s).1 = breaker s.
Proof. destruct e; cbn; try done; intros _; repeat case_match; done. Qed.

Lemma holds_not A (e : op A) a g : about_breaker e = false -> holds A e a g = g.
Proof. by destruct e. Qed.

Lemma accounted_do s gs r g A (e : op A) s' a :
  gs !! r = Some g -> accounted (breaker s) gs -> perform A e s = (s', a) ->
  accounted (breaker s') (<[r := holds A e a g]> gs).
Proof.
  intros Hr Hb He. destruct (about_breaker e) eqn:Ha.
  - destruct e; try done; cbn in He; [| simplify_eq/=; apply accounted_free ..].
    + destruct (Breaker.Allow _ _) as [b' p] eqn:E. simplify_eq/=. by eapply accounted_allow.
    + by apply release_free, Hb.
    + by apply observe_free, Hb.
  - rewrite holds_not, insert_id by done.
    replace (breaker s') with (breaker s); [done |]. by rewrite <- (perform_breaker A e s Ha), He.
Qed.

Lemma probe_laws c : invariant_laws may perform (starts sha256hex hmachex inflate eval_symlinks scopes refusal_text ov key c)
  tick any holds let_go (fun _ => false) (fun s => accounted (breaker s)).
Proof.
  split.
  - intros A e st st' a. apply perform_may.
  - intros r p [x ->]. apply handle_lets_go.
  - intros st gs r Hr [Hen Hpr]. split; [done |]. intros [r' Hr']%Hpr. exists r'. by rewrite lookup_insert_ne by congruence.
  - intros. by eapply accounted_do.
  - intros st gs r g o Hr Hg [Hen Hpr]. split; [done |]. intros [r' Hr']%Hpr. exists r'.
    unfold let_go in Hg. rewrite lookup_delete_ne by congruence. done.
  - by intros st st' gs (t & _ & ->).
Qed.

(** An operation that gives the probe back. *)
Definition gives_back (ev : event op) : Prop :=
  match ev with @Ev _ A e _ => match e with Release | Observe _ => True | _ => False end end.

Lemma lets_go_gives_back tr : fold_left (watch holds) tr true = false -> Exists gives_back tr.
Proof.
  induction tr as [|[A e a] tr IH]; cbn [fold_left watch]; [done |]. intros H.
  destruct e; cbn [holds orb] in H; try (by constructor 1); by constructor 2; apply IH.
Qed.

(** C9: the half-open slot is never lost.  However the requests in flight
    interleave, while the breaker is probing some request in flight holds the
    probe: it has an end to come to, and whatever the answers it gets on the
    way it gives the slot back before that end, by an outcome or by [Release]. *)
Theorem a_probe_in_flight_comes_back c s0 s :
  Breaker.probing (breaker s0) = false -> running c s0 s -> Breaker.probing (breaker (shared s)) = true ->
  exists r p, pool s !! r = Some p /\ (exists tr o, traces may p tr o) /\
    forall tr o, traces may p tr o -> Exists gives_back tr.
Proof.
  intros H0 Hrun Hpr.
  destruct (reachable_invariant (probe_laws c) (accounted_free _ ∅ H0) Hrun) as (gs & [_ HI] & Hp).
  destruct (HI Hpr) as [r Hr]. specialize (Hp r). rewrite Hr in Hp. inversion Hp as [? p Hm E1 E2|]; subst.
  exists r, p. split; [done |]. split; [apply may_end |]. intros tr o Ht.
  apply lets_go_gives_back. exact (monitored_traces Hm Ht).
Qed.

End proxy.

(** ** On the scene *)

(** The first request after the cool-down is the probe. *)
Definition probing_scene : option (Prog.prog (op (Va := MaskingSpec.vault_world)) outcome * server) :=
  alone ready HandleScene.act 2 (HandleScene.serve HandleScene.config 1 HandleScene.plain) HandleScene.cooled.

Lemma a_probe_in_flight_comes_back_witness :
  exists p s, probing_scene = Some (p, s) /\ Breaker.probing (breaker s) = true /\
    forall tr o, traces may p tr o -> Exists gives_back tr.
Proof.
  assert (option_map (fun ps => Breaker.probing (breaker ps.2)) probing_scene = Some true) as Hs by (vm_compute; reflexivity).
  destruct probing_scene as [[p s]|] eqn:E; [| discriminate Hs]. cbn [option_map snd] in Hs.
  assert (Breaker.probing (breaker s) = true) as Hpr by congruence.
  exists p, s. split; [reflexivity |].
  split; [exact Hpr |].
  destruct (a_probe_in_flight_comes_back HandleScene.digest HandleScene.keyed HandleScene.logarithm HandleScene.expand
    HandleScene.resolve HandleScene.everywhere HandleScene.line HandleScene.pin_text HandleScene.revert_text HandleScene.date
    HandleScene.explain HandleScene.because None "k" HandleScene.config HandleScene.cooled (mkSystem s {[1%nat := p]})
    eq_refl (HandleScene.serve_arrives _ _ _ _ _ _ _ E) Hpr) as (r & p' & Hp & _ & H).
  cbn [pool] in Hp. apply lookup_singleton_Some in Hp as [_ <-]. exact H.
Defined.

(** A request let through before the circuit opened, and failing while the probe
    is out, frees the slot: one cool-down later a second probe is let through
    beside the first. *)
Lemma a_straggler_frees_the_slot :
  let open_ := Breaker.mkBreaker (Breaker.mkSettings 3 60) 3 100 false in
  let '(b1, first) := Breaker.Allow 200 open_ in
  let '(b2, second) := Breaker.Allow 300 (Breaker.Observe 210 true b1) in
  Breaker.probe first = true /\ Breaker.probe second = true.
Proof. by split. Qed.

End HandleProbe.
