(* ===== verification/HandleEffects.v ===== *)
(** What one request leaves behind: what the breaker is told, what is charged
    and what is written, the bytes sent, and the guards it passed. *)

From S2P Require Import Prelude GoString GoFloat GoTime Json Wire Transcript Tenancy Guards Breaker CacheRules CachePrices.
From S2P Require Import CacheVerdict Masking MaskingSpec Vault Scope Rehydrate Stream Siblings Ledger LedgerStore Policy PrefixDelta.
From S2P Require Import Stats Waste PolicyPin Summary MessageReader ChatReader ResponsesReader Tap HostGuard Rewrites.
From S2P Require Import Prog Handle HandleScene.
From Stdlib Require Import Ascii String.

Open Scope string_scope.
Open Scope list_scope.
Open Scope Z_scope.

#[local] Set Default Proof Using "Type".

Module HandleEffects.
Import Json Tenancy Ledger LedgerStore Summary Tap Rewrites Prog Handle HandleSpec.

Section proxy.
Context (sha256hex : string -> string) (hmachex : string -> string -> string).
Context (inflate : bytes -> bytes * bool).
Context (eval_symlinks : string -> option string) (scopes : Scope.Scopes).
Context (refusal_text : refusal -> string).
Context (ov : option CacheRules.Rules) (key : string).
Context {Va : Type} `{PS : Masking.PlaceholderStore Va}.

#[local] Abbreviation op := (Handle.op (Va := Va)).
#[local] Abbreviation prog := (Prog.prog op outcome).
#[local] Abbreviation handle := (Handle.handle sha256hex hmachex inflate eval_symlinks scopes refusal_text ov key).
#[local] Abbreviation seen := (Handle.seen sha256hex eval_symlinks scopes).
#[local] Abbreviation answer_of := (Handle.answer_of sha256hex eval_symlinks scopes).
#[local] Abbreviation core := (HandleSpec.core sha256hex eval_symlinks scopes ov).
#[local] Abbreviation prepare := (Handle.prepare sha256hex hmachex inflate eval_symlinks scopes refusal_text ov key).
#[local] Abbreviation prepared := (HandleSpec.prepared sha256hex).

(** ** The effects that outlast the request *)

Inductive effect :=
| Told (failed : bool)
| Charged (tenant session : string) (n : Z) (usd : float64) (bound : bool)
| Wrote (rec : Entry)
| Counted (k : refusal).

Definition effect_of {A} (e : op A) : list effect :=
  match e with
  | Observe b => [Told b]
  | RecordSpend _ tenant session n usd bound => [Charged tenant session n usd bound]
  | Append rec _ => [Wrote rec]
  | CountRefused k => [Counted k]
  | _ => []
  end.

Definition effects (tr : list (event op)) : list effect :=
  List.concat (List.map (fun ev => match ev with Ev e _ => effect_of e end) tr).

Definition adds (A : Type) (e : op A) (a : A) (g : list effect) : list effect := g ++ effect_of e.
Definition any {G} (A : Type) (e : op A) (g : G) : Prop := True.

Lemma watch_adds tr : forall g, fold_left (watch adds) tr g = g ++ effects tr.
Proof.
  induction tr as [|[A e a] tr IH]; intros g; cbn [fold_left watch]; [by rewrite app_nil_r |].
  rewrite IH. unfold adds, effects. cbn [List.map List.concat]. by rewrite app_assoc.
Qed.

(** What a forwarded request owes its tenant and the ledger, by its record. *)
Definition told_of (c : Config) (x : exchange) : list effect :=
  let t := a_tap (answer_of c x) in
  if seen c x then [Told (upstreamFailed t || Breaker.IsRetryableStatus (t_status t))] else [].

Definition charge_of (x : exchange) (tenant : string) (rec : Entry) : list effect :=
  match (if readable (x_path x) then rec_Usage rec else None) with
  | Some u => let '(usd, bound) := listCost ov u (sum_Model (Summary rec)) in
              [Charged tenant (SessionID rec) (spent u) usd bound]
  | None => []
  end.

Definition written_of (x : exchange) (rec : Entry) : list effect :=
  if readable (x_path x) && negb (String.eqb (SessionID rec) "") then [Wrote rec] else [].

(** What each outcome leaves. *)
Definition settled (c : Config) (x : exchange) (g : list effect) (o : outcome) : Prop :=
  match o with
  | Answered _ => g = []
  | Refused k => exists at_ tenant session model, g = [Wrote (refusal_record refusal_text at_ tenant session model k); Counted k]
  | Forwarded _ rec => exists tenant, ResolveTenant (x_tenant x) = (tenant, None) /\
      g = told_of c x ++ charge_of x tenant rec ++ written_of x rec
  end.

#[local] Abbreviation watched c x := (monitored may any adds (settled c x)).

Lemma adds_quiet {A} (e : op A) : effect_of e = [] -> quiet any adds e.
Proof. intros E. split; [done |]. intros a g. unfold adds. by rewrite E, app_nil_r. Qed.

Lemma giveBack_settled c x probe g o : settled c x g o -> watched c x g (giveBack probe o).
Proof. destruct probe; [| done]. intros H. split; [done |]. intros ? _. unfold adds. cbn. by rewrite app_nil_r. Qed.

Lemma refuse_settled c x tenant session model k p :
  (forall g, settled c x g (Refused k) -> watched c x g p) -> watched c x [] (refuseSession refusal_text x tenant session model k p).
Proof.
  intros Hp. split; [done |]. intros at_ ?. split; [done |]. intros b ?. split; [done |]. intros ? _. apply Hp.
  by exists at_, tenant, session, model.
Qed.

Lemma core_settled c mine x tenant d probe sent rec g :
  ResolveTenant (x_tenant x) = (tenant, None) -> g = told_of c x -> Summary rec = d_summary d -> SessionID rec = d_session d ->
  watched c x g (core c mine x tenant d probe sent rec).
Proof.
  intros Ht -> Hs Hi.
  assert (forall g, g ++ written_of x rec = told_of c x ++ charge_of x tenant rec ++ written_of x rec ->
    watched c x g (LeaveLane mine tenant (d_session d) (x_agent x) ;;
      (if readable (x_path x) && negb (String.eqb (d_session d) "")
       then Append rec (x_append_write x) ;; LeaveLane mine tenant (d_session d) (x_agent x) ;;
            giveBack (probe && negb (seen c x)) (Forwarded sent rec)
       else LeaveLane mine tenant (d_session d) (x_agent x) ;; giveBack (probe && negb (seen c x)) (Forwarded sent rec)))) as Hend.
  { intros g Hg. apply quiet_op; [by apply adds_quiet |]. intros _. unfold written_of in Hg. rewrite Hi in Hg.
    destruct (readable (x_path x) && negb _) eqn:E.
    - split; [done |]. intros b _. apply quiet_op; [by apply adds_quiet |]. intros _. apply giveBack_settled. exists tenant.
      split; [done |]. unfold written_of. rewrite Hi, E. exact Hg.
    - apply quiet_op; [by apply adds_quiet |]. intros _. apply giveBack_settled. exists tenant.
      split; [done |]. unfold written_of. rewrite Hi, E. rewrite app_nil_r in Hg. exact Hg. }
  unfold HandleSpec.core, charge_of in *. rewrite Hs, Hi in Hend.
  destruct (if readable (x_path x) then rec_Usage rec else None) as [u|]; [| by apply Hend].
  destruct (listCost ov u _) as [usd bound]. split; [done |]. intros ? _. apply Hend. unfold adds. cbn. by rewrite <- app_assoc.
Qed.

Lemma handle_settled c mine x : watched c x [] (handle c mine x).
Proof.
  assert (forall A (e : op A), preparing A e -> quiet any adds e) as Hprep by (intros A e []; by apply adds_quiet).
  apply handle_watched.
  - exact Hprep.
  - done.
  - intros. by apply refuse_settled.
  - done.
  - intros. by apply refuse_settled.
  - intros p _ status. by apply giveBack_settled.
  - intros p _ tenant start body Ht _. cbn [adds effect_of]. unfold adds. cbn [effect_of app]. generalize (Breaker.probe p). clear p. intros probe.
    unfold admitted. apply mask_watched; [intros report degraded _ | intros m _ _; split; [done |]; intros []];
    unfold adds; cbn [effect_of app]; apply (prepare_watched (R := fun _ _ g => g = []) (K := eq []));
    solve [ exact Hprep
          | intros d refuse pass Hr Hpass; apply guard_watched; auto; intros; by apply adds_quiet
          | intros session model k g' <-; apply refuse_settled; intros; by apply giveBack_settled
          | intros d sent g' _ Hg; assert (g' = []) as -> by (destruct Hg as [[? _]|]; congruence);
            apply forward_watched; [intros A e []; by apply adds_quiet | intros A e []; by apply adds_quiet | done | done |];
            intros; apply core_settled; try done; unfold told, told_of; by destruct (seen c x) ].
Qed.

(** C8: what a request leaves behind, whatever the requests beside it did to
    the answers it got.  Answered at the door, nothing; refused, one record of
    the refusal and one count, and the breaker is not told; forwarded, the
    breaker is told once when there was an outcome to tell, the tenant is
    charged once and only when the response said what it cost, at the listed
    price of the model asked for, and the record is written once and only for a
    session. *)
Theorem what_a_request_leaves_behind c r x tr o : traces may (handle c r x) tr o -> settled c x (effects tr) o.
Proof. intros Ht. generalize (monitored_traces (handle_settled c r x) Ht). by rewrite watch_adds. Qed.

(** ** The bytes sent *)

(** What the masker let through, when it was asked. *)
Definition lets_through (A : Type) (e : op A) : A -> option bytes -> option bytes :=
  match e with
  | MaskBody _ _ => fun r _ => Some (match r with Masking.Unread b => b | Masking.Masked b _ _ => b end)
  | _ => fun _ g => g
  end.

Definition asks_masker (c : Config) (x : exchange) (received : bytes) : bool :=
  bool_decide (is_Some (cfg_Masker c)) && maskable (x_path x) && some_body received && negb (NoPolicy c).

(** A record against the body received and what the masker made of it. *)
Definition sends (c : Config) (x : exchange) (g : option bytes) (o : outcome) : Prop :=
  match o with
  | Forwarded sent rec =>
      exists received, x_body x = Some received /\
      bool_decide (is_Some g) = asks_masker c x received /\
      (Frozen rec = false -> rec_Policy rec = "" -> sent = default received g) /\
      (NoPolicy c = true -> sent = received /\ Frozen rec = false /\ rec_Policy rec = "") /\
      (readable (x_path x) = true -> received <> [] -> BodyHashBefore rec = bodyHash sha256hex received) /\
      (readable (x_path x) = true -> sent <> [] -> BodyHashAfter rec = bodyHash sha256hex sent)
  | _ => True
  end.

Lemma giveBack_sends c x probe g o : sends c x g o -> monitored may any lets_through (sends c x) g (giveBack probe o).
Proof. by destruct probe. Qed.

Lemma refuse_sends c x tenant session model k probe g :
  monitored may any lets_through (sends c x) g (refuseSession refusal_text x tenant session model k (giveBack probe (Refused k))).
Proof. apply refuseSession_watched; try done. by apply giveBack_sends. Qed.

Lemma prepare_sends c mine x tenant start probe received body masked degraded g :
  x_body x = Some received -> bool_decide (is_Some g) = asks_masker c x received -> body = default received g ->
  monitored may any lets_through (sends c x) g
    (prepare c mine x tenant start probe (if readable (x_path x) && some_body received then bodyHash sha256hex received else "")
       body masked degraded).
Proof.
  intros Hb Hg ->. apply (prepare_watched (R := fun _ _ g' => g' = g) (K := fun _ => True)).
  - intros A e []; by split.
  - intros d refuse pass Hr Hpass. apply guard_watched; [intros A e []; by split | done | done | |]; auto.
  - intros d sent g' Hp Hg'. assert (g' = g) as -> by (destruct Hg' as [[? _]|]; congruence).
    apply forward_watched; [intros A e []; by split | intros A e []; by split | done | done |].
    intros waited correlation now cache. replace (told _ _ _ _ _ _ _) with g by (unfold told; by destruct (seen c x)).
    apply core_watched; try done. apply giveBack_sends. exists received. destruct Hp as [_ Hsame Hoff _ Hbef Haft].
    repeat split; auto; try by apply Hoff. cbn. destruct (Hoff ltac:(eassumption)) as [H1 H2]. rewrite (Hsame H1 H2).
    destruct g as [b|]; [| done]. exfalso. assert (asks_masker c x received = true) as Ha by by rewrite <- Hg.
    unfold asks_masker in Ha. apply andb_true_iff in Ha as [_ Ha]. apply negb_true_iff in Ha. congruence.
  - intros. apply refuse_sends.
Qed.

Lemma handle_sends c mine x : monitored may any lets_through (sends c x) None (handle c mine x).
Proof.
  apply handle_watched; try done.
  - intros A e []; by split.
  - intros p _ status. by apply giveBack_sends.
  - intros p _ tenant start body _ Hb. cbn [lets_through]. unfold admitted. apply mask_watched.
    + intros report degraded Hoff. apply prepare_sends; [done | | done]. unfold asks_masker.
      destruct Hoff as [-> | Hoff]; [done |]. rewrite <- !andb_assoc in *. by rewrite Hoff, andb_false_r.
    + intros m Hm Hc. split; [done |]. intros r.
      assert (asks_masker c x body = true) as Ha.
      { unfold asks_masker. rewrite Hm. rewrite <- !andb_assoc in *. by rewrite Hc. }
      destruct r; apply prepare_sends; try done; cbn; by rewrite Ha.
Qed.

(** C10: only the masker, the freeze and the policy change the bytes of a
    request, and the record says so: neither frozen nor under a policy, what was
    sent is what the masker let through, or what was received when it was not
    asked; it is asked exactly for a body it can read when masking is on; with
    rewriting off nothing changes; and the record holds the hashes of the body
    received and of the body sent. *)
Theorem only_recorded_rewrites_change_a_request c r x tr o :
  traces may (handle c r x) tr o -> sends c x (fold_left (watch lets_through) tr None) o.
Proof. exact (monitored_traces (handle_sends c r x)). Qed.

(** ** The guards passed *)

Record passed := mkPassed {
  p_allow : option Breaker.permission;
  p_spend : option (string * string * option SpendGuard.refusal);
  p_errors : option (string * string * (Z * Z))
}.

Definition passes (A : Type) (e : op A) : A -> passed -> passed :=
  match e with
  | Allow => fun p g => mkPassed (Some p) (p_spend g) (p_errors g)
  | CheckSpend _ tenant session => fun r g => mkPassed (p_allow g) (Some (tenant, session, r)) (p_errors g)
  | ErrorTokens tenant session => fun n g => mkPassed (p_allow g) (p_spend g) (Some (tenant, session, n))
  | _ => fun _ g => g
  end.

(** The guards over a summarised prompt, as they answered. *)
Definition guards_held (c : Config) (tenant session : string) (sum : RequestSummary) (g : passed) : Prop :=
  p_spend g = Some (tenant, session, None) /\
  (exists n, p_errors g = Some (tenant, session, n) /\ LoopGuard.Budget_Check (cfg_ErrorBudget c) n.1 n.2 = None) /\
  LoopGuard.v_Block (LoopGuard.DetectLoop (Ledger.Messages (sum_Prompt sum)) (Loops c)) = false.

Definition let_through (c : Config) (x : exchange) (g : passed) (o : outcome) : Prop :=
  match o with
  | Forwarded sent rec =>
      exists tenant p, ResolveTenant (x_tenant x) = (tenant, None) /\ p_allow g = Some p /\ Breaker.ok p = true /\
        (readable (x_path x) = true -> sent <> [] -> x_override x = "" ->
         guards_held c tenant (SessionID rec) (Summary rec) g)
  | _ => True
  end.

Lemma guard_lets_through c x tenant d refuse pass p :
  (forall k g, True -> monitored may any passes (let_through c x) g (refuse k)) ->
  (forall g, p_allow g = Some p /\ (x_override x = "" -> guards_held c tenant (d_session d) (d_summary d) g) ->
     monitored may any passes (let_through c x) g pass) ->
  forall g, p_allow g = Some p -> monitored may any passes (let_through c x) g (guard c x tenant d refuse pass).
Proof.
  intros Hr Hp g Hg. unfold guard.
  assert (x_override x = "" -> negb (String.eqb (x_override x) "") = false) as Ho by by intros ->.
  set (override := negb (String.eqb (x_override x) "")) in *.
  split; [done |]. intros over _. destruct (bool_decide (is_Some over) && negb override) eqn:E1; [by apply Hr |].
  split; [done |]. intros n _.
  destruct (bool_decide (is_Some (LoopGuard.Budget_Check (cfg_ErrorBudget c) n.1 n.2)) && negb override) eqn:E2; [by apply Hr |].
  destruct (LoopGuard.v_Block _ && negb override) eqn:E3; [by apply Hr |].
  match goal with |- monitored _ _ _ _ ?g' _ =>
    assert (monitored may any passes (let_through c x) g' pass) as Hpass end.
  { apply Hp. cbn. split; [done |]. intros Hov%Ho. rewrite Hov, andb_true_r in *.
    unfold guards_held. cbn. rewrite E3. apply bool_decide_eq_false, eq_None_not_Some in E1 as ->.
    apply bool_decide_eq_false, eq_None_not_Some in E2. repeat split. by exists n. }
  destruct (String.eqb (PrefixHash (d_summary d)) ""); [exact Hpass |]. split; [done |]. intros prior _.
  destruct (PreFlight.preFlight _ _ _ _ _ _); try exact Hpass. by apply Hr.
Qed.

Lemma refuse_unseen c x tenant session model k probe g :
  monitored may any passes (let_through c x) g (refuseSession refusal_text x tenant session model k (giveBack probe (Refused k))).
Proof. apply refuseSession_watched; try done. by destruct probe. Qed.

Lemma prepare_lets_through c mine x tenant start p received body masked degraded g :
  ResolveTenant (x_tenant x) = (tenant, None) -> Breaker.ok p = true -> p_allow g = Some p ->
  monitored may any passes (let_through c x) g
    (prepare c mine x tenant start (Breaker.probe p)
       (if readable (x_path x) && some_body received then bodyHash sha256hex received else "") body masked degraded).
Proof.
  intros Ht Hok Hg.
  apply (prepare_watched (R := fun session sum g => p_allow g = Some p /\ (x_override x = "" -> guards_held c tenant session sum g))
           (K := fun _ => True)).
  - intros A e []; by split.
  - intros d refuse pass Hr Hpass. by apply (guard_lets_through _ _ _ _ _ _ p).
  - intros d sent g' Hp Hg'.
    assert (let_through c x g' (Forwarded sent (left sha256hex inflate eval_symlinks scopes c x d "" 0 None))) as HQ.
    { exists tenant, p. cbn. destruct Hg' as [[-> Hno]|[Ha Hgu]]; (split; [done |]; split; [done |]; split; [done |]);
        intros Hrd Hne Hov; [exfalso | by apply Hgu]. destruct Hno as [Hno | Hno]; [congruence |].
      by apply Hne, (pr_empty _ _ _ _ _ _ _ _ Hp). }
    apply forward_watched; [intros A e []; by split | intros A e []; by split | done | done |].
    intros waited correlation now cache. replace (told _ _ _ _ _ _ _) with g' by (unfold told; by destruct (seen c x)).
    apply core_watched; try done. destruct (Breaker.probe p && _); [split; [done |]; intros ? _ |]; exact HQ.
  - intros. apply refuse_unseen.
Qed.

Lemma handle_lets_through c mine x : monitored may any passes (let_through c x) (mkPassed None None None) (handle c mine x).
Proof.
  apply handle_watched; try done.
  - intros A e []; by split.
  - intros p _ status. by destruct (Breaker.probe p).
  - intros p Hok tenant start body Ht _. unfold admitted.
    apply mask_watched; [intros; by apply prepare_lets_through |].
    intros m _ _. split; [done |]. intros []; by apply prepare_lets_through.
Qed.

(** C11: nothing reaches the provider past a guard: a request is forwarded only
    when its tenant resolved and the breaker let it through, and one with a body
    that can be read only when the spend cap was not reached, the error budget
    was not spent and no call was looping, for the tenant and session the record
    names and the prompt it summarises, or when the client overrode them. *)
Theorem a_forwarded_request_passed_the_guards c r x tr o :
  traces may (handle c r x) tr o -> let_through c x (fold_left (watch passes) tr (mkPassed None None None)) o.
Proof. exact (monitored_traces (handle_lets_through c r x)). Qed.

(** ** What the comments say otherwise *)

(** The proxy's transport reports a client that left before any response as any
    other failed round trip, and the breaker is told of one. *)
Lemma a_round_trip_without_response_is_a_failure c x retries :
  x_upstream x = NoResponse retries -> told_of c x = [Told true].
Proof. intros E. unfold told_of, Handle.seen, Handle.answer_of. rewrite E. by rewrite orb_comm. Qed.

(** A body that is not JSON goes on as it came, recorded as scrubbed. *)
Lemma an_unreadable_body_is_not_masked log2 c x m (v : Va) body k :
  cfg_Masker c = Some m -> maskable (x_path x) && some_body body && negb (NoPolicy c) = true ->
  Masking.stringValues body = None ->
  (Masking.Mask log2 m v body).1 = Masking.Unread body /\
  exists k', Handle.mask c x body k = Do (MaskBody m body) k' /\ k' (Masking.Unread body) = k body ∅ true.
Proof.
  intros Hm Hc Hb. split; [unfold Masking.Mask; by rewrite Hb |]. unfold Handle.mask. rewrite Hm, Hc. by eexists.
Qed.

End proxy.

(** ** On the scene *)

Definition shape (f : effect) : string * Z :=
  match f with
  | Told b => ("told", if b then 1 else 0)
  | Charged tenant session n _ _ => ((tenant ++ "/" ++ session)%string, n)
  | Wrote rec => ("wrote", Status rec)
  | Counted k => (refusal_counter k, 1)
  end.

Lemma what_a_request_leaves_behind_witness :
  List.map shape (effects (HandleScene.served HandleScene.config HandleScene.plain).1)
    = [("told", 0); ("LOCAL/s1", 12); ("wrote", 200)] /\
  settled HandleScene.digest HandleScene.resolve HandleScene.everywhere HandleScene.explain None HandleScene.config
    HandleScene.plain (effects (HandleScene.served HandleScene.config HandleScene.plain).1)
    (HandleScene.served HandleScene.config HandleScene.plain).2.
Proof.
  split; [vm_compute; reflexivity |].
  refine (what_a_request_leaves_behind HandleScene.digest HandleScene.keyed HandleScene.expand HandleScene.resolve
    HandleScene.everywhere HandleScene.explain None "k" HandleScene.config 1 HandleScene.plain _ _ _).
  apply HandleScene.served_traces.
Defined.

Definition sent_of (o : outcome) : bytes := match o with Forwarded sent _ => sent | _ => [] end.

Lemma only_recorded_rewrites_change_a_request_witness :
  sent_of (HandleScene.served HandleScene.masking HandleScene.secret).2 = HandleScene.safe_request /\
  sends HandleScene.digest HandleScene.masking HandleScene.secret
    (fold_left (watch lets_through) (HandleScene.served HandleScene.masking HandleScene.secret).1 None)
    (HandleScene.served HandleScene.masking HandleScene.secret).2.
Proof.
  split; [vm_compute; reflexivity |].
  refine (only_recorded_rewrites_change_a_request HandleScene.digest HandleScene.keyed HandleScene.expand HandleScene.resolve
    HandleScene.everywhere HandleScene.explain None "k" HandleScene.masking 1 HandleScene.secret _ _ _).
  apply HandleScene.served_traces.
Defined.

Lemma a_forwarded_request_passed_the_guards_witness :
  sent_of (HandleScene.served HandleScene.config HandleScene.plain).2 = HandleScene.request /\
  let_through HandleScene.config HandleScene.plain
    (fold_left (watch passes) (HandleScene.served HandleScene.config HandleScene.plain).1 (mkPassed None None None))
    (HandleScene.served HandleScene.config HandleScene.plain).2.
Proof.
  split; [vm_compute; reflexivity |].
  refine (a_forwarded_request_passed_the_guards HandleScene.digest HandleScene.keyed HandleScene.expand HandleScene.resolve
    HandleScene.everywhere HandleScene.explain None "k" HandleScene.config 1 HandleScene.plain _ _ _).
  apply HandleScene.served_traces.
Defined.

End HandleEffects.
